(* ===== verification/_CoqProject ===== *)
-Q . S2P
Prelude.v
Float64.v
GoStrings.v
Net.v
Crypto.v
Json.v
Utf8.v
JsonFacts.v
JsonStream.v
IpText.v
Accounting.v
RecordLog.v
Writer.v
Config.v
ConfigFacts.v
Peer.v
Auth.v
Limiter.v
Routing.v
Backend.v
Affinity.v
Budget.v
Sse.v
Errors.v
Diag.v
Discovery.v
Setup.v
Paths.v
Prog.v
Host.v
Replace.v
Frame.v
Keys.v
Load.v
Flags.v
Sandbox.v
Fs.v
Commit.v
Syscalls.v
Outbound.v
Routes.v
Ingress.v
IngressFacts.v
Dispatch.v
Pump.v
Proxy.v
Daemon.v
Clients.v
Inflight.v
Provision.v
Init.v
InitFacts.v
Cli.v
CliFacts.v
Wire.v
Serve.v
Lifecycle.v
Build.v
