(* ===== verification/Prelude.v ===== *)
(** * Mellomting: a verification library

    Mellomting (Go, [src/]) is a proxy between many API clients and a few
    OpenAI-compatible inference servers.  A request is authenticated against
    a file of keys ([internal/auth]), admitted under rate and concurrency
    limits ([internal/limiter]), resolved to a public model or to a stored
    response under the key's access list, checked against token quotas
    ([internal/accounting]), routed to a backend ([internal/routing]),
    admitted to that backend's slots and sent ([internal/backend]), retried
    within bounds, and its answer relayed, metered and settled
    ([internal/proxy]), behind an HTTP surface ([internal/httpapi]).  All of
    it is built from one strict YAML file ([internal/config]) by one command
    ([cmd/mellomting]), which also writes that file, installs the service,
    manages the keys and confines the daemon before it serves.

    ** Parts

    A file models one part of the source; definitions keep the source's
    names, and where two packages use one name the file name tells them
    apart.  Records are the Go structs, inductive types the error sentinels
    and states; a method that runs under a mutex is one step on an explicit
    state; code that interleaves (the budget's compare-and-swap, the
    backend's admission channels, the admission of a request, the accounting
    queue) is a step relation over the program counters of all its callers;
    code that calls the operating system is a program, a tree of calls, whose
    executions the behaviour of the system decides.

    Foundations:
    - [Prelude]: results of fallible functions, int64 arithmetic with its
      wrap-around, time, tactics, lemmas on lists.
    - [Float64]: the interface of a float64, a class with two instances, the
      IEEE 754 binary64 of the Standard Library and exact rationals, and the
      laws shared by both.  Theorems about rates that need exact arithmetic
      say so.
    - [GoStrings], [Net], [Crypto], [IpText], [Paths], [Utf8], [Flags]: what
      is used of strings, net, net/netip and url.URL, sha256, hmac, hex and
      base64, the text of addresses, path/filepath, runes and unicode, flag,
      strconv and the formats of time.  [Paths] also has the service group of
      [internal/securefile].
    - [Json], [JsonFacts], [JsonStream]: what is used of encoding/json: trees,
      the decoding rules of Go types, quoting, the canonical encoding of a
      map with its round trip, and the token stream of a decoder.
    - [Prog]: programs over a signature of calls, their executions among
      other processes, the logic [always] of what holds at every moment, and
      runs that compute.  [Fs] is one directory seen through descriptors (for
      [init]), [Host] the file system and host seen through paths.

    Configuration and keys:
    - [Config], [ConfigFacts], [Load]: [internal/config]: source document,
      normalization, defaults, validation, effective projection, the strict
      tree check, and the bounded reading of the file.
    - [Auth], [Keys]: [internal/auth]: the key grammar, minting, hashing, the
      validated users file, the store and its [Lookup]; the locked update of
      the users file and the key commands' changes.
    - [Replace]: [internal/securefile]: checked reading, atomic replacement.

    A request:
    - [Peer], [Routes], [Ingress], [IngressFacts]: [internal/httpapi]: the
      client's address, the routes, and the admission of requests through all
      limits, with reloads, as interleaved steps.
    - [Limiter]: token buckets, concurrency slots, the per-key registry and
      its carry-over at a reload, the bounded pre-auth source table.  Limiters
      are shared by pointer, so they live in a heap of addresses and the
      registry maps keys to addresses.  A reload computes the carrying
      registry and publishes it later, two steps between which requests run,
      and a request may ask its own generation at any time.
    - [Errors], [Outbound], [Dispatch], [Pump], [Proxy]: [internal/proxy]: the
      client-visible errors; the body from parse to canonical encoding, the
      output cap, usage injection; body acquisition, target resolution,
      preparation, the retry loop, the settlement; the stream relay; the
      phases composed as [dispatch] composes them.
    - [Affinity], [Budget], [Sse]: the proxy's affinity table, byte budget
      and SSE reader.  [Wire]: the request sent to a backend with its headers
      and URL, the relay of a buffered body under write deadlines, the text a
      client puts into log lines, the logger's settings, the version line.
    - [Routing], [Backend], [Diag]: selection under the five strategies and
      passive health; egress policy and dialer, URL checks, admission, what
      [Forward] returns and releases; the detail taken from an error body.
    - [Accounting], [RecordLog], [Writer]: [internal/accounting]: usage and
      quota windows, records as lines of the log with replay and report, the
      queue in front of the file.
    - [Inflight]: [internal/inflight], [internal/adminapi] and the reader of
      [top].

    The process:
    - [Clients], [Daemon], [Build]: the backend clients and their shared
      admission pools, the users file watched and reloaded, and [buildDaemon]
      as the composition of the parts above.
    - [Serve], [Lifecycle]: the sockets and the connection cap; [serveCmd] from
      loading to exit.
    - [Sandbox]: [internal/sandbox], [internal/landlock], [internal/seatbelt]:
      the policy, the rules and the profile, the enforcement modes.
    - [Discovery], [Setup]: [internal/discovery]: a model list parsed from a
      stream, one bounded request, the derived policy, the aggregate.
    - [Init], [InitFacts], [Commit], [Syscalls]: [init]: its arguments, the
      rendered documents, the order of its steps, the transaction that
      publishes three files, and the Linux calls behind it.
    - [Frame], [Provision]: [internal/systemd] and [install].
    - [Cli], [CliFacts]: the command line of every command, help and usage,
      [sandbox check], the key list, the usage report, [top].

    ** What is proved

    - The whole request ([Proxy]): budget conserved, one settlement of what
      the outcome costs, of which the record in the log is an account, no
      charge for errors, contact with a backend only
      when authorized and under the retry discipline; and in front of it
      ([IngressFacts]) that only authenticated requests within every limit
      get that far, however they interleave with each other and with reloads.
    - Access: what [Lookup] admits and reveals, what a resolved target
      guarantees, isolation of stored responses between keys, one canonical
      model name per outbound body, the egress policy on every dial, that a
      client cannot forge its address, and what of a client reaches a backend
      ([Wire]) or the log.
    - Bounds: buckets, slots, source table, affinity table, byte budget,
      events, relayed bytes, retries, output caps, reported usage.
    - Refinement: the key store is the users file; the normalized
      configuration is the document; quota windows are the sums of what
      landed in them, in whatever order concurrent stamps come; replay of the
      log, or of the tail that the configuration bounds, answers like the
      live quota; what
      validation accepts, the daemon can be built from ([Build]).
    - Fairness and choice of the routing strategies; exact cooldowns.
    - Files: replacement, the key update, [install] and [init] as
      transactions: with calls that fail, other processes between the calls
      and crashes at any moment, which lose what was not synced, a mode set
      after the sync included; the key update under the lock that the other
      writers wait on; [init]'s abstract operations refined to the
      Linux calls that implement them ([Syscalls]).
    - The process: order of startup and shutdown, one pool per server,
      revocation taking effect, confinement to exactly what the
      configuration names, and that [sandbox check] foretells [serve].
    - Text: the command lines of all commands are those of a grammar; the
      model list's streaming parser equals the reference on trees; the
      Seatbelt profile's quoting; the live view as [top] shows it.
    - Liveness and termination: admission never parks a request that could
      go on; the writer drains; the SSE reader and the relays end on every
      input.

    ** Parameters, bounds and fuel

    YAML decoding (gopkg.in/yaml.v3), [crypto/tls], the embedded files, the
    kernel's sandboxes and [http.Server] are code outside the repository, and
    [url.Parse] is used as a black box; they are arguments of the definitions
    that use them, or operations whose documented behaviour is written down.
    Randomness, the resolver, the dialer, the HTTP round trip, map iteration
    orders, clocks, timers and the client are arguments or events, over which
    the theorems quantify.  The operating system is [behaves] of [Fs] and
    [Host] and [kernel_does] of [Syscalls]: any call may fail at any time;
    other processes may add entries, and what else they may do each file
    says; a program that [install] starts does whatever other processes may; a
    dialed socket answers when something listens on it; a lock excludes those
    who take it, and nobody else.  For each there is an executable system shown to behave so.
    Fuel: the JSON parser takes twice the length of the text plus two
    ([JsonFacts.json_parse_print] shows it enough for the encoder's texts);
    the SSE reader and the relay take one more than the bytes of the stream
    ([Sse.sse_bounded] and [Pump.pump_relays] show they then return); the
    retry loop takes the configured number of attempts, as in the code; the
    relay of a buffered body takes its length, and the write loop of [init]
    the length of the text and the number of the kernel's idle returns
    ([Wire.buffered_relayed] and [Syscalls.production_refines] show that
    neither runs out); [serveCmd]'s loop is cut off after any number of events,
    over which the theorems quantify.

    ** Not modelled

    Log lines as such, and the layout [text/tabwriter] and the terminal give
    to tables; [net/http]'s server and transport, and with them the timers of
    a stream and the write deadlines of the stream relay; the Landlock and
    Seatbelt system calls; the opening of the accounting file for appending,
    and the system's trust store; the decoding of YAML scalars into durations
    and backend references; the shape of admin socket responses beyond their
    JSON; [internal/testsupport]. *)

From Stdlib Require Export ZArith Lia.
From stdpp Require Export base option list gmap strings.

#[global] Open Scope Z_scope.

(** ** Results of fallible Go functions

    A Go function returning [(T, error)] returns [Ok v] or [Err e]. *)
Inductive result (E A : Type) : Type :=
| Ok (a : A)
| Err (e : E).
Arguments Ok {E A} a.
Arguments Err {E A} e.

Declare Scope go_scope.
Delimit Scope go_scope with go.

Notation "'let?' x := c 'in' k" :=
  (match c with Ok x => k | Err e => Err e end)
  (at level 10, x name, c at level 100, k at level 200) : go_scope.
Notation "'guard?' b 'else' e 'in' k" :=
  (if b then k else Err e)
  (at level 10, b at level 100, e at level 100, k at level 200) : go_scope.

#[global] Open Scope go_scope.

Definition is_ok {E A} (r : result E A) : bool :=
  match r with Ok _ => true | Err _ => false end.

(** ** Machine integers

    Go's [int] and [int64] are 64-bit two's complement on every platform
    the program supports; an [int64] is a [Z] in range and every operation
    that can leave the range is written with [wrap64]. *)
Definition MaxInt64 : Z := 2 ^ 63 - 1.
Definition MinInt64 : Z := - 2 ^ 63.
Definition in_int64 (z : Z) : Prop := MinInt64 <= z <= MaxInt64.
Definition wrap64 (z : Z) : Z := (z + 2 ^ 63) mod 2 ^ 64 - 2 ^ 63.
Definition wrapu64 (z : Z) : Z := z mod 2 ^ 64.

Lemma pow63_value : 2 ^ 63 = 9223372036854775808.
Proof. reflexivity. Qed.
Lemma pow64_value : 2 ^ 64 = 18446744073709551616.
Proof. reflexivity. Qed.

(** [int64_unfold] turns the range predicates into inequalities on literal
    numbers, which is what [lia] wants. *)
Ltac int64_unfold :=
  unfold in_int64, MaxInt64, MinInt64 in *;
  rewrite ?pow63_value, ?pow64_value in *.

Lemma wrap64_id z : in_int64 z -> wrap64 z = z.
Proof.
  unfold wrap64; int64_unfold; intros Hz.
  rewrite Z.mod_small; lia.
Qed.

Lemma wrap64_range z : in_int64 (wrap64 z).
Proof.
  unfold wrap64; int64_unfold.
  pose proof (Z.mod_pos_bound (z + 9223372036854775808) 18446744073709551616). lia.
Qed.

(** ** Time

    A [time.Time] is the number of nanoseconds since Go's zero time
    (January 1, year 1, UTC); a [time.Duration] is an [int64] number of
    nanoseconds.  [Time.Sub] saturates at the [Duration] range.  *)
Definition time := Z.
Definition duration := Z.

Definition Nanosecond : duration := 1.
Definition Millisecond : duration := 1000000.
Definition Second : duration := 1000000000.
Definition Minute : duration := 60 * Second.
Definition Hour : duration := 60 * Minute.

Definition zero_time : time := 0.
Definition After (t u : time) : bool := u <? t.
Definition Before (t u : time) : bool := t <? u.
Definition time_add (t : time) (d : duration) : time := t + d.
Definition time_sub (t u : time) : duration := Z.max MinInt64 (Z.min MaxInt64 (t - u)).

(** [Time.Unix]: whole seconds since 1970, rounding towards the past. *)
Definition unix_to_internal : Z := 62135596800.
Definition Unix (t : time) : Z := t / Second - unix_to_internal.

Lemma time_sub_le t u : u <= t -> 0 <= time_sub t u <= t - u.
Proof. unfold time_sub; int64_unfold; lia. Qed.

Lemma time_sub_exact t u : u <= t -> t - u <= MaxInt64 -> time_sub t u = t - u.
Proof. unfold time_sub; int64_unfold; lia. Qed.

(** ** Automation *)

Create HintDb go.
Create Rewrite HintDb go_simpl.
#[export] Hint Resolve wrap64_range : go.
#[export] Hint Rewrite @bool_decide_eq_true @bool_decide_eq_false : go_simpl.

(** Case analysis on the [match]es and [if]s of the goal or a hypothesis,
    innermost scrutinee first, with the equation kept. *)
Ltac break_match_in H :=
  match type of H with
  | context [match ?x with _ => _ end] =>
      lazymatch x with
      | context [match _ with _ => _ end] => fail
      | _ => let E := fresh "E" in destruct x eqn:E
      end
  end.
Ltac break_match :=
  match goal with
  | |- context [match ?x with _ => _ end] =>
      lazymatch x with
      | context [match _ with _ => _ end] => fail
      | _ => let E := fresh "E" in destruct x eqn:E
      end
  end.

(** Turn the boolean comparisons of the context into propositions. *)
Ltac to_prop :=
  repeat match goal with
  | H : (_ && _)%bool = true |- _ => apply andb_prop in H; destruct H
  | H : (_ || _)%bool = false |- _ => apply orb_false_elim in H; destruct H
  | H : (_ && _)%bool = false |- _ => apply andb_false_iff in H
  | H : (_ || _)%bool = true |- _ => apply orb_true_iff in H
  | H : negb _ = true |- _ => apply negb_true_iff in H
  | H : negb _ = false |- _ => apply negb_false_iff in H
  | H : (_ <? _) = true |- _ => apply Z.ltb_lt in H
  | H : (_ <? _) = false |- _ => apply Z.ltb_ge in H
  | H : (_ <=? _) = true |- _ => apply Z.leb_le in H
  | H : (_ <=? _) = false |- _ => apply Z.leb_gt in H
  | H : (_ =? _) = true |- _ => apply Z.eqb_eq in H
  | H : (_ =? _) = false |- _ => apply Z.eqb_neq in H
  | H : String.eqb _ _ = true |- _ => apply String.eqb_eq in H
  | H : String.eqb _ _ = false |- _ => apply String.eqb_neq in H
  | H : bool_decide _ = true |- _ => apply bool_decide_eq_true in H
  | H : bool_decide _ = false |- _ => apply bool_decide_eq_false in H
  end.

(** ** Generic lemmas *)

(** The number of positions of [l] satisfying [p]. *)
Definition count {A} (p : A -> bool) (l : list A) : nat := length (List.filter p l).

Lemma count_cons {A} (p : A -> bool) x l :
  count p (x :: l) = ((if p x then 1 else 0) + count p l)%nat.
Proof. unfold count; simpl; destruct (p x); reflexivity. Qed.

Lemma count_app {A} (p : A -> bool) l k : count p (l ++ k) = (count p l + count p k)%nat.
Proof. unfold count. rewrite List.filter_app, length_app. reflexivity. Qed.

(** Replacing one position. *)
Lemma count_insert {A} (p : A -> bool) (l : list A) i x y : l !! i = Some x ->
  Z.of_nat (count p (<[i := y]> l)) = Z.of_nat (count p l) - (if p x then 1 else 0) + (if p y then 1 else 0).
Proof.
  revert i. induction l as [|a l IH]; intros [|i] Hl; try done; cbn in Hl.
  - injection Hl as ->. change (<[0%nat:=y]> (x :: l)) with (y :: l). rewrite !count_cons. destruct (p x), (p y); lia.
  - change (<[S i:=y]> (a :: l)) with (a :: <[i:=y]> l). rewrite !count_cons. specialize (IH _ Hl). destruct (p a); lia.
Qed.

Lemma count_pos {A} (p : A -> bool) (l : list A) i x : l !! i = Some x -> p x = true -> (0 < count p l)%nat.
Proof.
  revert i. induction l as [|a l IH]; intros [|i] Hl Hp; try done; cbn in Hl; rewrite count_cons.
  - injection Hl as ->. rewrite Hp. lia.
  - specialize (IH _ Hl Hp). lia.
Qed.

Lemma count_exists {A} (p : A -> bool) (l : list A) : (0 < count p l)%nat ->
  exists i x, l !! i = Some x /\ p x = true.
Proof.
  induction l as [|a l IH]; [unfold count; cbn; lia|]. rewrite count_cons.
  destruct (p a) eqn:E; [intros _; by exists 0%nat, a|]. intros (i & x & Hl & Hx)%IH. by exists (S i), x.
Qed.

(** An invariant of a step relation holds in every reachable state. *)
Lemma rtc_invariant {A} (R : A -> A -> Prop) (P : A -> Prop) x y :
  (forall x y, R x y -> P x -> P y) -> rtc R x y -> P x -> P y.
Proof. intros HR. induction 1; eauto. Qed.

(** Sum of a list of integers. *)
Definition zsum (l : list Z) : Z := foldr Z.add 0 l.

Lemma zsum_nil : zsum [] = 0.
Proof. reflexivity. Qed.
Lemma zsum_cons x l : zsum (x :: l) = x + zsum l.
Proof. reflexivity. Qed.
Lemma zsum_app l k : zsum (l ++ k) = zsum l + zsum k.
Proof. induction l; simpl; rewrite ?zsum_cons; lia. Qed.

Lemma zsum_nonneg l : Forall (fun z => 0 <= z) l -> 0 <= zsum l.
Proof. induction 1; rewrite ?zsum_cons; simpl; unfold zsum in *; simpl; lia. Qed.

Lemma flat_map_nil {A B} (f : A -> list B) l : flat_map f l = [] <-> Forall (fun x => f x = []) l.
Proof.
  induction l as [|x l IH]; cbn; [by split|]. rewrite app_nil, Forall_cons. by rewrite IH.
Qed.

#[global] Arguments zsum : simpl never.
#[global] Arguments count : simpl never.

#[export] Hint Rewrite @count_cons @count_app zsum_cons zsum_app : go_simpl.
