(* ===== verification/Float64.v ===== *)
(** * Go's [float64]

    The rate limiters are written with [float64].  The models that use it
    take the operations from the class [Float64], which has two instances:

    - [binary64], IEEE 754 double precision with round to nearest even, from
      the standard library's [SpecFloat]: executable, with NaN, infinities
      and rounding, and therefore what the program computes;
    - [exact], rational arithmetic, in which a bound that the program
      promises "up to rounding" can be stated and proved exactly.

    Comparisons are separate operations because [<] and [<=] are both false
    on a NaN, which the callers' guards depend on. *)

From Stdlib Require Import SpecFloat QArith Qround Lqa.
From S2P Require Import Prelude.

#[local] Open Scope Z_scope.

Class Float64 (F : Type) : Type := {
  f_of_Z : Z -> F;          (* float64(i) for an integer i *)
  f_add : F -> F -> F;
  f_sub : F -> F -> F;
  f_mul : F -> F -> F;
  f_div : F -> F -> F;
  f_ltb : F -> F -> bool;   (* a < b *)
  f_leb : F -> F -> bool;   (* a <= b *)
  f_eqb : F -> F -> bool;   (* a == b *)
  f_trunc : F -> Z;         (* int(f), time.Duration(f) *)
  f_ceil_int : F -> Z       (* int(math.Ceil(f)) *)
}.

(** [Duration.Seconds]: whole seconds and the nanosecond rest are converted
    separately and added. *)
Definition Seconds {F} `{Float64 F} (d : duration) : F :=
  f_add (f_of_Z (Z.quot d Second))
        (f_div (f_of_Z (Z.rem d Second)) (f_of_Z 1000000000)).

(** ** IEEE 754 binary64 *)
Module Binary64.
Definition prec : Z := 53.
Definition emax : Z := 1024.

Definition of_Z (z : Z) : spec_float := binary_normalize prec emax z 0 false.

(** The exact value of a finite float is [m * 2 ^ e]; conversion to an
    integer type drops the fraction.  Go leaves the conversion of a value
    that does not fit (NaN and infinities included) to the implementation;
    this is what amd64 gives. *)
Definition out_of_range : Z := MinInt64.
Definition to_int64 (z : Z) : Z :=
  if (MinInt64 <=? z) && (z <=? MaxInt64) then z else out_of_range.

Definition scale_quot (m e : Z) : Z :=
  if 0 <=? e then m * 2 ^ e else Z.quot m (2 ^ (- e)).
Definition scale_ceil (m e : Z) : Z :=
  if 0 <=? e then m * 2 ^ e else - ((- m) / 2 ^ (- e)).

Definition signed (s : bool) (m : positive) : Z := if s then Z.neg m else Z.pos m.

Definition trunc (f : spec_float) : Z :=
  match f with
  | S754_zero _ => 0
  | S754_finite s m e => to_int64 (scale_quot (signed s m) e)
  | _ => out_of_range
  end.
Definition ceil_int (f : spec_float) : Z :=
  match f with
  | S754_zero _ => 0
  | S754_finite s m e => to_int64 (scale_ceil (signed s m) e)
  | _ => out_of_range
  end.
End Binary64.

#[export] Instance binary64 : Float64 spec_float := {|
  f_of_Z := Binary64.of_Z;
  f_add := SFadd Binary64.prec Binary64.emax;
  f_sub := SFsub Binary64.prec Binary64.emax;
  f_mul := SFmul Binary64.prec Binary64.emax;
  f_div := SFdiv Binary64.prec Binary64.emax;
  f_ltb := SFltb;
  f_leb := SFleb;
  f_eqb := SFeqb;
  f_trunc := Binary64.trunc;
  f_ceil_int := Binary64.ceil_int
|}.

(** ** Exact arithmetic *)
Definition Qtrunc (q : Q) : Z := Z.quot (Qnum q) (QDen q).

#[export] Instance exact : Float64 Q := {|
  f_of_Z := inject_Z;
  f_add := Qplus;
  f_sub := Qminus;
  f_mul := Qmult;
  f_div := Qdiv;
  f_ltb a b := negb (Qle_bool b a);
  f_leb := Qle_bool;
  f_eqb := Qeq_bool;
  f_trunc := Qtrunc;
  f_ceil_int := Qceiling
|}.

Lemma Qltb_lt (a b : Q) : f_ltb a b = true <-> (a < b)%Q.
Proof.
  simpl. rewrite negb_true_iff, <- not_true_iff_false, Qle_bool_iff.
  split; [apply Qnot_le_lt | apply Qlt_not_le].
Qed.
Lemma Qltb_ge (a b : Q) : f_ltb a b = false <-> (b <= a)%Q.
Proof. simpl. rewrite negb_false_iff. apply Qle_bool_iff. Qed.
Lemma Qleb_le (a b : Q) : f_leb a b = true <-> (a <= b)%Q.
Proof. apply Qle_bool_iff. Qed.
Lemma Qleb_gt (a b : Q) : f_leb a b = false <-> (b < a)%Q.
Proof.
  rewrite <- not_true_iff_false, Qleb_le.
  split; [apply Qnot_le_lt | apply Qlt_not_le].
Qed.

(** In exact arithmetic the seconds of a duration are its nanoseconds over
    10^9. *)
Lemma Seconds_exact (d : duration) :
  (@Seconds Q _ d == inject_Z d / inject_Z 1000000000)%Q.
Proof.
  unfold Seconds; simpl.
  assert (Hd : d = Second * Z.quot d Second + Z.rem d Second) by apply Z.quot_rem'.
  rewrite Hd at 3. unfold Second. rewrite inject_Z_plus, inject_Z_mult.
  field.
Qed.

(** Truncation of a nonnegative rational is its floor. *)
Lemma Qtrunc_bounds (q : Q) :
  (0 <= q)%Q -> (inject_Z (Qtrunc q) <= q)%Q /\ (q < inject_Z (Qtrunc q + 1))%Q.
Proof.
  intros Hq. assert (Hn : 0 <= Qnum q) by (unfold Qle in Hq; simpl in Hq; lia).
  assert (Ht : Qtrunc q = Qfloor q).
  { unfold Qtrunc. destruct q as [n p]; simpl in *. apply Z.quot_div_nonneg; lia. }
  rewrite Ht. split; [apply Qfloor_le | apply Qlt_floor].
Qed.

(** ** The laws the limiter's [match] relies on

    A positive number and a converted integer are equal to themselves (no
    NaN among them).  Both instances satisfy them. *)
Class Float64Laws (F : Type) `{Float64 F} : Prop := {
  f_eqb_pos : forall x, f_ltb (f_of_Z 0) x = true -> f_eqb x x = true;
  f_eqb_of_Z : forall z, f_eqb (f_of_Z z) (f_of_Z z) = true;
  f_leb_ltb_incompat : forall x, f_ltb (f_of_Z 0) x = true -> f_leb x (f_of_Z 0) = false
}.

#[export] Instance exact_laws : Float64Laws Q.
Proof.
  split; simpl.
  - intros x _. apply Qeq_bool_iff. reflexivity.
  - intros z. apply Qeq_bool_iff. reflexivity.
  - intros x Hx. by apply negb_true_iff in Hx.
Qed.

(** No operation sequence of [binary_normalize] reaches a NaN. *)
Definition not_nan (f : spec_float) : Prop := f <> S754_nan.

Lemma shr_1_nonneg r : 0 <= shr_m r -> 0 <= shr_m (shr_1 r).
Proof. destruct r as [[|p|p] ? ?]; simpl; [lia| |lia]. destruct p; simpl; lia. Qed.

Lemma shr_nonneg r e n : 0 <= shr_m r -> 0 <= shr_m (fst (shr r e n)).
Proof.
  intros Hr. unfold shr. destruct n as [|p|p]; simpl; try done.
  revert r Hr. induction p as [p IH|p IH|]; intros r Hr; simpl.
  - apply IH, IH. by apply shr_1_nonneg.
  - apply IH, IH. done.
  - by apply shr_1_nonneg.
Qed.

Lemma shr_record_of_loc_m m l : shr_m (shr_record_of_loc m l) = m.
Proof. destruct l as [|[]]; done. Qed.

Lemma shr_fexp_nonneg m e l : 0 <= m -> 0 <= shr_m (fst (shr_fexp Binary64.prec Binary64.emax m e l)).
Proof. intros Hm. unfold shr_fexp. apply shr_nonneg. by rewrite shr_record_of_loc_m. Qed.

Lemma round_nearest_even_nonneg m l : 0 <= m -> 0 <= round_nearest_even m l.
Proof. destruct l as [|[]]; simpl; try lia. case_match; lia. Qed.

Lemma binary_round_aux_not_nan s m e l :
  0 <= m -> not_nan (binary_round_aux Binary64.prec Binary64.emax s m e l).
Proof.
  intros Hm. unfold binary_round_aux.
  destruct (shr_fexp _ _ m e l) as [r1 e1] eqn:E1.
  pose proof (shr_fexp_nonneg m e l Hm) as H1. rewrite E1 in H1. cbn [fst] in H1.
  set (m2 := round_nearest_even _ _).
  assert (0 <= m2) as H2 by by apply round_nearest_even_nonneg.
  destruct (shr_fexp _ _ m2 e1 loc_Exact) as [r3 e3] eqn:E3.
  pose proof (shr_fexp_nonneg m2 e1 loc_Exact H2) as H3. rewrite E3 in H3. cbn [fst] in H3.
  destruct (shr_m r3); [done| |lia]. by case_match.
Qed.

Lemma of_Z_not_nan z : not_nan (Binary64.of_Z z).
Proof.
  unfold Binary64.of_Z, binary_normalize. destruct z as [|p|p]; [done| |];
    unfold binary_round; destruct (shl_align p 0 _) as [mz ez];
    by apply binary_round_aux_not_nan.
Qed.

Lemma SFeqb_refl f : not_nan f -> SFeqb f f = true.
Proof.
  unfold not_nan, SFeqb. destruct f as [s|s| |s m e]; try done; cbn; intros _.
  - by destruct s.
  - rewrite Z.compare_refl. destruct s; by rewrite Pos.compare_cont_refl.
Qed.

#[export] Instance binary64_laws : Float64Laws spec_float.
Proof.
  split; cbn [f_eqb f_ltb f_leb f_of_Z binary64].
  - intros x Hx. apply SFeqb_refl. intros ->. done.
  - intros z. apply SFeqb_refl, of_Z_not_nan.
  - intros x. unfold SFltb, SFleb. destruct x as [s|s| |s m e]; try done; by destruct s.
Qed.
