(* ===== verification/GoStrings.v ===== *)
(** * Go strings

    A Go string is a sequence of bytes, which is what [String.string] is.
    This file models the parts of the [strings] and [unicode/utf8] packages
    the program uses. *)

From S2P Require Import Prelude.
From Stdlib Require Import Ascii.

#[global] Arguments String.append : simpl nomatch.
#[global] Open Scope Z_scope.

Definition bval (c : ascii) : Z := Z.of_N (N_of_ascii c).
Definition byte (z : Z) : ascii := ascii_of_N (Z.to_N (z mod 256)).
Definition slen (s : string) : Z := Z.of_nat (String.length s).

Definition ch_nl : ascii := "010"%char.
Definition ch_cr : ascii := "013"%char.
Definition ch_space : ascii := " "%char.
Definition ch_dquote : ascii := "034"%char.

Lemma bval_range c : 0 <= bval c < 256.
Proof. unfold bval. pose proof (N_ascii_bounded c). lia. Qed.
Lemma byte_bval c : byte (bval c) = c.
Proof.
  unfold byte, bval. rewrite Z.mod_small by (pose proof (N_ascii_bounded c); lia).
  rewrite N2Z.id. apply ascii_N_embedding.
Qed.
Lemma bval_byte z : 0 <= z < 256 -> bval (byte z) = z.
Proof.
  intros Hz. unfold byte, bval. rewrite Z.mod_small by lia.
  rewrite N_ascii_embedding by lia. lia.
Qed.

Definition in_range (lo hi : Z) (c : ascii) : bool := (lo <=? bval c) && (bval c <=? hi).
Definition is_lower (c : ascii) : bool := in_range 97 122 c.
Definition is_upper (c : ascii) : bool := in_range 65 90 c.
Definition is_digit (c : ascii) : bool := in_range 48 57 c.

(** ASCII part of [unicode.ToLower], which is all of it on the header names
    and keywords the program folds. *)
Definition lower_ascii (c : ascii) : ascii :=
  if is_upper c then byte (bval c + 32) else c.

Fixpoint smap (f : ascii -> ascii) (s : string) : string :=
  match s with "" => "" | String c s' => String (f c) (smap f s') end.
Fixpoint sforall (p : ascii -> bool) (s : string) : bool :=
  match s with "" => true | String c s' => p c && sforall p s' end.
Fixpoint sfilter (p : ascii -> bool) (s : string) : string :=
  match s with
  | "" => ""
  | String c s' => if p c then String c (sfilter p s') else sfilter p s'
  end.

Definition to_lower (s : string) : string := smap lower_ascii s.
(** [strings.EqualFold] against an ASCII word without [k] or [s] (the two
    letters with a non-ASCII fold partner). *)
Definition equal_fold (s t : string) : bool := String.eqb (to_lower s) (to_lower t).

Definition has_prefix (p s : string) : bool := String.prefix p s.
Fixpoint sdrop (n : nat) (s : string) : string :=
  match n, s with O, _ => s | S n, String _ s' => sdrop n s' | S _, "" => "" end.
Fixpoint stake (n : nat) (s : string) : string :=
  match n, s with
  | O, _ => "" | S n, String c s' => String c (stake n s') | S _, "" => ""
  end.
Definition trim_prefix (p s : string) : string :=
  if has_prefix p s then sdrop (String.length p) s else s.
Definition has_suffix (p s : string) : bool :=
  (String.length p <=? String.length s)%nat &&
  String.eqb (sdrop (String.length s - String.length p) s) p.
(** [strings.CutSuffix]. *)
Definition cut_suffix (p s : string) : option string :=
  if has_suffix p s then Some (stake (String.length s - String.length p) s) else None.
Definition trim_suffix (p s : string) : string :=
  match cut_suffix p s with Some t => t | None => s end.

(** [strings.TrimSpace]: the code points with Unicode's White_Space property,
    in UTF-8, cut from both ends. *)
Definition space_runes : list string :=
  map (fun l => String.string_of_list_ascii (map byte l))
    ([[9]; [10]; [11]; [12]; [13]; [32]; [194; 133]; [194; 160]; [225; 154; 128]]
     ++ map (fun c => [226; 128; c]) [128; 129; 130; 131; 132; 133; 134; 135; 136; 137; 138; 168; 169; 175]
     ++ [[226; 129; 159]; [227; 128; 128]]).
Fixpoint trim_left_space (n : nat) (s : string) : string :=
  match n with
  | O => s
  | S n => match List.find (fun w => has_prefix w s) space_runes with
           | Some w => trim_left_space n (trim_prefix w s)
           | None => s
           end
  end.
Fixpoint trim_right_space (n : nat) (s : string) : string :=
  match n with
  | O => s
  | S n => match List.find (fun w => has_suffix w s) space_runes with
           | Some w => trim_right_space n (trim_suffix w s)
           | None => s
           end
  end.
Definition TrimSpace (s : string) : string :=
  let s := trim_left_space (String.length s) s in trim_right_space (String.length s) s.
Example TrimSpace_ex : map TrimSpace ["  a b "; "a"; ""; "   "] = ["a b"; "a"; ""; ""].
Proof. reflexivity. Qed.

(** [strings.Split] on a one-byte separator. *)
Fixpoint split_on (c : ascii) (s : string) : list string :=
  match s with
  | "" => [""]
  | String a s' =>
      if Ascii.eqb a c then "" :: split_on c s'
      else match split_on c s' with
           | [] => [String a ""]
           | w :: ws => String a w :: ws
           end
  end.

Fixpoint join_with (sep : string) (l : list string) : string :=
  match l with
  | [] => ""
  | [w] => w
  | w :: l' => w +:+ sep +:+ join_with sep l'
  end.

Fixpoint contains_char (c : ascii) (s : string) : bool :=
  match s with "" => false | String a s' => Ascii.eqb a c || contains_char c s' end.

(** ** Lemmas *)

Lemma sapp_assoc (a b c : string) : (a +:+ b) +:+ c = a +:+ (b +:+ c).
Proof. induction a as [|x a IH]; [reflexivity|]; cbn; f_equal; apply IH. Qed.
Lemma sapp_nil_r (a : string) : a +:+ "" = a.
Proof. induction a as [|x a IH]; [reflexivity|]; cbn; f_equal; apply IH. Qed.
Lemma slen_app (a b : string) : String.length (a +:+ b) = (String.length a + String.length b)%nat.
Proof. induction a as [|x a IH]; [reflexivity|]; cbn; f_equal; apply IH. Qed.
Lemma sforall_app p (a b : string) : sforall p (a +:+ b) = sforall p a && sforall p b.
Proof. induction a as [|x a IH]; [reflexivity|]; cbn; rewrite IH; apply andb_assoc. Qed.
Lemma sforall_impl (p q : ascii -> bool) s :
  (forall c, p c = true -> q c = true) -> sforall p s = true -> sforall q s = true.
Proof.
  intros Hpq. induction s as [|c s IH]; cbn; [done|].
  rewrite !andb_true_iff. intros [Hc Hs]. auto.
Qed.
Lemma sforall_contains p c s : sforall p s = true -> p c = false -> contains_char c s = false.
Proof.
  intros Hs Hc. induction s as [|a s IH]; cbn in *; [done|].
  apply andb_prop in Hs as [Ha Hs]. rewrite (IH Hs), orb_false_r.
  destruct (Ascii.eqb a c) eqn:E; [|done]. apply Ascii.eqb_eq in E. congruence.
Qed.

Lemma split_on_word c (w : string) :
  contains_char c w = false -> split_on c w = [w].
Proof.
  induction w as [|a w IH]; cbn; [done|]. intros H.
  apply orb_false_iff in H as [-> Hw]. by rewrite IH.
Qed.
Lemma split_on_app c (w s : string) :
  contains_char c w = false -> split_on c (w +:+ String c s) = w :: split_on c s.
Proof.
  induction w as [|a w IH]; cbn; intros H.
  - by rewrite Ascii.eqb_refl.
  - apply orb_false_iff in H as [Ha Hw]. by rewrite Ha, (IH Hw).
Qed.
Lemma split_on_nonempty c s : split_on c s <> [].
Proof. destruct s as [|a s]; cbn; [done|]. destruct (Ascii.eqb a c); [done|].
  destruct (split_on c s); done. Qed.
Lemma join_split c s : join_with (String c "") (split_on c s) = s.
Proof.
  induction s as [|a s IH]; [done|]. cbn [split_on].
  pose proof (split_on_nonempty c s) as Hne.
  destruct (Ascii.eqb a c) eqn:E.
  - apply Ascii.eqb_eq in E as ->. destruct (split_on c s) eqn:Es; [done|].
    change (join_with (String c "") ("" :: s0 :: l)) with (String c (join_with (String c "") (s0 :: l))).
    by rewrite IH.
  - destruct (split_on c s) as [|w ws]; [done|].
    destruct ws; cbn in *; by rewrite <- IH.
Qed.
Lemma split_on_no_sep c s : Forall (fun w => contains_char c w = false) (split_on c s).
Proof.
  induction s as [|a s IH]; cbn; [by repeat constructor|].
  destruct (Ascii.eqb a c) eqn:E; [by constructor|].
  destruct (split_on c s) as [|w ws]; [constructor; [cbn; by rewrite E|done]|].
  inversion IH; subst. constructor; [cbn; by rewrite E|done].
Qed.

#[export] Hint Rewrite sapp_assoc sapp_nil_r slen_app sforall_app : go_simpl.

Lemma has_prefix_app p s : has_prefix p (p +:+ s) = true.
Proof.
  unfold has_prefix. induction p as [|c p IH]; cbn; [by destruct s|].
  destruct (ascii_dec c c); [done|congruence].
Qed.
Lemma sdrop_app p s : sdrop (String.length p) (p +:+ s) = s.
Proof. induction p as [|c p IH]; [done|]. cbn. apply IH. Qed.
Lemma has_suffix_app s p : has_suffix p (s +:+ p) = true.
Proof.
  unfold has_suffix. rewrite slen_app. replace (String.length s + String.length p - String.length p)%nat with (String.length s) by lia.
  rewrite sdrop_app, String.eqb_refl, andb_true_r. apply Nat.leb_le. lia.
Qed.
Lemma stake_app p s : stake (String.length p) (p +:+ s) = p.
Proof. induction p as [|c p IH]; [by destruct s|]. cbn. by rewrite IH. Qed.
Lemma trim_prefix_app p s : trim_prefix p (p +:+ s) = s.
Proof. unfold trim_prefix. by rewrite has_prefix_app, sdrop_app. Qed.
Lemma has_prefix_inv p s : has_prefix p s = true -> s = p +:+ sdrop (String.length p) s.
Proof.
  unfold has_prefix. revert s. induction p as [|c p IH]; intros [|a s]; cbn; try done.
  destruct (ascii_dec c a) as [->|]; [|done]. intros Hp. by rewrite <- (IH _ Hp).
Qed.
Lemma contains_char_app c a b : contains_char c (a +:+ b) = contains_char c a || contains_char c b.
Proof. induction a as [|x a IH]; cbn; [done|]. by rewrite IH, orb_assoc. Qed.
Lemma stake_length n s : String.length (stake n s) = Nat.min n (String.length s).
Proof. revert n. induction s as [|c s IH]; intros [|n]; cbn; try done. by rewrite IH. Qed.

Lemma stake_sdrop n s : stake n s +:+ sdrop n s = s.
Proof. revert n. induction s as [|c s IH]; intros [|n]; cbn; try done. by rewrite IH. Qed.
Lemma stake_all i s : (String.length s <= i)%nat -> stake i s = s.
Proof.
  revert i. induction s as [|c s IH]; intros [|i] Hi; cbn in *; try done; [lia|]. f_equal. apply IH. lia.
Qed.

Lemma sapp_cancel_r (a b c : string) : a +:+ c = b +:+ c -> a = b.
Proof.
  intros Heq. assert (String.length a = String.length b) as Hlen.
  { apply (f_equal String.length) in Heq. rewrite !slen_app in Heq. lia. }
  rewrite <- (stake_app a c), <- (stake_app b c), Heq. by rewrite Hlen.
Qed.

(** [strings.ReplaceAll], of a word that is not empty. *)
Fixpoint replace_all (n : nat) (old new s : string) : string :=
  match n, s with
  | O, _ | _, "" => s
  | S n, String c s' => if has_prefix old s then new +:+ replace_all n old new (sdrop (String.length old) s) else String c (replace_all n old new s')
  end.
Definition ReplaceAll (s old new : string) : string := replace_all (String.length s) old new s.
Example ReplaceAll_ex : ReplaceAll "a@X@b@X@@X" "@X@" "/bin" = "a/binb/bin@X".
Proof. vm_compute. reflexivity. Qed.
