(* ===== verification/Net.v ===== *)
(** * Network addresses

    The parts of [net] and [net/netip] the program uses: address and prefix
    literals, the loopback and containment tests of both packages, and
    [net.SplitHostPort].  Text is parsed byte by byte as the library does;
    an address is its bits. *)

From S2P Require Import Prelude GoStrings.
From Stdlib Require Import Ascii.

(** ** String search *)

(** [strings.Cut] at the first occurrence of a byte. *)
Fixpoint cut_char (c : ascii) (s : string) : option (string * string) :=
  match s with
  | "" => None
  | String a s' =>
      if Ascii.eqb a c then Some ("", s')
      else match cut_char c s' with
           | Some (l, r) => Some (String a l, r)
           | None => None
           end
  end.

(** Cut at the last occurrence. *)
Fixpoint cut_last (c : ascii) (s : string) : option (string * string) :=
  match s with
  | "" => None
  | String a s' =>
      match cut_last c s' with
      | Some (l, r) => Some (String a l, r)
      | None => if Ascii.eqb a c then Some ("", s') else None
      end
  end.

Definition first_char (s : string) : option ascii :=
  match s with "" => None | String c _ => Some c end.

(** Unsigned decimal digits, at least one. *)
Fixpoint decimal_acc (acc : Z) (s : string) : option Z :=
  match s with
  | "" => Some acc
  | String c s' => if is_digit c then decimal_acc (10 * acc + (bval c - 48)) s' else None
  end.
Definition decimal (s : string) : option Z :=
  if String.eqb s "" then None else decimal_acc 0 s.

(** ** Addresses *)

(** [netip.Addr]: 32 bits, or 128 bits with an optional zone. *)
Inductive Addr :=
| V4 (n : Z)
| V6 (n : Z) (zone : string).

#[export] Instance Addr_eq_dec : EqDecision Addr.
Proof. solve_decision. Defined.

Definition octet (s : string) : option Z :=
  if (1 <? String.length s)%nat && has_prefix "0" s then None
  else match decimal s with
       | Some n => if n <=? 255 then Some n else None
       | None => None
       end.

Definition parseIPv4 (s : string) : option Z :=
  match map octet (split_on "."%char s) with
  | [Some a; Some b; Some c; Some d] => Some (((a * 256 + b) * 256 + c) * 256 + d)
  | _ => None
  end.

Definition hexval (c : ascii) : option Z :=
  if is_digit c then Some (bval c - 48)
  else if in_range 97 102 c then Some (bval c - 87)
  else if in_range 65 70 c then Some (bval c - 55)
  else None.

(** The leading hex digits of a field: their value, their number and the
    rest. *)
Fixpoint hex_field (acc : Z) (n : nat) (s : string) : Z * nat * string :=
  match s with
  | "" => (acc, n, "")
  | String c s' =>
      match hexval c with
      | Some d => hex_field (16 * acc + d) (S n) s'
      | None => (acc, n, s)
      end
  end.

(** The loop of [parseIPv6] over the eight 16-bit fields.  [got] holds the
    fields read so far, newest first, and [ell] the number of fields before
    the ellipsis; the result is the fields, the ellipsis and the unread
    text. *)
Fixpoint ipv6_fields (fuel : nat) (s : string) (got : list Z) (ell : option nat)
  : option (list Z * option nat * string) :=
  match fuel with
  | O => Some (got, ell, s)
  | S fuel =>
      let '(acc, off, rest) := hex_field 0 0 s in
      if (off =? 0)%nat || (4 <? off)%nat then None
      else match rest with
      | String "."%char _ =>
          if negb (bool_decide (is_Some ell)) && negb (length got =? 6)%nat then None
          else if (6 <? length got)%nat then None
          else match parseIPv4 s with
          | Some v => Some (v mod 65536 :: v / 65536 :: got, ell, "")
          | None => None
          end
      | "" => Some (acc :: got, ell, "")
      | String ":"%char "" => None
      | String ":"%char (String ":"%char s') =>
          if bool_decide (is_Some ell) then None
          else if String.eqb s' "" then Some (acc :: got, Some (S (length got)), "")
          else ipv6_fields fuel s' (acc :: got) (Some (S (length got)))
      | String ":"%char s' => ipv6_fields fuel s' (acc :: got) ell
      | _ => None
      end
  end.

Definition join16 (l : list Z) : Z := fold_left (fun a x => a * 65536 + x) l 0.

Definition parseIPv6_bits (s : string) : option Z :=
  let '(s, ell) := if has_prefix "::" s then (sdrop 2 s, Some 0%nat) else (s, None) in
  if bool_decide (is_Some ell) && String.eqb s "" then Some 0
  else match ipv6_fields 8 s [] ell with
  | Some (got, ell, "") =>
      let fields := rev got in
      let n := length fields in
      match ell with
      | None => if (n =? 8)%nat then Some (join16 fields) else None
      | Some e =>
          if (n <? 8)%nat then Some (join16 (take e fields ++ replicate (8 - n) 0 ++ drop e fields))
          else None
      end
  | _ => None
  end.

Definition parseIPv6 (s : string) : option Addr :=
  match cut_char "%"%char s with
  | Some (l, zone) =>
      if String.eqb zone "" then None
      else match parseIPv6_bits l with Some n => Some (V6 n zone) | None => None end
  | None => match parseIPv6_bits s with Some n => Some (V6 n "") | None => None end
  end.

(** [netip.ParseAddr]: the first of [.], [:] and [%] decides the form. *)
Fixpoint addr_form (s : string) : option ascii :=
  match s with
  | "" => None
  | String c s' =>
      if Ascii.eqb c "."%char || Ascii.eqb c ":"%char || Ascii.eqb c "%"%char then Some c
      else addr_form s'
  end.
Definition ParseAddr (s : string) : option Addr :=
  match addr_form s with
  | Some "."%char => match parseIPv4 s with Some n => Some (V4 n) | None => None end
  | Some ":"%char => parseIPv6 s
  | _ => None
  end.

(** A [net.IP] in its 16-byte form: IPv4 is mapped. *)
Definition IP := Z.
Definition v4_mapped (n : Z) : IP := 281470681743360 + n.
Definition As16 (a : Addr) : IP := match a with V4 n => v4_mapped n | V6 n _ => n end.
Definition Zone (a : Addr) : string := match a with V4 _ => "" | V6 _ z => z end.

Definition To4 (ip : IP) : option Z :=
  if Z.shiftr ip 32 =? 65535 then Some (Z.land ip 4294967295) else None.

(** [netip.Addr.Unmap]. *)
Definition Unmap (a : Addr) : Addr :=
  match a with
  | V6 n _ => match To4 n with Some m => V4 m | None => a end
  | V4 _ => a
  end.

(** [net.ParseIP]. *)
Definition ParseIP (s : string) : option IP :=
  match ParseAddr s with
  | Some a => if String.eqb (Zone a) "" then Some (As16 a) else None
  | None => None
  end.

(** [net.IP.IsLoopback]. *)
Definition ip_is_loopback (ip : IP) : bool :=
  match To4 ip with Some v => Z.shiftr v 24 =? 127 | None => ip =? 1 end.

(** [netip.Addr.IsLoopback]. *)
Definition addr_is_loopback (a : Addr) : bool :=
  match Unmap a with V4 v => Z.shiftr v 24 =? 127 | V6 n _ => n =? 1 end.

(** ** Prefixes *)

(** The top [bits] of two [w]-bit numbers agree. *)
Definition top_eq (w bits a b : Z) : bool := Z.shiftr a (w - bits) =? Z.shiftr b (w - bits).
Definition mask_top (w bits a : Z) : Z := Z.shiftl (Z.shiftr a (w - bits)) (w - bits).

(** [netip.Prefix]. *)
Record Prefix := mkPrefix { p_addr : Addr; p_bits : Z }.
#[export] Instance Prefix_eq_dec : EqDecision Prefix.
Proof. solve_decision. Defined.

Definition BitLen (a : Addr) : Z := match a with V4 _ => 32 | V6 _ _ => 128 end.

Definition ParsePrefix (s : string) : option Prefix :=
  match cut_last "/"%char s with
  | None => None
  | Some (l, b) =>
      match ParseAddr l with
      | None => None
      | Some a =>
          if negb (String.eqb (Zone a) "") then None
          else if (1 <? String.length b)%nat
               && match first_char b with Some c => negb (in_range 49 57 c) | None => true end then None
          else match decimal b with
          | Some n => if n <=? BitLen a then Some (mkPrefix a n) else None
          | None => None
          end
      end
  end.

Definition prefix_contains (p : Prefix) (a : Addr) : bool :=
  match p_addr p, a with
  | V4 n, V4 m => top_eq 32 (p_bits p) n m
  | V6 n _, V6 m z => String.eqb z "" && top_eq 128 (p_bits p) n m
  | _, _ => false
  end.

Definition Masked (p : Prefix) : Prefix :=
  match p_addr p with
  | V4 n => mkPrefix (V4 (mask_top 32 (p_bits p) n)) (p_bits p)
  | V6 n _ => mkPrefix (V6 (mask_top 128 (p_bits p) n) "") (p_bits p)
  end.

(** [net.IPNet]: the network number in 16-byte form, whether the mask has
    four bytes, and its length. *)
Record IPNet := mkIPNet { n_ip : IP; n_mask4 : bool; n_bits : Z }.

Definition ParseCIDR (s : string) : option IPNet :=
  match cut_char "/"%char s with
  | None => None
  | Some (l, b) =>
      match ParseAddr l with
      | None => None
      | Some a =>
          if negb (String.eqb (Zone a) "") then None
          else match decimal b with
          | Some n =>
              if n <=? BitLen a then
                match a with
                | V4 v => Some (mkIPNet (v4_mapped (mask_top 32 n v)) true n)
                | V6 v _ => Some (mkIPNet (mask_top 128 n v) false n)
                end
              else None
          | None => None
          end
      end
  end.

(** [IPNet.Contains]: a mapped network and a mapped address are compared as
    IPv4. *)
Definition ipnet_contains (n : IPNet) (ip : IP) : bool :=
  match To4 (n_ip n), To4 ip with
  | Some nn, Some x =>
      top_eq 32 (if n_mask4 n then n_bits n else Z.max 0 (n_bits n - 96)) nn x
  | None, None => negb (n_mask4 n) && top_eq 128 (n_bits n) (n_ip n) ip
  | _, _ => false
  end.

(** ** Host and port *)

(** [net.SplitHostPort]. *)
Definition SplitHostPort (hp : string) : option (string * string) :=
  match cut_last ":"%char hp with
  | None => None
  | Some (before, port) =>
      if has_prefix "[" hp then
        let inner := sdrop 1 hp in
        match cut_char "]"%char inner with
        | None => None
        | Some (host, after) =>
            (* the first ']' is just before the last ':' *)
            if String.eqb after (String ":"%char port) then
              if contains_char "["%char inner || contains_char "]"%char after then None
              else Some (host, port)
            else None
        end
      else if contains_char ":"%char before then None
      else if contains_char "["%char hp || contains_char "]"%char hp then None
      else Some (before, port)
  end.

Lemma cut_last_none c w : contains_char c w = false -> cut_last c w = None.
Proof. induction w as [|a w IH]; cbn; [done|]. intros [Ha Hw]%orb_false_iff. by rewrite IH, Ha. Qed.
Lemma cut_last_at c a w : contains_char c w = false -> cut_last c (a +:+ String c w) = Some (a, w).
Proof. intros Hw. induction a as [|x a IH]; cbn; [by rewrite cut_last_none, Ascii.eqb_refl|by rewrite IH]. Qed.
Lemma cut_last_some c s l r : cut_last c s = Some (l, r) -> s = l +:+ String c r /\ contains_char c r = false.
Proof.
  revert l. induction s as [|a s IH]; intros l; cbn; [done|]. destruct (cut_last c s) as [[l' r']|] eqn:E.
  - intros [= <- <-]. destruct (IH l' eq_refl) as [-> Hr]. by split.
  - destruct (Ascii.eqb a c) eqn:Ea; [|done]. intros [= <- <-]. apply Ascii.eqb_eq in Ea as ->. split; [done|].
    clear IH. induction s as [|b s IH]; [done|]. cbn in E |- *. destruct (cut_last c s) as [[??]|]; [done|].
    destruct (Ascii.eqb b c); [done|]. by apply IH.
Qed.

Example parse_v4 : ParseAddr "127.0.0.1" = Some (V4 2130706433).
Proof. vm_compute. reflexivity. Qed.
Example parse_v4_bad :
  map ParseAddr ["127.0.0"; "127.0.0.01"; "127.0.0.256"; "1.2.3.4.5"; ""; "localhost"; ":::"; "1::2::3"; "1:2:3:4:5:6:7:8:9"; "::1%"]
  = replicate 10 None.
Proof. vm_compute. reflexivity. Qed.
Example parse_v6 :
  map ParseAddr ["::1"; "::"; "fe80::1%eth0"; "::ffff:10.0.0.1"; "1:2:3:4:5:6:7:8"; "1:2:3:4:5:6:1.2.3.4"; "1::"]
  = [Some (V6 1 ""); Some (V6 0 ""); Some (V6 0xfe800000000000000000000000000001 "eth0");
     Some (V6 0xffff0a000001 ""); Some (V6 0x00010002000300040005000600070008 "");
     Some (V6 0x00010002000300040005000601020304 ""); Some (V6 0x00010000000000000000000000000000 "")].
Proof. vm_compute. reflexivity. Qed.
Example split_hp :
  map SplitHostPort ["127.0.0.1:8000"; "[::1]:80"; "host:"; "host"; "::1:80"; "[::1]"; "[::1]x:80"; ":80"]
  = [Some ("127.0.0.1", "8000"); Some ("::1", "80"); Some ("host", ""); None; None; None; None; Some ("", "80")].
Proof. vm_compute. reflexivity. Qed.

(** ** URLs

    The parts of a parsed [net/url.URL] the program reads.  Parsing itself
    ([url.Parse]) is a parameter of the definitions that use it. *)
Record URL := mkURL {
  u_Scheme : string;
  u_User : bool;        (* userinfo present *)
  u_Host : string;      (* host or host:port *)
  u_Path : string;
  u_RawQuery : string;
  u_Fragment : string
}.

Definition url_split_port (hp : string) : string * string :=
  let '(host, port) :=
    match cut_last ":"%char hp with
    | Some (l, r) => if sforall is_digit r then (l, r) else (hp, "")
    | None => (hp, "")
    end in
  let host :=
    if has_prefix "[" host && has_suffix "]" host
    then stake (String.length host - 2) (sdrop 1 host) else host in
  (host, port).
(** [URL.Hostname] and [URL.Port]. *)
Definition url_Hostname (u : URL) : string := fst (url_split_port (u_Host u)).
Definition url_Port (u : URL) : string := snd (url_split_port (u_Host u)).

(** [strconv.ParseUint] with an explicit base up to ten. *)
Fixpoint parse_uint_acc (base acc : Z) (s : string) : option Z :=
  match s with
  | "" => Some acc
  | String c s' =>
      if is_digit c && (bval c - 48 <? base) then parse_uint_acc base (base * acc + (bval c - 48)) s' else None
  end.
Definition ParseUint (s : string) (base bits : Z) : option Z :=
  if String.eqb s "" then None
  else match parse_uint_acc base 0 s with
       | Some n => if n <? 2 ^ bits then Some n else None
       | None => None
       end.

(** [strconv.Atoi], of 64 bits. *)
Definition Atoi (s : string) : option Z :=
  let signed := has_prefix "-" s || has_prefix "+" s in
  match ParseUint (if signed then sdrop 1 s else s) 10 64 with
  | None => None
  | Some n => let z := if has_prefix "-" s then - n else n in if (MinInt64 <=? z) && (z <=? MaxInt64) then Some z else None
  end.
Example Atoi_ex : map Atoi ["991"; "-1"; "+7"; ""; "-"; "12x"; "9223372036854775808"; "-9223372036854775808"] = [Some 991; Some (-1); Some 7; None; None; None; None; Some MinInt64].
Proof. vm_compute. reflexivity. Qed.

Lemma ParseUint_nonneg s base bits n : 0 <= base -> ParseUint s base bits = Some n -> 0 <= n.
Proof.
  intros Hb. assert (forall s acc m, 0 <= acc -> parse_uint_acc base acc s = Some m -> 0 <= m) as Hacc.
  { clear s. induction s as [|c s IH]; intros acc m Ha; cbn; [by intros [= <-]|]. destruct (is_digit c) eqn:E; [|done]. cbn.
    destruct (_ <? base); [|done]. apply IH. unfold is_digit, in_range in E. to_prop. lia. }
  unfold ParseUint. destruct (String.eqb s ""); [done|]. destruct (parse_uint_acc base 0 s) as [m|] eqn:E; [|done]. apply Hacc in E; [|done].
  destruct (m <? 2 ^ bits); [|done]. by intros [= <-].
Qed.

(** ** Lemmas on addresses *)

Lemma top_eq_spec w bits a b : bits <= w ->
  top_eq w bits a b = true <-> forall i, w - bits <= i -> Z.testbit a i = Z.testbit b i.
Proof.
  intros Hw. unfold top_eq. rewrite Z.eqb_eq. split.
  - intros Heq i Hi. replace i with ((i - (w - bits)) + (w - bits)) by lia.
    rewrite <- !Z.shiftr_spec by lia. by rewrite Heq.
  - intros Hall. apply Z.bits_inj'. intros i Hi. rewrite !Z.shiftr_spec by lia. apply Hall. lia.
Qed.

Lemma mask_top_spec w bits a i : bits <= w -> 0 <= i ->
  Z.testbit (mask_top w bits a) i = (w - bits <=? i) && Z.testbit a i.
Proof.
  intros Hw Hi. unfold mask_top. rewrite Z.shiftl_spec by lia.
  destruct (Z.leb_spec (w - bits) i) as [Hle|Hlt].
  - rewrite Z.shiftr_spec by lia. rewrite andb_true_l. f_equal. lia.
  - rewrite Z.testbit_neg_r by lia. done.
Qed.

Lemma top_eq_mask w bits a b : bits <= w -> top_eq w bits (mask_top w bits a) b = top_eq w bits a b.
Proof.
  intros Hw. apply eq_true_iff_eq. rewrite !top_eq_spec by done. split; intros Hall i Hi.
  - rewrite <- (Hall i Hi), mask_top_spec by lia. destruct (Z.leb_spec (w - bits) i); [done|lia].
  - rewrite mask_top_spec, (Hall i Hi) by lia. destruct (Z.leb_spec (w - bits) i); [done|lia].
Qed.

Lemma To4_Some ip x : To4 ip = Some x <-> Z.shiftr ip 32 = 65535 /\ x = Z.land ip (Z.ones 32).
Proof.
  unfold To4. change 4294967295 with (Z.ones 32). destruct (Z.eqb_spec (Z.shiftr ip 32) 65535); naive_solver.
Qed.

Lemma To4_mapped n : 0 <= n < 2 ^ 32 -> To4 (v4_mapped n) = Some n.
Proof.
  intros Hn. apply To4_Some. unfold v4_mapped. change 281470681743360 with (65535 * 2 ^ 32).
  rewrite Z.shiftr_div_pow2, Z.land_ones by lia. rewrite Z.add_comm.
  rewrite Z.div_add, Z.mod_add by discriminate. rewrite Z.div_small, Z.mod_small by done. done.
Qed.

Lemma decimal_acc_nonneg acc s n : 0 <= acc -> decimal_acc acc s = Some n -> 0 <= n.
Proof.
  revert acc. induction s as [|c s IH]; intros acc Ha; cbn; [by intros [= <-]|].
  destruct (is_digit c) eqn:E; [|done]. apply IH. unfold is_digit, in_range in E. to_prop. lia.
Qed.

Lemma octet_range s n : octet s = Some n -> 0 <= n < 256.
Proof.
  assert (Hd : forall s n, match decimal s with Some n => if n <=? 255 then Some n else None | None => None end = Some n ->
    0 <= n < 256).
  { intros s0 n0. unfold decimal. destruct (String.eqb s0 ""); [done|].
    destruct (decimal_acc 0 s0) as [m|] eqn:E; [|done]. apply decimal_acc_nonneg in E; [|lia].
    destruct (Z.leb_spec m 255); [|done]. intros [= <-]. lia. }
  unfold octet. destruct ((1 <? _)%nat && _); [done|]. apply Hd.
Qed.

Lemma parseIPv4_range s n : parseIPv4 s = Some n -> 0 <= n < 2 ^ 32.
Proof.
  unfold parseIPv4. destruct (map octet (split_on "."%char s)) as [|[a|] [|[b|] [|[c|] [|[d|] [|? ?]]]]] eqn:E; try done.
  intros [= <-]. assert (Hall : forall x, Some x ∈ map octet (split_on "."%char s) -> 0 <= x < 256).
  { intros x (y & Hy & _)%list_elem_of_fmap. by eapply octet_range. }
  rewrite E in Hall. pose proof (Hall a ltac:(set_solver)). pose proof (Hall b ltac:(set_solver)).
  pose proof (Hall c ltac:(set_solver)). pose proof (Hall d ltac:(set_solver)).
  change (2 ^ 32) with 4294967296. lia.
Qed.

Lemma ParseAddr_V4_range s n : ParseAddr s = Some (V4 n) -> 0 <= n < 2 ^ 32.
Proof.
  unfold ParseAddr. intros Hp.
  assert (parseIPv4 s = Some n) as Hv; [|by eapply parseIPv4_range].
  assert (Hv6 : parseIPv6 s <> Some (V4 n)).
  { unfold parseIPv6. repeat case_match; congruence. }
  repeat case_match; try done; congruence.
Qed.

Lemma addr_loopback_As16 s a : ParseAddr s = Some a -> Zone a = "" ->
  addr_is_loopback a = true -> ip_is_loopback (As16 a) = true.
Proof.
  intros Hp Hz. unfold addr_is_loopback, ip_is_loopback. destruct a as [n|n z]; cbn.
  - by rewrite To4_mapped by (by eapply ParseAddr_V4_range).
  - by destruct (To4 n).
Qed.

(** *** Prefix literals in the two libraries *)

Lemma decimal_acc_digits acc s n c : decimal_acc acc s = Some n -> is_digit c = false -> contains_char c s = false.
Proof.
  revert acc. induction s as [|a s IH]; intros acc; cbn; [done|].
  destruct (is_digit a) eqn:E; [|done]. intros Hd Hc. rewrite (IH _ Hd Hc), orb_false_r.
  destruct (Ascii.eqb a c) eqn:Ea; [|done]. apply Ascii.eqb_eq in Ea. congruence.
Qed.

Lemma cut_char_contains c s l r : cut_char c s = Some (l, r) -> contains_char c r = false -> cut_last c s = Some (l, r).
Proof.
  assert (Hnone : forall r, contains_char c r = false -> cut_last c r = None).
  { clear. induction r as [|a r IH]; cbn; [done|]. intros [Ha Hr]%orb_false_iff. by rewrite (IH Hr), Ha. }
  revert l. induction s as [|a s IH]; intros l; cbn; [done|]. destruct (Ascii.eqb a c) eqn:E.
  - intros [= <- <-] Hr. by rewrite (Hnone _ Hr).
  - destruct (cut_char c s) as [[l' r']|]; [|done]. intros [= <- <-] Hr. by rewrite (IH l' eq_refl Hr).
Qed.

(** A literal both libraries accept denotes the same prefix in both. *)
Lemma ParsePrefix_ParseCIDR c p n : ParsePrefix c = Some p -> ParseCIDR c = Some n ->
  exists l, ParseAddr l = Some (p_addr p) /\ Zone (p_addr p) = "" /\ 0 <= p_bits p <= BitLen (p_addr p)
  /\ n = match p_addr p with
         | V4 v => mkIPNet (v4_mapped (mask_top 32 (p_bits p) v)) true (p_bits p)
         | V6 v _ => mkIPNet (mask_top 128 (p_bits p) v) false (p_bits p)
         end.
Proof.
  unfold ParsePrefix, ParseCIDR. destruct (cut_char "/"%char c) as [[l b]|] eqn:Ec; [|by intros _ ?].
  destruct (decimal b) as [m|] eqn:Ed; cycle 1.
  { intros _. repeat case_match; done. }
  assert (0 <= m /\ contains_char "/"%char b = false) as [Hm Hb].
  { unfold decimal in Ed. destruct (String.eqb b ""); [done|]. split; [by eapply decimal_acc_nonneg|].
    eapply decimal_acc_digits; [done|reflexivity]. }
  rewrite (cut_char_contains _ _ _ _ Ec Hb), Ed. destruct (ParseAddr l) as [a|] eqn:Ea; [|done].
  destruct (String.eqb (Zone a) "") eqn:Ez; cbn [negb]; [|done].
  destruct ((1 <? String.length b)%nat && _); [done|].
  destruct (Z.leb_spec m (BitLen a)); [|done]. intros [= <-] Hn. exists l. cbn.
  apply String.eqb_eq in Ez. do 2 (split; [done|]). split; [lia|]. by destruct a; injection Hn as <-.
Qed.

Lemma To4_land_bits n (a b : Z) : 96 <= n <= 128 ->
  (forall i, 128 - n <= i -> Z.testbit a i = Z.testbit b i) ->
  top_eq 32 (n - 96) (Z.land a (Z.ones 32)) (Z.land b (Z.ones 32)) = true.
Proof.
  intros Hn Hall. apply top_eq_spec; [lia|]. intros i Hi. rewrite !Z.land_spec. f_equal. apply Hall. lia.
Qed.

(** A prefix that contains an address (as [netip] sees it) contains it as
    [net] sees it, unless the address is IPv4 written in IPv6 form. *)
Lemma prefix_ipnet_contains c p n s a :
  ParsePrefix c = Some p -> ParseCIDR c = Some n -> ParseAddr s = Some a ->
  (forall m z, a = V6 m z -> To4 m = None) ->
  prefix_contains p a = true -> ipnet_contains n (As16 a) = true.
Proof.
  intros Hp Hn Ha Hmap. destruct (ParsePrefix_ParseCIDR c p n Hp Hn) as (l & Hl & Hz & Hb & ->).
  unfold prefix_contains. destruct (p_addr p) as [v|v z]; destruct a as [m|m z']; try done; cbn in Hb.
  - intros Ht. unfold ipnet_contains. cbn [n_ip n_mask4 n_bits As16].
    assert (Hv : 0 <= mask_top 32 (p_bits p) v < 2 ^ 32).
    { apply ParseAddr_V4_range in Hl. unfold mask_top. rewrite Z.shiftl_mul_pow2, Z.shiftr_div_pow2 by lia.
      pose proof (Z.mul_div_le v (2 ^ (32 - p_bits p)) ltac:(apply Z.pow_pos_nonneg; lia)).
      pose proof (Z.div_pos v (2 ^ (32 - p_bits p)) ltac:(lia) ltac:(apply Z.pow_pos_nonneg; lia)).
      pose proof (Z.pow_pos_nonneg 2 (32 - p_bits p) ltac:(lia) ltac:(lia)). nia. }
    rewrite !To4_mapped by (done || by eapply ParseAddr_V4_range). rewrite top_eq_mask by lia. exact Ht.
  - rewrite andb_true_iff. intros [_ Ht]. specialize (Hmap m z' eq_refl).
    unfold ipnet_contains. cbn [n_ip n_mask4 n_bits As16]. rewrite Hmap.
    assert (Hnone : To4 (mask_top 128 (p_bits p) v) = None).
    { destruct (To4 (mask_top 128 (p_bits p) v)) as [x|] eqn:E; [exfalso|done].
      apply To4_Some in E as [E _]. rewrite top_eq_spec in Ht by lia.
      destruct (Z.le_gt_cases 96 (p_bits p)) as [Hge|Hlt].
      - assert (To4 m = Some (Z.land m (Z.ones 32))) as Hm; [|congruence].
        apply To4_Some. split; [|done]. rewrite <- E. apply Z.bits_inj'. intros i Hi.
        rewrite !Z.shiftr_spec by lia. rewrite mask_top_spec, <- Ht by lia.
        destruct (Z.leb_spec (128 - p_bits p) (i + 32)); [done|lia].
      - apply (f_equal (fun z => Z.testbit z 0)) in E. rewrite Z.shiftr_spec, mask_top_spec in E by lia.
        destruct (Z.leb_spec (128 - p_bits p) (0 + 32)); [lia|]. discriminate E. }
    rewrite Hnone. cbn. rewrite top_eq_mask by lia. exact Ht.
Qed.
