(* ===== verification/Crypto.v ===== *)
(** * The standard-library codecs and hashes the key store uses

    [crypto/sha256], [crypto/hmac], [encoding/hex] and
    [base64.RawStdEncoding], executable on lists of byte values.  Nothing in
    the development assumes a cryptographic property of the hash. *)

From S2P Require Import Prelude GoStrings.
From Stdlib Require Import Ascii.

(** ** Bytes *)
Fixpoint bytes_of (s : string) : list Z :=
  match s with "" => [] | String c s' => bval c :: bytes_of s' end.
Fixpoint string_of (l : list Z) : string :=
  match l with [] => "" | b :: l' => String (byte b) (string_of l') end.
Definition is_byte (z : Z) : Prop := 0 <= z < 256.

Lemma string_of_bytes_of s : string_of (bytes_of s) = s.
Proof. induction s as [|c s IH]; cbn; [done|]. by rewrite byte_bval, IH. Qed.
Lemma bytes_of_string_of l : Forall is_byte l -> bytes_of (string_of l) = l.
Proof. induction 1; cbn; [done|]. by rewrite bval_byte, IHForall. Qed.
Lemma length_bytes_of s : length (bytes_of s) = String.length s.
Proof. induction s; cbn; congruence. Qed.
Lemma length_string_of l : String.length (string_of l) = length l.
Proof. induction l; cbn; congruence. Qed.
Lemma bytes_of_range s : Forall is_byte (bytes_of s).
Proof. induction s; cbn; constructor; [apply bval_range|done]. Qed.

(** ** SHA-256 *)
Module Sha256.
Definition M32 : Z := 2 ^ 32.
Definition add32 (a b : Z) : Z := (a + b) mod M32.
Definition not32 (a : Z) : Z := M32 - 1 - a.
Definition rotr (n x : Z) : Z :=
  Z.lor (Z.shiftr x n) (Z.land (Z.shiftl x (32 - n)) (M32 - 1)).

(** The round constants and the initial state, as FIPS 180-4 defines them:
    the first 32 bits of the fractional parts of the cube and square roots
    of the first primes. *)
Fixpoint root_bits (power : Z) (bits : nat) (acc x : Z) : Z :=
  match bits with
  | O => acc
  | S bits =>
      let acc' := acc + 2 ^ Z.of_nat bits in
      root_bits power bits (if acc' ^ power <=? x then acc' else acc) x
  end.
Definition is_prime (n : Z) : bool :=
  forallb (fun d => negb (n mod Z.of_nat d =? 0)) (List.seq 2 (Z.to_nat n - 2)).
Definition primes : list Z := List.filter is_prime (List.map Z.of_nat (List.seq 2 310)).
Definition K : list Z := Eval vm_compute in
  List.map (fun p => root_bits 3 40 0 (p * 2 ^ 96) mod M32) primes.
Definition H0 : list Z := Eval vm_compute in
  List.map (fun p => root_bits 2 40 0 (p * 2 ^ 64) mod M32) (List.firstn 8 primes).

Definition nthz (l : list Z) (i : nat) : Z := nth i l 0.

(** Message schedule, built newest word first. *)
Fixpoint schedule (n : nat) (w : list Z) : list Z :=
  match n with
  | O => w
  | S n =>
      let w15 := nthz w 14 in let w2 := nthz w 1 in
      let s0 := Z.lxor (Z.lxor (rotr 7 w15) (rotr 18 w15)) (Z.shiftr w15 3) in
      let s1 := Z.lxor (Z.lxor (rotr 17 w2) (rotr 19 w2)) (Z.shiftr w2 10) in
      schedule n (add32 (add32 (nthz w 15) s0) (add32 (nthz w 6) s1) :: w)
  end.

Definition round (h : list Z) (kw : Z * Z) : list Z :=
  match h with
  | [a; b; c; d; e; f; g; h] =>
      let S1 := Z.lxor (Z.lxor (rotr 6 e) (rotr 11 e)) (rotr 25 e) in
      let ch := Z.lxor (Z.land e f) (Z.land (not32 e) g) in
      let t1 := add32 (add32 (add32 h S1) (add32 ch (fst kw))) (snd kw) in
      let S0 := Z.lxor (Z.lxor (rotr 2 a) (rotr 13 a)) (rotr 22 a) in
      let maj := Z.lxor (Z.lxor (Z.land a b) (Z.land a c)) (Z.land b c) in
      [add32 t1 (add32 S0 maj); a; b; c; add32 d t1; e; f; g]
  | _ => h
  end.

Fixpoint words (l : list Z) : list Z :=
  match l with
  | a :: b :: c :: d :: l' => ((a * 256 + b) * 256 + c) * 256 + d :: words l'
  | _ => []
  end.

Definition compress (h block : list Z) : list Z :=
  let w := rev (schedule 48 (rev (words block))) in
  zip_with add32 h (foldl round h (zip K w)).

Fixpoint be_bytes (n : nat) (z : Z) : list Z :=
  match n with O => [] | S n => be_bytes n (z / 256) ++ [z mod 256] end.

Definition pad (l : list Z) : list Z :=
  let n := length l in
  l ++ [128] ++ repeat 0 (Z.to_nat ((55 - Z.of_nat n) mod 64)) ++ be_bytes 8 (8 * Z.of_nat n).

Fixpoint blocks (fuel : nat) (h l : list Z) : list Z :=
  match fuel with
  | O => h
  | S fuel => match l with
              | [] => h
              | _ => blocks fuel (compress h (take 64 l)) (drop 64 l)
              end
  end.

Definition digest (l : list Z) : list Z :=
  let p := pad l in flat_map (be_bytes 4) (blocks (length p) H0 p).
End Sha256.

Definition sha256 (s : string) : string := string_of (Sha256.digest (bytes_of s)).
Definition sha256_Size : Z := 32.

(** [crypto/hmac] over SHA-256. *)
Definition hmac_sha256 (key msg : string) : string :=
  let k0 := if 64 <? slen key then Sha256.digest (bytes_of key) else bytes_of key in
  let k := k0 ++ repeat 0 (64 - length k0) in
  let inner := Sha256.digest (map (Z.lxor 0x36) k ++ bytes_of msg) in
  string_of (Sha256.digest (map (Z.lxor 0x5c) k ++ inner)).

(** ** [encoding/hex] *)
Definition hex_digit (v : Z) : ascii := byte (if v <? 10 then 48 + v else 87 + v).
Fixpoint hex_encode (s : string) : string :=
  match s with
  | "" => ""
  | String c s' => String (hex_digit (bval c / 16)) (String (hex_digit (bval c mod 16)) (hex_encode s'))
  end.

(** ** [base64.RawStdEncoding]: standard alphabet, no padding.  The decoder
    skips carriage returns and newlines, refuses a length of one modulo four
    and ignores the unused trailing bits. *)
Definition b64_char (v : Z) : ascii :=
  byte (if v <? 26 then 65 + v else if v <? 52 then 71 + v
        else if v <? 62 then v - 4 else if v =? 62 then 43 else 47).
Definition b64_val (c : ascii) : option Z :=
  if is_upper c then Some (bval c - 65)
  else if is_lower c then Some (bval c - 71)
  else if is_digit c then Some (bval c + 4)
  else if bval c =? 43 then Some 62
  else if bval c =? 47 then Some 63 else None.

Fixpoint b64_encode (l : list Z) : list Z :=
  match l with
  | a :: b :: c :: l' => [a / 4; a mod 4 * 16 + b / 16; b mod 16 * 4 + c / 64; c mod 64] ++ b64_encode l'
  | [a; b] => [a / 4; a mod 4 * 16 + b / 16; b mod 16 * 4]
  | [a] => [a / 4; a mod 4 * 16]
  | [] => []
  end.
Fixpoint b64_decode (l : list Z) : option (list Z) :=
  match l with
  | a :: b :: c :: d :: l' =>
      r ← b64_decode l'; Some ([a * 4 + b / 16; b mod 16 * 16 + c / 4; c mod 4 * 64 + d] ++ r)
  | [a; b; c] => Some [a * 4 + b / 16; b mod 16 * 16 + c / 4]
  | [a; b] => Some [a * 4 + b / 16]
  | [_] => None
  | [] => Some []
  end.

Definition base64_raw_encode (s : string) : string :=
  string_of (map (fun v => bval (b64_char v)) (b64_encode (bytes_of s))).
Fixpoint b64_values (s : string) : option (list Z) :=
  match s with
  | "" => Some []
  | String c s' =>
      if Ascii.eqb c ch_nl || Ascii.eqb c ch_cr then b64_values s'
      else v ← b64_val c; r ← b64_values s'; Some (v :: r)
  end.
Definition base64_raw_decode (s : string) : option string :=
  vs ← b64_values s; string_of <$> b64_decode vs.

(** [base64.StdEncoding]: padded to a multiple of four. *)
Definition b64_padding (n : nat) : string := match (n mod 3)%nat with O => "" | 1%nat => "==" | _ => "=" end.
Definition base64_std_encode (s : string) : string := base64_raw_encode s +:+ b64_padding (String.length s).

(** ** Facts *)

Example base64_std_foob : base64_std_encode "foob" = "Zm9vYg==".
Proof. vm_compute. reflexivity. Qed.
Example sha256_abc : hex_encode (sha256 "abc") =
  "ba7816bf8f01cfea414140de5dae2223b00361a396177a9cb410ff61f20015ad".
Proof. vm_compute. reflexivity. Qed.
Example hmac_rfc4231_2 : hex_encode (hmac_sha256 "Jefe" "what do ya want for nothing?") =
  "5bdcc146bf60754e6a042426089575c75a003f089d2739839dec58b964ec3843".
Proof. vm_compute. reflexivity. Qed.

Lemma hex_encode_length s : String.length (hex_encode s) = (2 * String.length s)%nat.
Proof. induction s; cbn; lia. Qed.

(** All 256 bytes (or 64 digits) checked by computation. *)
Ltac by_bytes :=
  let H := fresh in intros c; destruct c as [[] [] [] [] [] [] [] []]; vm_compute; reflexivity.

Definition is_hex_lower (c : ascii) : bool := is_digit c || in_range 97 102 c.

Lemma hex_digits_lower : forall c : ascii,
  is_hex_lower (hex_digit (bval c / 16)) && is_hex_lower (hex_digit (bval c mod 16)) = true.
Proof. by_bytes. Qed.

Lemma hex_encode_lower s : sforall is_hex_lower (hex_encode s) = true.
Proof.
  induction s as [|c s IH]; [done|]. cbn. rewrite IH.
  pose proof (hex_digits_lower c) as H. apply andb_prop in H as [-> ->]. done.
Qed.

Definition b64_char_ok (v : Z) : bool :=
  match b64_val (b64_char v) with Some w => w =? v | None => false end
  && negb (Ascii.eqb (b64_char v) ch_nl || Ascii.eqb (b64_char v) ch_cr).
Lemma b64_val_char v : 0 <= v < 64 -> b64_char_ok v = true.
Proof.
  intros Hv. assert (Hall : forallb (fun n => b64_char_ok (Z.of_nat n)) (List.seq 0 64) = true)
    by (vm_compute; reflexivity).
  rewrite forallb_forall in Hall. specialize (Hall (Z.to_nat v)).
  rewrite Z2Nat.id in Hall by lia. apply Hall. apply in_seq. lia.
Qed.

Definition is_six (v : Z) : Prop := 0 <= v < 64.

(** Induction three bytes at a time. *)
Lemma list_ind3 {A} (P : list A -> Prop) :
  P [] -> (forall a, P [a]) -> (forall a b, P [a; b]) ->
  (forall a b c l, P l -> P (a :: b :: c :: l)) -> forall l, P l.
Proof.
  intros H0 H1 H2 H3. fix IH 1. intros [|a [|b [|c l]]];
    [exact H0 | apply H1 | apply H2 | apply H3, IH].
Qed.

Ltac byte_arith :=
  unfold is_byte, is_six in *;
  repeat match goal with H : Forall _ (_ :: _) |- _ => inversion H; clear H; subst end;
  repeat match goal with |- Forall _ (_ :: _) => constructor end;
  try solve [constructor];
  try (Z.div_mod_to_equations; lia).

Lemma b64_encode_six l : Forall is_byte l -> Forall is_six (b64_encode l).
Proof.
  induction l as [|a|a b|a b c l IH] using list_ind3; intros H; cbn; byte_arith. auto.
Qed.

Lemma b64_decode_encode l : Forall is_byte l -> b64_decode (b64_encode l) = Some l.
Proof.
  induction l as [|a|a b|a b c l IH] using list_ind3; intros H; cbn [b64_encode b64_decode app].
  - done.
  - byte_arith. do 2 f_equal. Z.div_mod_to_equations; lia.
  - byte_arith. do 2 f_equal; [|f_equal]; Z.div_mod_to_equations; lia.
  - byte_arith. rewrite IH by done. cbn. do 2 f_equal; [|f_equal; [|f_equal]];
      Z.div_mod_to_equations; lia.
Qed.

Lemma b64_values_encode l :
  Forall is_six l -> b64_values (string_of (map (fun v => bval (b64_char v)) l)) = Some l.
Proof.
  induction 1 as [|v l Hv _ IH]; [done|]. cbn [map string_of b64_values].
  rewrite byte_bval. pose proof (b64_val_char v Hv) as Hc. unfold b64_char_ok in Hc.
  apply andb_prop in Hc as [Hc Hn]. apply negb_true_iff in Hn. rewrite Hn.
  destruct (b64_val (b64_char v)) as [w|]; [|done].
  apply Z.eqb_eq in Hc as ->. cbn. rewrite IH. done.
Qed.

Lemma base64_raw_roundtrip s : base64_raw_decode (base64_raw_encode s) = Some s.
Proof.
  unfold base64_raw_decode, base64_raw_encode.
  pose proof (bytes_of_range s) as Hs.
  rewrite b64_values_encode by (by apply b64_encode_six). cbn.
  rewrite b64_decode_encode by done. cbn. by rewrite string_of_bytes_of.
Qed.

Lemma flat_map_length_const {A} (f : Z -> list A) n l :
  (forall z, length (f z) = n) -> length (flat_map f l) = (length l * n)%nat.
Proof. intros Hf. induction l; cbn; [done|]. rewrite length_app, Hf, IHl. lia. Qed.
Lemma be_bytes_length n z : length (Sha256.be_bytes n z) = n.
Proof. revert z; induction n; intros; cbn; [done|]. rewrite length_app, IHn. cbn. lia. Qed.
Lemma round_length h kw : length h = 8%nat -> length (Sha256.round h kw) = 8%nat.
Proof. destruct h as [|? [|? [|? [|? [|? [|? [|? [|? [|]]]]]]]]]; done. Qed.
Lemma compress_length h b : length h = 8%nat -> length (Sha256.compress h b) = 8%nat.
Proof.
  intros Hh. unfold Sha256.compress. rewrite length_zip_with, Hh.
  set (l := zip _ _). clearbody l. assert (Hf : forall g, length g = 8%nat -> length (foldl Sha256.round g l) = 8%nat).
  { induction l as [|kw l IH]; intros g Hg; cbn; [done|]. by apply IH, round_length. }
  by rewrite Hf.
Qed.
Lemma blocks_length fuel h l : length h = 8%nat -> length (Sha256.blocks fuel h l) = 8%nat.
Proof.
  revert h l. induction fuel as [|fuel IH]; intros h l Hh; cbn [Sha256.blocks]; [done|].
  destruct l; [done|]. by apply IH, compress_length.
Qed.
Lemma sha256_digest_length l : length (Sha256.digest l) = 32%nat.
Proof.
  unfold Sha256.digest. rewrite (flat_map_length_const _ 4) by apply be_bytes_length.
  by rewrite blocks_length.
Qed.
Lemma hmac_sha256_length k m : slen (hmac_sha256 k m) = sha256_Size.
Proof. unfold hmac_sha256, slen. rewrite length_string_of, sha256_digest_length. done. Qed.
