(* ===== verification/Json.v ===== *)
(** * encoding/json

    What the program uses of Go's [encoding/json]: decoding a text into a
    tree, the decoding rules of the Go types it decodes into, and the
    encoder of a [map[string]json.RawMessage].

    A [json.RawMessage] is the tree of its text: the program only decodes a
    raw message again, compares it with [null], or re-encodes it, and the
    encoder drops the insignificant space, so the tree (numbers and strings
    as they were spelt) is all that can be observed of it. *)

From Stdlib Require Import Ascii.
From stdpp Require Import sorting.
From S2P Require Import Prelude GoStrings Net.

Inductive json :=
| JNull
| JBool (b : bool)
| JNum (lit : string)              (** the literal, as spelt *)
| JStr (raw : string)              (** the text between the quotes, as spelt *)
| JArr (l : list json)
| JObj (m : list (string * json)). (** keys as spelt, in order, duplicates included *)

Definition ch_bslash : ascii := "\"%char.
Definition ch_u : ascii := "u"%char.

(** ** UTF-8 *)

(** [utf8.DecodeRune]: the width of the code point at the head of [s], 0 for
    an invalid encoding (which decodes as U+FFFD, one byte wide). *)
Definition cont (c : ascii) : bool := in_range 128 191 c.
Definition utf8_width (s : string) : nat :=
  match s with
  | "" => 0%nat
  | String a r =>
      if in_range 0 127 a then 1%nat
      else if in_range 194 223 a then
        match r with String b _ => if cont b then 2%nat else 0%nat | "" => 0%nat end
      else if in_range 224 239 a then
        match r with
        | String b (String c _) =>
            let lo := if bval a =? 224 then 160 else 128 in
            let hi := if bval a =? 237 then 159 else 191 in
            if in_range lo hi b && cont c then 3%nat else 0%nat
        | _ => 0%nat
        end
      else if in_range 240 244 a then
        match r with
        | String b (String c (String d _)) =>
            let lo := if bval a =? 240 then 144 else 128 in
            let hi := if bval a =? 244 then 143 else 191 in
            if in_range lo hi b && cont c && cont d then 4%nat else 0%nat
        | _ => 0%nat
        end
      else 0%nat
  end.

(** [utf8.ValidString]. *)
Fixpoint valid_utf8 (s : string) : bool :=
  match s with
  | "" => true
  | String _ r =>
      match utf8_width s with
      | 1%nat => valid_utf8 r
      | 2%nat => match r with String _ r2 => valid_utf8 r2 | _ => false end
      | 3%nat => match r with String _ (String _ r3) => valid_utf8 r3 | _ => false end
      | 4%nat => match r with String _ (String _ (String _ r4)) => valid_utf8 r4 | _ => false end
      | _ => false
      end
  end.

(** U+FFFD. *)
Definition replacement : string := String (byte 239) (String (byte 191) (String (byte 189) "")).

(** [utf8.AppendRune] of a code point that is not a surrogate. *)
Definition utf8_encode (u : Z) : string :=
  if u <? 128 then String (byte u) ""
  else if u <? 2048 then String (byte (192 + u / 64)) (String (byte (128 + u mod 64)) "")
  else if u <? 65536 then
    String (byte (224 + u / 4096)) (String (byte (128 + u / 64 mod 64)) (String (byte (128 + u mod 64)) ""))
  else String (byte (240 + u / 262144)) (String (byte (128 + u / 4096 mod 64))
         (String (byte (128 + u / 64 mod 64)) (String (byte (128 + u mod 64)) ""))).

(** ** Scanning *)

Definition is_ws (c : ascii) : bool :=
  Ascii.eqb c ch_space || Ascii.eqb c "009"%char || Ascii.eqb c ch_nl || Ascii.eqb c ch_cr.
Fixpoint skip_ws (s : string) : string :=
  match s with String c r => if is_ws c then skip_ws r else s | "" => "" end.

Definition is_hex (c : ascii) : bool := is_digit c || in_range 97 102 c || in_range 65 70 c.
Definition hex_digit (c : ascii) : Z :=
  if is_digit c then bval c - 48 else if in_range 97 102 c then bval c - 87 else bval c - 55.
Definition hex4 (a b c d : ascii) : Z :=
  hex_digit a * 4096 + hex_digit b * 256 + hex_digit c * 16 + hex_digit d.

(** The one-letter escapes and what they stand for. *)
Definition simple_escape (e : ascii) : option ascii :=
  if Ascii.eqb e ch_dquote then Some ch_dquote
  else if Ascii.eqb e ch_bslash then Some ch_bslash
  else if Ascii.eqb e "/"%char then Some "/"%char
  else if Ascii.eqb e "b"%char then Some "008"%char
  else if Ascii.eqb e "f"%char then Some "012"%char
  else if Ascii.eqb e "n"%char then Some ch_nl
  else if Ascii.eqb e "r"%char then Some ch_cr
  else if Ascii.eqb e "t"%char then Some "009"%char
  else None.

(** A string literal after its opening quote: its text and what follows the
    closing quote.  Control bytes and unknown escapes are errors. *)
Fixpoint scan_string (s : string) : option (string * string) :=
  match s with
  | "" => None
  | String c r =>
      if Ascii.eqb c ch_dquote then Some ("", r)
      else if Ascii.eqb c ch_bslash then
        match r with
        | "" => None
        | String e r1 =>
            if Ascii.eqb e ch_u then
              match r1 with
              | String h1 (String h2 (String h3 (String h4 r4))) =>
                  if is_hex h1 && is_hex h2 && is_hex h3 && is_hex h4 then
                    match scan_string r4 with
                    | Some (w, t) =>
                        Some (String c (String e (String h1 (String h2 (String h3 (String h4 w))))), t)
                    | None => None
                    end
                  else None
              | _ => None
              end
            else if bool_decide (is_Some (simple_escape e)) then
              match scan_string r1 with Some (w, t) => Some (String c (String e w), t) | None => None end
            else None
        end
      else if bval c <? 32 then None
      else match scan_string r with Some (w, t) => Some (String c w, t) | None => None end
  end.

Fixpoint span_digits (s : string) : string * string :=
  match s with
  | String c r => if is_digit c then let '(d, t) := span_digits r in (String c d, t) else ("", s)
  | "" => ("", "")
  end.

(** The parts of a number: each takes its piece off the text, or fails. *)
Definition scan_minus (s : string) : string * string :=
  match s with String c r => if Ascii.eqb c "-"%char then ("-", r) else ("", s) | "" => ("", "") end.
Definition scan_int (s : string) : option (string * string) :=
  match s with
  | String c r =>
      if Ascii.eqb c "0"%char then Some ("0", r)
      else if is_digit c then Some (span_digits s) else None
  | "" => None
  end.
Definition scan_frac (s : string) : option (string * string) :=
  match s with
  | String c r =>
      if Ascii.eqb c "."%char then
        match span_digits r with ("", _) => None | (d, t) => Some (String c d, t) end
      else Some ("", s)
  | "" => Some ("", "")
  end.
Definition scan_exp (s : string) : option (string * string) :=
  match s with
  | String c r =>
      if Ascii.eqb c "e"%char || Ascii.eqb c "E"%char then
        let '(sg, r1) := match r with
                         | String g r' => if Ascii.eqb g "+"%char || Ascii.eqb g "-"%char
                                          then (String g "", r') else ("", r)
                         | "" => ("", "") end in
        match span_digits r1 with ("", _) => None | (d, t) => Some (String c (sg +:+ d), t) end
      else Some ("", s)
  | "" => Some ("", "")
  end.
Definition scan_number (s : string) : option (string * string) :=
  let '(m, s1) := scan_minus s in
  match scan_int s1 with
  | None => None
  | Some (i, s2) =>
      match scan_frac s2 with
      | None => None
      | Some (f, s3) =>
          match scan_exp s3 with
          | None => None
          | Some (e, s4) => Some (m +:+ i +:+ f +:+ e, s4)
          end
      end
  end.

(** ** Parsing

    [n] is fuel, twice the length of the text being enough ([parse_print]
    below); [d] is what is left of the nesting depth of 10000 beyond which
    Go refuses a text. *)
Definition expect (c : ascii) (s : string) : option string :=
  match s with String a r => if Ascii.eqb a c then Some r else None | "" => None end.
Definition scan_key (s : string) : option (string * string) :=
  match expect ch_dquote s with
  | None => None
  | Some r =>
      match scan_string r with
      | None => None
      | Some (k, r) => match expect ":"%char (skip_ws r) with None => None | Some r => Some (k, r) end
      end
  end.

Definition scan_scalar (s : string) : option (json * string) :=
  if has_prefix "null" s then Some (JNull, sdrop 4 s)
  else if has_prefix "true" s then Some (JBool true, sdrop 4 s)
  else if has_prefix "false" s then Some (JBool false, sdrop 5 s)
  else match expect ch_dquote s with
       | Some r => match scan_string r with Some (w, t) => Some (JStr w, t) | None => None end
       | None => match scan_number s with Some (w, t) => Some (JNum w, t) | None => None end
       end.

Fixpoint parse_value (n : nat) (d : Z) (s : string) : option (json * string) :=
  match n with
  | O => None
  | S n =>
      let s := skip_ws s in
      match expect "{"%char s with
      | Some r =>
          if d <=? 0 then None
          else match expect "}"%char (skip_ws r) with
               | Some t => Some (JObj [], t)
               | None => match parse_members n (d - 1) r with
                         | Some (m, t) => Some (JObj m, t)
                         | None => None
                         end
               end
      | None =>
          match expect "["%char s with
          | Some r =>
              if d <=? 0 then None
              else match expect "]"%char (skip_ws r) with
                   | Some t => Some (JArr [], t)
                   | None => match parse_elements n (d - 1) r with
                             | Some (l, t) => Some (JArr l, t)
                             | None => None
                             end
                   end
          | None => scan_scalar s
          end
      end
  end
with parse_members (n : nat) (d : Z) (s : string) : option (list (string * json) * string) :=
  match n with
  | O => None
  | S n =>
      match scan_key (skip_ws s) with
      | None => None
      | Some (k, r) =>
          match parse_value n d r with
          | None => None
          | Some (v, r) =>
              let r := skip_ws r in
              match expect ","%char r with
              | Some r => match parse_members n d r with
                          | Some (m, t) => Some ((k, v) :: m, t)
                          | None => None
                          end
              | None => match expect "}"%char r with Some t => Some ([(k, v)], t) | None => None end
              end
          end
      end
  end
with parse_elements (n : nat) (d : Z) (s : string) : option (list json * string) :=
  match n with
  | O => None
  | S n =>
      match parse_value n d s with
      | None => None
      | Some (v, r) =>
          let r := skip_ws r in
          match expect ","%char r with
          | Some r => match parse_elements n d r with
                      | Some (l, t) => Some (v :: l, t)
                      | None => None
                      end
          | None => match expect "]"%char r with Some t => Some ([v], t) | None => None end
          end
      end
  end.

Definition maxNestingDepth : Z := 10000.

(** The tree of a text, [None] for a syntax error (also text after the value). *)
Definition json_parse (s : string) : option json :=
  match parse_value (2 * String.length s + 2) maxNestingDepth s with
  | Some (v, r) => if String.eqb (skip_ws r) "" then Some v else None
  | None => None
  end.

(** ** Strings *)

Definition is_surrogate (u : Z) : bool := (55296 <=? u) && (u <? 57344).
(** [utf16.DecodeRune]. *)
Definition utf16_pair (a b : Z) : option Z :=
  if (55296 <=? a) && (a <? 56320) && (56320 <=? b) && (b <? 57344)
  then Some ((a - 55296) * 1024 + (b - 56320) + 65536) else None.

(** The value of a literal's text: escapes are resolved, surrogate halves
    joined, and whatever is not UTF-8 replaced by U+FFFD. *)
Fixpoint unquote (s : string) : string :=
  match s with
  | "" => ""
  | String c r =>
      if Ascii.eqb c ch_bslash then
        match r with
        | "" => ""
        | String e r1 =>
            if Ascii.eqb e ch_u then
              match r1 with
              | String h1 (String h2 (String h3 (String h4 r4))) =>
                  let u := hex4 h1 h2 h3 h4 in
                  if is_surrogate u then
                    match r4 with
                    | String b (String x (String g1 (String g2 (String g3 (String g4 r10))))) =>
                        if Ascii.eqb b ch_bslash && Ascii.eqb x ch_u then
                          match utf16_pair u (hex4 g1 g2 g3 g4) with
                          | Some p => utf8_encode p +:+ unquote r10
                          | None => replacement +:+ unquote r4
                          end
                        else replacement +:+ unquote r4
                    | _ => replacement +:+ unquote r4
                    end
                  else utf8_encode u +:+ unquote r4
              | _ => ""
              end
            else match simple_escape e with Some x => String x (unquote r1) | None => "" end
        end
      else
        match utf8_width s with
        | 1%nat => String c (unquote r)
        | 2%nat => match r with String c2 r2 => String c (String c2 (unquote r2)) | _ => "" end
        | 3%nat => match r with String c2 (String c3 r3) => String c (String c2 (String c3 (unquote r3))) | _ => "" end
        | 4%nat => match r with
                   | String c2 (String c3 (String c4 r4)) => String c (String c2 (String c3 (String c4 (unquote r4))))
                   | _ => "" end
        | _ => replacement +:+ unquote r
        end
  end.

Definition hex_char (z : Z) : ascii := if z <? 10 then byte (48 + z) else byte (87 + z).
Definition u00 (c : ascii) : string :=
  "\u00" +:+ String (hex_char (bval c / 16)) (String (hex_char (bval c mod 16)) "").

(** How the encoder spells one ASCII byte. *)
Definition quote_ascii (html : bool) (c : ascii) : string :=
  if Ascii.eqb c ch_dquote || Ascii.eqb c ch_bslash then String ch_bslash (String c "")
  else if Ascii.eqb c "008"%char then "\b"
  else if Ascii.eqb c "012"%char then "\f"
  else if Ascii.eqb c ch_nl then "\n"
  else if Ascii.eqb c ch_cr then "\r"
  else if Ascii.eqb c "009"%char then "\t"
  else if bval c <? 32 then u00 c
  else if html && (Ascii.eqb c "<"%char || Ascii.eqb c ">"%char || Ascii.eqb c "&"%char) then u00 c
  else String c "".

(** The text of a string: U+2028 and U+2029 are escaped, and so is whatever
    is not UTF-8; [html] is [SetEscapeHTML]. *)
Fixpoint quote (html : bool) (s : string) : string :=
  match s with
  | "" => ""
  | String c r =>
      match utf8_width s with
      | 1%nat => quote_ascii html c +:+ quote html r
      | 2%nat => match r with String c2 r2 => String c (String c2 (quote html r2)) | _ => "" end
      | 3%nat => match r with
                 | String c2 (String c3 r3) =>
                     if (bval c =? 226) && (bval c2 =? 128) && (bval c3 =? 168) then "\u2028" +:+ quote html r3
                     else if (bval c =? 226) && (bval c2 =? 128) && (bval c3 =? 169) then "\u2029" +:+ quote html r3
                     else String c (String c2 (String c3 (quote html r3)))
                 | _ => "" end
      | 4%nat => match r with
                 | String c2 (String c3 (String c4 r4)) => String c (String c2 (String c3 (String c4 (quote html r4))))
                 | _ => "" end
      | _ => "\ufffd" +:+ quote html r
      end
  end.

(** ** Encoding *)

Definition quoted (s : string) : string := String ch_dquote (s +:+ String ch_dquote "").

(** The compact text of a tree. *)
Fixpoint print (v : json) : string :=
  match v with
  | JNull => "null"
  | JBool true => "true"
  | JBool false => "false"
  | JNum lit => lit
  | JStr raw => quoted raw
  | JArr l => "[" +:+ join_with "," (map print l) +:+ "]"
  | JObj m => "{" +:+ join_with "," (map (fun kv => quoted kv.1 +:+ ":" +:+ print kv.2) m) +:+ "}"
  end.

(** ** Decoding into Go types *)

Abbreviation fields := (gmap string json).

(** Into a [map[string]json.RawMessage]: a later duplicate of a key wins;
    [null] gives a nil map. *)
Definition map_of (m : list (string * json)) : fields :=
  fold_left (fun acc kv => <[unquote kv.1 := kv.2]> acc) m ∅.
Definition decode_map (v : json) : option (option fields) :=
  match v with JObj m => Some (Some (map_of m)) | JNull => Some None | _ => None end.

(** Into a [string], a [bool], an [int64], a [json.Number]: [None] is a type
    error; [null] leaves the variable, here at [acc]. *)
Definition decode_string (acc : string) (v : json) : option string :=
  match v with JStr raw => Some (unquote raw) | JNull => Some acc | _ => None end.
Definition decode_bool (acc : bool) (v : json) : option bool :=
  match v with JBool b => Some b | JNull => Some acc | _ => None end.

(** [strconv.ParseInt(s, 10, 64)] on the literals of a number (JSON has no
    leading plus sign). *)
Definition parse_int64 (s : string) : option Z :=
  let '(sg, r) := scan_minus s in
  match r with
  | "" => None
  | _ => if sforall is_digit r then
           let n := (if String.eqb sg "" then 1 else -1) * fold_left (fun acc c => acc * 10 + (bval c - 48)) (String.list_ascii_of_string r) 0 in
           if (MinInt64 <=? n) && (n <=? MaxInt64) then Some n else None
         else None
  end.
Definition decode_int64 (acc : Z) (v : json) : option Z :=
  match v with JNum lit => parse_int64 lit | JNull => Some acc | _ => None end.
(** A [json.Number] also takes a string that is a number. *)
Definition decode_number (v : json) : option string :=
  match v with
  | JNum lit => Some lit
  | JStr raw => let s := unquote raw in
                match scan_number s with Some (_, "") => Some s | _ => None end
  | JNull => Some ""
  | _ => None
  end.

(** Into a struct: a key belongs to a field when they agree up to case
    ([foldName]; the Kelvin sign and the long s fold to [k] and [s]), and
    the fields are decoded key by key in the order of the text. *)
Fixpoint fold_name (s : string) : string :=
  match s with
  | "" => ""
  | String c r =>
      let plain := String (lower_ascii c) (fold_name r) in
      match r with
      | "" => plain
      | String c2 r2 =>
          if (bval c =? 197) && (bval c2 =? 191) then String "s"%char (fold_name r2)
          else match r2 with
               | "" => plain
               | String c3 r3 =>
                   if (bval c =? 226) && (bval c2 =? 132) && (bval c3 =? 170)
                   then String "k"%char (fold_name r3) else plain
               end
      end
  end.
Definition field_is (name : string) (kv : string * json) : bool :=
  String.eqb (fold_name (unquote kv.1)) name.
(** The values of a field, in order. *)
Definition field_values (name : string) (m : list (string * json)) : list json :=
  map snd (List.filter (field_is name) m).
(** A field decoded by [dec] from its zero value [z]. *)
Definition decode_field {A} (dec : A -> json -> option A) (z : A) (name : string) (m : list (string * json)) : option A :=
  fold_left (fun acc v => match acc with Some a => dec a v | None => None end) (field_values name m) (Some z).
Definition string_field := decode_field decode_string "".
Definition int64_field := decode_field decode_int64 0.
(** A [json.RawMessage] field takes every value, [null] too. *)
Definition raw_field (name : string) (m : list (string * json)) : option json := last (field_values name m).
(** The members of the object decoded into a struct; [null] leaves it. *)
Definition decode_struct (v : json) : option (list (string * json)) :=
  match v with JObj m => Some m | JNull => Some [] | _ => None end.
(** A struct field: each object is decoded into the same struct, so its
    members add up; a pointer field is reset by [null]. *)
Definition decode_members (acc : list (string * json)) (v : json) : option (list (string * json)) :=
  match decode_struct v with Some m => Some (acc ++ m) | None => None end.
Definition struct_field := decode_field decode_members [].
Definition decode_pointer (acc : option (list (string * json))) (v : json) : option (option (list (string * json))) :=
  match v with
  | JNull => Some None
  | JObj m => Some (Some (default [] acc ++ m))
  | _ => None
  end.
Definition pointer_field := decode_field decode_pointer None.

(** ** Encoding a [map[string]json.RawMessage]

    The keys come out once each, in byte order; [html] is off. *)
Fixpoint string_leb (a b : string) : bool :=
  match a, b with
  | "", _ => true
  | String _ _, "" => false
  | String x a', String y b' => (bval x <? bval y) || ((bval x =? bval y) && string_leb a' b')
  end.
Definition kv_le (x y : string * json) : Prop := string_leb x.1 y.1 = true.
#[global] Instance kv_le_dec : RelDecision kv_le := fun x y => decide (string_leb x.1 y.1 = true).
Definition tree_of (f : fields) : json :=
  JObj (map (fun kv => (quote false kv.1, kv.2)) (merge_sort kv_le (map_to_list f))).
Definition encode_map (f : fields) : string := print (tree_of f).
(** [json.Marshal] of a string and of an [int64]. *)
Definition marshal_string (s : string) : json := JStr (quote true s).
Fixpoint dec_digits (fuel : nat) (n : Z) : string :=
  match fuel with
  | O => ""
  | S fuel => if n <? 10 then String (byte (48 + n)) ""
              else dec_digits fuel (n / 10) +:+ String (byte (48 + n mod 10)) ""
  end.
Definition dec_abs (n : Z) : string := dec_digits (S (Z.to_nat (Z.log2 n))) n.
Definition marshal_int (n : Z) : json := JNum (if n <? 0 then "-" +:+ dec_abs (- n) else dec_abs n).

(** [json.Marshal] of a map also escapes the angle brackets and the
    ampersand inside its raw messages. *)
Fixpoint escape_raw (s : string) : string :=
  match s with
  | "" => ""
  | String c r =>
      if Ascii.eqb c "<"%char || Ascii.eqb c ">"%char || Ascii.eqb c "&"%char then u00 c +:+ escape_raw r
      else match r with
           | String c2 (String c3 r3) =>
               if (bval c =? 226) && (bval c2 =? 128) && (bval c3 =? 168) then "\u2028" +:+ escape_raw r3
               else if (bval c =? 226) && (bval c2 =? 128) && (bval c3 =? 169) then "\u2029" +:+ escape_raw r3
               else String c (escape_raw r)
           | _ => String c (escape_raw r)
           end
  end.
Fixpoint escape_tree (v : json) : json :=
  match v with
  | JStr raw => JStr (escape_raw raw)
  | JArr l => JArr (map escape_tree l)
  | JObj m => JObj (map (fun kv => (escape_raw kv.1, escape_tree kv.2)) m)
  | v => v
  end.
Definition marshal_map (f : fields) : json :=
  JObj (map (fun kv => (quote true kv.1, escape_tree kv.2)) (merge_sort kv_le (map_to_list f))).

(** JSON text written with single quotes, for the examples. *)
Definition js (s : string) : string := smap (fun c => if Ascii.eqb c "'"%char then ch_dquote else c) s.
