(* ===== verification/Utf8.v ===== *)
(** * Strings as sequences of code points

    What [for _, r := range s], [strings.Map] and [utf8] see of a string, the
    encoding back, and the parts of [unicode] the program asks about. *)

From Stdlib Require Import Ascii.
From S2P Require Import Prelude GoStrings Json.

(** ** Decoding and encoding *)

(** The code points of a [range] loop; an invalid byte is U+FFFD. *)
Fixpoint runes (s : string) : list Z :=
  match s with
  | "" => []
  | String a r =>
      match utf8_width s, r with
      | 1%nat, _ => bval a :: runes r
      | 2%nat, String b r2 => ((bval a - 192) * 64 + (bval b - 128)) :: runes r2
      | 3%nat, String b (String c r3) =>
          ((bval a - 224) * 4096 + (bval b - 128) * 64 + (bval c - 128)) :: runes r3
      | 4%nat, String b (String c (String d r4)) =>
          ((bval a - 240) * 262144 + (bval b - 128) * 4096 + (bval c - 128) * 64 + (bval d - 128)) :: runes r4
      | _, _ => 65533 :: runes r
      end
  end.

(** [string(runes)]. *)
Definition encode (l : list Z) : string := foldr (fun u s => utf8_encode u +:+ s) "" l.

(** A Unicode scalar value. *)
Definition scalar (u : Z) : bool := (0 <=? u) && (u <? 55296) || (57344 <=? u) && (u <? 1114112).

(** ** Classes of [unicode] *)

Definition within (ranges : list (Z * Z)) (u : Z) : bool := existsb (fun r => (r.1 <=? u) && (u <=? r.2)) ranges.
(** [unicode.IsControl]. *)
Definition IsControl : Z -> bool := within [(0, 31); (127, 159)].
(** [unicode.Is(unicode.Cf, r)], Unicode 15. *)
Definition IsFormat : Z -> bool :=
  within [(173, 173); (1536, 1541); (1564, 1564); (1757, 1757); (1807, 1807); (2192, 2193); (2274, 2274); (6158, 6158);
          (8203, 8207); (8234, 8238); (8288, 8292); (8294, 8303); (65279, 65279); (65529, 65531); (69821, 69821);
          (69837, 69837); (78896, 78911); (113824, 113827); (119155, 119162); (917505, 917505); (917536, 917631)].
(** [unicode.Zl], [unicode.Zp]. *)
Definition IsLineSep (u : Z) : bool := u =? 8232.
Definition IsParSep (u : Z) : bool := u =? 8233.
(** [unicode.IsSpace]. *)
Definition IsSpace : Z -> bool :=
  within [(9, 13); (32, 32); (133, 133); (160, 160); (5760, 5760); (8192, 8202); (8232, 8233); (8239, 8239); (8287, 8287);
          (12288, 12288)].

Example runes_ex : runes (String.append "a" (String (byte 195) (String (byte 169) (String (byte 255) "")))) = [97; 233; 65533].
Proof. vm_compute. reflexivity. Qed.

(** ** Round trips *)

Lemma bval_low u : 0 <= u < 256 -> bval (byte u) = u.
Proof. apply bval_byte. Qed.

(** The encoding of a scalar value by its number of bytes. *)
Inductive encoded : Z -> string -> Prop :=
| enc_1 a : 0 <= bval a < 128 -> encoded (bval a) (String a "")
| enc_2 a b : 194 <= bval a <= 223 -> 128 <= bval b <= 191 ->
    encoded ((bval a - 192) * 64 + (bval b - 128)) (String a (String b ""))
| enc_3 a b c : 224 <= bval a <= 239 -> (if bval a =? 224 then 160 else 128) <= bval b <= (if bval a =? 237 then 159 else 191) ->
    128 <= bval c <= 191 ->
    encoded ((bval a - 224) * 4096 + (bval b - 128) * 64 + (bval c - 128)) (String a (String b (String c "")))
| enc_4 a b c d : 240 <= bval a <= 244 -> (if bval a =? 240 then 144 else 128) <= bval b <= (if bval a =? 244 then 143 else 191) ->
    128 <= bval c <= 191 -> 128 <= bval d <= 191 ->
    encoded ((bval a - 240) * 262144 + (bval b - 128) * 4096 + (bval c - 128) * 64 + (bval d - 128))
      (String a (String b (String c (String d "")))).

Lemma scalar_spec u : scalar u = true <-> 0 <= u < 55296 \/ 57344 <= u < 1114112.
Proof. unfold scalar. rewrite orb_true_iff, !andb_true_iff, !Z.leb_le, !Z.ltb_lt. lia. Qed.

Ltac split_digits u :=
  pose proof (Z.div_mod u 64 ltac:(lia)); pose proof (Z.mod_pos_bound u 64 ltac:(lia));
  pose proof (Z.div_mod (u / 64) 64 ltac:(lia)); pose proof (Z.mod_pos_bound (u / 64) 64 ltac:(lia));
  pose proof (Z.div_mod (u / 64 / 64) 64 ltac:(lia)); pose proof (Z.mod_pos_bound (u / 64 / 64) 64 ltac:(lia)).

Lemma encode_encoded u : scalar u = true -> encoded u (utf8_encode u).
Proof.
  intros Hu%scalar_spec. split_digits u. unfold utf8_encode.
  assert (E12 : u / 4096 = u / 64 / 64) by (rewrite Z.div_div by lia; done).
  assert (E18 : u / 262144 = u / 64 / 64 / 64) by (rewrite !Z.div_div by lia; done). rewrite E12, E18.
  destruct (Z.ltb_spec u 128).
  { rewrite <- (bval_low u) at 1 by lia. apply enc_1. rewrite bval_low; lia. }
  destruct (Z.ltb_spec u 2048).
  { replace u with ((bval (byte (192 + u / 64)) - 192) * 64 + (bval (byte (128 + u mod 64)) - 128)) at 1
      by (rewrite !bval_low; lia). apply enc_2; rewrite bval_low; lia. }
  destruct (Z.ltb_spec u 65536).
  { replace u with ((bval (byte (224 + u / 64 / 64)) - 224) * 4096 + (bval (byte (128 + u / 64 mod 64)) - 128) * 64
      + (bval (byte (128 + u mod 64)) - 128)) at 1 by (rewrite !bval_low; lia).
    apply enc_3; rewrite !bval_low by lia; [lia| |lia].
    destruct (Z.eqb_spec (224 + u / 64 / 64) 224), (Z.eqb_spec (224 + u / 64 / 64) 237); lia. }
  replace u with ((bval (byte (240 + u / 64 / 64 / 64)) - 240) * 262144 + (bval (byte (128 + u / 64 / 64 mod 64)) - 128) * 4096
    + (bval (byte (128 + u / 64 mod 64)) - 128) * 64 + (bval (byte (128 + u mod 64)) - 128)) at 1 by (rewrite !bval_low; lia).
  apply enc_4; rewrite !bval_low by lia; [lia| |lia..].
  destruct (Z.eqb_spec (240 + u / 64 / 64 / 64) 240), (Z.eqb_spec (240 + u / 64 / 64 / 64) 244); lia.
Qed.

Lemma in_range_true lo hi c : lo <= bval c <= hi -> in_range lo hi c = true.
Proof. intros. unfold in_range. rewrite andb_true_iff, !Z.leb_le. lia. Qed.
Lemma in_range_below lo hi c : bval c < lo -> in_range lo hi c = false.
Proof. intros. unfold in_range. apply andb_false_iff. left. apply Z.leb_gt. lia. Qed.
Lemma in_range_above lo hi c : hi < bval c -> in_range lo hi c = false.
Proof. intros. unfold in_range. apply andb_false_iff. right. apply Z.leb_gt. lia. Qed.

(** The head of a well-encoded string. *)
Lemma encoded_head u e s : encoded u e ->
  runes (e +:+ s) = u :: runes s /\ valid_utf8 (e +:+ s) = valid_utf8 s /\ utf8_width (e +:+ s) = String.length e.
Proof.
  intros He. assert (Hw : utf8_width (e +:+ s) = String.length e).
  { destruct He; cbn [String.append utf8_width String.length].
    - by rewrite in_range_true by lia.
    - rewrite (in_range_above 0), in_range_true by lia. unfold cont. by rewrite in_range_true by lia.
    - rewrite (in_range_above 0), (in_range_above 194), (in_range_true 224) by lia. unfold cont.
      by rewrite !in_range_true by lia.
    - rewrite (in_range_above 0), (in_range_above 194), (in_range_above 224), (in_range_true 240) by lia. unfold cont.
      by rewrite !in_range_true by lia. }
  split; [|split; [|done]]; destruct He; cbn [String.append runes valid_utf8] in *; rewrite Hw; done.
Qed.

Lemma runes_encode l : Forall (fun u => scalar u = true) l -> runes (encode l) = l /\ valid_utf8 (encode l) = true.
Proof.
  induction 1 as [|u l Hu _ [IHr IHv]]; [done|]. change (encode (u :: l)) with (utf8_encode u +:+ encode l).
  destruct (encoded_head u _ (encode l) (encode_encoded u Hu)) as (-> & -> & _). by rewrite IHr.
Qed.

Lemma in_range_inv lo hi c : in_range lo hi c = true -> lo <= bval c <= hi.
Proof. unfold in_range. rewrite andb_true_iff, !Z.leb_le. lia. Qed.

(** The head of any string: a well-encoded code point or an invalid byte. *)
Lemma rune_head s : s = "" \/ (exists u e r, s = e +:+ r /\ encoded u e) \/
  (exists a r, s = String a r /\ utf8_width s = 0%nat).
Proof.
  destruct s as [|a r]; [by left|right]. cbn [utf8_width]. pose proof (bval_range a).
  destruct (in_range 0 127 a) eqn:E1; [apply in_range_inv in E1; left; exists (bval a), (String a ""), r; split; [done|constructor; lia]|].
  destruct (in_range 194 223 a) eqn:E2; [apply in_range_inv in E2; destruct r as [|b r]; [right; eauto|]|].
  { unfold cont. destruct (in_range 128 191 b) eqn:E3; [apply in_range_inv in E3|right; eauto].
    left. eexists _, (String a (String b "")), r. split; [done|by constructor]. }
  destruct (in_range 224 239 a) eqn:E3; [apply in_range_inv in E3; destruct r as [|b [|c r]]; [right; eauto..|]|].
  { unfold cont. destruct (in_range _ _ b && in_range _ _ c) eqn:E4; [|right; eauto].
    apply andb_true_iff in E4 as [Eb%in_range_inv Ec%in_range_inv].
    left. eexists _, (String a (String b (String c ""))), r. split; [done|by constructor]. }
  destruct (in_range 240 244 a) eqn:E4; [apply in_range_inv in E4; destruct r as [|b [|c [|d r]]]; [right; eauto..|]|right; eauto].
  unfold cont. destruct (in_range _ _ b && in_range _ _ c && in_range _ _ d) eqn:E5; [|right; eauto].
  apply andb_true_iff in E5 as [[Eb%in_range_inv Ec%in_range_inv]%andb_true_iff Ed%in_range_inv].
  left. eexists _, (String a (String b (String c (String d "")))), r. split; [done|by constructor].
Qed.

Lemma encoded_scalar u e : encoded u e -> scalar u = true.
Proof.
  intros He. apply scalar_spec. destruct He as [a Ha|a b Ha Hb|a b c Ha Hb Hc|a b c d Ha Hb Hc Hd]; [lia|lia| |].
  - destruct (Z.eqb_spec (bval a) 224), (Z.eqb_spec (bval a) 237); lia.
  - destruct (Z.eqb_spec (bval a) 240), (Z.eqb_spec (bval a) 244); lia.
Qed.

Lemma encoded_fun u e e' : encoded u e -> encoded u e' -> e = e'.
Proof.
  intros H1 H2. destruct (encoded_head _ _ "" H1) as (Hr1 & _), (encoded_head _ _ "" H2) as (Hr2 & _).
  assert (Hb : forall x y, bval x = bval y -> x = y) by (intros x y E; by rewrite <- (byte_bval x), E, byte_bval).
  remember u as v eqn:Ev in H2. destruct H1, H2; try (exfalso; clear Hb Hr1 Hr2; repeat case_match; to_prop; lia).
  all: repeat match goal with |- context [if ?x =? ?y then _ else _] => destruct (Z.eqb_spec x y) end.
  all: clear Hr1 Hr2; repeat (f_equal; try (apply Hb; repeat case_match; to_prop; lia)).
Qed.

Lemma encode_runes s : valid_utf8 s = true -> encode (runes s) = s.
Proof.
  remember (String.length s) as n eqn:En. revert s En. induction (lt_wf n) as [n _ IH]. intros s -> Hv.
  destruct (rune_head s) as [->|[(u & e & r & -> & He)|(a & r & -> & Hw)]]; [done| |].
  - destruct (encoded_head u e r He) as (Hr & Hv' & _). rewrite Hv' in Hv. rewrite Hr.
    change (encode (u :: runes r)) with (utf8_encode u +:+ encode (runes r)).
    rewrite (encoded_fun u _ e (encode_encoded u (encoded_scalar u e He)) He). f_equal.
    apply (IH (String.length r)); [|done|done]. rewrite slen_app. destruct He; cbn; lia.
  - cbn [valid_utf8] in Hv. by rewrite Hw in Hv.
Qed.

Lemma runes_scalar s : Forall (fun u => scalar u = true) (runes s).
Proof.
  remember (String.length s) as n eqn:En. revert s En. induction (lt_wf n) as [n _ IH]. intros s ->.
  destruct (rune_head s) as [->|[(u & e & r & -> & He)|(a & r & -> & Hw)]]; [by constructor| |].
  - destruct (encoded_head u e r He) as (-> & _). constructor; [by eapply encoded_scalar|].
    apply (IH (String.length r)); [|done]. rewrite slen_app. destruct He; cbn; lia.
  - cbn [runes]. rewrite Hw. constructor; [done|]. apply (IH (String.length r)); [|done]. cbn. lia.
Qed.

Lemma encode_app l k : encode (l ++ k) = encode l +:+ encode k.
Proof.
  induction l as [|u l IH]; [done|]. change (encode ((u :: l) ++ k)) with (utf8_encode u +:+ encode (l ++ k)).
  by rewrite IH, <- sapp_assoc.
Qed.
