(* ===== verification/JsonFacts.v ===== *)
(** * Facts about the JSON codec

    Well-formed trees, and that parsing the compact text of a well-formed
    tree gives it back; that every parsed tree is well formed; that the
    encoding of a map decodes to the map. *)

From Stdlib Require Import Ascii.
From stdpp Require Import sorting.
From S2P Require Import Prelude GoStrings Net Json.

(** ** Induction over trees *)

Section Induction.
Context (P : json -> Prop).
Hypothesis HNull : P JNull.
Hypothesis HBool : forall b, P (JBool b).
Hypothesis HNum : forall l, P (JNum l).
Hypothesis HStr : forall r, P (JStr r).
Hypothesis HArr : forall l, Forall P l -> P (JArr l).
Hypothesis HObj : forall m, Forall (fun kv => P kv.2) m -> P (JObj m).

Fixpoint json_rect' (v : json) : P v :=
  match v with
  | JNull => HNull
  | JBool b => HBool b
  | JNum l => HNum l
  | JStr r => HStr r
  | JArr l => HArr l ((fix go l : Forall P l :=
      match l with [] => Forall_nil_2 _ | x :: l => Forall_cons_2 _ _ _ (json_rect' x) (go l) end) l)
  | JObj m => HObj m ((fix go m : Forall (fun kv => P kv.2) m :=
      match m with [] => Forall_nil_2 _ | kv :: m => Forall_cons_2 _ _ _ (json_rect' kv.2) (go m) end) m)
  end.
End Induction.

(** ** Well-formed trees *)

Definition str_wf (raw : string) : Prop := scan_string (raw +:+ String ch_dquote "") = Some (raw, "").
Definition num_wf (lit : string) : Prop := scan_number lit = Some (lit, "").

Inductive json_wf : Z -> json -> Prop :=
| wf_null d : json_wf d JNull
| wf_bool d b : json_wf d (JBool b)
| wf_num d lit : num_wf lit -> json_wf d (JNum lit)
| wf_str d raw : str_wf raw -> json_wf d (JStr raw)
| wf_arr d l : 1 <= d -> Forall (json_wf (d - 1)) l -> json_wf d (JArr l)
| wf_obj d m : 1 <= d -> Forall (fun kv => str_wf kv.1 /\ json_wf (d - 1) kv.2) m -> json_wf d (JObj m).

(** Decide which members of a concrete object a field name selects. *)
Ltac eval_field_names :=
  repeat match goal with |- context [field_is ?n (?k, ?v)] =>
    let b := eval vm_compute in (String.eqb (fold_name (unquote k)) n) in
    change (field_is n (k, v)) with b end.

(** ** Scanning what is followed by more text *)

(** What can follow a value in a compact text. *)
Definition stops (rest : string) : Prop :=
  rest = "" \/ exists c r, rest = String c r /\ c ∈ [","%char; "]"%char; "}"%char].

(** Ltac for tests of a character against a literal. *)
Ltac char_case :=
  repeat match goal with
  | |- context [Ascii.eqb ?c ?x] => is_var c; destruct (Ascii.eqb_spec c x) as [->|]; [try discriminate|]
  | H : context [Ascii.eqb ?c ?x] |- _ => is_var c; destruct (Ascii.eqb_spec c x) as [->|]; [try discriminate|]
  end.

Lemma stops_inv rest : stops rest -> forall (p : ascii -> bool) c r,
  p ","%char = false -> p "]"%char = false -> p "}"%char = false -> rest = String c r -> p c = false.
Proof.
  intros [->|(c & r & -> & Hc)] p c' r' H1 H2 H3 E; [done|]. injection E as <- <-.
  rewrite !elem_of_cons, elem_of_nil in Hc. by destruct Hc as [->|[->|[->|[]]]].
Qed.

Lemma span_digits_app s d t rest : span_digits s = (d, t) -> stops rest ->
  span_digits (s +:+ rest) = (d, t +:+ rest).
Proof.
  intros H Hr. revert d t H. induction s as [|c s IH]; cbn; intros d t H.
  - injection H as <- <-. destruct rest as [|c r]; [done|]. cbn.
    by rewrite (stops_inv _ Hr is_digit c r).
  - destruct (is_digit c); [|by injection H as <- <-].
    destruct (span_digits s) as [d' t']. injection H as <- <-. by rewrite (IH d' t').
Qed.

Lemma scan_minus_app s m t rest : scan_minus s = (m, t) -> s <> "" ->
  scan_minus (s +:+ rest) = (m, t +:+ rest).
Proof. destruct s as [|c s]; cbn; [done|]. destruct (Ascii.eqb c _); intros [= <- <-] _; done. Qed.

Lemma scan_int_app s i t rest : scan_int s = Some (i, t) -> stops rest ->
  scan_int (s +:+ rest) = Some (i, t +:+ rest).
Proof.
  intros H Hr. destruct s as [|c s]; [done|]. cbn in *.
  destruct (Ascii.eqb c "0"%char); [by injection H as <- <-|].
  destruct (is_digit c) eqn:Ec; [|done]. destruct (span_digits s) as [d' t'] eqn:Es.
  injection H as <- <-. by rewrite (span_digits_app _ _ _ _ Es Hr).
Qed.

Lemma scan_frac_app s i t rest : scan_frac s = Some (i, t) -> stops rest ->
  scan_frac (s +:+ rest) = Some (i, t +:+ rest).
Proof.
  intros H Hr. destruct s as [|c s]; cbn in *.
  - injection H as <- <-. destruct rest as [|c r]; [done|]. cbn.
    by rewrite (stops_inv _ Hr (fun x => Ascii.eqb x "."%char) c r).
  - destruct (Ascii.eqb c _); [|by injection H as <- <-].
    destruct (span_digits s) as [d' t'] eqn:Es. rewrite (span_digits_app _ _ _ _ Es Hr).
    destruct d'; [done|]. by injection H as <- <-.
Qed.

Lemma scan_exp_app s i t rest : scan_exp s = Some (i, t) -> stops rest ->
  scan_exp (s +:+ rest) = Some (i, t +:+ rest).
Proof.
  intros H Hr. destruct s as [|c s]; cbn in *.
  - injection H as <- <-. destruct rest as [|c r]; [done|]. cbn.
    by rewrite (stops_inv _ Hr (fun x => Ascii.eqb x "e"%char || Ascii.eqb x "E"%char) c r).
  - destruct (Ascii.eqb c _ || Ascii.eqb c _); [|by injection H as <- <-].
    destruct s as [|g s]; [by cbn in H|]. cbn in *.
    destruct (Ascii.eqb g _ || Ascii.eqb g _); cbn in *.
    + destruct (span_digits s) as [d' t'] eqn:Es. rewrite (span_digits_app _ _ _ _ Es Hr).
      destruct d'; [done|]. by injection H as <- <-.
    + destruct (is_digit g); [|done]. destruct (span_digits s) as [d' t'] eqn:Es.
      rewrite (span_digits_app _ _ _ _ Es Hr). by injection H as <- <-.
Qed.

Lemma scan_number_app s i t rest : scan_number s = Some (i, t) -> stops rest ->
  scan_number (s +:+ rest) = Some (i, t +:+ rest).
Proof.
  intros H Hr. unfold scan_number in *. destruct (scan_minus s) as [m s1] eqn:Em.
  assert (s <> "") as Hne.
  { intros ->. injection Em as <- <-. done. }
  rewrite (scan_minus_app _ _ _ _ Em Hne).
  destruct (scan_int s1) as [[j s2]|] eqn:Ei; [|done]. rewrite (scan_int_app _ _ _ _ Ei Hr).
  destruct (scan_frac s2) as [[f s3]|] eqn:Ef; [|done]. rewrite (scan_frac_app _ _ _ _ Ef Hr).
  destruct (scan_exp s3) as [[e s4]|] eqn:Ee; [|done]. rewrite (scan_exp_app _ _ _ _ Ee Hr).
  by injection H as <- <-.
Qed.

(** Induction on the length, for functions that look several bytes ahead. *)
Lemma string_len_ind (P : string -> Prop) :
  (forall s, (forall t, (String.length t < String.length s)%nat -> P t) -> P s) -> forall s, P s.
Proof.
  intros H s. remember (String.length s) as n eqn:En. revert s En.
  induction n as [n IH] using lt_wf_ind. intros s ->. apply H. intros t Ht. by apply (IH (String.length t)).
Qed.

Lemma scan_string_app s w t rest : scan_string s = Some (w, t) -> scan_string (s +:+ rest) = Some (w, t +:+ rest).
Proof.
  revert w t. induction s as [s IH] using string_len_ind. intros w t H.
  destruct s as [|c r]; [done|]. cbn in *.
  destruct (Ascii.eqb c ch_dquote); [by injection H as <- <-|].
  destruct (Ascii.eqb c ch_bslash).
  - destruct r as [|e r1]; [done|]. cbn in *. destruct (Ascii.eqb e ch_u).
    + destruct r1 as [|h1 [|h2 [|h3 [|h4 r4]]]]; try done. cbn in *. destruct (_ && is_hex h4); [|done].
      destruct (scan_string r4) as [[w' t']|] eqn:Es; [|done]. injection H as <- <-.
      by rewrite (IH r4 ltac:(lia) _ _ Es).
    + destruct (bool_decide _); [|done]. destruct (scan_string r1) as [[w' t']|] eqn:Es; [|done].
      injection H as <- <-. by rewrite (IH r1 ltac:(lia) _ _ Es).
  - destruct (_ <? _); [done|]. destruct (scan_string r) as [[w' t']|] eqn:Es; [|done].
    injection H as <- <-. by rewrite (IH r ltac:(lia) _ _ Es).
Qed.

(** ** Parsing the compact text *)

(** The byte a value starts with is neither space nor a closing bracket. *)
Definition starts (c : ascii) (s : string) : Prop := exists r, s = String c r.
Definition head_ok (c : ascii) : bool := negb (is_ws c || Ascii.eqb c "]"%char || Ascii.eqb c "}"%char).

Lemma num_head lit : num_wf lit -> exists c, starts c lit /\ (Ascii.eqb c "-"%char || is_digit c = true).
Proof.
  unfold num_wf, scan_number. destruct lit as [|c r]; [done|]. intros H. exists c. split; [by exists r|].
  cbn in H. destruct (Ascii.eqb c "-"%char); [done|]. cbn in *.
  destruct (Ascii.eqb_spec c "0"%char) as [->|]; [done|]. by destruct (is_digit c).
Qed.

Lemma print_head d v : json_wf d v -> exists c, starts c (print v) /\ head_ok c = true.
Proof.
  destruct 1 as [d|d b|d lit Hn|d raw|d l|d m]; try (eexists; split; [by eexists|done]).
  - destruct b; (eexists; split; [by eexists|done]).
  - destruct (num_head lit Hn) as (c & Hs & Hc). exists c. split; [done|].
    unfold head_ok, is_ws. char_case; done.
Qed.

Lemma skip_ws_id c s : starts c s -> head_ok c = true -> skip_ws s = s.
Proof.
  intros [r ->] H. cbn. unfold head_ok in H. by destruct (is_ws c).
Qed.
Lemma starts_app c s t : starts c s -> starts c (s +:+ t).
Proof. intros [r ->]. by exists (r +:+ t). Qed.
Lemma skip_ws_stops s : stops s -> skip_ws s = s.
Proof.
  intros [->|(c & r & -> & Hc)]; [done|]. rewrite !elem_of_cons, elem_of_nil in Hc.
  by destruct Hc as [->|[->|[->|[]]]].
Qed.

Lemma scan_quoted raw rest : str_wf raw -> scan_string (raw +:+ String ch_dquote rest) = Some (raw, rest).
Proof.
  intros H. apply (scan_string_app _ _ _ rest) in H. by rewrite sapp_assoc in H.
Qed.

Lemma has_prefix_ne a b p s : a <> b -> has_prefix (String a p) (String b s) = false.
Proof. intros H. unfold has_prefix. cbn. by destruct (ascii_dec a b). Qed.

Lemma scan_scalar_print d v rest : json_wf d v -> (forall l, v <> JArr l) -> (forall m, v <> JObj m) -> stops rest ->
  scan_scalar (print v +:+ rest) = Some (v, rest) /\
  (forall c, (c = "{"%char \/ c = "["%char) -> expect c (print v +:+ rest) = None).
Proof.
  destruct 1 as [d|d b|d lit Hn|d raw Hw|d l|d m]; intros Ha Ho Hr.
  - split; [by destruct rest|]. by intros c [->| ->].
  - destruct b; (split; [by destruct rest|]; by intros c [->| ->]).
  - destruct (num_head lit Hn) as (c & Hs & Hc). apply (scan_number_app _ _ _ rest) in Hn; [|done].
    cbn [print]. destruct (starts_app _ _ rest Hs) as [r Er]. rewrite Er in *.
    unfold scan_scalar. rewrite Hn. split; [|intros x [->| ->]; cbn; char_case; done].
    rewrite !has_prefix_ne by (intros <-; done). cbn. char_case; done.
  - split; [|by intros c [->| ->]]. unfold scan_scalar. cbn [print quoted String.append].
    rewrite sapp_assoc. cbn. by rewrite scan_quoted.
  - by destruct (Ha l).
  - by destruct (Ho m).
Qed.

(** Enough fuel for a tree. *)
Fixpoint need (v : json) : nat :=
  match v with
  | JArr l => S (foldr (fun x n => S (need x + n)) 0 l)
  | JObj m => S (foldr (fun kv n => S (need kv.2 + n)) 0 m)
  | _ => 1
  end%nat.

Lemma join_cons sep x y l : join_with sep (x :: y :: l) = x +:+ sep +:+ join_with sep (y :: l).
Proof. reflexivity. Qed.

Definition parses (d : Z) (v : json) : Prop := forall n rest, json_wf d v -> (need v <= n)%nat -> stops rest ->
  parse_value n d (print v +:+ rest) = Some (v, rest).

Lemma stops_char c r : c ∈ [","%char; "]"%char; "}"%char] -> stops (String c r).
Proof. intros Hc. right. eauto. Qed.
Lemma stops_comma r : stops (String ","%char r).
Proof. apply stops_char. by left. Qed.
Lemma stops_bracket r : stops (String "]"%char r).
Proof. apply stops_char. by do 1 right; left. Qed.
Lemma stops_brace r : stops (String "}"%char r).
Proof. apply stops_char. by do 2 right; left. Qed.
#[local] Hint Resolve stops_comma stops_bracket stops_brace : go.

#[local] Arguments join_with : simpl never.
Lemma parse_elements_print d n x l rest :
  Forall (fun v => json_wf d v /\ parses d v) (x :: l) ->
  (foldr (fun x n => S (need x + n)) 0 (x :: l) <= n)%nat ->
  parse_elements n d (join_with "," (map print (x :: l)) +:+ String "]"%char rest) = Some (x :: l, rest).
Proof.
  revert n x. induction l as [|y l IH]; intros n x [[Hw Hp] Hl]%Forall_cons Hn; destruct n as [|n]; cbn in Hn; try lia.
  - cbn. unfold join_with. rewrite Hp; [|done|cbn in *; lia|auto with go]. by cbn.
  - cbn [map]. rewrite join_cons, !sapp_assoc. cbn [parse_elements].
    rewrite Hp; [|done|cbn in *; lia|cbn; auto with go]. 
    assert (E := IH n y Hl ltac:(cbn in *; lia)). cbn in E |- *. by rewrite E.
Qed.

Definition member (kv : string * json) : string := quoted kv.1 +:+ ":" +:+ print kv.2.
#[local] Arguments member : simpl never.
Lemma member_app kv s :
  member kv +:+ s = String ch_dquote (kv.1 +:+ String ch_dquote (String ":" (print kv.2 +:+ s))).
Proof. unfold member, quoted. cbn. rewrite !sapp_assoc. cbn. by rewrite ?sapp_assoc. Qed.

Lemma scan_key_member kv s : str_wf kv.1 ->
  scan_key (skip_ws (member kv +:+ s)) = Some (kv.1, print kv.2 +:+ s).
Proof. intros H. rewrite member_app. unfold scan_key. cbn. by rewrite scan_quoted. Qed.

Lemma parse_members_print d n kv m rest :
  Forall (fun kv => str_wf kv.1 /\ json_wf d kv.2 /\ parses d kv.2) (kv :: m) ->
  (foldr (fun kv n => S (need kv.2 + n)) 0 (kv :: m) <= n)%nat ->
  parse_members n d (join_with "," (map member (kv :: m)) +:+ String "}"%char rest) = Some (kv :: m, rest).
Proof.
  revert n kv. induction m as [|y m IH]; intros n [k v] [(Hs & Hw & Hp) Hl]%Forall_cons Hn;
    destruct n as [|n]; cbn in Hn, Hs, Hw, Hp; try lia.
  - cbn [parse_members map]. unfold join_with. rewrite scan_key_member by done. cbn.
    rewrite Hp; [|done|cbn in *; lia|auto with go]. by cbn.
  - cbn [map]. rewrite join_cons, !sapp_assoc. cbn [parse_members]. rewrite scan_key_member by done. cbn.
    rewrite Hp; [|done|cbn in *; lia|cbn; auto with go].
    assert (E := IH n y Hl ltac:(cbn in *; lia)). cbn in E |- *. by rewrite E.
Qed.

(** The parser inverts the printer, with what follows left over. *)
Lemma parse_print_value d v : parses d v.
Proof.
  revert d. induction v as [|b|lit|raw|l IH|m IH] using json_rect'; intros d n rest Hw Hn Hr;
    (destruct n as [|n]; [cbn in Hn; lia|]).
  1-4: destruct (print_head _ _ Hw) as (c & Hs & Hc);
       destruct (scan_scalar_print _ _ rest Hw) as [E1 E2]; [done..|];
       cbn [parse_value]; rewrite (skip_ws_id c) by eauto using starts_app; rewrite !E2, E1 by auto; done.
  - inversion Hw as [| | | |? ? Hd Hl|]; subst. cbn in Hn. cbn [parse_value print]. cbn -[print parse_elements join_with].
    destruct (Z.leb_spec d 0); [lia|].
    destruct l as [|x l]; [by cbn|].
    destruct (print_head (d - 1) x) as (c & Hs & Hc); [by inversion Hl|].
    assert (starts c (join_with "," (map print (x :: l)) +:+ String "]"%char rest)) as Hst.
    { apply starts_app. destruct l; [done|]. by apply starts_app. }
    rewrite !sapp_assoc. cbn [String.append] in *. rewrite (skip_ws_id c) by done.
    replace (expect "]"%char _) with (@None string).
    + rewrite (parse_elements_print (d - 1)); [done| |lia].
      apply Forall_and. split; [done|]. eapply Forall_impl; [exact IH|auto].
    + destruct Hst as [r ->]. unfold head_ok in Hc. cbn. destruct (Ascii.eqb c "]"%char); [|done].
      by rewrite orb_true_r in Hc.
  - inversion Hw as [| | | | |? ? Hd Hl]; subst. cbn in Hn. cbn [parse_value print]. cbn -[print parse_members join_with].
    destruct (Z.leb_spec d 0); [lia|].
    destruct m as [|kv m]; [by cbn|].
    change (map _ (kv :: m)) with (map member (kv :: m)).
    rewrite !sapp_assoc. cbn [String.append] in *.
    assert (exists s, join_with "," (map member (kv :: m)) +:+ String "}"%char rest = String ch_dquote s) as [s Es].
    { destruct m; unfold join_with; cbn [map]; rewrite ?sapp_assoc, member_app; eauto. }
    rewrite Es. cbn -[parse_members]. rewrite <- Es.
    rewrite (parse_members_print (d - 1)); [done| |lia].
    apply Forall_forall. intros [k v] Hkv. rewrite Forall_forall in Hl, IH.
    destruct (Hl _ Hkv). split; [done|]. split; [done|]. by apply (IH (k, v)).
Qed.

Lemma need_print d v : json_wf d v -> (need v <= 2 * String.length (print v))%nat.
Proof.
  revert d. induction v as [|b|lit|raw|l IH|m IH] using json_rect'; intros d Hw.
  1-4: destruct (print_head _ _ Hw) as (c & [r E] & _); rewrite E; cbn; lia.
  - inversion Hw as [| | | |? ? Hd Hl|]; subst. cbn [need print]. rewrite !slen_app. cbn [String.length].
    cut (foldr (fun x n => S (need x + n)) 0 l <= 2 * String.length (join_with "," (map print l)) + 1)%nat; [lia|].
    clear Hw. induction l as [|x l IHl]; [cbn; lia|]. apply Forall_cons in IH as [Hx IH], Hl as [Hwx Hl].
    specialize (IHl IH Hl). apply Hx in Hwx. destruct l as [|y l]; [cbn in *; unfold join_with; lia|].
    cbn [map] in *. rewrite join_cons, !slen_app. cbn in *. lia.
  - inversion Hw as [| | | | |? ? Hd Hl]; subst. cbn [need print]. change (map _ m) with (map member m).
    rewrite !slen_app. cbn [String.length].
    cut (foldr (fun kv n => S (need kv.2 + n)) 0 m <= 2 * String.length (join_with "," (map member m)) + 1)%nat; [lia|].
    clear Hw. induction m as [|x m IHm]; [cbn; lia|]. apply Forall_cons in IH as [Hx IH], Hl as [[_ Hwx] Hl].
    specialize (IHm IH Hl). apply Hx in Hwx.
    assert (String.length (print x.2) <= String.length (member x))%nat by (unfold member; rewrite !slen_app; lia).
    destruct m as [|y m]; [cbn in *; unfold join_with; lia|].
    cbn [map] in *. rewrite join_cons, !slen_app. cbn in *. lia.
Qed.

Lemma json_parse_print v : json_wf maxNestingDepth v -> json_parse (print v) = Some v.
Proof.
  intros Hw. unfold json_parse. pose proof (need_print _ _ Hw) as Hn.
  assert (E := parse_print_value maxNestingDepth v (2 * String.length (print v) + 2)%nat "" Hw ltac:(lia) ltac:(by left)).
  rewrite sapp_nil_r in E. by rewrite E.
Qed.

(** ** What is parsed is well formed *)

Lemma scan_string_wf s w t : scan_string s = Some (w, t) -> str_wf w.
Proof.
  unfold str_wf. revert w t. induction s as [s IH] using string_len_ind. intros w t H.
  destruct s as [|c r]; [done|]. cbn in *.
  destruct (Ascii.eqb c ch_dquote) eqn:E1; [by injection H as <- <-|].
  destruct (Ascii.eqb c ch_bslash) eqn:E2.
  - destruct r as [|e r1]; [done|]. cbn in *. destruct (Ascii.eqb e ch_u) eqn:E3.
    + destruct r1 as [|h1 [|h2 [|h3 [|h4 r4]]]]; try done. cbn in *. destruct (_ && is_hex h4) eqn:E4; [|done].
      destruct (scan_string r4) as [[w' t']|] eqn:Es; [|done]. injection H as <- <-.
      cbn. rewrite E1, E2, E3, E4. by rewrite (IH r4 ltac:(lia) _ _ Es).
    + destruct (bool_decide _) eqn:E4; [|done]. destruct (scan_string r1) as [[w' t']|] eqn:Es; [|done].
      injection H as <- <-. cbn. rewrite E1, E2, E3, E4. by rewrite (IH r1 ltac:(lia) _ _ Es).
  - destruct (_ <? _) eqn:E3; [done|]. destruct (scan_string r) as [[w' t']|] eqn:Es; [|done].
    injection H as <- <-. cbn. rewrite E1, E2, E3. by rewrite (IH r ltac:(lia) _ _ Es).
Qed.

(** [u] does not start with a byte of [p]. *)
Definition not_head (p : ascii -> bool) (u : string) : Prop := forall c r, u = String c r -> p c = false.

Lemma span_digits_prefix s d t u : span_digits s = (d, t) -> not_head is_digit u -> span_digits (d +:+ u) = (d, u).
Proof.
  revert d t. induction s as [|c s IH]; cbn; intros d t H Hu.
  - injection H as <- <-. destruct u as [|c r]; [done|]. cbn. by rewrite (Hu c r eq_refl).
  - destruct (is_digit c) eqn:Ec.
    + destruct (span_digits s) as [d' t']. injection H as <- <-. cbn. rewrite Ec. by rewrite (IH d' t' eq_refl Hu).
    + injection H as <- <-. destruct u as [|c' r]; [done|]. cbn. by rewrite (Hu c' r eq_refl).
Qed.

Lemma scan_int_prefix s i t u : scan_int s = Some (i, t) -> not_head is_digit u ->
  scan_int (i +:+ u) = Some (i, u) /\ exists c r, i = String c r /\ is_digit c = true.
Proof.
  intros H Hu. destruct s as [|c s]; [done|]. cbn [scan_int] in H.
  destruct (Ascii.eqb c "0"%char) eqn:E0; [injection H as <- <-; split; [done|by do 2 eexists]|].
  destruct (is_digit c) eqn:Ec; [|done]. injection H as H. pose proof (span_digits_prefix (String c s) _ _ u H Hu) as E.
  rewrite Ec in H. destruct (span_digits s) as [d' t']. injection H as <- <-.
  split; [|eauto]. cbn [String.append scan_int]. rewrite E0, Ec. by rewrite <- E.
Qed.

Lemma scan_frac_prefix s f t u : scan_frac s = Some (f, t) ->
  not_head (fun c => is_digit c || Ascii.eqb c "."%char) u ->
  scan_frac (f +:+ u) = Some (f, u) /\ not_head is_digit (f +:+ u).
Proof.
  intros H Hu.
  assert (not_head is_digit u) as Hd by (intros c r ->; specialize (Hu c r eq_refl); by apply orb_false_iff in Hu as [-> _]).
  assert (f = "" -> scan_frac (f +:+ u) = Some (f, u) /\ not_head is_digit (f +:+ u)) as Hnil.
  { intros ->. split; [|done]. destruct u as [|c r]; [done|]. cbn.
    specialize (Hu c r eq_refl). by apply orb_false_iff in Hu as [_ ->]. }
  destruct s as [|c s]; cbn in H; [injection H as <- <-; auto|].
  destruct (Ascii.eqb_spec c "."%char) as [->|]; [|injection H as <- <-; auto].
  destruct (span_digits s) as [d t'] eqn:Es. pose proof (span_digits_prefix _ _ _ u Es Hd) as E.
  destruct d as [|x d]; [done|]. injection H as <- <-. cbn [String.append scan_frac Ascii.eqb] in *.
  change (Ascii.eqb "."%char "."%char) with true. rewrite E. split; [done|]. by intros c r [= <- <-].
Qed.

Lemma scan_exp_prefix s e t : scan_exp s = Some (e, t) ->
  scan_exp e = Some (e, "") /\ not_head (fun c => is_digit c || Ascii.eqb c "."%char) e.
Proof.
  intros H. destruct s as [|c s]; cbn in H; [by injection H as <- <-|].
  destruct (Ascii.eqb c "e"%char || Ascii.eqb c "E"%char) eqn:Ec; [|by injection H as <- <-].
  assert (is_digit c || Ascii.eqb c "."%char = false) as Hc.
  { apply orb_true_iff in Ec as [->%Ascii.eqb_eq| ->%Ascii.eqb_eq]; done. }
  assert (forall d s' t', span_digits s' = (d, t') -> span_digits d = (d, "")) as Hd.
  { intros d s' t' E. apply (span_digits_prefix _ _ _ "") in E; [|done]. by rewrite sapp_nil_r in E. }
  assert (forall sg x d t' s', span_digits s' = (String x d, t') -> (sg = "" \/ sg = "+" \/ sg = "-") ->
    scan_exp (String c (sg +:+ String x d)) = Some (String c (sg +:+ String x d), "") /\
    not_head (fun c => is_digit c || Ascii.eqb c "."%char) (String c (sg +:+ String x d))) as Hgo.
  { intros sg x d t' s' E Hsg. split; [|by intros ? ? [= <- <-]]. apply Hd in E as E'.
    assert (is_digit x = true) as Hx by (cbn in E'; by destruct (is_digit x)).
    destruct Hsg as [->|[->| ->]]; cbn [String.append scan_exp]; rewrite Ec.
    - assert (Ascii.eqb x "+"%char || Ascii.eqb x "-"%char = false) as -> by (char_case; done). by rewrite E'.
    - cbn [String.append]. change (Ascii.eqb "+"%char "+"%char) with true. cbn [orb]. by rewrite E'.
    - cbn [String.append]. change (Ascii.eqb "-"%char "-"%char) with true. rewrite orb_true_r. by rewrite E'. }
  destruct s as [|g s]; [by cbn in H|].
  destruct (Ascii.eqb g "+"%char || Ascii.eqb g "-"%char) eqn:Eg.
  - destruct (span_digits s) as [[|x d] t'] eqn:Es; [done|]. injection H as <- <-.
    apply (Hgo (String g "") _ _ _ _ Es). apply orb_true_iff in Eg as [->%Ascii.eqb_eq| ->%Ascii.eqb_eq]; auto.
  - destruct (span_digits (String g s)) as [[|x d] t'] eqn:Es; [done|]. injection H as <- <-.
    apply (Hgo "" _ _ _ _ Es). auto.
Qed.

Lemma scan_number_wf s w t : scan_number s = Some (w, t) -> num_wf w.
Proof.
  unfold num_wf, scan_number. destruct (scan_minus s) as [m s1] eqn:Em.
  destruct (scan_int s1) as [[i s2]|] eqn:Ei; [|done].
  destruct (scan_frac s2) as [[f s3]|] eqn:Ef; [|done].
  destruct (scan_exp s3) as [[e s4]|] eqn:Ee; [|done]. intros [= <- <-].
  destruct (scan_exp_prefix _ _ _ Ee) as [Ee' He]. destruct (scan_frac_prefix _ _ _ e Ef He) as [Ef' Hf].
  destruct (scan_int_prefix _ _ _ (f +:+ e) Ei Hf) as [Ei' (c & r & -> & Hc)].
  assert (scan_minus (m +:+ String c r +:+ f +:+ e) = (m, String c r +:+ f +:+ e)) as ->.
  { assert (m = "" \/ m = "-") as [->| ->]; [|cbn; char_case; done|done].
    destruct s as [|x s]; cbn in Em; [injection Em as <- <-; auto|].
    destruct (Ascii.eqb x _); injection Em as <- <-; auto. }
  by rewrite Ei', Ef', Ee'.
Qed.

Lemma scan_scalar_wf d s v t : scan_scalar s = Some (v, t) -> json_wf d v.
Proof.
  unfold scan_scalar. repeat break_match; intros [= <- <-]; constructor.
  - by eapply scan_string_wf.
  - by eapply scan_number_wf.
Qed.

Lemma scan_key_wf s k t : scan_key s = Some (k, t) -> str_wf k.
Proof. unfold scan_key. repeat break_match; intros [= <- <-]. by eapply scan_string_wf. Qed.

Lemma parse_wf n :
  (forall d s v t, parse_value n d s = Some (v, t) -> json_wf d v) /\
  (forall d s m t, parse_members n d s = Some (m, t) -> Forall (fun kv => str_wf kv.1 /\ json_wf d kv.2) m) /\
  (forall d s l t, parse_elements n d s = Some (l, t) -> Forall (json_wf d) l).
Proof.
  induction n as [|n (IHv & IHm & IHl)]; [done|]. split_and!; intros d s x t H; cbn in H.
  - repeat break_match_in H; to_prop; try done; try (injection H as <- <-; constructor; [lia|eauto]).
    by eapply scan_scalar_wf.
  - repeat break_match_in H; try done; injection H as <- <-; constructor; eauto using scan_key_wf.
  - repeat break_match_in H; try done; injection H as <- <-; constructor; eauto.
Qed.

Lemma json_parse_wf s v : json_parse s = Some v -> json_wf maxNestingDepth v.
Proof.
  unfold json_parse. repeat break_match; intros [= <-]. by eapply (proj1 (parse_wf _)).
Qed.

Lemma json_wf_le d d' v : d <= d' -> json_wf d v -> json_wf d' v.
Proof.
  revert d d'. induction v as [|b|lit|raw|l IH|m IH] using json_rect'; intros d d' Hd Hw;
    inversion Hw as [| | | |? ? Hd' Hl|? ? Hd' Hl]; subst; constructor; try done; try lia; rewrite Forall_forall in *.
  - intros x Hx. eapply IH; [done| |by eauto]. lia.
  - intros x Hx. destruct (Hl x Hx). split; [done|]. eapply IH; [done| |by eauto]. lia.
Qed.

(** ** Strings: quoting and unquoting *)

(** The code point at the head of a string, by its width. *)
Inductive rune_case : string -> Prop :=
| rune_nil : rune_case ""
| rune_bad c r : utf8_width (String c r) = 0%nat -> 128 <= bval c -> rune_case (String c r)
| rune_1 c r : (forall x, utf8_width (String c x) = 1%nat) -> bval c < 128 -> rune_case (String c r)
| rune_2 c c2 r : (forall x, utf8_width (String c (String c2 x)) = 2%nat) ->
    128 <= bval c -> 128 <= bval c2 -> rune_case (String c (String c2 r))
| rune_3 c c2 c3 r : (forall x, utf8_width (String c (String c2 (String c3 x))) = 3%nat) ->
    128 <= bval c -> 128 <= bval c2 -> 128 <= bval c3 -> rune_case (String c (String c2 (String c3 r)))
| rune_4 c c2 c3 c4 r : (forall x, utf8_width (String c (String c2 (String c3 (String c4 x)))) = 4%nat) ->
    128 <= bval c -> 128 <= bval c2 -> 128 <= bval c3 -> 128 <= bval c4 ->
    rune_case (String c (String c2 (String c3 (String c4 r)))).

Lemma in_range_spec lo hi c : in_range lo hi c = true <-> lo <= bval c <= hi.
Proof. unfold in_range. rewrite andb_true_iff, !Z.leb_le. done. Qed.

Ltac width_solve :=
  first [lia | intros x; unfold utf8_width, cont;
    repeat match goal with
    | H : in_range _ _ _ = _ |- _ => progress rewrite H
    | |- context [?a =? ?b] => destruct (Z.eqb_spec a b); try lia
    end; done].

Lemma rune_cases s : rune_case s.
Proof.
  destruct s as [|a r]; [constructor|].
  destruct (in_range 0 127 a) eqn:E0.
  { apply rune_1; [cbn; by rewrite E0|]. apply in_range_spec in E0. lia. }
  assert (128 <= bval a) as Ha.
  { destruct (Z.le_gt_cases 128 (bval a)); [done|]. pose proof (bval_range a).
    assert (in_range 0 127 a = true) by (apply in_range_spec; lia). congruence. }
  destruct (utf8_width (String a r)) eqn:Ew; [by apply rune_bad|].
  unfold utf8_width in Ew. rewrite E0 in Ew. unfold cont in Ew.
  repeat (case_match; try done); to_prop;
    repeat match goal with
    | H : in_range _ _ ?c = true |- _ => learn_hyp (proj1 (in_range_spec _ _ _) H)
    end;
    first [apply rune_4; width_solve | apply rune_3; width_solve | apply rune_2; width_solve].
Qed.

Lemma high_bit b0 b1 b2 b3 b4 b5 b6 : 128 <= bval (Ascii b0 b1 b2 b3 b4 b5 b6 true).
Proof. destruct b0, b1, b2, b3, b4, b5, b6; vm_compute; discriminate. Qed.

Lemma ascii_low c : bval c < 128 -> exists b0 b1 b2 b3 b4 b5 b6, c = Ascii b0 b1 b2 b3 b4 b5 b6 false.
Proof.
  destruct c as [b0 b1 b2 b3 b4 b5 b6 []]; [|eauto 10]. pose proof (high_bit b0 b1 b2 b3 b4 b5 b6). lia.
Qed.

Lemma unquote_quote_ascii h c s : bval c < 128 -> unquote (quote_ascii h c +:+ s) = String c (unquote s).
Proof.
  intros (b0 & b1 & b2 & b3 & b4 & b5 & b6 & ->)%ascii_low.
  destruct h, b0, b1, b2, b3, b4, b5, b6; reflexivity.
Qed.

Lemma scan_quote_ascii h c s : bval c < 128 -> scan_string (quote_ascii h c +:+ s) =
  match scan_string s with Some (w, t) => Some (quote_ascii h c +:+ w, t) | None => None end.
Proof.
  intros (b0 & b1 & b2 & b3 & b4 & b5 & b6 & ->)%ascii_low.
  destruct h, b0, b1, b2, b3, b4, b5, b6; reflexivity.
Qed.

Lemma high_ne c x : 128 <= bval c -> bval x < 128 -> Ascii.eqb c x = false.
Proof. intros. destruct (Ascii.eqb_spec c x); [subst; lia|done]. Qed.

Lemma scan_high c s : 128 <= bval c ->
  scan_string (String c s) = match scan_string s with Some (w, t) => Some (String c w, t) | None => None end.
Proof.
  intros H. cbn. rewrite !high_ne by done. by destruct (Z.ltb_spec (bval c) 32); [lia|].
Qed.

Lemma scan_escape6 s : forall p, p ∈ ["\ufffd"; "\u2028"; "\u2029"] -> scan_string (p +:+ s) =
  match scan_string s with Some (w, t) => Some (p +:+ w, t) | None => None end.
Proof.
  intros p. rewrite !elem_of_cons, elem_of_nil. intros [->|[->|[->|[]]]]; reflexivity.
Qed.

Lemma quote_wf h s : str_wf (quote h s).
Proof.
  unfold str_wf. induction s as [s IH] using string_len_ind.
  destruct (rune_cases s) as [|c r Hw Hc|c r Hw Hc|c c2 r Hw ? ?|c c2 c3 r Hw ? ? ?|c c2 c3 c4 r Hw ? ? ? ?]; [done|..];
    cbn [quote]; rewrite ?Hw; rewrite ?sapp_assoc.
  - rewrite scan_escape6 by set_solver. by rewrite IH by (cbn; lia).
  - rewrite scan_quote_ascii by done. by rewrite IH by (cbn; lia).
  - cbn [String.append]. rewrite !scan_high by done. by rewrite IH by (cbn; lia).
  - repeat case_match; rewrite ?sapp_assoc.
    1-2: rewrite scan_escape6 by set_solver; by rewrite IH by (cbn; lia).
    cbn [String.append]. rewrite !scan_high by done. by rewrite IH by (cbn; lia).
  - cbn [String.append]. rewrite !scan_high by done. by rewrite IH by (cbn; lia).
Qed.

Lemma unquote_plain c s : 128 <= bval c -> unquote (String c s) =
  match utf8_width (String c s) with
  | 1%nat => String c (unquote s)
  | 2%nat => match s with String c2 r2 => String c (String c2 (unquote r2)) | _ => "" end
  | 3%nat => match s with String c2 (String c3 r3) => String c (String c2 (String c3 (unquote r3))) | _ => "" end
  | 4%nat => match s with
             | String c2 (String c3 (String c4 r4)) => String c (String c2 (String c3 (String c4 (unquote r4))))
             | _ => "" end
  | _ => replacement +:+ unquote s
  end.
Proof. intros H. cbn [unquote]. by rewrite high_ne. Qed.

Lemma unquote_quote h s : valid_utf8 s = true -> unquote (quote h s) = s.
Proof.
  induction s as [s IH] using string_len_ind. intros Hv.
  destruct (rune_cases s) as [|c r Hw Hc|c r Hw Hc|c c2 r Hw ? ?|c c2 c3 r Hw ? ? ?|c c2 c3 c4 r Hw ? ? ? ?]; [done|..];
    cbn [quote valid_utf8] in *; rewrite ?Hw in *; cbn [String.length] in *.
  - done.
  - rewrite unquote_quote_ascii by done. by rewrite IH by (done || lia).
  - rewrite unquote_plain, Hw, IH by (done || lia). done.
  - assert (forall x y, bval c = 226 -> bval c2 = 128 -> bval c3 = bval x ->
      String (byte 226) (String (byte 128) (String x y)) = String c (String c2 (String c3 y))) as Hsep.
    { intros x y <- <- E. rewrite !byte_bval. do 3 f_equal. by rewrite <- (byte_bval x), <- (byte_bval c3), E. }
    repeat case_match; to_prop.
    + change (unquote _) with (String (byte 226) (String (byte 128) (String (byte 168) (unquote (quote h r))))).
      rewrite IH by (done || lia). apply Hsep; done || lia.
    + change (unquote _) with (String (byte 226) (String (byte 128) (String (byte 169) (unquote (quote h r))))).
      rewrite IH by (done || lia). apply Hsep; done || lia.
    + rewrite unquote_plain, Hw, IH by (done || lia). done.
  - rewrite unquote_plain, Hw, IH by (done || lia). done.
Qed.

Lemma valid_encode u s : 0 <= u < 1114112 -> is_surrogate u = false ->
  valid_utf8 (utf8_encode u +:+ s) = valid_utf8 s.
Proof.
  intros Hu Hs. unfold is_surrogate in Hs. unfold utf8_encode.
  repeat case_match; to_prop; cbn [String.append]; cbn [valid_utf8]; unfold utf8_width, cont, in_range;
    Z.to_euclidean_division_equations; rewrite !bval_byte by lia;
    repeat match goal with
    | |- context [?a =? ?b] => destruct (Z.eqb_spec a b); try (exfalso; lia)
    end;
    repeat match goal with
    | |- context [?a <=? ?b] => destruct (Z.leb_spec a b); try (exfalso; lia); cbn [andb]
    end; reflexivity.
Qed.

Lemma str_wf_high c r : 128 <= bval c -> str_wf (String c r) -> str_wf r.
Proof.
  intros Hc. unfold str_wf. cbn [String.append]. rewrite scan_high by done.
  destruct (scan_string _) as [[w t]|]; [|done]. by intros [= <- <-].
Qed.

Lemma hex4_range a b c d : is_hex a && is_hex b && is_hex c && is_hex d = true -> 0 <= hex4 a b c d < 65536.
Proof.
  assert (forall x, is_hex x = true -> 0 <= hex_digit x < 16) as Hx.
  { intros x. unfold is_hex, hex_digit, is_digit, in_range.
    repeat case_match; to_prop; repeat match goal with H : _ \/ _ |- _ => destruct H end; to_prop; try lia; done. }
  rewrite !andb_true_iff. intros [[[Ha Hb] Hc] Hd]. unfold hex4.
  apply Hx in Ha, Hb, Hc, Hd. lia.
Qed.

(** The shapes of a well-formed literal text: empty, an escape, a plain byte. *)
Inductive lit_case : string -> Prop :=
| lit_nil : lit_case ""
| lit_simple e x r : Ascii.eqb e ch_u = false -> simple_escape e = Some x -> str_wf r ->
    lit_case (String ch_bslash (String e r))
| lit_hex h1 h2 h3 h4 r : is_hex h1 && is_hex h2 && is_hex h3 && is_hex h4 = true -> str_wf r ->
    lit_case (String ch_bslash (String ch_u (String h1 (String h2 (String h3 (String h4 r))))))
| lit_plain c r : Ascii.eqb c ch_bslash = false -> str_wf r -> lit_case (String c r).

Lemma lit_cases s : str_wf s -> lit_case s.
Proof.
  unfold str_wf. destruct s as [|c r]; [constructor|]. cbn. intros H.
  destruct (Ascii.eqb c ch_dquote) eqn:E1; [done|].
  destruct (Ascii.eqb_spec c ch_bslash) as [->|E2].
  - destruct r as [|e r1]; cbn in H; [done|]. destruct (Ascii.eqb_spec e ch_u) as [->|E3].
    + destruct r1 as [|h1 [|h2 [|h3 [|h4 r4]]]]; cbn in H; try (repeat case_match; done).
      destruct (_ && is_hex h4) eqn:E4; [|done].
      destruct (scan_string _) as [[w t]|] eqn:Es; [|done]. injection H as -> ->. by constructor.
    + destruct (bool_decide _) eqn:E4; [|done]. apply bool_decide_eq_true in E4 as [x Hx].
      destruct (scan_string _) as [[w t]|] eqn:Es; [|done]. injection H as -> ->.
      econstructor; [by destruct (Ascii.eqb_spec e ch_u)|done..].
  - destruct (_ <? _); [done|]. destruct (scan_string _) as [[w t]|] eqn:Es; [|done].
    injection H as -> ->. constructor; [by destruct (Ascii.eqb_spec c ch_bslash)|done].
Qed.

Lemma utf16_pair_range a b p : utf16_pair a b = Some p -> 65536 <= p < 1114112.
Proof. unfold utf16_pair. case_match; [|done]. intros [= <-]. to_prop. lia. Qed.

Lemma valid_replacement s : valid_utf8 (replacement +:+ s) = valid_utf8 s.
Proof. reflexivity. Qed.

Lemma valid_ascii c s : bval c < 128 -> valid_utf8 (String c s) = valid_utf8 s.
Proof.
  intros H. cbn [valid_utf8]. unfold utf8_width.
  replace (in_range 0 127 c) with true; [done|]. symmetry. apply in_range_spec. pose proof (bval_range c). lia.
Qed.

Lemma simple_escape_ascii e x : simple_escape e = Some x -> bval x < 128.
Proof. unfold simple_escape. by repeat (case_match; [by intros [= <-]|]). Qed.

(** What a literal denotes is UTF-8. *)
Lemma unquote_valid s : str_wf s -> valid_utf8 (unquote s) = true.
Proof.
  induction s as [s IH] using string_len_ind. intros Hs.
  destruct (lit_cases s Hs) as [|e x r Hu Hx Hr|h1 h2 h3 h4 r Hh Hr|c r Hb Hr]; [done|..].
  - cbn [unquote]. rewrite Hu, Hx. change (Ascii.eqb ch_bslash ch_bslash) with true. cbn iota.
    rewrite valid_ascii by eauto using simple_escape_ascii. apply IH; [cbn; lia|done].
  - pose proof (hex4_range _ _ _ _ Hh) as Hrange. cbn [unquote].
    change (Ascii.eqb ch_bslash ch_bslash) with true. change (Ascii.eqb ch_u ch_u) with true. cbn zeta iota.
    assert (valid_utf8 (unquote r) = true) as Hvr by (apply IH; [cbn; lia|done]).
    destruct (is_surrogate (hex4 h1 h2 h3 h4)) eqn:Esur; [|rewrite valid_encode by (done || lia); done].
    destruct r as [|b [|y [|g1 [|g2 [|g3 [|g4 r10]]]]]]; rewrite ?valid_replacement; try done.
    destruct (Ascii.eqb b ch_bslash && Ascii.eqb y ch_u) eqn:Eb; rewrite ?valid_replacement; [|done].
    destruct (utf16_pair _ _) as [p|] eqn:Ep; rewrite ?valid_replacement; [|done].
    apply utf16_pair_range in Ep. apply andb_prop in Eb as [->%Ascii.eqb_eq ->%Ascii.eqb_eq].
    rewrite valid_encode; [|lia|unfold is_surrogate; lia].
    apply IH; [cbn; lia|]. pose proof (lit_cases _ Hr) as Hl.
    by inversion Hl as [|? ? ? Hne| |? ? Hne].
  - cbn [unquote]. rewrite Hb. pose proof (rune_cases (String c r)) as Hc.
    assert (forall t, (String.length t <= String.length r)%nat -> str_wf t -> valid_utf8 (unquote t) = true) as IH'.
    { intros t Ht. apply IH. cbn. lia. }
    inversion Hc as [|? ? Hw|? ? Hw|? ? ? Hw|? ? ? ? Hw|? ? ? ? ? Hw]; subst; rewrite Hw.
    + rewrite valid_replacement. by apply IH'.
    + rewrite valid_ascii by done. by apply IH'.
    + cbn [valid_utf8]. rewrite Hw. apply IH'; [cbn; lia|]. eauto using str_wf_high.
    + cbn [valid_utf8]. rewrite Hw. apply IH'; [cbn; lia|]. eauto 6 using str_wf_high.
    + cbn [valid_utf8]. rewrite Hw. apply IH'; [cbn; lia|]. eauto 8 using str_wf_high.
Qed.

(** ** Maps *)

(** A decoded object: its keys are UTF-8 and its values well formed. *)
Definition fields_wf (f : fields) : Prop :=
  forall k v, f !! k = Some v -> valid_utf8 k = true /\ json_wf (maxNestingDepth - 1) v.

Lemma map_of_wf m : Forall (fun kv => str_wf kv.1 /\ json_wf (maxNestingDepth - 1) kv.2) m -> fields_wf (map_of m).
Proof.
  unfold map_of. intros Hm. assert (fields_wf ∅) as H0 by (intros k v; by rewrite lookup_empty).
  revert H0. generalize (∅ : fields) as acc.
  induction Hm as [|[k v] m [Hk Hv] Hm IH]; intros acc Hacc; [done|]. cbn. apply IH.
  intros k' v' [[<- <-]|[_ H]]%lookup_insert_Some; [|by apply Hacc]. auto using unquote_valid.
Qed.

Lemma decode_map_wf s v f : json_parse s = Some v -> decode_map v = Some (Some f) -> fields_wf f.
Proof.
  intros Hs%json_parse_wf. destruct v as [| | | | |m]; cbn; try done. intros [= <-].
  inversion Hs; subst. by apply map_of_wf.
Qed.

Lemma fields_wf_insert f k v : fields_wf f -> valid_utf8 k = true -> json_wf (maxNestingDepth - 1) v ->
  fields_wf (<[k := v]> f).
Proof. intros Hf Hk Hv k' v' [[<- <-]|[_ H]]%lookup_insert_Some; auto. Qed.

Lemma tree_of_wf f : fields_wf f -> json_wf maxNestingDepth (tree_of f).
Proof.
  intros Hf. constructor; [done|]. rewrite Forall_map. apply Forall_forall. intros [k v] Hkv.
  rewrite merge_sort_Permutation, elem_of_map_to_list in Hkv. apply Hf in Hkv as [_ Hv].
  split; [apply quote_wf|done].
Qed.

Lemma map_of_quoted (l : list (string * json)) (acc : fields) : Forall (fun kv => valid_utf8 kv.1 = true) l ->
  fold_left (fun acc kv => <[unquote kv.1 := kv.2]> acc) (map (fun kv => (quote false kv.1, kv.2)) l) acc =
  fold_left (fun acc kv => <[kv.1 := kv.2]> acc) l acc.
Proof.
  intros Hl. revert acc. induction Hl as [|[k v] l Hk Hl IH]; intros acc; [done|]. cbn.
  by rewrite IH, unquote_quote.
Qed.

Lemma fold_insert_perm (l : list (string * json)) (acc : fields) : NoDup l.*1 ->
  fold_left (fun acc kv => <[kv.1 := kv.2]> acc) l acc = list_to_map l ∪ acc.
Proof.
  revert acc. induction l as [|[k v] l IH]; intros acc; cbn; [by rewrite map_empty_union|].
  intros [Hk Hl]%NoDup_cons. rewrite IH by done. rewrite <- insert_union_l. symmetry. apply insert_union_r.
  by apply not_elem_of_list_to_map_1.
Qed.

Lemma map_of_tree f : fields_wf f -> decode_map (tree_of f) = Some (Some f).
Proof.
  intros Hf. cbn. do 2 f_equal. unfold map_of. rewrite map_of_quoted.
  - rewrite fold_insert_perm, map_union_empty.
    + rewrite (list_to_map_proper _ (map_to_list f)).
      * apply list_to_map_to_list.
      * rewrite merge_sort_Permutation. apply NoDup_fst_map_to_list.
      * apply merge_sort_Permutation.
    + rewrite merge_sort_Permutation. apply NoDup_fst_map_to_list.
  - apply Forall_forall. intros [k v] Hkv.
    rewrite merge_sort_Permutation, elem_of_map_to_list in Hkv. by apply Hf in Hkv as [Hk _].
Qed.

(** What a reader of the encoded map gets is the map. *)
Lemma encode_map_roundtrip f : fields_wf f ->
  json_parse (encode_map f) = Some (tree_of f) /\ decode_map (tree_of f) = Some (Some f).
Proof.
  intros Hf. split; [by apply json_parse_print, tree_of_wf|by apply map_of_tree].
Qed.

(** ** Integers *)

Definition dec_val (s : string) (acc : Z) : Z :=
  fold_left (fun acc c => acc * 10 + (bval c - 48)) (String.list_ascii_of_string s) acc.
Lemma dec_val_app a b acc : dec_val (a +:+ b) acc = dec_val b (dec_val a acc).
Proof. revert acc. induction a as [|c a IH]; intros acc; [done|]. apply IH. Qed.

Lemma digit_byte d : 0 <= d < 10 -> is_digit (byte (48 + d)) = true /\ bval (byte (48 + d)) = 48 + d.
Proof. intros H. rewrite bval_byte by lia. split; [|done]. apply in_range_spec. rewrite bval_byte; lia. Qed.

(** A decimal text has no leading zero. *)
Definition dec_head (n : Z) (s : string) : Prop :=
  exists c r, s = String c r /\ is_digit c = true /\ (n <> 0 -> Ascii.eqb c "0"%char = false) /\ (n = 0 -> s = "0").

Lemma dec_digits_spec fuel n : 0 <= n -> (Z.log2 n < Z.of_nat fuel) ->
  dec_val (dec_digits fuel n) 0 = n /\ sforall is_digit (dec_digits fuel n) = true /\ dec_head n (dec_digits fuel n).
Proof.
  revert n. induction fuel as [|fuel IH]; intros n Hn Hf; [pose proof (Z.log2_nonneg n); lia|].
  cbn [dec_digits]. destruct (Z.ltb_spec n 10).
  - destruct (digit_byte n) as [Hd Hb]; [lia|]. unfold dec_val. cbn. rewrite Hb, Hd. split; [lia|]. split; [done|].
    exists (byte (48 + n)), "". split_and!; [done|done| |by intros ->].
    intros Hnz. destruct (Ascii.eqb_spec (byte (48 + n)) "0"%char) as [E|]; [|done].
    rewrite E in Hb. change (bval "0"%char) with 48 in Hb. lia.
  - assert (Z.log2 (n / 10) < Z.log2 n) as Hlog.
    { assert (Z.log2 (n / 10) <= Z.log2 (n / 2)) by (apply Z.log2_le_mono; Z.to_euclidean_division_equations; lia).
      change 2 with (2 ^ 1) in H0. rewrite <- Z.shiftr_div_pow2, Z.log2_shiftr in H0 by lia.
      assert (1 <= Z.log2 n) by (change 1 with (Z.log2 2); apply Z.log2_le_mono; lia). lia. }
    destruct (IH (n / 10)) as (Hv & Hall & c & r & Es & Hc & Hnz & _); [Z.to_euclidean_division_equations; lia|lia|].
    destruct (digit_byte (n mod 10)) as [Hd Hb]; [Z.to_euclidean_division_equations; lia|].
    rewrite dec_val_app, Hv, sforall_app, Hall. unfold dec_val. cbn. rewrite Hb, Hd.
    split; [Z.to_euclidean_division_equations; lia|]. split; [done|].
    exists c, (r +:+ String (byte (48 + n mod 10)) ""). rewrite Es. split_and!; [done|done| |lia].
    intros _. apply Hnz. Z.to_euclidean_division_equations; lia.
Qed.

Lemma dec_abs_spec n : 0 <= n ->
  dec_val (dec_abs n) 0 = n /\ sforall is_digit (dec_abs n) = true /\ dec_head n (dec_abs n).
Proof. intros Hn. apply dec_digits_spec; [done|]. pose proof (Z.log2_nonneg n). lia. Qed.

Lemma span_digits_all s : sforall is_digit s = true -> span_digits s = (s, "").
Proof. induction s as [|c s IH]; [done|]. cbn. destruct (is_digit c); [|done]. intros H. by rewrite IH. Qed.

Lemma dec_num n : 0 <= n -> scan_number (dec_abs n) = Some (dec_abs n, "") /\
  scan_number ("-" +:+ dec_abs n) = Some ("-" +:+ dec_abs n, "").
Proof.
  intros Hn. destruct (dec_abs_spec n Hn) as (_ & Hall & c & r & Es & Hc & Hnz & Hz).
  assert (scan_int (dec_abs n) = Some (dec_abs n, "")) as Hi.
  { destruct (decide (n = 0)) as [->|Hne]; [by rewrite (Hz eq_refl)|].
    rewrite Es in *. cbn [scan_int]. rewrite (Hnz Hne), Hc. by rewrite span_digits_all. }
  assert (scan_minus (dec_abs n) = ("", dec_abs n)) as Hm by (rewrite Es; cbn; char_case; done).
  split; unfold scan_number; [rewrite Hm|cbn [String.append scan_minus]; change (Ascii.eqb "-"%char "-"%char) with true];
    cbn iota zeta; rewrite Hi; cbn; by rewrite sapp_nil_r.
Qed.

Lemma marshal_int_wf d n : json_wf d (marshal_int n).
Proof. constructor. unfold num_wf. destruct (Z.ltb_spec n 0); [apply dec_num|apply dec_num]; lia. Qed.

Lemma parse_int64_dec n : in_int64 n ->
  exists lit, marshal_int n = JNum lit /\ parse_int64 lit = Some n.
Proof.
  intros Hn. eexists. split; [done|]. unfold parse_int64. destruct (Z.ltb_spec n 0) as [Hneg|Hpos].
  - destruct (dec_abs_spec (- n)) as (Hv & Hall & c & r & Es & Hc & _); [lia|].
    cbn [String.append scan_minus]. change (Ascii.eqb "-"%char "-"%char) with true. cbn iota zeta.
    fold (dec_val (dec_abs (- n)) 0). rewrite Hv, Hall. rewrite Es at 1.
    change (String.eqb "-" "") with false. cbn iota.
    replace (_ && _) with true; [f_equal; lia|]. symmetry. apply andb_true_intro. rewrite !Z.leb_le. int64_unfold. lia.
  - destruct (dec_abs_spec n) as (Hv & Hall & c & r & Es & Hc & _); [lia|].
    assert (scan_minus (dec_abs n) = ("", dec_abs n)) as -> by (rewrite Es; cbn; char_case; done).
    fold (dec_val (dec_abs n) 0). rewrite Hv, Hall. rewrite Es at 1. change (String.eqb "" "") with true. cbn iota.
    replace (_ && _) with true; [f_equal; lia|]. symmetry. apply andb_true_intro. rewrite !Z.leb_le. int64_unfold. lia.
Qed.

(** ** HTML escaping of raw messages *)

Lemma scan_u00 c s : bval c < 256 -> scan_string (u00 c +:+ s) =
  match scan_string s with Some (w, t) => Some (u00 c +:+ w, t) | None => None end.
Proof.
  intros _. destruct c as [b0 b1 b2 b3 b4 b5 b6 b7].
  destruct b0, b1, b2, b3, b4, b5, b6, b7; reflexivity.
Qed.

Lemma escape_raw_wf s : str_wf s -> str_wf (escape_raw s).
Proof.
  induction s as [s IH] using string_len_ind. intros Hs.
  destruct (lit_cases s Hs) as [|e x r Hu Hx Hr|h1 h2 h3 h4 r Hh Hr|c r Hb Hr]; [done|..].
  - assert (escape_raw (String ch_bslash (String e r)) = String ch_bslash (String e (escape_raw r)) /\
            str_wf (String ch_bslash (String e (escape_raw r)))) as [-> ?]; [|done].
    assert (str_wf (escape_raw r)) as Hw by (apply IH; [cbn; lia|done]). split.
    + unfold simple_escape in Hx. clear -Hx. char_case; try (destruct r as [|? [|? ?]]; reflexivity). done.
    + unfold str_wf. cbn. rewrite Hu. rewrite bool_decide_eq_true_2 by eauto. by rewrite Hw.
  - assert (forall h t, is_hex h = true -> escape_raw (String h t) = String h (escape_raw t)) as Hstep.
    { intros h t Hx. assert (bval h < 128) as Hl.
      { unfold is_hex, is_digit in Hx. rewrite !orb_true_iff, !in_range_spec in Hx. lia. }
      cbn. char_case; [|done..]. repeat case_match; to_prop; lia || done. }
    assert (escape_raw (String ch_bslash (String ch_u (String h1 (String h2 (String h3 (String h4 r)))))) =
      String ch_bslash (String ch_u (String h1 (String h2 (String h3 (String h4 (escape_raw r))))))) as ->.
    { rewrite !andb_true_iff in Hh. destruct Hh as [[[? ?] ?] ?].
      rewrite <- (Hstep h4), <- (Hstep h3), <- (Hstep h2), <- (Hstep h1) by done. reflexivity. }
    unfold str_wf. cbn. rewrite Hh. cbn. by rewrite IH by (done || (cbn; lia)).
  - assert (forall t, str_wf t -> str_wf (String c t)) as Hplain.
    { intros t Ht. unfold str_wf in Hs |- *. cbn in Hs |- *. rewrite Hb in *.
      destruct (Ascii.eqb c ch_dquote); [done|]. destruct (_ <? _); [done|]. by rewrite Ht. }
    cbn [escape_raw]. destruct (Ascii.eqb c "<"%char || Ascii.eqb c ">"%char || Ascii.eqb c "&"%char).
    { unfold str_wf. rewrite sapp_assoc, scan_u00 by apply bval_range. by rewrite IH by (done || (cbn; lia)). }
    destruct r as [|c2 [|c3 r3]]; try (apply Hplain, IH; [cbn; lia|done]).
    assert (forall p, p ∈ ["\u2028"; "\u2029"] -> bval c = 226 -> bval c2 = 128 -> 128 <= bval c3 ->
      str_wf (p +:+ escape_raw r3)) as Hsep.
    { intros p Hp _ H2 H3. unfold str_wf. rewrite sapp_assoc, scan_escape6 by set_solver.
      rewrite IH; [done|cbn; lia|]. apply (str_wf_high c3); [done|]. apply (str_wf_high c2); [lia|done]. }
    repeat case_match; to_prop; try (apply Hsep; [set_solver|lia..]). apply Hplain, IH; [cbn; lia|done].
Qed.

Lemma escape_tree_wf d v : json_wf d v -> json_wf d (escape_tree v).
Proof.
  revert d. induction v as [|b|lit|raw|l IH|m IH] using json_rect'; intros d Hw;
    inversion Hw as [| | | |? ? Hd Hl|? ? Hd Hl]; subst; constructor; try done.
  - by apply escape_raw_wf.
  - rewrite Forall_map. rewrite Forall_forall in *. eauto.
  - rewrite Forall_map. rewrite Forall_forall in *. intros kv Hkv. destruct (Hl kv Hkv) as [Hk Hv].
    split; [by apply escape_raw_wf|by apply IH].
Qed.

Lemma marshal_map_wf d f : 1 <= d -> (forall k v, f !! k = Some v -> json_wf (d - 1) v) -> json_wf d (marshal_map f).
Proof.
  intros Hd Hf. constructor; [done|]. rewrite Forall_map. apply Forall_forall. intros [k v] Hkv.
  rewrite merge_sort_Permutation, elem_of_map_to_list in Hkv. split; [apply quote_wf|].
  by eapply escape_tree_wf, Hf.
Qed.

(** A permutation of a map's entries, quoted in either way, decodes to the
    map. *)
Lemma map_of_entries h (l : list (string * json)) (g : json -> json) (f : fields) :
  l ≡ₚ map_to_list f -> (forall k v, f !! k = Some v -> valid_utf8 k = true) ->
  map_of (map (fun kv => (quote h kv.1, g kv.2)) l) = g <$> f.
Proof.
  intros Hl Hf. unfold map_of.
  assert (forall acc : fields, Forall (fun kv => valid_utf8 kv.1 = true) l ->
    fold_left (fun acc kv => <[unquote kv.1 := kv.2]> acc) (map (fun kv => (quote h kv.1, g kv.2)) l) acc =
    fold_left (fun acc kv => <[kv.1 := kv.2]> acc) (prod_map id g <$> l) acc) as Hq.
  { clear. induction l as [|[k v] l IH]; intros acc Hv; [done|]. apply Forall_cons in Hv as [Hk Hv]. cbn.
    by rewrite IH, unquote_quote. }
  rewrite Hq.
  - rewrite fold_insert_perm, map_union_empty.
    + rewrite list_to_map_fmap. f_equal. rewrite (list_to_map_proper _ (map_to_list f)), list_to_map_to_list; [done| |done].
      rewrite Hl. apply NoDup_fst_map_to_list.
    + rewrite <- list_fmap_compose. change ((fst ∘ prod_map id g) <$> l) with (l.*1). rewrite Hl. apply NoDup_fst_map_to_list.
  - apply Forall_forall. intros [k v] Hkv. rewrite Hl, elem_of_map_to_list in Hkv. eauto.
Qed.

Lemma map_of_marshal f : (forall k v, f !! k = Some v -> valid_utf8 k = true) ->
  decode_map (marshal_map f) = Some (Some (escape_tree <$> f)).
Proof. intros Hf. cbn. do 2 f_equal. by apply map_of_entries; [apply merge_sort_Permutation|]. Qed.

(** ** The byte order of keys *)

Lemma string_leb_refl a : string_leb a a = true.
Proof. induction a as [|c a IH]; [done|]. cbn. by rewrite Z.eqb_refl, IH, orb_true_r. Qed.
Lemma bval_inj a b : bval a = bval b -> a = b.
Proof. intros H. by rewrite <- (byte_bval a), <- (byte_bval b), H. Qed.
Lemma string_leb_cons x a y b :
  string_leb (String x a) (String y b) = true <-> bval x < bval y \/ (x = y /\ string_leb a b = true).
Proof.
  cbn. rewrite orb_true_iff, andb_true_iff, Z.ltb_lt, Z.eqb_eq. split; (intros [?|[H ?]]; [by left|right]).
  - apply bval_inj in H. done.
  - by subst.
Qed.
Lemma string_leb_trans a b c : string_leb a b = true -> string_leb b c = true -> string_leb a c = true.
Proof.
  revert b c. induction a as [|x a IH]; intros [|y b] [|z c]; try done.
  rewrite !string_leb_cons. intros [H1|[-> H1]] [H2|[-> H2]]; [left; lia|by left|by left|right; eauto].
Qed.
Lemma string_leb_antisym a b : string_leb a b = true -> string_leb b a = true -> a = b.
Proof.
  revert b. induction a as [|x a IH]; intros [|y b]; try done.
  rewrite !string_leb_cons. intros [H1|[-> H1]] [H2|[H2 H3]]; try lia; [by subst; lia|]. f_equal. auto.
Qed.
Lemma string_leb_total a b : string_leb a b = true \/ string_leb b a = true.
Proof.
  revert b. induction a as [|x a IH]; intros [|y b]; [by left|by left|by right|].
  rewrite !string_leb_cons. destruct (Z.lt_trichotomy (bval x) (bval y)) as [?|[E|?]]; [by left; left| |by right; left].
  apply bval_inj in E as ->. destruct (IH b); [left|right]; by right.
Qed.
#[export] Instance kv_le_trans : Transitive kv_le.
Proof. intros x y z. apply string_leb_trans. Qed.
#[export] Instance kv_le_total : Total kv_le.
Proof. intros x y. apply string_leb_total. Qed.

(** A key that folds to a name without [k] and [s] sorts no later than the
    name itself. *)
Lemma fold_name_le t k : sforall (fun c => is_lower c && negb (Ascii.eqb c "k"%char) && negb (Ascii.eqb c "s"%char)) t = true ->
  fold_name k = t -> string_leb k t = true.
Proof.
  revert k. induction t as [|c t IH]; intros k Ht Hk.
  - destruct k as [|a k]; [done|]. cbn in Hk. repeat case_match; done.
  - cbn in Ht. apply andb_prop in Ht as [Hc Ht]. apply andb_prop in Hc as [Hc Hs]. apply andb_prop in Hc as [Hc Hkk].
    destruct k as [|a k]; [done|]. cbn [fold_name] in Hk.
    assert (String (lower_ascii a) (fold_name k) = String c t) as [= <- Ht'].
    { destruct k as [|c2 k2]; [done|]. destruct (_ && _); [injection Hk as <- _; done|].
      destruct k2 as [|c3 k3]; [done|]. destruct (_ && _); [injection Hk as <- _; done|done]. }
    apply string_leb_cons. unfold lower_ascii in *. destruct (is_upper a) eqn:Eu; [left|right; auto].
    apply in_range_spec in Eu. rewrite bval_byte by lia. lia.
Qed.

(** In a sorted object the last of the members a case-blind reader takes for
    the name is the one spelt so. *)
Lemma raw_field_sorted name (f : fields) v :
  sforall (fun c => is_lower c && negb (Ascii.eqb c "k"%char) && negb (Ascii.eqb c "s"%char)) name = true ->
  fields_wf f -> f !! name = Some v ->
  exists m, tree_of f = JObj m /\ raw_field name m = Some v /\ NoDup (map (fun kv => unquote kv.1) m).
Proof.
  intros Hname Hf Hv. exists (map (fun kv => (quote false kv.1, kv.2)) (merge_sort kv_le (map_to_list f))).
  split; [done|]. set (l := merge_sort kv_le (map_to_list f)).
  assert (Hperm : l ≡ₚ map_to_list f) by apply merge_sort_Permutation.
  assert (Hsort : StronglySorted kv_le l) by apply (StronglySorted_merge_sort _ _).
  assert (Hvalid : Forall (fun kv => valid_utf8 kv.1 = true) l).
  { apply Forall_forall. intros [k w] Hkv. rewrite Hperm, elem_of_map_to_list in Hkv. by apply Hf in Hkv as [? _]. }
  assert (Hnd : NoDup l.*1) by (rewrite Hperm; apply NoDup_fst_map_to_list).
  assert (Hin : (name, v) ∈ l) by (rewrite Hperm; by apply elem_of_map_to_list).
  split.
  - unfold raw_field, field_values.
    assert (Hfil : map snd (List.filter (field_is name) (map (fun kv => (quote false kv.1, kv.2)) l)) =
            map snd (List.filter (fun kv => String.eqb (fold_name kv.1) name) l)).
    { clear -Hvalid. induction Hvalid as [|[k w] l Hk Hl IH]; [done|]. cbn. unfold field_is at 1. cbn.
      rewrite unquote_quote by done. fold (field_is name).
      destruct (String.eqb _ _); cbn; [f_equal|]; exact IH. }
    rewrite Hfil. clear Hfil Hperm Hvalid. induction Hsort as [|[k w] l Hsort IH Hle]; [by apply elem_of_nil in Hin|].
    cbn in Hnd. apply NoDup_cons in Hnd as [Hk Hnd]. cbn.
    apply elem_of_cons in Hin as [[= <- <-]|Hin].
    + assert (fold_name name = name) as Hfix.
      { clear -Hname. induction name as [|c t IH]; [done|]. cbn in Hname. apply andb_prop in Hname as [Hc Ht].
        apply andb_prop in Hc as [Hc _]. apply andb_prop in Hc as [Hc _]. apply in_range_spec in Hc.
        assert (lower_ascii c = c) as El.
        { unfold lower_ascii. destruct (is_upper c) eqn:E; [|done]. apply in_range_spec in E. lia. }
        cbn [fold_name]. rewrite El, (IH Ht).
        destruct t as [|c2 t2]; [done|]. destruct (_ && _) eqn:E; [to_prop; lia|].
        destruct t2 as [|c3 t3]; [done|]. destruct ((_ =? 226) && _ && _) eqn:E2; [to_prop; lia|done]. }
      rewrite Hfix, String.eqb_refl. cbn.
      assert (List.filter (fun kv => String.eqb (fold_name kv.1) name) l = []) as ->; [|done].
      apply List.incl_l_nil. intros [k w] [Hkw He]%filter_In. exfalso. apply String.eqb_eq in He.
      apply (fold_name_le name) in He; [|done]. rewrite Forall_forall in Hle.
      apply list_elem_of_In in Hkw. specialize (Hle _ Hkw). unfold kv_le in Hle. cbn in Hle.
      apply Hk. rewrite (string_leb_antisym name k Hle He). apply list_elem_of_fmap. by exists (k, w).
    + specialize (IH Hnd Hin). destruct (String.eqb _ _); cbn; [|done].
      destruct (map snd _) as [|y ys]; [done|]. done.
  - rewrite map_map. cbn. rewrite (map_ext_in _ fst); [exact Hnd|].
    intros [k w] Hkv%list_elem_of_In. rewrite Forall_forall in Hvalid. cbn. apply unquote_quote.
    by apply (Hvalid (k, w)).
Qed.

(** ** The bytes of a compact text *)

(** Printable ASCII. *)
Definition visible : ascii -> bool := in_range 32 126.

Lemma span_digits_visible s d t : span_digits s = (d, t) -> sforall visible d = true.
Proof.
  revert d t. induction s as [|c s IH]; intros d t; cbn [span_digits]; [by intros [= <- <-]|].
  destruct (is_digit c) eqn:Ec; [|by intros [= <- <-]]. destruct (span_digits s) as [d' t'] eqn:E. intros [= <- <-].
  cbn [sforall]. rewrite (IH _ _ eq_refl), andb_true_r. apply in_range_spec in Ec. apply in_range_spec. lia.
Qed.

Lemma scan_number_visible s w t : scan_number s = Some (w, t) -> sforall visible w = true.
Proof.
  unfold scan_number. destruct (scan_minus s) as [m s1] eqn:Em. destruct (scan_int s1) as [[i s2]|] eqn:Ei; [|done].
  destruct (scan_frac s2) as [[f s3]|] eqn:Ef; [|done]. destruct (scan_exp s3) as [[e s4]|] eqn:Ee; [|done].
  intros [= <- _]. rewrite !sforall_app, !andb_true_iff. split_and!.
  - destruct s as [|c s]; cbn in Em; [by injection Em as <- _|]. destruct (Ascii.eqb _ _); by injection Em as <- _.
  - destruct s1 as [|c s1]; [done|]. unfold scan_int in Ei. destruct (Ascii.eqb _ _); [by injection Ei as <- _|].
    destruct (is_digit c); [|done]. apply (span_digits_visible (String c s1) i s2). congruence.
  - destruct s2 as [|c s2]; cbn in Ef; [by injection Ef as <- _|]. destruct (Ascii.eqb_spec c "."%char) as [->|]; [|by injection Ef as <- _].
    destruct (span_digits s2) as [d t'] eqn:Ed. apply span_digits_visible in Ed. destruct d; [done|]. by injection Ef as <- _.
  - destruct s3 as [|c s3]; cbn in Ee; [by injection Ee as <- _|].
    destruct (Ascii.eqb c "e"%char || Ascii.eqb c "E"%char) eqn:Ec; [|by injection Ee as <- _].
    assert (visible c = true) as Hc by (apply orb_true_iff in Ec as [E%Ascii.eqb_eq|E%Ascii.eqb_eq]; subst; done).
    match type of Ee with (let '(sg, r1) := ?x in _) = _ => destruct x as [sg r1] eqn:Es end.
    destruct (span_digits r1) as [d t'] eqn:Ed. apply span_digits_visible in Ed. destruct d as [|d0 d]; [done|].
    injection Ee as <- _. change (String c (sg +:+ String d0 d)) with (String c sg +:+ String d0 d).
    rewrite sforall_app, Ed, andb_true_r. cbn [sforall]. rewrite Hc. cbn [andb].
    destruct s3 as [|g s3]; [by injection Es as <- _|]. destruct (Ascii.eqb g "+"%char || Ascii.eqb g "-"%char) eqn:Eg; [|by injection Es as <- _].
    injection Es as <- _. apply orb_true_iff in Eg as [E%Ascii.eqb_eq|E%Ascii.eqb_eq]; by subst.
Qed.

(** No control byte. *)
Definition no_ctrl (c : ascii) : bool := 32 <=? bval c.

Lemma visible_no_ctrl s : sforall visible s = true -> sforall no_ctrl s = true.
Proof. apply sforall_impl. intros c Hc%in_range_spec. apply Z.leb_le. lia. Qed.

Lemma str_wf_no_ctrl s : str_wf s -> sforall no_ctrl s = true.
Proof.
  induction s as [s IH] using string_len_ind. intros Hs.
  assert (forall h, is_hex h = true -> no_ctrl h = true) as Hhex.
  { intros h Hh. unfold is_hex, is_digit in Hh. rewrite !orb_true_iff, !in_range_spec in Hh. apply Z.leb_le. lia. }
  destruct (lit_cases s Hs) as [|e x r Hu Hx Hr|h1 h2 h3 h4 r Hh Hr|c r Hb Hr]; [done|..].
  - cbn [sforall]. rewrite (IH r) by (done || (cbn; lia)). rewrite andb_true_r. change (no_ctrl ch_bslash) with true. cbn [andb].
    unfold simple_escape in Hx. clear -Hx. char_case; done.
  - rewrite !andb_true_iff in Hh. destruct Hh as [[[H1 H2] H3] H4]. cbn [sforall].
    rewrite (IH r), (Hhex h1), (Hhex h2), (Hhex h3), (Hhex h4) by (done || (cbn; lia)). done.
  - unfold str_wf in Hs. cbn in Hs. rewrite Hb in Hs. destruct (Ascii.eqb c ch_dquote); [done|].
    destruct (Z.ltb_spec (bval c) 32); [done|]. cbn [sforall]. rewrite (IH r) by (done || (cbn; lia)).
    rewrite andb_true_r. by apply Z.leb_le.
Qed.

Lemma join_no_ctrl l : Forall (fun s => sforall no_ctrl s = true) l -> sforall no_ctrl (join_with "," l) = true.
Proof.
  induction 1 as [|s l Hs Hl IH]; [done|]. destruct l as [|t l]; [done|].
  rewrite join_cons, !sforall_app, Hs, IH. done.
Qed.

Lemma quoted_no_ctrl s : str_wf s -> sforall no_ctrl (quoted s) = true.
Proof. intros Hs%str_wf_no_ctrl. unfold quoted. cbn [sforall]. by rewrite sforall_app, Hs. Qed.

Lemma print_no_ctrl d v : json_wf d v -> sforall no_ctrl (print v) = true.
Proof.
  revert d. induction v as [|b|lit|raw|l IH|m IH] using json_rect'; intros d Hw; cbn [print];
    inversion Hw as [| |? ? Hn|? ? Hr|? ? Hd Hl|? ? Hd Hl]; subst.
  - done.
  - by destruct b.
  - by eapply visible_no_ctrl, scan_number_visible.
  - by apply quoted_no_ctrl.
  - rewrite !sforall_app. cbn [sforall]. rewrite join_no_ctrl; [done|]. apply Forall_map. rewrite Forall_forall in *. eauto.
  - rewrite !sforall_app. cbn [sforall]. rewrite join_no_ctrl; [done|]. apply Forall_map. rewrite Forall_forall in *.
    intros kv Hkv. destruct (Hl kv Hkv) as [Hk Hv]. rewrite !sforall_app, quoted_no_ctrl by done. cbn [sforall].
    by rewrite (IH kv Hkv _ Hv).
Qed.

Lemma no_ctrl_nl s : sforall no_ctrl s = true -> contains_char ch_nl s = false.
Proof. intros Hs. by apply (sforall_contains no_ctrl). Qed.

(** A field selected once. *)
Lemma decode_field_one {A} (dec : A -> json -> option A) z name m k v :
  List.filter (field_is name) m = [(k, v)] -> decode_field dec z name m = dec z v.
Proof. intros E. unfold decode_field, field_values. by rewrite E. Qed.

(** ** Text after a value

    A value that does not end the text reads the same when more follows, so a
    proper prefix of an object's text is not a JSON text. *)

Lemma app_ne s u : s <> "" -> s +:+ u <> "".
Proof. by destruct s. Qed.

Lemma skip_ws_extend s u : skip_ws s <> "" -> skip_ws (s +:+ u) = skip_ws s +:+ u.
Proof. induction s as [|c s IH]; [done|]. cbn. destruct (is_ws c); [exact IH|done]. Qed.

Lemma expect_extend c s t u : expect c s = Some t -> expect c (s +:+ u) = Some (t +:+ u).
Proof. destruct s as [|a s]; [done|]. cbn. destruct (Ascii.eqb a c); [|done]. by intros [= <-]. Qed.
Lemma expect_none c s u : s <> "" -> expect c s = None -> expect c (s +:+ u) = None.
Proof. destruct s as [|a s]; [done|]. cbn. by destruct (Ascii.eqb a c). Qed.
Lemma expect_ne c s t : expect c s = Some t -> s <> "".
Proof. by destruct s. Qed.

Lemma span_extend s d t u : span_digits s = (d, t) -> t <> "" -> span_digits (s +:+ u) = (d, t +:+ u).
Proof.
  revert d t. induction s as [|c s IH]; intros d t; cbn; [intros [= <- <-]; done|].
  destruct (is_digit c); [|by intros [= <- <-]]. destruct (span_digits s) as [d' t'] eqn:E. intros [= <- <-] Ht.
  by rewrite (IH _ _ eq_refl Ht).
Qed.

Lemma scan_minus_extend s m t u : scan_minus s = (m, t) -> t <> "" -> scan_minus (s +:+ u) = (m, t +:+ u).
Proof. destruct s as [|c s]; cbn; [intros [= <- <-]; done|]. by destruct (Ascii.eqb c "-"%char); intros [= <- <-]. Qed.
Lemma scan_int_extend s i t u : scan_int s = Some (i, t) -> t <> "" -> scan_int (s +:+ u) = Some (i, t +:+ u).
Proof.
  destruct s as [|c s]; [done|]. intros H Ht. unfold scan_int in *. cbn [String.append].
  destruct (Ascii.eqb c "0"%char); [by injection H as <- <-|]. destruct (is_digit c); [|done].
  assert (span_digits (String c s) = (i, t)) as E by congruence. f_equal. by apply (span_extend (String c s)).
Qed.
Lemma scan_frac_extend s f t u : scan_frac s = Some (f, t) -> t <> "" -> scan_frac (s +:+ u) = Some (f, t +:+ u).
Proof.
  destruct s as [|c s]; cbn; [intros [= <- <-]; done|]. intros H Ht. destruct (Ascii.eqb c "."%char); [|by injection H as <- <-].
  destruct (span_digits s) as [d t'] eqn:E. destruct d as [|d0 d]; [done|]. injection H as <- <-.
  by rewrite (span_extend _ _ _ _ E Ht).
Qed.
Lemma scan_exp_extend s e t u : scan_exp s = Some (e, t) -> t <> "" -> scan_exp (s +:+ u) = Some (e, t +:+ u).
Proof.
  destruct s as [|c s]; cbn; [intros [= <- <-]; done|]. intros H Ht.
  destruct (Ascii.eqb c "e"%char || Ascii.eqb c "E"%char); [|by injection H as <- <-].
  destruct s as [|g s]; [done|]. cbn [String.append] in *.
  destruct (Ascii.eqb g "+"%char || Ascii.eqb g "-"%char).
  - destruct (span_digits s) as [d t'] eqn:E. destruct d as [|d0 d]; [done|]. injection H as <- <-. by rewrite (span_extend _ _ _ _ E Ht).
  - destruct (span_digits (String g s)) as [d t'] eqn:E. destruct d as [|d0 d]; [done|]. injection H as <- <-.
    change (String g (s +:+ u)) with (String g s +:+ u). by rewrite (span_extend _ _ _ _ E Ht).
Qed.

(** What is left never grows, so a scan that leaves something had something
    at every stage. *)
Lemma span_rest s d t : span_digits s = (d, t) -> s = "" -> t = "".
Proof. by intros H ->; injection H as _ <-. Qed.

Lemma scan_number_extend s w t u : scan_number s = Some (w, t) -> t <> "" -> scan_number (s +:+ u) = Some (w, t +:+ u).
Proof.
  unfold scan_number. destruct (scan_minus s) as [m s1] eqn:Em. destruct (scan_int s1) as [[i s2]|] eqn:Ei; [|done].
  destruct (scan_frac s2) as [[f s3]|] eqn:Ef; [|done]. destruct (scan_exp s3) as [[e s4]|] eqn:Ee; [|done].
  intros [= <- <-] Ht.
  assert (s3 <> "") as H3 by (intros ->; injection Ee as _ <-; done).
  assert (s2 <> "") as H2 by (intros ->; injection Ef as _ <-; done).
  assert (s1 <> "") as H1 by (by intros ->).
  rewrite (scan_minus_extend _ _ _ _ Em H1), (scan_int_extend _ _ _ _ Ei H2), (scan_frac_extend _ _ _ _ Ef H3).
  by rewrite (scan_exp_extend _ _ _ _ Ee Ht).
Qed.

Lemma has_prefix_extend p s u : has_prefix p s = true -> has_prefix p (s +:+ u) = true /\
  sdrop (String.length p) (s +:+ u) = sdrop (String.length p) s +:+ u.
Proof. intros H. rewrite (has_prefix_inv _ _ H), sapp_assoc, !sdrop_app. split; [apply has_prefix_app|done]. Qed.

(** A text that reads as a string or a number starts with none of the words. *)
Lemma scan_scalar_extend s v t u : scan_scalar s = Some (v, t) -> t <> "" -> scan_scalar (s +:+ u) = Some (v, t +:+ u).
Proof.
  unfold scan_scalar. intros H Ht.
  destruct (has_prefix "null" s) eqn:En; [destruct (has_prefix_extend "null" s u En) as [-> Ed]; injection H as <- <-; cbn [String.length] in Ed; by rewrite Ed|].
  destruct (has_prefix "true" s) eqn:Et.
  { assert (has_prefix "null" (s +:+ u) = false) as -> by (by rewrite (has_prefix_inv _ _ Et)).
    destruct (has_prefix_extend "true" s u Et) as [-> Ed]. injection H as <- <-. cbn [String.length] in Ed. by rewrite Ed. }
  destruct (has_prefix "false" s) eqn:Ef.
  { assert (has_prefix "null" (s +:+ u) = false) as -> by (by rewrite (has_prefix_inv _ _ Ef)).
    assert (has_prefix "true" (s +:+ u) = false) as -> by (by rewrite (has_prefix_inv _ _ Ef)).
    destruct (has_prefix_extend "false" s u Ef) as [-> Ed]. injection H as <- <-. cbn [String.length] in Ed. by rewrite Ed. }
  assert (exists c r, s = String c r /\ (c = ch_dquote \/ c = "-"%char \/ is_digit c = true)) as (c & r & -> & Hc).
  { destruct s as [|c r]; [done|]. exists c, r. split; [done|]. cbn [expect] in H. destruct (Ascii.eqb_spec c ch_dquote); [by left|right].
    unfold scan_number, scan_minus in H. destruct (Ascii.eqb_spec c "-"%char); [by left|right].
    unfold scan_int in H. destruct (Ascii.eqb_spec c "0"%char) as [->|]; [done|]. by destruct (is_digit c). }
  assert (c <> "n"%char /\ c <> "t"%char /\ c <> "f"%char) as (H1 & H2 & H3) by (split_and!; intros ->; destruct Hc as [?|[?|?]]; done).
  cbn [String.append]. rewrite !has_prefix_ne by done. cbn [expect] in *. destruct (Ascii.eqb c ch_dquote).
  - destruct (scan_string r) as [[w t']|] eqn:E; [|done]. injection H as <- <-. by rewrite (scan_string_app _ _ _ _ E).
  - destruct (scan_number (String c r)) as [[w t']|] eqn:E; [|done]. injection H as <- <-.
    change (String c (r +:+ u)) with (String c r +:+ u). by rewrite (scan_number_extend (String c r) _ _ u E Ht).
Qed.

Lemma scan_key_extend s k t u : scan_key s = Some (k, t) -> scan_key (s +:+ u) = Some (k, t +:+ u).
Proof.
  unfold scan_key. destruct (expect ch_dquote s) as [r|] eqn:E1; [|done]. destruct (scan_string r) as [[k' r1]|] eqn:E2; [|done].
  destruct (expect ":"%char (skip_ws r1)) as [r2|] eqn:E3; [|done]. intros [= <- <-].
  rewrite (expect_extend _ _ _ _ E1), (scan_string_app _ _ _ _ E2), skip_ws_extend by (by eapply expect_ne).
  by rewrite (expect_extend _ _ _ _ E3).
Qed.

Lemma parse_extend n :
  (forall d s v t u, parse_value n d s = Some (v, t) -> t <> "" \/ (exists m, v = JObj m) -> parse_value n d (s +:+ u) = Some (v, t +:+ u)) /\
  (forall d s m t u, parse_members n d s = Some (m, t) -> parse_members n d (s +:+ u) = Some (m, t +:+ u)) /\
  (forall d s l t u, parse_elements n d s = Some (l, t) -> parse_elements n d (s +:+ u) = Some (l, t +:+ u)).
Proof.
  induction n as [|n (IHv & IHm & IHl)]; [done|]. split_and!; intros d s x t u; cbn [parse_value parse_members parse_elements].
  - intros H Hx. assert (skip_ws s <> "") as Hne by (intros E; rewrite E in H; done). rewrite (skip_ws_extend _ _ Hne).
    destruct (expect "{"%char (skip_ws s)) as [r|] eqn:E1.
    { rewrite (expect_extend _ _ _ _ E1). destruct (d <=? 0); [done|].
      destruct (expect "}"%char (skip_ws r)) as [t'|] eqn:E2.
      - rewrite skip_ws_extend, (expect_extend _ _ _ _ E2) by (by eapply expect_ne). by injection H as <- <-.
      - destruct (parse_members n (d - 1) r) as [[m t']|] eqn:E3; [|done]. injection H as <- <-.
        assert (skip_ws r <> "") as Hr by (intros E; destruct n; [done|]; cbn in E3; rewrite E in E3; done).
        by rewrite (skip_ws_extend _ _ Hr), (expect_none _ _ _ Hr E2), (IHm _ _ _ _ _ E3). }
    rewrite (expect_none _ _ _ Hne E1). destruct (expect "["%char (skip_ws s)) as [r|] eqn:E2.
    { rewrite (expect_extend _ _ _ _ E2). destruct (d <=? 0); [done|].
      destruct (expect "]"%char (skip_ws r)) as [t'|] eqn:E3.
      - rewrite skip_ws_extend, (expect_extend _ _ _ _ E3) by (by eapply expect_ne). by injection H as <- <-.
      - destruct (parse_elements n (d - 1) r) as [[l t']|] eqn:E4; [|done]. injection H as <- <-.
        assert (skip_ws r <> "") as Hr.
        { intros E. do 2 (destruct n; [done|]). cbn in E4. rewrite E in E4. done. }
        by rewrite (skip_ws_extend _ _ Hr), (expect_none _ _ _ Hr E3), (IHl _ _ _ _ _ E4). }
    rewrite (expect_none _ _ _ Hne E2). apply scan_scalar_extend; [done|]. destruct Hx as [?|[m ->]]; [done|].
    exfalso. revert H. clear. unfold scan_scalar. repeat case_match; congruence.
  - intros H. destruct (scan_key (skip_ws s)) as [[k r]|] eqn:E1; [|done].
    rewrite skip_ws_extend, (scan_key_extend _ _ _ _ E1) by (by intros E; rewrite E in E1).
    destruct (parse_value n d r) as [[v r1]|] eqn:E2; [|done].
    destruct (expect ","%char (skip_ws r1)) as [r2|] eqn:E3.
    + rewrite (IHv _ _ _ _ _ E2) by (left; intros ->; done).
      rewrite skip_ws_extend, (expect_extend _ _ _ _ E3) by (by eapply expect_ne).
      destruct (parse_members n d r2) as [[m t']|] eqn:E4; [|done]. injection H as <- <-. by rewrite (IHm _ _ _ _ _ E4).
    + destruct (expect "}"%char (skip_ws r1)) as [t'|] eqn:E4; [|done]. injection H as <- <-.
      rewrite (IHv _ _ _ _ _ E2) by (left; intros ->; done). assert (skip_ws r1 <> "") as Hr by (by eapply expect_ne).
      by rewrite (skip_ws_extend _ _ Hr), (expect_none _ _ _ Hr E3), (expect_extend _ _ _ _ E4).
  - intros H. destruct (parse_value n d s) as [[v r1]|] eqn:E2; [|done].
    destruct (expect ","%char (skip_ws r1)) as [r2|] eqn:E3.
    + rewrite (IHv _ _ _ _ _ E2) by (left; intros ->; done).
      rewrite skip_ws_extend, (expect_extend _ _ _ _ E3) by (by eapply expect_ne).
      destruct (parse_elements n d r2) as [[m t']|] eqn:E4; [|done]. injection H as <- <-. by rewrite (IHl _ _ _ _ _ E4).
    + destruct (expect "]"%char (skip_ws r1)) as [t'|] eqn:E4; [|done]. injection H as <- <-.
      rewrite (IHv _ _ _ _ _ E2) by (left; intros ->; done). assert (skip_ws r1 <> "") as Hr by (by eapply expect_ne).
      by rewrite (skip_ws_extend _ _ Hr), (expect_none _ _ _ Hr E3), (expect_extend _ _ _ _ E4).
Qed.

(** More fuel changes nothing. *)
Lemma parse_mono n : forall k, (n <= k)%nat ->
  (forall d s x, parse_value n d s = Some x -> parse_value k d s = Some x) /\
  (forall d s x, parse_members n d s = Some x -> parse_members k d s = Some x) /\
  (forall d s x, parse_elements n d s = Some x -> parse_elements k d s = Some x).
Proof.
  induction n as [|n IH]; intros k Hk; [done|]. destruct k as [|k]; [lia|].
  destruct (IH k ltac:(lia)) as (IHv & IHm & IHl).
  split_and!; intros d s x H; cbn [parse_value parse_members parse_elements] in *; repeat break_match_in H; try done;
    repeat match goal with
    | E : parse_value n _ _ = Some _ |- _ => apply IHv in E
    | E : parse_members n _ _ = Some _ |- _ => apply IHm in E
    | E : parse_elements n _ _ = Some _ |- _ => apply IHl in E
    end;
    repeat match goal with E : ?l = _ |- context [?l] => rewrite E end; done.
Qed.

(** No proper prefix of an object's text is a JSON text. *)
Lemma object_prefix m p t : json_wf maxNestingDepth (JObj m) -> print (JObj m) = p +:+ t -> t <> "" -> json_parse p = None.
Proof.
  intros Hw Hp Ht. destruct (json_parse p) as [v|] eqn:E; [|done]. exfalso. unfold json_parse in E.
  destruct (parse_value _ maxNestingDepth p) as [[v' r]|] eqn:Ev; [|done]. destruct (String.eqb _ _); [|done]. injection E as <-.
  assert (exists m', v' = JObj m') as Hobj.
  { destruct p as [|c p]; [done|]. cbn [print String.append] in Hp. injection Hp as <- _. revert Ev. clear.
    remember (2 * String.length (String "{"%char p) + 2)%nat as n. destruct n; [lia|]. cbn. repeat case_match; intros [= <- _]; eauto. }
  pose proof (proj1 (parse_extend _) _ _ _ _ t Ev (or_intror Hobj)) as Hx. rewrite <- Hp in Hx.
  set (k := (2 * String.length p + 2 + need (JObj m))%nat).
  apply (proj1 (parse_mono (2 * String.length p + 2) k ltac:(subst k; lia))) in Hx.
  pose proof (parse_print_value maxNestingDepth (JObj m) k "" Hw ltac:(subst k; lia) (or_introl eq_refl)) as Hy.
  rewrite sapp_nil_r, Hx in Hy. injection Hy as _ Hr. by destruct r.
Qed.
