(* ===== verification/JsonStream.v ===== *)
(** * [json.Decoder], token by token

    The decoder of [encoding/json] as [internal/discovery] drives it: [Token],
    [More] and [Decode] over a text, with the decoder's own state machine for
    what may come next, and its agreement with the tree of the whole text. *)

From Stdlib Require Import Ascii.
From S2P Require Import Prelude GoStrings Json JsonFacts.
#[local] Open Scope Z_scope.

(** ** The decoder *)

Inductive dstate := STop | SArrStart | SArrValue | SArrComma | SObjStart | SObjKey | SObjColon | SObjValue | SObjComma.

(** The text still unread, what may come, and the states to return to. *)
Record decoder := mkDec { d_buf : string; d_state : dstate; d_stack : list dstate }.

Inductive derr := EOF | Malformed.
Inductive token := TDelim (c : ascii) | TStr (s : string) | TOther (v : json).

Definition value_allowed (st : dstate) : bool :=
  match st with STop | SArrStart | SArrValue | SObjValue => true | _ => false end.
Definition value_end (st : dstate) : dstate :=
  match st with SArrStart | SArrValue => SArrComma | SObjValue => SObjComma | st => st end.

(** A reader of a whole value nests at most ten thousand deep from there on. *)
Definition read_value (F : nat) (s : string) : result derr (json * string) :=
  match parse_value F maxNestingDepth s with
  | Some (v, r) => Ok (v, r)
  | None => Err (if String.eqb (skip_ws s) "" then EOF else Malformed)
  end.

(** [Decode]: a separator that is due, then a value. *)
Definition prepare (d : decoder) : result derr decoder :=
  let due c st := match skip_ws (d_buf d) with
                  | "" => Err EOF
                  | String a r => if Ascii.eqb a c then Ok (mkDec r st (d_stack d)) else Err Malformed
                  end in
  match d_state d with
  | SArrComma => due ","%char SArrValue
  | SObjColon => due ":"%char SObjValue
  | _ => Ok d
  end.
Definition Decode (F : nat) (d : decoder) : result derr (json * decoder) :=
  let? d := prepare d in
  if negb (value_allowed (d_state d)) then Err Malformed
  else let? x := read_value F (d_buf d) in
       let '(v, r) := x in Ok (v, mkDec r (value_end (d_state d)) (d_stack d)).

(** [More]. *)
Definition More (d : decoder) : bool :=
  match skip_ws (d_buf d) with
  | "" => false
  | String c _ => negb (Ascii.eqb c "]"%char) && negb (Ascii.eqb c "}"%char)
  end.

(** [Token]; a separator is skipped and the loop continues, at most once,
    since the state after it takes no separator. *)
Fixpoint Token (F n : nat) (d : decoder) : result derr (token * decoder) :=
  match n with
  | O => Err Malformed
  | S n =>
      match skip_ws (d_buf d) with
      | "" => Err EOF
      | String c r =>
          let st := d_state d in let stk := d_stack d in
          let pop := match stk with [] => Err Malformed | o :: stk => Ok (TDelim c, mkDec r (value_end o) stk) end in
          let value := if negb (value_allowed st) then Err Malformed
                       else let? x := Decode F d in Ok (TOther x.1, x.2) in
          if Ascii.eqb c "["%char then
            if negb (value_allowed st) then Err Malformed else Ok (TDelim c, mkDec r SArrStart (st :: stk))
          else if Ascii.eqb c "]"%char then match st with SArrStart | SArrComma => pop | _ => Err Malformed end
          else if Ascii.eqb c "{"%char then
            if negb (value_allowed st) then Err Malformed else Ok (TDelim c, mkDec r SObjStart (st :: stk))
          else if Ascii.eqb c "}"%char then match st with SObjStart | SObjComma => pop | _ => Err Malformed end
          else if Ascii.eqb c ":"%char then
            match st with SObjColon => Token F n (mkDec r SObjValue stk) | _ => Err Malformed end
          else if Ascii.eqb c ","%char then
            match st with
            | SArrComma => Token F n (mkDec r SArrValue stk)
            | SObjComma => Token F n (mkDec r SObjKey stk)
            | _ => Err Malformed
            end
          else if Ascii.eqb c ch_dquote then
            match st with
            | SObjStart | SObjKey =>
                match scan_string r with
                | Some (w, t) => Ok (TStr (unquote w), mkDec t SObjColon stk)
                | None => Err Malformed
                end
            | _ => value
            end
          else value
      end
  end.

(** ** Fuel and depth

    Twice the text consumed is enough fuel, and more depth changes nothing. *)

Lemma skip_ws_le s : (String.length (skip_ws s) <= String.length s)%nat.
Proof. induction s as [|c s IH]; [done|]. cbn. destruct (is_ws c); cbn; lia. Qed.

Lemma expect_len c s t : expect c s = Some t -> String.length s = S (String.length t).
Proof. destruct s as [|a s]; [done|]. cbn. destruct (Ascii.eqb a c); [|done]. by intros [= <-]. Qed.

Lemma span_len s d t : span_digits s = (d, t) -> (String.length t <= String.length s)%nat.
Proof.
  revert d t. induction s as [|c s IH]; intros d t; cbn; [by intros [= _ <-]|].
  destruct (is_digit c); [|by intros [= _ <-]]. destruct (span_digits s) as [d' t'] eqn:E. intros [= _ <-]. specialize (IH _ _ eq_refl). lia.
Qed.
Lemma span_len_lt s c d t : span_digits s = (String c d, t) -> (String.length t < String.length s)%nat.
Proof.
  destruct s as [|a s]; cbn; [done|]. destruct (is_digit a); [|done]. destruct (span_digits s) as [d' t'] eqn:E. intros [= _ _ <-].
  apply span_len in E. lia.
Qed.

Lemma scan_string_len s w t : scan_string s = Some (w, t) -> (String.length t < String.length s)%nat.
Proof.
  revert w t. induction s as [s IH] using string_len_ind. intros w t H. destruct s as [|c r]; [done|]. cbn in H.
  repeat break_match_in H; try done; injection H as _ <-; cbn; try lia.
  all: match goal with E : scan_string _ = Some _ |- _ => apply IH in E; cbn in *; lia end.
Qed.

Lemma scan_number_len s w t : scan_number s = Some (w, t) -> (String.length t < String.length s)%nat.
Proof.
  unfold scan_number. destruct (scan_minus s) as [m s1] eqn:Em. destruct (scan_int s1) as [[i s2]|] eqn:Ei; [|done].
  destruct (scan_frac s2) as [[f s3]|] eqn:Ef; [|done]. destruct (scan_exp s3) as [[e s4]|] eqn:Ee; [|done]. intros [= _ <-].
  assert (String.length s1 <= String.length s)%nat.
  { destruct s as [|c s]; cbn in Em; [by injection Em as _ <-|]. destruct (Ascii.eqb c "-"%char); injection Em as _ <-; cbn; lia. }
  assert (String.length s2 < String.length s1)%nat.
  { destruct s1 as [|c s1]; [done|]. unfold scan_int in Ei. destruct (Ascii.eqb c "0"%char); [injection Ei as _ <-; cbn; lia|].
    destruct (is_digit c) eqn:Ec; [|done]. cbn [span_digits] in Ei. rewrite Ec in Ei. destruct (span_digits s1) as [d t] eqn:Es.
    injection Ei as _ <-. apply span_len in Es. cbn. lia. }
  assert (String.length s3 <= String.length s2)%nat.
  { destruct s2 as [|c s2]; cbn in Ef; [by injection Ef as _ <-|]. destruct (Ascii.eqb c "."%char); [|injection Ef as _ <-; cbn; lia].
    destruct (span_digits s2) as [d t] eqn:Es. destruct d; [done|]. injection Ef as _ <-. apply span_len in Es. cbn. lia. }
  assert (String.length s4 <= String.length s3)%nat; [|lia].
  destruct s3 as [|c s3]; cbn in Ee; [by injection Ee as _ <-|]. destruct (_ || _); [|injection Ee as _ <-; cbn; lia].
  destruct s3 as [|g s3]; [done|]. destruct (Ascii.eqb g "+"%char || Ascii.eqb g "-"%char);
    [destruct (span_digits s3) as [d t] eqn:Es|destruct (span_digits (String g s3)) as [d t] eqn:Es];
    (destruct d; [done|]); injection Ee as _ <-; apply span_len in Es; cbn in *; lia.
Qed.

Lemma sdrop_len n s : String.length (sdrop n s) = (String.length s - n)%nat.
Proof. revert n. induction s as [|c s IH]; intros [|n]; cbn; try done. Qed.

Lemma has_prefix_len p s : has_prefix p s = true -> (String.length p <= String.length s)%nat.
Proof. intros H. rewrite (has_prefix_inv _ _ H), slen_app. lia. Qed.

Lemma scan_scalar_len s v t : scan_scalar s = Some (v, t) -> (String.length t < String.length s)%nat.
Proof.
  unfold scan_scalar.
  assert (forall p, (0 < String.length p)%nat -> has_prefix p s = true -> (String.length (sdrop (String.length p) s) < String.length s)%nat) as Hp
    by (intros p H0 H; apply has_prefix_len in H; rewrite sdrop_len; lia).
  destruct (has_prefix "null" s) eqn:E1; [intros [= _ <-]; by apply (Hp "null"); [cbn; lia|]|].
  destruct (has_prefix "true" s) eqn:E2; [intros [= _ <-]; by apply (Hp "true"); [cbn; lia|]|].
  destruct (has_prefix "false" s) eqn:E3; [intros [= _ <-]; by apply (Hp "false"); [cbn; lia|]|].
  destruct (expect ch_dquote s) as [r|] eqn:Eq.
  - destruct (scan_string r) as [[w t']|] eqn:E; [|done]. intros [= _ <-]. apply scan_string_len in E. apply expect_len in Eq. lia.
  - destruct (scan_number s) as [[w t']|] eqn:E; [|done]. intros [= _ <-]. by apply scan_number_len in E.
Qed.

Lemma scan_key_len s k t : scan_key s = Some (k, t) -> (String.length t + 2 < String.length s)%nat.
Proof.
  unfold scan_key. repeat break_match; intros [= _ <-].
  repeat match goal with E : expect _ _ = Some _ |- _ => apply expect_len in E end.
  match goal with E : scan_string ?x = Some (_, ?y) |- _ => apply scan_string_len in E; pose proof (skip_ws_le y) end. lia.
Qed.

(** What a reader did with some fuel and depth it does with any more. *)
Definition robust {A} (f : nat -> Z -> string -> option (A * string)) (d : Z) (s : string) (x : A) (t : string) : Prop :=
  (String.length t < String.length s)%nat /\
  forall k d', (2 * (String.length s - String.length t) <= k)%nat -> d <= d' -> f k d' s = Some (x, t).

Lemma parse_fuel n :
  (forall d s v t, parse_value n d s = Some (v, t) -> robust parse_value d s v t) /\
  (forall d s m t, parse_members n d s = Some (m, t) -> robust parse_members d s m t) /\
  (forall d s l t, parse_elements n d s = Some (l, t) -> robust parse_elements d s l t).
Proof.
  induction n as [|n (IHv & IHm & IHl)]; [done|].
  split_and!; intros d s x t; cbn [parse_value parse_members parse_elements]; pose proof (skip_ws_le s) as Hs; unfold robust.
  - destruct (expect "{"%char (skip_ws s)) as [r|] eqn:E1.
    { pose proof (expect_len _ _ _ E1). pose proof (skip_ws_le r). destruct (Z.leb_spec d 0); [done|].
      destruct (expect "}"%char (skip_ws r)) as [t'|] eqn:E2.
      - pose proof (expect_len _ _ _ E2). intros [= <- <-]. split; [lia|]. intros [|k] d' Hk Hd; [lia|]. cbn [parse_value].
        rewrite E1, E2. destruct (Z.leb_spec d' 0); [lia|done].
      - destruct (parse_members n (d - 1) r) as [[m t']|] eqn:E3; [|done]. intros [= <- <-]. apply IHm in E3 as [Hl Hr].
        split; [lia|]. intros [|k] d' Hk Hd; [lia|]. cbn [parse_value]. rewrite E1, E2.
        destruct (Z.leb_spec d' 0); [lia|]. by rewrite (Hr k (d' - 1)) by lia. }
    destruct (expect "["%char (skip_ws s)) as [r|] eqn:E2.
    { pose proof (expect_len _ _ _ E2). pose proof (skip_ws_le r). destruct (Z.leb_spec d 0); [done|].
      destruct (expect "]"%char (skip_ws r)) as [t'|] eqn:E3.
      - pose proof (expect_len _ _ _ E3). intros [= <- <-]. split; [lia|]. intros [|k] d' Hk Hd; [lia|]. cbn [parse_value].
        rewrite E1, E2, E3. destruct (Z.leb_spec d' 0); [lia|done].
      - destruct (parse_elements n (d - 1) r) as [[m t']|] eqn:E4; [|done]. intros [= <- <-]. apply IHl in E4 as [Hl Hr].
        split; [lia|]. intros [|k] d' Hk Hd; [lia|]. cbn [parse_value]. rewrite E1, E2, E3.
        destruct (Z.leb_spec d' 0); [lia|]. by rewrite (Hr k (d' - 1)) by lia. }
    intros H. pose proof (scan_scalar_len _ _ _ H). split; [lia|]. intros [|k] d' Hk Hd; [lia|]. cbn [parse_value]. by rewrite E1, E2.
  - destruct (scan_key (skip_ws s)) as [[k0 r]|] eqn:E1; [|done]. pose proof (scan_key_len _ _ _ E1).
    destruct (parse_value n d r) as [[v r1]|] eqn:E2; [|done]. apply IHv in E2 as [Hl Hr]. pose proof (skip_ws_le r1).
    destruct (expect ","%char (skip_ws r1)) as [r2|] eqn:E3.
    + pose proof (expect_len _ _ _ E3). destruct (parse_members n d r2) as [[m t']|] eqn:E4; [|done]. apply IHm in E4 as [Hl' Hr'].
      intros [= <- <-]. split; [lia|]. intros [|k] d' Hk Hd; [lia|]. cbn [parse_members].
      by rewrite E1, (Hr k d'), E3, (Hr' k d') by lia.
    + destruct (expect "}"%char (skip_ws r1)) as [t'|] eqn:E4; [|done]. pose proof (expect_len _ _ _ E4).
      intros [= <- <-]. split; [lia|]. intros [|k] d' Hk Hd; [lia|]. cbn [parse_members]. by rewrite E1, (Hr k d'), E3, E4 by lia.
  - destruct (parse_value n d s) as [[v r1]|] eqn:E2; [|done]. apply IHv in E2 as [Hl Hr]. pose proof (skip_ws_le r1).
    destruct (expect ","%char (skip_ws r1)) as [r2|] eqn:E3.
    + pose proof (expect_len _ _ _ E3). destruct (parse_elements n d r2) as [[m t']|] eqn:E4; [|done]. apply IHl in E4 as [Hl' Hr'].
      intros [= <- <-]. split; [lia|]. intros [|k] d' Hk Hd; [lia|]. cbn [parse_elements].
      by rewrite (Hr k d'), E3, (Hr' k d') by lia.
    + destruct (expect "]"%char (skip_ws r1)) as [t'|] eqn:E4; [|done]. pose proof (expect_len _ _ _ E4).
      intros [= <- <-]. split; [lia|]. intros [|k] d' Hk Hd; [lia|]. cbn [parse_elements]. by rewrite (Hr k d'), E3, E4 by lia.
Qed.

(** The tree of a text when values may nest [d] deep. *)
Definition parse_text (d : Z) (s : string) : option json :=
  match parse_value (2 * String.length s + 2) d s with
  | Some (v, r) => if String.eqb (skip_ws r) "" then Some v else None
  | None => None
  end.
Lemma json_parse_text s : json_parse s = parse_text maxNestingDepth s.
Proof. reflexivity. Qed.

Lemma parse_text_intro n d d' s v r : parse_value n d s = Some (v, r) -> d <= d' -> skip_ws r = "" -> parse_text d' s = Some v.
Proof.
  intros H Hd Hr. apply (proj1 (parse_fuel _)) in H as [Hl H]. unfold parse_text. rewrite (H _ d') by lia. by rewrite Hr.
Qed.

(** ** Arrays and objects read element by element *)

(** After an opening bracket, or after an element: the elements still to
    come and the text after the closing bracket. *)
Definition elements_at (D : Z) (st : dstate) (s : string) (l : list json) (t : string) : Prop :=
  match st with
  | SArrStart => expect "]"%char (skip_ws s) = Some t /\ l = [] \/ exists k, parse_elements k D s = Some (l, t)
  | SArrComma => expect "]"%char (skip_ws s) = Some t /\ l = [] \/
                 exists r k, expect ","%char (skip_ws s) = Some r /\ parse_elements k D r = Some (l, t)
  | _ => False
  end.
Definition members_at (D : Z) (st : dstate) (s : string) (m : list (string * json)) (t : string) : Prop :=
  match st with
  | SObjStart => expect "}"%char (skip_ws s) = Some t /\ m = [] \/ exists k, parse_members k D s = Some (m, t)
  | SObjComma => expect "}"%char (skip_ws s) = Some t /\ m = [] \/
                 exists r k, expect ","%char (skip_ws s) = Some r /\ parse_members k D r = Some (m, t)
  | _ => False
  end.

Lemma expect_some c s t : expect c s = Some t <-> s = String c t.
Proof.
  destruct s as [|a s]; cbn; [done|]. destruct (Ascii.eqb_spec a c) as [->|Hne]; [split; [by intros [= ->]|by intros [= ->]]|].
  split; [done|]. by intros [= -> _].
Qed.

Lemma expect_refl c t : expect c (String c t) = Some t.
Proof. by apply expect_some. Qed.

Lemma parse_mono_value n k d s x : (n <= k)%nat -> parse_value n d s = Some x -> parse_value k d s = Some x.
Proof. intros Hk. apply parse_mono, Hk. Qed.

(** One more element in front. *)
Lemma elements_cons D s v r l t k : parse_value k D s = Some (v, r) -> elements_at D SArrComma r l t ->
  exists k', parse_elements k' D s = Some (v :: l, t).
Proof.
  intros Hv [[He ->]|(r' & k2 & Hc & Hl)].
  - exists (S k). cbn [parse_elements]. rewrite Hv. rewrite He. apply expect_some in He as ->. done.
  - exists (S (Nat.max k k2)). cbn [parse_elements]. rewrite (parse_mono_value k (Nat.max k k2) D s (v, r)) by (done || lia).
    rewrite Hc. destruct (parse_mono k2 (Nat.max k k2)) as (_ & _ & Hm); [lia|]. by rewrite (Hm _ _ _ Hl).
Qed.
Lemma elements_uncons D s v l t k : parse_elements k D s = Some (v :: l, t) ->
  exists k' r, parse_value k' D s = Some (v, r) /\ elements_at D SArrComma r l t.
Proof.
  destruct k as [|k]; [done|]. cbn [parse_elements]. destruct (parse_value k D s) as [[v' r]|] eqn:Ev; [|done].
  destruct (expect ","%char (skip_ws r)) as [r'|] eqn:Ec.
  - destruct (parse_elements k D r') as [[l' t']|] eqn:El; [|done]. intros [= -> -> ->]. exists k, r. split; [done|]. right. eauto.
  - destruct (expect "]"%char (skip_ws r)) as [t'|] eqn:Eb; [|done]. intros [= -> <- ->]. exists k, r. split; [done|]. by left.
Qed.
Lemma parse_elements_cons k D s l t : parse_elements k D s = Some (l, t) -> exists v l', l = v :: l'.
Proof. destruct k; [done|]. cbn [parse_elements]. repeat case_match; intros [= <- _]; eauto. Qed.

Lemma members_cons D s k r v r1 m t n : scan_key (skip_ws s) = Some (k, r) -> parse_value n D r = Some (v, r1) ->
  members_at D SObjComma r1 m t -> exists n', parse_members n' D s = Some ((k, v) :: m, t).
Proof.
  intros Hk Hv [[He ->]|(r' & k2 & Hc & Hl)].
  - exists (S n). cbn [parse_members]. rewrite Hk, Hv, He. apply expect_some in He as ->. done.
  - exists (S (Nat.max n k2)). cbn [parse_members]. rewrite Hk, (parse_mono_value n (Nat.max n k2) D r (v, r1)) by (done || lia).
    rewrite Hc. destruct (parse_mono k2 (Nat.max n k2)) as (_ & Hm & _); [lia|]. by rewrite (Hm _ _ _ Hl).
Qed.
Lemma members_uncons D s kv m t n : parse_members n D s = Some (kv :: m, t) ->
  exists r n' r1, scan_key (skip_ws s) = Some (kv.1, r) /\ parse_value n' D r = Some (kv.2, r1) /\ members_at D SObjComma r1 m t.
Proof.
  destruct n as [|n]; [done|]. cbn [parse_members]. destruct (scan_key (skip_ws s)) as [[k r]|]; [|done].
  destruct (parse_value n D r) as [[v' r1]|] eqn:Ev; [|done].
  destruct (expect ","%char (skip_ws r1)) as [r'|] eqn:Ec.
  - destruct (parse_members n D r') as [[l' t']|] eqn:El; [|done]. intros [= <- -> ->]. exists r, n, r1. split; [done|]. split; [done|]. right. eauto.
  - destruct (expect "}"%char (skip_ws r1)) as [t'|] eqn:Eb; [|done]. intros [= <- <- ->]. exists r, n, r1. split; [done|]. split; [done|]. by left.
Qed.
Lemma parse_members_cons n D s m t : parse_members n D s = Some (m, t) -> exists kv m', m = kv :: m'.
Proof. destruct n; [done|]. cbn [parse_members]. repeat case_match; intros [= <- _]; eauto. Qed.

(** An array or object value, seen from its bracket. *)
Lemma parse_array D s l t : (exists k, parse_value k (D + 1) s = Some (JArr l, t)) <->
  0 <= D /\ exists r, expect "["%char (skip_ws s) = Some r /\ elements_at D SArrStart r l t.
Proof.
  split.
  - intros [[|k] H]; [done|]. cbn [parse_value] in H.
    destruct (expect "{"%char (skip_ws s)); [by repeat case_match|].
    destruct (expect "["%char (skip_ws s)) as [r|]; [|revert H; unfold scan_scalar; repeat case_match; congruence].
    destruct (Z.leb_spec (D + 1) 0); [done|]. split; [lia|]. exists r. split; [done|].
    replace (D + 1 - 1) with D in H by lia. destruct (expect "]"%char (skip_ws r)) as [t'|] eqn:E; [injection H as <- <-; by left|].
    destruct (parse_elements k D r) as [[l' t']|] eqn:El; [|done]. injection H as -> ->. right. eauto.
  - intros (HD & r & Hb & He). pose proof (proj1 (expect_some _ _ _) Hb) as Es. destruct He as [[He ->]|[k He]].
    + exists 1%nat. cbn [parse_value]. rewrite Hb, He. rewrite Es. cbn. destruct (Z.leb_spec (D + 1) 0); [lia|done].
    + exists (S k). cbn [parse_value]. rewrite Hb. rewrite Es. cbn [expect]. change (Ascii.eqb "[" "{") with false. cbn iota.
      destruct (Z.leb_spec (D + 1) 0); [lia|]. replace (D + 1 - 1) with D by lia. rewrite He.
      destruct (expect "]"%char (skip_ws r)) as [t'|] eqn:E; [|done]. exfalso. apply expect_some in E.
      do 2 (destruct k as [|k]; [done|]). cbn [parse_elements parse_value] in He. rewrite E in He. done.
Qed.

Lemma parse_object D s m t : (exists k, parse_value k (D + 1) s = Some (JObj m, t)) <->
  0 <= D /\ exists r, expect "{"%char (skip_ws s) = Some r /\ members_at D SObjStart r m t.
Proof.
  split.
  - intros [[|k] H]; [done|]. cbn [parse_value] in H.
    destruct (expect "{"%char (skip_ws s)) as [r|].
    + destruct (Z.leb_spec (D + 1) 0); [done|]. split; [lia|]. exists r. split; [done|].
      replace (D + 1 - 1) with D in H by lia. destruct (expect "}"%char (skip_ws r)) as [t'|] eqn:E; [injection H as <- <-; by left|].
      destruct (parse_members k D r) as [[l' t']|] eqn:El; [|done]. injection H as -> ->. right. eauto.
    + destruct (expect "["%char (skip_ws s)) as [r|]; [by repeat case_match|revert H; unfold scan_scalar; repeat case_match; congruence].
  - intros (HD & r & Hb & He). destruct He as [[He ->]|[k He]].
    + exists 1%nat. cbn [parse_value]. rewrite Hb, He. destruct (Z.leb_spec (D + 1) 0); [lia|done].
    + exists (S k). cbn [parse_value]. rewrite Hb. destruct (Z.leb_spec (D + 1) 0); [lia|]. replace (D + 1 - 1) with D by lia. rewrite He.
      destruct (expect "}"%char (skip_ws r)) as [t'|] eqn:E; [|done]. exfalso. apply expect_some in E.
      destruct k as [|k]; [done|]. cbn [parse_members] in He. rewrite E in He. done.
Qed.

(** ** What the decoder's operations take off the text *)

(** The separator due before a value. *)
Definition due (st : dstate) (s : string) : option (string * dstate) :=
  match st with
  | SArrComma => option_map (fun r => (r, SArrValue)) (expect ","%char (skip_ws s))
  | SObjColon => option_map (fun r => (r, SObjValue)) (expect ":"%char (skip_ws s))
  | st => Some (s, st)
  end.

Lemma Decode_ok F s st stk v d : Decode F (mkDec s st stk) = Ok (v, d) <->
  exists r0 st0 r, due st s = Some (r0, st0) /\ value_allowed st0 = true /\ parse_value F maxNestingDepth r0 = Some (v, r) /\
    d = mkDec r (value_end st0) stk.
Proof.
  assert (forall r0 st0, (if negb (value_allowed st0) then Err Malformed else let? x := read_value F r0 in
      let '(v, r) := x in Ok (v, mkDec r (value_end st0) stk)) = Ok (v, d) <->
    exists r, value_allowed st0 = true /\ parse_value F maxNestingDepth r0 = Some (v, r) /\ d = mkDec r (value_end st0) stk) as Hv.
  { intros r0 st0. destruct (value_allowed st0); cbn [negb]; [|naive_solver]. unfold read_value.
    destruct (parse_value F maxNestingDepth r0) as [[v' r]|]; naive_solver. }
  assert (forall c st1, (let? d0 := match skip_ws s with
                     | "" => Err EOF
                     | String a r => if Ascii.eqb a c then Ok (mkDec r st1 stk) else Err Malformed
                     end in
      if negb (value_allowed (d_state d0)) then Err Malformed else let? x := read_value F (d_buf d0) in
      let '(v, r) := x in Ok (v, mkDec r (value_end (d_state d0)) (d_stack d0))) = Ok (v, d) <->
    exists r0 st0 r, option_map (fun r => (r, st1)) (expect c (skip_ws s)) = Some (r0, st0) /\ value_allowed st0 = true /\
      parse_value F maxNestingDepth r0 = Some (v, r) /\ d = mkDec r (value_end st0) stk) as Hs.
  { intros c st1. destruct (skip_ws s) as [|a r]; cbn; [naive_solver|]. destruct (Ascii.eqb a c); cbn; [|naive_solver].
    rewrite Hv. naive_solver. }
  destruct st; try apply Hs;
    match goal with |- context [due ?st s] => etransitivity; [exact (Hv s st)|] end; cbn [due]; naive_solver.
Qed.

(** All the cases of the character a token starts with. *)
Ltac token_cases H :=
  cbn [Token d_buf d_state d_stack] in H;
  match type of H with
  | context [match skip_ws ?s with _ => _ end] =>
      let c := fresh "c" in let r := fresh "r" in let E := fresh "Es" in destruct (skip_ws s) as [|c r] eqn:E; [discriminate H|];
      destruct (Ascii.eqb_spec c "["%char) as [->|?]; [|
      destruct (Ascii.eqb_spec c "]"%char) as [->|?]; [|
      destruct (Ascii.eqb_spec c "{"%char) as [->|?]; [|
      destruct (Ascii.eqb_spec c "}"%char) as [->|?]; [|
      destruct (Ascii.eqb_spec c ":"%char) as [->|?]; [|
      destruct (Ascii.eqb_spec c ","%char) as [->|?]; [|
      destruct (Ascii.eqb_spec c ch_dquote) as [->|?]]]]]]]
  end.

Lemma Token_other (x : result derr (json * decoder)) tok d' :
  (let? y := x in Ok (TOther y.1, y.2)) = Ok (tok, d') -> exists v, tok = TOther v.
Proof. destruct x as [[v d0]|]; [intros [= <- _]; by exists v|done]. Qed.

Ltac token_other H := destruct (negb _) in H; [discriminate H|apply Token_other in H as [? H]; discriminate H].

(** A member's key. *)
Definition key_text (st : dstate) (s : string) : option string :=
  match st with
  | SObjStart => expect ch_dquote (skip_ws s)
  | SObjComma => match expect ","%char (skip_ws s) with Some r => expect ch_dquote (skip_ws r) | None => None end
  | _ => None
  end.

Lemma Token_key F n s st stk key d : st = SObjStart \/ st = SObjComma -> Token F n (mkDec s st stk) = Ok (TStr key, d) ->
  exists r w t, key_text st s = Some r /\ scan_string r = Some (w, t) /\ key = unquote w /\ d = mkDec t SObjColon stk.
Proof.
  destruct n as [|n]; [done|]. intros Hst H. destruct Hst as [-> | ->]; token_cases H; try done; try (by destruct stk).
  - cbn [key_text]. rewrite Es, expect_refl. destruct (scan_string r) as [[w t]|] eqn:Ew; [|done]. injection H as <- <-. by exists r, w, t.
  - destruct n as [|n]; [done|]. cbn [key_text]. rewrite Es, expect_refl. clear Es. token_cases H; try done.
    rewrite expect_refl. destruct (scan_string r0) as [[w t]|] eqn:Ew; [|done]. injection H as <- <-. by exists r0, w, t.
Qed.

Lemma Token_key_intro F n s st stk r w t : key_text st s = Some r -> scan_string r = Some (w, t) ->
  Token F (S (S n)) (mkDec s st stk) = Ok (TStr (unquote w), mkDec t SObjColon stk).
Proof.
  intros Hk Hw. destruct st; try done; cbn [key_text] in Hk.
  - apply expect_some in Hk. cbn [Token d_buf]. rewrite Hk. cbn. by rewrite Hw.
  - destruct (expect ","%char (skip_ws s)) as [r1|] eqn:E; [|done]. apply expect_some in E, Hk.
    cbn [Token d_buf]. rewrite E. cbn. rewrite Hk. cbn. by rewrite Hw.
Qed.

Lemma key_text_scan s r w t : expect ch_dquote (skip_ws s) = Some r -> scan_string r = Some (w, t) ->
  forall u, expect ":"%char (skip_ws t) = Some u -> scan_key (skip_ws s) = Some (w, u).
Proof. intros Hq Hw u Hu. unfold scan_key. by rewrite Hq, Hw, Hu. Qed.

(** A closing bracket. *)
Lemma Token_close_array F n s st stk d : st = SArrStart \/ st = SArrComma -> Token F n (mkDec s st stk) = Ok (TDelim "]"%char, d) ->
  exists o stk' t, stk = o :: stk' /\ expect "]"%char (skip_ws s) = Some t /\ d = mkDec t (value_end o) stk'.
Proof.
  destruct n as [|n]; [done|]. intros [-> | ->] H; token_cases H; try done; try token_other H.
  - destruct stk as [|o stk]; [done|]. injection H as <-. eauto 10.
  - destruct stk as [|o stk]; [done|]. injection H as <-. eauto 10.
  - destruct n as [|n]; [done|]. token_cases H; try done; try token_other H.
Qed.
Lemma Token_close_object F n s st stk d : st = SObjStart \/ st = SObjComma -> Token F n (mkDec s st stk) = Ok (TDelim "}"%char, d) ->
  exists o stk' t, stk = o :: stk' /\ expect "}"%char (skip_ws s) = Some t /\ d = mkDec t (value_end o) stk'.
Proof.
  destruct n as [|n]; [done|]. intros [-> | ->] H; token_cases H; try done.
  - destruct stk as [|o stk]; [done|]. injection H as <-. eauto 10.
  - by destruct (scan_string r) as [[? ?]|].
  - destruct stk as [|o stk]; [done|]. injection H as <-. eauto 10.
  - destruct n as [|n]; [done|]. token_cases H; try done. by destruct (scan_string r0) as [[? ?]|].
Qed.
Lemma Token_close_intro F n s st o stk t (c : ascii) : c = "]"%char /\ (st = SArrStart \/ st = SArrComma) \/ c = "}"%char /\ (st = SObjStart \/ st = SObjComma) ->
  expect c (skip_ws s) = Some t -> Token F (S n) (mkDec s st (o :: stk)) = Ok (TDelim c, mkDec t (value_end o) stk).
Proof. intros [[-> Hst]|[-> Hst]] E%expect_some; cbn [Token d_buf]; rewrite E; destruct Hst as [-> | ->]; reflexivity. Qed.

(** An opening bracket after a colon, and at the top. *)
Lemma Token_open_array F n s stk d : Token F n (mkDec s SObjColon stk) = Ok (TDelim "["%char, d) ->
  exists r t, expect ":"%char (skip_ws s) = Some r /\ expect "["%char (skip_ws r) = Some t /\ d = mkDec t SArrStart (SObjValue :: stk).
Proof.
  destruct n as [|n]; [done|]. intros H. token_cases H; try done. destruct n as [|n]; [done|].
  rename r into r1. exists r1. clear Es. token_cases H; try done; try token_other H. injection H as <-. exists r. split; [done|].
  split; [by apply expect_some|done].
Qed.
Lemma Token_open_array_intro F n s stk r t : expect ":"%char (skip_ws s) = Some r -> expect "["%char (skip_ws r) = Some t ->
  Token F (S (S n)) (mkDec s SObjColon stk) = Ok (TDelim "["%char, mkDec t SArrStart (SObjValue :: stk)).
Proof. intros E%expect_some E2%expect_some. cbn [Token d_buf]. rewrite E. cbn. rewrite E2. reflexivity. Qed.
Lemma Token_open_object F n s d : Token F n (mkDec s STop []) = Ok (TDelim "{"%char, d) ->
  exists t, expect "{"%char (skip_ws s) = Some t /\ d = mkDec t SObjStart [STop].
Proof.
  destruct n as [|n]; [done|]. intros H. token_cases H; try done; try token_other H.
  injection H as <-. exists r. split; [by apply expect_some|done].
Qed.
Lemma Token_open_object_intro F n s t : expect "{"%char (skip_ws s) = Some t ->
  Token F (S n) (mkDec s STop []) = Ok (TDelim "{"%char, mkDec t SObjStart [STop]).
Proof. intros E%expect_some. cbn [Token d_buf]. rewrite E. reflexivity. Qed.

Lemma More_false s st stk : More (mkDec s st stk) = false <->
  skip_ws s = "" \/ (exists t, expect "]"%char (skip_ws s) = Some t) \/ (exists t, expect "}"%char (skip_ws s) = Some t).
Proof.
  unfold More. cbn [d_buf]. destruct (skip_ws s) as [|c r]; cbn; [naive_solver|].
  destruct (Ascii.eqb c "]"%char), (Ascii.eqb c "}"%char); cbn; naive_solver.
Qed.

(** Only the end of the text is the end of the input. *)
Lemma Token_end F n s : Token F (S n) (mkDec s STop []) = Err EOF <-> skip_ws s = "".
Proof.
  split; [|intros E; cbn [Token d_buf]; by rewrite E]. intros H. destruct (skip_ws s) as [|c r] eqn:Es; [done|exfalso].
  assert (Decode F (mkDec s STop []) <> Err EOF) as Hd.
  { unfold Decode. cbn. unfold read_value. rewrite Es. by destruct (parse_value _ _ _) as [[v t]|]. }
  cbn [Token d_buf d_state d_stack] in H. rewrite Es in H. cbn [value_allowed negb] in H. repeat case_match; congruence.
Qed.
