(* ===== verification/IpText.v ===== *)
(** * Addresses as text

    [netip.Addr.String] and [net.IP.String], and that [ParseAddr] reads back
    what they write. *)

From Stdlib Require Import Ascii.
From S2P Require Import Prelude GoStrings Net Json JsonFacts.
#[local] Open Scope Z_scope.

(** ** [netip.Addr.String] *)

Fixpoint hex_digits (n : nat) (z : Z) (acc : string) : string :=
  match n with
  | O => acc
  | S n => let d := z mod 16 in
           let acc := String (byte (if d <? 10 then 48 + d else 87 + d)) acc in
           if z <? 16 then acc else hex_digits n (z / 16) acc
  end.

Definition string4 (n : Z) : string :=
  join_with "." (map (fun i => dec_abs (Z.land (Z.shiftr n i) 255)) [24; 16; 8; 0]).

Definition v6_fields (n : Z) : list Z :=
  map (fun i => Z.land (Z.shiftr n i) 65535) [112; 96; 80; 64; 48; 32; 16; 0].

Fixpoint zero_run (l : list Z) : nat :=
  match l with 0 :: l => S (zero_run l) | _ => O end.
(** The first of the longest runs of at least two zero fields: start, end. *)
Fixpoint longest_run (i : nat) (l : list Z) (best : nat * nat) : nat * nat :=
  match l with
  | [] => best
  | _ :: l' =>
      let r := zero_run l in
      longest_run (S i) l' (if (2 <=? r)%nat && (best.2 - best.1 <? r)%nat then (i, i + r)%nat else best)
  end.
Definition string6 (n : Z) : string :=
  let fs := v6_fields n in
  let show l := join_with ":" (map (fun f => hex_digits 4 f "") l) in
  match longest_run 0 fs (0, 0)%nat with
  | (_, O) => show fs
  | (s, e) => show (take s fs) +:+ "::" +:+ show (drop e fs)
  end.

Definition addr_String (a : Addr) : string :=
  match a with
  | V4 n => string4 n
  | V6 n zone =>
      (match To4 n with Some m => "::ffff:" +:+ string4 m | None => string6 n end)
      +:+ (if String.eqb zone "" then "" else "%" +:+ zone)
  end.

Example addr_String_ex :
  let texts := ["10.0.0.1"; "255.255.255.255"; "::"; "::1"; "1::"; "fe80::1%eth0"; "2001:db8::1:0:0:1"; "2001:db8:0:1:1:1:1:1"; "1:2:3:4:5:6:7:8"; "::ffff:1.2.3.4"] in
  map (fun s => option_map addr_String (ParseAddr s)) texts = map Some texts.
Proof. vm_compute. reflexivity. Qed.


(** ** IPv4 *)

Lemma octet_dec x : 0 <= x < 256 -> octet (dec_abs x) = Some x /\ contains_char "."%char (dec_abs x) = false /\
  sforall (fun c => is_digit c) (dec_abs x) = true /\ dec_abs x <> "".
Proof.
  intros Hx.
  assert (forallb (fun k => let x := Z.of_nat k in bool_decide (octet (dec_abs x) = Some x) && negb (contains_char "."%char (dec_abs x))
    && sforall (fun c => is_digit c) (dec_abs x) && negb (String.eqb (dec_abs x) "")) (seq 0 256) = true) as Hall by (vm_compute; reflexivity).
  rewrite forallb_forall in Hall. specialize (Hall (Z.to_nat x)). rewrite in_seq, Z2Nat.id in Hall by lia.
  specialize (Hall ltac:(lia)). rewrite !andb_true_iff, !negb_true_iff, bool_decide_eq_true in Hall.
  destruct Hall as [[[H1 H2] H3] H4]. split_and!; try done. by apply String.eqb_neq.
Qed.

Lemma land_255 n i : 0 <= i -> Z.land (Z.shiftr n i) 255 = n / 2 ^ i mod 256.
Proof. intros. rewrite Z.shiftr_div_pow2 by done. change 255 with (Z.ones 8). by rewrite Z.land_ones. Qed.

Lemma parse_string4 n : 0 <= n < 2 ^ 32 -> parseIPv4 (string4 n) = Some n.
Proof.
  intros Hn. unfold string4. cbn [map]. rewrite !land_255 by lia. unfold parseIPv4.
  set (a := n / 2 ^ 24 mod 256). set (b := n / 2 ^ 16 mod 256). set (c := n / 2 ^ 8 mod 256). set (d := n / 2 ^ 0 mod 256).
  assert (0 <= a < 256 /\ 0 <= b < 256 /\ 0 <= c < 256 /\ 0 <= d < 256 /\ ((a * 256 + b) * 256 + c) * 256 + d = n) as (Ha & Hb & Hc & Hd & E).
  { subst a b c d. Z.to_euclidean_division_equations; lia. }
  destruct (octet_dec a Ha) as (Oa & Da & _), (octet_dec b Hb) as (Ob & Db & _), (octet_dec c Hc) as (Oc & Dc & _), (octet_dec d Hd) as (Od & Dd & _).
  cbn [join_with]. change ("." +:+ ?x) with (String "."%char x). cbn [String.append].
  rewrite !split_on_app, split_on_word by done. cbn [map]. rewrite Oa, Ob, Oc, Od. by rewrite E.
Qed.

Lemma addr_form_digits s r : sforall (fun c => is_digit c) s = true -> addr_form (s +:+ r) = addr_form r.
Proof.
  intros Hs. induction s as [|c s IH]; [done|]. cbn in *. apply andb_true_iff in Hs as [Hc Hs]. rewrite (IH Hs).
  destruct c as [[] [] [] [] [] [] [] []]; done.
Qed.

Lemma ParseAddr_string4 n : 0 <= n < 2 ^ 32 -> ParseAddr (string4 n) = Some (V4 n).
Proof.
  intros Hn. pose proof (parse_string4 n Hn) as Hp. unfold ParseAddr.
  assert (addr_form (string4 n) = Some "."%char) as ->; [|by rewrite Hp].
  unfold string4. cbn [map join_with]. rewrite !land_255 by lia.
  destruct (octet_dec (n / 2 ^ 24 mod 256)) as (_ & _ & Hd & _); [apply Z.mod_pos_bound; lia|].
  by rewrite addr_form_digits.
Qed.

(** ** IPv6 *)

Lemma hexval_byte d : 0 <= d < 16 -> hexval (byte (if d <? 10 then 48 + d else 87 + d)) = Some d.
Proof.
  intros Hd. assert (forallb (fun k => let d := Z.of_nat k in bool_decide (hexval (byte (if d <? 10 then 48 + d else 87 + d)) = Some d)) (seq 0 16) = true)
    as Hall by (vm_compute; reflexivity).
  rewrite forallb_forall in Hall. specialize (Hall (Z.to_nat d)). rewrite in_seq, Z2Nat.id in Hall by lia. specialize (Hall ltac:(lia)).
  by apply bool_decide_eq_true in Hall.
Qed.

Lemma hex_field_eq (a b : Z) (n m : nat) (t : string) : a = b -> n = m -> hex_field a n t = hex_field b m t.
Proof. by intros -> ->. Qed.

(** Reading back the digits of a field, one to four of them. *)
Lemma hex_field_digits k z : 0 <= z < 16 ^ Z.of_nat (S k) ->
  exists j, (0 < j <= S k)%nat /\ forall acc n t, hex_field acc n (hex_digits (S k) z t) = hex_field (16 ^ Z.of_nat j * acc + z) (n + j) t /\
    exists c r, hex_digits (S k) z t = String c r /\ is_Some (hexval c).
Proof.
  revert z. induction k as [|k IH]; intros z Hz.
  - exists 1%nat. split; [lia|]. intros acc n t. cbn [hex_digits]. cbn in Hz. rewrite (Z.mod_small z 16) by lia.
    pose proof (hexval_byte z ltac:(lia)) as Hb. destruct (Z.ltb_spec z 16); [|lia]. split.
    + cbn [hex_field]. rewrite Hb. apply hex_field_eq; [cbn; lia|lia].
    + eexists _, _. split; [done|]. by rewrite Hb.
  - assert (0 <= z mod 16 < 16) as Hm by (apply Z.mod_pos_bound; lia). pose proof (hexval_byte _ Hm) as Hb.
    destruct (Z.ltb_spec z 16) as [Hlt|Hge].
    + exists 1%nat. split; [lia|]. intros acc n t. cbn [hex_digits]. rewrite (proj2 (Z.ltb_lt z 16)) by done. rewrite (Z.mod_small z 16) in * by lia. split.
      * cbn [hex_field]. rewrite Hb. apply hex_field_eq; [cbn; lia|lia].
      * eexists _, _. split; [done|]. by rewrite Hb.
    + replace (Z.of_nat (S (S k))) with (Z.of_nat (S k) + 1) in Hz by lia. rewrite Z.pow_add_r in Hz by lia.
      destruct (IH (z / 16)) as (j & Hj & H); [Z.to_euclidean_division_equations; lia|]. exists (S j). split; [lia|]. intros acc n t.
      assert (hex_digits (S (S k)) z t = hex_digits (S k) (z / 16) (String (byte (if z mod 16 <? 10 then 48 + z mod 16 else 87 + z mod 16)) t)) as ->.
      { change (hex_digits (S (S k)) z t) with (let d := z mod 16 in
           let acc := String (byte (if d <? 10 then 48 + d else 87 + d)) t in if z <? 16 then acc else hex_digits (S k) (z / 16) acc).
        cbv zeta. rewrite (proj2 (Z.ltb_ge z 16)) by done. done. }
      destruct (H acc n (String (byte (if z mod 16 <? 10 then 48 + z mod 16 else 87 + z mod 16)) t)) as [-> Hhead]. split; [|done].
      cbn [hex_field]. rewrite Hb. apply hex_field_eq; [|lia]. replace (Z.of_nat (S j)) with (Z.of_nat j + 1) by lia. rewrite Z.pow_add_r by lia.
      pose proof (Z.div_mod z 16 ltac:(lia)). lia.
Qed.

Lemma hex_digits_app n z t r : hex_digits n z t +:+ r = hex_digits n z (t +:+ r).
Proof. revert z t. induction n as [|n IH]; intros z t; cbn [hex_digits]; [done|]. destruct (z <? 16); [done|]. apply IH. Qed.

Definition field_text (f : Z) : string := hex_digits 4 f "".
Definition show (l : list Z) : string := join_with ":" (map field_text l).
Definition field_ok (f : Z) : Prop := 0 <= f < 65536.

(** A field is read up to a character that is not a hex digit. *)
Lemma hex_field_text f s : field_ok f -> match s with "" => True | String c _ => hexval c = None end ->
  exists j, (0 < j <= 4)%nat /\ hex_field 0 0 (field_text f +:+ s) = (f, j, s) /\ exists c r, field_text f +:+ s = String c r /\ is_Some (hexval c).
Proof.
  intros Hf Hs. destruct (hex_field_digits 3 f Hf) as (j & Hj & H). exists j. split; [lia|]. unfold field_text. rewrite hex_digits_app.
  change ("" +:+ s) with s. destruct (H 0 0%nat s) as [E Hhead]. split; [|done]. rewrite E. rewrite Z.mul_0_r. cbn [Nat.add Z.add].
  destruct s as [|c s]; cbn [hex_field]; [done|]. by rewrite Hs.
Qed.

Lemma show_cons f g l : show (f :: g :: l) = field_text f +:+ String ":"%char (show (g :: l)).
Proof. reflexivity. Qed.

(** One field and the single colon after it. *)
Lemma fields_step fuel f c r got ell : field_ok f -> c <> ":"%char ->
  ipv6_fields (S fuel) (field_text f +:+ String ":"%char (String c r)) got ell = ipv6_fields fuel (String c r) (f :: got) ell.
Proof.
  intros Hf Hne. destruct (hex_field_text f (String ":"%char (String c r)) Hf eq_refl) as (j & Hj & E & _).
  cbn [ipv6_fields]. rewrite E. destruct j; [lia|]. rewrite (proj2 (Nat.ltb_ge 4 (S j))) by lia. cbn [orb Nat.eqb].
  destruct c as [[] [] [] [] [] [] [] []]; try reflexivity; by destruct Hne.
Qed.

(** The loop over fields separated by single colons, up to the end. *)
Lemma fields_show l : forall fuel got ell, Forall field_ok l -> l <> [] -> (length l <= fuel)%nat ->
  ipv6_fields fuel (show l) got ell = Some (rev l ++ got, ell, "").
Proof.
  induction l as [|f l IH]; intros fuel got ell Hok Hne Hfuel; [done|]. apply Forall_cons in Hok as [Hf Hok].
  destruct fuel as [|fuel]; [cbn in Hfuel; lia|]. cbn [length] in Hfuel. destruct l as [|g l].
  - destruct (hex_field_text f "" Hf I) as (j & Hj & E & _). rewrite sapp_nil_r in E.
    change (show [f]) with (field_text f). cbn [ipv6_fields]. rewrite E. destruct j; [lia|].
    rewrite (proj2 (Nat.ltb_ge 4 (S j))) by lia. done.
  - rewrite show_cons.
    assert (exists c r, show (g :: l) = String c r /\ is_Some (hexval c)) as (c & r & Es & Hc).
    { apply Forall_cons in Hok as [Hg _]. destruct l as [|h l].
      - destruct (hex_field_text g "" Hg I) as (? & _ & _ & Hx). by rewrite sapp_nil_r in Hx.
      - rewrite show_cons. by destruct (hex_field_text g (String ":"%char (show (h :: l))) Hg eq_refl) as (? & _ & _ & Hx). }
    rewrite Es, fields_step, <- Es, IH by first [done | cbn in *; lia | intros ->; by destruct Hc].
    cbn [rev]. by rewrite <- !app_assoc.
Qed.

(** ... and up to an ellipsis, which may end the text. *)
Lemma fields_ellipsis l t : forall fuel got, Forall field_ok l -> l <> [] -> (length l <= fuel)%nat ->
  ipv6_fields fuel (show l +:+ "::" +:+ t) got None =
  if String.eqb t "" then Some (rev l ++ got, Some (length got + length l)%nat, "")
  else ipv6_fields (fuel - length l) t (rev l ++ got) (Some (length got + length l)%nat).
Proof.
  induction l as [|f l IH]; intros fuel got Hok Hne Hfuel; [done|]. apply Forall_cons in Hok as [Hf Hok].
  destruct fuel as [|fuel]; [cbn in Hfuel; lia|]. cbn [length] in *. destruct l as [|g l].
  - destruct (hex_field_text f ("::" +:+ t) Hf eq_refl) as (j & Hj & E & _).
    change (show [f]) with (field_text f). cbn [ipv6_fields]. rewrite E. destruct j; [lia|].
    rewrite (proj2 (Nat.ltb_ge 4 (S j))) by lia. cbn [orb Nat.eqb String.append length rev app].
    replace (S fuel - 1)%nat with fuel by lia. by rewrite Nat.add_1_r.
  - rewrite show_cons, sapp_assoc. change (String ":"%char (show (g :: l)) +:+ "::" +:+ t) with (String ":"%char (show (g :: l) +:+ "::" +:+ t)).
    assert (exists c r, show (g :: l) +:+ "::" +:+ t = String c r /\ is_Some (hexval c)) as (c & r & Es & Hc).
    { apply Forall_cons in Hok as [Hg _]. destruct l as [|h l].
      - destruct (hex_field_text g ("::" +:+ t) Hg eq_refl) as (? & _ & _ & Hx). done.
      - rewrite show_cons, sapp_assoc. by destruct (hex_field_text g (String ":"%char (show (h :: l) +:+ "::" +:+ t)) Hg eq_refl) as (? & _ & _ & Hx). }
    rewrite Es, fields_step, <- Es, IH by first [done | cbn in *; lia | intros ->; by destruct Hc].
    cbn [rev length]. rewrite <- !app_assoc. cbn [app]. replace (S fuel - S (S (length l)))%nat with (fuel - S (length l))%nat by lia.
    by replace (S (length got) + S (length l))%nat with (length got + S (S (length l)))%nat by lia.
Qed.

(** ** The ellipsis *)

Lemma zero_run_spec l : (zero_run l <= length l)%nat /\ forall k, (k < zero_run l)%nat -> l !! k = Some 0.
Proof.
  induction l as [|x l [IHl IHk]]; cbn; [split; [lia|lia]|]. destruct x; cbn; [|split; lia..]. split; [lia|].
  intros [|k] Hk; [done|]. apply IHk. lia.
Qed.

(** Nothing, or a run of at least two zeros. *)
Definition run_ok (full : list Z) (b : nat * nat) : Prop :=
  b.2 = 0%nat \/ (b.1 + 2 <= b.2 <= length full)%nat /\ forall k, (b.1 <= k < b.2)%nat -> full !! k = Some 0.

Lemma longest_run_ok full l : forall i best, l = drop i full -> run_ok full best -> run_ok full (longest_run i l best).
Proof.
  induction l as [|x l IH]; intros i best Hl Hb; [done|]. cbn [longest_run]. apply IH.
  { apply (f_equal (drop 1)) in Hl. cbn in Hl. by rewrite drop_drop, Nat.add_comm in Hl. }
  destruct (_ && _) eqn:E; [|done]. apply andb_true_iff in E as [E%Nat.leb_le _]. right. cbn [fst snd].
  destruct (zero_run_spec (x :: l)) as [Hle Hz]. rewrite Hl in *. rewrite length_drop in Hle. split; [lia|].
  intros k Hk. specialize (Hz (k - i)%nat ltac:(lia)). rewrite lookup_drop in Hz. by replace (i + (k - i))%nat with k in Hz by lia.
Qed.

Lemma run_split full s e : (s <= e <= length full)%nat -> (forall k, (s <= k < e)%nat -> full !! k = Some 0) ->
  full = take s full ++ replicate (e - s) 0 ++ drop e full.
Proof.
  intros Hse Hz. apply list_eq. intros k. destruct (Nat.lt_ge_cases k s) as [H1|H1].
  - rewrite lookup_app_l by (rewrite length_take; lia). by rewrite lookup_take_lt.
  - rewrite lookup_app_r by (rewrite length_take; lia). rewrite length_take. replace (Nat.min s (length full)) with s by lia.
    destruct (Nat.lt_ge_cases k e) as [H2|H2].
    + rewrite lookup_app_l by (rewrite length_replicate; lia). rewrite lookup_replicate_2 by lia. apply Hz. lia.
    + rewrite lookup_app_r by (rewrite length_replicate; lia). rewrite length_replicate, lookup_drop. f_equal. lia.
Qed.

Lemma v6_fields_ok n : Forall field_ok (v6_fields n) /\ length (v6_fields n) = 8%nat.
Proof.
  split; [|done]. unfold v6_fields. rewrite Forall_map. apply Forall_forall. intros i _. unfold field_ok.
  change 65535 with (Z.ones 16). rewrite Z.land_ones by lia. apply Z.mod_pos_bound. done.
Qed.

Lemma join_v6_fields n : 0 <= n < 2 ^ 128 -> join16 (v6_fields n) = n.
Proof.
  intros Hn. unfold v6_fields. cbn [map join16 fold_left]. change 65535 with (Z.ones 16). rewrite !Z.land_ones, !Z.shiftr_div_pow2 by lia.
  change (2 ^ 16) with 65536. rewrite Z.pow_0_r, Z.div_1_r. unfold join16. cbn [fold_left].
  assert (forall a b, 0 <= a -> b = a + 16 -> n / 2 ^ b * 65536 + n / 2 ^ a mod 65536 = n / 2 ^ a) as Hstep.
  { intros a b Ha ->. rewrite Z.pow_add_r, <- Z.div_div by lia. change (2 ^ 16) with 65536. pose proof (Z.div_mod (n / 2 ^ a) 65536). lia. }
  pose proof (Hstep 0 16 ltac:(lia) eq_refl) as E0. pose proof (Hstep 16 32 ltac:(lia) eq_refl) as E1.
  pose proof (Hstep 32 48 ltac:(lia) eq_refl) as E2. pose proof (Hstep 48 64 ltac:(lia) eq_refl) as E3.
  pose proof (Hstep 64 80 ltac:(lia) eq_refl) as E4. pose proof (Hstep 80 96 ltac:(lia) eq_refl) as E5.
  pose proof (Hstep 96 112 ltac:(lia) eq_refl) as E6. rewrite Z.pow_0_r, Z.div_1_r in E0. change (2 ^ 16) with 65536 in *.
  assert (n / 2 ^ 112 mod 65536 = n / 2 ^ 112) as E7 by (apply Z.mod_small; split; [apply Z.div_pos; lia|apply Z.div_lt_upper_bound; lia]).
  rewrite E7. lia.
Qed.

Lemma show_starts l : l <> [] -> Forall field_ok l -> exists c r, show l = String c r /\ is_Some (hexval c).
Proof.
  intros Hne Hok. destruct l as [|f l]; [done|]. apply Forall_cons in Hok as [Hf _]. destruct l as [|g l].
  - destruct (hex_field_text f "" Hf I) as (? & _ & _ & Hx). by rewrite sapp_nil_r in Hx.
  - rewrite show_cons. by destruct (hex_field_text f (String ":"%char (show (g :: l))) Hf eq_refl) as (? & _ & _ & Hx).
Qed.

Lemma hex_not_colon c r p : is_Some (hexval c) -> has_prefix (String ":"%char p) (String c r) = false.
Proof. intros Hc. apply has_prefix_ne. intros <-. by destruct Hc. Qed.

Lemma join16_zeros k : join16 (replicate k 0) = 0.
Proof. unfold join16. induction k as [|k IH]; [done|]. exact IH. Qed.

Lemma parse_string6 n : 0 <= n < 2 ^ 128 -> parseIPv6_bits (string6 n) = Some n.
Proof.
  intros Hn. destruct (v6_fields_ok n) as [Hok Hlen]. pose proof (join_v6_fields n Hn) as Hjoin. unfold string6. fold show.
  pose proof (longest_run_ok (v6_fields n) (v6_fields n) 0 (0, 0)%nat eq_refl (or_introl eq_refl)) as Hrun.
  revert Hrun. generalize (v6_fields n) Hok Hlen Hjoin. intros fs Hfs Hl Hj. generalize (longest_run 0 fs (0, 0)%nat). intros [s e] Hrun.
  change (join_with ":" (map (fun f => hex_digits 4 f "") ?l)) with (show l).
  assert (fs <> []) as Hne by (by intros ->). destruct e as [|e].
  - destruct (show_starts fs Hne Hfs) as (c & r & Es & Hc). unfold parseIPv6_bits.
    assert (has_prefix "::" (show fs) = false) as -> by (rewrite Es; by apply hex_not_colon). cbn [bool_decide andb].
    rewrite fields_show by (done || lia). rewrite app_nil_r, rev_involutive, Hl. change (8 =? 8)%nat with true. cbn iota. by rewrite Hj.
  - destruct Hrun as [?|[Hse Hz]]; [done|]. cbn [fst snd] in *. set (E := S e) in *.
    pose proof (run_split fs s E ltac:(lia) Hz) as Hsplit. set (l1 := take s fs) in *. set (l2 := drop E fs) in *.
    assert (Forall field_ok l1 /\ Forall field_ok l2) as [H1 H2] by (split; [by apply Forall_take|by apply Forall_drop]).
    assert (length l1 = s /\ length l2 = (8 - E)%nat) as [Hl1 Hl2] by (subst l1 l2; rewrite length_take, length_drop; lia).
    assert (forall fields ell, fields = l1 ++ l2 -> ell = s ->
      (if (length fields <? 8)%nat then Some (join16 (take ell fields ++ replicate (8 - length fields) 0 ++ drop ell fields)) else None) = Some n) as Hend.
    { intros fields ell -> ->. rewrite length_app, Hl1, Hl2. rewrite (proj2 (Nat.ltb_lt _ _)) by lia.
      rewrite take_app_length', drop_app_length' by done. replace (8 - (s + (8 - E)))%nat with (E - s)%nat by lia. by rewrite <- Hsplit, Hj. }
    unfold parseIPv6_bits. destruct (decide (l1 = [])) as [E1|Hne1].
    + rewrite E1 in *. change (show [] +:+ "::" +:+ show l2) with ("::" +:+ show l2).
      rewrite has_prefix_app. change (sdrop 2 ("::" +:+ show l2)) with (show l2).
      destruct (decide (l2 = [])) as [E2|Hne2].
      * rewrite E2 in *. rewrite app_nil_r in Hsplit. cbn [app] in Hsplit. transitivity (Some 0); [reflexivity|].
        f_equal. by rewrite <- Hj, Hsplit, join16_zeros.
      * destruct (show_starts l2 Hne2 H2) as (c & r & Es & Hc). assert (String.eqb (show l2) "" = false) as -> by (by rewrite Es).
        cbn [bool_decide andb]. rewrite fields_show by (done || lia). rewrite app_nil_r, rev_involutive, andb_false_r. by apply Hend.
    + destruct (show_starts l1 Hne1 H1) as (c & r & Es & Hc).
      assert (has_prefix "::" (show l1 +:+ "::" +:+ show l2) = false) as -> by (rewrite Es; by apply hex_not_colon).
      cbn [bool_decide andb]. rewrite fields_ellipsis by (done || lia). cbn [length Nat.add]. rewrite app_nil_r.
      destruct (decide (l2 = [])) as [E2|Hne2].
      * rewrite E2 in *. change (String.eqb (show []) "") with true. cbn iota. rewrite rev_involutive. apply Hend; [by rewrite app_nil_r|done].
      * destruct (show_starts l2 Hne2 H2) as (c2 & r2 & Es2 & Hc2). assert (String.eqb (show l2) "" = false) as -> by (by rewrite Es2).
        rewrite fields_show by (done || lia). rewrite rev_app_distr, !rev_involutive. by apply Hend.
Qed.

(** ** Every address *)

Definition addr_ok (a : Addr) : Prop := match a with V4 n => 0 <= n < 2 ^ 32 | V6 n _ => 0 <= n < 2 ^ 128 end.

(** What a field or an IPv4 text is made of: no zone separator. *)
Definition addr_char (c : ascii) : bool := bool_decide (is_Some (hexval c)) || Ascii.eqb c ":"%char || Ascii.eqb c "."%char.

Lemma hex_digits_chars n z t : sforall addr_char t = true -> sforall addr_char (hex_digits n z t) = true.
Proof.
  revert z t. induction n as [|n IH]; intros z t Ht; cbn [hex_digits]; [done|].
  assert (sforall addr_char (String (byte (if z mod 16 <? 10 then 48 + z mod 16 else 87 + z mod 16)) t) = true) as Hc.
  { cbn [sforall]. rewrite Ht, andb_true_r. unfold addr_char. rewrite hexval_byte by (apply Z.mod_pos_bound; lia). done. }
  destruct (z <? 16); [done|]. by apply IH.
Qed.

Lemma join_chars sep l : sforall addr_char sep = true -> Forall (fun s => sforall addr_char s = true) l -> sforall addr_char (join_with sep l) = true.
Proof.
  intros Hsep. induction 1 as [|s l Hs Hl IH]; [done|]. destruct l as [|t l]; [done|]. rewrite join_cons, !sforall_app. by rewrite Hs, Hsep, IH.
Qed.
Lemma show_chars l : sforall addr_char (show l) = true.
Proof. apply join_chars; [done|]. rewrite Forall_map. apply Forall_forall. intros f _. by apply hex_digits_chars. Qed.
Lemma string6_chars n : sforall addr_char (string6 n) = true.
Proof.
  unfold string6. destruct (longest_run _ _ _) as [s e].
  change (join_with ":" (map (fun f => hex_digits 4 f "") ?l)) with (show l). destruct e; [apply show_chars|].
  rewrite !sforall_app, !show_chars. done.
Qed.
Lemma string4_chars n : sforall addr_char (string4 n) = true.
Proof.
  unfold string4. apply join_chars; [done|]. rewrite Forall_map. apply Forall_forall. intros i Hi.
  assert (0 <= i) as Hi0 by (rewrite !elem_of_cons, elem_of_nil in Hi; destruct_or! Hi; lia). rewrite land_255 by done.
  destruct (octet_dec (n / 2 ^ i mod 256)) as (_ & _ & Hd & _); [apply Z.mod_pos_bound; lia|]. eapply sforall_impl; [|exact Hd].
  intros c Hc. unfold addr_char, hexval. by rewrite Hc.
Qed.

Lemma string6_colon n : exists s t, string6 n = s +:+ String ":"%char t /\ sforall (fun c => bool_decide (is_Some (hexval c))) s = true.
Proof.
  unfold string6. destruct (longest_run _ _ _) as [s e]. change (join_with ":" (map (fun f => hex_digits 4 f "") ?l)) with (show l).
  destruct (v6_fields_ok n) as [Hok Hlen]. revert Hok Hlen. generalize (v6_fields n). intros fs Hok Hlen.
  assert (forall f, field_ok f -> sforall (fun c => bool_decide (is_Some (hexval c))) (field_text f) = true) as Hf.
  { intros f Hf. unfold field_text. assert (forall n z t, sforall (fun c => bool_decide (is_Some (hexval c))) t = true ->
      sforall (fun c => bool_decide (is_Some (hexval c))) (hex_digits n z t) = true) as H; [|by apply H].
    clear. induction n as [|n IH]; intros z t Ht; cbn [hex_digits]; [done|].
    assert (sforall (fun c => bool_decide (is_Some (hexval c))) (String (byte (if z mod 16 <? 10 then 48 + z mod 16 else 87 + z mod 16)) t) = true) as Hc
      by (cbn [sforall]; rewrite Ht, andb_true_r, hexval_byte by (apply Z.mod_pos_bound; lia); done).
    destruct (z <? 16); [done|]. by apply IH. }
  assert (forall l k, l <> [] -> Forall field_ok l -> (2 <= length l)%nat \/ (exists t, k = String ":"%char t) -> exists s t, show l +:+ k = s +:+ String ":"%char t /\
    sforall (fun c => bool_decide (is_Some (hexval c))) s = true) as Hshow.
  { intros l k Hne Hl Hk. destruct l as [|f [|g l]]; [done| |].
    - destruct Hk as [Hk|[t ->]]; [cbn in Hk; lia|]. apply Forall_cons in Hl as [Hl _]. exists (field_text f), t. split; [done|by apply Hf].
    - apply Forall_cons in Hl as [Hl _]. rewrite show_cons, sapp_assoc. exists (field_text f). eexists. split; [done|by apply Hf]. }
  destruct e as [|e].
  - destruct (Hshow fs "") as (s' & t & E & Hs); [by intros ->|done|left; lia|]. rewrite sapp_nil_r in E. by exists s', t.
  - destruct (decide (take s fs = [])) as [E|Hne]; [exists "", (String ":"%char (show (drop (S e) fs))); by rewrite E|].
    apply Hshow; [done|by apply Forall_take|right; by eexists].
Qed.

Lemma addr_form_hex s t : sforall (fun c => bool_decide (is_Some (hexval c))) s = true -> addr_form (s +:+ t) = addr_form t.
Proof.
  induction s as [|c s IH]; [done|]. cbn [sforall]. rewrite andb_true_iff, bool_decide_eq_true. intros [Hc Hs]. cbn [String.append addr_form].
  rewrite (IH Hs). revert Hc. clear. intros [x Hx]. destruct c as [[] [] [] [] [] [] [] []]; done.
Qed.

(** Cutting an address text at a character it cannot hold. *)
Lemma cut_addr x s z : addr_char x = false -> sforall addr_char s = true -> cut_char x (s +:+ String x z) = Some (s, z) /\ cut_char x s = None.
Proof.
  intros Hx. induction s as [|c s IH]; [cbn; by rewrite Ascii.eqb_refl|]. cbn [sforall]. rewrite andb_true_iff. intros [Hc Hs]. destruct (IH Hs) as [E1 E2].
  cbn [String.append cut_char]. rewrite E1, E2. destruct (Ascii.eqb_spec c x) as [->|]; [congruence|done].
Qed.

(** A mapped address: the dotted text after the last field. *)
Lemma parse_mapped m : 0 <= m < 2 ^ 32 -> parseIPv6_bits ("::ffff:" +:+ string4 m) = Some (v4_mapped m).
Proof.
  intros Hm. unfold parseIPv6_bits. assert (has_prefix "::" ("::ffff:" +:+ string4 m) = true) as -> by exact (has_prefix_app "::" ("ffff:" +:+ string4 m)).
  change (sdrop 2 ("::ffff:" +:+ string4 m)) with ("ffff:" +:+ string4 m). change (String.eqb ("ffff:" +:+ string4 m) "") with false.
  cbn [bool_decide andb]. rewrite andb_false_r.
  assert (exists acc j r c t, (0 < j <= 4)%nat /\ hex_field 0 0 (string4 m) = (acc, j, String "."%char r) /\ string4 m = String c t /\ is_digit c = true)
    as (acc & j & r & c & t & Hj & Eh & Es & Hc).
  { unfold string4. cbn [map join_with]. rewrite !land_255 by lia. set (a := m / 2 ^ 24 mod 256).
    assert (0 <= a < 256) as Ha by (apply Z.mod_pos_bound; lia). clearbody a.
    assert (forallb (fun k => let s := dec_abs (Z.of_nat k) in
       match hex_field 0 0 s with (_, j, "") => (0 <? j)%nat && (j <=? 4)%nat | _ => false end) (seq 0 256) = true) as Hall by (vm_compute; reflexivity).
    rewrite forallb_forall in Hall. specialize (Hall (Z.to_nat a)). rewrite in_seq, Z2Nat.id in Hall by lia. specialize (Hall ltac:(lia)). cbv zeta in Hall.
    destruct (hex_field 0 0 (dec_abs a)) as [[acc j] rest] eqn:E. destruct rest; [|done]. apply andb_true_iff in Hall as [H1%Nat.ltb_lt H2%Nat.leb_le].
    destruct (octet_dec a Ha) as (_ & _ & Hd & Hne). destruct (dec_abs a) as [|c t] eqn:Ea; [done|]. cbn in Hd. apply andb_true_iff in Hd as [Hd _].
    assert (forall s z n z' n' u, hex_field z n s = (z', n', "") -> hex_field z n (s +:+ u) = hex_field z' n' u) as Happ.
    { clear. induction s as [|c s IH]; intros z n z' n' u; cbn; [by intros [= <- <-]|]. destruct (hexval c); [apply IH|done]. }
    eexists acc, j, _, c, _. split; [lia|]. split; [|done]. rewrite (Happ _ _ _ _ _ _ E). reflexivity. }
  assert (forall k, ipv6_fields (S k) (string4 m) [65535] (Some 0%nat) = Some ([m mod 65536; m / 65536; 65535], Some 0%nat, "")) as E7.
  { intros k. cbn [ipv6_fields]. rewrite Eh. destruct j; [lia|]. rewrite (proj2 (Nat.ltb_ge 4 (S j))) by lia. cbn [Nat.eqb orb negb bool_decide andb length].
    change (6 <? 1)%nat with false. cbn iota. by rewrite parse_string4. }
  assert (ipv6_fields 8 ("ffff:" +:+ string4 m) [] (Some 0%nat) = Some ([m mod 65536; m / 65536; 65535], Some 0%nat, "")) as ->.
  { rewrite <- (E7 6%nat), Es. change ("ffff:" +:+ String c t) with (field_text 65535 +:+ String ":"%char (String c t)).
    rewrite fields_step; [done|by split|]. by intros ->. }
  cbn [rev app length]. change (3 <? 8)%nat with true. cbn iota. cbn [take drop app Nat.sub replicate]. unfold join16. cbn [fold_left].
  f_equal. unfold v4_mapped. pose proof (Z.div_mod m 65536). lia.
Qed.

(** Addresses read back as they are written. The text of any IPv4 address,
    of any IPv6 address (lower-case hex, no leading zeros, the first longest
    run of zero fields shortened to an ellipsis, an IPv4-mapped one with a
    dotted tail) and of any zone parses to exactly that address; so an
    address that is logged, used as a limiter key, or written into a derived
    policy identifies the address it came from, and no other. *)
Lemma ParseAddr_String a (Hok : addr_ok a) : ParseAddr (addr_String a) = Some a.
Proof.
  destruct a as [n|n z]; cbn [addr_ok addr_String] in *; [by apply ParseAddr_string4|].
  set (body := match To4 n with Some m => "::ffff:" +:+ string4 m | None => string6 n end).
  assert (parseIPv6_bits body = Some n /\ sforall addr_char body = true /\ forall t, addr_form (body +:+ t) = Some ":"%char) as (Hp & Hc & Hf).
  { subst body. destruct (To4 n) as [m|] eqn:E.
    - apply To4_Some in E as [E1 E2]. assert (0 <= m < 2 ^ 32 /\ n = v4_mapped m) as [Hm ->].
      { rewrite Z.land_ones in E2 by lia. rewrite Z.shiftr_div_pow2 in E1 by lia. unfold v4_mapped. subst m.
        split; [apply Z.mod_pos_bound; lia|]. pose proof (Z.div_mod n (2 ^ 32) ltac:(lia)). rewrite E1 in H.
        change 281470681743360 with (2 ^ 32 * 65535). lia. }
      split; [by apply parse_mapped|]. split; [|done]. rewrite sforall_app. by rewrite string4_chars.
    - split; [by apply parse_string6|]. split; [apply string6_chars|]. intros t. destruct (string6_colon n) as (s & r & -> & Hs).
      rewrite sapp_assoc. by rewrite addr_form_hex. }
  unfold ParseAddr. rewrite Hf. unfold parseIPv6. destruct (String.eqb_spec z "") as [->|Hz].
  - rewrite sapp_nil_r. destruct (cut_addr "%"%char body "" eq_refl Hc) as [_ ->]. by rewrite Hp.
  - change (body +:+ "%" +:+ z) with (body +:+ String "%"%char z). destruct (cut_addr "%"%char body z eq_refl Hc) as [-> _].
    rewrite (proj2 (String.eqb_neq _ _) Hz). by rewrite Hp.
Qed.

(** ** Parsed addresses are in range *)

Lemma hex_field_range s : forall acc n z m t, 0 <= acc < 16 ^ Z.of_nat n -> hex_field acc n s = (z, m, t) -> 0 <= z < 16 ^ Z.of_nat m.
Proof.
  induction s as [|c s IH]; intros acc n z m t Ha; cbn [hex_field]; [by intros [= <- <- <-]|].
  destruct (hexval c) as [d|] eqn:E; [|by intros [= <- <- <-]]. apply IH.
  assert (0 <= d < 16) as Hd.
  { unfold hexval, is_digit, in_range in E. repeat case_match; simplify_eq; to_prop; lia. }
  rewrite Nat2Z.inj_succ, Z.pow_succ_r by lia. lia.
Qed.

Lemma ipv6_fields_range fuel : forall s got ell got' ell' t, Forall field_ok got -> ipv6_fields fuel s got ell = Some (got', ell', t) -> Forall field_ok got'.
Proof.
  induction fuel as [|fuel IH]; intros s got ell got' ell' t Hg; cbn [ipv6_fields]; [by intros [= <- <- <-]|].
  destruct (hex_field 0 0 s) as [[acc off] rest] eqn:E. apply hex_field_range in E; [|cbn; lia].
  destruct ((off =? 0)%nat || (4 <? off)%nat) eqn:Eo; [done|]. apply orb_false_iff in Eo as [_ Eo]. apply Nat.ltb_ge in Eo.
  assert (field_ok acc) as Ha.
  { unfold field_ok. pose proof (Z.pow_le_mono_r 16 (Z.of_nat off) 4 ltac:(lia) ltac:(lia)). change (16 ^ 4) with 65536 in *. lia. }
  assert (Forall field_ok (acc :: got)) as Hag by by constructor.
  repeat case_match; try done; intros Hr; simplify_eq; try done; try (by eapply IH).
  all: match goal with H : parseIPv4 _ = Some _ |- _ => apply parseIPv4_range in H; change (2 ^ 32) with (65536 * 65536) in H end.
  all: constructor; [apply Z.mod_pos_bound; lia|constructor; [|done]].
  all: unfold field_ok; split; [apply Z.div_pos; lia|apply Z.div_lt_upper_bound; lia].
Qed.

Lemma join16_range l : Forall field_ok l -> 0 <= join16 l < 65536 ^ Z.of_nat (length l).
Proof.
  unfold join16. intros Hl. assert (forall acc k, 0 <= acc < 65536 ^ k -> 0 <= k ->
    0 <= fold_left (fun a x => a * 65536 + x) l acc < 65536 ^ (k + Z.of_nat (length l))) as H.
  { induction Hl as [|f l Hf _ IH]; intros acc k Ha Hk; cbn [fold_left length]; [by rewrite Z.add_0_r|].
    replace (k + Z.of_nat (S (length l))) with (Z.succ k + Z.of_nat (length l)) by lia. apply IH; [|lia].
    unfold field_ok in Hf. rewrite Z.pow_succ_r by lia. lia. }
  apply (H 0 0); cbn; lia.
Qed.

Lemma parseIPv6_bits_range s n : parseIPv6_bits s = Some n -> 0 <= n < 2 ^ 128.
Proof.
  unfold parseIPv6_bits. destruct (if has_prefix "::" s then _ else _) as [s' ell].
  destruct (bool_decide (is_Some ell) && String.eqb s' ""); [intros [= <-]; lia|].
  destruct (ipv6_fields 8 s' [] ell) as [[[got ell'] rest]|] eqn:E; [|done]. apply ipv6_fields_range in E; [|done].
  assert (Forall field_ok (rev got)) as Hr by by apply Forall_rev.
  assert (forall l, Forall field_ok l -> length l = 8%nat -> 0 <= join16 l < 2 ^ 128) as H8.
  { intros l Hl Hn. pose proof (join16_range l Hl) as H. rewrite Hn in H. done. }
  destruct rest; [|done]. cbv zeta. destruct ell' as [e|].
  - destruct (Nat.ltb_spec (length (rev got)) 8); [|done]. intros [= <-]. apply H8.
    + rewrite !Forall_app. split; [by apply Forall_take|]. split; [|by apply Forall_drop]. apply Forall_replicate. by split.
    + rewrite !length_app, length_replicate, length_drop, length_take. lia.
  - destruct (Nat.eqb_spec (length (rev got)) 8); [|done]. intros [= <-]. by apply H8.
Qed.

Lemma ParseAddr_ok s a : ParseAddr s = Some a -> addr_ok a.
Proof.
  destruct a as [n|n z]; [apply ParseAddr_V4_range|]. unfold ParseAddr. intros Hp.
  assert (parseIPv6 s = Some (V6 n z)) as Hv by (repeat case_match; congruence).
  unfold parseIPv6 in Hv. repeat case_match; simplify_eq; by eapply parseIPv6_bits_range.
Qed.

(** ** [net.IP] *)

(** [net.IP.String] of an address: dotted for one that is IPv4. *)
Definition ip_String (ip : IP) : string := match To4 ip with Some v4 => string4 v4 | None => addr_String (V6 ip "") end.

Definition ip_ok (ip : IP) : Prop := 0 <= ip < 2 ^ 128.

Lemma ParseIP_ok s ip : ParseIP s = Some ip -> ip_ok ip.
Proof.
  unfold ParseIP. destruct (ParseAddr s) as [a|] eqn:E; [|done]. apply ParseAddr_ok in E. destruct (String.eqb _ _); [|done]. intros [= <-].
  destruct a as [n|n z]; cbn in *; unfold ip_ok, v4_mapped; lia.
Qed.

Lemma To4_inv ip v : ip_ok ip -> To4 ip = Some v -> 0 <= v < 2 ^ 32 /\ ip = v4_mapped v.
Proof.
  intros Hok [E1 E2]%To4_Some. rewrite Z.land_ones in E2 by lia. rewrite Z.shiftr_div_pow2 in E1 by lia. unfold v4_mapped. subst v.
  split; [apply Z.mod_pos_bound; lia|]. pose proof (Z.div_mod ip (2 ^ 32) ltac:(lia)). lia.
Qed.

(** A prefix of full length, as it is written, holds one address. *)
Lemma host_cidr ip : ip_ok ip -> exists n, ParseCIDR (ip_String ip +:+ (if To4 ip then "/32" else "/128")) = Some n /\
  forall x, ip_ok x -> ipnet_contains n x = bool_decide (x = ip).
Proof.
  intros Hok. unfold ip_String. destruct (To4 ip) as [v|] eqn:E.
  - destruct (To4_inv _ _ Hok E) as [Hv ->]. unfold ParseCIDR.
    destruct (cut_addr "/"%char (string4 v) "32" eq_refl (string4_chars v)) as [-> _]. rewrite ParseAddr_string4 by done.
    cbn [Zone String.eqb negb]. change (decimal "32") with (Some 32). cbn iota. eexists. split; [reflexivity|].
    intros x Hx. unfold mask_top. rewrite Z.sub_diag, Z.shiftr_0_r, Z.shiftl_0_r. unfold ipnet_contains. cbn [n_ip n_mask4 n_bits].
    rewrite To4_mapped by done. destruct (To4 x) as [y|] eqn:Ey.
    + destruct (To4_inv _ _ Hx Ey) as [Hy ->]. unfold top_eq. rewrite Z.sub_diag, !Z.shiftr_0_r. unfold v4_mapped.
      destruct (Z.eqb_spec v y) as [->|]; symmetry; [by apply bool_decide_eq_true|apply bool_decide_eq_false; lia].
    + symmetry. apply bool_decide_eq_false. intros ->. by rewrite To4_mapped in Ey.
  - unfold ParseCIDR. cbn [addr_String]. rewrite E. cbn [String.eqb]. rewrite sapp_nil_r.
    destruct (cut_addr "/"%char (string6 ip) "128" eq_refl (string6_chars ip)) as [-> _].
    assert (ParseAddr (string6 ip) = Some (V6 ip "")) as ->.
    { pose proof (ParseAddr_String (V6 ip "") Hok) as H. cbn in H. by rewrite E, sapp_nil_r in H. }
    cbn [Zone String.eqb negb]. change (decimal "128") with (Some 128). cbn iota. eexists. split; [reflexivity|].
    intros x Hx. unfold mask_top. rewrite Z.sub_diag, Z.shiftr_0_r, Z.shiftl_0_r. unfold ipnet_contains. cbn [n_ip n_mask4 n_bits].
    rewrite E. destruct (To4 x) as [y|] eqn:Ey; [symmetry; apply bool_decide_eq_false; intros ->; congruence|].
    unfold top_eq. rewrite Z.sub_diag, !Z.shiftr_0_r. cbn [negb andb].
    destruct (Z.eqb_spec ip x) as [->|]; symmetry; [by apply bool_decide_eq_true|by apply bool_decide_eq_false].
Qed.
