(* ===== verification/Accounting.v ===== *)
(** * Token accounting

    [internal/accounting]: the usage a backend reports ([record.go]), the
    fixed hour and day token windows with their replay from the log
    ([quota.go]) and the per-key report ([report.go]).  A method that runs
    under the quota's mutex is one step; the times it is given were read
    before, so a history of operations may carry stamps out of order.  The
    queue in front of the log file
    is [Writer.v]. *)

From Stdlib Require Import Ascii.
From Stdlib Require Import Sorting.Sorted.
From S2P Require Import Prelude GoStrings Net Json.

(** ** record.go *)

(* src: internal/accounting/record.go UsageStatus *)
Inductive UsageStatus := UsageExact | UsageUnknown.

(* src: internal/accounting/record.go Record *)
Record Record_ := mkRecord {
  rec_Time : time; rec_RequestID : string; rec_KeyID : string; rec_Model : string; rec_Backend : string;
  rec_Endpoint : string; rec_Status : Z; rec_DurationMS : Z;
  rec_InputTokens : Z; rec_OutputTokens : Z; rec_TotalTokens : Z; rec_CachedTokens : Z; rec_ReasoningTokens : Z;
  rec_UsageStatus : string; rec_Retries : Z; rec_ChargedTokens : Z }.

(* src: internal/accounting/record.go Usage *)
Record Usage := mkUsage { Input : Z; Output : Z; Total : Z; Cached : Z; Reasoning : Z; Present : bool }.
Definition no_usage : Usage := mkUsage 0 0 0 0 0 false.

(* src: internal/accounting/record.go maxUsageTokens *)
Definition maxUsageTokens : Z := 2 ^ 40.

(* src: internal/accounting/record.go clampUsage *)
Definition clampUsage (v : Z) : Z :=
  if v <? 0 then 0 else if maxUsageTokens <? v then maxUsageTokens else v.

(* src: internal/accounting/quota.go satAdd *)
Definition satAdd (a b : Z) : Z :=
  if (0 <? b) && (wrap64 (MaxInt64 - b) <? a) then MaxInt64
  else let s := wrap64 (a + b) in if s <? 0 then 0 else s.

(** A token count of a details object, 0 when the object is absent; an
    ill-typed one is an error even when a later [null] replaces it. *)
Definition details_ok (name : string) (v : json) : bool :=
  match v with JObj d => bool_decide (is_Some (int64_field name d)) | JNull => true | _ => false end.
Definition detail (obj name : string) (m : list (string * json)) : option Z :=
  match pointer_field obj m with
  | None => None
  | Some d => if forallb (details_ok name) (field_values obj m) then int64_field name (default [] d) else None
  end.

(** The usage object of one shape, by its field names; [None] when it does
    not decode. *)
(* src: internal/accounting/record.go 68-93 usageBody, responsesUsage *)
Definition usage_body (m : list (string * json)) (inp out inp_details out_details : string) : option (Z * Z * Z * Z * Z) :=
  match int64_field inp m, int64_field out m, int64_field "total_tokens" m,
        detail inp_details "cached_tokens" m, detail out_details "reasoning_tokens" m with
  | Some i, Some o, Some t, Some c, Some r => Some (i, o, t, c, r)
  | _, _, _, _, _ => None
  end.

Definition usage_of (b : option (Z * Z * Z * Z * Z)) : Usage :=
  match b with
  | None => no_usage
  | Some (i, o, t, c, r) =>
      if (i =? 0) && (o =? 0) && (t =? 0) then no_usage
      else
        let total := clampUsage t in
        mkUsage (clampUsage i) (clampUsage o)
          (if total =? 0 then satAdd (clampUsage i) (clampUsage o) else total)
          (clampUsage c) (clampUsage r) true
  end.

(* src: internal/accounting/record.go fromUsageJSON *)
Definition fromUsageJSON (raw : json) : Usage :=
  match decode_struct raw with
  | None => no_usage
  | Some m =>
      match raw_field "prompt_tokens" m, raw_field "input_tokens" m with
      | Some _, _ =>
          usage_of (usage_body m "prompt_tokens" "completion_tokens" "prompt_tokens_details" "completion_tokens_details")
      | None, Some _ =>
          usage_of (usage_body m "input_tokens" "output_tokens" "input_tokens_details" "output_tokens_details")
      | None, None => no_usage
      end
  end.

(* src: internal/accounting/record.go ParseUsage *)
Definition ParseUsage (body : string) : Usage :=
  if String.eqb body "" then no_usage
  else match json_parse body with
  | None => no_usage
  | Some v =>
      match decode_struct v with
      | None => no_usage
      | Some m =>
          match struct_field "response" m with
          | None => no_usage
          | Some resp =>
              let first := match raw_field "usage" m with Some u => fromUsageJSON u | None => no_usage end in
              if Present first then first
              else
                let second := match raw_field "usage" resp with Some u => fromUsageJSON u | None => no_usage end in
                if Present second then second else no_usage
          end
      end
  end.

(* src: internal/accounting/record.go ParseStreamChunk *)
Definition ParseStreamChunk (data : string) : Usage := ParseUsage data.

(** Go's [%] keeps the sign of the dividend. *)
(* src: internal/accounting/record.go hourKey *)
Definition hourKey (t : time) : Z := Unix t - Z.rem (Unix t) 3600.
(* src: internal/accounting/record.go dayKey *)
Definition dayKey (t : time) : Z := Unix t - Z.rem (Unix t) 86400.

(* src: internal/accounting/record.go StatusOf *)
Definition StatusOf (u : Usage) : UsageStatus := if Present u then UsageExact else UsageUnknown.

(** ** quota.go *)

(* src: internal/accounting/quota.go keyQuota *)
Record keyQuota := mkKeyQuota { hourKey_ : Z; hour : Z; dayKey_ : Z; day : Z }.

(* src: internal/accounting/quota.go Quota *)
Record Quota := mkQuota { states : gmap string keyQuota }.

(* src: internal/accounting/quota.go NewQuota *)
Definition NewQuota : Quota := mkQuota ∅.

(* src: internal/accounting/quota.go WindowLimit *)
Record WindowLimit := mkWindowLimit { TokensPerHour : Z; TokensPerDay : Z }.

(** The state [stateFor] returns; the caller stores what it makes of it. *)
(* src: internal/accounting/quota.go Quota.stateFor *)
Definition stateFor (q : Quota) (keyID : string) (now : time) : keyQuota :=
  let h := hourKey now in
  let d := dayKey now in
  match states q !! keyID with
  | None => mkKeyQuota h 0 d 0
  | Some st =>
      let st := if hourKey_ st <? h then mkKeyQuota h 0 (dayKey_ st) (day st) else st in
      if dayKey_ st <? d then mkKeyQuota (hourKey_ st) (hour st) d 0 else st
  end.
Definition store_state (q : Quota) (keyID : string) (st : keyQuota) : Quota := mkQuota (<[keyID := st]> (states q)).

Inductive quota_reason := tokens_per_hour | tokens_per_day.

(* src: internal/accounting/quota.go Quota.Admit *)
Definition Admit (q : Quota) (keyID : string) (limits : WindowLimit) (reservation : Z) (now : time)
    : Quota * option quota_reason :=
  if (TokensPerHour limits <=? 0) && (TokensPerDay limits <=? 0) then (q, None)
  else
    let st := stateFor q keyID now in
    let q := store_state q keyID st in
    if (0 <? TokensPerHour limits) &&
       ((TokensPerHour limits <? reservation) || (wrap64 (TokensPerHour limits - reservation) <? hour st))
    then (q, Some tokens_per_hour)
    else if (0 <? TokensPerDay limits) &&
            ((TokensPerDay limits <? reservation) || (wrap64 (TokensPerDay limits - reservation) <? day st))
    then (q, Some tokens_per_day)
    else (q, None).

(* src: internal/accounting/quota.go Quota.Settle *)
Definition Settle (q : Quota) (keyID : string) (tokens : Z) (now : time) : Quota :=
  if tokens <=? 0 then q
  else
    let st := stateFor q keyID now in
    store_state q keyID (mkKeyQuota (hourKey_ st) (satAdd (hour st) tokens) (dayKey_ st) (satAdd (day st) tokens)).

(* src: internal/accounting/quota.go maxAccountingLine *)
Definition maxAccountingLine : Z := 2 ^ 20.

(** A file's text line by line: a line longer than the cap (its newline
    included) is skipped, and so is an unterminated rest that fills the
    buffer. *)
(* src: internal/accounting/quota.go scanBounded *)
Definition scanBounded (text : string) : list string :=
  let pieces := split_on ch_nl text in
  let lines := List.filter (fun l => slen l + 1 <=? maxAccountingLine) (removelast pieces) in
  let rest := List.last pieces "" in
  lines ++ (if (0 <? slen rest) && (slen rest <? maxAccountingLine) then [rest] else []).

(** *** Decoding a record: [time.Time]'s RFC 3339, the rest by field *)

Definition digits_val (s : string) : option Z :=
  if sforall is_digit s && negb (String.eqb s "")
  then Some (fold_left (fun acc c => acc * 10 + (bval c - 48)) (String.list_ascii_of_string s) 0) else None.
(** [n] digits at the head of [s], within bounds. *)
Definition take_num (n : nat) (lo hi : Z) (s : string) : option (Z * string) :=
  if (String.length s <? n)%nat then None
  else match digits_val (stake n s) with
       | Some v => if (lo <=? v) && (v <=? hi) then Some (v, sdrop n s) else None
       | None => None
       end.
Definition is_leap (y : Z) : bool := (y mod 4 =? 0) && (negb (y mod 100 =? 0) || (y mod 400 =? 0)).
Definition days_in (y m : Z) : Z :=
  if m =? 2 then (if is_leap y then 29 else 28)
  else if (m =? 4) || (m =? 6) || (m =? 9) || (m =? 11) then 30 else 31.
Definition days_before_month (y m : Z) : Z := zsum (map (fun k => days_in y (Z.of_nat k)) (seq 1 (Z.to_nat (m - 1)))).
Definition days_since_year1 (y m d : Z) : Z :=
  365 * (y - 1) + (y - 1) / 4 - (y - 1) / 100 + (y - 1) / 400 + days_before_month y m + (d - 1).

(** The fraction of a second: at most nine digits count. *)
Definition scan_nanos (s : string) : Z * string :=
  match s with
  | String c r =>
      if Ascii.eqb c "."%char then
        match span_digits r with
        | ("", _) => (0, s)
        | (d, t) => let d := stake 9 d in (default 0 (digits_val d) * 10 ^ (9 - slen d), t)
        end
      else (0, s)
  | "" => (0, "")
  end.
(** The zone, as seconds east of UTC. *)
Definition scan_zone (s : string) : option Z :=
  if String.eqb s "Z" then Some 0
  else if (String.length s =? 6)%nat then
    match s with
    | String sg r =>
        match take_num 2 0 23 r with
        | Some (h, r) =>
            match expect ":"%char r with
            | Some r => match take_num 2 0 59 r with
                        | Some (m, _) => if Ascii.eqb sg "+"%char then Some (h * 3600 + m * 60)
                                         else if Ascii.eqb sg "-"%char then Some (- (h * 3600 + m * 60)) else None
                        | None => None
                        end
            | None => None
            end
        | None => None
        end
    | "" => None
    end
  else None.

Definition bind {A B} (x : option A) (f : A -> option B) : option B := match x with Some a => f a | None => None end.
Definition parse_rfc3339 (s : string) : option time :=
  bind (take_num 4 0 9999 s) (fun '(y, s) => bind (expect "-"%char s) (fun s =>
  bind (take_num 2 1 12 s) (fun '(mo, s) => bind (expect "-"%char s) (fun s =>
  bind (take_num 2 1 (days_in y mo) s) (fun '(d, s) => bind (expect "T"%char s) (fun s =>
  bind (take_num 2 0 23 s) (fun '(h, s) => bind (expect ":"%char s) (fun s =>
  bind (take_num 2 0 59 s) (fun '(mi, s) => bind (expect ":"%char s) (fun s =>
  bind (take_num 2 0 59 s) (fun '(sec, s) =>
  let '(ns, s) := scan_nanos s in
  bind (scan_zone s) (fun off =>
  Some ((days_since_year1 y mo d * 86400 + h * 3600 + mi * 60 + sec - off) * Second + ns))))))))))))).
Definition decode_time (acc : time) (v : json) : option time :=
  match v with JNull => Some acc | JStr raw => parse_rfc3339 raw | _ => None end.

(** [json.Unmarshal] of a line into a [Record]. *)
(* src: internal/accounting/record.go Record *)
Definition unmarshal_record (line : string) : option Record_ :=
  bind (json_parse line) (fun v => bind (decode_struct v) (fun m =>
  bind (decode_field decode_time zero_time "time" m) (fun t =>
  bind (string_field "request_id" m) (fun rid => bind (string_field "key_id" m) (fun kid =>
  bind (string_field "model" m) (fun mo => bind (string_field "backend" m) (fun b =>
  bind (string_field "endpoint" m) (fun e => bind (int64_field "status" m) (fun st =>
  bind (int64_field "duration_ms" m) (fun dur => bind (int64_field "input_tokens" m) (fun i =>
  bind (int64_field "output_tokens" m) (fun o => bind (int64_field "total_tokens" m) (fun tot =>
  bind (int64_field "cached_tokens" m) (fun c => bind (int64_field "reasoning_tokens" m) (fun r =>
  bind (string_field "usage_status" m) (fun us => bind (int64_field "retries" m) (fun re =>
  bind (int64_field "charged_tokens" m) (fun ch =>
  Some (mkRecord t rid kid mo b e st dur i o tot c r us re ch))))))))))))))))))).

(* src: internal/accounting/quota.go Quota.replayLine *)
Definition replayLine (q : Quota) (now : time) (line : string) : Quota :=
  match unmarshal_record line with
  | None => q
  | Some r =>
      let tokens := if rec_ChargedTokens r =? 0 then rec_TotalTokens r else rec_ChargedTokens r in
      if String.eqb (rec_KeyID r) "" || (tokens <=? 0) then q
      else
        let st := stateFor q (rec_KeyID r) now in
        let st := if hourKey (rec_Time r) =? hourKey_ st
                  then mkKeyQuota (hourKey_ st) (satAdd (hour st) tokens) (dayKey_ st) (day st) else st in
        let st := if dayKey (rec_Time r) =? dayKey_ st
                  then mkKeyQuota (hourKey_ st) (hour st) (dayKey_ st) (satAdd (day st) tokens) else st in
        store_state q (rec_KeyID r) st
  end.

(** Discarding the partial first line: up to its newline, or a full buffer. *)
(* src: internal/accounting/quota.go 191-197 Quota.Replay *)
Definition discard_line (tail : string) : string :=
  match split_on ch_nl tail with
  | first :: ((_ :: _) as pieces) =>
      if slen first + 1 <=? maxAccountingLine then join_with (String ch_nl "") pieces
      else sdrop (Z.to_nat maxAccountingLine) tail
  | _ => sdrop (Z.to_nat maxAccountingLine) tail
  end.

(** Replay of a log with the given text; a missing log ([None]) is empty
    state.  I/O errors are returned to the caller and not modelled. *)
(* src: internal/accounting/quota.go Quota.Replay *)
Definition Replay (q : Quota) (log : option string) (maxBytes : Z) (now : time) : Quota :=
  match log with
  | None => q
  | Some text =>
      let size := slen text in
      let lines :=
        if (maxBytes <=? 0) || (size <=? maxBytes) then scanBounded text
        else
          let start := Z.to_nat (size - maxBytes) in
          let aligned := has_prefix (String ch_nl "") (sdrop (start - 1) text) in
          let tail := sdrop start text in
          scanBounded (if aligned then tail else discard_line tail)
      in fold_left (fun q l => replayLine q now l) lines q
  end.

(** ** report.go *)

(* src: internal/accounting/report.go KeyUsage *)
Record KeyUsage := mkKeyUsage {
  ku_KeyID : string; ku_Requests : Z; ku_Input : Z; ku_Output : Z; ku_Total : Z; ku_Cached : Z }.

(** [order] and [byKey] point to the same entries: the entry of a key is
    updated in place in the order of first appearance. *)
Definition bump (rec : Record_) (ku : KeyUsage) : KeyUsage :=
  mkKeyUsage (ku_KeyID ku) (wrap64 (ku_Requests ku + 1))
    (satAdd (ku_Input ku) (clampUsage (rec_InputTokens rec))) (satAdd (ku_Output ku) (clampUsage (rec_OutputTokens rec)))
    (satAdd (ku_Total ku) (clampUsage (rec_TotalTokens rec))) (satAdd (ku_Cached ku) (clampUsage (rec_CachedTokens rec))).
Fixpoint report_add (rec : Record_) (l : list KeyUsage) : list KeyUsage :=
  match l with
  | [] => [bump rec (mkKeyUsage (rec_KeyID rec) 0 0 0 0 0)]
  | ku :: l => if String.eqb (ku_KeyID ku) (rec_KeyID rec) then bump rec ku :: l else ku :: report_add rec l
  end.

(* src: internal/accounting/report.go ReportFile *)
Definition ReportFile (log : option string) : list KeyUsage :=
  match log with
  | None => []
  | Some text =>
      fold_left (fun acc line =>
        match unmarshal_record line with
        | Some rec => if String.eqb (rec_KeyID rec) "" then acc else report_add rec acc
        | None => acc
        end) (scanBounded text) []
  end.

(** ** Usage bounds *)

Lemma clampUsage_range v : 0 <= clampUsage v <= maxUsageTokens.
Proof. unfold clampUsage, maxUsageTokens. repeat case_match; to_prop; lia. Qed.

Lemma satAdd_min a b : 0 <= a <= MaxInt64 -> 0 <= b <= MaxInt64 -> satAdd a b = Z.min MaxInt64 (a + b).
Proof.
  intros Ha Hb. unfold satAdd. rewrite (wrap64_id (MaxInt64 - b)) by (int64_unfold; lia).
  destruct (_ && _) eqn:E; to_prop; [lia|].
  assert (a + b <= MaxInt64) by (int64_unfold; lia).
  rewrite wrap64_id by (int64_unfold; lia). destruct (Z.ltb_spec (a + b) 0); lia.
Qed.

Lemma ParseUsage_range body :
  let u := ParseUsage body in
  0 <= Input u <= 2 ^ 40 /\ 0 <= Output u <= 2 ^ 40 /\ 0 <= Cached u <= 2 ^ 40 /\ 0 <= Reasoning u <= 2 ^ 40 /\
  0 <= Total u <= 2 ^ 41 /\ (2 ^ 40 < Total u -> Total u = Input u + Output u) /\
  (StatusOf u = UsageUnknown <-> u = no_usage).
Proof.
  cbn zeta.
  set (P := fun u => 0 <= Input u <= 2 ^ 40 /\ 0 <= Output u <= 2 ^ 40 /\ 0 <= Cached u <= 2 ^ 40 /\
    0 <= Reasoning u <= 2 ^ 40 /\ 0 <= Total u <= 2 ^ 41 /\ (2 ^ 40 < Total u -> Total u = Input u + Output u) /\
    (StatusOf u = UsageUnknown <-> u = no_usage)).
  assert (P no_usage) as H0 by (unfold P; cbn; repeat split; try lia; done).
  assert (forall b, P (usage_of b)) as Hof.
  { intros [[[[[i o] t] c] r]|]; [|done]. cbn. case_match; [done|].
    pose proof (clampUsage_range i). pose proof (clampUsage_range o). pose proof (clampUsage_range t).
    pose proof (clampUsage_range c). pose proof (clampUsage_range r).
    unfold P, maxUsageTokens in *; cbn -[Z.pow]. rewrite satAdd_min by (int64_unfold; lia).
    repeat split; try lia; try done; case_match; int64_unfold; lia. }
  assert (forall raw, P (fromUsageJSON raw)) as Hfrom by (intros raw; unfold fromUsageJSON; repeat case_match; auto).
  fold (P (ParseUsage body)). unfold ParseUsage. repeat case_match; auto; apply Hfrom.
Qed.

(** Backend-reported usage is tame. Whatever bytes a backend sends as a
    body or stream chunk, the usage read from them has every count between 0
    and 2^40, and a total between 0 and 2^41 that is the reported one or, when
    none is reported, the sum of input and output; a report that carries no
    usable count is not presented as exact. So a charge can neither be
    negative nor exhaust an int64 counter. *)
Theorem ParseUsage_bounded body :
  let u := ParseUsage body in
  0 <= Input u <= 2 ^ 40 /\ 0 <= Output u <= 2 ^ 40 /\ 0 <= Cached u <= 2 ^ 40 /\ 0 <= Reasoning u <= 2 ^ 40 /\
  0 <= Total u <= 2 ^ 41 /\ (2 ^ 40 < Total u -> Total u = Input u + Output u) /\
  (StatusOf u = UsageUnknown <-> u = no_usage).
Proof. apply ParseUsage_range. Qed.

(** ** The windows *)

(** A settlement: the key, the tokens, the time. *)
Record event := mkEvent { e_key : string; e_tokens : Z; e_time : time }.

(** What counts for a key in the window [w] of [wk]. *)
Definition counts (k : string) (e : event) : bool := String.eqb (e_key e) k && (0 <? e_tokens e).
Definition used (wk : time -> Z) (w : Z) (k : string) (evs : list event) : Z :=
  zsum (map e_tokens (List.filter (fun e => counts k e && (wk (e_time e) =? w)) evs)).

(** An operation on the quota, with the time it was stamped with before it
    took the lock: concurrent requests' stamps reach the quota in any order. *)
Inductive quota_op :=
| QSettle (e : event)
| QAdmit (k : string) (limits : WindowLimit) (res : Z) (t : time).
Definition run_op (q : Quota) (o : quota_op) : Quota :=
  match o with
  | QSettle e => Settle q (e_key e) (e_tokens e) (e_time e)
  | QAdmit k limits res t => (Admit q k limits res t).1
  end.
Definition run_ops (q : Quota) (ops : list quota_op) : Quota := fold_left run_op ops q.
Definition op_time (o : quota_op) : time := match o with QSettle e => e_time e | QAdmit _ _ _ t => t end.
Definition unlimited (limits : WindowLimit) : bool := (TokensPerHour limits <=? 0) && (TokensPerDay limits <=? 0).
(** The operation moves [k]'s windows on: it settles tokens of [k], or asks
    for [k] under some limit. *)
Definition touches (k : string) (o : quota_op) : bool :=
  match o with
  | QSettle e => counts k e
  | QAdmit k' limits _ _ => String.eqb k' k && negb (unlimited limits)
  end.
Definition settlements (ops : list quota_op) : list event :=
  omap (fun o => match o with QSettle e => Some e | QAdmit _ _ _ _ => None end) ops.

(** The window a request of [k] stamped [now] is judged in: its own, or the
    latest that an operation of [k] has opened. *)
Fixpoint latest (wk : time -> Z) (k : string) (ops : list quota_op) (w : Z) : Z :=
  match ops with
  | [] => w
  | o :: ops => latest wk k ops (if touches k o then Z.max w (wk (op_time o)) else w)
  end.
(** The operations since the first that opened the window [w] of [k]. *)
Fixpoint since (wk : time -> Z) (k : string) (w : Z) (ops : list quota_op) : list quota_op :=
  match ops with
  | [] => []
  | o :: rest => if touches k o && (wk (op_time o) =? w) then ops else since wk k w rest
  end.
(** What has been settled for [k] since then, late stamps included. *)
Definition landed (wk : time -> Z) (k : string) (w : Z) (ops : list quota_op) : Z :=
  zsum (map e_tokens (List.filter (counts k) (settlements (since wk k w ops)))).

(** One window of a key, as [stateFor] treats it: its start and what counts
    in it. *)
Definition roll (st : option (Z * Z)) (h : Z) : Z * Z :=
  match st with None => (h, 0) | Some (k, v) => if k <? h then (h, 0) else (k, v) end.
Definition hour_of (st : keyQuota) : Z * Z := (hourKey_ st, hour st).
Definition day_of (st : keyQuota) : Z * Z := (dayKey_ st, day st).

Lemma stateFor_roll q k now :
  hour_of (stateFor q k now) = roll (hour_of <$> states q !! k) (hourKey now) /\
  day_of (stateFor q k now) = roll (day_of <$> states q !! k) (dayKey now).
Proof.
  unfold stateFor. destruct (states q !! k) as [st|]; [|done]. cbn.
  repeat case_match; to_prop; cbn in *; try lia; done.
Qed.

Lemma used_app wk w k evs evs' : used wk w k (evs ++ evs') = used wk w k evs + used wk w k evs'.
Proof. unfold used. by rewrite List.filter_app, map_app, zsum_app. Qed.
Lemma used_one wk w k e : used wk w k [e] = if counts k e && (wk (e_time e) =? w) then e_tokens e else 0.
Proof. unfold used. cbn. case_match; cbn; rewrite ?zsum_cons, ?zsum_nil; lia. Qed.
Lemma used_cons wk w k e evs : used wk w k (e :: evs) =
  (if counts k e && (wk (e_time e) =? w) then e_tokens e else 0) + used wk w k evs.
Proof. change (e :: evs) with ([e] ++ evs). by rewrite used_app, used_one. Qed.
Lemma used_zero wk w k evs : (forall e, e ∈ evs -> counts k e = true -> wk (e_time e) <> w) -> used wk w k evs = 0.
Proof.
  induction evs as [|e evs IH]; intros H; [done|].
  rewrite used_cons, IH by (intros; apply H; [by right|done]).
  case_match; [|lia]. to_prop. exfalso. eapply H; [by left|done|done].
Qed.
Lemma used_nonneg wk w k evs : 0 <= used wk w k evs.
Proof.
  unfold used. apply zsum_nonneg. rewrite Forall_map. apply Forall_forall. intros e He%list_elem_of_In.
  apply filter_In in He as [_ He]. unfold counts in He. to_prop. lia.
Qed.
(** The order of settlements does not matter to their sum. *)
Lemma used_perm wk w k evs evs' : evs ≡ₚ evs' -> used wk w k evs = used wk w k evs'.
Proof. induction 1; rewrite ?used_cons; lia. Qed.

(** *** The sum since a window was opened *)

Definition settled_for (k : string) (ops : list quota_op) : Z :=
  zsum (map e_tokens (List.filter (counts k) (settlements ops))).
Definition tokens_for (k : string) (o : quota_op) : Z :=
  match o with QSettle e => if counts k e then e_tokens e else 0 | QAdmit _ _ _ _ => 0 end.

Lemma settled_for_cons k o ops : settled_for k (o :: ops) = tokens_for k o + settled_for k ops.
Proof.
  unfold settled_for, settlements. destruct o as [e|]; cbn; [|done]. destruct (counts k e); cbn; [|done]. by rewrite zsum_cons.
Qed.
Lemma settled_for_snoc k ops o : settled_for k (ops ++ [o]) = settled_for k ops + tokens_for k o.
Proof.
  induction ops as [|a ops IH]; cbn; rewrite !settled_for_cons; [change (settled_for k []) with 0; lia|rewrite IH; lia].
Qed.
Lemma tokens_for_nonneg k o : 0 <= tokens_for k o.
Proof. destruct o as [e|]; cbn; [|lia]. destruct (counts k e) eqn:E; [|lia]. unfold counts in E. to_prop. lia. Qed.
Lemma settled_for_nonneg k ops : 0 <= settled_for k ops.
Proof.
  induction ops as [|o ops IH]; [done|]. rewrite settled_for_cons. pose proof (tokens_for_nonneg k o). lia.
Qed.
Lemma tokens_untouched k o : touches k o = false -> tokens_for k o = 0.
Proof. destruct o as [e|]; cbn; [by intros ->|done]. Qed.

Section Windows.
Context (wk : time -> Z).

(** [w] has been opened. *)
Definition opened (k : string) (w : Z) (ops : list quota_op) : bool :=
  existsb (fun o => touches k o && (wk (op_time o) =? w)) ops.

#[local] Arguments opened : simpl never.

Lemma opened_cons k w o ops : opened k w (o :: ops) = (touches k o && (wk (op_time o) =? w)) || opened k w ops.
Proof. done. Qed.

Lemma since_snoc k w ops o : since wk k w (ops ++ [o]) =
  if opened k w ops then since wk k w ops ++ [o]
  else if touches k o && (wk (op_time o) =? w) then [o] else [].
Proof. unfold opened. induction ops as [|a ops IH]; cbn; [done|]. destruct (touches k a && _); cbn; [done|apply IH]. Qed.

Lemma since_unopened k w ops : opened k w ops = false -> since wk k w ops = [].
Proof. unfold opened. induction ops as [|a ops IH]; cbn; [done|]. by destruct (touches k a && _). Qed.

Lemma landed_snoc k w ops o : landed wk k w (ops ++ [o]) =
  landed wk k w ops + (if opened k w ops || (touches k o && (wk (op_time o) =? w)) then tokens_for k o else 0).
Proof.
  unfold landed. rewrite since_snoc. fold (settled_for k (since wk k w ops)).
  destruct (opened k w ops) eqn:E; cbn [orb].
  - change (settled_for k (since wk k w ops ++ [o]) = settled_for k (since wk k w ops) + tokens_for k o).
    apply settled_for_snoc.
  - rewrite (since_unopened k w ops E). destruct (touches k o && _).
    + change (settled_for k [o] = 0 + tokens_for k o). rewrite settled_for_cons. change (settled_for k []) with 0. lia.
    + done.
Qed.

Lemma latest_snoc k ops o w : latest wk k (ops ++ [o]) w =
  if touches k o then Z.max (latest wk k ops w) (wk (op_time o)) else latest wk k ops w.
Proof. revert w. induction ops as [|a ops IH]; intros w; cbn; [done|apply IH]. Qed.

(** Only settlements count, and each in the window it is stamped with or a
    later one. *)
Lemma used_landed k w ops : used wk w k (settlements ops) <= landed wk k w ops.
Proof.
  induction ops as [|o ops IH]; [done|]. unfold landed. cbn [since].
  assert (used wk w k (settlements (o :: ops)) <= settled_for k (o :: ops)) as Hall.
  { clear IH. induction (o :: ops) as [|a l IH]; [done|]. rewrite settled_for_cons.
    destruct a as [e|]; cbn; [|done]. rewrite used_cons. destruct (counts k e) eqn:Ec; cbn; [|exact IH].
    unfold counts in Ec. to_prop. unfold settlements in IH. case_match; lia. }
  destruct (touches k o && _) eqn:E; [exact Hall|].
  destruct o as [e|]; cbn in *; [|exact IH]. rewrite used_cons, E. exact IH.
Qed.

(** In stamp order (of their windows), nothing lands late. *)
Lemma landed_used k w ops : StronglySorted (fun a b => wk (op_time a) <= wk (op_time b)) ops ->
  Forall (fun o => touches k o = true -> wk (op_time o) <= w) ops ->
  landed wk k w ops = used wk w k (settlements ops).
Proof.
  induction 1 as [|o ops Hso IH Ho]; intros Hw; [done|]. apply Forall_cons in Hw as [Hwo Hw].
  unfold landed. cbn [since]. destruct (touches k o && _) eqn:E.
  - to_prop. fold (settled_for k (o :: ops)). clear IH Hso.
    assert (Forall (fun a => touches k a = true -> wk (op_time a) = w) (o :: ops)) as Hall.
    { constructor; [done|]. rewrite Forall_forall in Ho, Hw |- *. intros a Ha Ht. specialize (Ho a Ha). specialize (Hw a Ha Ht). lia. }
    clear -Hall. induction (o :: ops) as [|a l IH]; [done|]. apply Forall_cons in Hall as [Ha Hall].
    rewrite settled_for_cons, (IH Hall). destruct a as [e|]; cbn; [|done]. rewrite used_cons.
    destruct (counts k e) eqn:Ec; cbn; [|done]. specialize (Ha Ec). cbn in Ha. rewrite Ha, Z.eqb_refl. reflexivity.
  - change (landed wk k w ops = used wk w k (settlements (o :: ops))). rewrite (IH Hw).
    destruct o as [e|]; cbn in *; [|done]. rewrite used_cons, E. done.
Qed.

(** What a window holds after [ops]: the latest opened, and what landed in it. *)
Definition win_holds (k : string) (ops : list quota_op) (st : option (Z * Z)) : Prop :=
  match st with
  | None => forall o, o ∈ ops -> touches k o = false
  | Some (w, v) => opened k w ops = true /\ (forall o, o ∈ ops -> touches k o = true -> wk (op_time o) <= w)
                   /\ v = Z.min MaxInt64 (landed wk k w ops)
  end.

Lemma opened_spec k w ops : opened k w ops = true <-> exists o, o ∈ ops /\ touches k o = true /\ wk (op_time o) = w.
Proof.
  unfold opened. rewrite existsb_exists. setoid_rewrite <- list_elem_of_In. setoid_rewrite andb_true_iff.
  by setoid_rewrite Z.eqb_eq.
Qed.

Lemma landed_nonneg k w ops : 0 <= landed wk k w ops.
Proof. apply settled_for_nonneg. Qed.

(** The rolled window. *)
Lemma win_roll k ops st now : win_holds k ops st ->
  roll st (wk now) = (latest wk k ops (wk now), Z.min MaxInt64 (landed wk k (latest wk k ops (wk now)) ops)).
Proof.
  assert (forall w l, Forall (fun o => touches k o = true -> wk (op_time o) <= w) l -> latest wk k l w = w) as Hskip.
  { intros w l. induction 1 as [|o l Ho Hl IH]; cbn; [done|]. destruct (touches k o); [|done].
    rewrite Z.max_l by (by apply Ho). done. }
  assert (forall w l h, h <= w -> opened k w l = true ->
    Forall (fun o => touches k o = true -> wk (op_time o) <= w) l -> latest wk k l h = w) as Hreach.
  { intros w l. induction l as [|o l IH]; intros h Hh Hop Hl; [done|]. apply Forall_cons in Hl as [Ho Hl].
    rewrite opened_cons in Hop. cbn in *. destruct (touches k o); cbn in *; [|by apply IH]. specialize (Ho eq_refl).
    destruct (Z.eqb_spec (wk (op_time o)) w) as [->|]; cbn in *; [rewrite Z.max_r by done; by apply Hskip|apply IH; done || lia]. }
  assert (forall w, opened k w ops = false -> Z.min MaxInt64 (landed wk k w ops) = 0) as Hzero.
  { intros w Hw. unfold landed. by rewrite since_unopened. }
  destruct st as [[w v]|]; cbn.
  - intros (Hop & Hle & ->). apply Forall_forall in Hle. destruct (Z.ltb_spec w (wk now)) as [Hlt|Hge].
    + assert (opened k (wk now) ops = false) as Hno.
      { apply not_true_iff_false. rewrite opened_spec. intros (o & Ho & Ht & E).
        rewrite Forall_forall in Hle. specialize (Hle o Ho Ht). lia. }
      rewrite Hskip; [by rewrite Hzero|]. eapply Forall_impl; [exact Hle|]. cbn. intros o Ho Ht. specialize (Ho Ht). lia.
    + by rewrite (Hreach w).
  - intros Hno. rewrite Hskip by (apply Forall_forall; intros o Ho Ht; by rewrite Hno in Ht).
    rewrite Hzero; [done|]. apply not_true_iff_false. rewrite opened_spec. intros (o & Ho & Ht & _). by rewrite Hno in Ht.
Qed.

(** An operation that touches the key. *)
Lemma win_touch k ops st o : win_holds k ops st -> touches k o = true -> tokens_for k o <= MaxInt64 ->
  let '(w, v) := roll st (wk (op_time o)) in win_holds k (ops ++ [o]) (Some (w, Z.min MaxInt64 (v + tokens_for k o))).
Proof.
  intros Hst Ht Hmax. rewrite (win_roll _ _ _ _ Hst). set (h := wk (op_time o)). set (w := latest wk k ops h).
  assert (h <= w /\ (forall a, a ∈ ops -> touches k a = true -> wk (op_time a) <= w)
    /\ (opened k w ops = true \/ w = h)) as (Hhw & Hle & Hop).
  { subst w. clear -h. generalize h. induction ops as [|a ops IH]; intros w; cbn.
    - split_and!; [lia|by intros ? ?%elem_of_nil|by right].
    - rewrite opened_cons. destruct (touches k a) eqn:E; cbn; destruct (IH (if touches k a then Z.max w (wk (op_time a)) else w)) as (H1 & H2 & H3);
        rewrite E in *.
      + split_and!; [lia| |].
        * intros x [->|Hx]%elem_of_cons Hxt; [lia|auto].
        * destruct H3 as [->|H3]; [left; by rewrite orb_true_r|]. rewrite H3.
          destruct (Z.max_spec w (wk (op_time a))) as [[_ ->]|[_ ->]]; [left; by rewrite Z.eqb_refl|by right].
      + split_and!; [done| |done]. intros x [->|Hx]%elem_of_cons Hxt; [congruence|auto]. }
  cbn. split_and!.
  - unfold opened. rewrite existsb_app. fold (opened k w ops). apply orb_true_iff. destruct Hop as [->|E]; [by left|right].
    cbn. rewrite Ht. fold h. rewrite E, Z.eqb_refl. done.
  - intros a [Ha| ->%list_elem_of_singleton]%elem_of_app; [by apply Hle|done].
  - rewrite landed_snoc, Ht. fold h. pose proof (landed_nonneg k w ops). pose proof (tokens_for_nonneg k o).
    assert (0 < MaxInt64) by done. destruct Hop as [->|E]; [|rewrite E, Z.eqb_refl, orb_true_r]; cbn [orb andb]; lia.
Qed.

Lemma win_untouched k ops st o : win_holds k ops st -> touches k o = false -> win_holds k (ops ++ [o]) st.
Proof.
  intros Hst Ht. destruct st as [[w v]|]; cbn in *.
  - destruct Hst as (Hop & Hle & ->). rewrite landed_snoc, (tokens_untouched _ _ Ht). split_and!.
    + unfold opened. rewrite existsb_app. fold (opened k w ops). by rewrite Hop.
    + intros a [Ha| ->%list_elem_of_singleton]%elem_of_app; [by apply Hle|congruence].
    + case_match; lia.
  - intros a [Ha| ->%list_elem_of_singleton]%elem_of_app; [by apply Hst|done].
Qed.
End Windows.

Lemma hourKey_mono t u : t <= u -> hourKey t <= hourKey u.
Proof.
  intros H. unfold hourKey. rewrite !Z.rem_eq by lia.
  assert (Unix t <= Unix u) as Hu by (unfold Unix; pose proof (Z.div_le_mono t u Second); unfold Second in *; lia).
  pose proof (Z.quot_le_mono (Unix t) (Unix u) 3600). lia.
Qed.
Lemma dayKey_mono t u : t <= u -> dayKey t <= dayKey u.
Proof.
  intros H. unfold dayKey. rewrite !Z.rem_eq by lia.
  assert (Unix t <= Unix u) as Hu by (unfold Unix; pose proof (Z.div_le_mono t u Second); unfold Second in *; lia).
  pose proof (Z.quot_le_mono (Unix t) (Unix u) 86400). lia.
Qed.

(** Both windows of a key after any operations. *)
Lemma run_ops_holds k ops : Forall (fun e => e_tokens e <= MaxInt64) (settlements ops) ->
  let q := run_ops NewQuota ops in
  win_holds hourKey k ops (hour_of <$> states q !! k) /\ win_holds dayKey k ops (day_of <$> states q !! k).
Proof.
  induction ops as [|o ops IH] using rev_ind; intros Hmax.
  { cbn. rewrite lookup_empty. split; by intros ? ?%elem_of_nil. }
  unfold settlements in Hmax. rewrite omap_app in Hmax. apply Forall_app in Hmax as [Hmax Ho].
  specialize (IH Hmax) as [Hh Hd]. unfold run_ops. cbn zeta. rewrite fold_left_app. cbn [fold_left]. fold (run_ops NewQuota ops).
  set (q := run_ops NewQuota ops) in *.
  assert (tokens_for k o <= MaxInt64) as Htok.
  { destruct o as [e|]; cbn in *; [|done]. apply Forall_cons in Ho as [Ho _]. by destruct (counts k e). }
  destruct (touches k o) eqn:Ht.
  - pose proof (win_touch hourKey k ops _ o Hh Ht Htok) as H1. pose proof (win_touch dayKey k ops _ o Hd Ht Htok) as H2.
    destruct (stateFor_roll q k (op_time o)) as [Er Ed]. rewrite <- Er in H1. rewrite <- Ed in H2.
    assert (exists st, states (run_op q o) !! k = Some st /\ hourKey_ st = hourKey_ (stateFor q k (op_time o)) /\
      dayKey_ st = dayKey_ (stateFor q k (op_time o)) /\
      hour st = Z.min MaxInt64 (hour (stateFor q k (op_time o)) + tokens_for k o) /\
      day st = Z.min MaxInt64 (day (stateFor q k (op_time o)) + tokens_for k o)) as (st & -> & E1 & E2 & E3 & E4).
    { assert (0 <= hour (stateFor q k (op_time o)) <= MaxInt64 /\ 0 <= day (stateFor q k (op_time o)) <= MaxInt64) as [Hr1 Hr2].
      { rewrite (win_roll hourKey _ _ _ _ Hh) in Er. rewrite (win_roll dayKey _ _ _ _ Hd) in Ed.
        unfold hour_of in Er. unfold day_of in Ed. injection Er as _ ->. injection Ed as _ ->.
        pose proof (landed_nonneg hourKey k (latest hourKey k ops (hourKey (op_time o))) ops).
        pose proof (landed_nonneg dayKey k (latest dayKey k ops (dayKey (op_time o))) ops). assert (0 < MaxInt64) by done. lia. }
      destruct o as [e|k' limits res t]; cbn in *.
      - unfold counts in *. to_prop. subst k. unfold Settle. rewrite (proj2 (Z.leb_gt _ _)) by done. cbn.
        rewrite lookup_insert_eq. eexists. split; [done|]. cbn. rewrite String.eqb_refl in *.
        rewrite (proj2 (Z.ltb_lt _ _)) in * by done. cbn in *. by rewrite !satAdd_min by lia.
      - apply andb_true_iff in Ht as [->%String.eqb_eq Hu%negb_true_iff]. unfold Admit. fold (unlimited limits). rewrite Hu. exists (stateFor q k t).
        rewrite !Z.add_0_r, !Z.min_r by lia. split; [|done]. by repeat case_match; cbn; rewrite lookup_insert_eq. }
    cbn. unfold hour_of, day_of in *. cbn in *. by rewrite E1, E2, E3, E4.
  - assert (states (run_op q o) !! k = states q !! k) as ->; [|by split; apply win_untouched].
    destruct o as [e|k' limits res t]; cbn in *.
    + unfold Settle. destruct (Z.leb_spec (e_tokens e) 0); [done|]. unfold counts in Ht. cbn.
      apply andb_false_iff in Ht as [Ht|Ht]; to_prop; [|lia]. by rewrite lookup_insert_ne.
    + unfold Admit. fold (unlimited limits). destruct (unlimited limits) eqn:El; [done|].
      rewrite andb_true_r in Ht. to_prop. by repeat case_match; cbn; rewrite lookup_insert_ne.
Qed.

(** The state a request is judged by. *)
Lemma stateFor_ops k ops now : Forall (fun e => e_tokens e <= MaxInt64) (settlements ops) ->
  let H := latest hourKey k ops (hourKey now) in let D := latest dayKey k ops (dayKey now) in
  stateFor (run_ops NewQuota ops) k now =
  mkKeyQuota H (Z.min MaxInt64 (landed hourKey k H ops)) D (Z.min MaxInt64 (landed dayKey k D ops)).
Proof.
  intros Hmax. destruct (run_ops_holds k ops Hmax) as [Hh Hd].
  destruct (stateFor_roll (run_ops NewQuota ops) k now) as [Eh Ed].
  rewrite (win_roll hourKey _ _ _ _ Hh) in Eh. rewrite (win_roll dayKey _ _ _ _ Hd) in Ed. cbn zeta.
  destruct (stateFor _ _ _) as [a b c d]. injection Eh as -> ->. by injection Ed as -> ->.
Qed.

(** Asked no earlier than every stamp, the current window is the latest. *)
Lemma latest_now wk k ops now : (forall t u, t <= u -> wk t <= wk u) -> Forall (fun o => op_time o <= now) ops ->
  latest wk k ops (wk now) = wk now.
Proof.
  intros Hmono. induction 1 as [|o ops Ho Hops IH]; cbn; [done|].
  destruct (touches k o); [|done]. by rewrite Z.max_l by (by apply Hmono).
Qed.

(** ** Admission *)

(** The verdict of [Admit] is a comparison with the rolled state. *)
Lemma Admit_verdict q k limits res now : 0 <= res <= MaxInt64 ->
  in_int64 (TokensPerHour limits) -> in_int64 (TokensPerDay limits) ->
  0 <= hour (stateFor q k now) -> 0 <= day (stateFor q k now) ->
  ((Admit q k limits res now).2 = None <->
   (0 < TokensPerHour limits -> hour (stateFor q k now) + res <= TokensPerHour limits) /\
   (0 < TokensPerDay limits -> day (stateFor q k now) + res <= TokensPerDay limits)).
Proof.
  intros Hres Hh Hd Hh0 Hd0. unfold Admit. destruct (_ && _) eqn:E; to_prop; [cbn; split; [lia|done]|].
  assert (forall l x, 0 < l -> in_int64 l -> 0 <= x ->
    (l <? res) || (wrap64 (l - res) <? x) = false <-> x + res <= l) as Hcmp.
  { intros l x Hl Hi Hx. rewrite wrap64_id by (int64_unfold; lia). rewrite orb_false_iff, !Z.ltb_ge.
    int64_unfold. lia. }
  assert (forall l x, in_int64 l -> 0 <= x ->
    (0 <? l) && ((l <? res) || (wrap64 (l - res) <? x)) = false <-> (0 < l -> x + res <= l)) as Hlim.
  { intros l x Hi Hx. destruct (Z.ltb_spec 0 l); cbn; [rewrite Hcmp by done; tauto|split; [lia|done]]. }
  pose proof (Hlim _ (hour (stateFor q k now)) Hh Hh0) as Hlh. pose proof (Hlim _ (day (stateFor q k now)) Hd Hd0) as Hld.
  destruct (_ && _) eqn:E1; cbn [snd].
  - split; [done|]. intros [H _]. by apply Hlh in H.
  - destruct ((0 <? TokensPerDay limits) && _) eqn:E2; cbn [snd]; [|tauto].
    split; [done|]. intros [_ H]. by apply Hld in H.
Qed.

(** Stamps in order, up to concurrent requests within one window. *)
Definition in_order (ops : list quota_op) : Prop :=
  StronglySorted (fun a b => hourKey (op_time a) <= hourKey (op_time b)) ops /\
  StronglySorted (fun a b => dayKey (op_time a) <= dayKey (op_time b)) ops.

Lemma landed_in_order k ops now : in_order ops -> Forall (fun o => op_time o <= now) ops ->
  landed hourKey k (hourKey now) ops = used hourKey (hourKey now) k (settlements ops) /\
  landed dayKey k (dayKey now) ops = used dayKey (dayKey now) k (settlements ops).
Proof.
  intros [Hh Hd] Hnow. split; apply landed_used; try done; (eapply Forall_impl; [exact Hnow|]); cbn; intros o Ho _.
  - by apply hourKey_mono.
  - by apply dayKey_mono.
Qed.

(** Within the budget: what counts in the hour [h] and the day [d], plus the
    reservation, is within each configured limit (0 being none). *)
Definition fits (limits : WindowLimit) (h d res : Z) : Prop :=
  (0 < TokensPerHour limits -> Z.min MaxInt64 h + res <= TokensPerHour limits) /\
  (0 < TokensPerDay limits -> Z.min MaxInt64 d + res <= TokensPerDay limits).

(** The verdict depends on the key's rolled state only. *)
Lemma Admit_same q q' k limits res now : stateFor q k now = stateFor q' k now ->
  (Admit q k limits res now).2 = (Admit q' k limits res now).2.
Proof. intros E. unfold Admit. rewrite E. by repeat case_match. Qed.

(** Storing the state a key is asked with changes no later answer. *)
Lemma Admit_state q k limits res now k' now' : now <= now' \/ k' <> k ->
  stateFor (Admit q k limits res now).1 k' now' = stateFor q k' now'.
Proof.
  intros Hor. unfold Admit. destruct (_ && _); [done|].
  assert (stateFor (store_state q k (stateFor q k now)) k' now' = stateFor q k' now') as Hs; [|by repeat case_match].
  unfold stateFor at 1. cbn. destruct (decide (k = k')) as [<-|Hne]; [|by rewrite lookup_insert_ne].
  destruct Hor as [Hle|]; [|done]. rewrite lookup_insert_eq. pose proof (hourKey_mono _ _ Hle). pose proof (dayKey_mono _ _ Hle).
  unfold stateFor. destruct (states q !! k) as [[a b c d]|]; cbn.
  - destruct (Z.ltb_spec a (hourKey now)); destruct (Z.ltb_spec c (dayKey now)); cbn;
      destruct (Z.ltb_spec a (hourKey now')); destruct (Z.ltb_spec c (dayKey now')); cbn; try lia;
      repeat case_match; to_prop; cbn in *; try lia; try done; f_equal; lia.
  - repeat case_match; to_prop; cbn in *; try lia; try done; f_equal; lia.
Qed.


(** ** Replay *)

(** The settlement a record stands for. *)
Definition charged (r : Record_) : Z :=
  if rec_ChargedTokens r =? 0 then rec_TotalTokens r else rec_ChargedTokens r.
Definition event_of (r : Record_) : event := mkEvent (rec_KeyID r) (charged r) (rec_Time r).

(** What replaying a list of records at [now] leaves for a key. *)
Definition replayed (now : time) (k : string) (evs : list event) (st : option keyQuota) : Prop :=
  match st with
  | None => forall e, e ∈ evs -> counts k e = false
  | Some st => st = mkKeyQuota (hourKey now) (Z.min MaxInt64 (used hourKey (hourKey now) k evs))
                               (dayKey now) (Z.min MaxInt64 (used dayKey (dayKey now) k evs))
  end.

Lemma replayed_stateFor q now k evs : replayed now k evs (states q !! k) ->
  stateFor q k now = mkKeyQuota (hourKey now) (Z.min MaxInt64 (used hourKey (hourKey now) k evs))
                                (dayKey now) (Z.min MaxInt64 (used dayKey (dayKey now) k evs)).
Proof.
  unfold stateFor. destruct (states q !! k) as [st|]; cbn.
  - intros ->. cbn. by rewrite !Z.ltb_irrefl.
  - intros H. rewrite !used_zero; [done|intros e He Hc; by rewrite (H e He) in Hc..].
Qed.

Lemma replayLine_record q now line r k evs : unmarshal_record line = Some r -> rec_KeyID r <> "" ->
  charged r <= MaxInt64 -> (forall k, replayed now k evs (states q !! k)) ->
  replayed now k (evs ++ [event_of r]) (states (replayLine q now line) !! k).
Proof.
  intros Hr Hne Hmax Hq. unfold replayLine. rewrite Hr. fold (charged r).
  rewrite (proj2 (String.eqb_neq _ _) Hne). cbn [orb].
  assert (counts k (event_of r) = false -> replayed now k (evs ++ [event_of r]) (states q !! k)) as Hother.
  { intros Hc. specialize (Hq k). destruct (states q !! k) as [st|]; cbn in *.
    - rewrite !used_app, !used_one, Hc. cbn. by rewrite !Z.add_0_r.
    - intros e [He| ->%list_elem_of_singleton]%elem_of_app; auto. }
  destruct (Z.leb_spec (charged r) 0) as [Hz|Hz].
  { apply Hother. unfold counts; cbn. destruct (Z.ltb_spec 0 (charged r)); [lia|by rewrite andb_false_r]. }
  rewrite (replayed_stateFor q now (rec_KeyID r) evs) by apply Hq. cbn.
  destruct (decide (rec_KeyID r = k)) as [<-|Hk].
  - assert (counts (rec_KeyID r) (event_of r) = true) as Hc.
    { unfold counts; cbn. rewrite String.eqb_refl. by apply Z.ltb_lt. }
    rewrite lookup_insert_eq. cbn. rewrite !used_app, !used_one, Hc. cbn [andb event_of e_time e_tokens].
    pose proof (used_nonneg hourKey (hourKey now) (rec_KeyID r) evs).
    pose proof (used_nonneg dayKey (dayKey now) (rec_KeyID r) evs).
    assert (0 < MaxInt64) by done.
    destruct (hourKey (rec_Time r) =? hourKey now); cbn; destruct (dayKey (rec_Time r) =? dayKey now); cbn;
      rewrite ?satAdd_min by lia; f_equal; lia.
  - rewrite lookup_insert_ne by done. apply Hother. unfold counts; cbn.
    by rewrite (proj2 (String.eqb_neq _ _) Hk).
Qed.

Lemma replay_lines now lines recs q evs :
  Forall2 (fun l r => unmarshal_record l = Some r /\ rec_KeyID r <> "" /\ charged r <= MaxInt64) lines recs ->
  (forall k, replayed now k evs (states q !! k)) ->
  forall k, replayed now k (evs ++ map event_of recs) (states (fold_left (fun q l => replayLine q now l) lines q) !! k).
Proof.
  intros H. revert q evs. induction H as [|l r lines recs (Hl & Hk & Hm) _ IH]; intros q evs Hq k; cbn.
  - rewrite app_nil_r. apply Hq.
  - change (event_of r :: map event_of recs) with ([event_of r] ++ map event_of recs). rewrite app_assoc.
    apply IH. intros k'. by apply replayLine_record.
Qed.

(** What admissions are judged by after a replay. *)
Lemma replay_state lines recs boot k now :
  Forall2 (fun l r => unmarshal_record l = Some r /\ rec_KeyID r <> "" /\ charged r <= MaxInt64) lines recs ->
  Forall (fun r => rec_Time r <= boot) recs -> boot <= now ->
  stateFor (fold_left (fun q l => replayLine q boot l) lines NewQuota) k now =
  mkKeyQuota (hourKey now) (Z.min MaxInt64 (used hourKey (hourKey now) k (map event_of recs)))
             (dayKey now) (Z.min MaxInt64 (used dayKey (dayKey now) k (map event_of recs))).
Proof.
  intros Hlines Hboot Hnow.
  pose proof (replay_lines boot lines recs NewQuota [] Hlines) as Hr. cbn [app] in Hr.
  specialize (Hr (fun k' => ltac:(cbn; rewrite lookup_empty; by intros e ?%elem_of_nil)) k).
  set (evs := map event_of recs) in *. set (q := fold_left _ _ _) in *.
  assert (forall wk st, (forall t u, t <= u -> wk t <= wk u) ->
    match st with None => used wk (wk now) k evs = 0 | Some p => p = (wk boot, Z.min MaxInt64 (used wk (wk boot) k evs)) end ->
    roll st (wk now) = (wk now, Z.min MaxInt64 (used wk (wk now) k evs))) as Hroll.
  { intros wk st Hmono Hst. destruct st as [p|]; [subst p|]; cbn; [|by rewrite Hst].
    destruct (Z.ltb_spec (wk boot) (wk now)) as [Hlt|Hge].
    - rewrite used_zero; [done|]. intros e He _. apply list_elem_of_fmap in He as (r & -> & Hr').
      rewrite Forall_forall in Hboot. specialize (Hmono _ _ (Hboot r Hr')). cbn. lia.
    - specialize (Hmono _ _ Hnow). by assert (wk boot = wk now) as -> by lia. }
  destruct (stateFor_roll q k now) as [Eh Ed].
  rewrite (Hroll hourKey) in Eh; [|apply hourKey_mono|].
  2:{ destruct (states q !! k) as [st|]; cbn in *; [by subst st|]. apply used_zero. intros e He Hc. by rewrite (Hr e He) in Hc. }
  rewrite (Hroll dayKey) in Ed; [|apply dayKey_mono|].
  2:{ destruct (states q !! k) as [st|]; cbn in *; [by subst st|]. apply used_zero. intros e He Hc. by rewrite (Hr e He) in Hc. }
  destruct (stateFor q k now) as [a b c d]. injection Eh as -> ->. by injection Ed as -> ->.
Qed.

Module AccountingDemo.
Definition now : time := (unix_to_internal + 1709206496) * Second.
Definition limits : WindowLimit := mkWindowLimit 100 0.
(** The last settlement was stamped in the hour before and came late. *)
Definition ops : list quota_op :=
  [QSettle (mkEvent "k" 60 (now - Second)); QSettle (mkEvent "j" 500 (now - Second)); QAdmit "k" limits 5 now;
   QSettle (mkEvent "k" 30 (now - 3600 * Second))].
End AccountingDemo.

