(* ===== verification/RecordLog.v ===== *)
(** * The accounting log's text: [json.Marshal] of a record

    The line [writeRecord] appends ([internal/accounting/writer.go]) and what
    the readers of [quota.go] and [report.go] make of a log of such lines, or
    of its last bytes when a replay is bounded. *)

From Stdlib Require Import Ascii.
From Stdlib Require Import Sorting.Sorted.
From S2P Require Import Prelude GoStrings Net Json JsonFacts Accounting.
#[local] Open Scope Z_scope.

(** ** RFC 3339 with nanoseconds, in UTC *)

(** [n] in [k] decimal digits. *)
Fixpoint pad (k : nat) (n : Z) : string :=
  match k with
  | O => ""
  | S k => pad k (n / 10) +:+ String (byte (48 + n mod 10)) ""
  end.

(** The digits of a fraction of [k] digits without its trailing zeros. *)
Fixpoint frac (k : nat) (n : Z) : string :=
  match k with
  | O => ""
  | S k => if n mod 10 =? 0 then frac k (n / 10) else pad (S k) n
  end.

(** Year and day of the year, from 0, of a day counted from 1 January of
    year 1. *)
Definition year_day (d : Z) : Z * Z :=
  let n400 := d / 146097 in let d := d mod 146097 in
  let n100 := Z.min 3 (d / 36524) in let d := d - 36524 * n100 in
  let n4 := d / 1461 in let d := d mod 1461 in
  let n1 := Z.min 3 (d / 365) in let d := d - 365 * n1 in
  (400 * n400 + 100 * n100 + 4 * n4 + n1 + 1, d).

(** Month and day of the month: the last month that begins by that day. *)
Fixpoint month_day (fuel : nat) (y m yd : Z) : Z * Z :=
  match fuel with
  | O => (m, yd + 1)
  | S fuel => if yd <? days_in y m then (m, yd + 1) else month_day fuel y (m + 1) (yd - days_in y m)
  end.

(** [Time.MarshalJSON] refuses a year outside four digits. *)
Definition format_rfc3339 (t : time) : option string :=
  let secs := t / Second in let ns := t mod Second in
  let day := secs / 86400 in let s := secs mod 86400 in
  let '(y, yd) := year_day day in
  let '(mo, d) := month_day 11 y 1 yd in
  if (0 <=? y) && (y <=? 9999) then
    Some (pad 4 y +:+ "-" +:+ pad 2 mo +:+ "-" +:+ pad 2 d +:+ "T" +:+ pad 2 (s / 3600) +:+ ":" +:+ pad 2 (s / 60 mod 60) +:+
          ":" +:+ pad 2 (s mod 60) +:+ (if ns =? 0 then "" else "." +:+ frac 9 ns) +:+ "Z")
  else None.

(** The members in the order of the struct. *)
Definition record_tree (ts : string) (r : Record_) : json :=
  JObj [("time", JStr ts); ("request_id", marshal_string (rec_RequestID r)); ("key_id", marshal_string (rec_KeyID r));
        ("model", marshal_string (rec_Model r)); ("backend", marshal_string (rec_Backend r));
        ("endpoint", marshal_string (rec_Endpoint r)); ("status", marshal_int (rec_Status r));
        ("duration_ms", marshal_int (rec_DurationMS r)); ("input_tokens", marshal_int (rec_InputTokens r));
        ("output_tokens", marshal_int (rec_OutputTokens r)); ("total_tokens", marshal_int (rec_TotalTokens r));
        ("cached_tokens", marshal_int (rec_CachedTokens r)); ("reasoning_tokens", marshal_int (rec_ReasoningTokens r));
        ("usage_status", marshal_string (rec_UsageStatus r)); ("retries", marshal_int (rec_Retries r));
        ("charged_tokens", marshal_int (rec_ChargedTokens r))].

(** The bytes of a line without its newline; [None] is a marshalling error. *)
(* src: internal/accounting/record.go 29-53 Record *)
Definition marshal_record (r : Record_) : option string :=
  option_map (fun ts => print (record_tree ts r)) (format_rfc3339 (rec_Time r)).

Example format_rfc3339_ex :
  map format_rfc3339 [zero_time; (unix_to_internal + 1709206496) * Second + 120000000; (unix_to_internal + 4107542399) * Second + 1]
  = [Some "0001-01-01T00:00:00Z"; Some "2024-02-29T11:34:56.12Z"; Some "2100-02-28T23:59:59.000000001Z"].
Proof. vm_compute. reflexivity. Qed.

(** ** Reading a date back *)

Lemma pad_length k n : String.length (pad k n) = k.
Proof. revert n. induction k as [|k IH]; intros n; [done|]. cbn [pad]. rewrite slen_app, IH. cbn. lia. Qed.

Lemma pad_spec k n : 0 <= n < 10 ^ Z.of_nat k -> sforall is_digit (pad k n) = true /\ dec_val (pad k n) 0 = n.
Proof.
  revert n. induction k as [|k IH]; intros n Hn; [cbn in *; split; [done|unfold dec_val; cbn; lia]|].
  replace (Z.of_nat (S k)) with (Z.of_nat k + 1) in Hn by lia. rewrite Z.pow_add_r in Hn by lia.
  destruct (IH (n / 10)) as [Hd Hv]; [Z.to_euclidean_division_equations; lia|].
  destruct (digit_byte (n mod 10)) as [Hb Hbv]; [apply Z.mod_pos_bound; lia|].
  cbn [pad]. rewrite sforall_app, Hd, dec_val_app, Hv. cbn [sforall]. rewrite Hb. split; [done|].
  unfold dec_val. cbn. rewrite Hbv. pose proof (Z.div_mod n 10). lia.
Qed.

Lemma digits_val_pad k n : (0 < k)%nat -> 0 <= n < 10 ^ Z.of_nat k -> digits_val (pad k n) = Some n.
Proof.
  intros Hk Hn. unfold digits_val. destruct (pad_spec k n Hn) as [-> Hv]. fold (dec_val (pad k n) 0). rewrite Hv.
  pose proof (pad_length k n). by destruct (pad k n); [cbn in *; lia|].
Qed.

Lemma take_num_pad k lo hi n s : (0 < k)%nat -> 0 <= n < 10 ^ Z.of_nat k -> lo <= n <= hi ->
  take_num k lo hi (pad k n +:+ s) = Some (n, s).
Proof.
  intros Hk Hn Hb. unfold take_num. rewrite slen_app, pad_length.
  destruct (Nat.ltb_spec (k + String.length s) k) as [Hlt|_]; [lia|].
  pose proof (stake_app (pad k n) s) as Ht. pose proof (sdrop_app (pad k n) s) as Hd. rewrite pad_length in Ht, Hd.
  rewrite Ht, Hd, digits_val_pad by done. rewrite (proj2 (Z.leb_le _ _)), (proj2 (Z.leb_le _ _)) by lia. done.
Qed.

Lemma frac_spec k n : 0 <= n < 10 ^ Z.of_nat k ->
  exists j m, frac k n = pad j m /\ (j <= k)%nat /\ 0 <= m < 10 ^ Z.of_nat j /\ n = m * 10 ^ Z.of_nat (k - j).
Proof.
  revert n. induction k as [|k IH]; intros n Hn; [exists 0%nat, 0; cbn in *; split_and!; try done; lia|].
  cbn [frac]. destruct (Z.eqb_spec (n mod 10) 0) as [E|E].
  - replace (Z.of_nat (S k)) with (Z.of_nat k + 1) in Hn by lia. rewrite Z.pow_add_r in Hn by lia.
    destruct (IH (n / 10)) as (j & m & -> & Hj & Hm & Hnm); [Z.to_euclidean_division_equations; lia|].
    exists j, m. split; [done|]. split; [lia|]. split; [done|]. replace (Z.of_nat (S k - j)) with (Z.of_nat (k - j) + 1) by lia.
    rewrite Z.pow_add_r by lia. pose proof (Z.div_mod n 10). lia.
  - exists (S k), n. replace (S k - S k)%nat with 0%nat by lia. split; [done|]. split; [lia|]. split; [done|]. cbn. lia.
Qed.

Lemma scan_nanos_frac n : 0 <= n < Second -> scan_nanos ((if n =? 0 then "" else "." +:+ frac 9 n) +:+ "Z") = (n, "Z").
Proof.
  intros Hn. destruct (Z.eqb_spec n 0) as [->|Hne]; [done|].
  destruct (frac_spec 9 n Hn) as (j & m & -> & Hj & Hm & Hnm).
  destruct j as [|j]; [cbn in Hm; lia|]. cbn [String.append scan_nanos]. change (Ascii.eqb "." ".") with true. cbn iota.
  rewrite (span_digits_prefix (pad (S j) m) (pad (S j) m) "" "Z").
  - pose proof (pad_length (S j) m) as Hl. destruct (pad (S j) m) as [|c r] eqn:E; [done|]. rewrite <- E in *.
    rewrite stake_all by (rewrite Hl; lia).
    rewrite digits_val_pad by (done || lia). cbn [default]. unfold slen. rewrite Hl. f_equal. rewrite Hnm. do 2 f_equal. lia.
  - apply span_digits_all. by apply pad_spec.
  - intros c r [= <- <-]. done.
Qed.

(** The calendar: a year's months sum to its days. *)
Definition month_days (leap : bool) : list Z := [31; if leap then 29 else 28; 31; 30; 31; 30; 31; 31; 30; 31; 30; 31].

Lemma days_in_leap y m : (1 <= m <= 12)%nat -> nth (m - 1) (month_days (is_leap y)) 0 = days_in y (Z.of_nat m).
Proof.
  intros Hm. unfold days_in. destruct (is_leap y); do 13 (destruct m as [|m]; [try lia; try reflexivity|]); lia.
Qed.

(** Days before a month and the month of a day, given whether the year is leap. *)
Fixpoint month_day_of (fuel : nat) (ds : list Z) (m yd : Z) : Z * Z :=
  match fuel, ds with
  | S fuel, n :: ds => if yd <? n then (m, yd + 1) else month_day_of fuel ds (m + 1) (yd - n)
  | _, _ => (m, yd + 1)
  end.

Lemma month_day_list y k m yd : (k + m = 12)%nat -> (1 <= m)%nat ->
  month_day k y (Z.of_nat m) yd = month_day_of k (skipn (m - 1) (month_days (is_leap y))) (Z.of_nat m) yd.
Proof.
  revert m yd. induction k as [|k IH]; intros m yd Hk Hm; [done|].
  assert (exists ds, skipn (m - 1) (month_days (is_leap y)) = days_in y (Z.of_nat m) :: ds /\ ds = skipn (S m - 1) (month_days (is_leap y)))
    as (ds & -> & Eds).
  { rewrite <- days_in_leap by lia. exists (skipn (S m - 1) (month_days (is_leap y))). split; [|done].
    destruct m as [|m]; [lia|]. replace (S (S m) - 1)%nat with (S m) by lia. replace (S m - 1)%nat with m by lia.
    destruct (nth_error (month_days (is_leap y)) m) as [z|] eqn:E.
    - rewrite (nth_error_nth _ _ 0 E). clear -E. revert m E. generalize (month_days (is_leap y)) as l.
      induction l as [|a l IH]; intros [|m] E; try done; [by injection E as ->|]. cbn [skipn]. rewrite (IH m) by done. done.
    - apply nth_error_None in E. destruct (is_leap y); cbn in E; lia. }
  cbn [month_day month_day_of]. destruct (yd <? _); [done|]. subst ds.
  replace (Z.of_nat m + 1) with (Z.of_nat (S m)) by lia. apply IH; lia.
Qed.

Definition before_of (ds : list Z) (m : Z) : Z := zsum (firstn (Z.to_nat (m - 1)) ds).

Definition month_ok (leap : bool) (yd : Z) : bool :=
  let '(m, d) := month_day_of 11 (month_days leap) 1 yd in
  (1 <=? m) && (m <=? 12) && (1 <=? d) && (d <=? nth (Z.to_nat (m - 1)) (month_days leap) 0) &&
  (before_of (month_days leap) m + (d - 1) =? yd).

Lemma month_ok_all (leap : bool) (yd : Z) : 0 <= yd < (if leap then 366 else 365) -> month_ok leap yd = true.
Proof.
  intros Hyd.
  assert (forallb (fun k => month_ok leap (Z.of_nat k)) (seq 0 (if leap then 366 else 365)%nat) = true) as Hall
    by (destruct leap; vm_compute; reflexivity).
  rewrite forallb_forall in Hall. rewrite <- (Z2Nat.id yd) by lia. apply Hall, in_seq. destruct leap; lia.
Qed.

Lemma month_day_spec y yd : 0 <= yd < (if is_leap y then 366 else 365) ->
  let '(m, d) := month_day 11 y 1 yd in 1 <= m <= 12 /\ 1 <= d <= days_in y m /\ days_before_month y m + (d - 1) = yd.
Proof.
  intros Hyd. change 1 with (Z.of_nat 1) at 1. rewrite month_day_list by lia. apply month_ok_all in Hyd. unfold month_ok in Hyd.
  change (Z.of_nat 1) with 1. change (drop (1 - 1) (month_days (is_leap y))) with (month_days (is_leap y)).
  destruct (month_day_of 11 (month_days (is_leap y)) 1 yd) as [m d]. to_prop.
  assert (days_in y m = nth (Z.to_nat (m - 1)) (month_days (is_leap y)) 0) as Ed.
  { rewrite <- (Z2Nat.id m) at 1 by lia. rewrite <- days_in_leap by lia. do 2 f_equal. lia. }
  rewrite Ed. split; [lia|]. split; [lia|]. unfold days_before_month, before_of in *.
  replace (map _ _) with (firstn (Z.to_nat (m - 1)) (month_days (is_leap y))); [lia|].
  assert (exists k, Z.to_nat (m - 1) = k /\ (k <= 11)%nat) as (k & -> & Hk) by (eexists; split; [done|lia]). clear -Hk.
  transitivity (map (fun j => nth (j - 1) (month_days (is_leap y)) 0) (seq 1 k)).
  - destruct (is_leap y); do 12 (destruct k as [|k]; [reflexivity|]); lia.
  - apply map_ext_in. intros j Hj%in_seq. apply days_in_leap. lia.
Qed.

Lemma year_day_spec day : let '(y, yd) := year_day day in
  0 <= yd < (if is_leap y then 366 else 365) /\ 365 * (y - 1) + (y - 1) / 4 - (y - 1) / 100 + (y - 1) / 400 + yd = day.
Proof.
  unfold year_day. set (a := day / 146097). set (d1 := day mod 146097). set (b := Z.min 3 (d1 / 36524)).
  set (d2 := d1 - 36524 * b). set (c := d2 / 1461). set (d3 := d2 mod 1461). set (e := Z.min 3 (d3 / 365)).
  assert (day = 146097 * a + d1 /\ 0 <= d1 < 146097) as [Ea Ha] by (subst a d1; Z.to_euclidean_division_equations; lia).
  assert (0 <= b <= 3 /\ 0 <= d2 < 36525 /\ (d2 = 36524 -> b = 3)) as (Hb & Hd2 & Hb3)
    by (subst b d2; clearbody d1; Z.to_euclidean_division_equations; lia).
  assert (d2 = 1461 * c + d3 /\ 0 <= d3 < 1461 /\ 0 <= c <= 24 /\ (c = 24 -> d3 < 1460 \/ b = 3)) as (Ec & Hd3 & Hc & Hc24).
  { subst c d3. clearbody b d1. assert (d2 = d1 - 36524 * b) as Ed by reflexivity. clearbody d2.
    Z.to_euclidean_division_equations; lia. }
  assert (0 <= e <= 3 /\ 0 <= d3 - 365 * e <= 365 /\ (d3 - 365 * e = 365 -> e = 3 /\ d3 = 1460)) as (He & Hyd & H365)
    by (subst e; clearbody d3; Z.to_euclidean_division_equations; lia).
  assert (d1 = 36524 * b + d2) as Eb by lia. clearbody a b c e d1 d2 d3.
  replace (400 * a + 100 * b + 4 * c + e + 1 - 1) with (400 * a + 100 * b + 4 * c + e) by lia.
  assert ((400 * a + 100 * b + 4 * c + e) / 4 = 100 * a + 25 * b + c) as -> by (Z.to_euclidean_division_equations; lia).
  assert ((400 * a + 100 * b + 4 * c + e) / 100 = 4 * a + b) as -> by (Z.to_euclidean_division_equations; lia).
  assert ((400 * a + 100 * b + 4 * c + e) / 400 = a) as -> by (Z.to_euclidean_division_equations; lia).
  split; [|lia]. split; [lia|].
  destruct (Z.eq_dec (d3 - 365 * e) 365) as [E|E]; [|destruct (is_leap _); lia].
  destruct (H365 E) as [-> E1460].
  assert (is_leap (400 * a + 100 * b + 4 * c + 3 + 1) = true) as ->; [|lia].
  unfold is_leap. rewrite !andb_true_iff, orb_true_iff, negb_true_iff, !Z.eqb_eq, Z.eqb_neq.
  split; [replace (_ + 1) with ((100 * a + 25 * b + c + 1) * 4) by lia; apply Z.mod_mul; lia|].
  destruct (Z.eq_dec c 24) as [->|Hne]; [right|left].
  - destruct (Hc24 eq_refl) as [|Hb']; [lia|]. rewrite Hb'.
    replace (_ + 1) with ((a + 1) * 400) by lia. apply Z.mod_mul. lia.
  - replace (_ + 1) with ((4 * c + 4) + (4 * a + b) * 100) by lia. rewrite Z.mod_add, Z.mod_small by lia. lia.
Qed.

Lemma format_parse t s : format_rfc3339 t = Some s -> parse_rfc3339 s = Some t.
Proof.
  unfold format_rfc3339. set (secs := t / Second). set (ns := t mod Second).
  assert (t = secs * Second + ns /\ 0 <= ns < Second) as [Et Hns].
  { subst secs ns. unfold Second. Z.to_euclidean_division_equations; lia. }
  clearbody secs ns. set (day := secs / 86400). set (r := secs mod 86400).
  assert (secs = 86400 * day + r /\ 0 <= r < 86400) as [Es Hr] by (subst day r; Z.to_euclidean_division_equations; lia).
  clearbody day r. pose proof (year_day_spec day) as Hy. destruct (year_day day) as [y yd]. destruct Hy as [Hyd Ey].
  pose proof (month_day_spec y yd Hyd) as Hm. destruct (month_day 11 y 1 yd) as [mo d]. destruct Hm as (Hmo & Hd & Emd).
  destruct (_ && _) eqn:Ery; [|done]. to_prop. intros <-%(inj Some).
  assert (0 <= r / 3600 <= 23 /\ 0 <= r / 60 mod 60 <= 59 /\ 0 <= r mod 60 <= 59 /\
          r = r / 3600 * 3600 + (r / 60 mod 60) * 60 + r mod 60) as (Hh & Hmi & Hs & Er)
    by (Z.to_euclidean_division_equations; lia).
  assert (days_in y mo <= 31) as Hdi by (unfold days_in; repeat case_match; lia).
  unfold parse_rfc3339.
  rewrite take_num_pad by (cbn; lia). cbn [bind expect String.append]. change (Ascii.eqb "-" "-") with true. cbn iota. cbn [bind].
  rewrite take_num_pad by (cbn; lia). cbn [bind expect String.append]. change (Ascii.eqb "-" "-") with true. cbn iota. cbn [bind].
  rewrite take_num_pad by (cbn; lia). cbn [bind expect String.append]. change (Ascii.eqb "T" "T") with true. cbn iota. cbn [bind].
  rewrite take_num_pad by (cbn; lia). cbn [bind expect String.append]. change (Ascii.eqb ":" ":") with true. cbn iota. cbn [bind].
  rewrite take_num_pad by (cbn; lia). cbn [bind expect String.append]. change (Ascii.eqb ":" ":") with true. cbn iota. cbn [bind].
  rewrite take_num_pad by (cbn; lia). cbn [bind].
  change (String "Z"%char "") with "Z".
  rewrite scan_nanos_frac by done. change (scan_zone "Z") with (Some 0). cbn [bind]. f_equal.
  rewrite Et. unfold days_since_year1. f_equal. f_equal. lia.
Qed.

(** ** Reading a record back *)

(** What a Go value of the type satisfies and the program's own records do:
    integers within [int64], strings of valid UTF-8. *)
Definition record_ok (r : Record_) : Prop :=
  Forall (fun s => valid_utf8 s = true)
    [rec_RequestID r; rec_KeyID r; rec_Model r; rec_Backend r; rec_Endpoint r; rec_UsageStatus r] /\
  Forall in_int64 [rec_Status r; rec_DurationMS r; rec_InputTokens r; rec_OutputTokens r; rec_TotalTokens r;
                   rec_CachedTokens r; rec_ReasoningTokens r; rec_Retries r; rec_ChargedTokens r].

Lemma pad_visible k n : 0 <= n < 10 ^ Z.of_nat k -> sforall visible (pad k n) = true.
Proof.
  intros Hn. destruct (pad_spec k n Hn) as [Hd _]. eapply sforall_impl; [|exact Hd].
  intros c Hc%in_range_spec. apply in_range_spec. lia.
Qed.

(** A text of characters that a string literal takes as they are. *)
Definition literal (c : ascii) : bool := visible c && negb (Ascii.eqb c ch_dquote || Ascii.eqb c ch_bslash).
Lemma literal_str_wf s : sforall literal s = true -> str_wf s.
Proof.
  unfold str_wf. induction s as [|c s IH]; [done|]. cbn [sforall]. rewrite andb_true_iff. intros [Hc Hs].
  unfold literal in Hc. rewrite andb_true_iff, negb_true_iff, orb_false_iff in Hc. destruct Hc as (Hv%in_range_spec & Hq & Hb).
  cbn. rewrite Hq, Hb. destruct (Z.ltb_spec (bval c) 32); [lia|]. by rewrite (IH Hs).
Qed.

Lemma pad_literal k n : 0 <= n < 10 ^ Z.of_nat k -> sforall literal (pad k n) = true.
Proof.
  intros Hn. destruct (pad_spec k n Hn) as [Hd _]. eapply sforall_impl; [|exact Hd]. clear.
  intros c Hc. destruct c as [[] [] [] [] [] [] [] []]; try done.
Qed.

Lemma frac_literal n : 0 <= n < Second -> sforall literal (frac 9 n) = true.
Proof. intros Hn. destruct (frac_spec 9 n Hn) as (j & m & -> & _ & Hm & _). by apply pad_literal. Qed.

Lemma format_wf t s : format_rfc3339 t = Some s -> str_wf s.
Proof.
  intros Hs. apply literal_str_wf. revert Hs. unfold format_rfc3339.
  pose proof (year_day_spec (t / Second / 86400)) as Hy. destruct (year_day _) as [y yd]. destruct Hy as [Hyd _].
  pose proof (month_day_spec y yd Hyd) as Hm. destruct (month_day 11 y 1 yd) as [mo d]. destruct Hm as (Hmo & Hd & _).
  assert (days_in y mo <= 31) as Hdi by (unfold days_in; repeat case_match; lia).
  destruct (_ && _) eqn:Ery; [|done]. to_prop. intros <-%(inj Some).
  assert (0 <= t mod Second < Second) as Hns by (apply Z.mod_pos_bound; done).
  set (r := t / Second mod 86400). assert (0 <= r < 86400) as Hr by (apply Z.mod_pos_bound; done). clearbody r.
  rewrite !sforall_app, !pad_literal by (cbn; Z.to_euclidean_division_equations; lia). cbn [sforall andb].
  change (literal "-") with true. change (literal ":") with true. change (literal "T") with true. cbn [andb].
  destruct (_ =? 0); [done|]. rewrite sforall_app, frac_literal by done. done.
Qed.

Lemma record_tree_wf ts r : str_wf ts -> json_wf maxNestingDepth (record_tree ts r).
Proof.
  intros Hts. constructor; [done|].
  repeat (apply Forall_cons; split; [split; [done|first [by constructor | constructor; apply quote_wf | apply marshal_int_wf]]|]).
  constructor.
Qed.

(** One field of a record, written once. *)
Lemma bind_string {A} name m k s (f : string -> option A) :
  List.filter (field_is name) m = [(k, marshal_string s)] -> valid_utf8 s = true -> bind (string_field name m) f = f s.
Proof. intros E Hs. unfold string_field. rewrite (decode_field_one _ _ _ _ _ _ E). cbn. by rewrite unquote_quote. Qed.
Lemma bind_int {A} name m k n (f : Z -> option A) :
  List.filter (field_is name) m = [(k, marshal_int n)] -> in_int64 n -> bind (int64_field name m) f = f n.
Proof.
  intros E Hn. unfold int64_field. rewrite (decode_field_one _ _ _ _ _ _ E). destruct (parse_int64_dec n Hn) as (lit & -> & Hp).
  cbn. by rewrite Hp.
Qed.

Lemma record_members v1 v2 v3 v4 v5 v6 v7 v8 v9 v10 v11 v12 v13 v14 v15 v16 :
  let m := [("time", v1); ("request_id", v2); ("key_id", v3); ("model", v4); ("backend", v5); ("endpoint", v6); ("status", v7);
            ("duration_ms", v8); ("input_tokens", v9); ("output_tokens", v10); ("total_tokens", v11); ("cached_tokens", v12);
            ("reasoning_tokens", v13); ("usage_status", v14); ("retries", v15); ("charged_tokens", v16)] in
  Forall (fun kv => List.filter (field_is kv.1) m = [kv]) m.
Proof. cbv zeta. repeat (apply Forall_cons; split; [vm_compute; reflexivity|]). constructor. Qed.

Lemma unmarshal_marshal r line : record_ok r -> marshal_record r = Some line -> unmarshal_record line = Some r.
Proof.
  intros [Hs Hi]. unfold marshal_record. destruct (format_rfc3339 (rec_Time r)) as [ts|] eqn:Ets; [|done].
  cbn [option_map]. intros <-%(inj Some).
  unfold unmarshal_record. rewrite json_parse_print by (apply record_tree_wf; by eapply format_wf).
  unfold record_tree. cbn [bind decode_struct].
  match goal with |- context [decode_field decode_time zero_time "time" ?m] =>
    assert (Forall (fun kv => List.filter (field_is kv.1) m = [kv]) m) as Hm by apply record_members;
    rewrite !Forall_cons in Hm; cbn [fst] in Hm; generalize dependent m end.
  intros m Hm. destruct_and! Hm. rewrite !Forall_cons in Hs. rewrite !Forall_cons in Hi. destruct_and! Hs. destruct_and! Hi.
  erewrite (decode_field_one decode_time) by eassumption. cbn [decode_time]. rewrite (format_parse _ _ Ets). cbn [bind].
  do 5 (erewrite bind_string by eassumption).
  do 7 (erewrite bind_int by eassumption).
  erewrite bind_string by eassumption. do 2 (erewrite bind_int by eassumption).
  by destruct r.
Qed.

(** ** The log *)

(** The text of a log of whole lines. *)
Fixpoint log_text (lines : list string) : string :=
  match lines with [] => "" | l :: lines => l +:+ String ch_nl (log_text lines) end.

Lemma log_text_app l k : log_text (l ++ k) = log_text l +:+ log_text k.
Proof. induction l as [|x l IH]; [done|]. cbn. by rewrite IH, sapp_assoc. Qed.

Definition line_ok (l : string) : Prop := contains_char ch_nl l = false /\ slen l + 1 <= maxAccountingLine.

Lemma split_log lines rest : Forall line_ok lines -> contains_char ch_nl rest = false ->
  split_on ch_nl (log_text lines +:+ rest) = lines ++ [rest].
Proof.
  induction 1 as [|l lines [Hl _] _ IH]; intros Hr; cbn; [by apply split_on_word|].
  rewrite sapp_assoc. cbn. by rewrite split_on_app, IH.
Qed.

(** Reading a log back gives its lines, then the unterminated rest. *)
Lemma scan_log lines rest : Forall line_ok lines -> contains_char ch_nl rest = false ->
  scanBounded (log_text lines +:+ rest) = lines ++ (if (0 <? slen rest) && (slen rest <? maxAccountingLine) then [rest] else []).
Proof.
  intros Hl Hr. unfold scanBounded. rewrite split_log by done. rewrite removelast_last, last_last. f_equal.
  induction Hl as [|l lines [_ Hlen] _ IH]; [done|]. cbn [List.filter]. rewrite (proj2 (Z.leb_le _ _)) by done. by rewrite IH.
Qed.

Lemma marshal_line r line : marshal_record r = Some line -> contains_char ch_nl line = false.
Proof.
  unfold marshal_record. destruct (format_rfc3339 (rec_Time r)) as [ts|] eqn:Ets; [|done].
  cbn [option_map]. intros <-%(inj Some). eapply no_ctrl_nl, print_no_ctrl, record_tree_wf. by eapply format_wf.
Qed.

Lemma torn_unreadable r line p t : marshal_record r = Some line -> line = p +:+ t -> t <> "" -> unmarshal_record p = None.
Proof.
  unfold marshal_record. destruct (format_rfc3339 (rec_Time r)) as [ts|] eqn:Ets; [|done]. cbn [option_map]. intros <-%(inj Some) Hp Ht.
  unfold unmarshal_record. rewrite (object_prefix _ p t (record_tree_wf ts r (format_wf _ _ Ets)) Hp Ht). done.
Qed.

(** The end of a log a crash may leave: nothing, or a record's line without
    all of its bytes. *)
Definition torn_end (torn : string) : Prop :=
  torn = "" \/ exists r line t, marshal_record r = Some line /\ line = torn +:+ t /\ t <> "".

Lemma torn_rest torn : torn_end torn -> contains_char ch_nl torn = false /\ unmarshal_record torn = None.
Proof.
  intros [->|(r & line & t & Hr & E & Ht)]; [done|]. split; [|by eapply torn_unreadable].
  apply marshal_line in Hr. rewrite E, contains_char_app in Hr. by apply orb_false_iff in Hr as [? _].
Qed.

Lemma replay_scan q now lines torn : Forall line_ok lines -> torn_end torn ->
  fold_left (fun q l => replayLine q now l) (scanBounded (log_text lines +:+ torn)) q =
  fold_left (fun q l => replayLine q now l) lines q.
Proof.
  intros Hl [Hnl Hnone]%torn_rest. rewrite scan_log, fold_left_app by done. destruct (_ && _); [|done].
  cbn [fold_left]. unfold replayLine at 1. by rewrite Hnone.
Qed.

(** ** The tail that a replay reads *)

(** How many lines a replay of at most [maxBytes] bytes (0: all) leaves out:
    the first ones, as long as what follows is too much. *)
Fixpoint left_out (maxBytes : Z) (lines : list string) (torn : string) : nat :=
  if (maxBytes <=? 0) || (slen (log_text lines +:+ torn) <=? maxBytes) then 0
  else match lines with [] => 0 | _ :: lines => S (left_out maxBytes lines torn) end.

(** The line before the tail begins outside of it. *)
Lemma left_out_spec maxBytes lines torn : maxBytes <= 0 \/ slen torn <= maxBytes ->
  let n := left_out maxBytes lines torn in
  n = 0%nat /\ (maxBytes <= 0 \/ slen (log_text lines +:+ torn) <= maxBytes) \/
  exists pre l, take n lines = pre ++ [l] /\ 0 < maxBytes /\
    slen (log_text (drop n lines) +:+ torn) <= maxBytes < slen l + 1 + slen (log_text (drop n lines) +:+ torn).
Proof.
  intros Ht. induction lines as [|l lines IH]; cbn [left_out]; 
    (destruct (_ || _) eqn:E; [left; split; [done|by rewrite orb_true_iff, !Z.leb_le in E]|]).
  - apply orb_false_iff in E as [E1 E2]. cbn in E2. to_prop. lia.
  - apply orb_false_iff in E as [E1 E2]. to_prop. right. cbn [take drop].
    assert (slen (log_text (l :: lines) +:+ torn) = slen l + 1 + slen (log_text lines +:+ torn)) as El.
    { unfold slen. cbn [log_text]. rewrite !slen_app. cbn. lia. }
    destruct IH as [[-> Hor]|(pre & l' & -> & Hb)].
    + exists [], l. split; [done|]. split; [lia|]. change (drop 0 lines) with lines. lia.
    + exists (l :: pre), l'. done.
Qed.

(** Dropping whole lines, or all but the end of one. *)
Lemma sdrop_app_ge n a b : (String.length a <= n)%nat -> sdrop n (a +:+ b) = sdrop (n - String.length a) b.
Proof.
  revert n. induction a as [|c a IH]; intros n Hn; cbn in *; [f_equal; lia|]. destruct n as [|n]; [lia|]. cbn. apply IH. lia.
Qed.
Lemma sdrop_app_le n a b : (n <= String.length a)%nat -> sdrop n (a +:+ b) = sdrop n a +:+ b.
Proof. revert n. induction a as [|c a IH]; intros [|n] Hn; cbn in *; try done; try lia. apply IH. lia. Qed.
Lemma sdrop_no_char c n s : contains_char c s = false -> contains_char c (sdrop n s) = false.
Proof. revert n. induction s as [|d s IH]; intros [|n]; cbn; try done. intros [_ Hs]%orb_false_iff. by apply IH. Qed.

Lemma Replay_tail q lines torn maxBytes boot : Forall line_ok lines -> torn_end torn ->
  maxBytes <= 0 \/ slen torn <= maxBytes ->
  Replay q (Some (log_text lines +:+ torn)) maxBytes boot =
  fold_left (fun q l => replayLine q boot l) (drop (left_out maxBytes lines torn) lines) q.
Proof.
  intros Hl Ht Hm. pose proof (left_out_spec maxBytes lines torn Hm) as Hn. cbn zeta in Hn. unfold Replay.
  set (n := left_out maxBytes lines torn) in *. destruct Hn as [[-> Hor]|(pre & l & Etake & Hpos & Hfit)].
  { assert ((maxBytes <=? 0) || (slen (log_text lines +:+ torn) <=? maxBytes) = true) as ->.
    { apply orb_true_iff. rewrite !Z.leb_le. tauto. }
    by apply replay_scan. }
  rewrite <- (take_drop n lines) in Hl. rewrite Etake in Hl. apply Forall_app in Hl as [[Hpre [Hll _]%Forall_cons]%Forall_app Hd].
  set (rest := log_text (drop n lines) +:+ torn) in *.
  assert (log_text lines +:+ torn = log_text pre +:+ l +:+ String ch_nl rest) as Elog.
  { rewrite <- (take_drop n lines) at 1. rewrite Etake, !log_text_app. cbn. subst rest. by rewrite !sapp_assoc. }
  rewrite Elog. set (a := log_text pre).
  assert (slen (a +:+ l +:+ String ch_nl rest) = slen a + (slen l + 1 + slen rest)) as Esize.
  { unfold slen. rewrite !slen_app. cbn. lia. }
  rewrite Esize. assert (0 <= slen a /\ 0 <= slen l /\ 0 <= slen rest) as (? & ? & ?) by (unfold slen; lia).
  rewrite (proj2 (Z.leb_gt maxBytes 0)), (proj2 (Z.leb_gt _ maxBytes)) by lia. cbn [orb].
  set (i := Z.to_nat (slen a + (slen l + 1 + slen rest) - maxBytes)).
  assert (String.length a < i <= String.length a + String.length l + 1)%nat as Hi by (subst i; unfold slen in *; lia).
  rewrite !(sdrop_app_ge _ a) by lia.
  rewrite <- (replay_scan q boot _ torn Hd Ht). fold rest.
  destruct (decide (i = String.length a + String.length l + 1)%nat) as [->|Hne].
  - replace (String.length a + String.length l + 1 - 1 - String.length a)%nat with (String.length l) by lia.
    rewrite sdrop_app. replace (String.length a + String.length l + 1 - String.length a)%nat with (S (String.length l)) by lia.
    rewrite sdrop_app_ge by lia. replace (S (String.length l) - String.length l)%nat with 1%nat by lia.
    destruct rest; done.
  - rewrite !sdrop_app_le by lia. set (m := (i - String.length a)%nat).
    assert (contains_char ch_nl (sdrop m l) = false) as Hm2 by (apply sdrop_no_char, Hll).
    assert (has_prefix (String ch_nl "") (sdrop (i - 1 - String.length a) l +:+ String ch_nl rest) = false) as ->.
    { pose proof (sdrop_no_char ch_nl (i - 1 - String.length a) l (proj1 Hll)) as Hc.
      destruct (sdrop (i - 1 - String.length a) l) as [|c r] eqn:E.
      - assert (String.length (sdrop (i - 1 - String.length a) l) = 0)%nat as E0 by (by rewrite E).
        pose proof (stake_sdrop (i - 1 - String.length a) l) as Es. apply (f_equal String.length) in Es.
        rewrite slen_app, stake_length in Es. lia.
      - destruct (decide (ch_nl = c)) as [<-|Hnl]; [|exact (has_prefix_ne _ _ "" _ Hnl)]. cbn in Hc. done. }
    unfold discard_line. rewrite split_on_app by done. destruct (split_on ch_nl rest) as [|p ps] eqn:Esp.
    { by pose proof (split_on_nonempty ch_nl rest). }
    assert (slen (sdrop m l) + 1 <= maxAccountingLine) as Hlen.
    { pose proof (stake_sdrop m l) as Es. apply (f_equal String.length) in Es. rewrite slen_app in Es.
      destruct Hll as [_ Hll]. unfold slen in *. lia. }
    rewrite (proj2 (Z.leb_le _ _)) by done. by rewrite <- Esp, join_split.
Qed.

(** The line of a record, as the writer appends it. *)
Definition written (r : Record_) (l : string) : Prop :=
  record_ok r /\ rec_KeyID r <> "" /\ marshal_record r = Some l /\ slen l + 1 <= maxAccountingLine.

Lemma written_lines recs lines : Forall2 written recs lines ->
  Forall line_ok lines /\
  Forall2 (fun l r => unmarshal_record l = Some r /\ rec_KeyID r <> "" /\ charged r <= MaxInt64) lines recs.
Proof.
  induction 1 as [|r l recs lines (Hok & Hk & Hm & Hl) _ [IH1 IH2]]; [by split; constructor|]. split; constructor; try done.
  - split; [by eapply marshal_line|done].
  - split; [by eapply unmarshal_marshal|]. split; [done|].
    destruct Hok as [_ Hi]. unfold charged. rewrite !Forall_cons in Hi. destruct_and! Hi. unfold in_int64 in *. case_match; lia.
Qed.

(** The records are those of the settlements, in whatever order the writer's
    queue took them, each stamped in the hour its settlement was (a
    settlement of nothing standing for a request that costs nothing). *)
Definition logged (ops : list quota_op) (recs : list Record_) : Prop :=
  exists evs, settlements ops ≡ₚ evs /\
  Forall2 (fun e r => e_key e = rec_KeyID r /\ e_tokens e = charged r /\
                      hourKey (e_time e) = hourKey (rec_Time r) /\ dayKey (e_time e) = dayKey (rec_Time r)) evs recs.

Lemma logged_used ops recs k now : logged ops recs ->
  used hourKey (hourKey now) k (settlements ops) = used hourKey (hourKey now) k (map event_of recs) /\
  used dayKey (dayKey now) k (settlements ops) = used dayKey (dayKey now) k (map event_of recs).
Proof.
  intros (evs & Hp & Hr). rewrite !(used_perm _ _ _ _ _ Hp). clear Hp.
  induction Hr as [|e r evs recs (Hk & Ht & Hh & Hd) _ [IH1 IH2]]; [done|]. cbn [map]. rewrite !used_cons. cbn [event_of e_time e_tokens].
  assert (counts k (event_of r) = counts k e) as -> by (unfold counts; cbn; by rewrite Hk, Ht).
  by rewrite Ht, Hh, Hd, IH1, IH2.
Qed.


Module RecordLogDemo.
Definition now : time := (unix_to_internal + 1709206496) * Second.
Definition rec : Record_ :=
  mkRecord (now - 120000000) "r1" "k" "m" "b" "chat.completions" 200 12 3 4 7 0 0 "unknown" 0 60.
Definition line : string := default "" (marshal_record rec).
Definition old : Record_ :=
  mkRecord (now - 100000 * Second) "r0" "k" "m" "b" "chat.completions" 200 12 3 4 7 0 0 "unknown" 0 90.
Definition oldline : string := default "" (marshal_record old).
Definition torn : string := stake 40 line.
Definition log : string := log_text [oldline; line] +:+ torn.
Definition ops : list quota_op :=
  [QSettle (mkEvent "k" 90 (now - 100000 * Second)); QAdmit "k" (mkWindowLimit 100 0) 5 (now - 90000 * Second);
   QSettle (mkEvent "k" 60 (now - 130000000)); QAdmit "k" (mkWindowLimit 100 0) 0 now].
End RecordLogDemo.

