(* ===== verification/Writer.v ===== *)
(** * The accounting writer: [internal/accounting/writer.go]

    One bounded queue in front of the log file.  Handlers call [Enqueue], one
    goroutine runs [run], anyone may call [Close]; every atomic operation and
    every channel operation is one step, and the threads interleave freely.
    What a file operation does is an event of the environment.  A call that
    checks [closed] before [Close] sets it and sends afterwards is the one way
    in which a record is lost uncounted. *)

From Stdlib Require Import Sorting.Sorted.
From S2P Require Import Prelude GoStrings Json Accounting RecordLog.
#[local] Open Scope Z_scope.

(** ** State *)

Inductive file_error := SyncFailed | CloseFailed.

(** The file is its text and how many bytes of it are known to be durable. *)
(* src: internal/accounting/writer.go Writer *)
Record Writer := mkWriter {
  w_file : string; w_synced : nat; w_file_open : bool;
  w_q : list Record_; w_cap : nat; w_fsync : string; w_interval : duration;
  w_dropped : Z; w_closed : bool; w_stop : bool; w_done : bool;
  w_finalErr : option file_error; w_lastAlert : Z }.

(* src: internal/accounting/writer.go WriterConfig *)
Record WriterConfig := mkWriterConfig {
  wc_QueueSize : Z; wc_FSync : string; wc_FSyncInterval : duration; wc_Overflow : string }.

Inductive new_error := ErrOverflowPolicy | ErrOpenLog.

(** [opened] is what [os.OpenFile] in append mode finds, [None] an error. *)
(* src: internal/accounting/writer.go NewWriter *)
Definition NewWriter (cfg : WriterConfig) (opened : option string) : result new_error Writer :=
  let size := if wc_QueueSize cfg <=? 0 then 4096 else wc_QueueSize cfg in
  let overflow := if String.eqb (wc_Overflow cfg) "" then "drop-and-alert" else wc_Overflow cfg in
  if negb (String.eqb overflow "drop-and-alert") then Err ErrOverflowPolicy
  else match opened with
       | None => Err ErrOpenLog
       | Some text =>
           let interval := if wc_FSyncInterval cfg <=? 0 then 5 * Second else wc_FSyncInterval cfg in
           Ok (mkWriter text (String.length text) true [] (Z.to_nat size) (wc_FSync cfg) interval 0 false false false None 0)
       end.

Definition set_q (w : Writer) q := mkWriter (w_file w) (w_synced w) (w_file_open w) q (w_cap w) (w_fsync w) (w_interval w)
  (w_dropped w) (w_closed w) (w_stop w) (w_done w) (w_finalErr w) (w_lastAlert w).
(** [w.dropped.Add(1)]. *)
Definition add_dropped (w : Writer) := mkWriter (w_file w) (w_synced w) (w_file_open w) (w_q w) (w_cap w) (w_fsync w) (w_interval w)
  (wrap64 (w_dropped w + 1)) (w_closed w) (w_stop w) (w_done w) (w_finalErr w) (w_lastAlert w).
Definition set_alert (w : Writer) a := mkWriter (w_file w) (w_synced w) (w_file_open w) (w_q w) (w_cap w) (w_fsync w) (w_interval w)
  (w_dropped w) (w_closed w) (w_stop w) (w_done w) (w_finalErr w) a.
Definition append_file (w : Writer) s := mkWriter (w_file w +:+ s) (w_synced w) (w_file_open w) (w_q w) (w_cap w) (w_fsync w) (w_interval w)
  (w_dropped w) (w_closed w) (w_stop w) (w_done w) (w_finalErr w) (w_lastAlert w).
Definition set_flags (w : Writer) cl st dn := mkWriter (w_file w) (w_synced w) (w_file_open w) (w_q w) (w_cap w) (w_fsync w) (w_interval w)
  (w_dropped w) cl st dn (w_finalErr w) (w_lastAlert w).
(** [w.fh.Sync()] with its outcome; a success makes the whole text durable. *)
Definition Sync (w : Writer) (ok : bool) := mkWriter (w_file w) (if ok then String.length (w_file w) else w_synced w) (w_file_open w)
  (w_q w) (w_cap w) (w_fsync w) (w_interval w) (w_dropped w) (w_closed w) (w_stop w) (w_done w) (w_finalErr w) (w_lastAlert w).
Definition close_file (w : Writer) (e : option file_error) := mkWriter (w_file w) (w_synced w) false (w_q w) (w_cap w) (w_fsync w)
  (w_interval w) (w_dropped w) (w_closed w) (w_stop w) true e (w_lastAlert w).

(** ** [Enqueue] *)

(** Where a call is. *)
Inductive epc :=
| EStart (r : Record_)           (* about to load [closed] *)
| ECount                         (* closed: about to count the record dropped *)
| ESend (r : Record_)            (* not closed: at the [select] *)
| EFull                          (* the queue was full *)
| EAlert                         (* in [alertDue], about to load [lastAlert] *)
| ECas (prev now : Z)            (* about to compare and swap *)
| EDone.

(* src: internal/accounting/writer.go 108-110 alertCadence *)
Definition alertCadence : Z := 30.

(** The load of [alertDue] at Unix time [now], and its compare-and-swap. *)
(* src: internal/accounting/writer.go 119-123 Writer.alertDue *)
Definition alert_load (w : Writer) (now : Z) : epc :=
  let prev := w_lastAlert w in if now <? prev then EDone else ECas prev now.
(* src: internal/accounting/writer.go 124-124 Writer.alertDue *)
Definition alert_cas (w : Writer) (prev now : Z) : Writer * bool :=
  if w_lastAlert w =? prev then (set_alert w (wrap64 (now + alertCadence)), true) else (w, false).

(** One atomic step; [now] is the clock. The answer also says whether the
    record went into the queue, and whether an alert was logged. *)
(* src: internal/accounting/writer.go Writer.Enqueue *)
Definition Enqueue_step (now : Z) (w : Writer) (p : epc) : option (Writer * epc * option Record_ * bool) :=
  match p with
  | EStart r => Some (w, if w_closed w then ECount else ESend r, None, false)
  | ECount => Some (add_dropped w, EDone, None, false)
  | ESend r => if (length (w_q w) <? w_cap w)%nat then Some (set_q w (w_q w ++ [r]), EDone, Some r, false)
               else Some (w, EFull, None, false)
  | EFull => Some (add_dropped w, EAlert, None, false)
  | EAlert => Some (w, alert_load w now, None, false)
  | ECas prev now => let '(w, alert) := alert_cas w prev now in Some (w, EDone, None, alert)
  | EDone => None
  end.

(* src: internal/accounting/writer.go Writer.Dropped *)
Definition Dropped (w : Writer) : Z := w_dropped w.

(** ** [run] *)

(** What the environment decides: which ready case [select] takes, what a
    write does ([None]: all of it; [Some n]: an error after [n] bytes), how a
    sync or close ends, the clock. *)
Inductive cevent :=
| EvRecv | EvStop | EvTick (since now : time) (ok : bool)
| EvWrite (fail : option nat)
| EvAfter (since now : time) (ok : bool)
| EvEmpty
| EvFinal (sync_ok close_ok : bool).

Inductive cpc := CLoop | CGot (r : Record_) | CAfter | CDrain | CDrainGot (r : Record_) | CFinal | CDone.

(** The consumer with its local [lastFsync]. *)
Record consumer := mkConsumer { c_pc : cpc; c_lastFsync : time }.

(** The result: the state, and [None] for success or the part that reached
    the file. *)
(* src: internal/accounting/writer.go Writer.writeRecord *)
Definition writeRecord (w : Writer) (r : Record_) (fail : option nat) : Writer * option string :=
  match marshal_record r with
  | None => (w, Some "")
  | Some b =>
      let line := b +:+ String ch_nl "" in
      match fail with
      | None => (append_file w line, None)
      | Some n => let part := stake (Nat.min n (String.length b)) line in (append_file w part, Some part)
      end
  end.

(** A write with its accounting: a failure is counted as a drop. *)
(* src: internal/accounting/writer.go 140-143 Writer.run *)
Definition write_or_drop (w : Writer) (r : Record_) (fail : option nat) : Writer * option string :=
  let '(w, part) := writeRecord w r fail in
  match part with None => (w, None) | Some _ => (add_dropped w, part) end.

(* src: internal/accounting/writer.go 144-149 Writer.run *)
Definition fsync_policy (w : Writer) (last since now : time) (ok : bool) (every : bool) : Writer * time :=
  if every && String.eqb (w_fsync w) "every" then (Sync w ok, last)
  else if String.eqb (w_fsync w) "interval" && (w_interval w <=? time_sub since last) then (Sync w ok, now)
  else (w, last).

(** One step; the last part of the answer is the record whose write ended,
    with its outcome. *)
(* src: internal/accounting/writer.go Writer.run *)
Definition run_step (ev : cevent) (w : Writer) (c : consumer) : option (Writer * consumer * option (Record_ * option string)) :=
  let last := c_lastFsync c in
  match c_pc c, ev with
  | CLoop, EvRecv =>
      match w_q w with r :: q => Some (set_q w q, mkConsumer (CGot r) last, None) | [] => None end
  | CLoop, EvStop => if w_stop w then Some (w, mkConsumer CDrain last, None) else None
  | CLoop, EvTick since now ok =>
      let '(w, last) := fsync_policy w last since now ok false in Some (w, mkConsumer CLoop last, None)
  | CGot r, EvWrite fail =>
      let '(w, part) := write_or_drop w r fail in Some (w, mkConsumer CAfter last, Some (r, part))
  | CAfter, EvAfter since now ok =>
      let '(w, last) := fsync_policy w last since now ok true in Some (w, mkConsumer CLoop last, None)
  | CDrain, EvRecv =>
      match w_q w with r :: q => Some (set_q w q, mkConsumer (CDrainGot r) last, None) | [] => None end
  | CDrain, EvEmpty => match w_q w with [] => Some (w, mkConsumer CFinal last, None) | _ => None end
  | CDrainGot r, EvWrite fail =>
      let '(w, part) := write_or_drop w r fail in Some (w, mkConsumer CDrain last, Some (r, part))
  | CFinal, EvFinal sync_ok close_ok =>
      let e := if sync_ok then (if close_ok then None else Some CloseFailed) else Some SyncFailed in
      Some (close_file (Sync w sync_ok) e, mkConsumer CDone last, None)
  | _, _ => None
  end.

(** ** [Close] *)

Inductive once := OnceNew | OnceRunning | OnceDone.
Inductive kpc := KStart | KStore | KStop | KWait | KDrain | KRet (e : option file_error).

(** One step of a caller; [None] when it waits or has returned. *)
(* src: internal/accounting/writer.go Writer.Close *)
Definition Close_step (o : once) (w : Writer) (p : kpc) : option (once * Writer * kpc) :=
  match p with
  | KStart => match o with
              | OnceNew => Some (OnceRunning, w, KStore)
              | OnceRunning => None
              | OnceDone => Some (o, w, KRet (w_finalErr w))
              end
  | KStore => Some (o, set_flags w true (w_stop w) (w_done w), KStop)
  | KStop => Some (o, set_flags w (w_closed w) true (w_done w), KWait)
  | KWait => if w_done w then Some (o, w, KDrain) else None
  | KDrain => match w_q w with
              | _ :: q => Some (o, add_dropped (set_q w q), KDrain)
              | [] => Some (OnceDone, w, KRet (w_finalErr w))
              end
  | KRet _ => None
  end.

(** ** The threads together *)

(** The threads, and what happened so far: the records the queue took, those
    that left it with the outcome of their write ([None]: all of the line,
    [Some part]: a failure that left [part]), the times of the alerts. *)
Record sys := mkSys {
  s_w : Writer; s_c : consumer; s_once : once; s_enq : list epc; s_cl : list kpc;
  h_sent : list Record_; h_out : list (Record_ * option string); h_alerts : list Z }.

Definition started (w : Writer) : sys := mkSys w (mkConsumer CLoop zero_time) OnceNew [] [] [] [] [].

Inductive label := LEnqueue (r : Record_) | LClose | LEnq (i : nat) (now : Z) | LRun (ev : cevent) | LCl (i : nat).

Definition olist {A} (o : option A) : list A := match o with Some x => [x] | None => [] end.

(** A record [Close] takes off the queue is not written. *)
Definition drained (p : kpc) (w : Writer) : list (Record_ * option string) :=
  match p, w_q w with KDrain, r :: _ => [(r, Some "")] | _, _ => [] end.

(** A Unix time of this era. *)
Definition clock_ok (now : Z) : Prop := 0 <= now < 2 ^ 62.

Inductive step : label -> sys -> sys -> Prop :=
| st_enqueue s r :
    step (LEnqueue r) s (mkSys (s_w s) (s_c s) (s_once s) (s_enq s ++ [EStart r]) (s_cl s) (h_sent s) (h_out s) (h_alerts s))
| st_close s :
    step LClose s (mkSys (s_w s) (s_c s) (s_once s) (s_enq s) (s_cl s ++ [KStart]) (h_sent s) (h_out s) (h_alerts s))
| st_enq s i now p w p' sent alert :
    clock_ok now -> s_enq s !! i = Some p -> Enqueue_step now (s_w s) p = Some (w, p', sent, alert) ->
    step (LEnq i now) s (mkSys w (s_c s) (s_once s) (<[i := p']> (s_enq s)) (s_cl s) (h_sent s ++ olist sent) (h_out s)
      (h_alerts s ++ match p, alert with ECas _ n, true => [n] | _, _ => [] end))
| st_run s ev w c out :
    run_step ev (s_w s) (s_c s) = Some (w, c, out) ->
    step (LRun ev) s (mkSys w c (s_once s) (s_enq s) (s_cl s) (h_sent s) (h_out s ++ olist out) (h_alerts s))
| st_cl s i p o w p' :
    s_cl s !! i = Some p -> Close_step (s_once s) (s_w s) p = Some (o, w, p') ->
    step (LCl i) s (mkSys w (s_c s) o (s_enq s) (<[i := p']> (s_cl s)) (h_sent s) (h_out s ++ drained p (s_w s)) (h_alerts s)).

Definition sstep (s s' : sys) : Prop := exists l, step l s s'.

(** The text of a record's write that succeeded ([None]) or failed. *)
Definition write_text (o : Record_ * option string) : string :=
  match o with
  | (r, None) => default "" (marshal_record r) +:+ String ch_nl ""
  | (_, Some part) => part
  end.
Fixpoint out_text (l : list (Record_ * option string)) : string :=
  match l with [] => "" | o :: l => write_text o +:+ out_text l end.

Definition pending (p : epc) : bool := match p with EStart _ | ECount | ESend _ | EFull => true | _ => false end.
Definition written (o : Record_ * option string) : bool := match o.2 with None => true | Some _ => false end.
Definition in_hand (c : consumer) : list Record_ := match c_pc c with CGot r | CDrainGot r => [r] | _ => [] end.

(** ** Conservation and order *)

Lemma wrap64_succ a : wrap64 (wrap64 a + 1) = wrap64 (a + 1).
Proof. unfold wrap64. Z.to_euclidean_division_equations; lia. Qed.

(** What a failed write left is a proper part of the line. *)
Definition out_ok (o : Record_ * option string) : Prop :=
  match o with
  | (r, None) => is_Some (marshal_record r)
  | (r, Some part) => part = "" \/ exists b t, marshal_record r = Some b /\ b +:+ String ch_nl "" = part +:+ t /\ t <> ""
  end.

Record conserved (old : string) (s : sys) : Prop := {
  cv_count : w_dropped (s_w s) = wrap64 (Z.of_nat (length (s_enq s)) - Z.of_nat (count pending (s_enq s))
    - Z.of_nat (length (w_q (s_w s))) - Z.of_nat (length (in_hand (s_c s))) - Z.of_nat (count written (h_out s)));
  cv_fifo : h_sent s = (h_out s).*1 ++ in_hand (s_c s) ++ w_q (s_w s);
  cv_file : w_file (s_w s) = old +:+ out_text (h_out s);
  cv_out : Forall out_ok (h_out s);
  cv_cap : (length (w_q (s_w s)) <= w_cap (s_w s))%nat;
  cv_sent : (length (h_sent s) + count pending (s_enq s) <= length (s_enq s))%nat }.

Lemma out_text_app l k : out_text (l ++ k) = out_text l +:+ out_text k.
Proof. induction l as [|o l IH]; [done|]. cbn. by rewrite sapp_assoc, <- IH. Qed.

Lemma sdrop_length n s : String.length (sdrop n s) = (String.length s - n)%nat.
Proof. revert n. induction s as [|c s IH]; intros [|n]; cbn; try done. Qed.

(** What ending a write changes. *)
Lemma write_spec w r fail w' part : write_or_drop w r fail = (w', part) ->
  w_file w' = w_file w +:+ write_text (r, part) /\ out_ok (r, part) /\
  w_dropped w' = (if part then wrap64 (w_dropped w + 1) else w_dropped w) /\
  w_q w' = w_q w /\ w_cap w' = w_cap w /\ w_closed w' = w_closed w /\ w_stop w' = w_stop w /\ w_done w' = w_done w /\
  w_finalErr w' = w_finalErr w /\ w_lastAlert w' = w_lastAlert w.
Proof.
  unfold write_or_drop, writeRecord. destruct (marshal_record r) as [b|] eqn:Eb; [destruct fail as [n|]|].
  - intros [= <- <-]. cbn. split; [done|]. split; [|done]. right. exists b, (sdrop (Nat.min n (String.length b)) (b +:+ String ch_nl "")).
    split; [done|]. split; [by rewrite stake_sdrop|]. intros E.
    pose proof (sdrop_length (Nat.min n (String.length b)) (b +:+ String ch_nl "")) as Hl. rewrite E, slen_app in Hl. cbn in Hl. lia.
  - intros [= <- <-]. cbn. rewrite Eb. cbn. split_and!; done.
  - intros [= <- <-]. cbn. rewrite sapp_nil_r. split_and!; try done. by left.
Qed.

Lemma fsync_spec w last since now ok every w' last' : fsync_policy w last since now ok every = (w', last') ->
  w' = w \/ w' = Sync w ok.
Proof. unfold fsync_policy. repeat case_match; intros [= <- _]; auto. Qed.

(** The three kinds of step of the consumer. *)
Inductive run_effect (w : Writer) (c : consumer) : Writer -> consumer -> option (Record_ * option string) -> Prop :=
| re_quiet w' c' : w_file w' = w_file w -> w_q w' = w_q w -> w_cap w' = w_cap w -> w_dropped w' = w_dropped w ->
    in_hand c = [] -> in_hand c' = [] -> run_effect w c w' c' None
| re_recv c' r q : w_q w = r :: q -> in_hand c = [] -> in_hand c' = [r] -> run_effect w c (set_q w q) c' None
| re_write w' c' r part fail : write_or_drop w r fail = (w', part) -> in_hand c = [r] -> in_hand c' = [] ->
    run_effect w c w' c' (Some (r, part)).

Lemma run_step_effect ev w c w' c' out : run_step ev w c = Some (w', c', out) -> run_effect w c w' c' out.
Proof.
  destruct c as [pc last]. unfold run_step. cbn [c_pc c_lastFsync].
  assert (forall since now ok every k, (let '(w1, l1) := fsync_policy w last since now ok every in Some (w1, mkConsumer CLoop l1, None)) = k ->
    k = Some (w', c', out) -> in_hand (mkConsumer pc last) = [] -> run_effect w (mkConsumer pc last) w' c' out) as Hsync.
  { intros since now ok every k <-. destruct (fsync_policy _ _ _ _ _ _) as [w1 l1] eqn:E. intros [= <- <- <-] Hpc.
    apply fsync_spec in E as [->| ->]; by apply re_quiet. }
  destruct pc, ev; try done; try (intros H; by eapply Hsync).
  - destruct (w_q w) eqn:E; [done|]. intros [= <- <- <-]. by eapply re_recv.
  - destruct (w_stop w); [|done]. intros [= <- <- <-]. by apply re_quiet.
  - destruct (write_or_drop w r fail) as [w1 part] eqn:E. intros [= <- <- <-]. by eapply re_write.
  - destruct (w_q w) eqn:E; [done|]. intros [= <- <- <-]. by eapply re_recv.
  - destruct (w_q w); [|done]. intros [= <- <- <-]. by apply re_quiet.
  - destruct (write_or_drop w r fail) as [w1 part] eqn:E. intros [= <- <- <-]. by eapply re_write.
  - intros [= <- <- <-]. by apply re_quiet.
Qed.

Lemma conserved_run old s ev w c out : run_step ev (s_w s) (s_c s) = Some (w, c, out) -> conserved old s ->
  conserved old (mkSys w c (s_once s) (s_enq s) (s_cl s) (h_sent s) (h_out s ++ olist out) (h_alerts s)).
Proof.
  intros H [Hc Hf Ht Ho Hcap Hsent]. apply run_step_effect in H.
  destruct H as [w' c' E1 E2 E3 E4 Hh Hh'|c' r q Eq Hh Hh'|w' c' r part fail Hw Hh Hh']; cbn [olist] in *; rewrite ?app_nil_r.
  - rewrite Hh in *. split; cbn; rewrite ?E1, ?E2, ?E3, ?E4, ?Hh'; done.
  - rewrite Hh, Eq in *. split; cbn; rewrite ?Hh'; try done; [rewrite Hc; f_equal; cbn; lia|by cbn in Hcap; lia].
  - apply write_spec in Hw as (E1 & Eo & E4 & E2 & E3 & _). rewrite Hh in *.
    split; cbn; rewrite ?E1, ?E2, ?E3, ?E4, ?Hh'.
    + rewrite count_app, count_cons. change (count written []) with 0%nat. cbn [length] in *. destruct part; cbn; [rewrite Hc, wrap64_succ|rewrite Hc]; f_equal; lia.
    + rewrite fmap_app. cbn. rewrite Hf. by rewrite <- app_assoc.
    + by rewrite Ht, out_text_app, sapp_assoc; cbn; rewrite sapp_nil_r.
    + apply Forall_app. split; [done|]. by constructor.
    + done.
    + done.
Qed.

Lemma conserved_enq old s i now p w p' sent alert al : s_enq s !! i = Some p ->
  Enqueue_step now (s_w s) p = Some (w, p', sent, alert) -> conserved old s ->
  conserved old (mkSys w (s_c s) (s_once s) (<[i := p']> (s_enq s)) (s_cl s) (h_sent s ++ olist sent) (h_out s) al).
Proof.
  intros Hi H [Hc Hf Ht Ho Hcap Hsent]. pose proof (fun y => count_insert pending (s_enq s) i p y Hi) as Hcnt.
  assert (pending p = true -> (0 < count pending (s_enq s))%nat) as Hpos by (by eapply count_pos).
  destruct p as [r| |r| | |prev now'|]; cbn [Enqueue_step] in H.
  - injection H as <- <- <- _. specialize (Hcnt (if w_closed (s_w s) then ECount else ESend r)).
    split; cbn; rewrite ?app_nil_r, ?length_insert; try done; [rewrite Hc; f_equal|]; destruct (w_closed _); cbn in Hcnt; lia.
  - injection H as <- <- <- _. specialize (Hcnt EDone). specialize (Hpos eq_refl).
    split; cbn; rewrite ?app_nil_r, ?length_insert; try done; [rewrite Hc, wrap64_succ; f_equal|]; cbn in Hcnt; lia.
  - destruct (Nat.ltb_spec (length (w_q (s_w s))) (w_cap (s_w s))) as [Hlt|Hge]; injection H as <- <- <- _.
    + specialize (Hcnt EDone). specialize (Hpos eq_refl). split; cbn; try done.
      * rewrite Hc, length_insert, length_app. f_equal. cbn in Hcnt |- *. lia.
      * rewrite Hf. by rewrite <- !app_assoc.
      * rewrite length_app. cbn. lia.
      * rewrite length_app, length_insert. cbn in Hcnt |- *. lia.
    + specialize (Hcnt EFull). split; cbn; rewrite ?app_nil_r, ?length_insert; try done; [rewrite Hc; f_equal|]; cbn in Hcnt; lia.
  - injection H as <- <- <- _. specialize (Hcnt EAlert). specialize (Hpos eq_refl).
    split; cbn; rewrite ?app_nil_r, ?length_insert; try done; [rewrite Hc, wrap64_succ; f_equal|]; cbn in Hcnt; lia.
  - injection H as <- <- <- _. specialize (Hcnt (alert_load (s_w s) now)).
    split; cbn; rewrite ?app_nil_r, ?length_insert; try done; [rewrite Hc; f_equal|]; unfold alert_load in *; destruct (_ <? _); cbn in Hcnt |- *; lia.
  - unfold alert_cas in H. specialize (Hcnt EDone).
    destruct (_ =? _); injection H as <- <- <- _; split; cbn; rewrite ?app_nil_r, ?length_insert; try done;
      try (rewrite Hc; f_equal); cbn in Hcnt; lia.
  - done.
Qed.

(** ** Who closes, and how far it is *)

Definition running (p : kpc) : bool := match p with KStore | KStop | KWait | KDrain => true | _ => false end.
Definition flags_at (w : Writer) (p : kpc) : Prop :=
  match p with
  | KStart => True
  | KStore => w_closed w = false /\ w_stop w = false
  | KStop => w_closed w = true /\ w_stop w = false
  | KWait => w_closed w = true /\ w_stop w = true
  | KDrain => w_closed w = true /\ w_stop w = true /\ w_done w = true
  | KRet e => w_closed w = true /\ w_stop w = true /\ w_done w = true /\ e = w_finalErr w
  end.
Definition draining (c : consumer) : bool := match c_pc c with CDrain | CDrainGot _ | CFinal | CDone => true | _ => false end.

Record closing (s : sys) : Prop := {
  cl_one : count running (s_cl s) = match s_once s with OnceRunning => 1%nat | _ => 0%nat end;
  cl_flags : Forall (flags_at (s_w s)) (s_cl s);
  cl_new : s_once s = OnceNew -> w_closed (s_w s) = false /\ w_stop (s_w s) = false;
  cl_ret : Forall (fun p => match p with KRet _ => s_once s = OnceDone | _ => True end) (s_cl s);
  cl_over : s_once s = OnceDone -> w_closed (s_w s) = true /\ w_stop (s_w s) = true /\ w_done (s_w s) = true;
  cl_drain : draining (s_c s) = true -> w_stop (s_w s) = true;
  cl_done : w_done (s_w s) = true <-> c_pc (s_c s) = CDone;
  cl_sync : w_done (s_w s) = true -> w_finalErr (s_w s) = None -> w_synced (s_w s) = String.length (w_file (s_w s)) }.

(** The flags other threads leave alone. *)
Definition same_flags (w w' : Writer) : Prop :=
  w_closed w' = w_closed w /\ w_stop w' = w_stop w /\ w_done w' = w_done w /\ w_finalErr w' = w_finalErr w.

Lemma flags_at_same w w' p : same_flags w w' -> flags_at w p -> flags_at w' p.
Proof. intros (E1 & E2 & E3 & E4). destruct p; cbn; rewrite ?E1, ?E2, ?E3, ?E4; done. Qed.

Lemma Enqueue_flags now w p w' p' sent alert : Enqueue_step now w p = Some (w', p', sent, alert) ->
  same_flags w w' /\ w_synced w' = w_synced w /\ w_file w' = w_file w.
Proof.
  destruct p; cbn [Enqueue_step]; unfold alert_cas; repeat case_match; intros [= <- _ _ _]; try discriminate; subst;
    repeat match goal with E : (_, _) = (_, _) |- _ => injection E as <- _ end; done.
Qed.

Lemma closing_run s ev w c out ho : run_step ev (s_w s) (s_c s) = Some (w, c, out) -> closing s ->
  closing (mkSys w c (s_once s) (s_enq s) (s_cl s) (h_sent s) ho (h_alerts s)).
Proof.
  intros H [H1 H2 H3 Hret H4 H5 H6 H7]. destruct (s_c s) as [pc last] eqn:Ec. cbn in H5, H6.
  assert (pc <> CDone) as Hne by (intros ->; by destruct ev).
  assert (w_done (s_w s) = false) as Hd by (destruct (w_done (s_w s)) eqn:E; [exfalso; tauto|done]).
  rewrite Hd in H4.
  assert (forall w' c', same_flags (s_w s) w' -> c_pc c' <> CDone -> (draining c' = true -> w_stop (s_w s) = true) ->
    closing (mkSys w' c' (s_once s) (s_enq s) (s_cl s) (h_sent s) ho (h_alerts s))) as Hq.
  { intros w' c' Hs Hp Hdr. pose proof Hs as (E1 & E2 & E3 & E4). split; cbn; rewrite ?E1, ?E2, ?E3, ?E4, ?Hd; try done.
    eapply Forall_impl; [exact H2|]. intros p. by apply flags_at_same. }
  assert (forall since now ok every, (let '(w1, l1) := fsync_policy (s_w s) last since now ok every in
    Some (w1, mkConsumer CLoop l1, @None (Record_ * option string))) = Some (w, c, out) ->
    closing (mkSys w c (s_once s) (s_enq s) (s_cl s) (h_sent s) ho (h_alerts s))) as Hsync.
  { intros since now ok every. destruct (fsync_policy _ _ _ _ _ _) as [w1 l1] eqn:E. intros [= <- <- _].
    apply Hq; [|done|done]. by apply fsync_spec in E as [->| ->]. }
  unfold run_step in H. cbn [c_pc c_lastFsync] in H.
  destruct pc, ev; try done; try (by eapply Hsync).
  - destruct (w_q (s_w s)); [done|]. injection H as <- <- _. by apply Hq.
  - destruct (w_stop (s_w s)) eqn:Es; [|done]. injection H as <- <- _. by apply Hq.
  - destruct (write_or_drop _ _ _) as [w1 part] eqn:E. injection H as <- <- _. apply write_spec in E. apply Hq; [|done|done].
    unfold same_flags. tauto.
  - destruct (w_q (s_w s)); [done|]. injection H as <- <- _. by apply Hq.
  - destruct (w_q (s_w s)); [|done]. injection H as <- <- _. by apply Hq.
  - destruct (write_or_drop _ _ _) as [w1 part] eqn:E. injection H as <- <- _. apply write_spec in E. apply Hq; [|done|done].
    unfold same_flags. tauto.
  - injection H as <- <- _. specialize (H5 eq_refl). split; cbn; try done.
    + eapply Forall_impl; [exact H2|]. intros p. destruct p; cbn; rewrite ?Hd; naive_solver.
    + intros E. by destruct (H4 E) as (_ & _ & ?).
    + intros _. by destruct sync_ok.
Qed.

Lemma closing_enq s i now p w p' sent alert hs al : Enqueue_step now (s_w s) p = Some (w, p', sent, alert) -> closing s ->
  closing (mkSys w (s_c s) (s_once s) (<[i := p']> (s_enq s)) (s_cl s) hs (h_out s) al).
Proof.
  intros (Hs & Ey & Ef)%Enqueue_flags [H1 H2 H3 Hret H4 H5 H6 H7]. pose proof Hs as (E1 & E2 & E3 & E4).
  split; cbn; rewrite ?E1, ?E2, ?E3, ?E4, ?Ey, ?Ef; try done.
  eapply Forall_impl; [exact H2|]. intros q. by apply flags_at_same.
Qed.

(** The others when one caller runs. *)
Lemma others_idle s i p : closing s -> s_cl s !! i = Some p -> running p = true ->
  s_once s = OnceRunning /\ forall j q, j <> i -> s_cl s !! j = Some q -> running q = false.
Proof.
  intros [H1 H2 H3 _ H4 _ _ _] Hi Hr. pose proof (count_pos _ _ _ _ Hi Hr). destruct (s_once s); try lia. split; [done|].
  intros j q Hj Hq. destruct (running q) eqn:E; [|done]. exfalso.
  pose proof (count_insert running (s_cl s) i p KStart Hi) as Hc. rewrite Hr in Hc. cbn in Hc.
  assert ((<[i := KStart]> (s_cl s)) !! j = Some q) as Hq' by (by rewrite list_lookup_insert_ne).
  pose proof (count_pos _ _ _ _ Hq' E). lia.
Qed.

Lemma closing_cl s i p o w p' hs ho al : s_cl s !! i = Some p -> Close_step (s_once s) (s_w s) p = Some (o, w, p') -> closing s ->
  closing (mkSys w (s_c s) o (s_enq s) (<[i := p']> (s_cl s)) hs ho al).
Proof.
  intros Hi H Hcl. pose proof (others_idle s i p Hcl Hi) as Hoth. pose proof Hcl as [H1 H2 H3 Hret H4 H5 H6 H7].
  assert (flags_at (s_w s) p) as Hp by (rewrite Forall_lookup in H2; by eapply H2).
  pose proof (count_insert running (s_cl s) i p p' Hi) as Hcnt.
  assert (forall w', flags_at w' p' -> (forall j q, j <> i -> s_cl s !! j = Some q -> flags_at w' q) ->
    Forall (flags_at w') (<[i := p']> (s_cl s))) as Hall.
  { intros w' Hp' Ho. apply Forall_lookup. intros j q. destruct (decide (j = i)) as [->|Hne].
    - rewrite list_lookup_insert_eq by (by eapply lookup_lt_Some). by intros [= <-].
    - rewrite list_lookup_insert_ne by done. by apply Ho. }
  assert (forall j q, j <> i -> s_cl s !! j = Some q -> flags_at (s_w s) q) as Hold
    by (intros j q _ Hq; rewrite Forall_lookup in H2; by eapply H2).
  assert (forall o', (s_once s = OnceDone -> o' = OnceDone) -> match p' with KRet _ => o' = OnceDone | _ => True end ->
    Forall (fun p => match p with KRet _ => o' = OnceDone | _ => True end) (<[i := p']> (s_cl s))) as Hret'.
  { intros o' Ho Hp'. apply Forall_insert; [|done]. eapply Forall_impl; [exact Hret|]. intros q. destruct q; auto. }
  destruct p; cbn [Close_step] in H; try done.
  - destruct (s_once s) eqn:Eo; [|done|]; injection H as <- <- <-.
    + split; cbn; try done; try (by apply Hret'); [cbn in Hcnt; lia|]. apply Hall; [|done]. cbn. by apply H3.
    + split; cbn; try done; try (by apply Hret'); [cbn in Hcnt; lia|]. apply Hall; [|done]. cbn. specialize (H4 eq_refl). tauto.
  - destruct (Hoth eq_refl) as [Eo Hidle]. injection H as <- <- <-. cbn in Hp. destruct Hp as [Hp1 Hp2].
    split; cbn; try done; try (by apply Hret'); [rewrite Eo in *; cbn in Hcnt; lia| |by rewrite Eo|rewrite Eo; done].
    apply Hall; [cbn; by rewrite Hp2|]. intros j q Hj Hq. specialize (Hold j q Hj Hq). specialize (Hidle j q Hj Hq). destruct q; done || (cbn in *; tauto || (destruct_and! Hold; congruence)).
  - destruct (Hoth eq_refl) as [Eo Hidle]. injection H as <- <- <-. cbn in Hp. destruct Hp as [Hp1 Hp2].
    split; cbn; try done; try (by apply Hret'); [rewrite Eo in *; cbn in Hcnt; lia| |by rewrite Eo|rewrite Eo; done].
    apply Hall; [cbn; by rewrite Hp1|]. intros j q Hj Hq. specialize (Hold j q Hj Hq). specialize (Hidle j q Hj Hq). destruct q; done || (cbn in *; tauto || (destruct_and! Hold; congruence)).
  - destruct (Hoth eq_refl) as [Eo Hidle]. destruct (w_done (s_w s)) eqn:Ed; [|done]. injection H as <- <- <-. cbn in Hp.
    split; cbn; rewrite ?Ed; try done; try (by apply Hret'); [rewrite Eo in *; cbn in Hcnt; lia|]. apply Hall; [cbn; tauto|done].
  - destruct (Hoth eq_refl) as [Eo Hidle]. cbn in Hp. destruct (w_q (s_w s)) as [|r q]; injection H as <- <- <-.
    + split; cbn; try done; try (by apply Hret'); [rewrite Eo in *; cbn in Hcnt; lia|]. apply Hall; [cbn; tauto|done].
    + split; cbn; try done; try (by apply Hret'); [rewrite Eo in *; cbn in Hcnt; lia|]. apply Hall; [cbn; tauto|].
      intros j q' Hj Hq. specialize (Hold j q' Hj Hq). by destruct q'.
Qed.

Lemma conserved_cl old s i p o w p' : s_cl s !! i = Some p -> Close_step (s_once s) (s_w s) p = Some (o, w, p') ->
  closing s -> conserved old s ->
  conserved old (mkSys w (s_c s) o (s_enq s) (<[i := p']> (s_cl s)) (h_sent s) (h_out s ++ drained p (s_w s)) (h_alerts s)).
Proof.
  intros Hi H Hcl [Hc Hf Ht Ho Hcap Hsent].
  destruct p; cbn [Close_step] in H; try done; cbn [drained]; rewrite ?app_nil_r.
  - destruct (s_once s); [| done|]; injection H as <- <- <-; by split.
  - injection H as <- <- <-. by split.
  - injection H as <- <- <-. by split.
  - destruct (w_done _); [|done]. injection H as <- <- <-. by split.
  - pose proof (cl_flags _ Hcl) as Hfl. rewrite Forall_lookup in Hfl. destruct (Hfl _ _ Hi) as (_ & _ & Hd).
    apply (cl_done _ Hcl) in Hd. assert (in_hand (s_c s) = []) as Hh by (unfold in_hand; by rewrite Hd).
    destruct (w_q (s_w s)) as [|r q] eqn:Eq; injection H as <- <- <-; cbn [drained].
    + rewrite app_nil_r. split; cbn; by rewrite ?Eq.
    + rewrite Hh in *. split; cbn; rewrite ?Hh.
      * rewrite Hc, wrap64_succ, count_app. change (count written [(r, Some "")]) with 0%nat. cbn [length]. f_equal. lia.
      * rewrite fmap_app. cbn. rewrite Hf. by rewrite <- app_assoc.
      * rewrite Ht, out_text_app. cbn. by rewrite sapp_nil_r.
      * apply Forall_app. split; [done|]. constructor; [by left|constructor].
      * cbn in Hcap. lia.
      * done.
Qed.

(** ** Alerts *)

Record alerting (s : sys) : Prop := {
  al_sorted : StronglySorted (fun a b => a + alertCadence <= b) (h_alerts s);
  al_last : 0 <= w_lastAlert (s_w s) /\ Forall (fun a => a + alertCadence <= w_lastAlert (s_w s)) (h_alerts s);
  al_cas : Forall (fun p => match p with ECas prev now => prev <= now /\ clock_ok now | _ => True end) (s_enq s) }.

Lemma sorted_snoc_intro {A} (R : A -> A -> Prop) l x : StronglySorted R l -> Forall (fun a => R a x) l -> StronglySorted R (l ++ [x]).
Proof.
  induction 1 as [|a l Hs IH Ha]; intros Hx; cbn; [repeat constructor|]. apply Forall_cons in Hx as [Hax Hx].
  constructor; [by apply IH|]. apply Forall_app. split; [done|]. by constructor.
Qed.

Lemma alerting_same s w c o en cl hs ho : w_lastAlert w = w_lastAlert (s_w s) ->
  Forall (fun p => match p with ECas prev now => prev <= now /\ clock_ok now | _ => True end) en ->
  alerting s -> alerting (mkSys w c o en cl hs ho (h_alerts s)).
Proof. intros E Hen [H1 H2 H3]. split; cbn; by rewrite ?E. Qed.

Lemma run_alert ev w c w' c' out : run_step ev w c = Some (w', c', out) -> w_lastAlert w' = w_lastAlert w.
Proof.
  unfold run_step. destruct (c_pc c), ev; try done.
  all: try (destruct (fsync_policy _ _ _ _ _ _) as [w1 l1] eqn:E; apply fsync_spec in E as [->| ->]; by intros [= <- _ _]).
  all: try (destruct (write_or_drop _ _ _) as [w1 part] eqn:E; apply write_spec in E; intros [= <- _ _]; tauto).
  all: repeat case_match; by intros [= <- _ _].
Qed.
Lemma close_alert o w p o' w' p' : Close_step o w p = Some (o', w', p') -> w_lastAlert w' = w_lastAlert w.
Proof. destruct p; cbn; repeat case_match; by intros [= _ <- _]. Qed.

Lemma alerting_enq s i now p w p' sent alert hs : clock_ok now -> s_enq s !! i = Some p ->
  Enqueue_step now (s_w s) p = Some (w, p', sent, alert) -> alerting s ->
  alerting (mkSys w (s_c s) (s_once s) (<[i := p']> (s_enq s)) (s_cl s) hs (h_out s)
    (h_alerts s ++ match p, alert with ECas _ n, true => [n] | _, _ => [] end)).
Proof.
  intros Hnow Hi H [H1 [H2 H2'] H3].
  assert (match p with ECas prev now => prev <= now /\ clock_ok now | _ => True end) as Hp by (rewrite Forall_lookup in H3; by eapply H3).
  destruct p as [r| |r| | |prev now'|]; cbn [Enqueue_step] in H.
  all: try (injection H as <- <- <- <-; rewrite app_nil_r; split; cbn; [done|done|apply Forall_insert; [done|]; by repeat case_match]).
  - destruct (_ <? _)%nat; injection H as <- <- <- <-; rewrite app_nil_r; split; cbn; try done; by apply Forall_insert.
  - injection H as <- <- <- <-. rewrite app_nil_r. split; cbn; [done|done|]. apply Forall_insert; [done|].
    unfold alert_load. destruct (Z.ltb_spec now (w_lastAlert (s_w s))); [done|]. by split.
  - unfold alert_cas in H. destruct (Z.eqb_spec (w_lastAlert (s_w s)) prev) as [E|E]; injection H as <- <- <- <-.
    + destruct Hp as [Hle Hc]. unfold clock_ok in Hc. rewrite wrap64_id by (unfold alertCadence; int64_unfold; lia).
      split; cbn; [|split|by apply Forall_insert].
      * apply sorted_snoc_intro; [done|]. eapply Forall_impl; [exact H2'|]. intros a Ha. cbn in Ha |- *. lia.
      * unfold alertCadence. lia.
      * apply Forall_app. split; [|constructor; [lia|constructor]]. eapply Forall_impl; [exact H2'|]. intros a Ha. cbn in Ha |- *.
        unfold alertCadence in *. lia.
    + rewrite app_nil_r. split; cbn; [done|done|]. by apply Forall_insert.
  - done.
Qed.

(** ** Every reachable state *)

Record writer_inv (old : string) (cap : nat) (s : sys) : Prop := {
  wi_conserved : conserved old s;
  wi_closing : closing s;
  wi_alerting : alerting s;
  wi_cap : w_cap (s_w s) = cap }.

Lemma writer_step old cap s s' : sstep s s' -> writer_inv old cap s -> writer_inv old cap s'.
Proof.
  intros [l H] [Hcv Hcl Hal Hcap]. destruct H as [s r|s|s i now p w p' sent alert Hnow Hi H|s ev w c out H|s i p o w p' Hi H].
  - split; cbn; [|by destruct Hcl; split| |done].
    + destruct Hcv. split; cbn; try done; rewrite length_app, count_app, count_cons; change (count pending []) with 0%nat;
        cbn; [rewrite cv_count0; f_equal|]; lia.
    + destruct Hal. split; cbn; try done. apply Forall_app. split; [done|]. by constructor.
  - split; cbn; [by destruct Hcv; split| |by destruct Hal; split|done].
    destruct Hcl. split; cbn; try done.
    + rewrite count_app. cbn. by rewrite cl_one0, Nat.add_0_r.
    + apply Forall_app. split; [done|]. by constructor.
    + apply Forall_app. split; [done|]. by constructor.
  - split; [by eapply conserved_enq|by eapply closing_enq|by eapply alerting_enq|].
    cbn. rewrite <- Hcap. destruct p; cbn in H; unfold alert_cas in H; repeat case_match; simplify_eq; done.
  - split; [by apply (conserved_run old s ev)|by eapply closing_run| |].
    + apply alerting_same; [by eapply run_alert|apply Hal|done].
    + cbn. apply run_step_effect in H. destruct H as [| |w' c' r part fail Hw]; [congruence|done|].
      apply write_spec in Hw. destruct Hw as (_ & _ & _ & _ & E & _). congruence.
  - split; [by eapply conserved_cl|by eapply closing_cl| |].
    + apply alerting_same; [by eapply close_alert|apply Hal|done].
    + cbn. rewrite <- Hcap. destruct p; cbn in H; repeat case_match; simplify_eq; done.
Qed.

Lemma NewWriter_ok cfg old w : NewWriter cfg (Some old) = Ok w ->
  writer_inv old (w_cap w) (started w) /\ (0 < w_cap w)%nat /\ w_file w = old /\ 0 < w_interval w.
Proof.
  unfold NewWriter. destruct (negb _); [done|]. intros [= <-]. cbn. split.
  - split; [split; cbn; try done; [by rewrite sapp_nil_r|lia]|split; cbn; try done; split; done| |done].
    split; cbn; try done. constructor.
  - split; [|split; [done|]]; [destruct (Z.leb_spec (wc_QueueSize cfg) 0); lia|]. destruct (Z.leb_spec (wc_FSyncInterval cfg) 0); [done|lia].
Qed.

Lemma reachable_inv cfg old w s : NewWriter cfg (Some old) = Ok w -> rtc sstep (started w) s -> writer_inv old (w_cap w) s.
Proof.
  intros (Hi & _)%NewWriter_ok Hr. eapply rtc_invariant; [|exact Hr|exact Hi]. intros x y. apply writer_step.
Qed.

(** ** Closing *)

(** A call past its check of [closed] with the record still in hand. *)
Definition sending (p : epc) : bool := match p with ESend _ => true | _ => false end.

(** Once [closed] is set and no call is past its check, nothing enters the
    queue, and when [Close] is done it is empty. *)
Definition sealed (s : sys) : Prop :=
  w_closed (s_w s) = true /\ Forall (fun p => sending p = false) (s_enq s) /\ (s_once s = OnceDone -> w_q (s_w s) = []).

Lemma sealed_step old cap s s' : writer_inv old cap s -> sstep s s' -> sealed s -> sealed s' /\ h_sent s' = h_sent s.
Proof.
  intros Hinv [l H] (Hc & He & Hq).
  destruct H as [s r|s|s i now p w p' sent alert Hnow Hi H|s ev w c out H|s i p o w p' Hi H]; unfold sealed; cbn.
  - split; [|done]. split; [done|]. split; [|done]. apply Forall_app. split; [done|]. by constructor.
  - done.
  - assert (sending p = false) as Hp by (rewrite Forall_lookup in He; by eapply He).
    destruct p; try done; cbn in H; unfold alert_cas in H; rewrite ?Hc in H;
      repeat case_match; simplify_eq; cbn; rewrite ?app_nil_r; (split; [|done]); (split; [done|]);
      (split; [apply Forall_insert; [done|]; unfold alert_load; by repeat case_match|done]).
  - split; [|done]. pose proof (wi_closing _ _ _ Hinv) as Hcl. pose proof (cl_over _ Hcl) as Hover.
    assert (w_closed w = true) as Hw.
    { destruct (closing_run s ev w c out [] H Hcl) as [_ H2 H3 _ H4 _ _ _]. cbn in *.
      revert H. unfold run_step. destruct (c_pc (s_c s)), ev; try done.
      all: try (destruct (fsync_policy _ _ _ _ _ _) as [w1 l1] eqn:E; apply fsync_spec in E as [->| ->]; by intros [= <- _ _]).
      all: try (destruct (write_or_drop _ _ _) as [w1 part] eqn:E; apply write_spec in E; intros [= <- _ _]; destruct_and! E; congruence).
      all: repeat case_match; by intros [= <- _ _]. }
    split; [done|]. split; [done|]. intros Eo. specialize (Hq Eo). destruct (Hover Eo) as (_ & _ & Hd).
    apply (cl_done _ Hcl) in Hd. unfold run_step in H. rewrite Hd in H. by destruct ev.
  - split; [|done]. destruct p; cbn in H; try done.
    + destruct (s_once s); [|done|]; injection H as <- <- <-; done.
    + injection H as <- <- <-. by split.
    + injection H as <- <- <-. by split.
    + destruct (w_done _); [|done]. injection H as <- <- <-. by split.
    + pose proof (others_idle s i KDrain (wi_closing _ _ _ Hinv) Hi eq_refl) as [Eo _].
      destruct (w_q (s_w s)) eqn:E; injection H as <- <- <-; cbn; [by rewrite E|]. rewrite Eo. by split.
Qed.

Lemma sealed_reachable old cap s s' : rtc sstep s s' -> writer_inv old cap s -> sealed s ->
  writer_inv old cap s' /\ sealed s' /\ h_sent s' = h_sent s.
Proof.
  induction 1 as [s|s s1 s' Hs _ IH]; intros Hi Hse; [done|].
  destruct (sealed_step _ _ _ _ Hi Hs Hse) as [Hse1 Eh]. apply (writer_step _ _ _ _ Hs) in Hi.
  destruct (IH Hi Hse1) as (H1 & H2 & H3). split; [done|]. split; [done|]. congruence.
Qed.

(** From when [closed] is set: the calls between their check and their send are
    at most [n], and so are, once [Close] is done, the records that they have
    left behind. *)
Definition racing (n : nat) (s : sys) : Prop :=
  w_closed (s_w s) = true /\ (count sending (s_enq s) <= n)%nat /\
  (s_once s = OnceDone -> length (w_q (s_w s)) + count sending (s_enq s) <= n)%nat.

Lemma run_closed s ev w c out : run_step ev (s_w s) (s_c s) = Some (w, c, out) -> w_closed w = w_closed (s_w s).
Proof.
  unfold run_step. destruct (c_pc (s_c s)), ev; try done.
  all: try (destruct (fsync_policy _ _ _ _ _ _) as [w1 l1] eqn:E; apply fsync_spec in E as [->| ->]; by intros [= <- _ _]).
  all: try (destruct (write_or_drop _ _ _) as [w1 part] eqn:E; apply write_spec in E; intros [= <- _ _]; destruct_and! E; congruence).
  all: repeat case_match; by intros [= <- _ _].
Qed.

Lemma racing_step old cap n s s' : writer_inv old cap s -> sstep s s' -> racing n s -> racing n s'.
Proof.
  intros Hinv [l H] (Hc & He & Hq).
  destruct H as [s r|s|s i now p w p' sent alert Hnow Hi H|s ev w c out H|s i p o w p' Hi H]; unfold racing; cbn.
  - rewrite count_app. change (count sending [EStart r]) with 0%nat. rewrite Nat.add_0_r. done.
  - done.
  - pose proof (count_insert sending (s_enq s) i p p' Hi) as Hcnt.
    assert (w_closed w = true /\ (length (w_q w) + (if sending p' then 1 else 0) <= length (w_q (s_w s)) + (if sending p then 1 else 0))%nat
            /\ (sending p' = true -> sending p = true)) as (Hw & Hlen & Hp).
    { destruct p; cbn in H; unfold alert_cas, alert_load in H; rewrite ?Hc in H; repeat case_match; simplify_eq; cbn;
        rewrite ?length_app; cbn; (split; [done|split; [lia|done]]). }
    split; [done|]. split; [destruct (sending p), (sending p'); try lia; by specialize (Hp eq_refl)|].
    intros Eo. specialize (Hq Eo). destruct (sending p), (sending p'); cbn in *; lia.
  - split; [by rewrite (run_closed _ _ _ _ _ H)|]. split; [done|]. intros Eo. specialize (Hq Eo).
    pose proof (wi_closing _ _ _ Hinv) as Hcl. destruct (cl_over _ Hcl Eo) as (_ & _ & Hd).
    apply (cl_done _ Hcl) in Hd. unfold run_step in H. rewrite Hd in H. by destruct ev.
  - destruct p; cbn in H; try done.
    + destruct (s_once s); [|done|]; injection H as <- <- <-; done.
    + injection H as <- <- <-. by split.
    + injection H as <- <- <-. by split.
    + destruct (w_done _); [|done]. injection H as <- <- <-. by split.
    + pose proof (others_idle s i KDrain (wi_closing _ _ _ Hinv) Hi eq_refl) as [Eo _].
      destruct (w_q (s_w s)) eqn:E; injection H as <- <- <-; cbn; [|rewrite Eo; by split]. rewrite E. by split.
Qed.

Lemma racing_reachable old cap n s s' : rtc sstep s s' -> writer_inv old cap s -> racing n s -> writer_inv old cap s' /\ racing n s'.
Proof.
  induction 1 as [s|s s1 s' Hs _ IH]; intros Hi Hra; [done|].
  apply IH; [by eapply writer_step|by eapply racing_step].
Qed.

(** C31: The accounting queue accounts for every record, but for one race.
    Whatever the interleaving of calls of [Enqueue] and [Close] with the
    consumer, whatever the writes and syncs do: every record a call was given
    is counted as dropped, or on the file, or in the bounded queue, or in the
    consumer's hand, or its call is still at work; the queue never exceeds its
    bound; records leave it in the order they entered, and the file holds the
    text of the earlier log followed by what each write left, in that order,
    a failed write at most a proper part of its line; overflow alerts are at
    least thirty seconds apart.  What is in the queue is written or counted
    in the end, except that after [Close] has returned it may still hold
    records, which then are neither: no more of them than there were calls of
    [Enqueue] between their check of [closed] and their send when [Close] had
    set it ([late_record_vanishes] shows one), hence none when there was no
    such call. *)
Theorem writer_conserves cfg old w s : NewWriter cfg (Some old) = Ok w -> rtc sstep (started w) s ->
  Z.of_nat (length (s_enq s)) <= MaxInt64 ->
  Dropped (s_w s) + Z.of_nat (count written (h_out s)) + Z.of_nat (length (w_q (s_w s))) + Z.of_nat (length (in_hand (s_c s)))
    + Z.of_nat (count pending (s_enq s)) = Z.of_nat (length (s_enq s)) /\
  (length (w_q (s_w s)) <= w_cap w)%nat /\ (0 < w_cap w)%nat /\
  h_sent s = (h_out s).*1 ++ in_hand (s_c s) ++ w_q (s_w s) /\
  w_file (s_w s) = old +:+ out_text (h_out s) /\ Forall out_ok (h_out s) /\
  StronglySorted (fun a b => a + alertCadence <= b) (h_alerts s) /\
  (forall s1 e, rtc sstep (started w) s1 -> w_closed (s_w s1) = true -> s_once s1 = OnceRunning -> rtc sstep s1 s ->
   KRet e ∈ s_cl s -> in_hand (s_c s) = [] /\ (length (w_q (s_w s)) <= count sending (s_enq s1))%nat).
Proof.
  intros Hnew Hr Hmax. pose proof (reachable_inv _ _ _ _ Hnew Hr) as Hinv.
  pose proof Hinv as [[Hc Hf Ht Ho Hcap Hsent] Hcl Hal Ecap].
  pose proof (NewWriter_ok _ _ _ Hnew) as (_ & Hpos & _). split.
  - unfold Dropped. rewrite Hc, wrap64_id; [lia|]. pose proof (f_equal length Hf) as Hl.
    rewrite !length_app, length_fmap in Hl. assert (count written (h_out s) <= length (h_out s))%nat by apply filter_length_le.
    int64_unfold. lia.
  - rewrite Ecap in Hcap. do 5 (split; [done|]). split; [apply Hal|]. intros s1 e Hr1 Hc1 Ho1 Hr2 Hret.
    pose proof (reachable_inv _ _ _ _ Hnew Hr1) as Hi1.
    destruct (racing_reachable _ _ (count sending (s_enq s1)) _ _ Hr2 Hi1) as (_ & _ & _ & Hq).
    { split; [done|]. split; [done|]. by rewrite Ho1. }
    pose proof (cl_ret _ Hcl) as Hret'. rewrite Forall_forall in Hret'. specialize (Hq (Hret' _ Hret)).
    pose proof (cl_flags _ Hcl) as Hfl. rewrite Forall_forall in Hfl. destruct (Hfl _ Hret) as (_ & _ & Hd & _).
    pose proof (proj1 (cl_done _ Hcl) Hd) as Hpc. split; [unfold in_hand; by rewrite Hpc|lia].
Qed.

Lemma out_text_lines l : Forall out_ok l -> Forall (fun o => written o = true) l ->
  exists lines, out_text l = log_text lines /\ Forall2 (fun r line => marshal_record r = Some line) l.*1 lines.
Proof.
  induction 1 as [|[r [part|]] l Ho _ IH]; intros Hw; [by exists []| |]; apply Forall_cons in Hw as [Hw1 Hw]; [done|].
  destruct (IH Hw) as (lines & E & H2). destruct Ho as [line Hl]. exists (line :: lines). cbn. rewrite Hl. cbn.
  split; [by rewrite E, sapp_assoc|]. by constructor.
Qed.

(** Executing a schedule. *)
Definition exec (l : label) (s : sys) : option sys :=
  match l with
  | LEnqueue r => Some (mkSys (s_w s) (s_c s) (s_once s) (s_enq s ++ [EStart r]) (s_cl s) (h_sent s) (h_out s) (h_alerts s))
  | LClose => Some (mkSys (s_w s) (s_c s) (s_once s) (s_enq s) (s_cl s ++ [KStart]) (h_sent s) (h_out s) (h_alerts s))
  | LEnq i now =>
      if bool_decide (clock_ok now) then
        p ← s_enq s !! i; '(w, p', sent, alert) ← Enqueue_step now (s_w s) p;
        Some (mkSys w (s_c s) (s_once s) (<[i := p']> (s_enq s)) (s_cl s) (h_sent s ++ olist sent) (h_out s)
          (h_alerts s ++ match p, alert with ECas _ n, true => [n] | _, _ => [] end))
      else None
  | LRun ev => '(w, c, out) ← run_step ev (s_w s) (s_c s);
               Some (mkSys w c (s_once s) (s_enq s) (s_cl s) (h_sent s) (h_out s ++ olist out) (h_alerts s))
  | LCl i => p ← s_cl s !! i; '(o, w, p') ← Close_step (s_once s) (s_w s) p;
             Some (mkSys w (s_c s) o (s_enq s) (<[i := p']> (s_cl s)) (h_sent s) (h_out s ++ drained p (s_w s)) (h_alerts s))
  end.

Fixpoint exec_all (ls : list label) (s : sys) : option sys :=
  match ls with [] => Some s | l :: ls => s ← exec l s; exec_all ls s end.

Lemma exec_step l s s' : exec l s = Some s' -> step l s s'.
Proof.
  destruct l as [r| |i now|ev|i]; cbn.
  - intros [= <-]. constructor.
  - intros [= <-]. constructor.
  - case_bool_decide as Hc; [|done]. destruct (s_enq s !! i) as [p|] eqn:Ei; [|done]. cbn.
    destruct (Enqueue_step now (s_w s) p) as [[[[w p'] sent] alert]|] eqn:E; [|done]. intros [= <-]. by eapply st_enq.
  - destruct (run_step ev (s_w s) (s_c s)) as [[[w c] out]|] eqn:E; [|done]. intros [= <-]. by apply st_run.
  - destruct (s_cl s !! i) as [p|] eqn:Ei; [|done]. cbn.
    destruct (Close_step (s_once s) (s_w s) p) as [[[o w] p']|] eqn:E; [|done]. intros [= <-]. by apply st_cl.
Qed.

Lemma exec_all_rtc ls s s' : exec_all ls s = Some s' -> rtc sstep s s'.
Proof.
  revert s. induction ls as [|l ls IH]; intros s; cbn; [intros [= <-]; done|].
  destruct (exec l s) as [s1|] eqn:E; [|done]. cbn. intros H. eapply rtc_l; [by exists l; apply exec_step|by apply IH].
Qed.

(** A closed writer has written everything. If [Close] finds no call of
    [Enqueue] between its check and its send (the server has drained), then
    when a caller of [Close] returns, whatever happened meanwhile, including
    further calls of [Enqueue] and of [Close]: the queue is empty; each record it ever took was written or, when its
    write failed, counted; later calls were counted as dropped; with a nil
    error the whole file is durable; and if no write failed the file is the
    earlier log followed by the JSON line of each record the queue took, in
    order. *)
Theorem close_complete cfg old w s1 s2 e : NewWriter cfg (Some old) = Ok w -> rtc sstep (started w) s1 ->
  w_closed (s_w s1) = true -> s_once s1 = OnceRunning -> Forall (fun p => sending p = false) (s_enq s1) ->
  rtc sstep s1 s2 -> KRet e ∈ s_cl s2 -> Z.of_nat (length (s_enq s2)) <= MaxInt64 ->
  w_q (s_w s2) = [] /\ h_sent s2 = h_sent s1 /\ (h_out s2).*1 = h_sent s1 /\
  Dropped (s_w s2) + Z.of_nat (count written (h_out s2)) + Z.of_nat (count pending (s_enq s2)) = Z.of_nat (length (s_enq s2)) /\
  (e = None -> w_synced (s_w s2) = String.length (w_file (s_w s2))) /\
  (Forall (fun o => written o = true) (h_out s2) ->
   exists lines, w_file (s_w s2) = old +:+ log_text lines /\ Forall2 (fun r line => marshal_record r = Some line) (h_sent s1) lines).
Proof.
  intros Hnew Hr1 Hc Ho He Hr2 Hret Hmax. pose proof (reachable_inv _ _ _ _ Hnew Hr1) as Hi1.
  destruct (sealed_reachable _ _ _ _ Hr2 Hi1) as (Hi2 & (_ & _ & Hq) & Eh); [split; [done|split; [done|by rewrite Ho]]|].
  destruct Hi2 as [[Hcv Hf Ht Hout Hcap Hsent] Hcl _ _].
  pose proof (cl_ret _ Hcl) as Hret'. rewrite Forall_forall in Hret'. specialize (Hret' _ Hret). cbn in Hret'. specialize (Hq Hret').
  pose proof (cl_flags _ Hcl) as Hfl. rewrite Forall_forall in Hfl. destruct (Hfl _ Hret) as (_ & _ & Hd & ->).
  pose proof (proj1 (cl_done _ Hcl) Hd) as Hpc. assert (in_hand (s_c s2) = []) as Hh by (unfold in_hand; by rewrite Hpc).
  rewrite Hq, Hh in *. rewrite !app_nil_r in Hf. cbn [length] in *. split; [done|]. split; [done|]. split; [congruence|].
  split; [|split].
  - unfold Dropped. rewrite Hcv, wrap64_id; [lia|]. pose proof (f_equal length Hf) as Hl. rewrite length_fmap in Hl.
    assert (count written (h_out s2) <= length (h_out s2))%nat by apply filter_length_le. int64_unfold. lia.
  - intros E. by apply (cl_sync _ Hcl).
  - intros Hw. destruct (out_text_lines _ Hout Hw) as (lines & E & Hl). exists lines. rewrite Ht, E. split; [done|].
    by rewrite <- Eh, Hf.
Qed.

(** ** Progress *)

Definition e_weight (p : epc) : nat :=
  match p with EStart _ => 11 | ESend _ => 10 | EFull => 3 | EAlert => 2 | ECount | ECas _ _ => 1 | EDone => 0 end.
Definition c_weight (c : consumer) : nat :=
  match c_pc c with CGot _ => 8 | CDrainGot _ => 7 | CAfter => 6 | CLoop => 4 | CDrain => 3 | CFinal => 2 | CDone => 0 end.
Definition k_weight (p : kpc) : nat :=
  match p with KStart => 5 | KStore => 4 | KStop => 3 | KWait => 2 | KDrain => 1 | KRet _ => 0 end.
Definition nsum (l : list nat) : nat := foldr Nat.add 0%nat l.

#[local] Arguments nsum : simpl never.

(** The work left. *)
Definition work_left (s : sys) : nat :=
  (nsum (map e_weight (s_enq s)) + 5 * length (w_q (s_w s)) + c_weight (s_c s) + nsum (map k_weight (s_cl s)))%nat.

(** A step of a thread other than a tick of the consumer's timer. *)
Definition progress (l : label) : bool :=
  match l with LEnqueue _ | LClose | LRun (EvTick _ _ _) => false | _ => true end.

Lemma nsum_insert {A} (f : A -> nat) (l : list A) i x y : l !! i = Some x ->
  (nsum (map f (<[i := y]> l)) + f x = nsum (map f l) + f y)%nat.
Proof.
  revert i. induction l as [|a l IH]; intros [|i] Hl; try done; cbn in Hl.
  - injection Hl as ->. change (<[0%nat := y]> (x :: l)) with (y :: l). unfold nsum. cbn. lia.
  - change (<[S i := y]> (a :: l)) with (a :: <[i := y]> l). specialize (IH _ Hl). unfold nsum in *. cbn. lia.
Qed.

Lemma progress_step l s s' : step l s s' -> progress l = true -> (work_left s' < work_left s)%nat.
Proof.
  intros H Hp. unfold work_left. destruct H as [s r|s|s i now p w p' sent alert Hnow Hi H|s ev w c out H|s i p o w p' Hi H]; try done; cbn.
  - pose proof (nsum_insert e_weight _ _ _ p' Hi) as Hs.
    destruct p; cbn in H; unfold alert_cas, alert_load in H; repeat case_match; simplify_eq; cbn in Hs |- *; rewrite ?length_app; cbn; lia.
  - unfold run_step, c_weight in *. destruct (s_c s) as [pc last]. cbn in H |- *. destruct pc, ev; try done.
    all: try (destruct (fsync_policy _ _ _ _ _ _) as [w1 l1] eqn:E; apply fsync_spec in E as [->| ->]; injection H as <- <- _; cbn; lia).
    all: try (destruct (write_or_drop _ _ _) as [w1 part] eqn:E; apply write_spec in E; injection H as <- <- _; destruct E as (_ & _ & _ & -> & _); cbn; lia).
    all: repeat case_match; simplify_eq; cbn; repeat match goal with E : w_q _ = _ |- _ => rewrite E; clear E end; cbn; lia.
  - pose proof (nsum_insert k_weight _ _ _ p' Hi) as Hs.
    destruct p; cbn in H; repeat case_match; simplify_eq; cbn in Hs |- *; try lia.
    all: repeat match goal with E : w_q _ = _ |- _ => rewrite E end; cbn; lia.
Qed.

(** The atomic steps a call of [Enqueue] has left at most. *)
Definition e_steps (p : epc) : nat :=
  match p with EStart _ => 5 | ESend _ => 4 | EFull => 3 | EAlert => 2 | ECount | ECas _ _ => 1 | EDone => 0 end.

Lemma enq_steps l s s' i p : step l s s' -> s_enq s !! i = Some p ->
  exists p', s_enq s' !! i = Some p' /\ ((exists now, l = LEnq i now) /\ (e_steps p' < e_steps p)%nat \/ p' = p).
Proof.
  intros H Hi. destruct H as [s r|s|s j now q w q' sent alert Hnow Hj H|s ev w c out H|s j q o w q' Hj H]; cbn; try by exists p; auto.
  - exists p. split; [by apply lookup_app_l_Some|by right].
  - destruct (decide (j = i)) as [->|Hne]; [|exists p; rewrite list_lookup_insert_ne by done; auto].
    rewrite Hi in Hj. injection Hj as <-. exists q'. rewrite list_lookup_insert_eq by (by eapply lookup_lt_Some). split; [done|left].
    split; [by exists now|]. destruct p; cbn in H; unfold alert_cas, alert_load in H; repeat case_match; simplify_eq; cbn; lia.
Qed.

Lemma stuck_enq s i p : s_enq s !! i = Some p -> p <> EDone -> exists s', step (LEnq i 0) s s'.
Proof.
  intros Hi Hp. assert (exists w p' sent alert, Enqueue_step 0 (s_w s) p = Some (w, p', sent, alert)) as (w & p' & sent & alert & E).
  { destruct p; cbn; try done; unfold alert_cas; repeat case_match; eauto. }
  eexists. eapply st_enq; [by split|done|done].
Qed.

Lemma consumer_moves s : closing s -> w_stop (s_w s) = true -> c_pc (s_c s) <> CDone ->
  exists ev s', step (LRun ev) s s' /\ progress (LRun ev) = true.
Proof.
  intros Hcl Hs Hne.
  assert (exists ev x, run_step ev (s_w s) (s_c s) = Some x /\ progress (LRun ev) = true) as (ev & [[w c] out] & E & Hp).
  { destruct (s_c s) as [pc last]. cbn in Hne. destruct pc.
    - exists EvStop. unfold run_step. cbn. rewrite Hs. eauto.
    - exists (EvWrite None). unfold run_step. cbn. destruct (write_or_drop _ _ _). eauto.
    - exists (EvAfter 0 0 true). unfold run_step. cbn. destruct (fsync_policy _ _ _ _ _ _). eauto.
    - destruct (w_q (s_w s)) eqn:Eq; [exists EvEmpty|exists EvRecv]; unfold run_step; cbn; rewrite Eq; eauto.
    - exists (EvWrite None). unfold run_step. cbn. destruct (write_or_drop _ _ _). eauto.
    - exists (EvFinal true true). unfold run_step. cbn. eauto.
    - done. }
  exists ev. eexists. split; [by apply st_run|done].
Qed.

Lemma close_moves s i p : closing s -> s_cl s !! i = Some p -> (forall e, p <> KRet e) ->
  exists l s', step l s s' /\ progress l = true.
Proof.
  intros Hcl Hi Hp.
  assert (forall j q, s_cl s !! j = Some q -> running q = true -> exists l s', step l s s' /\ progress l = true) as Hrun.
  { intros j q Hj Hq. pose proof (cl_flags _ Hcl) as Hfl. rewrite Forall_lookup in Hfl. specialize (Hfl _ _ Hj).
    destruct q; try done.
    - eexists (LCl j), _. split; [by eapply st_cl|done].
    - eexists (LCl j), _. split; [by eapply st_cl|done].
    - destruct Hfl as [_ Hst]. destruct (w_done (s_w s)) eqn:Ed.
      + eexists (LCl j), _. split; [eapply st_cl; [done|cbn; by rewrite Ed]|done].
      + destruct (consumer_moves s Hcl Hst) as (ev & s' & H & Hpr); [|by exists (LRun ev), s'].
        intros E. apply (cl_done _ Hcl) in E. congruence.
    - destruct (w_q (s_w s)) eqn:Eq; eexists (LCl j), _; (split; [eapply st_cl; [done|cbn; by rewrite Eq]|done]). }
  destruct p; try (by eapply Hrun); [|by destruct (Hp e)].
  destruct (s_once s) eqn:Eo.
  - eexists (LCl i), _. split; [eapply st_cl; [done|cbn; by rewrite Eo]|done].
  - destruct (count_exists running (s_cl s)) as (j & q & Hj & Hq); [rewrite (cl_one _ Hcl), Eo; lia|by eapply Hrun].
  - eexists (LCl i), _. split; [eapply st_cl; [done|cbn; by rewrite Eo]|done].
Qed.

(** C36: [Enqueue] never blocks and [Close] returns. From every reachable state,
    a call of [Enqueue] that has not returned can take a step at once,
    whatever the other threads do, and has at most five left, which no other
    thread adds to; every
    step of a thread except a tick of the flush timer decreases the work
    left; and as long as a call of [Close] has not returned such a step is
    possible. So no schedule deadlocks, and any schedule that does not tick
    forever brings every [Enqueue] and [Close] to its end. *)
Theorem writer_progress cfg old w s : NewWriter cfg (Some old) = Ok w -> rtc sstep (started w) s ->
  (forall i p, s_enq s !! i = Some p -> (e_steps p <= 5)%nat /\ (p <> EDone -> exists s', step (LEnq i 0) s s') /\
    forall l s', step l s s' -> exists p', s_enq s' !! i = Some p' /\
      ((exists now, l = LEnq i now) /\ (e_steps p' < e_steps p)%nat \/ p' = p)) /\
  (forall l s', step l s s' -> progress l = true -> (work_left s' < work_left s)%nat) /\
  (forall i p, s_cl s !! i = Some p -> (forall e, p <> KRet e) -> exists l s', step l s s' /\ progress l = true) /\
  ((forall l s', step l s s' -> progress l = false) ->
   Forall (fun p => p = EDone) (s_enq s) /\ Forall (fun p => exists e, p = KRet e) (s_cl s)).
Proof.
  intros Hnew Hr. destruct (reachable_inv _ _ _ _ Hnew Hr) as [_ Hcl _ _].
  split; [intros i p Hi; split; [destruct p; cbn; lia|split; [by apply stuck_enq|intros l s' H; by eapply enq_steps]]|].
  split; [intros l s'; apply progress_step|]. split; [intros i p; by apply close_moves|].
  intros Hstuck. rewrite !Forall_lookup. split; intros i p Hi.
  - destruct p; try (destruct (stuck_enq s i _ Hi) as [s' H]; [done|]; by specialize (Hstuck _ _ H)). done.
  - destruct p as [| | | | |e]; try (destruct (close_moves s i _ Hcl Hi) as (l & s' & H & Hp); [done|]; specialize (Hstuck _ _ H); congruence).
    by exists e.
Qed.

(** ** The record that raced in *)

Module WriterDemo.
Definition cfg : WriterConfig := mkWriterConfig 2 "every" 0 "".
Definition w : Writer := match NewWriter cfg (Some "") with Ok w => w | Err _ => mkWriter "" 0 false [] 0 "" 0 0 false false false None 0 end.
Definition rec (id : string) : Record_ := mkRecord zero_time id "k" "m" "b" "e" 200 1 1 1 2 0 0 "exact" 0 2.
Definition enqueue (i : nat) : list label := [LEnq i 100; LEnq i 100].
Definition full (i : nat) : list label := enqueue i ++ [LEnq i 100; LEnq i 100; LEnq i 100].
Definition write_one : list label := [LRun EvRecv; LRun (EvWrite None); LRun (EvAfter 0 0 true)].
Definition closed (final : list label) : list label := [LCl 0; LCl 0; LCl 0; LRun EvStop] ++ final ++ [LRun EvEmpty; LRun (EvFinal true true); LCl 0; LCl 0].
(** Four calls against a queue of two: one record is dropped and alerted. *)
Definition busy : list label :=
  [LEnqueue (rec "1"); LEnqueue (rec "2"); LEnqueue (rec "3"); LEnqueue (rec "4")] ++ enqueue 0 ++ write_one ++ enqueue 1 ++ enqueue 2 ++ full 3.
(** A call that checked [closed] before [Close] and sends after it. *)
Definition late : list label :=
  [LEnqueue (rec "1"); LEnq 0 100; LClose] ++ closed [] ++ [LEnq 0 100].
Definition state (ls : list label) : sys := default (started w) (exec_all ls (started w)).
End WriterDemo.

(** A record can vanish: a call that found the writer open before [Close] set
    its flag sends into the queue that [Close] has already emptied. Every
    call has returned, [Close] with no error, and the record is neither
    written nor counted as dropped. *)
Theorem late_record_vanishes :
  let s := WriterDemo.state WriterDemo.late in
  rtc sstep (started WriterDemo.w) s /\ Forall (fun p => p = EDone) (s_enq s) /\ s_cl s = [KRet None] /\
  Dropped (s_w s) = 0 /\ w_file (s_w s) = "" /\ w_q (s_w s) = [WriterDemo.rec "1"].
Proof.
  intros s. split; [|split; [|vm_compute; done]].
  - subst s. unfold WriterDemo.state. destruct (exec_all _ _) as [s'|] eqn:E; [by eapply exec_all_rtc|done].
  - apply Forall_forall. intros p. vm_compute. by intros [= ->]%list_elem_of_singleton.
Qed.

(** Calls against a full queue, and the race: the one record left behind is
    within the bound. *)
Lemma writer_conserves_witness :
  let s := WriterDemo.state WriterDemo.busy in
  let s1 := WriterDemo.state [LEnqueue (WriterDemo.rec "1"); LEnq 0 100; LClose; LCl 0; LCl 0] in
  let s2 := WriterDemo.state WriterDemo.late in
  Dropped (s_w s) = 1 /\ count written (h_out s) = 1%nat /\ length (w_q (s_w s)) = 2%nat /\ h_alerts s = [100] /\
  Dropped (s_w s) + Z.of_nat (count written (h_out s)) + Z.of_nat (length (w_q (s_w s))) + Z.of_nat (length (in_hand (s_c s)))
    + Z.of_nat (count pending (s_enq s)) = Z.of_nat (length (s_enq s)) /\
  count sending (s_enq s1) = 1%nat /\ length (w_q (s_w s2)) = 1%nat /\
  (length (w_q (s_w s2)) <= count sending (s_enq s1))%nat.
Proof.
  intros s s1 s2. assert (Hs : exec_all WriterDemo.busy (started WriterDemo.w) = Some s) by (vm_compute; reflexivity).
  assert (Hs1 : exec_all [LEnqueue (WriterDemo.rec "1"); LEnq 0 100; LClose; LCl 0; LCl 0] (started WriterDemo.w) = Some s1) by (vm_compute; reflexivity).
  assert (Hs12 : exec_all [LCl 0; LRun EvStop; LRun EvEmpty; LRun (EvFinal true true); LCl 0; LCl 0; LEnq 0 100] s1 = Some s2)
    by (vm_compute; reflexivity).
  assert (Hret : s_cl s2 = [KRet None]) by (vm_compute; reflexivity).
  assert (Hr : rtc sstep (started WriterDemo.w) s) by (by eapply exec_all_rtc).
  assert (Hr1 : rtc sstep (started WriterDemo.w) s1) by (by eapply exec_all_rtc).
  assert (Hr12 : rtc sstep s1 s2) by (by eapply exec_all_rtc).
  assert (Hr2 : rtc sstep (started WriterDemo.w) s2) by (etrans; [exact Hr1|exact Hr12]).
  assert (Hlen : Z.of_nat (length (s_enq s)) <= MaxInt64) by (vm_compute; discriminate).
  assert (Hlen2 : Z.of_nat (length (s_enq s2)) <= MaxInt64) by (vm_compute; discriminate).
  assert (Hc1 : w_closed (s_w s1) = true) by (vm_compute; reflexivity).
  assert (Ho1 : s_once s1 = OnceRunning) by (vm_compute; reflexivity).
  do 4 (split; [vm_compute; reflexivity|]).
  split; [exact (proj1 (writer_conserves WriterDemo.cfg "" WriterDemo.w s eq_refl Hr Hlen))|].
  split; [vm_compute; reflexivity|]. split; [vm_compute; reflexivity|].
  destruct (writer_conserves WriterDemo.cfg "" WriterDemo.w s2 eq_refl Hr2 Hlen2)
    as (_ & _ & _ & _ & _ & _ & _ & Hrace).
  apply (Hrace s1 None Hr1 Hc1 Ho1 Hr12). rewrite Hret. by apply list_elem_of_singleton.
Defined.

Lemma close_complete_witness :
  let s1 := WriterDemo.state (WriterDemo.busy ++ [LClose; LCl 0; LCl 0]) in
  let s2 := WriterDemo.state (WriterDemo.busy ++ [LClose; LCl 0; LCl 0; LCl 0; LRun EvStop; LRun EvRecv; LRun (EvWrite None);
              LRun EvRecv; LRun (EvWrite None); LRun EvEmpty; LRun (EvFinal true true); LCl 0; LCl 0]) in
  s_cl s2 = [KRet None] /\ w_q (s_w s2) = [] /\
  (Forall (fun o => written o = true) (h_out s2) ->
   exists lines, w_file (s_w s2) = "" +:+ log_text lines /\ Forall2 (fun r line => marshal_record r = Some line) (h_sent s1) lines).
Proof.
  intros s1 s2.
  assert (H1 : exec_all (WriterDemo.busy ++ [LClose; LCl 0; LCl 0]) (started WriterDemo.w) = Some s1) by (vm_compute; reflexivity).
  assert (H2 : exec_all [LCl 0; LRun EvStop; LRun EvRecv; LRun (EvWrite None);
              LRun EvRecv; LRun (EvWrite None); LRun EvEmpty; LRun (EvFinal true true); LCl 0; LCl 0] s1 = Some s2) by (vm_compute; reflexivity).
  assert (Hret : s_cl s2 = [KRet None]) by (vm_compute; reflexivity).
  split; [exact Hret|].
  destruct (close_complete WriterDemo.cfg "" WriterDemo.w s1 s2 None) as (Hq & _ & _ & _ & _ & Hl).
  - vm_compute. reflexivity.
  - by eapply exec_all_rtc.
  - vm_compute. reflexivity.
  - vm_compute. reflexivity.
  - vm_compute. repeat constructor.
  - by eapply exec_all_rtc.
  - rewrite Hret. by apply list_elem_of_singleton.
  - vm_compute. discriminate.
  - split; [exact Hq|exact Hl].
Defined.

Lemma writer_progress_witness :
  let s := WriterDemo.state [LEnqueue (WriterDemo.rec "1"); LClose; LCl 0] in
  s_cl s = [KStore] /\ exists l s', step l s s' /\ progress l = true.
Proof.
  intros s. assert (Hs : exec_all [LEnqueue (WriterDemo.rec "1"); LClose; LCl 0] (started WriterDemo.w) = Some s) by (vm_compute; reflexivity).
  split; [vm_compute; reflexivity|].
  destruct (writer_progress WriterDemo.cfg "" WriterDemo.w s eq_refl) as (_ & _ & Hcl & _); [by eapply exec_all_rtc|].
  apply (Hcl 0%nat KStore); [vm_compute; reflexivity|discriminate].
Defined.

(** A write that fails part way leaves the start of a line, and the next
    record is appended to it: one record is counted as dropped, but neither
    can be read back. *)
Theorem torn_write_swallows_next :
  let s := WriterDemo.state ([LEnqueue (WriterDemo.rec "1"); LEnqueue (WriterDemo.rec "2")] ++ WriterDemo.enqueue 0 ++ WriterDemo.enqueue 1 ++
             [LRun EvRecv; LRun (EvWrite (Some 5%nat)); LRun (EvAfter 0 0 true); LRun EvRecv; LRun (EvWrite None); LRun (EvAfter 0 0 true)]) in
  rtc sstep (started WriterDemo.w) s /\ Dropped (s_w s) = 1 /\ map written (h_out s) = [false; true] /\
  length (scanBounded (w_file (s_w s))) = 1%nat /\ ReportFile (Some (w_file (s_w s))) = [].
Proof.
  intros s. split; [|split; [|split; [|split]]]; [|vm_compute; reflexivity..].
  subst s. unfold WriterDemo.state. destruct (exec_all _ _) as [s'|] eqn:E; [by eapply exec_all_rtc|done].
Qed.
