(* ===== verification/Config.v ===== *)
(** * Configuration: [internal/config]

    The operator's source document and its deterministic normalization
    ([source.go]), the defaults and the validator ([validate.go]), the
    runtime configuration ([config.go]) and the strictness checks on the
    parsed YAML tree ([load.go]).  YAML decoding (gopkg.in/yaml.v3) and
    [url.Parse] are parameters.

    A validation message is kept as its format and arguments.  Ranging over
    a map is in the order of [map_to_list]; the order only permutes the
    messages. *)

From S2P Require Import Prelude Float64 GoStrings Crypto Net.
From Stdlib Require Import Ascii.
From stdpp Require Import sorting.
#[local] Open Scope Z_scope.

Section Config.
Context {F : Type} `{Float64 F}.

(** ** Runtime configuration: [config.go] *)

(* src: internal/config/config.go Responses *)
Record Responses := mkResponses { AffinityTTL : duration; MaxAffinityEntries : Z }.

(* src: internal/config/config.go Retry *)
Record Retry := mkRetry {
  MaxAttempts : Z; InitialBackoff : duration; MaxBackoff : duration; Jitter : option bool
}.

(* src: internal/config/config.go Retry.JitterEnabled *)
Definition JitterEnabled (r : Retry) : bool :=
  match Jitter r with None => true | Some b => b end.

(* src: internal/config/config.go Shutdown *)
Record Shutdown := mkShutdown { GracePeriod : duration }.

(* src: internal/config/config.go Listen *)
Record Listen := mkListen { l_Network : string; l_Address : string; l_Mode : string }.

(* src: internal/config/config.go TLS *)
Record TLS := mkTLS { CertFile : string; KeyFile : string }.

(* src: internal/config/config.go Server *)
Record Server := mkServer {
  s_Listen : Listen;
  s_TLS : TLS;
  MaxHeaderBytes : Z;
  MaxBodyBytes : Z;
  MaxResponseBytes : Z;
  MaxInflightRequests : Z;
  MaxBufferedRequestBytes : Z;
  MaxConnections : Z;
  ReadHeaderTimeout : duration;
  ReadBodyTimeout : duration;
  IdleTimeout : duration;
  s_StreamIdleTimeout : duration;
  StreamWriteTimeout : duration;
  AllowPlaintextNonLoopback : bool;
  AdminSocket : string;
  TrustedProxies : list string
}.

(* src: internal/config/config.go TrustedProxyUnix *)
Definition TrustedProxyUnix : string := "unix".

(* src: internal/config/config.go Auth *)
Record AuthCfg := mkAuthCfg { UsersFilePath : string; PepperFile : string }.

(* src: internal/config/config.go BackendNetwork *)
Record BackendNetwork := mkBackendNetwork { bn_Mode : string; bn_CIDRs : list string }.

(* src: internal/config/config.go Landlock *)
Record Landlock := mkLandlock { ll_Mode : string; MinimumABI : Z }.

(* src: internal/config/config.go Security *)
Record Security := mkSecurity {
  sec_BackendNetwork : BackendNetwork; sec_Landlock : Landlock; sec_Seatbelt : string
}.

(* src: internal/config/config.go Logging *)
Record Logging := mkLogging { log_Format : string; log_Level : string }.

(* src: internal/config/config.go Accounting *)
Record Accounting := mkAccounting {
  acc_Enabled : bool;
  acc_Path : string;
  EnsureStreamUsage : option bool;
  ReplayOnStart : option bool;
  ReplayMaxBytes : Z;
  acc_QueueSize : Z;
  Overflow : string;
  FSync : string;
  FSyncInterval : duration;
  UnknownUsageReservation : Z
}.

(* src: internal/config/config.go Limits *)
Record GlobalLimits := mkGlobalLimits {
  GlobalRequestsPerSecond : F;
  GlobalBurst : Z;
  PreauthRequestsPerSecond : F;
  PreauthBurst : Z;
  AuthFailureLogRate : F
}.

(* src: internal/config/config.go Backend *)
Record Backend := mkBackend {
  b_Server : string;
  BaseURL : string;
  UpstreamModel : string;
  APIKeyFile : string;
  ConnectTimeout : duration;
  HeaderTimeout : duration;
  RequestTimeout : duration;
  StreamIdleTimeout : duration;
  MaxConcurrency : Z;
  QueueSize : Z;
  QueueTimeout : duration;
  RelayUpstreamErrors : bool
}.

(* src: internal/config/config.go BackendRef *)
Record BackendRef := mkRef { ref_Name : string; Weight : Z }.

(* src: internal/config/config.go Model *)
Record Model := mkModel {
  m_Type : string; Strategy : string; MaxOutputTokens : Z; m_Backends : list BackendRef
}.

(* src: internal/config/config.go Config *)
Record Config := mkConfig {
  Version : Z;
  c_Server : Server;
  c_Auth : AuthCfg;
  c_Security : Security;
  c_Logging : Logging;
  c_Accounting : Accounting;
  c_Limits : GlobalLimits;
  c_Shutdown : Shutdown;
  c_Responses : Responses;
  c_Retry : Retry;
  Backends : gmap string Backend;
  c_Models : gmap string Model
}.

(** ** Defaults: [validate.go] *)

(** [cmp.Or]: the value unless it is the zero of its type. *)
Definition or_s (s d : string) : string := if String.eqb s "" then d else s.
Definition or_z (z d : Z) : Z := if z =? 0 then d else z.
Definition or_f (x d : F) : F := if f_eqb x (f_of_Z 0) then d else x.
Definition or_p {A} (o : option A) (d : A) : option A := match o with Some _ => o | None => Some d end.

(* src: internal/config/validate.go 24-24 defaultMaxHeaderBytes *)
Definition defaultMaxHeaderBytes : Z := 32768.
(* src: internal/config/validate.go 25-25 defaultMaxBodyBytes *)
Definition defaultMaxBodyBytes : Z := 16777216.
(* src: internal/config/validate.go 26-26 defaultMaxResponseBytes *)
Definition defaultMaxResponseBytes : Z := 67108864.
(* src: internal/config/validate.go 27-27 defaultMaxInflightRequests *)
Definition defaultMaxInflightRequests : Z := 64.
(* src: internal/config/validate.go 28-28 defaultMaxBufferedRequestBytes *)
Definition defaultMaxBufferedRequestBytes : Z := 67108864.
(* src: internal/config/validate.go 30-30 defaultReadHeaderTimeout *)
Definition defaultReadHeaderTimeout : duration := 5 * Second.
(* src: internal/config/validate.go 31-31 defaultReadBodyTimeout *)
Definition defaultReadBodyTimeout : duration := 60 * Second.
(* src: internal/config/validate.go 32-32 defaultIdleTimeout *)
Definition defaultIdleTimeout : duration := 120 * Second.
(* src: internal/config/validate.go 33-33 defaultStreamIdleTimeout *)
Definition defaultStreamIdleTimeout : duration := 120 * Second.
(* src: internal/config/validate.go 34-34 defaultStreamWriteTimeout *)
Definition defaultStreamWriteTimeout : duration := 30 * Second.
(* src: internal/config/validate.go 36-50 defaultConnectTimeout *)
Definition defaultConnectTimeout : duration := 3 * Second.
(* src: internal/config/validate.go 51-51 defaultHeaderTimeout *)
Definition defaultHeaderTimeout : duration := 300 * Second.
(* src: internal/config/validate.go 52-52 defaultRequestTimeout *)
Definition defaultRequestTimeout : duration := 30 * Minute.
(* src: internal/config/validate.go 53-53 defaultBackendQueueSize *)
Definition defaultBackendQueueSize : Z := 32.
(* src: internal/config/validate.go 54-59 defaultQueueTimeout *)
Definition defaultQueueTimeout : duration := 120 * Second.
(* src: internal/config/validate.go 60-60 defaultMaxConcurrency *)
Definition defaultMaxConcurrency : Z := 8.
(* src: internal/config/validate.go 62-68 maxServerConcurrency *)
Definition maxServerConcurrency : Z := 1024.
(* src: internal/config/validate.go 69-69 maxServerQueueSize *)
Definition maxServerQueueSize : Z := 4096.
(* src: internal/config/validate.go 71-73 defaultMaxConnections *)
Definition defaultMaxConnections : Z := 1024.
(* src: internal/config/validate.go 75-75 defaultGlobalRPS *)
Definition defaultGlobalRPS : F := f_of_Z 100.
(* src: internal/config/validate.go 76-76 defaultGlobalBurst *)
Definition defaultGlobalBurst : Z := 200.
(* src: internal/config/validate.go 77-77 defaultPreauthRPS *)
Definition defaultPreauthRPS : F := f_of_Z 100.
(* src: internal/config/validate.go 78-78 defaultPreauthBurst *)
Definition defaultPreauthBurst : Z := 200.
(* src: internal/config/validate.go 79-79 defaultAuthLogRate *)
Definition defaultAuthLogRate : F := f_of_Z 1.
(* src: internal/config/validate.go 80-84 DefaultPreauthSources *)
Definition DefaultPreauthSources : Z := 4096.
(* src: internal/config/validate.go 85-85 defaultAccountingQueue *)
Definition defaultAccountingQueue : Z := 4096.
(* src: internal/config/validate.go 86-88 defaultAccountingReplayMaxBytes *)
Definition defaultAccountingReplayMaxBytes : Z := 2 ^ 30.
(* src: internal/config/validate.go 90-90 defaultAffinityTTL *)
Definition defaultAffinityTTL : duration := 2 * Hour.
(* src: internal/config/validate.go 91-91 defaultMaxAffinityEntries *)
Definition defaultMaxAffinityEntries : Z := 10000.
(* src: internal/config/validate.go 93-93 defaultRetryMaxAttempts *)
Definition defaultRetryMaxAttempts : Z := 1.
(* src: internal/config/validate.go 94-94 defaultRetryMaxAttemptsMax *)
Definition defaultRetryMaxAttemptsMax : Z := 8.
(* src: internal/config/validate.go 95-95 defaultRetryInitialBackoff *)
Definition defaultRetryInitialBackoff : duration := 100 * Millisecond.
(* src: internal/config/validate.go 96-96 defaultRetryMaxBackoff *)
Definition defaultRetryMaxBackoff : duration := 1 * Second.
(* src: internal/config/config.go 19-20 DefaultUsersFile *)
Definition DefaultUsersFile : string := "/etc/mellomting/users.yaml".
(* src: internal/config/config.go 21-22 DefaultPepperFile *)
Definition DefaultPepperFile : string := "/etc/mellomting/auth.pepper".
(* src: internal/config/config.go 23-24 DefaultAccountingPath *)
Definition DefaultAccountingPath : string := "/var/log/mellomting/usage.jsonl".
(* src: internal/config/config.go 25-27 DefaultUnixSocketMode *)
Definition DefaultUnixSocketMode : string := "0660".

(* src: internal/config/validate.go 106-122 applyDefaults *)
Definition default_server (s : Server) : Server :=
  mkServer
    (if String.eqb (l_Network (s_Listen s)) "unix"
     then mkListen (l_Network (s_Listen s)) (l_Address (s_Listen s)) (or_s (l_Mode (s_Listen s)) DefaultUnixSocketMode)
     else s_Listen s)
    (s_TLS s)
    (or_z (MaxHeaderBytes s) defaultMaxHeaderBytes) (or_z (MaxBodyBytes s) defaultMaxBodyBytes)
    (or_z (MaxResponseBytes s) defaultMaxResponseBytes) (or_z (MaxInflightRequests s) defaultMaxInflightRequests)
    (or_z (MaxBufferedRequestBytes s) defaultMaxBufferedRequestBytes) (or_z (MaxConnections s) defaultMaxConnections)
    (or_z (ReadHeaderTimeout s) defaultReadHeaderTimeout) (or_z (ReadBodyTimeout s) defaultReadBodyTimeout)
    (or_z (IdleTimeout s) defaultIdleTimeout) (or_z (s_StreamIdleTimeout s) defaultStreamIdleTimeout)
    (or_z (StreamWriteTimeout s) defaultStreamWriteTimeout)
    (AllowPlaintextNonLoopback s) (AdminSocket s) (TrustedProxies s).

(* src: internal/config/validate.go 124-128 applyDefaults *)
Definition default_security (sec : Security) : Security :=
  let bn := sec_BackendNetwork sec in let ll := sec_Landlock sec in
  mkSecurity (mkBackendNetwork (or_s (bn_Mode bn) "loopback-only") (bn_CIDRs bn))
             (mkLandlock (or_s (ll_Mode ll) "best-effort") (or_z (MinimumABI ll) 6))
             (or_s (sec_Seatbelt sec) "best-effort").

(* src: internal/config/validate.go 136-147 applyDefaults *)
Definition default_accounting (a : Accounting) : Accounting :=
  if acc_Enabled a then
    let fs := or_s (FSync a) "interval" in
    mkAccounting true (or_s (acc_Path a) DefaultAccountingPath)
      (or_p (EnsureStreamUsage a) true) (or_p (ReplayOnStart a) true)
      (or_z (ReplayMaxBytes a) defaultAccountingReplayMaxBytes) (or_z (acc_QueueSize a) defaultAccountingQueue)
      (or_s (Overflow a) "drop-and-alert") fs
      (if String.eqb fs "interval" then or_z (FSyncInterval a) (5 * Second) else FSyncInterval a)
      (UnknownUsageReservation a)
  else a.

(* src: internal/config/validate.go 165-173 applyDefaults *)
Definition default_backend (b : Backend) : Backend :=
  mkBackend (b_Server b) (BaseURL b) (UpstreamModel b) (APIKeyFile b)
    (or_z (ConnectTimeout b) defaultConnectTimeout) (or_z (HeaderTimeout b) defaultHeaderTimeout)
    (or_z (RequestTimeout b) defaultRequestTimeout) (or_z (StreamIdleTimeout b) defaultStreamIdleTimeout)
    (MaxConcurrency b) (QueueSize b) (QueueTimeout b) (RelayUpstreamErrors b).

(* src: internal/config/validate.go 175-189 applyDefaults *)
Definition default_model (m : Model) : Model :=
  mkModel (or_s (m_Type m) "generation")
    (if String.eqb (Strategy m) ""
     then if (1 <? length (m_Backends m))%nat then "least-inflight" else "single"
     else Strategy m)
    (MaxOutputTokens m)
    (map (fun r => mkRef (ref_Name r) (or_z (Weight r) 1)) (m_Backends m)).

(* src: internal/config/validate.go applyDefaults *)
Definition applyDefaults (c : Config) : Config :=
  let l := c_Limits c in
  mkConfig (Version c) (default_server (c_Server c))
    (mkAuthCfg (or_s (UsersFilePath (c_Auth c)) DefaultUsersFile)
               (or_s (PepperFile (c_Auth c)) DefaultPepperFile))
    (default_security (c_Security c))
    (mkLogging (or_s (log_Format (c_Logging c)) "json") (or_s (log_Level (c_Logging c)) "info"))
    (default_accounting (c_Accounting c))
    (mkGlobalLimits (or_f (GlobalRequestsPerSecond l) defaultGlobalRPS) (or_z (GlobalBurst l) defaultGlobalBurst)
       (or_f (PreauthRequestsPerSecond l) defaultPreauthRPS) (or_z (PreauthBurst l) defaultPreauthBurst)
       (or_f (AuthFailureLogRate l) defaultAuthLogRate))
    (mkShutdown (or_z (GracePeriod (c_Shutdown c)) (30 * Second)))
    (mkResponses (or_z (AffinityTTL (c_Responses c)) defaultAffinityTTL)
                 (or_z (MaxAffinityEntries (c_Responses c)) defaultMaxAffinityEntries))
    (mkRetry (or_z (MaxAttempts (c_Retry c)) defaultRetryMaxAttempts)
             (or_z (InitialBackoff (c_Retry c)) defaultRetryInitialBackoff)
             (or_z (MaxBackoff (c_Retry c)) defaultRetryMaxBackoff) (Jitter (c_Retry c)))
    (default_backend <$> Backends c) (default_model <$> c_Models c).

(** ** Validation: [validate.go] *)

(** A message: its format, string arguments and number arguments. *)
Inductive cfg_error := E (fmt : string) (ss : list string) (zs : list Z).
#[global] Instance cfg_error_eq_dec : EqDecision cfg_error.
Proof. solve_decision. Defined.

Definition when (b : bool) (e : cfg_error) : list cfg_error := if b then [e] else [].
Definition e0 (s : string) : cfg_error := E s [] [].
Definition IsAbs (p : string) : bool := has_prefix "/" p.

(** ** Hosts *)
(* src: internal/config/validate.go isLoopbackHost *)
Definition isLoopbackHost (host : string) : bool :=
  match ParseAddr host with Some a => addr_is_loopback a | None => false end.

(* src: internal/config/validate.go IsNonLoopbackHost *)
Definition IsNonLoopbackHost (host : string) : bool :=
  match ParseAddr host with Some a => negb (addr_is_loopback a) | None => true end.

(* src: internal/config/validate.go IsNonLoopbackListenAddress *)
Definition IsNonLoopbackListenAddress (addr : string) : bool :=
  match SplitHostPort addr with None => true | Some (host, _) => IsNonLoopbackHost host end.

(* src: internal/config/validate.go inAnyPrefix *)
Definition inAnyPrefix (a : Addr) (ps : list Prefix) : bool := existsb (fun p => prefix_contains p a) ps.

(* src: internal/config/validate.go TLSConfigured *)
Definition TLSConfigured (t : TLS) : bool :=
  negb (String.eqb (CertFile t) "") || negb (String.eqb (KeyFile t) "").

(** One entry of [trusted_proxies]. *)
(* src: internal/config/validate.go 226-243 validateTrustedProxies *)
Definition trusted_proxy_entry (s : Server) (seen : gset string) (entry : string) : list cfg_error :=
  if bool_decide (entry ∈ seen) then [E "server.trusted_proxies: duplicate entry %q" [entry] []]
  else if String.eqb entry TrustedProxyUnix then
    when (negb (String.eqb (l_Network (s_Listen s)) "unix"))
      (e0 "server.trusted_proxies: unix requires server.listen.network: unix")
  else match ParsePrefix entry with
  | None => [E "server.trusted_proxies: %q is not a CIDR like 127.0.0.1/32 (or the literal %q)" [entry; TrustedProxyUnix] []]
  | Some p =>
      if negb (bool_decide (p_addr p = p_addr (Masked p)))
      then [E "server.trusted_proxies: %q has bits set below the prefix length" [entry] []]
      else when (String.eqb (l_Network (s_Listen s)) "unix")
        (E "server.trusted_proxies: %q cannot match a Unix listener; use %q" [entry; TrustedProxyUnix] [])
  end.

Fixpoint trusted_proxies_loop (s : Server) (seen : gset string) (l : list string) : list cfg_error :=
  match l with
  | [] => []
  | entry :: l => trusted_proxy_entry s seen entry ++ trusted_proxies_loop s ({[entry]} ∪ seen) l
  end.

(* src: internal/config/validate.go validateTrustedProxies *)
Definition validateTrustedProxies (s : Server) : list cfg_error :=
  trusted_proxies_loop s ∅ (TrustedProxies s).

(** The listener part of [validateServer]. *)
(* src: internal/config/validate.go 252-282 validateServer *)
Definition validate_listen (s : Server) : list cfg_error :=
  let l := s_Listen s in
  if String.eqb (l_Network l) "tcp" then
    when (negb (String.eqb (l_Mode l) "")) (e0 "server.listen.mode: only valid for network unix") ++
    match SplitHostPort (l_Address l) with
    | None => [E "server.listen.address: %q must be host:port for network tcp" [l_Address l] []]
    | Some (host, _) =>
        when (IsNonLoopbackHost host && negb (TLSConfigured (s_TLS s)) && negb (AllowPlaintextNonLoopback s))
          (e0 "server: non-loopback TCP listener requires tls configuration or allow_plaintext_non_loopback: true")
    end
  else if String.eqb (l_Network l) "unix" then
    (if String.eqb (l_Address l) "" then [e0 "server.listen.address: required for network unix"]
     else when (negb (IsAbs (l_Address l))) (E "server.listen.address: %q must be an absolute path" [l_Address l] [])) ++
    when (match ParseUint (l_Mode l) 8 16 with
          | None => true
          | Some mode => (mode =? 0) || (511 <? mode)
          end) (E "server.listen.mode: %q must be an octal mode like 0660" [l_Mode l] [])
  else
    e0 "server.listen.network: required, one of unix or tcp" ::
    when (negb (String.eqb (l_Mode l) "")) (e0 "server.listen.mode: only valid for network unix").

(* src: internal/config/validate.go validateServer *)
Definition validateServer (s : Server) : list cfg_error :=
  validate_listen s ++
  when (negb (String.eqb (AdminSocket s) "") && negb (IsAbs (AdminSocket s)))
    (E "server.admin_socket: %q must be an absolute path" [AdminSocket s] []) ++
  when (negb (String.eqb (AdminSocket s) "") && String.eqb (AdminSocket s) (l_Address (s_Listen s)))
    (e0 "server.admin_socket: must differ from server.listen.address") ++
  validateTrustedProxies s ++
  when (MaxHeaderBytes s <=? 0) (e0 "server.max_header_bytes: must be > 0") ++
  when (MaxBodyBytes s <=? 0) (e0 "server.max_body_bytes: must be > 0") ++
  when (MaxResponseBytes s <=? 0) (e0 "server.max_response_bytes: must be > 0") ++
  when (MaxInflightRequests s <=? 0) (e0 "server.max_inflight_requests: must be > 0") ++
  when (MaxBufferedRequestBytes s <=? 0) (e0 "server.max_buffered_request_bytes: must be > 0") ++
  when (MaxConnections s <=? 0) (e0 "server.max_connections: must be > 0") ++
  when (ReadHeaderTimeout s <=? 0) (e0 "server.read_header_timeout: must be > 0") ++
  when (ReadBodyTimeout s <=? 0) (e0 "server.read_body_timeout: must be > 0") ++
  when (IdleTimeout s <=? 0) (e0 "server.idle_timeout: must be > 0") ++
  when (s_StreamIdleTimeout s <=? 0) (e0 "server.stream_idle_timeout: must be > 0") ++
  when (StreamWriteTimeout s <=? 0) (e0 "server.stream_write_timeout: must be > 0") ++
  when (String.eqb (l_Network (s_Listen s)) "unix" && TLSConfigured (s_TLS s))
    (e0 "server.tls: only valid when listen network is tcp") ++
  when (TLSConfigured (s_TLS s) && (String.eqb (CertFile (s_TLS s)) "" || String.eqb (KeyFile (s_TLS s)) ""))
    (e0 "server.tls: cert_file and key_file are required together").

(* src: internal/config/validate.go validateAuth *)
Definition validateAuth (a : AuthCfg) : list cfg_error :=
  (if String.eqb (UsersFilePath a) "" then [e0 "auth.users_file: required"]
   else when (negb (IsAbs (UsersFilePath a))) (e0 "auth.users_file: must be an absolute path")) ++
  (if String.eqb (PepperFile a) "" then [e0 "auth.pepper_file: required"]
   else when (negb (IsAbs (PepperFile a))) (e0 "auth.pepper_file: must be an absolute path")).

Definition one_of (l : list string) (s : string) : bool := existsb (String.eqb s) l.
Definition sandbox_modes : list string := ["required"; "best-effort"; "disabled"].
Definition MaxABI : Z := 9.

(* src: internal/config/validate.go validateSecurity *)
Definition validateSecurity (s : Security) : list cfg_error :=
  let bn := sec_BackendNetwork s in
  let ll := sec_Landlock s in
  (if one_of ["loopback-only"; "any"] (bn_Mode bn) then
     when (negb (bool_decide (bn_CIDRs bn = [])))
       (e0 "security.backend_network.cidrs: only valid when mode is allowed-cidrs")
   else if String.eqb (bn_Mode bn) "allowed-cidrs" then
     when (bool_decide (bn_CIDRs bn = []))
       (e0 "security.backend_network.cidrs: required when mode is allowed-cidrs") ++
     flat_map (fun cidr => match ParseCIDR cidr with
                           | None => [E "security.backend_network.cidrs: %q is not a valid CIDR" [cidr] []]
                           | Some _ => []
                           end) (bn_CIDRs bn)
   else [E "security.backend_network.mode: %q must be loopback-only, allowed-cidrs, or any" [bn_Mode bn] []]) ++
  when (negb (one_of sandbox_modes (ll_Mode ll)))
    (E "security.landlock.mode: %q must be required, best-effort, or disabled" [ll_Mode ll] []) ++
  when ((MinimumABI ll <? 1) || (MaxABI <? MinimumABI ll))
    (E "security.landlock.minimum_abi: %d out of range 1..%d" [] [MinimumABI ll; MaxABI]) ++
  when (negb (one_of sandbox_modes (sec_Seatbelt s)))
    (E "security.seatbelt.mode: %q must be required, best-effort, or disabled" [sec_Seatbelt s] []).

(* src: internal/config/validate.go validateLogging *)
Definition validateLogging (l : Logging) : list cfg_error :=
  when (negb (one_of ["json"; "text"] (log_Format l)))
    (E "logging.format: %q must be json or text" [log_Format l] []) ++
  when (negb (one_of ["debug"; "info"; "warn"; "error"] (log_Level l)))
    (E "logging.level: %q must be debug, info, warn, or error" [log_Level l] []).

(* src: internal/config/validate.go validateAccounting *)
Definition validateAccounting (a : Accounting) : list cfg_error :=
  if negb (acc_Enabled a) then
    when (negb (String.eqb (acc_Path a) "") || bool_decide (is_Some (ReplayOnStart a))
          || negb (ReplayMaxBytes a =? 0) || negb (acc_QueueSize a =? 0)
          || negb (String.eqb (Overflow a) "") || negb (String.eqb (FSync a) "")
          || negb (FSyncInterval a =? 0))
      (e0 "accounting: remaining fields must be empty when enabled is false") ++
    when (UnknownUsageReservation a <? 0) (e0 "accounting.unknown_usage_reservation: must be >= 0")
  else
    when (String.eqb (acc_Path a) "") (e0 "accounting.path: required when accounting is enabled") ++
    when (acc_QueueSize a <=? 0) (e0 "accounting.queue_size: must be > 0 when accounting is enabled") ++
    when (ReplayMaxBytes a <? 0) (e0 "accounting.replay_max_bytes: must be >= 0") ++
    when (UnknownUsageReservation a <? 0) (e0 "accounting.unknown_usage_reservation: must be >= 0") ++
    when (negb (String.eqb (Overflow a) "drop-and-alert"))
      (E "accounting.overflow: %q must be drop-and-alert" [Overflow a] []) ++
    (if String.eqb (FSync a) "interval" then
       when (FSyncInterval a <=? 0) (e0 "accounting.fsync_interval: must be > 0 when fsync is interval")
     else if one_of ["every"; "never"] (FSync a) then
       when (negb (FSyncInterval a =? 0)) (e0 "accounting.fsync_interval: only valid when fsync is interval")
     else [E "accounting.fsync: %q must be interval, every, or never" [FSync a] []]).

(* src: internal/config/validate.go validateLimits *)
Definition validateLimits (l : GlobalLimits) : list cfg_error :=
  when (f_leb (GlobalRequestsPerSecond l) (f_of_Z 0)) (e0 "limits.global_requests_per_second: must be > 0") ++
  when (GlobalBurst l <=? 0) (e0 "limits.global_burst: must be > 0") ++
  when (f_leb (PreauthRequestsPerSecond l) (f_of_Z 0)) (e0 "limits.preauth_requests_per_second: must be > 0") ++
  when (PreauthBurst l <=? 0) (e0 "limits.preauth_burst: must be > 0") ++
  when (f_leb (AuthFailureLogRate l) (f_of_Z 0)) (e0 "limits.auth_failure_log_rate: must be > 0").

(* src: internal/config/validate.go validateShutdown *)
Definition validateShutdown (s : Shutdown) : list cfg_error :=
  when (GracePeriod s <=? 0) (e0 "shutdown.grace_period: must be > 0").

(* src: internal/config/validate.go validateResponses *)
Definition validateResponses (r : Responses) : list cfg_error :=
  when (AffinityTTL r <=? 0) (e0 "responses.affinity_ttl: must be > 0") ++
  when (MaxAffinityEntries r <=? 0) (e0 "responses.max_affinity_entries: must be > 0").

(* src: internal/config/validate.go validateRetry *)
Definition validateRetry (r : Retry) : list cfg_error :=
  when ((MaxAttempts r <? 1) || (defaultRetryMaxAttemptsMax <? MaxAttempts r))
    (E "retry.max_attempts: %d out of range 1..%d" [] [MaxAttempts r; defaultRetryMaxAttemptsMax]) ++
  when (InitialBackoff r <=? 0) (e0 "retry.initial_backoff: must be > 0") ++
  when (MaxBackoff r <=? 0) (e0 "retry.max_backoff: must be > 0") ++
  when (MaxBackoff r <? InitialBackoff r) (e0 "retry.initial_backoff: must not exceed retry.max_backoff").

Section WithURL.
(** [url.Parse]; [None] is its error. *)
Variable url_parse : string -> option URL.

(** The checks on one backend. *)
(* src: internal/config/validate.go 543-611 validateBackends *)
Definition validate_backend (bn : BackendNetwork) (allowed : list Prefix) (name : string) (b : Backend)
  : list cfg_error :=
  let prefix := "backends." +:+ name in
  match (if String.eqb (BaseURL b) "" then None else url_parse (BaseURL b)) with
  | None => [e0 (prefix +:+ ".base_url: is not a valid URL")]
  | Some u =>
      when (negb (one_of ["http"; "https"] (u_Scheme u)))
        (E "%s.base_url: unsupported scheme %q (want http or https)" [prefix; u_Scheme u] []) ++
      when (u_User u) (E "%s.base_url: userinfo is not supported" [prefix] []) ++
      when (negb (String.eqb (u_RawQuery u) "")) (E "%s.base_url: query strings are not supported" [prefix] []) ++
      when (negb (String.eqb (u_Fragment u) "")) (E "%s.base_url: fragments are not supported" [prefix] []) ++
      when (negb (String.eqb (u_Path u) "") && negb (String.eqb (u_Path u) "/"))
        (E "%s.base_url: path %q must be empty or /" [prefix; u_Path u] []) ++
      (let bad := [E "%s.base_url: host %q is malformed or missing a port" [prefix; u_Host u] []] in
       match SplitHostPort (u_Host u) with
       | None => bad
       | Some (host, port) =>
           if String.eqb host "" || String.eqb port "" then bad
           else
             when (String.eqb (bn_Mode bn) "loopback-only" && negb (isLoopbackHost host))
               (E "%s.base_url: %q is not a loopback IP literal; loopback-only mode requires a literal loopback destination" [prefix; host] []) ++
             (if String.eqb (bn_Mode bn) "allowed-cidrs" then
                match ParseAddr host with
                | Some a => when (negb (inAnyPrefix a allowed))
                    (E "%s.base_url: %q is not within security.backend_network.cidrs" [prefix; host] [])
                | None => []
                end
              else [])
       end) ++
      when (String.eqb (UpstreamModel b) "") (e0 (prefix +:+ ".upstream_model: required")) ++
      when (ConnectTimeout b <=? 0) (e0 (prefix +:+ ".connect_timeout: must be > 0")) ++
      when (HeaderTimeout b <=? 0) (e0 (prefix +:+ ".header_timeout: must be > 0")) ++
      when (RequestTimeout b <=? 0) (e0 (prefix +:+ ".request_timeout: must be > 0")) ++
      when (StreamIdleTimeout b <=? 0) (e0 (prefix +:+ ".stream_idle_timeout: must be > 0")) ++
      when (MaxConcurrency b <? 1) (e0 (prefix +:+ ".max_concurrency: must be >= 1")) ++
      when (QueueSize b <? 0) (e0 (prefix +:+ ".queue_size: must be >= 0")) ++
      when (QueueTimeout b <=? 0) (e0 (prefix +:+ ".queue_timeout: must be > 0"))
  end.

(* src: internal/config/validate.go validateBackends *)
Definition validateBackends (backends : gmap string Backend) (bn : BackendNetwork) : list cfg_error :=
  if (size backends =? 0)%nat then [e0 "backends: at least one backend is required"]
  else
    let allowed := omap ParsePrefix (bn_CIDRs bn) in
    flat_map (fun nb => validate_backend bn allowed nb.1 nb.2) (map_to_list backends).

(* src: internal/config/validate.go SupportedStrategies *)
Definition SupportedStrategies : list string :=
  ["single"; "round-robin"; "weighted-round-robin"; "least-inflight"; "weighted-least-inflight"].

(* src: internal/config/validate.go ModelWildcard *)
Definition ModelWildcard : string := "*".

(* src: internal/config/validate.go ValidateModelName *)
Definition ValidateModelName (name : string) : option cfg_error :=
  if String.eqb name ModelWildcard then
    Some (E "%q is the ACL wildcard and cannot name a model" [ModelWildcard] [])
  else if contains_char ","%char name then
    Some (e0 "a model name cannot contain a comma, which separates entries in a key's model list")
  else None.

(** The loop over a model's backend references. *)
(* src: internal/config/validate.go 676-693 validateModels *)
Fixpoint validate_refs (prefix : string) (backends : gmap string Backend) (seen : gset string)
    (refs : list BackendRef) : list cfg_error :=
  match refs with
  | [] => []
  | ref :: refs =>
      if String.eqb (ref_Name ref) "" then
        e0 (prefix +:+ ".backends: empty backend reference") :: validate_refs prefix backends seen refs
      else
        when (bool_decide (backends !! ref_Name ref = None))
          (E "%s.backends: unknown backend %q" [prefix; ref_Name ref] []) ++
        when (bool_decide (ref_Name ref ∈ seen))
          (E "%s.backends: duplicate backend %q" [prefix; ref_Name ref] []) ++
        when (Weight ref <? 0) (E "%s.backends: %q has a negative weight" [prefix; ref_Name ref] []) ++
        validate_refs prefix backends ({[ref_Name ref]} ∪ seen) refs
  end.

(* src: internal/config/validate.go 653-698 validateModels *)
Definition validate_model (backends : gmap string Backend) (name : string) (m : Model) : list cfg_error :=
  let prefix := "models." +:+ name in
  match ValidateModelName name with
  | Some (E f ss zs) => [E (prefix +:+ ": " +:+ f) ss zs]
  | None => []
  end ++
  when (negb (one_of ["generation"; "embedding"] (m_Type m)))
    (E "%s.type: %q must be generation or embedding" [prefix; m_Type m] []) ++
  when (negb (one_of SupportedStrategies (Strategy m)))
    (E "%s.strategy: %q is not a supported routing strategy" [prefix; Strategy m] []) ++
  when (String.eqb (Strategy m) "single" && negb (length (m_Backends m) =? 1)%nat)
    (E "%s: strategy single requires exactly one backend" [prefix] []) ++
  when (length (m_Backends m) =? 0)%nat
    (e0 (prefix +:+ ".backends: at least one backend reference is required")) ++
  validate_refs prefix backends ∅ (m_Backends m) ++
  when (MaxOutputTokens m <? 0) (e0 (prefix +:+ ".policy.max_output_tokens: must be >= 0")).

(* src: internal/config/validate.go validateModels *)
Definition validateModels (models : gmap string Model) (backends : gmap string Backend) : list cfg_error :=
  if (size models =? 0)%nat then [e0 "models: at least one public model is required"]
  else flat_map (fun nm => validate_model backends nm.1 nm.2) (map_to_list models).

(* src: internal/config/validate.go validate *)
Definition validate (c : Config) : list cfg_error :=
  when (negb (Version c =? 1)) (E "version: %d is not supported (want 1)" [] [Version c]) ++
  validateServer (c_Server c) ++ validateAuth (c_Auth c) ++ validateSecurity (c_Security c) ++
  validateLogging (c_Logging c) ++ validateAccounting (c_Accounting c) ++ validateLimits (c_Limits c) ++
  validateShutdown (c_Shutdown c) ++ validateResponses (c_Responses c) ++ validateRetry (c_Retry c) ++
  validateBackends (Backends c) (sec_BackendNetwork (c_Security c)) ++
  validateModels (c_Models c) (Backends c).
End WithURL.

(** ** The source document and its normalization: [source.go] *)

(* src: internal/config/source.go sourceServer *)
Record sourceServer := mkSourceServer {
  ss_URL : string;
  ss_APIKeyFile : string;
  ss_Relay : bool;
  ss_MaxConcurrency : option Z;
  ss_QueueSize : option Z;
  ss_QueueTimeout : option duration
}.

Record admission_limits := mkAdmission { conc : Z; queue : Z; wait : duration }.

(* src: internal/config/source.go sourceServer.admission *)
Definition admission (s : sourceServer) (name : string) : admission_limits * list cfg_error :=
  let conc := default defaultMaxConcurrency (ss_MaxConcurrency s) in
  let queue := default defaultBackendQueueSize (ss_QueueSize s) in
  let wait := default defaultQueueTimeout (ss_QueueTimeout s) in
  (mkAdmission conc queue wait,
   when ((conc <? 1) || (maxServerConcurrency <? conc))
     (E "servers.%s.max_concurrency: must be between 1 and %d, got %d" [name] [maxServerConcurrency; conc]) ++
   when ((queue <? 0) || (maxServerQueueSize <? queue))
     (E "servers.%s.queue_size: must be between 0 and %d, got %d" [name] [maxServerQueueSize; queue]) ++
   when ((wait <=? 0) || (defaultRequestTimeout <? wait))
     (E "servers.%s.queue_timeout: must be > 0 and at most request_timeout (%s), got %s" [name] [defaultRequestTimeout; wait])).

(* src: internal/config/source.go sourceModel *)
Record sourceModel := mkSourceModel {
  sm_Type : string; sm_Strategy : string; sm_MaxOutputTokens : Z;
  sm_Servers : list string; sm_UpstreamModel : string
}.

(* src: internal/config/source.go sourceDoc *)
Record sourceDoc := mkSourceDoc {
  d_Version : Z;
  d_Server : Server;
  d_Auth : AuthCfg;
  d_Security : Security;
  d_Logging : Logging;
  d_Accounting : Accounting;
  d_Limits : GlobalLimits;
  d_Shutdown : Shutdown;
  d_Responses : Responses;
  d_Retry : Retry;
  Servers : gmap string sourceServer;
  d_Models : gmap string sourceModel
}.

(* src: internal/config/source.go defaultBackendName *)
Definition defaultBackendName (publicModel server : string) : string :=
  "auto-" +:+ server +:+ "-" +:+
  stake 12 (hex_encode (sha256 (publicModel +:+ String "000"%char server))).

(** [slices.Sorted(maps.Keys(m))]: bytewise order. *)
Definition string_le (a b : string) : Prop := String.leb a b = true.
#[global] Instance string_le_dec a b : Decision (string_le a b).
Proof. unfold string_le. apply _. Defined.
Definition sorted_keys {A} (m : gmap string A) : list string :=
  merge_sort string_le (map_to_list m).*1.

(** The state of the normalization loops. *)
Record norm_state := mkNorm {
  ns_errs : list cfg_error;
  ns_backends : gmap string Backend;
  ns_models : gmap string Model;
  ns_referenced : gset string
}.

Section Normalize.
Variable doc : sourceDoc.
Variable backendName : string -> string -> string.

Definition limits_of (server : string) : admission_limits :=
  match Servers doc !! server with
  | Some s => (admission s server).1
  | None => mkAdmission 0 0 0
  end.

(** One server of a model: [seen] and [refs] are the model's own. *)
(* src: internal/config/source.go 159-185 normalizeSourceWith *)
Definition norm_server (publicName upstream server : string) (seen : gset string)
    (refs : list BackendRef) (st : norm_state) : gset string * list BackendRef * norm_state :=
  let fail e := mkNorm (ns_errs st ++ [e]) (ns_backends st) (ns_models st) (ns_referenced st) in
  if bool_decide (server ∈ seen) then
    (seen, refs, fail (E "models.%s.servers: duplicate server %q" [publicName; server] []))
  else
    let seen := {[server]} ∪ seen in
    match Servers doc !! server with
    | None => (seen, refs, fail (E "models.%s.servers: unknown server %q" [publicName; server] []))
    | Some s =>
        let name := backendName publicName server in
        if bool_decide (is_Some (ns_backends st !! name)) then
          (seen, refs, fail (E "generated backend name collision: %s" [name] []))
        else
          let a := limits_of server in
          let b := mkBackend server (ss_URL s) upstream (ss_APIKeyFile s) 0 0 0 0
                     (conc a) (queue a) (wait a) (ss_Relay s) in
          (seen, refs ++ [mkRef name 1],
           mkNorm (ns_errs st) (<[name := b]> (ns_backends st)) (ns_models st)
                  ({[server]} ∪ ns_referenced st))
    end.

Fixpoint norm_servers (publicName upstream : string) (servers : list string) (seen : gset string)
    (refs : list BackendRef) (st : norm_state) : list BackendRef * norm_state :=
  match servers with
  | [] => (refs, st)
  | server :: servers =>
      let '(seen, refs, st) := norm_server publicName upstream server seen refs st in
      norm_servers publicName upstream servers seen refs st
  end.

(* src: internal/config/source.go 147-193 normalizeSourceWith *)
Definition norm_model (st : norm_state) (publicName : string) : norm_state :=
  match d_Models doc !! publicName with
  | None => st
  | Some sm =>
      if bool_decide (sm_Servers sm = []) then
        mkNorm (ns_errs st ++ [E "models.%s.servers: at least one server is required" [publicName] []])
               (ns_backends st) (ns_models st) (ns_referenced st)
      else
        let upstream := if String.eqb (sm_UpstreamModel sm) "" then publicName else sm_UpstreamModel sm in
        let '(refs, st) := norm_servers publicName upstream (sm_Servers sm) ∅ [] st in
        mkNorm (ns_errs st) (ns_backends st)
               (<[publicName := mkModel (sm_Type sm) (sm_Strategy sm) (sm_MaxOutputTokens sm) refs]> (ns_models st))
               (ns_referenced st)
  end.

(** The errors found before the models are visited. *)
Definition norm_init : norm_state :=
  mkNorm
    (flat_map (fun name => match Servers doc !! name with
                           | Some s => (admission s name).2 | None => [] end) (sorted_keys (Servers doc)) ++
     when (size (Servers doc) =? 0)%nat (e0 "servers: at least one server is required") ++
     when (size (d_Models doc) =? 0)%nat (e0 "models: at least one model is required"))
    ∅ ∅ ∅.

(* src: internal/config/source.go normalizeSourceWith *)
Definition normalizeSourceWith : result (list cfg_error) Config :=
  let st := foldl norm_model norm_init (sorted_keys (d_Models doc)) in
  let errs := ns_errs st ++
    flat_map (fun ns => when (negb (bool_decide (ns.1 ∈ ns_referenced st)))
                          (E "servers.%s: not referenced by any model" [ns.1] [])) (map_to_list (Servers doc)) in
  if bool_decide (errs = []) then
    Ok (mkConfig (d_Version doc) (d_Server doc) (d_Auth doc) (d_Security doc) (d_Logging doc)
          (d_Accounting doc) (d_Limits doc) (d_Shutdown doc) (d_Responses doc) (d_Retry doc)
          (ns_backends st) (ns_models st))
  else Err errs.
End Normalize.

(* src: internal/config/source.go normalizeSource *)
Definition normalizeSource (doc : sourceDoc) : result (list cfg_error) Config :=
  normalizeSourceWith doc defaultBackendName.

(** ** The effective source projection *)

(* src: internal/config/source.go effectiveServer *)
Record effectiveServer := mkEffServer {
  es_URL : string; es_APIKeyFile : string; es_Relay : bool;
  es_MaxConcurrency : Z; es_QueueSize : Z; es_QueueTimeout : duration
}.

(* src: internal/config/source.go effectiveModel *)
Record effectiveModel := mkEffModel {
  em_Type : string; em_Strategy : string; em_MaxOutputTokens : Z;
  em_Servers : list string; em_UpstreamModel : string
}.

(* src: internal/config/source.go effectiveDoc *)
Record effectiveDoc := mkEffDoc {
  e_Version : Z;
  e_Server : Server;
  e_Auth : AuthCfg;
  e_Security : Security;
  e_Logging : Logging;
  e_Accounting : Accounting;
  e_Limits : GlobalLimits;
  e_Shutdown : Shutdown;
  e_Responses : Responses;
  e_Retry : Retry;
  e_Servers : gmap string effectiveServer;
  e_Models : gmap string effectiveModel
}.

(* src: internal/config/source.go effectiveSource *)
Definition effectiveSource (doc : sourceDoc) (cfg : Config) : effectiveDoc :=
  let servers := map_imap (fun name s =>
    let a := (admission s name).1 in
    Some (mkEffServer (ss_URL s) (ss_APIKeyFile s) (ss_Relay s) (conc a) (queue a) (wait a))) (Servers doc) in
  let models := map_imap (fun name sm =>
    let m := default (mkModel "" "" 0 []) (c_Models cfg !! name) in
    let upstream := if String.eqb (sm_UpstreamModel sm) "" then name else sm_UpstreamModel sm in
    Some (mkEffModel (m_Type m) (Strategy m) (MaxOutputTokens m) (sm_Servers sm) upstream)) (d_Models doc) in
  mkEffDoc (Version cfg) (c_Server cfg) (c_Auth cfg) (c_Security cfg) (c_Logging cfg) (c_Accounting cfg)
    (c_Limits cfg) (c_Shutdown cfg) (c_Responses cfg) (c_Retry cfg) servers models.

(** ** Loading: [load.go] *)

(** A node of the YAML tree as the parser returns it. *)
Inductive ykind := YDocument | YSequence | YMapping | YScalar | YAlias.
Inductive ynode := YNode (kind : ykind) (tag anchor : string) (line : Z) (content : list ynode).

Inductive parse_error :=
| PEmpty                       (* empty YAML document *)
| PMulti                       (* multi-document YAML is not allowed *)
| PYaml                        (* an error of the YAML library *)
| PAlias (line : Z)
| PTag (line : Z) (tag : string)
| PInvalid (errs : list cfg_error).

(* src: internal/config/load.go allowedTag *)
Definition allowedTag (tag : string) : bool :=
  let plain t := one_of [""; "str"; "int"; "float"; "bool"; "null"; "seq"; "map"; "timestamp"] t in
  if String.eqb tag "" then true
  else if has_prefix "!!" tag then plain (trim_prefix "!!" tag)
  else if has_prefix "tag:yaml.org,2002:" tag then plain (trim_prefix "tag:yaml.org,2002:" tag)
  else false.

(* src: internal/config/load.go CheckYAMLTree *)
Fixpoint CheckYAMLTree (n : ynode) : result parse_error unit :=
  match n with
  | YNode YAlias _ _ line _ => Err (PAlias line)
  | YNode _ tag _ line content =>
      if negb (allowedTag tag) then Err (PTag line tag)
      else (fix walk l := match l with
                          | [] => Ok tt
                          | c :: l => match CheckYAMLTree c with Ok _ => walk l | Err e => Err e end
                          end) content
  end.

(** The YAML library yields a stream of documents; [None] is a decoding
    error, which ends it. *)
(* src: internal/config/load.go CheckSingleDocument *)
Definition CheckSingleDocument (docs : list (option ynode)) : result parse_error ynode :=
  match docs with
  | [] => Err PEmpty
  | None :: _ => Err PYaml
  | [Some n] => Ok n
  | Some _ :: Some _ :: _ => Err PMulti
  | Some _ :: None :: _ => Err PYaml
  end.

Section Parse.
(** gopkg.in/yaml.v3: the document stream of a byte string, whether a
    document decodes to a map with distinct keys, and the strict decoding of
    a document into the source schema. *)
Variable yaml_stream : string -> list (option ynode).
Variable yaml_is_map : ynode -> bool.
Variable yaml_decode : ynode -> option sourceDoc.
Variable url_parse : string -> option URL.

(* src: internal/config/load.go checkShape *)
Definition checkShape (docs : list (option ynode)) : result parse_error ynode :=
  let? n := CheckSingleDocument docs in
  if yaml_is_map n then Ok n else Err PYaml.

(* src: internal/config/load.go parse *)
Definition parse (data : string) : result parse_error (Config * effectiveDoc) :=
  let? n := checkShape (yaml_stream data) in
  let? _ := CheckYAMLTree n in
  match yaml_decode n with
  | None => Err PYaml
  | Some doc =>
      match normalizeSource doc with
      | Err errs => Err (PInvalid errs)
      | Ok cfg =>
          let cfg := applyDefaults cfg in
          match validate url_parse cfg with
          | [] => Ok (cfg, effectiveSource doc cfg)
          | errs => Err (PInvalid errs)
          end
      end
  end.

(* src: internal/config/load.go Parse *)
Definition Parse (data : string) : result parse_error Config :=
  match parse data with Ok (cfg, _) => Ok cfg | Err e => Err e end.

(* src: internal/config/load.go ParseEffective *)
Definition ParseEffective (data : string) : result parse_error (Config * effectiveDoc) := parse data.
End Parse.
End Config.
