(* ===== verification/ConfigFacts.v ===== *)
(** * Configuration: theorems

    What normalization produces and when it succeeds, what an accepted
    configuration guarantees to the rest of the program, and the round trip
    of the effective projection. *)

From S2P Require Import Prelude Float64 GoStrings Crypto Net Config.
From Stdlib Require Import Ascii QArith.
From stdpp Require Import sorting.
#[local] Open Scope Z_scope.

Section Normalization.
Context {F : Type} `{Float64 F}.
Implicit Types (doc : sourceDoc (F := F)) (cfg : Config (F := F)) (st : norm_state).

(** ** Specification *)

Definition upstream_of (publicName : string) (sm : sourceModel) : string :=
  if String.eqb (sm_UpstreamModel sm) "" then publicName else sm_UpstreamModel sm.

(** The backend generated for a public model and one of its servers. *)
Definition backend_of doc (upstream server : string) : option Backend :=
  match Servers doc !! server with
  | Some s => Some (mkBackend server (ss_URL s) upstream (ss_APIKeyFile s) 0 0 0 0
      (conc (limits_of doc server)) (queue (limits_of doc server)) (wait (limits_of doc server)) (ss_Relay s))
  | None => None
  end.

(** The (public model, server) pairs of the document, models in sorted order. *)
Definition model_pairs doc (name : string) : list (string * string) :=
  match d_Models doc !! name with
  | Some sm => map (pair name) (sm_Servers sm)
  | None => []
  end.

Definition limits_ok (a : admission_limits) : Prop :=
  1 <= conc a <= maxServerConcurrency /\ 0 <= queue a <= maxServerQueueSize
  /\ 0 < wait a <= defaultRequestTimeout.

(** What the operator must have written. *)
Record source_ok doc (bn : string -> string -> string) : Prop := {
  sok_servers : Servers doc <> ∅;
  sok_models : d_Models doc <> ∅;
  sok_limits : forall name s, Servers doc !! name = Some s -> limits_ok (admission s name).1;
  sok_model : forall name sm, d_Models doc !! name = Some sm ->
    sm_Servers sm <> [] /\ NoDup (sm_Servers sm)
    /\ forall server, server ∈ sm_Servers sm -> is_Some (Servers doc !! server);
  sok_names : forall n1 s1 n2 s2, (n1, s1) ∈ flat_map (model_pairs doc) (sorted_keys (d_Models doc)) ->
    (n2, s2) ∈ flat_map (model_pairs doc) (sorted_keys (d_Models doc)) ->
    bn n1 s1 = bn n2 s2 -> (n1, s1) = (n2, s2);
  sok_referenced : forall server, is_Some (Servers doc !! server) ->
    exists name sm, d_Models doc !! name = Some sm /\ server ∈ sm_Servers sm
}.

(** ** Lists of messages *)

Lemma when_nil b e : when b e = [] <-> b = false.
Proof. by destruct b. Qed.

Lemma admission_ok s name : (admission s name).2 = [] <-> limits_ok (admission s name).1.
Proof.
  unfold admission, limits_ok. cbn [fst snd conc queue wait]. rewrite !app_nil, !when_nil, !orb_false_iff.
  rewrite !Z.ltb_ge, Z.leb_gt. lia.
Qed.

Lemma sorted_keys_elem {A} (m : gmap string A) k : k ∈ sorted_keys m <-> is_Some (m !! k).
Proof.
  unfold sorted_keys. rewrite merge_sort_Permutation. rewrite list_elem_of_fmap. split.
  - intros ([k' x] & -> & Hin). apply elem_of_map_to_list in Hin. cbn. eauto.
  - intros [x Hx]. exists (k, x). split; [done|]. by apply elem_of_map_to_list.
Qed.

Lemma sorted_keys_NoDup {A} (m : gmap string A) : NoDup (sorted_keys m).
Proof. unfold sorted_keys. rewrite merge_sort_Permutation. apply NoDup_fst_map_to_list. Qed.

(** ** The loop over a model's servers *)

(** The server list of a model can be normalized from state [st]. *)
Record servers_ok doc (bn : string -> string -> string) (pn : string) (servers : list string)
    (seen : gset string) (bs : gmap string Backend) : Prop := {
  so_nodup : NoDup servers;
  so_unseen : Forall (fun s => s ∉ seen) servers;
  so_known : Forall (fun s => is_Some (Servers doc !! s)) servers;
  so_fresh : Forall (fun s => bs !! bn pn s = None) servers;
  so_inj : NoDup (map (bn pn) servers)
}.

Lemma servers_ok_cons doc bn pn server servers seen bs b :
  backend_of doc b server <> None ->
  server ∉ seen -> bs !! bn pn server = None ->
  servers_ok doc bn pn (server :: servers) seen bs <->
  (forall x, servers_ok doc bn pn servers ({[server]} ∪ seen) (<[bn pn server := x]> bs)).
Proof.
  intros Hb Hs Hf. split.
  - intros [Hnd Hun Hk Hfr Hinj] x. apply NoDup_cons in Hnd as [Hni Hnd].
    cbn in Hinj. apply NoDup_cons in Hinj as [Hni' Hinj].
    inversion Hun as [|? ? ? Hun']; inversion Hk; inversion Hfr as [|? ? ? Hfr']; subst.
    split; try done.
    + rewrite Forall_forall in *. intros s Hin. specialize (Hun' _ Hin). set_solver.
    + rewrite Forall_forall in *. intros s Hin. rewrite lookup_insert_ne; [by apply Hfr'|].
      intros Heq. apply Hni'. rewrite Heq. apply list_elem_of_fmap. eauto.
  - intros Hx. assert (exists b0, backend_of doc b server = Some b0) as [b0 Hb0] by (destruct (backend_of doc b server); eauto; done).
    specialize (Hx b0). destruct Hx as [Hnd Hun Hk Hfr Hinj]. rewrite Forall_forall in Hun, Hfr.
    assert (server ∉ servers) as Hni by (intros Hin; specialize (Hun _ Hin); set_solver).
    split.
    + by apply NoDup_cons.
    + constructor; [done|]. rewrite Forall_forall. intros s Hin. specialize (Hun _ Hin). set_solver.
    + constructor; [|done]. unfold backend_of in Hb. destruct (Servers doc !! server); [eauto|done].
    + constructor; [done|]. rewrite Forall_forall. intros s Hin. specialize (Hfr _ Hin).
      apply lookup_insert_None in Hfr as [? ?]. done.
    + cbn. apply NoDup_cons. split; [|done]. intros (s & Heq & Hin)%list_elem_of_fmap.
      specialize (Hfr _ Hin). apply lookup_insert_None in Hfr as [_ Hne]. congruence.
Qed.

Lemma norm_servers_errs doc bn pn up servers seen refs st :
  ns_errs st <> [] -> ns_errs (norm_servers doc bn pn up servers seen refs st).2 <> [].
Proof.
  revert seen refs st. induction servers as [|s servers IH]; intros seen refs st Hne; cbn; [done|].
  unfold norm_server. repeat case_match; simplify_eq; apply IH; cbn; try done;
    intros Hn; apply app_nil in Hn as [? ?]; done.
Qed.

Lemma norm_servers_spec doc bn pn up servers seen refs st :
  ns_errs st = [] ->
  let r := norm_servers doc bn pn up servers seen refs st in
  (ns_errs r.2 = [] <-> servers_ok doc bn pn servers seen (ns_backends st))
  /\ (ns_errs r.2 = [] ->
      r.1 = refs ++ map (fun s => mkRef (bn pn s) 1) servers
      /\ (forall nm b, ns_backends r.2 !! nm = Some b <->
           ns_backends st !! nm = Some b
           \/ exists s, s ∈ servers /\ nm = bn pn s /\ backend_of doc up s = Some b)
      /\ ns_models r.2 = ns_models st
      /\ ns_referenced r.2 = list_to_set servers ∪ ns_referenced st).
Proof.
  revert seen refs st. induction servers as [|s servers IH]; intros seen refs st Hne; cbn -[list_to_set].
  { split; [split; [intros _; split; constructor|done]|]. intros _. rewrite app_nil_r. repeat split; [by left| |set_solver].
    intros [?|(s & Hs & _)]; [done|]. by apply not_elem_of_nil in Hs. }
  unfold norm_server. rewrite Hne. cbn [app].
  set (fail := fun e => mkNorm [e] (ns_backends st) (ns_models st) (ns_referenced st)).
  assert (Hfail : forall e seen' refs', ns_errs (norm_servers doc bn pn up servers seen' refs' (fail e)).2 <> []) by (intros; by apply norm_servers_errs).
  case_bool_decide as Es.
  { split; [split|]; [intros Hx; by apply Hfail in Hx| |intros Hx; by apply Hfail in Hx].
    intros [_ Hun _ _ _]. inversion Hun; done. }
  destruct (Servers doc !! s) as [srv|] eqn:Ed; cycle 1.
  { split; [split|]; [intros Hx; by apply Hfail in Hx| |intros Hx; by apply Hfail in Hx].
    intros [_ _ Hk _ _]. inversion Hk as [|? ? [? ?]]; congruence. }
  case_bool_decide as Eb.
  { split; [split|]; [intros Hx; by apply Hfail in Hx| |intros Hx; by apply Hfail in Hx].
    intros [_ _ _ Hf _]. inversion Hf as [|? ? Hf0]. rewrite Hf0 in Eb. by destruct Eb. }
  apply eq_None_not_Some in Eb.
  set (b0 := mkBackend _ _ _ _ _ _ _ _ _ _ _ _).
  set (st' := mkNorm _ _ _ _).
  assert (Hb0 : backend_of doc up s = Some b0) by (unfold backend_of; by rewrite Ed).
  destruct (IH ({[s]} ∪ seen) (refs ++ [mkRef (bn pn s) 1]) st') as [Hiff Hres]; [done|].
  split.
  - rewrite Hiff. cbn [ns_backends st'].
    rewrite (servers_ok_cons _ _ _ _ _ _ _ up); [|by rewrite Hb0|done|done].
    split; [|auto]. intros [? ? ? Hfr ?] x. split; try done.
    eapply Forall_impl; [exact Hfr|]. cbn. intros y Hy.
    apply lookup_insert_None in Hy. apply lookup_insert_None. done.
  - intros Hn. destruct (Hres Hn) as (Hr & Hb & Hm & Href).
    rewrite Hr, Hm, Href. cbn [ns_models ns_referenced ns_backends st'] in *.
    split; [by rewrite <- app_assoc|]. split; [|split; [done|set_solver]].
    intros nm b. rewrite Hb, lookup_insert_Some. split.
    + intros [[[<- <-]|[_ ?]]|(s' & Hin & -> & ?)]; [right|by left|right].
      * exists s. split; [by left|done].
      * exists s'. split; [by right|done].
    + intros [Hl|(s' & [->|Hin]%elem_of_cons & -> & Hb')].
      * left. right. split; [|done]. intros <-. congruence.
      * left. left. split; [done|]. congruence.
      * right. eauto.
Qed.

(** ** The loop over the models *)

Definition pairs_of doc (l : list string) : list (string * string) := flat_map (model_pairs doc) l.

Record models_ok doc (bn : string -> string -> string) (l : list string) (bs : gmap string Backend) : Prop := {
  mo_model : forall name sm, name ∈ l -> d_Models doc !! name = Some sm ->
    sm_Servers sm <> [] /\ NoDup (sm_Servers sm)
    /\ Forall (fun s => is_Some (Servers doc !! s)) (sm_Servers sm);
  mo_inj : NoDup (map (fun p => bn p.1 p.2) (pairs_of doc l));
  mo_fresh : Forall (fun p => bs !! bn p.1 p.2 = None) (pairs_of doc l)
}.

(** The backends of the pairs, added to [bs]. *)
Definition adds_backends doc (bn : string -> string -> string) (ps : list (string * string))
    (bs bs' : gmap string Backend) : Prop :=
  forall nm b, bs' !! nm = Some b <->
    bs !! nm = Some b
    \/ exists pn s sm, (pn, s) ∈ ps /\ d_Models doc !! pn = Some sm /\ nm = bn pn s
         /\ backend_of doc (upstream_of pn sm) s = Some b.

Definition model_of bn (pn : string) (sm : sourceModel) : Model :=
  mkModel (sm_Type sm) (sm_Strategy sm) (sm_MaxOutputTokens sm)
    (map (fun s => mkRef (bn pn s) 1) (sm_Servers sm)).

Lemma norm_model_errs doc bn l st : ns_errs st <> [] -> ns_errs (foldl (norm_model doc bn) st l) <> [].
Proof.
  revert st. induction l as [|pn l IH]; intros st Hne; cbn; [done|]. apply IH. unfold norm_model.
  destruct (d_Models doc !! pn) as [sm|]; [|done]. case_bool_decide.
  - cbn. intros [? ?]%app_nil. done.
  - pose proof (norm_servers_errs doc bn pn (if String.eqb (sm_UpstreamModel sm) "" then pn else sm_UpstreamModel sm)
      (sm_Servers sm) ∅ [] st Hne) as Hs.
    destruct (norm_servers _ _ _ _ _ _ _ _) as [refs st']. done.
Qed.

(** One model. *)
Lemma norm_model_spec doc bn st pn sm :
  ns_errs st = [] -> d_Models doc !! pn = Some sm ->
  let st' := norm_model doc bn st pn in
  (ns_errs st' = [] <-> sm_Servers sm <> [] /\ servers_ok doc bn pn (sm_Servers sm) ∅ (ns_backends st))
  /\ (ns_errs st' = [] ->
      adds_backends doc bn (model_pairs doc pn) (ns_backends st) (ns_backends st')
      /\ ns_models st' = <[pn := model_of bn pn sm]> (ns_models st)
      /\ ns_referenced st' = list_to_set (sm_Servers sm) ∪ ns_referenced st).
Proof.
  intros He Hm. cbn. unfold norm_model. rewrite Hm. case_bool_decide as En.
  { cbn. rewrite He. split; [split; [done|by intros [? _]]|done]. }
  destruct (norm_servers_spec doc bn pn (upstream_of pn sm) (sm_Servers sm) ∅ [] st He) as [Hiff Hres].
  fold (upstream_of pn sm) in *.
  destruct (norm_servers doc bn pn (upstream_of pn sm) (sm_Servers sm) ∅ [] st) as [refs st'] eqn:E.
  cbn in *. split; [rewrite Hiff; tauto|]. intros Hn. destruct (Hres Hn) as (-> & Hb & -> & ->).
  split; [|done]. intros nm b. rewrite Hb. unfold model_pairs. rewrite Hm.
  split; (intros [?|Hx]; [by left|right]).
  - destruct Hx as (s & Hin & -> & Hb'). exists pn, s, sm. split; [|done]. apply list_elem_of_fmap. eauto.
  - destruct Hx as (pn' & s & sm' & (s' & [= -> ->] & Hin)%list_elem_of_fmap & Hm' & -> & Hb'). rewrite Hm in Hm'.
    injection Hm' as <-. eauto.
Qed.

Lemma adds_backends_trans doc bn ps1 ps2 bs1 bs2 bs3 :
  adds_backends doc bn ps1 bs1 bs2 -> adds_backends doc bn ps2 bs2 bs3 ->
  adds_backends doc bn (ps1 ++ ps2) bs1 bs3.
Proof.
  intros H1 H2 nm b. rewrite (H2 nm b), (H1 nm b). setoid_rewrite elem_of_app. naive_solver.
Qed.

Lemma adds_backends_None doc bn ps bs bs' nm :
  adds_backends doc bn ps bs bs' ->
  (forall pn s, (pn, s) ∈ ps -> exists sm, d_Models doc !! pn = Some sm /\ is_Some (Servers doc !! s)) ->
  bs' !! nm = None <-> bs !! nm = None /\ forall pn s, (pn, s) ∈ ps -> nm <> bn pn s.
Proof.
  intros Ha Hd. rewrite !eq_None_not_Some. split.
  - intros Hn. split; [intros [b Hb]; apply Hn; exists b; apply Ha; by left|].
    intros pn s Hin ->. destruct (Hd _ _ Hin) as (sm & Hsm & [srv Hs]).
    apply Hn. eexists. apply Ha. right. exists pn, s, sm. split_and!; try done.
    unfold backend_of. by rewrite Hs.
  - intros [Hn Hno] [b Hb]. apply Ha in Hb as [Hb|(pn & s & sm & Hin & _ & -> & _)]; [apply Hn; eauto|].
    by apply (Hno _ _ Hin).
Qed.

Lemma servers_ok_pairs doc bn pn sm bs : d_Models doc !! pn = Some sm ->
  servers_ok doc bn pn (sm_Servers sm) ∅ bs <->
  NoDup (sm_Servers sm) /\ Forall (fun s => is_Some (Servers doc !! s)) (sm_Servers sm)
  /\ NoDup (map (fun p => bn p.1 p.2) (model_pairs doc pn))
  /\ Forall (fun p => bs !! bn p.1 p.2 = None) (model_pairs doc pn).
Proof.
  intros Hm. unfold model_pairs. rewrite Hm, map_map, Forall_map. cbn [fst snd]. split.
  - by intros [].
  - intros (? & ? & ? & ?). split; try done. apply Forall_forall. set_solver.
Qed.

Lemma models_ok_cons doc bn pn sm l st :
  pn ∉ l -> d_Models doc !! pn = Some sm -> ns_errs st = [] ->
  models_ok doc bn (pn :: l) (ns_backends st) <->
  ns_errs (norm_model doc bn st pn) = [] /\ models_ok doc bn l (ns_backends (norm_model doc bn st pn)).
Proof.
  intros Hni Hm He. destruct (norm_model_spec doc bn st pn sm He Hm) as [Hiff Hres].
  rewrite servers_ok_pairs in Hiff by done.
  assert (Hd : Forall (fun s => is_Some (Servers doc !! s)) (sm_Servers sm) ->
    forall pn' s, (pn', s) ∈ model_pairs doc pn -> exists sm, d_Models doc !! pn' = Some sm /\ is_Some (Servers doc !! s)).
  { intros Hall pn' s Hin. unfold model_pairs in Hin. rewrite Hm in Hin.
    apply list_elem_of_fmap in Hin as (s' & [= -> ->] & Hin). rewrite Forall_forall in Hall. eauto. }
  split.
  - intros [Hmo Hinj Hfr]. destruct (Hmo pn sm) as (Hne & Hnd & Hk); [by left|done|].
    unfold pairs_of in *. cbn in Hinj, Hfr. rewrite map_app in Hinj.
    apply NoDup_app in Hinj as (Hi1 & Hi12 & Hi2). apply Forall_app in Hfr as [Hf1 Hf2].
    assert (Hn : ns_errs (norm_model doc bn st pn) = []) by (by apply Hiff).
    split; [done|]. destruct (Hres Hn) as (Hb & _ & _). split; [| |].
    + intros name sm' Hin. apply Hmo. by right.
    + done.
    + rewrite Forall_forall in *. intros p Hin. apply (adds_backends_None _ _ _ _ _ _ Hb (Hd Hk)).
      split; [by apply Hf2|]. intros pn' s Hin' Heq.
      apply (Hi12 (bn pn' s)); [apply list_elem_of_fmap; by exists (pn', s)|].
      rewrite <- Heq. apply list_elem_of_fmap. eauto.
  - intros [Hn [Hmo Hinj Hfr]]. destruct (Hres Hn) as (Hb & _ & _).
    apply Hiff in Hn as (Hne & Hnd & Hk & Hi1 & Hf1).
    assert (Hfr' : forall p, p ∈ pairs_of doc l -> ns_backends st !! bn p.1 p.2 = None
      /\ forall pn' s, (pn', s) ∈ model_pairs doc pn -> bn p.1 p.2 <> bn pn' s).
    { intros p Hin. rewrite Forall_forall in Hfr. by apply (adds_backends_None _ _ _ _ _ _ Hb (Hd Hk)), Hfr. }
    split.
    + intros name sm' [->|Hin]%elem_of_cons Hm'; [|by eapply Hmo]. rewrite Hm in Hm'. by injection Hm' as <-.
    + unfold pairs_of. cbn. rewrite map_app. apply NoDup_app. split; [done|]. split; [|done].
      intros nm ([pn' s] & -> & Hin)%list_elem_of_fmap (p & Heq & Hin')%list_elem_of_fmap.
      by apply (proj2 (Hfr' p Hin') pn' s).
    + unfold pairs_of. cbn. apply Forall_app. split; [done|]. rewrite Forall_forall. intros p Hin. by apply Hfr'.
Qed.

Lemma norm_models_spec doc bn l st :
  NoDup l -> Forall (fun pn => is_Some (d_Models doc !! pn)) l -> ns_errs st = [] ->
  let r := foldl (norm_model doc bn) st l in
  (ns_errs r = [] <-> models_ok doc bn l (ns_backends st))
  /\ (ns_errs r = [] ->
      adds_backends doc bn (pairs_of doc l) (ns_backends st) (ns_backends r)
      /\ (forall pn, ns_models r !! pn =
           if bool_decide (pn ∈ l) then model_of bn pn <$> d_Models doc !! pn else ns_models st !! pn)
      /\ (forall s, s ∈ ns_referenced r <-> s ∈ ns_referenced st \/ exists pn, (pn, s) ∈ pairs_of doc l)).
Proof.
  revert st. induction l as [|pn l IH]; intros st Hnd Hall He; cbn [foldl].
  { split; [split; [|done]|].
    - intros _. split; [intros ? ? Hin; by apply not_elem_of_nil in Hin|constructor|constructor].
    - intros _. split; [|split].
      + intros nm b. split; [by left|]. intros [?|(? & ? & ? & Hin & _)]; [done|by apply not_elem_of_nil in Hin].
      + done.
      + intros s. split; [by left|]. intros [?|[? Hin]]; [done|by apply not_elem_of_nil in Hin]. }
  apply NoDup_cons in Hnd as [Hni Hnd]. apply Forall_cons in Hall as [[sm Hm] Hall].
  rewrite (models_ok_cons _ _ _ sm) by done.
  destruct (norm_model_spec doc bn st pn sm He Hm) as [_ Hres].
  destruct (decide (ns_errs (norm_model doc bn st pn) = [])) as [Hn|Hn]; cycle 1.
  { pose proof (norm_model_errs doc bn l _ Hn). split; [tauto|done]. }
  destruct (IH _ Hnd Hall Hn) as [Hiff Hres']. split; [tauto|].
  intros Hn'. destruct (Hres Hn) as (Hb & Hmod & Href). destruct (Hres' Hn') as (Hb' & Hmod' & Href').
  split; [by eapply adds_backends_trans|]. split.
  - intros pn'. rewrite Hmod', Hmod. destruct (decide (pn' = pn)) as [->|Hne].
    + rewrite bool_decide_false, bool_decide_true by set_solver. by rewrite lookup_insert_eq, Hm.
    + rewrite lookup_insert_ne by done. repeat case_bool_decide; set_solver.
  - intros s. rewrite Href', Href. unfold pairs_of. cbn. unfold model_pairs at 2. rewrite Hm.
    rewrite elem_of_union, elem_of_list_to_set. setoid_rewrite elem_of_app.
    setoid_rewrite list_elem_of_fmap. naive_solver.
Qed.

Lemma norm_init_errs doc : ns_errs (norm_init doc) = [] <->
  Servers doc <> ∅ /\ d_Models doc <> ∅
  /\ forall name s, Servers doc !! name = Some s -> limits_ok (admission s name).1.
Proof.
  unfold norm_init. cbn [ns_errs]. rewrite !app_nil, !when_nil, flat_map_nil, !Nat.eqb_neq, !map_size_empty_iff.
  rewrite Forall_forall. setoid_rewrite sorted_keys_elem. split.
  - intros (Hl & ? & ?). split_and!; try done. intros name s Hs. apply admission_ok.
    specialize (Hl name). rewrite Hs in Hl. eauto.
  - intros (? & ? & Hl). split_and!; try done. intros name [s Hs]. rewrite Hs. apply admission_ok. eauto.
Qed.

Lemma pairs_elem doc pn s :
  (pn, s) ∈ pairs_of doc (sorted_keys (d_Models doc)) <->
  exists sm, d_Models doc !! pn = Some sm /\ s ∈ sm_Servers sm.
Proof.
  unfold pairs_of. rewrite list_elem_of_In, in_flat_map. setoid_rewrite <- list_elem_of_In.
  setoid_rewrite sorted_keys_elem. unfold model_pairs. split.
  - intros (pn' & [sm Hsm] & Hin). rewrite Hsm in Hin. apply list_elem_of_fmap in Hin as (s' & [= -> ->] & ?). eauto.
  - intros (sm & Hsm & Hin). exists pn. rewrite Hsm. split; [eauto|]. apply list_elem_of_fmap. eauto.
Qed.

Lemma NoDup_pairs doc l :
  NoDup l -> (forall pn sm, pn ∈ l -> d_Models doc !! pn = Some sm -> NoDup (sm_Servers sm)) ->
  NoDup (pairs_of doc l).
Proof.
  induction l as [|pn l IH]; intros Hnd Hs; unfold pairs_of; cbn; [constructor|].
  apply NoDup_cons in Hnd as [Hni Hnd]. apply NoDup_app. split; [|split].
  - unfold model_pairs. destruct (d_Models doc !! pn) as [sm|] eqn:E; [|constructor].
    apply NoDup_fmap_2; [intros ? ? [= ?]; done|]. apply (Hs pn sm); [by left|done].
  - intros [pn' s] Hin Hin'. unfold model_pairs in Hin. destruct (d_Models doc !! pn); [|by apply not_elem_of_nil in Hin].
    apply list_elem_of_fmap in Hin as (s' & [= -> ->] & _).
    apply list_elem_of_In, in_flat_map in Hin' as (q & Hq & Hin'). apply list_elem_of_In in Hq, Hin'.
    unfold model_pairs in Hin'. destruct (d_Models doc !! q); [|by apply not_elem_of_nil in Hin'].
    apply list_elem_of_fmap in Hin' as (? & [= -> _] & _). done.
  - apply IH; [done|]. intros; eapply Hs; [by right|done].
Qed.

Lemma NoDup_map_inj {A B} (f : A -> B) l : NoDup l ->
  NoDup (map f l) <-> forall x y, x ∈ l -> y ∈ l -> f x = f y -> x = y.
Proof.
  induction l as [|a l IH]; intros Hnd; cbn; [split; [set_solver|constructor]|].
  apply NoDup_cons in Hnd as [Hni Hnd]. rewrite NoDup_cons, (IH Hnd), list_elem_of_fmap. split.
  - intros [Hna Hinj] x y [->|Hx]%elem_of_cons [->|Hy]%elem_of_cons Heq; auto; exfalso; eauto.
  - intros Hinj. split; [|intros; apply Hinj; set_solver]. intros (y & Heq & Hy).
    assert (a = y) as -> by (apply Hinj; set_solver). done.
Qed.

Lemma models_ok_source doc bn : (forall name s, Servers doc !! name = Some s -> limits_ok (admission s name).1) ->
  Servers doc <> ∅ -> d_Models doc <> ∅ ->
  (models_ok doc bn (sorted_keys (d_Models doc)) ∅
   /\ forall server, is_Some (Servers doc !! server) -> exists pn, (pn, server) ∈ pairs_of doc (sorted_keys (d_Models doc)))
  <-> source_ok doc bn.
Proof.
  intros Hl Hs Hm. set (l := sorted_keys (d_Models doc)) in *.
  assert (Hmem : forall pn sm, d_Models doc !! pn = Some sm -> pn ∈ l) by (intros; apply sorted_keys_elem; eauto).
  assert (Hpairs : (forall pn sm, d_Models doc !! pn = Some sm -> NoDup (sm_Servers sm)) -> NoDup (pairs_of doc l)).
  { intros Hnd. apply NoDup_pairs; [apply sorted_keys_NoDup|eauto]. }
  split.
  - intros [[Hmo Hinj Hfr] Href]. split; try done.
    + intros name sm Hsm. destruct (Hmo name sm) as (? & ? & Hk); [eauto|done|]. split_and!; try done.
      by apply Forall_forall.
    + rewrite NoDup_map_inj in Hinj by (apply Hpairs; intros pn sm Hsm; apply (Hmo pn sm); eauto).
      intros n1 s1 n2 s2 H1 H2 Heq. by apply (Hinj (n1, s1) (n2, s2)).
    + intros server (pn & (sm & ? & ?)%pairs_elem)%Href. eauto.
  - intros [_ _ _ Hmo Hinj Href]. split; [split|].
    + intros name sm _ Hsm. destruct (Hmo name sm Hsm) as (? & ? & Hk). split_and!; try done. by apply Forall_forall.
    + apply NoDup_map_inj; [apply Hpairs; intros pn sm Hsm; by apply (Hmo pn sm)|].
      intros [n1 s1] [n2 s2] H1 H2 Heq. eauto.
    + apply Forall_forall. intros. apply lookup_empty.
    + intros server (name & sm & Hsm & Hin)%Href. exists name. apply pairs_elem. eauto.
Qed.

(** The runtime configuration a document denotes. *)
Record denotes doc (bn : string -> string -> string) cfg : Prop := {
  de_version : Version cfg = d_Version doc;
  de_server : c_Server cfg = d_Server doc;
  de_auth : c_Auth cfg = d_Auth doc;
  de_security : c_Security cfg = d_Security doc;
  de_logging : c_Logging cfg = d_Logging doc;
  de_accounting : c_Accounting cfg = d_Accounting doc;
  de_limits : c_Limits cfg = d_Limits doc;
  de_shutdown : c_Shutdown cfg = d_Shutdown doc;
  de_responses : c_Responses cfg = d_Responses doc;
  de_retry : c_Retry cfg = d_Retry doc;
  de_models : forall pn, c_Models cfg !! pn = model_of bn pn <$> d_Models doc !! pn;
  de_backends : forall nm b, Backends cfg !! nm = Some b <->
    exists pn sm s, d_Models doc !! pn = Some sm /\ s ∈ sm_Servers sm /\ nm = bn pn s
      /\ backend_of doc (upstream_of pn sm) s = Some b
}.

Lemma normalize_spec doc bn :
  (source_ok doc bn <-> exists cfg, normalizeSourceWith doc bn = Ok cfg)
  /\ (forall cfg, normalizeSourceWith doc bn = Ok cfg -> denotes doc bn cfg).
Proof.
  unfold normalizeSourceWith. set (l := sorted_keys (d_Models doc)).
  set (st := foldl (norm_model doc bn) (norm_init doc) l).
  assert (Herrs : (ns_errs st ++ flat_map (fun ns => when (negb (bool_decide (ns.1 ∈ ns_referenced st)))
    (E "servers.%s: not referenced by any model" [ns.1] [])) (map_to_list (Servers doc))) = [] <-> source_ok doc bn).
  { rewrite app_nil, flat_map_nil. destruct (decide (ns_errs (norm_init doc) = [])) as [Hi|Hi]; cycle 1.
    { pose proof (norm_model_errs doc bn l _ Hi) as Hn. fold st in Hn. split; [by intros [? _]|].
      intros [? ? ? _ _ _]. exfalso. apply Hi, norm_init_errs. auto. }
    destruct (norm_models_spec doc bn l (norm_init doc)) as [Hiff Hres]; [apply sorted_keys_NoDup| |done|].
    { apply Forall_forall. intros pn Hin. by apply sorted_keys_elem in Hin. }
    apply norm_init_errs in Hi as (Hs & Hm & Hl). fold st in Hiff, Hres.
    rewrite <- (models_ok_source doc bn) by done. fold l. rewrite Hiff. cbn [norm_init ns_backends].
    enough (Henough : models_ok doc bn l ∅ ->
      (Forall (fun ns => when (negb (bool_decide (ns.1 ∈ ns_referenced st)))
         (E "servers.%s: not referenced by any model" [ns.1] []) = []) (map_to_list (Servers doc))
       <-> (forall server, is_Some (Servers doc !! server) -> exists pn, (pn, server) ∈ pairs_of doc l))) by tauto.
    intros Hok. apply Hiff in Hok. destruct (Hres Hok) as (_ & _ & Href).
    rewrite Forall_forall. setoid_rewrite when_nil. setoid_rewrite negb_false_iff. split.
    - intros Hall server [s Hserver]. specialize (Hall (server, s)). rewrite elem_of_map_to_list in Hall.
      specialize (Hall Hserver). apply bool_decide_eq_true in Hall. apply Href in Hall. set_solver.
    - intros Hall [server s] Hin%elem_of_map_to_list. apply bool_decide_eq_true, Href. right. cbn. eauto. }
  case_bool_decide as Hd.
  - split; [split; [eauto|intros _; by apply Herrs]|]. intros cfg [= <-].
    pose proof (proj1 Herrs Hd) as [Hs Hm Hl _ _ _].
    assert (Hi : ns_errs (norm_init doc) = []) by (by apply norm_init_errs).
    destruct (norm_models_spec doc bn l (norm_init doc)) as [_ Hres]; [apply sorted_keys_NoDup| |done|].
    { apply Forall_forall. intros pn Hin. by apply sorted_keys_elem in Hin. }
    fold st in Hres. apply app_nil in Hd as [Hd _]. destruct (Hres Hd) as (Hb & Hmod & _).
    split; try done; cbn.
    + intros pn. rewrite Hmod. case_bool_decide as Hin; [done|]. cbn.
      destruct (d_Models doc !! pn) eqn:E; [|done]. exfalso. apply Hin, sorted_keys_elem. eauto.
    + intros nm b. rewrite (Hb nm b). cbn. split.
      * intros [?|(pn & s & sm & Hin & Hsm & -> & ?)]; [done|]. apply pairs_elem in Hin as (sm' & Hsm' & Hin).
        rewrite Hsm in Hsm'. injection Hsm' as <-. eauto 10.
      * intros (pn & sm & s & Hsm & Hin & -> & Hbk). right. exists pn, s, sm. split_and!; try done.
        apply pairs_elem. eauto.
  - split; [|done]. split; [by intros ?%Herrs|]. by intros [? ?].
Qed.


Lemma denotes_unique doc bn cfg cfg' : denotes doc bn cfg -> denotes doc bn cfg' -> cfg = cfg'.
Proof.
  intros [] []. destruct cfg, cfg'; cbn in *. f_equal; try congruence; apply map_eq; intros i.
  - apply option_eq. intros b. by rewrite de_backends0, de_backends1.
  - by rewrite de_models0, de_models1.
Qed.

(** Normalization of the operator's document is exact.  It succeeds with
    [cfg] if and only if the document is well formed (servers and models
    present, admission limits within bounds, every model naming a non-empty
    list of distinct known servers, every server used, generated names
    distinct) and [cfg] is the configuration the document denotes: its
    sections unchanged, one model per public name with one reference per
    server in the operator's order, and one backend per (model, server) pair
    carrying that server's URL, credential and limits, and nothing else. *)
Theorem normalizeSource_exact doc cfg :
  normalizeSource doc = Ok cfg <->
  source_ok doc defaultBackendName /\ denotes doc defaultBackendName cfg.
Proof.
  unfold normalizeSource. destruct (normalize_spec doc defaultBackendName) as [Hiff Hden]. split.
  - intros Hn. split; [apply Hiff; eauto|eauto].
  - intros [(cfg' & Hn)%Hiff Hd]. by rewrite (denotes_unique _ _ _ _ Hd (Hden _ Hn)).
Qed.

(** ** Defaults *)

Lemma or_s_idem s d : or_s (or_s s d) d = or_s s d.
Proof. unfold or_s. destruct (String.eqb s "") eqn:E; [by destruct (String.eqb d "")|by rewrite E]. Qed.
Lemma or_z_idem z d : or_z (or_z z d) d = or_z z d.
Proof. unfold or_z. destruct (z =? 0) eqn:E; [by destruct (d =? 0)|by rewrite E]. Qed.
Lemma or_f_idem (x d : F) : or_f (or_f x d) d = or_f x d.
Proof. unfold or_f. destruct (f_eqb x (f_of_Z 0)) eqn:E; [by destruct (f_eqb d (f_of_Z 0))|by rewrite E]. Qed.
Lemma or_p_idem {A} (o : option A) d : or_p (or_p o d) d = or_p o d.
Proof. by destruct o. Qed.

Lemma default_server_idem s : default_server (default_server s) = default_server s.
Proof.
  unfold default_server. cbn. rewrite !or_z_idem. f_equal.
  destruct (String.eqb (l_Network (s_Listen s)) "unix") eqn:E; cbn; rewrite E; by rewrite ?or_s_idem.
Qed.

Lemma default_accounting_idem a : default_accounting (default_accounting a) = default_accounting a.
Proof.
  unfold default_accounting. destruct (acc_Enabled a) eqn:E; cbn; [|by rewrite E].
  rewrite !or_z_idem, !or_s_idem, !or_p_idem. f_equal.
  destruct (String.eqb (or_s (FSync a) "interval") "interval") eqn:Ef; by rewrite ?or_z_idem.
Qed.

Lemma default_backend_idem b : default_backend (default_backend b) = default_backend b.
Proof. unfold default_backend. cbn. by rewrite !or_z_idem. Qed.

Lemma default_model_idem m : default_model (default_model m) = default_model m.
Proof.
  unfold default_model. cbn. rewrite or_s_idem, length_map, map_map. cbn. f_equal.
  - destruct (String.eqb (Strategy m) "") eqn:E; [|by rewrite E]. by repeat case_match.
  - apply map_ext. intros r. by rewrite or_z_idem.
Qed.

Lemma applyDefaults_idem cfg : applyDefaults (applyDefaults cfg) = applyDefaults cfg.
Proof.
  unfold applyDefaults. cbn. rewrite default_server_idem, default_accounting_idem, !or_s_idem, !or_z_idem, !or_f_idem.
  unfold default_security. cbn. rewrite !or_s_idem, !or_z_idem. rewrite <- !map_fmap_compose. f_equal.
  - apply map_fmap_ext. intros. apply default_backend_idem.
  - apply map_fmap_ext. intros. apply default_model_idem.
Qed.

(** ** The effective projection *)

(** The source document that an effective projection denotes: every value is
    explicit. *)
Definition as_source (e : effectiveDoc (F := F)) : sourceDoc :=
  mkSourceDoc (e_Version e) (e_Server e) (e_Auth e) (e_Security e) (e_Logging e) (e_Accounting e)
    (e_Limits e) (e_Shutdown e) (e_Responses e) (e_Retry e)
    ((fun s => mkSourceServer (es_URL s) (es_APIKeyFile s) (es_Relay s)
        (Some (es_MaxConcurrency s)) (Some (es_QueueSize s)) (Some (es_QueueTimeout s))) <$> e_Servers e)
    ((fun m => mkSourceModel (em_Type m) (em_Strategy m) (em_MaxOutputTokens m) (em_Servers m) (em_UpstreamModel m))
       <$> e_Models e).

Definition default_source_model (pn : string) (sm : sourceModel) : sourceModel :=
  let m := default_model (model_of defaultBackendName pn sm) in
  mkSourceModel (m_Type m) (Strategy m) (sm_MaxOutputTokens sm) (sm_Servers sm) (upstream_of pn sm).

Lemma as_source_models doc cfg pn : denotes doc defaultBackendName cfg ->
  d_Models (as_source (effectiveSource doc (applyDefaults cfg))) !! pn =
  default_source_model pn <$> d_Models doc !! pn.
Proof.
  intros Hd. cbn. rewrite lookup_fmap, map_lookup_imap, lookup_fmap, (de_models _ _ _ Hd).
  by destruct (d_Models doc !! pn) as [sm|].
Qed.

Lemma as_source_servers doc cfg s :
  Servers (as_source (effectiveSource doc cfg)) !! s =
  (fun x => mkSourceServer (ss_URL x) (ss_APIKeyFile x) (ss_Relay x)
     (Some (conc (admission x s).1)) (Some (queue (admission x s).1)) (Some (wait (admission x s).1)))
  <$> Servers doc !! s.
Proof. cbn. rewrite lookup_fmap, map_lookup_imap. by destruct (Servers doc !! s). Qed.

Lemma limits_of_as_source doc cfg s : limits_of (as_source (effectiveSource doc cfg)) s = limits_of doc s.
Proof. unfold limits_of. rewrite as_source_servers. by destruct (Servers doc !! s). Qed.

Lemma backend_of_as_source doc cfg up s :
  backend_of (as_source (effectiveSource doc cfg)) up s = backend_of doc up s.
Proof.
  unfold backend_of. rewrite limits_of_as_source, as_source_servers. by destruct (Servers doc !! s).
Qed.

Lemma upstream_of_nonempty pn sm : upstream_of pn (default_source_model pn sm) = upstream_of pn sm.
Proof.
  unfold upstream_of. cbn. unfold upstream_of. destruct (String.eqb (sm_UpstreamModel sm) "") eqn:E; [|by rewrite E].
  by destruct (String.eqb pn "").
Qed.

Lemma source_ok_as_source doc cfg : denotes doc defaultBackendName cfg -> source_ok doc defaultBackendName ->
  source_ok (as_source (effectiveSource doc (applyDefaults cfg))) defaultBackendName.
Proof.
  intros Hd [Hs Hm Hl Hmo Hinj Href]. set (doc' := as_source _).
  assert (HM : forall pn, d_Models doc' !! pn = default_source_model pn <$> d_Models doc !! pn)
    by (intros; by apply as_source_models).
  assert (HS : forall s, is_Some (Servers doc' !! s) <-> is_Some (Servers doc !! s)).
  { intros s. unfold doc'. rewrite as_source_servers. by rewrite fmap_is_Some. }
  split.
  - intros He. apply Hs. apply map_eq. intros s. rewrite lookup_empty.
    destruct (Servers doc !! s) eqn:E; [|done]. assert (is_Some (Servers doc' !! s)) as [? Hx] by (apply HS; eauto).
    by rewrite He in Hx.
  - intros He. apply Hm. apply map_eq. intros pn. rewrite lookup_empty. specialize (HM pn). rewrite He, lookup_empty in HM.
    by destruct (d_Models doc !! pn).
  - intros name s Hn. unfold doc' in Hn. rewrite as_source_servers in Hn.
    destruct (Servers doc !! name) as [x|] eqn:E; [|done]. injection Hn as <-. by apply (Hl name x).
  - intros name sm Hn. rewrite HM in Hn. destruct (d_Models doc !! name) as [sm0|] eqn:E; [|done].
    injection Hn as <-. cbn. destruct (Hmo _ _ E) as (? & ? & Hk). split_and!; try done.
    intros server Hin. apply HS. auto.
  - intros n1 s1 n2 s2 H1 H2. apply Hinj; apply pairs_elem.
    + apply pairs_elem in H1 as (sm & Hsm & Hin). rewrite HM in Hsm. destruct (d_Models doc !! n1); [|done].
      injection Hsm as <-. eauto.
    + apply pairs_elem in H2 as (sm & Hsm & Hin). rewrite HM in Hsm. destruct (d_Models doc !! n2); [|done].
      injection Hsm as <-. eauto.
  - intros server Hserver. apply HS, Href in Hserver as (name & sm & Hsm & Hin).
    exists name, (default_source_model name sm). rewrite HM, Hsm. by split.
Qed.

(** The configuration before the defaults that the projection denotes. *)
Lemma denotes_as_source doc cfg : denotes doc defaultBackendName cfg ->
  exists cfg', denotes (as_source (effectiveSource doc (applyDefaults cfg))) defaultBackendName cfg'
    /\ applyDefaults cfg' = applyDefaults cfg.
Proof.
  intros Hd. set (doc' := as_source _). set (a := applyDefaults cfg).
  exists (mkConfig (Version a) (c_Server a) (c_Auth a) (c_Security a) (c_Logging a) (c_Accounting a) (c_Limits a)
    (c_Shutdown a) (c_Responses a) (c_Retry a) (Backends cfg)
    (map_imap (fun pn sm => Some (model_of defaultBackendName pn (default_source_model pn sm))) (d_Models doc))).
  split.
  - split; try done; cbn [c_Models Backends].
    + intros pn. rewrite map_lookup_imap. unfold doc'. rewrite as_source_models by done.
      by destruct (d_Models doc !! pn).
    + intros nm b. rewrite (de_backends _ _ _ Hd). split.
      * intros (pn & sm & s & Hsm & Hin & -> & Hb). exists pn, (default_source_model pn sm), s.
        unfold doc'. rewrite as_source_models, Hsm, backend_of_as_source by done. split_and!; try done.
        by rewrite upstream_of_nonempty.
      * intros (pn & sm & s & Hsm & Hin & -> & Hb). unfold doc' in *. rewrite as_source_models in Hsm by done.
        destruct (d_Models doc !! pn) as [sm0|] eqn:E; [|done]. injection Hsm as <-.
        rewrite backend_of_as_source in Hb. exists pn, sm0, s. split_and!; try done.
        by rewrite upstream_of_nonempty in Hb.
  - transitivity (applyDefaults a); [|apply applyDefaults_idem]. unfold applyDefaults at 1 2. cbn [Version c_Server c_Auth c_Security
      c_Logging c_Accounting c_Limits c_Shutdown c_Responses c_Retry Backends c_Models]. f_equal.
    + unfold a. cbn. rewrite <- map_fmap_compose. apply map_fmap_ext. intros. cbn. by rewrite default_backend_idem.
    + apply map_eq. intros pn. unfold a. rewrite !lookup_fmap, map_lookup_imap. cbn. rewrite lookup_fmap, (de_models _ _ _ Hd).
      destruct (d_Models doc !! pn) as [sm|]; [|done]. cbn. f_equal. rewrite default_model_idem.
      unfold default_model, model_of, default_source_model. cbn. rewrite or_s_idem, !length_map. f_equal.
      destruct (String.eqb (sm_Strategy sm) "") eqn:E; [|by rewrite E]. by repeat case_match.
Qed.

(** The effective projection is faithful.  For an accepted document, the
    document that `config show-effective` describes (every default written
    out, no internal names) is accepted by normalization and denotes, after
    the defaults, the very same runtime configuration. *)
Theorem effective_roundtrip doc cfg :
  normalizeSource doc = Ok cfg ->
  exists cfg', normalizeSource (as_source (effectiveSource doc (applyDefaults cfg))) = Ok cfg'
    /\ applyDefaults cfg' = applyDefaults cfg.
Proof.
  unfold normalizeSource. destruct (normalize_spec doc defaultBackendName) as [Hiff Hden]. intros Hn.
  pose proof (Hden _ Hn) as Hd. assert (source_ok doc defaultBackendName) as Hok by (apply Hiff; eauto).
  destruct (denotes_as_source doc cfg Hd) as (cfg' & Hd' & Heq).
  destruct (normalize_spec (as_source (effectiveSource doc (applyDefaults cfg))) defaultBackendName) as [Hiff' Hden'].
  destruct (proj1 Hiff' (source_ok_as_source _ _ Hd Hok)) as [cfg'' Hn']. exists cfg''. split; [done|].
  by rewrite (denotes_unique _ _ _ _ (Hden' _ Hn') Hd').
Qed.
End Normalization.

(** ** What an accepted configuration guarantees *)

Section Accepted.
Context {F : Type} `{Float64 F}.
Variable url_parse : string -> option URL.
Implicit Types (cfg : Config (F := F)).

(** A backend's destination is acceptable under the egress policy. *)
Definition destination_ok (bn : BackendNetwork) (b : Backend) : Prop :=
  exists u host port, url_parse (BaseURL b) = Some u /\ SplitHostPort (u_Host u) = Some (host, port)
    /\ host <> "" /\ port <> "" /\ (u_Scheme u = "http" \/ u_Scheme u = "https")
    /\ u_User u = false /\ u_RawQuery u = "" /\ u_Fragment u = "" /\ (u_Path u = "" \/ u_Path u = "/")
    /\ (bn_Mode bn = "loopback-only" -> isLoopbackHost host = true)
    /\ (bn_Mode bn = "allowed-cidrs" -> forall a, ParseAddr host = Some a ->
          inAnyPrefix a (omap ParsePrefix (bn_CIDRs bn)) = true).

Record backend_ok (bn : BackendNetwork) (b : Backend) : Prop := {
  bk_dest : destination_ok bn b;
  bk_upstream : UpstreamModel b <> "";
  bk_timeouts : 0 < ConnectTimeout b /\ 0 < HeaderTimeout b /\ 0 < RequestTimeout b /\ 0 < StreamIdleTimeout b;
  bk_admission : 1 <= MaxConcurrency b /\ 0 <= QueueSize b /\ 0 < QueueTimeout b
}.

Record model_ok (backends : gmap string Backend) (name : string) (m : Model) : Prop := {
  mk_name : name <> ModelWildcard /\ contains_char ","%char name = false;
  mk_type : m_Type m = "generation" \/ m_Type m = "embedding";
  mk_strategy : Strategy m ∈ SupportedStrategies;
  mk_single : Strategy m = "single" -> length (m_Backends m) = 1%nat;
  mk_nonempty : m_Backends m <> [];
  mk_known : Forall (fun r => ref_Name r <> "" /\ is_Some (backends !! ref_Name r) /\ 0 <= Weight r) (m_Backends m);
  mk_nodup : NoDup (map ref_Name (m_Backends m));
  mk_cap : 0 <= MaxOutputTokens m
}.

Lemma one_of_elem l s : one_of l s = true <-> s ∈ l.
Proof.
  unfold one_of. rewrite existsb_exists. setoid_rewrite <- list_elem_of_In. split.
  - by intros (x & Hin & ->%String.eqb_eq).
  - intros Hin. exists s. split; [done|apply String.eqb_refl].
Qed.

Lemma validate_backend_ok bn name b :
  validate_backend url_parse bn (omap ParsePrefix (bn_CIDRs bn)) name b = [] -> backend_ok bn b.
Proof.
  unfold validate_backend. destruct (String.eqb (BaseURL b) "") eqn:Eb; [done|].
  destruct (url_parse (BaseURL b)) as [u|] eqn:Eu; [|done].
  rewrite !app_nil, !when_nil.
  intros (Hsch & Husr & Hq & Hf & Hp & Hh & Hup & Hct & Hht & Hrt & Hst & Hmc & Hqs & Hqt).
  destruct (SplitHostPort (u_Host u)) as [[host port]|] eqn:Es; [|done].
  destruct (String.eqb host "" || String.eqb port "") eqn:Ehp; [done|].
  rewrite app_nil, when_nil in Hh. destruct Hh as [Hlo Hci].
  apply orb_false_iff in Ehp as [Eh Ep]. apply String.eqb_neq in Eh, Ep, Hup.
  apply Z.leb_gt in Hct, Hht, Hrt, Hst, Hqt. apply Z.ltb_ge in Hmc, Hqs.
  split; [|done|lia|lia]. exists u, host, port. split_and!; try done.
  - apply negb_false_iff, one_of_elem in Hsch. set_solver.
  - by apply negb_false_iff, String.eqb_eq in Hq.
  - by apply negb_false_iff, String.eqb_eq in Hf.
  - apply andb_false_iff in Hp as [Hp|Hp]; apply negb_false_iff, String.eqb_eq in Hp; auto.
  - intros Hm. rewrite Hm in Hlo. by destruct (isLoopbackHost host).
  - intros Hm a Ha. rewrite Hm, Ha in Hci. cbn in Hci. apply when_nil in Hci. by apply negb_false_iff.
Qed.

Lemma validateBackends_ok backends bn :
  validateBackends url_parse backends bn = [] ->
  backends <> ∅ /\ forall name b, backends !! name = Some b -> backend_ok bn b.
Proof.
  unfold validateBackends. destruct (Nat.eqb_spec (size backends) 0) as [|Hs]; [done|].
  rewrite flat_map_nil, Forall_forall. intros Hall. split.
  - intros ->. by rewrite map_size_empty in Hs.
  - intros name b Hb. eapply (validate_backend_ok _ name), (Hall (name, b)). by apply elem_of_map_to_list.
Qed.

Lemma validate_refs_ok prefix backends seen refs :
  validate_refs prefix backends seen refs = [] ->
  Forall (fun r => ref_Name r <> "" /\ is_Some (backends !! ref_Name r) /\ 0 <= Weight r) refs
  /\ NoDup (map ref_Name refs) /\ Forall (fun r => ref_Name r ∉ seen) refs.
Proof.
  revert seen. induction refs as [|r refs IH]; intros seen; cbn; [by repeat constructor|].
  destruct (String.eqb (ref_Name r) "") eqn:Er; [done|].
  rewrite !app_nil, !when_nil. intros (Hk & Hs & Hw & Hrest). apply IH in Hrest as (Hall & Hnd & Hun).
  apply bool_decide_eq_false in Hk, Hs. apply Z.ltb_ge in Hw. apply String.eqb_neq in Er.
  rewrite Forall_forall in Hun. split; [|split].
  - constructor; [|done]. split_and!; try done. by apply not_eq_None_Some.
  - apply NoDup_cons. split; [|done]. intros (r' & Heq & Hin)%list_elem_of_fmap.
    apply (Hun _ Hin). rewrite Heq. set_solver.
  - constructor; [done|]. rewrite Forall_forall. intros x Hx Hin. apply (Hun _ Hx). set_solver.
Qed.

Lemma validateModels_ok models backends :
  validateModels models backends = [] ->
  models <> ∅ /\ forall name m, models !! name = Some m -> model_ok backends name m.
Proof.
  unfold validateModels. destruct (Nat.eqb_spec (size models) 0) as [|Hs]; [done|].
  rewrite flat_map_nil, Forall_forall. intros Hall. split.
  { intros ->. by rewrite map_size_empty in Hs. }
  intros name m Hm. specialize (Hall (name, m)). rewrite elem_of_map_to_list in Hall. specialize (Hall Hm).
  unfold validate_model in Hall. cbn [fst snd] in Hall. rewrite !app_nil, !when_nil in Hall.
  destruct Hall as (Hn & Ht & Hst & Hsi & Hne & Hr & Hcap).
  apply validate_refs_ok in Hr as (Hk & Hnd & _). apply Z.ltb_ge in Hcap. apply Nat.eqb_neq in Hne.
  apply negb_false_iff, one_of_elem in Ht, Hst.
  split; try done.
  - unfold ValidateModelName in Hn. destruct (String.eqb name ModelWildcard) eqn:E1; [done|].
    destruct (contains_char _ name) eqn:E2; [done|]. by apply String.eqb_neq in E1.
  - set_solver.
  - intros Hsing. rewrite Hsing in Hsi. cbn in Hsi. by apply negb_false_iff, Nat.eqb_eq in Hsi.
  - intros He. by rewrite He in Hne.
Qed.

(** The ingress is local, protected, or explicitly opened. *)
Definition listener_ok (s : Server) : Prop :=
  let l := s_Listen s in
  (l_Network l = "unix" /\ IsAbs (l_Address l) = true /\ TLSConfigured (s_TLS s) = false
    /\ exists mode, ParseUint (l_Mode l) 8 16 = Some mode /\ mode <> 0 /\ mode <= 511)
  \/ (l_Network l = "tcp" /\ l_Mode l = "" /\ exists host port, SplitHostPort (l_Address l) = Some (host, port)
      /\ (IsNonLoopbackHost host = false \/ (CertFile (s_TLS s) <> "" /\ KeyFile (s_TLS s) <> "")
          \/ AllowPlaintextNonLoopback s = true)).

(** A trusted proxy can match: a socket's peer on a Unix listener, a canonical
    address range on a TCP one. *)
Definition proxy_ok (s : Server) (entry : string) : Prop :=
  if String.eqb entry TrustedProxyUnix then l_Network (s_Listen s) = "unix"
  else l_Network (s_Listen s) <> "unix" /\ exists p, ParsePrefix entry = Some p /\ p_addr p = p_addr (Masked p).

Record server_ok (s : Server) : Prop := {
  sv_listener : listener_ok s;
  sv_sizes : 0 < MaxHeaderBytes s /\ 0 < MaxBodyBytes s /\ 0 < MaxResponseBytes s
    /\ 0 < MaxInflightRequests s /\ 0 < MaxBufferedRequestBytes s /\ 0 < MaxConnections s;
  sv_timeouts : 0 < ReadHeaderTimeout s /\ 0 < ReadBodyTimeout s /\ 0 < IdleTimeout s
    /\ 0 < s_StreamIdleTimeout s /\ 0 < StreamWriteTimeout s;
  sv_admin : AdminSocket s <> "" -> IsAbs (AdminSocket s) = true /\ AdminSocket s <> l_Address (s_Listen s);
  sv_proxies : NoDup (TrustedProxies s) /\ Forall (proxy_ok s) (TrustedProxies s)
}.

Lemma trusted_proxies_ok s seen l : trusted_proxies_loop s seen l = [] ->
  NoDup l /\ Forall (proxy_ok s) l /\ Forall (fun e => e ∉ seen) l.
Proof.
  revert seen. induction l as [|entry l IH]; intros seen; cbn; [by repeat constructor|].
  rewrite app_nil. intros [He (Hnd & Hall & Hun)%IH].
  assert (entry ∉ seen /\ proxy_ok s entry) as [Hseen Hok].
  { revert He. unfold trusted_proxy_entry, proxy_ok. case_bool_decide as Hin; [done|].
    destruct (String.eqb entry TrustedProxyUnix).
    - rewrite when_nil. intros Hu. apply negb_false_iff, String.eqb_eq in Hu. done.
    - destruct (ParsePrefix entry) as [p|]; [|done]. case_bool_decide as Hp; cbn [negb]; [|done]. rewrite when_nil.
      intros Hu. apply String.eqb_neq in Hu. eauto. }
  rewrite Forall_forall in Hun. split; [|split; [by constructor|]].
  - apply NoDup_cons. split; [|done]. intros Hin. apply (Hun _ Hin). set_solver.
  - constructor; [done|]. rewrite Forall_forall. intros x Hx Hin. apply (Hun _ Hx). set_solver.
Qed.

Lemma validateServer_ok s : validateServer s = [] -> server_ok s.
Proof.
  unfold validateServer. rewrite !app_nil, !when_nil.
  intros (Hl & Ha & Hd & Hprox & H1 & H2 & H3 & H4 & H5 & H6 & H7 & H8 & H9 & H10 & H11 & Hu & Ht).
  apply Z.leb_gt in H1, H2, H3, H4, H5, H6, H7, H8, H9, H10, H11.
  split; [|lia|lia| |by apply trusted_proxies_ok in Hprox as (? & ? & _)].
  - unfold validate_listen in Hl. unfold listener_ok. cbv zeta in *.
    destruct (String.eqb_spec (l_Network (s_Listen s)) "tcp") as [En|En].
    + right. split; [done|]. apply app_nil in Hl as [Hm Hl]. apply when_nil, negb_false_iff, String.eqb_eq in Hm. split; [done|].
      destruct (SplitHostPort _) as [[host port]|]; [|done]. exists host, port. split; [done|].
      apply when_nil in Hl. destruct (IsNonLoopbackHost host); [|by left]. right.
      destruct (TLSConfigured (s_TLS s)) eqn:Et; cbn in Hl.
      * left. cbn in Ht. apply orb_false_iff in Ht as [Hc Hk]. by apply String.eqb_neq in Hc, Hk.
      * right. by apply negb_false_iff.
    + left. destruct (String.eqb_spec (l_Network (s_Listen s)) "unix") as [Eu|Eu]; [|done].
      apply app_nil in Hl as [Hl Hm]. destruct (String.eqb _ ""); [done|]. apply when_nil, negb_false_iff in Hl.
      apply when_nil in Hm. split; [done|]. split; [done|]. split; [by destruct (TLSConfigured (s_TLS s))|].
      destruct (ParseUint _ 8 16) as [mode|]; [|done]. apply orb_false_iff in Hm as [Hm1 Hm2].
      apply Z.eqb_neq in Hm1. apply Z.ltb_ge in Hm2. eauto.
  - intros Hne. apply String.eqb_neq in Hne. rewrite Hne in Ha, Hd. cbn in Ha, Hd.
    apply negb_false_iff in Ha. by apply String.eqb_neq in Hd.
Qed.

(** The guarantees of an accepted configuration: the contract between the
    loader and the components built from it. *)
Record config_ok cfg : Prop := {
  co_version : Version cfg = 1;
  co_server : server_ok (c_Server cfg);
  co_auth : IsAbs (UsersFilePath (c_Auth cfg)) = true /\ IsAbs (PepperFile (c_Auth cfg)) = true;
  co_network : bn_Mode (sec_BackendNetwork (c_Security cfg)) ∈ ["loopback-only"; "any"; "allowed-cidrs"]
    /\ Forall (fun c => is_Some (ParseCIDR c)) (bn_CIDRs (sec_BackendNetwork (c_Security cfg)))
    /\ (bn_Mode (sec_BackendNetwork (c_Security cfg)) = "allowed-cidrs" <->
        bn_CIDRs (sec_BackendNetwork (c_Security cfg)) <> []);
  co_limits : f_leb (GlobalRequestsPerSecond (c_Limits cfg)) (f_of_Z 0) = false
    /\ 0 < GlobalBurst (c_Limits cfg)
    /\ f_leb (PreauthRequestsPerSecond (c_Limits cfg)) (f_of_Z 0) = false
    /\ 0 < PreauthBurst (c_Limits cfg);
  co_lograte : f_leb (AuthFailureLogRate (c_Limits cfg)) (f_of_Z 0) = false;
  co_logging : log_Format (c_Logging cfg) ∈ ["json"; "text"] /\ log_Level (c_Logging cfg) ∈ ["debug"; "info"; "warn"; "error"];
  co_sandbox : ll_Mode (sec_Landlock (c_Security cfg)) ∈ sandbox_modes /\ sec_Seatbelt (c_Security cfg) ∈ sandbox_modes
    /\ 1 <= MinimumABI (sec_Landlock (c_Security cfg)) <= MaxABI;
  co_shutdown : 0 < GracePeriod (c_Shutdown cfg);
  co_responses : 0 < AffinityTTL (c_Responses cfg) /\ 0 < MaxAffinityEntries (c_Responses cfg);
  co_retry : 1 <= MaxAttempts (c_Retry cfg) <= 8
    /\ 0 < InitialBackoff (c_Retry cfg) <= MaxBackoff (c_Retry cfg);
  co_accounting : acc_Enabled (c_Accounting cfg) = true ->
    acc_Path (c_Accounting cfg) <> "" /\ 0 < acc_QueueSize (c_Accounting cfg)
    /\ 0 <= ReplayMaxBytes (c_Accounting cfg) /\ Overflow (c_Accounting cfg) = "drop-and-alert"
    /\ (FSync (c_Accounting cfg) = "interval" /\ 0 < FSyncInterval (c_Accounting cfg)
        \/ FSync (c_Accounting cfg) ∈ ["every"; "never"] /\ FSyncInterval (c_Accounting cfg) = 0);
  co_reservation : 0 <= UnknownUsageReservation (c_Accounting cfg);
  co_backends : Backends cfg <> ∅ /\ forall name b, Backends cfg !! name = Some b ->
    backend_ok (sec_BackendNetwork (c_Security cfg)) b;
  co_models : c_Models cfg <> ∅ /\ forall name m, c_Models cfg !! name = Some m ->
    model_ok (Backends cfg) name m
}.

Lemma validateSecurity_ok s : validateSecurity s = [] ->
  bn_Mode (sec_BackendNetwork s) ∈ ["loopback-only"; "any"; "allowed-cidrs"]
  /\ Forall (fun c => is_Some (ParseCIDR c)) (bn_CIDRs (sec_BackendNetwork s))
  /\ (bn_Mode (sec_BackendNetwork s) = "allowed-cidrs" <-> bn_CIDRs (sec_BackendNetwork s) <> []).
Proof.
  unfold validateSecurity. rewrite !app_nil. intros (Hn & _). revert Hn.
  destruct (one_of ["loopback-only"; "any"] (bn_Mode (sec_BackendNetwork s))) eqn:E1.
  - rewrite when_nil. intros Hc. apply negb_false_iff, bool_decide_eq_true in Hc. rewrite Hc.
    apply one_of_elem in E1. rewrite !elem_of_cons, elem_of_nil in *.
    split_and!; [tauto|constructor|]. split; [|done]. intros Hm. rewrite Hm in E1. naive_solver.
  - destruct (String.eqb_spec (bn_Mode (sec_BackendNetwork s)) "allowed-cidrs") as [E2|]; [|done].
    rewrite app_nil, when_nil, flat_map_nil. intros [Hne Hall]. apply bool_decide_eq_false in Hne.
    split_and!; [rewrite E2; set_solver| |done]. eapply Forall_impl; [exact Hall|]. cbn. intros c.
    by destruct (ParseCIDR c).
Qed.

Lemma validateSandbox_ok s : validateSecurity s = [] ->
  ll_Mode (sec_Landlock s) ∈ sandbox_modes /\ sec_Seatbelt s ∈ sandbox_modes /\ 1 <= MinimumABI (sec_Landlock s) <= MaxABI.
Proof.
  unfold validateSecurity. rewrite !app_nil, !when_nil, !negb_false_iff, !one_of_elem, orb_false_iff, !Z.ltb_ge. tauto.
Qed.

Lemma validate_ok cfg : validate url_parse cfg = [] -> config_ok cfg.
Proof.
  unfold validate. rewrite !app_nil, when_nil.
  intros (Hv & Hs & Ha & Hsec & Hlog & Hacc & Hl & Hsh & Hr & Hre & Hb & Hm).
  apply negb_false_iff, Z.eqb_eq in Hv.
  apply validateServer_ok in Hs. apply validateBackends_ok in Hb. apply validateModels_ok in Hm.
  pose proof (validateSandbox_ok _ Hsec) as Hbox. apply validateSecurity_ok in Hsec.
  unfold validateLimits in Hl. rewrite !app_nil, !when_nil in Hl. destruct Hl as (L1 & L2 & L3 & L4 & L5).
  unfold validateLogging in Hlog. rewrite app_nil, !when_nil, !negb_false_iff, !one_of_elem in Hlog.
  unfold validateShutdown in Hsh. apply when_nil in Hsh.
  unfold validateResponses in Hr. rewrite !app_nil, !when_nil in Hr. destruct Hr as (R1 & R2).
  unfold validateRetry in Hre. rewrite !app_nil, !when_nil, orb_false_iff in Hre.
  unfold defaultRetryMaxAttemptsMax in Hre. destruct Hre as ([T1 T2] & T3 & T4 & T5).
  apply Z.leb_gt in L2, L4, Hsh, R1, R2, T3, T4. apply Z.ltb_ge in T1, T2, T5.
  split; try done; try lia.
  - unfold validateAuth in Ha. apply app_nil in Ha as [A1 A2].
    destruct (String.eqb (UsersFilePath _) ""); [done|]. destruct (String.eqb (PepperFile _) ""); [done|].
    by apply when_nil, negb_false_iff in A1, A2.
  - intros Hen. unfold validateAccounting in Hacc. rewrite Hen in Hacc. cbn [negb] in Hacc.
    rewrite !app_nil, !when_nil in Hacc. destruct Hacc as (A & Q & P & _ & O & Fs).
    apply String.eqb_neq in A. apply Z.leb_gt in Q. apply Z.ltb_ge in P. apply negb_false_iff, String.eqb_eq in O.
    do 4 (split; [done|]). destruct (String.eqb_spec (FSync (c_Accounting cfg)) "interval") as [Ei|Ei].
    + left. by apply when_nil, Z.leb_gt in Fs.
    + right. destruct (one_of _ _) eqn:Eo; [|done]. apply one_of_elem in Eo.
      by apply when_nil, negb_false_iff, Z.eqb_eq in Fs.
  - unfold validateAccounting in Hacc. destruct (acc_Enabled _); cbn [negb] in Hacc;
      rewrite !app_nil, !when_nil in Hacc.
    + destruct Hacc as (_ & _ & _ & U & _). by apply Z.ltb_ge in U.
    + destruct Hacc as (_ & U). by apply Z.ltb_ge in U.
Qed.

(** A backend of a loaded configuration carries its server's limits, which
    normalization has bounded. *)
Lemma loaded_backend_limits doc cfg name b :
  normalizeSource doc = Ok cfg -> Backends (applyDefaults cfg) !! name = Some b ->
  MaxConcurrency b <= maxServerConcurrency /\ QueueSize b <= maxServerQueueSize
  /\ RequestTimeout b = defaultRequestTimeout /\ QueueTimeout b <= RequestTimeout b.
Proof.
  unfold normalizeSource. intros Hn. destruct (normalize_spec doc defaultBackendName) as [Hiff Hden].
  assert (source_ok doc defaultBackendName) as Hok by (apply Hiff; eauto).
  cbn. rewrite lookup_fmap, fmap_Some. intros (b0 & Hb & ->).
  apply (de_backends _ _ _ (Hden _ Hn)) in Hb as (pn & sm & s & Hsm & Hin & -> & Hb).
  unfold backend_of, limits_of in Hb. destruct (Servers doc !! s) as [srv|] eqn:Es; [|done]. injection Hb as <-.
  destruct (sok_limits _ _ Hok _ _ Es) as (Hc & Hq & Hw). unfold default_backend.
  cbn [MaxConcurrency QueueSize RequestTimeout QueueTimeout conc queue wait fst admission] in *.
  change (or_z 0 defaultRequestTimeout) with defaultRequestTimeout. lia.
Qed.

(** C39: A configuration file that loads is safe to build the server from.
    Whatever the YAML library and the URL parser return, if [Parse] accepts a
    file then in the result every size, count, burst, timeout and grace period
    of the server, of the admission and of each backend is positive (a
    backend's queue may be empty and a model's output cap absent), every rate,
    that of the authentication failure log too, is not at most zero (which a
    NaN and an infinite rate satisfy as well), retries are 1 to 8 with ordered
    backoffs, a backend's concurrency is at most 1024 and its queue 4096, its
    queue wait at most the request timeout; an enabled accounting log has a
    path, a positive queue, the one overflow policy and a positive fsync
    interval when it syncs by interval; the listener is local with a mode
    within 0777, has both TLS files or is explicitly opened; the trusted
    proxies are distinct and fit the listener; sandbox modes, Landlock ABI and
    log settings are known ones; every backend has a well-formed URL whose
    literal host obeys the egress policy; and every model has a supported
    strategy, distinct known backends and a name no key ACL can misread. *)
Theorem Parse_config_ok yaml_stream yaml_is_map yaml_decode data cfg :
  Parse yaml_stream yaml_is_map yaml_decode url_parse data = Ok cfg ->
  config_ok cfg
  /\ forall name b, Backends cfg !! name = Some b ->
       MaxConcurrency b <= maxServerConcurrency /\ QueueSize b <= maxServerQueueSize
       /\ QueueTimeout b <= RequestTimeout b.
Proof.
  unfold Parse, parse. destruct (checkShape _ _) as [n|]; [|done].
  destruct (CheckYAMLTree n); [|done]. destruct (yaml_decode n) as [doc|]; [|done].
  destruct (normalizeSource doc) as [cfg0|] eqn:En; [|done].
  destruct (validate url_parse (applyDefaults cfg0)) eqn:Ev; [|done]. intros [= <-].
  split; [by apply validate_ok|]. intros name b Hb.
  destruct (loaded_backend_limits _ _ _ _ En Hb) as (? & ? & ? & ?). done.
Qed.
End Accepted.

(** ** The YAML tree *)

Definition y_kind (n : ynode) : ykind := let 'YNode k _ _ _ _ := n in k.
Definition y_tag (n : ynode) : string := let 'YNode _ t _ _ _ := n in t.
Definition y_content (n : ynode) : list ynode := let 'YNode _ _ _ _ c := n in c.

(** [n] occurs in the tree. *)
Inductive node_in (n : ynode) : ynode -> Prop :=
| ni_root : node_in n n
| ni_child m c : c ∈ y_content m -> node_in n c -> node_in n m.

Fixpoint ynode_size (n : ynode) : nat :=
  let 'YNode _ _ _ _ cs := n in
  S ((fix go l := match l with [] => O | c :: l => ynode_size c + go l end) cs)%nat.

Lemma child_smaller n c : c ∈ y_content n -> (ynode_size c < ynode_size n)%nat.
Proof.
  destruct n as [k t a l cs]. cbn. intros Hin. apply Nat.lt_succ_r.
  induction cs as [|x cs IH]; [by apply not_elem_of_nil in Hin|].
  apply elem_of_cons in Hin as [->|Hin]; [lia|]. specialize (IH Hin). lia.
Qed.

Lemma CheckYAMLTree_step n :
  CheckYAMLTree n = Ok tt <->
  y_kind n <> YAlias /\ allowedTag (y_tag n) = true
  /\ Forall (fun c => CheckYAMLTree c = Ok tt) (y_content n).
Proof.
  destruct n as [k t a l cs]. cbn [y_kind y_tag y_content].
  assert (Hwalk : forall cs, (fix walk (l : list ynode) : result parse_error unit :=
      match l with
      | [] => Ok tt
      | c :: l => match CheckYAMLTree c with Ok _ => walk l | Err e => Err e end
      end) cs = Ok tt <-> Forall (fun c => CheckYAMLTree c = Ok tt) cs).
  { clear. induction cs as [|c cs IH]; [by split|]. rewrite Forall_cons, <- IH.
    destruct (CheckYAMLTree c) as [[]|]; naive_solver. }
  destruct k; cbn; try (split; [done|]; by intros (? & _));
    destruct (allowedTag t); cbn; rewrite ?Hwalk; naive_solver.
Qed.

(** The strictness check is complete over the whole tree.  A document
    passes if and only if no node anywhere in it is an alias and every node
    carries a plain tag; in particular a merge key ([<<], tag [!!merge])
    and any custom tag are refused wherever they hide. *)
Theorem CheckYAMLTree_complete root :
  (CheckYAMLTree root = Ok tt <->
   forall n, node_in n root -> y_kind n <> YAlias /\ allowedTag (y_tag n) = true)
  /\ allowedTag "!!merge" = false /\ allowedTag "!include" = false.
Proof.
  split; [|done]. induction root as [root IH] using (induction_ltof1 _ ynode_size). unfold ltof in IH.
  rewrite CheckYAMLTree_step, Forall_forall. split.
  - intros (Hk & Ht & Hall) n Hin. inversion Hin as [|m c Hc Hn]; subst; [by split|]. apply (IH c); auto using child_smaller.
  - intros Hall. destruct (Hall root (ni_root _)) as [Hk Ht]. split_and!; try done.
    intros c Hc. apply IH; [auto using child_smaller|]. intros n Hn. apply Hall. by eapply ni_child.
Qed.

(** An anchor without an alias is not looked at. *)
Example anchor_accepted :
  CheckYAMLTree (YNode YDocument "" "" 1 [YNode YScalar "!!str" "base" 1 []]) = Ok tt.
Proof. reflexivity. Qed.

(** ** Witnesses *)

Module ConfigDemo.
Definition server : Server :=
  mkServer (mkListen "tcp" "127.0.0.1:8080" "") (mkTLS "" "") 0 0 0 0 0 0 0 0 0 0 0 false "" [].
Definition doc : sourceDoc (F := Q) :=
  mkSourceDoc 1 server (mkAuthCfg "" "") (mkSecurity (mkBackendNetwork "" []) (mkLandlock "" 0) "")
    (mkLogging "" "") (mkAccounting false "" None None 0 0 "" "" 0 0)
    (mkGlobalLimits (0 # 1)%Q 0 (0 # 1)%Q 0 (0 # 1)%Q) (mkShutdown 0) (mkResponses 0 0) (mkRetry 0 0 0 None)
    {["gpu" := mkSourceServer "http://127.0.0.1:8000" "" false None (Some 0) None]}
    {["qwen" := mkSourceModel "" "" 0 ["gpu"] ""]}.
Definition cfg : Config (F := Q) := Eval vm_compute in
  match normalizeSource doc with Ok c => c | Err _ => mkConfig 0 server (mkAuthCfg "" "")
    (mkSecurity (mkBackendNetwork "" []) (mkLandlock "" 0) "") (mkLogging "" "")
    (mkAccounting false "" None None 0 0 "" "" 0 0) (mkGlobalLimits (0 # 1)%Q 0 (0 # 1)%Q 0 (0 # 1)%Q)
    (mkShutdown 0) (mkResponses 0 0) (mkRetry 0 0 0 None) ∅ ∅ end.
(** A URL parser that knows one URL, and a YAML library that knows one
    document. *)
Definition urls (s : string) : option URL :=
  if String.eqb s "http://127.0.0.1:8000" then Some (mkURL "http" false "127.0.0.1:8000" "" "" "") else None.
Definition root : ynode := YNode YDocument "" "" 1 [YNode YMapping "!!map" "" 1 []].
End ConfigDemo.

Lemma effective_roundtrip_witness :
  exists cfg', normalizeSource (as_source (effectiveSource ConfigDemo.doc (applyDefaults ConfigDemo.cfg))) = Ok cfg'
    /\ applyDefaults cfg' = applyDefaults ConfigDemo.cfg.
Proof. apply effective_roundtrip. vm_compute. reflexivity. Defined.

Lemma Parse_config_ok_witness :
  config_ok ConfigDemo.urls (applyDefaults ConfigDemo.cfg).
Proof.
  apply (Parse_config_ok ConfigDemo.urls (fun _ => [Some ConfigDemo.root]) (fun _ => true)
    (fun _ => Some ConfigDemo.doc) "" (applyDefaults ConfigDemo.cfg)).
  vm_compute. reflexivity.
Defined.
