(* ===== verification/Peer.v ===== *)
(** * The client's address: [internal/httpapi/peer.go]

    Which address a request is limited and logged under, when a reverse
    proxy the operator trusts forwards it in [X-Forwarded-For]. *)

From Stdlib Require Import Ascii.
From S2P Require Import Prelude GoStrings Net Json IpText Config ConfigFacts Float64.

(** ** Trust *)

(* src: internal/httpapi/peer.go maxForwardedHops *)
Definition maxForwardedHops : nat := 32.

(* src: internal/httpapi/peer.go trustedPeers *)
Record trustedPeers := mkPeers { tp_nets : list Prefix; tp_unix : bool }.

(** One iteration of the loop of [newTrustedPeers]. *)
Definition add_trusted (network : string) (t : trustedPeers) (entry : string) : trustedPeers :=
  if String.eqb entry TrustedProxyUnix then mkPeers (tp_nets t) (String.eqb network "unix")
  else match ParsePrefix entry with
       | Some p => mkPeers (tp_nets t ++ [Masked p]) (tp_unix t)
       | None => t
       end.
(* src: internal/httpapi/peer.go newTrustedPeers *)
Definition newTrustedPeers (network : string) (entries : list string) : trustedPeers :=
  foldl (add_trusted network) (mkPeers [] false) entries.

(* src: internal/httpapi/peer.go trustedPeers.trusts *)
Definition trusts (t : trustedPeers) (a : Addr) : bool :=
  existsb (fun p => prefix_contains p a) (tp_nets t).

(** ** The address of a request *)

(* src: internal/httpapi/server.go peerString *)
Definition peerString (remoteAddr : string) : string :=
  if String.eqb remoteAddr "" || String.eqb remoteAddr "@" then "unix"
  else match SplitHostPort remoteAddr with
       | None => remoteAddr
       | Some (host, _) => host
       end.

(* src: internal/httpapi/peer.go forwardedAddr *)
Definition forwardedAddr (raw : string) : option Addr :=
  let s := TrimSpace raw in
  let s := match SplitHostPort s with Some (host, _) => host | None => s end in
  match ParseAddr (trim_suffix "]" (trim_prefix "[" s)) with
  | None => None
  | Some addr => Some (Unmap addr)
  end.

(** The walk over the header values, last value first; [hopsLeft] is how many
    hops may still be looked at, [rest] what is left of the current value
    and [more] the values before it. *)
(* src: internal/httpapi/peer.go 78-95 trustedPeers.clientIP *)
Fixpoint walk (t : trustedPeers) (peer : string) (hopsLeft : nat) (rest : string) (more : list string) : string :=
  match hopsLeft with
  | O => peer
  | S hopsLeft =>
      let '(before, elem) :=
        match cut_last ","%char rest with
        | Some (l, r) => (Some l, r)
        | None => (None, rest)
        end in
      match forwardedAddr elem with
      | None => peer
      | Some addr =>
          if negb (trusts t addr) then addr_String addr
          else match before, more with
               | Some l, _ => walk t peer hopsLeft l more
               | None, v :: more => walk t peer hopsLeft v more
               | None, [] => peer
               end
      end
  end.

(** [remoteAddr] is [r.RemoteAddr] and [xff] the values of
    [X-Forwarded-For], in order. *)
(* src: internal/httpapi/peer.go trustedPeers.clientIP *)
Definition clientIP (t : trustedPeers) (remoteAddr : string) (xff : list string) : string :=
  let peer := peerString remoteAddr in
  let believed :=
    tp_unix t ||
    match ParseAddr peer with Some addr => trusts t (Unmap addr) | None => false end in
  if negb believed then peer
  else match rev xff with
       | [] => peer
       | v :: more => walk t peer maxForwardedHops v more
       end.

(** ** The walk is a scan of the elements from the right *)

(** The elements of the header, in order. *)
Definition elements (xff : list string) : list string := concat (map (split_on ","%char) xff).

Fixpoint scan (t : trustedPeers) (peer : string) (n : nat) (els : list string) : string :=
  match n, els with
  | O, _ | _, [] => peer
  | S n, e :: els =>
      match forwardedAddr e with
      | None => peer
      | Some addr => if negb (trusts t addr) then addr_String addr else scan t peer n els
      end
  end.

Lemma split_on_cut_last c s :
  match cut_last c s with
  | Some (l, r) => split_on c s = split_on c l ++ [r]
  | None => split_on c s = [s]
  end.
Proof.
  induction s as [|a s IH]; [done|]. cbn [cut_last split_on].
  destruct (cut_last c s) as [[l r]|].
  - rewrite IH. cbn [split_on]. destruct (Ascii.eqb a c); [done|].
    by destruct (split_on c l) eqn:E; [destruct (split_on_nonempty c l)|].
  - rewrite IH. by destruct (Ascii.eqb a c).
Qed.

Lemma walk_scan t peer n rest more :
  walk t peer n rest more = scan t peer n (rev (elements (rev (rest :: more)))).
Proof.
  revert rest more. induction n as [|n IH]; intros rest more; [done|]. cbn [walk rev].
  assert (Hel : forall v vs, rev (elements (rev vs ++ [v])) = rev (split_on ","%char v) ++ rev (elements (rev vs))).
  { intros v vs. unfold elements. rewrite map_app, concat_app, rev_app_distr. cbn [map concat]. by rewrite app_nil_r. }
  rewrite Hel. pose proof (split_on_cut_last ","%char rest) as Hcut.
  destruct (cut_last ","%char rest) as [[l r]|]; rewrite Hcut; rewrite ?rev_app_distr; cbn [rev app scan];
    (destruct (forwardedAddr _) as [addr|]; [|done]); (destruct (trusts t addr); [|done]); cbn [negb].
  - by rewrite IH, <- Hel.
  - destruct more as [|v more]; [by destruct n|]. apply IH.
Qed.

Definition believed (t : trustedPeers) (remoteAddr : string) : bool :=
  tp_unix t || match ParseAddr (peerString remoteAddr) with Some addr => trusts t (Unmap addr) | None => false end.

Lemma clientIP_scan t remoteAddr xff :
  clientIP t remoteAddr xff =
  if believed t remoteAddr then scan t (peerString remoteAddr) maxForwardedHops (rev (elements xff))
  else peerString remoteAddr.
Proof.
  unfold clientIP. fold (believed t remoteAddr). destruct (believed t remoteAddr); [cbn [negb]|done].
  rewrite <- (rev_involutive xff) at 2. destruct (rev xff) as [|v more]; [done|]. apply walk_scan.
Qed.

(** An element a trusted proxy stands for. *)
Definition trusted_hop (t : trustedPeers) (e : string) : Prop :=
  exists a, forwardedAddr e = Some a /\ trusts t a = true.

Lemma scan_trusted t peer n hops els : Forall (trusted_hop t) hops ->
  scan t peer (length hops + n) (hops ++ els) = scan t peer n els.
Proof. induction 1 as [|e hops (a & Ha & Ht) _ IH]; [done|]. cbn. by rewrite Ha, Ht. Qed.

(** The scan stops at the first element that is no trusted hop. *)
Lemma scan_stops t peer n els :
  (exists hops e rest, els = hops ++ e :: rest /\ Forall (trusted_hop t) hops /\ (length hops < n)%nat /\
     ~ trusted_hop t e /\
     scan t peer n els = match forwardedAddr e with Some a => addr_String a | None => peer end) \/
  (Forall (trusted_hop t) (take n els) /\ scan t peer n els = peer).
Proof.
  revert els. induction n as [|n IH]; intros els; [by right|]. destruct els as [|e els]; [by right|]. cbn [take scan].
  destruct (forwardedAddr e) as [a|] eqn:Ea; [destruct (trusts t a) eqn:Et|]; cbn [negb].
  - destruct (IH els) as [(hops & x & rest & -> & Hh & Hl & Hx & ->)|[Hall ->]].
    + left. exists (e :: hops), x, rest. cbn. split_and!; [done|constructor; [by exists a|done]|lia|done|done].
    + right. split; [constructor; [by exists a|done]|done].
  - left. exists [], e, els. rewrite Ea. cbn. split_and!; [done|constructor|lia|intros (a' & Ha' & Ht')|done]. congruence.
  - left. exists [], e, els. rewrite Ea. cbn. split_and!; [done|constructor|lia|intros (a' & Ha' & Ht')|done]. congruence.
Qed.

(** C5: The client's address cannot be forged. Without a trusted peer the
    header is not read. Behind trusted proxies, whatever the client put
    before: the address is that of the rightmost element no trusted proxy
    stands for, when it is an address and at most 32 hops back, and the
    proxy's own address otherwise; so two requests whose headers agree from
    that element on, and differ in anything before it, in number of header
    lines or in how the elements are spread over them, count as one client. *)
Theorem client_address_unforgeable t remoteAddr :
  (forall xff, believed t remoteAddr = false -> clientIP t remoteAddr xff = peerString remoteAddr) /\
  (forall xff forged e hops, believed t remoteAddr = true ->
     elements xff = forged ++ e :: hops -> Forall (trusted_hop t) hops -> ~ trusted_hop t e ->
     clientIP t remoteAddr xff =
       if (length hops <? maxForwardedHops)%nat
       then match forwardedAddr e with Some a => addr_String a | None => peerString remoteAddr end
       else peerString remoteAddr) /\
  (forall xff, clientIP t remoteAddr xff <> peerString remoteAddr ->
     exists forged e hops a, elements xff = forged ++ e :: hops /\ Forall (trusted_hop t) hops /\
       forwardedAddr e = Some a /\ trusts t a = false /\ clientIP t remoteAddr xff = addr_String a).
Proof.
  split; [|split].
  - intros xff Hb. by rewrite clientIP_scan, Hb.
  - intros xff forged e hops Hb Hels Hh He. rewrite clientIP_scan, Hb, Hels, rev_app_distr. cbn [rev].
    rewrite <- app_assoc. cbn [app]. apply Forall_rev in Hh. rewrite <- (length_rev hops).
    destruct (Nat.ltb_spec (length (rev hops)) maxForwardedHops) as [Hlt|Hge].
    + replace maxForwardedHops with (length (rev hops) + S (maxForwardedHops - length (rev hops) - 1))%nat by lia.
      rewrite scan_trusted by done. cbn [scan]. destruct (forwardedAddr e) as [a|] eqn:Ea; [|done].
      destruct (trusts t a) eqn:Et; [|done]. exfalso. apply He. by exists a.
    + rewrite <- (firstn_skipn maxForwardedHops (rev hops)), <- app_assoc.
      replace maxForwardedHops with (length (firstn maxForwardedHops (rev hops)) + 0)%nat at 1
        by (rewrite length_firstn; lia).
      by rewrite scan_trusted by (by apply Forall_take).
  - intros xff. rewrite clientIP_scan. destruct (believed t remoteAddr); [|done].
    destruct (scan_stops t (peerString remoteAddr) maxForwardedHops (rev (elements xff)))
      as [(hops & e & rest & Hr & Hh & _ & He & ->)|[_ ->]]; [|done].
    destruct (forwardedAddr e) as [a|] eqn:Ea; [|done]. intros _. exists (rev rest), e, (rev hops), a.
    apply (f_equal (@rev string)) in Hr. rewrite rev_involutive, rev_app_distr in Hr. cbn [rev] in Hr.
    rewrite <- app_assoc in Hr. split_and!; [done|by apply Forall_rev|done| |done].
    destruct (trusts t a) eqn:Et; [|done]. exfalso. apply He. by exists a.
Qed.

(** ** The configured proxies *)

(** What an accepted [trusted_proxies] entry is. *)
Lemma trusted_proxies_entries s seen l : trusted_proxies_loop s seen l = [] ->
  Forall (fun entry =>
    (entry = TrustedProxyUnix /\ l_Network (s_Listen s) = "unix") \/
    (entry <> TrustedProxyUnix /\ l_Network (s_Listen s) <> "unix" /\ is_Some (ParsePrefix entry))) l.
Proof.
  revert seen. induction l as [|entry l IH]; intros seen; [by constructor|]. cbn [trusted_proxies_loop].
  rewrite app_nil. intros [He Hl]. constructor; [|by eapply IH]. unfold trusted_proxy_entry in He.
  destruct (bool_decide _); [done|]. destruct (String.eqb_spec entry TrustedProxyUnix) as [->|Hne].
  - left. apply when_nil in He. to_prop. done.
  - destruct (ParsePrefix entry) as [p|]; [|done]. destruct (negb _); [done|]. apply when_nil in He. to_prop.
    right. eauto.
Qed.

Lemma newTrustedPeers_nets network l : Forall (fun entry => entry <> TrustedProxyUnix -> is_Some (ParsePrefix entry)) l ->
  forall t, tp_nets (foldl (add_trusted network) t l) =
    tp_nets t ++ map Masked (omap ParsePrefix (List.filter (fun e => negb (String.eqb e TrustedProxyUnix)) l)).
Proof.
  induction 1 as [|e l He _ IH]; intros t; cbn -[TrustedProxyUnix]; [by rewrite app_nil_r|].
  rewrite IH. unfold add_trusted.
  destruct (String.eqb_spec e TrustedProxyUnix) as [|Hne]; [done|]. destruct (He Hne) as [p Hp].
  cbn [negb omap list_omap]. rewrite Hp. cbn. by rewrite <- app_assoc.
Qed.

Lemma newTrustedPeers_unix network l : network = "unix" ->
  forall t, tp_unix (foldl (add_trusted network) t l) = tp_unix t || bool_decide (TrustedProxyUnix ∈ l).
Proof.
  intros ->. induction l as [|e l IH]; intros t; cbn -[TrustedProxyUnix]; [by rewrite orb_false_r|].
  rewrite IH. unfold add_trusted. destruct (String.eqb_spec e TrustedProxyUnix) as [->|Hne].
  - rewrite (bool_decide_true (_ ∈ _ :: _)) by (by left). cbn. by destruct (tp_unix t).
  - assert (bool_decide (TrustedProxyUnix ∈ e :: l) = bool_decide (TrustedProxyUnix ∈ l)) as ->.
    { apply bool_decide_ext. rewrite elem_of_cons. naive_solver. }
    by destruct (ParsePrefix e).
Qed.

Lemma newTrustedPeers_no_unix network l : TrustedProxyUnix ∉ l ->
  forall t, tp_unix (foldl (add_trusted network) t l) = tp_unix t.
Proof.
  induction l as [|e l IH]; intros Hl t; cbn -[TrustedProxyUnix]; [done|]. rewrite elem_of_cons in Hl.
  rewrite IH by naive_solver. unfold add_trusted. destruct (String.eqb_spec e TrustedProxyUnix) as [->|Hne]; [naive_solver|].
  by destruct (ParsePrefix e).
Qed.

Lemma ParsePrefix_bits s p : ParsePrefix s = Some p -> p_bits p <= BitLen (p_addr p).
Proof.
  unfold ParsePrefix. destruct (cut_last _ _) as [[l b]|]; [|done]. destruct (ParseAddr l) as [a|]; [|done].
  destruct (negb _); [done|]. destruct (_ && _); [done|]. destruct (decimal b) as [n|]; [|done].
  destruct (Z.leb_spec n (BitLen a)); [|done]. by intros [= <-].
Qed.

Lemma Masked_contains p a : p_bits p <= BitLen (p_addr p) -> prefix_contains (Masked p) a = prefix_contains p a.
Proof.
  intros Hb. unfold prefix_contains, Masked. destruct (p_addr p), a; cbn in *; rewrite ?top_eq_mask by lia; done.
Qed.

(** For an accepted configuration no entry is dropped: the socket's peer is
    trusted exactly when the operator wrote [unix], and an address exactly
    when a listed prefix contains it. *)
Lemma accepted_proxies_honoured s : validateTrustedProxies s = [] ->
  let t := newTrustedPeers (l_Network (s_Listen s)) (TrustedProxies s) in
  (tp_unix t = true <-> TrustedProxyUnix ∈ TrustedProxies s) /\
  (forall a, trusts t a = true <->
     exists entry p, entry ∈ TrustedProxies s /\ ParsePrefix entry = Some p /\ prefix_contains p a = true).
Proof.
  intros Hv%trusted_proxies_entries t. rewrite Forall_forall in Hv. split.
  - subst t. unfold newTrustedPeers. destruct (decide (TrustedProxyUnix ∈ TrustedProxies s)) as [Hin|Hno].
    + destruct (Hv _ Hin) as [[_ Hu]|[? _]]; [|done]. by rewrite newTrustedPeers_unix, bool_decide_true.
    + by rewrite newTrustedPeers_no_unix.
  - intros a. unfold trusts. rewrite existsb_exists. subst t. unfold newTrustedPeers.
    rewrite newTrustedPeers_nets by (apply Forall_forall; intros e He Hne; destruct (Hv e He) as [[? _]|(_ & _ & ?)]; done).
    cbn [tp_nets app]. split.
    + intros (m & Hin & Hc). apply in_map_iff in Hin as (p & <- & Hin).
      apply list_elem_of_In, list_elem_of_omap in Hin as (e & He & Hp). exists e, p.
      rewrite Masked_contains in Hc by (by eapply ParsePrefix_bits).
      apply list_elem_of_In, filter_In in He as [He _]. by apply list_elem_of_In in He.
    + intros (e & p & He & Hp & Hc). exists (Masked p). rewrite Masked_contains by (by eapply ParsePrefix_bits).
      split; [|done]. apply in_map_iff. exists p. split; [done|].
      apply list_elem_of_In, list_elem_of_omap. exists e. split; [|done].
      apply list_elem_of_In, filter_In. split; [by apply list_elem_of_In|].
      destruct (String.eqb_spec e TrustedProxyUnix) as [->|]; [|done]. by vm_compute in Hp.
Qed.

(** Yet an entry can be accepted and match nothing: addresses are unmapped
    before they are compared, so a prefix of IPv4 addresses written in IPv6
    form contains none of them. *)
Theorem mapped_proxy_never_trusted v z n m a : To4 v = Some m -> 96 <= n <= 128 ->
  prefix_contains (mkPrefix (V6 v z) n) (Unmap a) = false.
Proof.
  intros Hv Hn. apply not_true_iff_false. unfold prefix_contains. cbn [p_addr p_bits].
  destruct (Unmap a) as [|x zone] eqn:Ea; [done|]. rewrite andb_true_iff, top_eq_spec by lia. intros [_ Ht].
  apply To4_Some in Hv as [Hv _].
  assert (To4 x = Some (Z.land x (Z.ones 32))) as Hx.
  { apply To4_Some. split; [|done]. rewrite <- Hv. apply Z.bits_inj'. intros i Hi.
    rewrite !Z.shiftr_spec by lia. symmetry. apply Ht. lia. }
  destruct a as [|y w]; [done|]. cbn in Ea. destruct (To4 y) eqn:Ey; [done|]. injection Ea as -> ->. congruence.
Qed.

Module PeerDemo.
Definition t : trustedPeers := newTrustedPeers "tcp" ["10.0.0.0/8"; "fd00::/8"].
Definition xff : list string := ["1.1.1.1"; "8.8.8.8,  203.0.113.9 , [fd00::1]:443"; "10.1.2.3:80"].
End PeerDemo.

Example clientIP_ex :
  (clientIP PeerDemo.t "10.0.0.7:443" PeerDemo.xff, clientIP PeerDemo.t "9.9.9.9:1" PeerDemo.xff,
   clientIP PeerDemo.t "10.0.0.7:443" ["1.1.1.1, unknown"], clientIP PeerDemo.t "@" PeerDemo.xff)
  = ("203.0.113.9", "9.9.9.9", "10.0.0.7", "unix").
Proof. vm_compute. reflexivity. Qed.

Example mapped_entry_accepted :
  option_map (fun p => (p, bool_decide (p_addr p = p_addr (Masked p)))) (ParsePrefix "::ffff:10.0.0.0/104")
  = Some (mkPrefix (V6 (v4_mapped 167772160) "") 104, true).
Proof. vm_compute. reflexivity. Qed.

(** Two requests through the same proxies that differ in what the client
    claims count as one client. *)
Lemma client_address_unforgeable_witness :
  clientIP PeerDemo.t "10.0.0.7:443" PeerDemo.xff = "203.0.113.9" /\
  clientIP PeerDemo.t "10.0.0.7:443" ["9.9.9.9,9.9.9.8"; "203.0.113.9"; "[fd00::1]:443,10.1.2.3:80"] = "203.0.113.9".
Proof.
  assert (Hb : believed PeerDemo.t "10.0.0.7:443" = true) by (vm_compute; reflexivity).
  assert (Hh : forall e a, forwardedAddr e = Some a -> trusts PeerDemo.t a = true -> trusted_hop PeerDemo.t e) by (intros; eexists; eauto).
  assert (He : forall e a, forwardedAddr e = Some a -> trusts PeerDemo.t a = false -> ~ trusted_hop PeerDemo.t e).
  { intros e a Ha Ht (a' & Ha' & Ht'). congruence. }
  destruct (client_address_unforgeable PeerDemo.t "10.0.0.7:443") as (_ & Hc & _). split.
  - rewrite (Hc _ ["1.1.1.1"; "8.8.8.8"] "  203.0.113.9 " [" [fd00::1]:443"; "10.1.2.3:80"] Hb);
      [vm_compute; reflexivity|vm_compute; reflexivity| |eapply He; vm_compute; reflexivity].
    repeat (constructor; [eapply Hh; vm_compute; reflexivity|]). constructor.
  - rewrite (Hc _ ["9.9.9.9"; "9.9.9.8"] "203.0.113.9" ["[fd00::1]:443"; "10.1.2.3:80"] Hb);
      [vm_compute; reflexivity|vm_compute; reflexivity| |eapply He; vm_compute; reflexivity].
    repeat (constructor; [eapply Hh; vm_compute; reflexivity|]). constructor.
Defined.

Lemma mapped_proxy_never_trusted_witness :
  prefix_contains (mkPrefix (V6 (v4_mapped 167772160) "") 104) (Unmap (V6 (v4_mapped 167772161) "")) = false.
Proof. apply (mapped_proxy_never_trusted _ _ _ 167772160); [vm_compute; reflexivity|lia]. Defined.
