(* ===== verification/Auth.v ===== *)
(** * API keys and the key store

    [internal/auth/key.go] (key grammar, generation, parsing, stored hashes)
    and [internal/auth/store.go] (users file, validation, the daemon's
    read-only store and [Lookup]). *)

From S2P Require Import Prelude Float64 GoStrings Crypto.
From Stdlib Require Import Ascii QArith.

#[local] Open Scope Z_scope.

(** ** Keys: [key.go] *)

(* src: internal/auth/key.go 13-35 Prefix *)
Definition Prefix : string := "sk".
Definition keyIDBytes : nat := 8.
Definition secretBytes : nat := 32.
Definition MaxRawKeyBytes : Z := 117.

(** [^[a-z][a-z0-9_]{0,31}$], the D18 username grammar. *)
Definition username_char (c : ascii) : bool := is_lower c || is_digit c || Ascii.eqb c "_"%char.
(* src: internal/auth/key.go usernamePattern *)
Definition usernamePattern (s : string) : bool :=
  match s with
  | "" => false
  | String c rest => is_lower c && sforall username_char rest && (String.length rest <=? 31)%nat
  end.

Inductive key_error := ErrInvalidName | ErrRandom | ErrKeyFormat | ErrHashEncoding | ErrHashMalformed.

(* src: internal/auth/key.go ValidateUsername *)
Definition ValidateUsername (username : string) : result key_error unit :=
  guard? usernamePattern username else ErrInvalidName in Ok tt.

(** [fmt.Sprintf("%s-%s-%s-%s", Prefix, username, id, secret)]. *)
Definition format_key (username id secret : string) : string :=
  Prefix +:+ "-" +:+ username +:+ "-" +:+ id +:+ "-" +:+ secret.

(** [Generate]; [idb] and [sb] are the two reads from the random source,
    [None] when the read fails. *)
(* src: internal/auth/key.go Generate *)
Definition Generate (username : string) (idb sb : option string) : result key_error (string * string) :=
  guard? usernamePattern username else ErrInvalidName in
  match idb with
  | None => Err ErrRandom
  | Some idb =>
      let id := hex_encode idb in
      match sb with
      | None => Err ErrRandom
      | Some sb =>
          let secret := hex_encode sb in
          Ok (format_key username id secret, id)
      end
  end.

(* src: internal/auth/key.go Parsed *)
Record Parsed := mkParsed { Raw : string; pID : string; Username : string }.

(* src: internal/auth/key.go isLowerHex *)
Definition isLowerHex (s : string) (n : nat) : bool :=
  (String.length s =? n)%nat && sforall is_hex_lower s.

(* src: internal/auth/key.go Parse *)
Definition Parse (raw : string) : result key_error Parsed :=
  if MaxRawKeyBytes <? slen raw then Err ErrKeyFormat else
  match split_on "-"%char raw with
  | [prefix; username; id; secret] =>
      if negb (String.eqb prefix Prefix)
         || negb (usernamePattern username)
         || negb (isLowerHex id (keyIDBytes * 2))
         || negb (isLowerHex secret (secretBytes * 2))
      then Err ErrKeyFormat
      else Ok (mkParsed raw id username)
  | _ => Err ErrKeyFormat
  end.

(* src: internal/auth/key.go Hash *)
Definition Hash (pepper fullKey : string) : string := hmac_sha256 pepper fullKey.

Definition hash_prefix : string := "hmac-sha256:".
(* src: internal/auth/key.go ParseHashValue *)
Definition ParseHashValue (stored : string) : result key_error string :=
  guard? has_prefix hash_prefix stored else ErrHashEncoding in
  match base64_raw_decode (trim_prefix hash_prefix stored) with
  | Some raw => if slen raw =? sha256_Size then Ok raw else Err ErrHashMalformed
  | None => Err ErrHashMalformed
  end.

(* src: internal/auth/key.go FormatHashValue *)
Definition FormatHashValue (h : string) : string := hash_prefix +:+ base64_raw_encode h.

(** ** The users file and the store: [store.go] *)

(* src: internal/auth/store.go KeyLimits *)
Record KeyLimits (F : Type) := mkKeyLimits {
  RequestsPerSecond : F;
  Burst : Z;
  ConcurrentRequests : Z;
  TokensPerHour : Z;
  TokensPerDay : Z
}.
Arguments mkKeyLimits {F}.
Arguments RequestsPerSecond {F}. Arguments Burst {F}. Arguments ConcurrentRequests {F}.
Arguments TokensPerHour {F}. Arguments TokensPerDay {F}.

(* src: internal/auth/store.go DefaultConcurrentRequests *)
Definition DefaultConcurrentRequests : Z := 8.

(* src: internal/auth/store.go Key *)
Record Key (F : Type) := mkKey {
  ID : string;
  Name : string;
  SecretHash : string;
  Enabled : bool;
  ExpiresAt : option time;
  Models : list string;
  Limits : KeyLimits F
}.
Arguments mkKey {F}. Arguments ID {F}. Arguments Name {F}. Arguments SecretHash {F}.
Arguments Enabled {F}. Arguments ExpiresAt {F}. Arguments Models {F}. Arguments Limits {F}.

Definition ModelWildcard : string := "*".

(* src: internal/auth/store.go Key.Allows *)
Definition Allows {F} (k : Key F) (model : string) : bool :=
  existsb (fun m => String.eqb m model || String.eqb m ModelWildcard) (Models k).

(* src: internal/auth/store.go UsersFile *)
Record UsersFile (F : Type) := mkUsersFile { uf_Version : Z; Keys : list (Key F) }.
Arguments mkUsersFile {F}. Arguments uf_Version {F}. Arguments Keys {F}.

Inductive limits_error := LNegConcurrent | LNegRate | LNegBurst | LNegHour | LNegDay.
Inductive users_error :=
| UVersion (v : Z)
| UInvalidID (i : nat) | UDuplicateID (id : string) | UNameRequired (id : string)
| UNameInvalid (id : string) | UHash (id : string) (e : key_error) | UNoModels (id : string)
| ULimits (id : string) (e : limits_error).

Inductive lookup_error := ErrUnknownKey | ErrDisabled | ErrExpired.

Section Store.
Context {F : Type} `{Float64 F}.
Implicit Types (k : Key F) (uf : UsersFile F).

(* src: internal/auth/store.go validateLimits *)
Definition validateLimits (l : KeyLimits F) : result limits_error unit :=
  if ConcurrentRequests l <? 0 then Err LNegConcurrent
  else if f_ltb (RequestsPerSecond l) (f_of_Z 0) then Err LNegRate
  else if Burst l <? 0 then Err LNegBurst
  else if TokensPerHour l <? 0 then Err LNegHour
  else if TokensPerDay l <? 0 then Err LNegDay
  else Ok tt.

(** The loop of [validateUsers]: [i] is the index and [seen] the ids so
    far. *)
Fixpoint validateKeys (i : nat) (seen : gset string) (ks : list (Key F)) : result users_error unit :=
  match ks with
  | [] => Ok tt
  | k :: ks' =>
      if negb (isLowerHex (ID k) 16) then Err (UInvalidID i)
      else if bool_decide (ID k ∈ seen) then Err (UDuplicateID (ID k))
      else if String.eqb (Name k) "" then Err (UNameRequired (ID k))
      else if negb (usernamePattern (Name k)) then Err (UNameInvalid (ID k))
      else match ParseHashValue (SecretHash k) with
      | Err e => Err (UHash (ID k) e)
      | Ok _ =>
          if (length (Models k) =? 0)%nat then Err (UNoModels (ID k))
          else match validateLimits (Limits k) with
          | Err e => Err (ULimits (ID k) e)
          | Ok _ => validateKeys (S i) ({[ID k]} ∪ seen) ks'
          end
      end
  end.

(* src: internal/auth/store.go validateUsers *)
Definition validateUsers uf : result users_error unit :=
  if negb (uf_Version uf =? 1) then Err (UVersion (uf_Version uf))
  else validateKeys 0 ∅ (Keys uf).

(* src: internal/auth/store.go Store *)
Record Store := mkStore { byID : gmap string (Key F); pepper : string; dummyHash : string }.

(* src: internal/auth/store.go Store.HasID *)
Definition HasID (s : Store) (id : string) : bool := bool_decide (is_Some (byID s !! id)).

Definition with_concurrency (l : KeyLimits F) (n : Z) : KeyLimits F :=
  mkKeyLimits (RequestsPerSecond l) (Burst l) n (TokensPerHour l) (TokensPerDay l).
Definition with_limits k (l : KeyLimits F) : Key F :=
  mkKey (ID k) (Name k) (SecretHash k) (Enabled k) (ExpiresAt k) (Models k) l.

(** The default the store applies to a key that sets no concurrency bound. *)
Definition normalize k : Key F :=
  if ConcurrentRequests (Limits k) =? 0
  then with_limits k (with_concurrency (Limits k) DefaultConcurrentRequests) else k.

Definition index_keys (ks : list (Key F)) : gmap string (Key F) :=
  foldl (fun m k => <[ID k := normalize k]> m) ∅ ks.

Inductive store_error := SEmptyPepper | SRandom.

(** [rnd] is the 32-byte read of the dummy hash, [None] when it fails. *)
(* src: internal/auth/store.go NewStore *)
Definition NewStore uf (pep : string) (rnd : option string) : result store_error Store :=
  if String.eqb pep "" then Err SEmptyPepper
  else match rnd with
       | None => Err SRandom
       | Some dummy => Ok (mkStore (index_keys (Keys uf)) pep dummy)
       end.

(** [subtle.ConstantTimeCompare(x, y) == 1]. *)
Definition ConstantTimeCompare (x y : string) : bool := String.eqb x y.

(* src: internal/auth/store.go Store.Lookup *)
Definition Lookup (s : Store) (now : time) (rawKey : string) : result lookup_error (Key F) :=
  match Parse rawKey with
  | Err _ => Err ErrUnknownKey
  | Ok parsed =>
      match byID s !! pID parsed with
      | Some rec =>
          match ParseHashValue (SecretHash rec) with
          | Err _ => Err ErrUnknownKey
          | Ok stored =>
              let got := Hash (pepper s) (Raw parsed) in
              if negb (ConstantTimeCompare got stored) then Err ErrUnknownKey
              else if negb (ConstantTimeCompare (Username parsed) (Name rec)) then Err ErrUnknownKey
              else if negb (Enabled rec) then Err ErrDisabled
              else match ExpiresAt rec with
                   | Some e => if After now e then Err ErrExpired else Ok rec
                   | None => Ok rec
                   end
          end
      | None => Err ErrUnknownKey
      end
  end.

End Store.

(** [LoadPepper] after the read, and its check. *)
Fixpoint trim_right_nl (s : string) : string :=
  match s with
  | "" => ""
  | String c s' =>
      match trim_right_nl s' with
      | "" => if Ascii.eqb c ch_nl || Ascii.eqb c ch_cr then "" else String c ""
      | t => String c t
      end
  end.
(* src: internal/auth/store.go ValidatePepper *)
Definition ValidatePepper (p : string) : bool := 16 <=? slen p.
(* src: internal/auth/store.go LoadPepper *)
Definition LoadPepper (data : string) : option string :=
  let p := trim_right_nl data in if ValidatePepper p then Some p else None.

(* src: internal/auth/store.go 207-207 PepperBytes *)
Definition PepperBytes : nat := 64.
(* src: internal/auth/store.go EncodePepper *)
Definition EncodePepper (pepper : string) : string := base64_std_encode pepper +:+ String ch_nl "".

(* src: internal/auth/store.go 82-86 EmptyUsers *)
Definition EmptyUsers : string :=
  String.concat (String ch_nl "") ["# Mellomting API keys. Managed by `mellomting key"; "# create|list|enable|disable|revoke` — do not edit by hand."; "version: 1"; "keys: []"; ""].

(** ** The pepper file *)

Definition no_newline (c : ascii) : bool := negb (Ascii.eqb c ch_nl || Ascii.eqb c ch_cr).

Lemma base64_raw_longer s : (String.length s <= String.length (base64_raw_encode s))%nat.
Proof.
  unfold base64_raw_encode. rewrite length_string_of, length_map. rewrite <- (string_of_bytes_of s) at 1. rewrite length_string_of.
  induction (bytes_of s) as [|a|a b|a b c l IH] using list_ind3; cbn [b64_encode length app]; lia.
Qed.

Lemma base64_no_newline s : sforall no_newline (base64_std_encode s) = true.
Proof.
  unfold base64_std_encode. rewrite sforall_app. apply andb_true_intro. split.
  - unfold base64_raw_encode. pose proof (b64_encode_six _ (bytes_of_range s)) as H. induction H as [|v l Hv _ IH]; [done|]. cbn [map string_of sforall].
    rewrite byte_bval. pose proof (b64_val_char v Hv) as Hc. unfold b64_char_ok in Hc. apply andb_prop in Hc as [_ Hc]. unfold no_newline at 1. rewrite Hc. exact IH.
  - unfold b64_padding. by repeat case_match.
Qed.

Lemma trim_right_nl_line s : sforall no_newline s = true -> trim_right_nl (s +:+ String ch_nl "") = s.
Proof.
  induction s as [|c s IH]; [done|]. cbn [sforall]. intros [Hc Hs]%andb_prop. cbn [String.append trim_right_nl]. rewrite IH by done.
  destruct s; [|done]. unfold no_newline in Hc. by rewrite (proj1 (negb_true_iff _) Hc).
Qed.

(** A pepper written by the installer is accepted, and no two are one. *)
Lemma EncodePepper_loads b : 16 <= slen b -> LoadPepper (EncodePepper b) = Some (base64_std_encode b).
Proof.
  intros Hb. unfold LoadPepper, EncodePepper. rewrite trim_right_nl_line by apply base64_no_newline. unfold ValidatePepper.
  rewrite (proj2 (Z.leb_le _ _)); [done|]. pose proof (base64_raw_longer b). unfold slen, base64_std_encode in *. rewrite slen_app. lia.
Qed.

Lemma EncodePepper_injective a b : String.length a = String.length b -> EncodePepper a = EncodePepper b -> a = b.
Proof.
  intros Hl E. unfold EncodePepper, base64_std_encode in E. rewrite Hl in E. rewrite !sapp_assoc in E.
  assert (base64_raw_encode a = base64_raw_encode b) as E' by (revert E; generalize (b64_padding (String.length b) +:+ String ch_nl ""); intros t; apply sapp_cancel_r).
  apply (f_equal base64_raw_decode) in E'. rewrite !base64_raw_roundtrip in E'. by injection E'.
Qed.

(** ** Theorems *)

Lemma username_no_dash u : usernamePattern u = true -> contains_char "-"%char u = false.
Proof.
  destruct u as [|c u]; [done|]. cbn [usernamePattern]. intros Hu. to_prop.
  apply sforall_contains with (p := username_char); [|reflexivity].
  cbn. apply andb_true_intro. split; [|done]. unfold username_char. by rewrite H.
Qed.

Lemma username_length u : usernamePattern u = true -> 1 <= slen u <= 32.
Proof.
  destruct u as [|c u]; [done|]. cbn [usernamePattern]. intros Hu. to_prop.
  apply Nat.leb_le in H0. unfold slen. cbn. lia.
Qed.

Lemma isLowerHex_iff s n :
  isLowerHex s n = true <-> String.length s = n /\ sforall is_hex_lower s = true.
Proof. unfold isLowerHex. by rewrite andb_true_iff, Nat.eqb_eq. Qed.

Lemma isLowerHex_no_dash s n : isLowerHex s n = true -> contains_char "-"%char s = false.
Proof. intros [_ Hs]%isLowerHex_iff. by eapply sforall_contains. Qed.

Lemma isLowerHex_encode b n : String.length b = n -> isLowerHex (hex_encode b) (n * 2) = true.
Proof.
  intros Hb. apply isLowerHex_iff. rewrite hex_encode_length, hex_encode_lower. split; [lia|done].
Qed.

(** What a syntactically valid key is. *)
Definition valid_segments (u id sec : string) : Prop :=
  usernamePattern u = true /\ isLowerHex id (keyIDBytes * 2) = true
  /\ isLowerHex sec (secretBytes * 2) = true.

Lemma split_format_key u id sec :
  valid_segments u id sec -> split_on "-"%char (format_key u id sec) = [Prefix; u; id; sec].
Proof.
  intros (Hu & Hid & Hsec). unfold format_key, Prefix. cbn [String.append].
  apply username_no_dash in Hu. apply isLowerHex_no_dash in Hid, Hsec.
  change (String "s" (String "k" ?x)) with ("sk" +:+ x).
  rewrite split_on_app by done.
  rewrite (split_on_app "-"%char u) by done.
  rewrite (split_on_app "-"%char id) by done.
  by rewrite split_on_word.
Qed.

Lemma format_key_length u id sec :
  valid_segments u id sec -> slen (format_key u id sec) <= MaxRawKeyBytes.
Proof.
  intros (Hu & Hid & Hsec). apply username_length in Hu.
  apply isLowerHex_iff in Hid as [Hid _], Hsec as [Hsec _].
  unfold format_key, slen, MaxRawKeyBytes, keyIDBytes, secretBytes in *.
  rewrite !slen_app. cbn. lia.
Qed.

Lemma Parse_format u id sec :
  valid_segments u id sec ->
  Parse (format_key u id sec) = Ok (mkParsed (format_key u id sec) id u).
Proof.
  intros Hv. unfold Parse.
  rewrite (proj2 (Z.ltb_ge _ _)) by by apply format_key_length.
  rewrite split_format_key by done. destruct Hv as (-> & -> & ->). done.
Qed.

Lemma Parse_inv raw p :
  Parse raw = Ok p ->
  exists sec, valid_segments (Username p) (pID p) sec /\ raw = format_key (Username p) (pID p) sec
    /\ Raw p = raw.
Proof.
  unfold Parse. intros H. destruct (_ <? _); [done|].
  pose proof (join_split "-"%char raw) as Hj.
  destruct (split_on _ raw) as [|pre [|u [|id [|sec [|]]]]]; try done.
  destruct (_ || _) eqn:E; [done|]. injection H as <-. cbn [Username pID Raw].
  to_prop. subst pre. exists sec. split; [done|]. split; [|done]. by rewrite <- Hj.
Qed.

Lemma ParseHashValue_Format h :
  slen h = sha256_Size -> ParseHashValue (FormatHashValue h) = Ok h.
Proof.
  intros Hh. unfold ParseHashValue, FormatHashValue.
  rewrite has_prefix_app, trim_prefix_app, base64_raw_roundtrip. by rewrite Hh.
Qed.

Section StoreTheorems.
Context {F : Type} `{Float64 F}.
Implicit Types (k : Key F) (uf : UsersFile F).

(** What [validateUsers] accepts, key by key. *)
Record valid_key (k : Key F) : Prop := {
  vk_id : isLowerHex (ID k) 16 = true;
  vk_name : usernamePattern (Name k) = true;
  vk_hash : is_ok (ParseHashValue (SecretHash k)) = true;
  vk_models : Models k <> [];
  vk_concurrent : 0 <= ConcurrentRequests (Limits k);
  vk_rate : f_ltb (RequestsPerSecond (Limits k)) (f_of_Z 0) = false;
  vk_burst : 0 <= Burst (Limits k);
  vk_hour : 0 <= TokensPerHour (Limits k);
  vk_day : 0 <= TokensPerDay (Limits k)
}.

Lemma validateLimits_ok (l : KeyLimits F) :
  validateLimits l = Ok tt <->
  0 <= ConcurrentRequests l /\ f_ltb (RequestsPerSecond l) (f_of_Z 0) = false /\ 0 <= Burst l
  /\ 0 <= TokensPerHour l /\ 0 <= TokensPerDay l.
Proof.
  unfold validateLimits. split.
  - repeat break_match; try discriminate. to_prop. lia.
  - intros (Hc & -> & Hb & Hh & Hd). repeat break_match; to_prop; lia || done.
Qed.

Lemma validateKeys_ok i seen ks :
  validateKeys i seen ks = Ok tt <->
  Forall valid_key ks /\ NoDup (ID <$> ks) /\ Forall (fun k => ID k ∉ seen) ks.
Proof.
  revert i seen. induction ks as [|k ks IH]; intros i seen; cbn [validateKeys].
  { split; [intros _|done]. repeat constructor. }
  cbn [fmap list_fmap]. rewrite !Forall_cons, NoDup_cons. split.
  - intros Hv. destruct (isLowerHex (ID k) 16) eqn:Eid; [|done]. cbn [negb] in Hv.
    case_bool_decide as Es; [done|]. destruct (String.eqb (Name k) ""); [done|].
    destruct (usernamePattern (Name k)) eqn:En; [|done]. cbn [negb] in Hv.
    destruct (ParseHashValue (SecretHash k)) eqn:Eh; [|done].
    destruct (length (Models k) =? 0)%nat eqn:Em; [done|].
    destruct (validateLimits (Limits k)) as [[]|] eqn:El; [|done].
    apply IH in Hv as [Hks [Hnd Hseen]].
    apply validateLimits_ok in El as (? & ? & ? & ? & ?).
    split; [split; [|done]; constructor; auto; [by rewrite Eh | by intros Hm; rewrite Hm in Em]|].
    split; [split; [|done]|split; [done|]].
    + intros (k' & Heq & Hin)%list_elem_of_fmap. rewrite Forall_forall in Hseen.
      apply (Hseen k' Hin). set_solver.
    + rewrite Forall_forall in Hseen |- *. intros k' Hin. specialize (Hseen k' Hin). set_solver.
  - intros [[Hk Hks] [[Hni Hnd] [Hs Hseen]]]. destruct Hk as [Hid Hn Hh Hm Hc Hr Hb Hth Htd].
    rewrite Hid. cbn [negb]. rewrite bool_decide_false by done.
    destruct (String.eqb (Name k) "") eqn:E; [apply String.eqb_eq in E; by rewrite E in Hn|].
    rewrite Hn. cbn [negb]. destruct (ParseHashValue (SecretHash k)); [|done].
    destruct (Models k) eqn:Em; [done|]. cbn [length Nat.eqb].
    rewrite (proj2 (validateLimits_ok _)) by auto.
    apply IH. split; [done|]. split; [done|].
    rewrite Forall_forall in Hseen |- *. intros k' Hin. specialize (Hseen k' Hin).
    rewrite not_elem_of_union, not_elem_of_singleton. split; [|done].
    intros Heq. apply Hni, list_elem_of_fmap. eauto.
Qed.

Lemma validateUsers_ok uf :
  validateUsers uf = Ok tt <->
  uf_Version uf = 1 /\ Forall valid_key (Keys uf) /\ NoDup (ID <$> Keys uf).
Proof.
  unfold validateUsers. destruct (Z.eqb_spec (uf_Version uf) 1) as [->|Hv]; cbn [negb].
  - rewrite validateKeys_ok. split; [naive_solver|]. intros (_ & Hk & Hnd).
    split; [done|]. split; [done|]. apply Forall_forall. set_solver.
  - split; [done|]. naive_solver.
Qed.

(** Normalization changes the limits and nothing else. *)
Lemma normalize_same k :
  ID (normalize k) = ID k /\ Name (normalize k) = Name k /\ SecretHash (normalize k) = SecretHash k
  /\ Enabled (normalize k) = Enabled k /\ ExpiresAt (normalize k) = ExpiresAt k
  /\ Models (normalize k) = Models k.
Proof. unfold normalize. by case_match. Qed.

Lemma index_keys_lookup (ks : list (Key F)) id k' :
  NoDup (ID <$> ks) ->
  index_keys ks !! id = Some k' <-> exists k, k ∈ ks /\ ID k = id /\ k' = normalize k.
Proof.
  unfold index_keys. induction ks as [|k ks IH] using rev_ind.
  { intros _. split; [done|]. intros (k & Hin & _). by apply not_elem_of_nil in Hin. }
  rewrite foldl_snoc, fmap_app, NoDup_app. intros (Hnd & Hdisj & _).
  specialize (IH Hnd). setoid_rewrite elem_of_app. setoid_rewrite list_elem_of_singleton.
  destruct (decide (ID k = id)) as [<-|Hne].
  - rewrite lookup_insert_eq. split; [naive_solver|].
    intros (k0 & [Hin | ->] & Hid & ->); [|done]. exfalso.
    apply (Hdisj (ID k0)); [by apply list_elem_of_fmap_2|]. rewrite Hid. set_solver.
  - rewrite lookup_insert_ne by done. rewrite IH. naive_solver.
Qed.

Lemma NewStore_inv uf pep rnd s :
  NewStore uf pep rnd = Ok s -> byID s = index_keys (Keys uf) /\ pepper s = pep.
Proof.
  unfold NewStore. destruct (String.eqb pep ""); [done|]. destruct rnd; [|done].
  by intros [= <-].
Qed.

Lemma Lookup_complete (s : Store (F := F)) now u id sec r :
  valid_segments u id sec -> byID s !! id = Some r ->
  ParseHashValue (SecretHash r) = Ok (Hash (pepper s) (format_key u id sec)) -> Name r = u ->
  Enabled r = true -> (forall e, ExpiresAt r = Some e -> now <= e) ->
  Lookup s now (format_key u id sec) = Ok r.
Proof.
  intros Hv Hid Hh <- Hen Hexp. unfold Lookup, ConstantTimeCompare.
  rewrite (Parse_format _ _ _ Hv). cbn [pID Raw Username]. rewrite Hid, Hh.
  rewrite !String.eqb_refl, Hen. cbn [negb].
  destruct (ExpiresAt r) as [e|]; [|done]. unfold After.
  rewrite (proj2 (Z.ltb_ge e now)) by auto. done.
Qed.

(** The daemon's key store is exactly the validated users file: an id
    resolves to a record if and only if a key with that id is in the file,
    the record is that key with only an unset concurrency bound replaced by
    the default, and every record served has a positive concurrency bound. *)
Theorem NewStore_serves_users_file uf pep rnd s :
  validateUsers uf = Ok tt ->
  NewStore uf pep rnd = Ok s ->
  forall id r, byID s !! id = Some r <->
    exists k, k ∈ Keys uf /\ ID k = id /\ r = normalize k /\ 1 <= ConcurrentRequests (Limits r)
      /\ with_limits r (Limits k) = k.
Proof.
  intros (_ & Hk & Hnd)%validateUsers_ok [Hs _]%NewStore_inv id r. rewrite Hs.
  rewrite index_keys_lookup by done. split; [|naive_solver].
  intros (k & Hin & Hid & ->). exists k. repeat split; try done.
  - rewrite Forall_forall in Hk. specialize (Hk k Hin) as [_ _ _ _ Hc _ _ _ _].
    unfold normalize. destruct (Z.eqb_spec (ConcurrentRequests (Limits k)) 0); cbn;
      unfold DefaultConcurrentRequests; lia.
  - unfold normalize. destruct k. by case_match.
Qed.

(** C3: [Lookup] admits a raw key if and only if it parses, its id is in the
    store, its HMAC under the pepper is the record's stored hash, its
    username is the record's name, and the record is enabled and not
    expired; the record returned is the stored one. *)
Theorem Lookup_admits_iff (s : Store (F := F)) now raw r :
  Lookup s now raw = Ok r <->
  exists u id sec,
    valid_segments u id sec /\ raw = format_key u id sec /\ byID s !! id = Some r
    /\ ParseHashValue (SecretHash r) = Ok (Hash (pepper s) raw) /\ Name r = u
    /\ Enabled r = true /\ (forall e, ExpiresAt r = Some e -> now <= e).
Proof.
  unfold Lookup, ConstantTimeCompare. split.
  - destruct (Parse raw) as [p|] eqn:Ep; [|done].
    apply Parse_inv in Ep as (sec & Hv & Hraw & Hr).
    destruct (byID s !! pID p) as [rec|] eqn:Eid; [|done].
    destruct (ParseHashValue (SecretHash rec)) as [h|] eqn:Eh; [|done]. rewrite Hr.
    destruct (String.eqb_spec (Hash (pepper s) raw) h) as [<-|]; [|done].
    destruct (String.eqb_spec (Username p) (Name rec)) as [Hn|]; [|done].
    destruct (Enabled rec) eqn:Een; [|done]. cbn [negb]. intros Hres.
    assert (rec = r /\ forall e, ExpiresAt rec = Some e -> now <= e) as [<- Hexp].
    { destruct (ExpiresAt rec) as [e|]; [|naive_solver].
      unfold After in Hres. destruct (Z.ltb_spec e now); [done|]. injection Hres as <-.
      split; [done|]. intros ? [= <-]. done. }
    exists (Username p), (pID p), sec. by rewrite <- Hn.
  - intros (u & id & sec & Hv & -> & Hid & Hh & Hn & Hen & Hexp). by eapply Lookup_complete.
Qed.

(** The store is no oracle: it says "disabled" or "expired" only to a
    caller that presented the key's own secret, i.e. a raw key whose HMAC is
    the stored hash of a record with that name; every other failure reads as
    an unknown key. *)
Theorem Lookup_no_oracle (s : Store (F := F)) now raw e :
  Lookup s now raw = Err e -> e <> ErrUnknownKey ->
  exists r p, Parse raw = Ok p /\ byID s !! pID p = Some r
    /\ ParseHashValue (SecretHash r) = Ok (Hash (pepper s) raw) /\ Name r = Username p
    /\ (e = ErrDisabled <-> Enabled r = false).
Proof.
  unfold Lookup, ConstantTimeCompare. intros Hl Hne.
  destruct (Parse raw) as [p|] eqn:Ep; [|congruence].
  apply Parse_inv in Ep as Hp. destruct Hp as (sec & Hv & Hraw & Hr). rewrite Hr in Hl.
  destruct (byID s !! pID p) as [rec|] eqn:Eid; [|congruence].
  destruct (ParseHashValue (SecretHash rec)) as [h|] eqn:Eh; [|congruence].
  destruct (String.eqb_spec (Hash (pepper s) raw) h) as [<-|]; [|cbn in Hl; congruence].
  destruct (String.eqb_spec (Username p) (Name rec)) as [Hn|]; [|cbn in Hl; congruence].
  cbn [negb] in Hl. exists rec, p. repeat split; try done.
  - intros ->. destruct (Enabled rec); [|done]. cbn in Hl. by repeat case_match.
  - intros Hen. rewrite Hen in Hl. cbn in Hl. congruence.
Qed.
End StoreTheorems.

(** Every key [Generate] mints from a valid username and full random
    reads parses back to the same username and id, within the raw-key size
    bound. *)
Theorem Generate_Parse_roundtrip u idb sb :
  usernamePattern u = true -> String.length idb = keyIDBytes -> String.length sb = secretBytes ->
  exists key id, Generate u (Some idb) (Some sb) = Ok (key, id)
    /\ Parse key = Ok (mkParsed key id u) /\ slen key <= MaxRawKeyBytes.
Proof.
  intros Hu Hid Hsb. unfold Generate. rewrite Hu. eexists _, _. split; [done|].
  assert (valid_segments u (hex_encode idb) (hex_encode sb)) as Hv.
  { split; [done|]. split; by apply isLowerHex_encode. }
  split; [by apply Parse_format | by apply format_key_length].
Qed.

(** [Parse] accepts exactly the D18 grammar [sk-<username>-<id>-<secret>];
    in particular the 117-byte size check rejects no grammatical key, and the
    decomposition returned is the only one. *)
Theorem Parse_accepts_grammar raw u id :
  Parse raw = Ok (mkParsed raw id u) <->
  exists sec, valid_segments u id sec /\ raw = format_key u id sec.
Proof.
  split.
  - intros Hp. apply Parse_inv in Hp as (sec & Hv & Hraw & _). eauto.
  - intros (sec & Hv & ->). by apply Parse_format.
Qed.

(** A key minted for a user and recorded in the users file with its
    formatted hash authenticates: from the validated file the daemon builds
    its store, and [Lookup] of the raw key returns that record. *)
Theorem minted_key_authenticates {F} `{Float64 F} uf k pep rnd key idb sb (s : Store (F := F)) now :
  validateUsers uf = Ok tt -> k ∈ Keys uf ->
  String.length idb = keyIDBytes -> String.length sb = secretBytes ->
  Generate (Name k) (Some idb) (Some sb) = Ok (key, ID k) ->
  SecretHash k = FormatHashValue (Hash pep key) ->
  Enabled k = true -> (forall e, ExpiresAt k = Some e -> now <= e) ->
  NewStore uf pep rnd = Ok s ->
  Lookup s now key = Ok (normalize k).
Proof.
  intros (_ & _ & Hnd)%validateUsers_ok Hin Hidb Hsb Hgen Hsh Hen Hexp [Hst Hpep]%NewStore_inv.
  unfold Generate in Hgen. destruct (usernamePattern (Name k)) eqn:Hu; [|done].
  injection Hgen as <- Hid. rewrite Hid in *.
  pose proof (normalize_same k) as (_ & HN & HS & HE & HX & _).
  apply Lookup_complete.
  - split; [done|]. split; [rewrite <- Hid|]; by apply isLowerHex_encode.
  - rewrite Hst. apply index_keys_lookup; eauto.
  - rewrite HS, Hpep, Hsh. apply ParseHashValue_Format, hmac_sha256_length.
  - done.
  - by rewrite HE.
  - by rewrite HX.
Qed.

(** ** Witnesses *)

Module Demo.
Definition idb : string := "12345678".
Definition sb : string := "0123456789abcdef0123456789abcdef".
Definition raw : string := format_key "alice" (hex_encode idb) (hex_encode sb).
Definition pep : string := "0123456789abcdef".
Definition key : Key Q := Eval vm_compute in
  mkKey (hex_encode idb) "alice" (FormatHashValue (Hash pep raw)) true (Some 100) ["*"]
    (mkKeyLimits (1 # 2)%Q 0 0 0 0).
Definition users : UsersFile Q := mkUsersFile 1 [key].
Definition store : Store (F := Q) := mkStore (index_keys (Keys users)) pep "dummy".
Definition disabled : Store (F := Q) :=
  mkStore {[ID key := mkKey (ID key) "alice" (SecretHash key) false None ["*"] (Limits key)]} pep "dummy".
End Demo.

Lemma NewStore_serves_users_file_witness :
  byID Demo.store !! ID Demo.key = Some (normalize Demo.key) <->
  exists k, k ∈ Keys Demo.users /\ ID k = ID Demo.key /\ normalize Demo.key = normalize k
    /\ 1 <= ConcurrentRequests (Limits (normalize Demo.key))
    /\ with_limits (normalize Demo.key) (Limits k) = k.
Proof.
  apply (NewStore_serves_users_file Demo.users Demo.pep (Some "dummy") Demo.store);
    vm_compute; reflexivity.
Defined.

Lemma Lookup_no_oracle_witness :
  exists r p, Parse Demo.raw = Ok p /\ byID Demo.disabled !! pID p = Some r
    /\ ParseHashValue (SecretHash r) = Ok (Hash (pepper Demo.disabled) Demo.raw)
    /\ Name r = Username p /\ (ErrDisabled = ErrDisabled <-> Enabled r = false).
Proof.
  apply (Lookup_no_oracle Demo.disabled 0 Demo.raw ErrDisabled); [vm_compute; reflexivity | discriminate].
Defined.

Lemma Generate_Parse_roundtrip_witness :
  exists key id, Generate "alice" (Some Demo.idb) (Some Demo.sb) = Ok (key, id)
    /\ Parse key = Ok (mkParsed key id "alice") /\ slen key <= MaxRawKeyBytes.
Proof. apply Generate_Parse_roundtrip; vm_compute; reflexivity. Defined.

Lemma minted_key_authenticates_witness :
  Lookup Demo.store 99 Demo.raw = Ok (normalize Demo.key).
Proof.
  apply (minted_key_authenticates Demo.users Demo.key Demo.pep (Some "dummy") Demo.raw Demo.idb Demo.sb);
    try (vm_compute; reflexivity).
  - constructor.
  - intros e [= <-]. vm_compute. discriminate.
Defined.

(** A pepper file may end in any number of line terminators, not one. *)
Example LoadPepper_trims_all : LoadPepper ("0123456789abcdef" +:+ string_of [10; 13; 10; 10]) = Some "0123456789abcdef".
Proof. reflexivity. Qed.
