(* ===== verification/Limiter.v ===== *)
(** * Request admission: [internal/limiter/limiter.go]

    Token buckets, per-key concurrency bounds, the per-key registry with its
    carry-over across key-file reloads, and the bounded per-source pre-auth
    registry.

    Buckets and concurrency bounds are heap objects ([*Bucket],
    [*Concurrency] in the code): a reload hands the same object to the next
    generation of the registry while requests of the previous generation
    still use it, so registries hold addresses into a [heap].  In the state
    machine a reload is two steps, the computation of the carrying registry
    and its publication.  Map iteration
    order is an argument wherever the code ranges over a map and the order
    can matter. *)

From Stdlib Require Import QArith Qminmax Lqa SpecFloat.
From S2P Require Import Prelude Float64 GoStrings Auth.

#[local] Open Scope Z_scope.

Section Limiter.
Context {F : Type} `{Float64 F}.

(** ** Buckets *)

(* src: internal/limiter/limiter.go Bucket *)
Record Bucket := mkBucket { rate : F; cap : F; avail : F; last : time }.

(* src: internal/limiter/limiter.go NewBucket *)
Definition NewBucket (r : F) (burst : Z) : option Bucket :=
  if f_leb r (f_of_Z 0) then None
  else let burst := if burst <? 1 then 1 else burst in
       Some (mkBucket r (f_of_Z burst) (f_of_Z 0) zero_time).

(** The lazy refill at the top of [Allow]. *)
Definition refill (b : Bucket) (now : time) : Bucket :=
  if After now (last b) then
    let elapsed := Seconds (time_sub now (last b)) in
    let a := f_add (avail b) (f_mul elapsed (rate b)) in
    mkBucket (rate b) (cap b) (if f_ltb (cap b) a then cap b else a) now
  else b.

(* src: internal/limiter/limiter.go Bucket.Allow *)
Definition Allow (b : Bucket) (now : time) : Bucket * (bool * duration) :=
  let b := refill b now in
  if f_leb (f_of_Z 1) (avail b) then
    (mkBucket (rate b) (cap b) (f_sub (avail b) (f_of_Z 1)) (last b), (true, 0))
  else
    let ret := f_trunc (f_div (f_mul (f_of_Z Second) (f_sub (f_of_Z 1) (avail b))) (rate b)) in
    (b, (false, ret)).

(* src: internal/limiter/limiter.go Bucket.match *)
Definition bucket_match (b : Bucket) (r : F) (burst : Z) : bool :=
  f_eqb (rate b) r && f_eqb (cap b) (f_of_Z burst).

(** ** Concurrency bounds

    The buffered channel is its capacity and the number of tokens in it;
    [None] is the nil channel of an unbounded key. *)
(* src: internal/limiter/limiter.go Concurrency *)
Record Concurrency := mkConcurrency { held : option Z; limit : Z }.

(* src: internal/limiter/limiter.go NewConcurrency *)
Definition NewConcurrency (l : Z) : Concurrency :=
  if l <? 1 then mkConcurrency None 0 else mkConcurrency (Some 0) l.

(** The result is the bound after the attempt, whether a token was taken
    (the release function is a no-op otherwise) and [ok]. *)
(* src: internal/limiter/limiter.go Concurrency.Acquire *)
Definition Acquire (c : Concurrency) : Concurrency * (bool * bool) :=
  match held c with
  | None => (c, (false, true))
  | Some n => if n <? limit c then (mkConcurrency (Some (n + 1)) (limit c), (true, true))
              else (c, (false, false))
  end.

(** The release function of a successful [Acquire]; receiving from an empty
    channel would block. *)
(* src: internal/limiter/limiter.go 99-99 Concurrency.Acquire *)
Definition Release (c : Concurrency) : option Concurrency :=
  match held c with
  | Some n => if 0 <? n then Some (mkConcurrency (Some (n - 1)) (limit c)) else None
  | None => Some c
  end.

(** ** The per-key registry *)

Definition addr := nat.
Record heap := mkHeap {
  buckets : gmap addr Bucket;
  concs : gmap addr Concurrency;
  next : addr
}.
Definition empty_heap : heap := mkHeap ∅ ∅ 0%nat.

Definition alloc_bucket (h : heap) (b : Bucket) : heap * addr :=
  (mkHeap (<[next h := b]> (buckets h)) (concs h) (S (next h)), next h).
Definition alloc_conc (h : heap) (c : Concurrency) : heap * addr :=
  (mkHeap (buckets h) (<[next h := c]> (concs h)) (S (next h)), next h).

(* src: internal/limiter/limiter.go KeyState *)
Record KeyState := mkKeyState { ks_Bucket : option addr; ks_Concur : addr }.

(* src: internal/limiter/limiter.go Registry *)
Record Registry := mkRegistry {
  keys : gmap string KeyState;
  carry : gmap string addr;
  carryConc : gmap string addr
}.

(* src: internal/limiter/limiter.go NewRegistry *)
Definition NewRegistry : Registry := mkRegistry ∅ ∅ ∅.

(** One iteration of the loop over the previous generation's materialized
    keys, for each of the two carried maps. *)
Definition carry_step (id : string) (ks : KeyState) (m : gmap string addr) : gmap string addr :=
  match ks_Bucket ks with Some b => <[id := b]> (delete id m) | None => delete id m end.
Definition carryConc_step (id : string) (ks : KeyState) (m : gmap string addr) : gmap string addr :=
  <[id := ks_Concur ks]> (delete id m).

Definition keep_only (keep : option (string -> bool)) (m : gmap string addr) : gmap string addr :=
  match keep with
  | None => m
  | Some f => filter (fun kv => f kv.1 = true) m
  end.

(* src: internal/limiter/limiter.go NewRegistryCarrying *)
Definition NewRegistryCarrying (prev : option Registry) (keep : option (string -> bool)) : Registry :=
  match prev with
  | None => mkRegistry ∅ ∅ ∅
  | Some p =>
      mkRegistry ∅
        (keep_only keep (map_fold carry_step (carry p) (keys p)))
        (keep_only keep (map_fold carryConc_step (carryConc p) (keys p)))
  end.

(* src: internal/limiter/limiter.go derivedBurst *)
Definition derivedBurst (r : F) (burst : Z) : Z :=
  if burst <? 1 then Z.max (f_trunc r) 1 else burst.

Definition want_conc (l : Z) : Z := if l <? 1 then 0 else l.

(** The concurrency bound of [build]: the carried one when its limit is the
    wanted one, else a fresh one. *)
Definition build_conc (r : Registry) (h : heap) (key : Key F) : heap * addr :=
  let l := ConcurrentRequests (Limits key) in
  let fresh := alloc_conc h (NewConcurrency l) in
  match carryConc r !! ID key with
  | None => fresh
  | Some a =>
      match concs h !! a with
      | Some c => if limit c =? want_conc l then (h, a) else fresh
      | None => fresh
      end
  end.

(* src: internal/limiter/limiter.go Registry.build *)
Definition build (r : Registry) (h : heap) (key : Key F) : heap * KeyState :=
  let '(h, conc) := build_conc r h key in
  let rps := RequestsPerSecond (Limits key) in
  if f_ltb (f_of_Z 0) rps then
    let burst := derivedBurst rps (Burst (Limits key)) in
    match NewBucket rps burst with
    | None => (h, mkKeyState None conc)
    | Some b => let '(h, ba) := alloc_bucket h b in (h, mkKeyState (Some ba) conc)
    end
  else (h, mkKeyState None conc).

(* src: internal/limiter/limiter.go Registry.For *)
Definition For (r : Registry) (h : heap) (key : Key F) : Registry * heap * KeyState :=
  match keys r !! ID key with
  | Some ks => (r, h, ks)
  | None =>
      let '(h, ks) := build r h key in
      let ks := match carry r !! ID key with
                | Some a =>
                    match buckets h !! a with
                    | Some b =>
                        let burst := derivedBurst (RequestsPerSecond (Limits key)) (Burst (Limits key)) in
                        if bucket_match b (RequestsPerSecond (Limits key)) burst
                        then mkKeyState (Some a) (ks_Concur ks) else ks
                    | None => ks
                    end
                | None => ks
                end in
      (mkRegistry (<[ID key := ks]> (keys r)) (carry r) (carryConc r), h, ks)
  end.

(* src: internal/limiter/limiter.go KeyState.AllowRate *)
Definition AllowRate (h : heap) (ks : KeyState) (now : time) : heap * (bool * duration) :=
  match ks_Bucket ks with
  | None => (h, (true, 0))
  | Some a =>
      match buckets h !! a with
      | Some b => let '(b, r) := Allow b now in (mkHeap (<[a := b]> (buckets h)) (concs h) (next h), r)
      | None => (h, (true, 0))
      end
  end.

(* src: internal/limiter/limiter.go KeyState.AcquireConcurrency *)
Definition AcquireConcurrency (h : heap) (ks : KeyState) : heap * (bool * bool) :=
  match concs h !! ks_Concur ks with
  | Some c => let '(c, r) := Acquire c in
              (mkHeap (buckets h) (<[ks_Concur ks := c]> (concs h)) (next h), r)
  | None => (h, (false, false))
  end.

(* src: internal/limiter/limiter.go Registry.Size *)
Definition registry_size (r : Registry) : nat := size (keys r).

(** ** The per-source registry *)

(* src: internal/limiter/limiter.go SourceState *)
Record SourceState := mkSource { src_rate : Bucket; src_last : time }.

(* src: internal/limiter/limiter.go SourceRegistry *)
Record SourceRegistry := mkSources {
  src_cap : Z; src_rps : F; src_burst : Z; srcs : gmap string SourceState
}.

(* src: internal/limiter/limiter.go NewSourceRegistry *)
Definition NewSourceRegistry (r : F) (burst capacity : Z) : option SourceRegistry :=
  if f_leb r (f_of_Z 0) then None
  else Some (mkSources (if capacity <? 1 then 1 else capacity) r
                       (if burst <? 1 then 1 else burst) ∅).

(* src: internal/limiter/limiter.go evictProbeBudget *)
Definition evictProbeBudget : nat := 64.

(** The scan of [evictOldest] over the entries in iteration order; [best] is
    the oldest so far ([None] before the first). *)
Fixpoint evict_scan (order : list (string * SourceState)) (budget : nat)
    (best : option (string * time)) : option (string * time) :=
  match order, budget with
  | [], _ | _, O => best
  | (ip, st) :: order, S budget =>
      let better := match best with
                    | None => true
                    | Some (_, t) => Before (src_last st) t
                    end in
      evict_scan order budget (if better then Some (ip, src_last st) else best)
  end.

(* src: internal/limiter/limiter.go SourceRegistry.evictOldest *)
Definition evictOldest (order : list (string * SourceState)) (m : gmap string SourceState)
  : gmap string SourceState :=
  match evict_scan order evictProbeBudget None with
  | Some (ip, _) => delete ip m
  | None => delete "" m
  end.

(** [order] is the iteration order of the map, used only when the map is
    full. *)
(* src: internal/limiter/limiter.go SourceRegistry.Allow *)
Definition source_Allow (order : list (string * SourceState)) (r : SourceRegistry) (ip : string) (now : time)
  : SourceRegistry * (bool * duration) :=
  let with_srcs m := mkSources (src_cap r) (src_rps r) (src_burst r) m in
  let finish m b :=
    let '(b, res) := Allow b now in
    (with_srcs (<[ip := mkSource b now]> m), res) in
  match srcs r !! ip with
  | Some st => finish (srcs r) (src_rate st)
  | None =>
      let m := if src_cap r <=? Z.of_nat (size (srcs r)) then evictOldest order (srcs r) else srcs r in
      match NewBucket (src_rps r) (src_burst r) with
      | None => (with_srcs m, (true, 0))
      | Some b => finish m b
      end
  end.

(* src: internal/limiter/limiter.go SourceRegistry.Size *)
Definition sources_size (r : SourceRegistry) : nat := size (srcs r).

End Limiter.

Arguments Bucket F : clear implicits.
Arguments heap F : clear implicits.
Arguments SourceState F : clear implicits.
Arguments SourceRegistry F : clear implicits.

(** ** Token buckets in exact arithmetic *)

(** A sequence of [Allow] calls; the result is the final bucket and how many
    calls were admitted. *)
Fixpoint allow_all {F} `{Float64 F} (b : Bucket F) (ts : list time) : Bucket F * Z :=
  match ts with
  | [] => (b, 0)
  | t :: ts =>
      let '(b, (ok, _)) := Allow b t in
      let '(b, n) := allow_all b ts in
      (b, (if ok then 1 else 0) + n)
  end.

(** The constants of the exact instance, as rational literals. *)
Ltac q_consts :=
  cbn [f_add f_sub f_mul f_div f_of_Z exact] in *;
  change (inject_Z 0) with 0%Q in *; change (inject_Z 1) with 1%Q in *.

Section ExactBuckets.
#[local] Open Scope Q_scope.
Implicit Types (b : Bucket Q) (t now : time).

(** Tokens that [rate] yields over [d] nanoseconds. *)
Definition accrued (r : Q) (d : Z) : Q := r * (inject_Z d / inject_Z 1000000000).

Record bucket_ok b : Prop := {
  bo_rate : 0 < rate b;
  bo_cap : 1 <= cap b;
  bo_avail : 0 <= avail b <= cap b
}.

Lemma accrued_le r (d e : Z) : 0 <= r -> (d <= e)%Z -> accrued r d <= accrued r e.
Proof.
  intros Hr Hde. unfold accrued. rewrite !(Qmult_comm r).
  apply Qmult_le_compat_r; [|done]. unfold Qdiv. apply Qmult_le_compat_r; [|discriminate].
  by rewrite <- Zle_Qle.
Qed.
Lemma accrued_add r (d e : Z) : accrued r (d + e) == accrued r d + accrued r e.
Proof. unfold accrued. rewrite inject_Z_plus. field. Qed.
Lemma accrued_0 r : accrued r 0 == 0.
Proof. unfold accrued. field. Qed.
Lemma accrued_nonneg r (d : Z) : 0 <= r -> (0 <= d)%Z -> 0 <= accrued r d.
Proof. intros. rewrite <- (accrued_0 r). by apply accrued_le. Qed.

Lemma NewBucket_ok r (burst : Z) b : NewBucket r burst = Some b -> bucket_ok b.
Proof.
  unfold NewBucket. destruct (f_leb r (f_of_Z 0)) eqn:E; [done|].
  apply Qleb_gt in E. intros [= <-]. split; cbn -[Z.ltb]; [done| |].
  - change 1 with (inject_Z 1). rewrite <- Zle_Qle.
    destruct (Z.ltb_spec burst 1); lia.
  - split; [done|]. change 0 with (inject_Z 0). rewrite <- Zle_Qle.
    destruct (Z.ltb_spec burst 1); lia.
Qed.

(** What a refill does: the clock only advances, the level never exceeds the
    capacity nor the tokens accrued since the last refill. *)
Lemma refill_spec b now :
  bucket_ok b ->
  bucket_ok (refill b now) /\ rate (refill b now) = rate b /\ cap (refill b now) = cap b
  /\ last (refill b now) = Z.max (last b) now
  /\ avail b <= avail (refill b now) <= avail b + accrued (rate b) (Z.max (last b) now - last b)
  /\ (time_sub now (last b) = (now - last b)%Z -> (last b < now)%Z ->
      avail (refill b now) == Qmin (cap b) (avail b + accrued (rate b) (now - last b))).
Proof.
  intros [Hr Hc Ha]. unfold refill, After.
  destruct (Z.ltb_spec (last b) now) as [Hlt|Hge]; cycle 1.
  { rewrite (Z.max_l (last b) now), Z.sub_diag, accrued_0 by lia. split; [done|]. do 3 (split; [done|]).
    split; [lra | lia]. }
  rewrite (Z.max_r (last b) now) by lia. cbn [rate cap last avail].
  pose proof (time_sub_le now (last b) ltac:(lia)) as Hs.
  assert (Hm : f_mul (Seconds (time_sub now (last b))) (rate b) == accrued (rate b) (time_sub now (last b))).
  { cbn [f_mul exact]. rewrite Seconds_exact. unfold accrued. field. }
  assert (0 <= rate b) as Hr0 by lra.
  pose proof (accrued_nonneg (rate b) _ Hr0 (proj1 Hs)) as Hp.
  pose proof (accrued_le (rate b) _ _ Hr0 (proj2 Hs)) as Hle.
  set (a := f_add _ _). assert (Ha' : a == avail b + accrued (rate b) (time_sub now (last b))).
  { unfold a. cbn [f_add exact]. by rewrite Hm. }
  clearbody a.
  destruct (f_ltb (cap b) a) eqn:E; [apply Qltb_lt in E | apply Qltb_ge in E].
  - split; [split; cbn; lra|]. repeat split; try lra.
    intros Hex _. rewrite Hex in Ha'. symmetry. apply Q.min_l. lra.
  - split; [split; cbn; lra|]. repeat split; try lra.
    intros Hex _. rewrite Hex in Ha'. rewrite Ha'. symmetry. apply Q.min_r. lra.
Qed.

(** One [Allow]: it admits exactly when the refilled level is at least one,
    and pays for an admission with one token. *)
Lemma Allow_spec b now b' ok ra :
  bucket_ok b -> Allow b now = (b', (ok, ra)) ->
  bucket_ok b' /\ rate b' = rate b /\ cap b' = cap b /\ last b' = Z.max (last b) now
  /\ (ok = true <-> 1 <= avail (refill b now))
  /\ avail b' == avail (refill b now) - (if ok then 1 else 0).
Proof.
  intros Hb. destruct (refill_spec b now Hb) as (Hb' & Hr & Hc & Hl & _).
  unfold Allow. set (br := refill b now) in *. clearbody br.
  destruct (f_leb (f_of_Z 1) (avail br)) eqn:E; intros [= <- <- <-].
  - apply Qleb_le in E. q_consts. cbn [rate cap avail last].
    destruct Hb' as [H1 H2 H3].
    split; [split; cbn [rate cap avail]; lra|]. do 3 (split; [done|]). split; [done | lra].
  - apply Qleb_gt in E. q_consts. do 4 (split; [done|]).
    split; [split; [done | intros; lra] | lra].
Qed.

Lemma allow_all_bound ts b b' n :
  bucket_ok b -> allow_all b ts = (b', n) ->
  bucket_ok b' /\ rate b' = rate b /\ cap b' = cap b /\ last b' = foldl Z.max (last b) ts
  /\ inject_Z n + avail b' <= avail b + accrued (rate b) (last b' - last b).
Proof.
  revert b b' n. induction ts as [|t ts IH]; intros b b' n Hb; cbn [allow_all foldl].
  { intros [= <- <-]. rewrite Z.sub_diag, accrued_0. do 4 (split; [done|]). q_consts. lra. }
  destruct (Allow b t) as [b1 [ok ra]] eqn:E1. destruct (allow_all b1 ts) as [b2 m] eqn:E2.
  intros [= <- <-]. destruct (refill_spec b t Hb) as (_ & _ & _ & _ & [_ Hre] & _).
  apply Allow_spec in E1 as (Hb1 & Hr1 & Hc1 & Hl1 & _ & Ha1); [|done].
  apply IH in E2 as (Hb2 & Hr2 & Hc2 & Hl2 & Hn); [|done].
  rewrite Hr2, Hc2, Hr1, Hc1, Hl2, Hl1. do 4 (split; [done|]).
  rewrite Hr1, Hl2, Hl1 in Hn. rewrite inject_Z_plus.
  replace (foldl Z.max (Z.max (last b) t) ts - last b)%Z
    with ((foldl Z.max (Z.max (last b) t) ts - Z.max (last b) t) + (Z.max (last b) t - last b))%Z by lia.
  rewrite accrued_add. destruct ok; q_consts; lra.
Qed.

Lemma foldl_max_le ts (x y : Z) :
  (x <= y)%Z -> Forall (fun t => t <= y)%Z ts -> (foldl Z.max x ts <= y)%Z.
Proof.
  revert x. induction ts as [|t ts IH]; intros x Hx Hts; cbn; [done|].
  inversion Hts; subst. apply IH; [lia|done].
Qed.

(** Token-bucket rate bound (exact arithmetic).  Whatever requests came
    before, and in whatever order the timestamps of concurrent requests
    reach the bucket, the number of requests admitted with timestamps in a
    window [t0, t1] is at most the burst capacity plus the tokens the rate
    yields over the window. *)
Theorem bucket_window_bound b ts (t0 t1 : time) :
  bucket_ok b -> (t0 <= t1)%Z -> Forall (fun t => t0 <= t <= t1)%Z ts ->
  inject_Z (snd (allow_all b ts)) <= cap b + accrued (rate b) (t1 - t0).
Proof.
  intros Hb H01 Hts. pose proof Hb as [Hr Hc Ha].
  assert (0 <= rate b) as Hr0 by lra.
  pose proof (accrued_nonneg (rate b) (t1 - t0) Hr0 ltac:(lia)) as Hw.
  destruct ts as [|t ts]; cbn [allow_all snd]; [q_consts; lra|].
  destruct (Allow b t) as [b1 [ok ra]] eqn:E1. destruct (allow_all b1 ts) as [b2 m] eqn:E2. cbn [snd].
  inversion Hts as [|? ? Ht Hts']; subst.
  destruct (refill_spec b t Hb) as (Hbr & _ & Hcr & _).
  apply Allow_spec in E1 as (Hb1 & Hr1 & Hc1 & Hl1 & _ & Ha1); [|done].
  apply allow_all_bound in E2 as (Hb2 & _ & _ & Hl2 & Hn); [|done].
  rewrite Hr1, Hl2, Hl1 in Hn.
  assert (accrued (rate b) (foldl Z.max (Z.max (last b) t) ts - Z.max (last b) t)
          <= accrued (rate b) (t1 - t0)) as Hacc.
  { apply accrued_le; [done|].
    assert (foldl Z.max (Z.max (last b) t) ts <= Z.max (last b) t1)%Z; [|lia].
    apply foldl_max_le; [lia|]. eapply Forall_impl; [exact Hts'|]; cbn; lia. }
  destruct Hb2 as [_ _ [Ha2 _]]. destruct Hbr as [_ _ [_ Hbr]]. rewrite Hcr in Hbr.
  rewrite inject_Z_plus. destruct ok; q_consts; lra.
Qed.

(** The Retry-After estimate of a refusal is tight (exact arithmetic):
    with no other request on the bucket, a retry earlier than the estimate
    is refused, and a retry at least one nanosecond after it (the estimate
    is truncated) is admitted. *)
Theorem Allow_retry_tight b now b' ra t :
  bucket_ok b -> Allow b now = (b', (false, ra)) ->
  (last b' < t)%Z -> (t - last b' <= MaxInt64)%Z ->
  ((t - last b' < ra)%Z -> fst (snd (Allow b' t)) = false)
  /\ ((ra < t - last b')%Z -> fst (snd (Allow b' t)) = true).
Proof.
  intros Hb HA Ht Hsat. pose proof HA as HA'.
  apply Allow_spec in HA as (Hb' & Hr & Hc & Hl & Hok & Ha); [|done].
  assert (avail b' < 1) as Hlt.
  { apply Qnot_le_lt. intros Hge. rewrite Ha in Hge. assert (false = true); [|done]. apply Hok. lra. }
  destruct (refill_spec b' t Hb') as (_ & _ & _ & _ & _ & Hex).
  specialize (Hex (time_sub_exact t (last b') ltac:(lia) Hsat) Ht).
  destruct (Allow b' t) as [b2 [ok2 ra2]] eqn:E2.
  apply Allow_spec in E2 as (_ & _ & _ & _ & Hok2 & _); [|done]. cbn [fst snd].
  (* the estimate brackets the exact wait q = 10^9 (1 - avail) / rate *)
  set (q := inject_Z 1000000000 * (1 - avail b') / rate b').
  assert (Hra : ra = Qtrunc q).
  { unfold Allow in HA'. destruct (f_leb _ _); [done|]. by injection HA' as <- <-. }
  destruct Hb' as [Hr' Hc' Ha'].
  assert (0 <= q) as Hq by (unfold q; apply Qle_shift_div_l; [done|]; change (inject_Z 1000000000) with (1000000000#1); lra).
  destruct (Qtrunc_bounds q Hq) as [Hq1 Hq2]. rewrite <- Hra in Hq1, Hq2.
  assert (Hacc : forall d, accrued (rate b') d - (1 - avail b') == (rate b' / inject_Z 1000000000) * (inject_Z d - q)).
  { intros d. unfold accrued, q. field. intros Hz. lra. }
  specialize (Hacc (t - last b')%Z).
  assert (0 < rate b' / inject_Z 1000000000) as Hk by (apply Qlt_shift_div_l; [reflexivity|]; lra).
  set (k := rate b' / inject_Z 1000000000) in *. clearbody k.
  split; intros Hd.
  - destruct ok2; [|done]. exfalso. assert (1 <= avail (refill b' t)) as Hge by by apply Hok2.
    rewrite Hex in Hge. apply Q.min_glb_r in Hge.
    assert (inject_Z (t - last b') < inject_Z ra) by by rewrite <- Zlt_Qlt.
    set (x := inject_Z (t - last b')) in *. clearbody x.
    pose proof (Qmult_lt_0_compat k (q - x) Hk ltac:(lra)). lra.
  - apply Hok2. rewrite Hex. apply Q.min_glb; [done|].
    assert (inject_Z (ra + 1) <= inject_Z (t - last b')) by (rewrite <- Zle_Qle; lia).
    set (x := inject_Z (t - last b')) in *. clearbody x.
    pose proof (Qmult_lt_0_compat k (x - q) Hk ltac:(lra)). lra.
Qed.
End ExactBuckets.

(** ** Reloads: sharing of buckets and slots across generations *)

Section Generations.
Context {F : Type} `{Float64Laws F}.
Implicit Types (h : heap F) (k : Key F) (ks : KeyState) (r : Registry).

Definition heap_wf h : Prop :=
  (forall a, is_Some (buckets h !! a) -> (a < next h)%nat)
  /\ (forall a, is_Some (concs h !! a) -> (a < next h)%nat).

(** [h'] extends [h]: only fresh objects were added. *)
Definition heap_le h h' : Prop :=
  (forall a b, buckets h !! a = Some b -> buckets h' !! a = Some b)
  /\ (forall a c, concs h !! a = Some c -> concs h' !! a = Some c)
  /\ (next h <= next h')%nat
  /\ (forall a c, concs h' !! a = Some c -> concs h !! a = Some c \/
        ((next h <= a)%nat /\ (held c = None \/ (held c = Some 0 /\ 0 <= limit c)))).

Lemma heap_le_refl h : heap_le h h.
Proof. repeat split; auto. Qed.

Lemma heap_le_trans h1 h2 h3 : heap_le h1 h2 -> heap_le h2 h3 -> heap_le h1 h3.
Proof.
  intros (B1 & C1 & N1 & F1) (B2 & C2 & N2 & F2). repeat split; auto; [lia|].
  intros a c [Hc | [Hge Hh]]%F2; [apply F1 in Hc as [?|[? ?]]; auto|]. right. split; [lia|done].
Qed.

Lemma alloc_bucket_le h b : heap_wf h ->
  heap_le h (fst (alloc_bucket h b)) /\ heap_wf (fst (alloc_bucket h b)).
Proof.
  intros [HB HC]. split; [repeat split; cbn; auto|split; cbn].
  - intros a b' Hb. rewrite lookup_insert_ne; [done|]. apply mk_is_Some, HB in Hb. lia.
  - intros a. destruct (decide (next h = a)) as [<-|Hne]; [lia|].
    rewrite lookup_insert_ne by done. intros ?%HB. lia.
  - intros a ?%HC. lia.
Qed.

Lemma alloc_conc_le h l : heap_wf h ->
  heap_le h (fst (alloc_conc h (NewConcurrency l))) /\ heap_wf (fst (alloc_conc h (NewConcurrency l))).
Proof.
  intros [HB HC]. split; [repeat split; cbn; auto|split; cbn].
  - intros a c Hc. rewrite lookup_insert_ne; [done|]. apply mk_is_Some, HC in Hc. lia.
  - intros a c. destruct (decide (next h = a)) as [<-|Hne].
    + rewrite lookup_insert_eq. intros [= <-]. right. split; [lia|].
      unfold NewConcurrency. destruct (Z.ltb_spec l 1); cbn; auto with lia.
    + rewrite lookup_insert_ne by done. auto.
  - intros a ?%HB. lia.
  - intros a. destruct (decide (next h = a)) as [<-|Hne]; [lia|].
    rewrite lookup_insert_ne by done. intros ?%HC. lia.
Qed.

Lemma build_conc_grows r h k h' a : heap_wf h -> build_conc r h k = (h', a) ->
  heap_le h h' /\ heap_wf h'.
Proof.
  intros Hwf. unfold build_conc. pose proof (alloc_conc_le h (ConcurrentRequests (Limits k)) Hwf) as Ha.
  repeat case_match; intros [= <- <-]; auto using heap_le_refl.
Qed.

Lemma For_grows r h k r' h' ks : heap_wf h -> For r h k = (r', h', ks) ->
  heap_le h h' /\ heap_wf h' /\ keys r' !! ID k = Some ks
  /\ (forall id, id <> ID k -> keys r' !! id = keys r !! id)
  /\ carry r' = carry r /\ carryConc r' = carryConc r.
Proof.
  intros Hwf. unfold For. destruct (keys r !! ID k) eqn:Ek.
  { intros [= <- <- <-]. split_and!; auto using heap_le_refl. }
  destruct (build r h k) as [h1 ks1] eqn:Eb. intros [= <- <- <-]. cbn [keys carry carryConc].
  assert (heap_le h h1 /\ heap_wf h1) as [? ?].
  { unfold build in Eb. destruct (build_conc r h k) as [h0 a] eqn:Ec.
    apply build_conc_grows in Ec as [Hle Hwf0]; [|done].
    destruct (f_ltb _ _); [|by injection Eb as <- <-].
    destruct (NewBucket _ _) as [b|]; [|by injection Eb as <- <-].
    pose proof (alloc_bucket_le h0 b Hwf0) as [? ?]. injection Eb as <- <-.
    eauto using heap_le_trans. }
  split; [done|]. split; [done|]. split; [apply lookup_insert_eq|]. split; [|done].
  intros id Hid. by rewrite lookup_insert_ne.
Qed.

(** A key state that [For] could have built for [k]'s limits. *)
Definition built_for h ks k : Prop :=
  (exists c, concs h !! ks_Concur ks = Some c /\ limit c = want_conc (ConcurrentRequests (Limits k)))
  /\ (if f_ltb (f_of_Z 0) (RequestsPerSecond (Limits k))
      then exists a b, ks_Bucket ks = Some a /\ buckets h !! a = Some b /\
             bucket_match b (RequestsPerSecond (Limits k))
               (derivedBurst (RequestsPerSecond (Limits k)) (Burst (Limits k))) = true
      else ks_Bucket ks = None).

Lemma built_for_le h h' ks k : heap_le h h' -> built_for h ks k -> built_for h' ks k.
Proof.
  intros (HB & HC & _ & _) [(c & Hc & Hl) Hb]. split; [eauto|].
  destruct (f_ltb _ _); [|done]. destruct Hb as (a & b & ? & ? & ?). eauto 6.
Qed.

(** The registry remembers [ks] for [k]: materialized in this generation, or
    carried from an earlier one and not yet asked for. *)
Definition tracks r k ks : Prop :=
  keys r !! ID k = Some ks
  \/ (keys r !! ID k = None /\ carry r !! ID k = ks_Bucket ks
      /\ carryConc r !! ID k = Some (ks_Concur ks)).

(** The registry knows nothing of [k]. *)
Definition untracked r k : Prop :=
  keys r !! ID k = None /\ carry r !! ID k = None /\ carryConc r !! ID k = None.

Lemma carry_fold_lookup (c : gmap string addr) (m : gmap string KeyState) id :
  map_fold carry_step c m !! id = match m !! id with Some ks => ks_Bucket ks | None => c !! id end.
Proof.
  apply (map_fold_weak_ind (fun res m => res !! id = match m !! id with Some ks => ks_Bucket ks | None => c !! id end)).
  - by rewrite lookup_empty.
  - intros i ks m' res Hi IH. unfold carry_step.
    destruct (decide (i = id)) as [->|Hne].
    + rewrite lookup_insert_eq. destruct (ks_Bucket ks); [apply lookup_insert_eq | apply lookup_delete_eq].
    + rewrite (lookup_insert_ne m' i id) by done. rewrite <- IH.
      destruct (ks_Bucket ks); rewrite ?lookup_insert_ne, ?lookup_delete_ne by done; done.
Qed.

Lemma carryConc_fold_lookup (c : gmap string addr) (m : gmap string KeyState) id :
  map_fold carryConc_step c m !! id =
  match m !! id with Some ks => Some (ks_Concur ks) | None => c !! id end.
Proof.
  apply (map_fold_weak_ind (fun res m => res !! id = match m !! id with Some ks => Some (ks_Concur ks) | None => c !! id end)).
  - by rewrite lookup_empty.
  - intros i ks m' res Hi IH. unfold carryConc_step.
    destruct (decide (i = id)) as [->|Hne]; [by rewrite !lookup_insert_eq|].
    rewrite !lookup_insert_ne, lookup_delete_ne by done. done.
Qed.

Definition keeps (keep : option (string -> bool)) (id : string) : Prop :=
  match keep with None => True | Some f => f id = true end.

Lemma keep_only_lookup keep m id : keeps keep id -> keep_only keep m !! id = m !! id.
Proof.
  destruct keep as [f|]; cbn; [|done]. intros Hf. apply option_eq. intros a.
  rewrite map_lookup_filter_Some. cbn. naive_solver.
Qed.

Lemma keep_only_None keep m id : m !! id = None -> keep_only keep m !! id = None.
Proof.
  destruct keep as [f|]; cbn; [|done]. intros Hm. apply map_lookup_filter_None. by left.
Qed.

Lemma tracks_reload r k ks keep : keeps keep (ID k) ->
  tracks r k ks -> tracks (NewRegistryCarrying (Some r) keep) k ks.
Proof.
  intros Hk Ht. right. cbn [keys carry carryConc NewRegistryCarrying].
  rewrite !keep_only_lookup, carry_fold_lookup, carryConc_fold_lookup by done.
  split; [apply lookup_empty|]. by destruct Ht as [-> | (-> & -> & ->)].
Qed.

Lemma untracked_reload r k keep : untracked r k -> untracked (NewRegistryCarrying (Some r) keep) k.
Proof.
  intros (H1 & H2 & H3). split; [apply lookup_empty|]. split; cbn; apply keep_only_None.
  - by rewrite carry_fold_lookup, H1.
  - by rewrite carryConc_fold_lookup, H1.
Qed.

Definition same_policy (k k' : Key F) : Prop := ID k' = ID k /\ Limits k' = Limits k.

(** Asking for a tracked key with unchanged limits returns the remembered
    state. *)
Lemma For_tracked r h k k' ks r' h' ks' :
  heap_wf h -> same_policy k k' -> tracks r k ks -> built_for h ks k ->
  For r h k' = (r', h', ks') -> ks' = ks.
Proof.
  intros Hwf [Hid Hlim] Ht [(c & Hc & Hl) Hb]. unfold For. rewrite Hid.
  destruct Ht as [-> | (-> & Hcar & Hcc)]; [by intros [= <- <- <-]|].
  unfold build, build_conc. rewrite Hid, Hlim, Hcc, Hc, Hl, Z.eqb_refl.
  destruct (f_ltb (f_of_Z 0) (RequestsPerSecond (Limits k))) eqn:Er.
  - destruct Hb as (a & b & Hka & Hba & Hm). unfold NewBucket.
    rewrite (f_leb_ltb_incompat _ Er). cbn [alloc_bucket]. rewrite Hcar, Hka. cbn [buckets].
    rewrite lookup_insert_ne.
    + rewrite Hba, Hm. intros [= <- <- <-]. destruct ks as [kb kc]; cbn in *; congruence.
    + destruct Hwf as [HB _]. apply mk_is_Some, HB in Hba. lia.
  - rewrite Hcar, Hb. intros [= <- <- <-]. destruct ks as [kb kc]; cbn in *; congruence.
Qed.

Lemma derivedBurst_pos (x : F) (n : Z) : 1 <= derivedBurst x n.
Proof. unfold derivedBurst. destruct (Z.ltb_spec n 1); lia. Qed.

(** Asking for an unknown key builds a state for its limits. *)
Lemma For_untracked r h k r' h' ks :
  untracked r k -> For r h k = (r', h', ks) -> built_for h' ks k.
Proof.
  intros (Hk & Hca & Hcc). unfold For. rewrite Hk. unfold build, build_conc. rewrite Hcc.
  cbn [alloc_conc].
  assert (Hlim : limit (NewConcurrency (ConcurrentRequests (Limits k))) = want_conc (ConcurrentRequests (Limits k))).
  { unfold NewConcurrency, want_conc. by case_match. }
  destruct (f_ltb (f_of_Z 0) (RequestsPerSecond (Limits k))) eqn:Er.
  - unfold NewBucket. rewrite (f_leb_ltb_incompat _ Er). cbn [alloc_bucket]. rewrite Hca.
    intros [= <- <- <-]. split; cbn.
    + eexists. rewrite lookup_insert_eq. eauto.
    + rewrite Er. eexists _, _. split; [done|]. rewrite lookup_insert_eq. split; [done|].
      pose proof (derivedBurst_pos (RequestsPerSecond (Limits k)) (Burst (Limits k))).
      unfold bucket_match. cbn. rewrite (proj2 (Z.ltb_ge _ _)) by lia.
      by rewrite (f_eqb_pos _ Er), f_eqb_of_Z.
  - rewrite Hca. intros [= <- <- <-]. split; cbn; [|by rewrite Er].
    eexists. rewrite lookup_insert_eq. eauto.
Qed.
End Generations.

(** ** The limiter as a state machine

    A world is the heap, the registries of the generations published so far
    (the newest first, the others kept alive by the requests that loaded
    them), the registry a reload has computed and not yet published, every
    key state handed to a request and the slots held by requests in flight
    (key id and the bound whose token they hold).  A request of an old
    generation keeps using its key state after a reload, and may ask its own
    generation's registry at any time. *)
Section Worlds.
Context {F : Type} `{Float64Laws F}.

Record world := mkWorld {
  w_heap : heap F;
  w_gens : list Registry;
  w_next : option Registry;
  w_issued : list (string * KeyState);
  w_held : list (string * addr)
}.
Definition init_world : world := mkWorld empty_heap [NewRegistry] None [] [].

(** Every registry there is, the newest first. *)
Definition made (w : world) : list Registry := option_list (w_next w) ++ w_gens w.

(** Steps in which the key [k] keeps its limits: any request of any key, on
    any generation published so far, and reloads that keep [k]'s id, each in
    the two steps of [ReloadStore]: the carrying registry is computed from the
    published one, and published later.  The one thing [k] may not do is to
    have its very first state built in a registry that a reload has already
    copied ([ws_for]: asked on a generation that neither holds nor carries a
    state of [k], it has to be the newest there is); that is the race of
    [IngressFacts.reload_race]. *)
Inductive wstep (k : Key F) : world -> world -> Prop :=
| ws_for h gens nx iss hd i r key r' h' ks :
    gens !! i = Some r ->
    (ID key = ID k -> Limits key = Limits k
       /\ (untracked r k -> i = 0%nat /\ nx = None)) ->
    For r h key = (r', h', ks) ->
    wstep k (mkWorld h gens nx iss hd) (mkWorld h' (<[i := r']> gens) nx ((ID key, ks) :: iss) hd)
| ws_rate h gens nx iss hd id ks now h' res :
    (id, ks) ∈ iss -> AllowRate h ks now = (h', res) ->
    wstep k (mkWorld h gens nx iss hd) (mkWorld h' gens nx iss hd)
| ws_acquire h gens nx iss hd id ks h' tok ok :
    (id, ks) ∈ iss -> AcquireConcurrency h ks = (h', (tok, ok)) ->
    wstep k (mkWorld h gens nx iss hd)
      (mkWorld h' gens nx iss (if tok then (id, ks_Concur ks) :: hd else hd))
| ws_release h gens nx iss l1 l2 id a c c' :
    concs h !! a = Some c -> Release c = Some c' ->
    wstep k (mkWorld h gens nx iss (l1 ++ (id, a) :: l2))
      (mkWorld (mkHeap (buckets h) (<[a := c']> (concs h)) (next h)) gens nx iss (l1 ++ l2))
| ws_compute h r gens iss hd keep :
    keeps keep (ID k) ->
    wstep k (mkWorld h (r :: gens) None iss hd)
      (mkWorld h (r :: gens) (Some (NewRegistryCarrying (Some r) keep)) iss hd)
| ws_publish h gens nx iss hd :
    wstep k (mkWorld h gens (Some nx) iss hd) (mkWorld h (nx :: gens) None iss hd).

(** Requests of key [id] in flight. *)
Definition in_flight (id : string) (w : world) : Z :=
  Z.of_nat (count (fun x => String.eqb x.1 id) (w_held w)).
Definition on_addr (a : addr) (hd : list (string * addr)) : nat :=
  count (fun x => Nat.eqb x.2 a) hd.
#[local] Arguments on_addr : simpl never.

Record winv (k : Key F) (w : world) : Prop := {
  wi_heap : heap_wf (w_heap w);
  wi_tokens : forall a c n, concs (w_heap w) !! a = Some c -> held c = Some n ->
    n = Z.of_nat (on_addr a (w_held w)) /\ n <= limit c;
  wi_held : forall id a, (id, a) ∈ w_held w ->
    (exists c n, concs (w_heap w) !! a = Some c /\ held c = Some n)
    /\ exists ks, (id, ks) ∈ w_issued w /\ ks_Concur ks = a;
  wi_key : (Forall (fun r => untracked r k) (made w) /\ forall ks, (ID k, ks) ∉ w_issued w)
    \/ exists ks, (exists r rest, made w = r :: rest /\ tracks r k ks)
         /\ Forall (fun r => untracked r k \/ tracks r k ks) (made w)
         /\ built_for (w_heap w) ks k
         /\ forall ks', (ID k, ks') ∈ w_issued w -> ks' = ks
}.

Lemma on_addr_cons a x hd : on_addr a (x :: hd) = ((if Nat.eqb x.2 a then 1 else 0) + on_addr a hd)%nat.
Proof. unfold on_addr. by rewrite count_cons. Qed.
Lemma on_addr_app a l1 l2 : on_addr a (l1 ++ l2) = (on_addr a l1 + on_addr a l2)%nat.
Proof. unfold on_addr. by rewrite count_app. Qed.

Lemma on_addr_fresh a hd : (forall id b, (id, b) ∈ hd -> (b < a)%nat) -> on_addr a hd = 0%nat.
Proof.
  induction hd as [|[id b] hd IH]; intros Hlt; [done|]. rewrite on_addr_cons, IH; cbn.
  - specialize (Hlt id b). rewrite list_elem_of_In in Hlt. cbn in Hlt.
    destruct (Nat.eqb_spec b a); [|done]. assert (b < a)%nat by auto. lia.
  - intros id' b' Hin. apply (Hlt id'). by right.
Qed.

(** Changing the tokens of one bound keeps what [built_for] says. *)
Lemma built_for_update_conc (h : heap F) ks (k : Key F) a c c' :
  concs h !! a = Some c -> limit c' = limit c -> built_for h ks k ->
  built_for (mkHeap (buckets h) (<[a := c']> (concs h)) (next h)) ks k.
Proof.
  intros Ha Hl [(c0 & Hc0 & Hl0) Hb]. split; [|done]. cbn.
  destruct (decide (a = ks_Concur ks)) as [->|Hne].
  - rewrite lookup_insert_eq. exists c'. split; [done|]. congruence.
  - rewrite lookup_insert_ne by done. eauto.
Qed.

Lemma built_for_update_bucket (h : heap F) ks (k : Key F) a b b' :
  buckets h !! a = Some b -> rate b' = rate b -> cap b' = cap b -> built_for h ks k ->
  built_for (mkHeap (<[a := b']> (buckets h)) (concs h) (next h)) ks k.
Proof.
  intros Ha Hr Hcap [Hc Hb]. split; [done|]. cbn. destruct (f_ltb _ _); [|done].
  destruct Hb as (a0 & b0 & Hks & Hb0 & Hm). exists a0.
  destruct (decide (a = a0)) as [->|Hne].
  - exists b'. rewrite lookup_insert_eq. split_and!; [done..|].
    rewrite Ha in Hb0. injection Hb0 as ->. unfold bucket_match in *. by rewrite Hr, Hcap.
  - exists b0. by rewrite lookup_insert_ne.
Qed.

Lemma heap_wf_update (h : heap F) a c c' (bs : gmap addr (Bucket F)) :
  heap_wf h -> concs h !! a = Some c -> (forall x, is_Some (bs !! x) -> is_Some (buckets h !! x)) ->
  heap_wf (mkHeap bs (<[a := c']> (concs h)) (next h)).
Proof.
  intros [HB HC] Ha Hbs. split; cbn; [auto|]. intros x.
  destruct (decide (a = x)) as [<-|Hne]; [rewrite lookup_insert_eq; eauto using mk_is_Some|].
  rewrite lookup_insert_ne by done. auto.
Qed.

Lemma Allow_same_params (b : Bucket F) now : rate (fst (Allow b now)) = rate b /\ cap (fst (Allow b now)) = cap b.
Proof. unfold Allow, refill. by repeat case_match. Qed.

Lemma winv_init k : winv k init_world.
Proof.
  split; cbn.
  - split; intros a [? Ha]; discriminate Ha.
  - intros a c n Hc. discriminate Hc.
  - intros id a Hin. by apply not_elem_of_nil in Hin.
  - left. split; [repeat constructor|]. intros ks. apply not_elem_of_nil.
Qed.
Lemma on_addr_held a id hd : (id, a) ∈ hd -> (1 <= on_addr a hd)%nat.
Proof.
  induction hd as [|[id' a'] hd IH]; [by intros ?%not_elem_of_nil|]. rewrite on_addr_cons; cbn.
  intros [[= -> ->]|Hin]%elem_of_cons; [rewrite Nat.eqb_refl|apply IH in Hin]; lia.
Qed.

Lemma on_addr_pos a hd : (0 < on_addr a hd)%nat -> exists id, (id, a) ∈ hd.
Proof.
  induction hd as [|[id b] hd IH]; [unfold on_addr, count; cbn; lia|]. rewrite on_addr_cons. cbn.
  destruct (Nat.eqb_spec b a) as [->|]; intros Hpos; [exists id; by left|].
  destruct IH as [id' ?]; [lia|]. exists id'. by right.
Qed.

Lemma wi_held_bound k w id a : winv k w -> (id, a) ∈ w_held w -> (a < next (w_heap w))%nat.
Proof.
  intros Hi Hin. destruct (wi_held _ _ Hi _ _ Hin) as [(c & n & Hc & _) _].
  apply (proj2 (wi_heap _ _ Hi)). eauto.
Qed.

(** Asking for another key leaves what a registry knows of [k] alone. *)
Lemma For_other r h key (k : Key F) r' h' ks ks0 :
  heap_wf h -> ID key <> ID k -> For r h key = (r', h', ks) ->
  (untracked r k -> untracked r' k) /\ (tracks r k ks0 -> tracks r' k ks0).
Proof.
  intros Hwf Hid HF. pose proof (For_grows _ _ _ _ _ _ Hwf HF) as (_ & _ & _ & Hoth & Hca & Hcc).
  unfold untracked, tracks. by rewrite Hoth, Hca, Hcc by done.
Qed.

(** Every registry of [made] satisfies [P] still after one that satisfies it
    replaces one of the published ones. *)
Lemma made_insert (P : Registry -> Prop) h gens nx iss hd i r r' h' iss' :
  gens !! i = Some r -> (P r -> P r') ->
  Forall P (made (mkWorld h gens nx iss hd)) ->
  Forall P (made (mkWorld h' (<[i := r']> gens) nx iss' hd)).
Proof.
  unfold made. cbn. intros Hi HP [Hn Hg]%Forall_app. apply Forall_app. split; [done|].
  apply Forall_insert; [done|]. apply HP. by eapply Forall_lookup_1.
Qed.

(** So does the newest. *)
Lemma newest_insert (P : Registry -> Prop) h gens nx iss hd i r r' h' iss' :
  gens !! i = Some r -> (P r -> P r') ->
  (exists r0 rest, made (mkWorld h gens nx iss hd) = r0 :: rest /\ P r0) ->
  exists r0 rest, made (mkWorld h' (<[i := r']> gens) nx iss' hd) = r0 :: rest /\ P r0.
Proof.
  unfold made. cbn. intros Hi HP (r0 & rest & Hm & Hr0).
  destruct nx as [n|]; cbn in *; [injection Hm as -> _; eauto|].
  subst gens. destruct i as [|i]; cbn in *; [injection Hi as ->; eauto|eauto].
Qed.

Lemma winv_for k h gens nx iss hd i r key r' h' ks :
  gens !! i = Some r ->
  (ID key = ID k -> Limits key = Limits k /\ (untracked r k -> i = 0%nat /\ nx = None)) ->
  For r h key = (r', h', ks) ->
  winv k (mkWorld h gens nx iss hd) ->
  winv k (mkWorld h' (<[i := r']> gens) nx ((ID key, ks) :: iss) hd).
Proof.
  intros Hgi Hlim HF Hi. pose proof Hi as [Hwf Htok Hheld Hkey]. cbn [w_heap w_held w_issued] in *.
  pose proof (For_grows _ _ _ _ _ _ Hwf HF) as (Hle & Hwf' & Hks & _).
  pose proof Hle as (_ & HC & _ & Hnew).
  split; cbn [w_heap w_held w_issued].
  - done.
  - intros a c n [Hc|[Hge [Hh|[Hh Hl]]]]%Hnew Hn; [eauto|congruence|].
    rewrite Hh in Hn. injection Hn as <-. rewrite on_addr_fresh; [lia|].
    intros id b Hin. pose proof (wi_held_bound _ _ _ _ Hi Hin). cbn in *. lia.
  - intros id a [(c & n & Hc & Hn) (ks0 & Hin & Ha)]%Hheld. split; [eauto|].
    exists ks0. split; [by right|done].
  - destruct (decide (ID key = ID k)) as [Hid|Hid].
    + right. exists ks. destruct (Hlim Hid) as [HL Hnewest].
      assert (tracks r' k ks) as Hr' by (left; by rewrite <- Hid).
      destruct Hkey as [[Hu Hno]|(ks0 & Hhd & Hg & Hb & Hall)].
      * assert (untracked r k) as Hur.
        { apply Forall_app in Hu as [_ Hu]. exact (Forall_lookup_1 _ _ _ _ Hu Hgi). }
        destruct (Hnewest Hur) as [-> ->]. destruct gens as [|r0 gens]; [done|].
        injection Hgi as ->. unfold made in *; cbn in *. inversion_clear Hu as [|? ? _ Hu'].
        assert (untracked r key) as Hu0 by (unfold untracked; by rewrite Hid).
        pose proof (For_untracked _ _ _ _ _ _ Hu0 HF) as Hb. unfold built_for in Hb. rewrite HL in Hb.
        split; [eauto|]. split; [constructor; [by right|]; apply (Forall_impl _ _ _ Hu'); intros ? ?; by left|].
        split; [exact Hb|]. intros ks' [[= _ ->]|Hin]%elem_of_cons; [done|]. by apply Hno in Hin.
      * assert (tracks r k ks0) as Ht.
        { apply Forall_app in Hg as [_ Hg']. destruct (Forall_lookup_1 _ _ _ _ Hg' Hgi) as [Hur|?]; [|done].
          destruct (Hnewest Hur) as [-> ->]. destruct gens as [|r0 gens]; [done|].
            injection Hgi as ->. destruct Hhd as (? & ? & [= <- _] & ?). done. }
        pose proof (For_tracked _ _ _ _ _ _ _ _ Hwf (conj Hid HL) Ht Hb HF) as ->.
        split; [by eapply newest_insert|].
        split; [eapply made_insert; [exact Hgi| |exact Hg]; by right|].
        split; [by eapply built_for_le|]. intros ks' [[= _ ->]|Hin]%elem_of_cons; auto.
    + assert (forall ks', (ID k, ks') ∈ (ID key, ks) :: iss -> (ID k, ks') ∈ iss) as Hin'.
      { intros ks' [[= Heq _]|?]%elem_of_cons; [congruence|done]. }
      destruct Hkey as [[Hu Hno]|(ks0 & Hhd & Hg & Hb & Hall)]; [left|right; exists ks0].
      * split; [|intros ks' ?%Hin'; by eapply Hno].
        eapply made_insert; [exact Hgi| |exact Hu].
        exact (proj1 (For_other _ _ _ _ _ _ _ ks Hwf Hid HF)).
      * pose proof (For_other _ _ _ _ _ _ _ ks0 Hwf Hid HF) as [Ho1 Ho2].
        split; [by eapply newest_insert|]. split; [|split; [by eapply built_for_le|auto]].
        eapply made_insert; [exact Hgi| |exact Hg]. cbn beta. intros [?|?]; auto.
Qed.

Lemma winv_rate k h gens nx iss hd ks now h' res :
  AllowRate h ks now = (h', res) ->
  winv k (mkWorld h gens nx iss hd) -> winv k (mkWorld h' gens nx iss hd).
Proof.
  intros HA [Hwf Htok Hheld Hkey]. unfold AllowRate in HA.
  destruct (ks_Bucket ks) as [a|]; [|by injection HA as <- _].
  destruct (buckets h !! a) as [b|] eqn:Eb; [|by injection HA as <- _].
  destruct (Allow b now) as [b' res'] eqn:EA. injection HA as <- _.
  pose proof (Allow_same_params b now) as [Hr Hc]. rewrite EA in Hr, Hc.
  split; cbn in *; [|done..|].
  - destruct Hwf as [HB HC]. split; cbn; [|done]. intros x.
    destruct (decide (a = x)) as [<-|Hne]; [eauto|rewrite lookup_insert_ne by done; auto].
  - destruct Hkey as [?|(ks0 & Ht & Hg & Hbf & Hall)]; [by left|]. right. exists ks0.
    eauto using built_for_update_bucket.
Qed.

Lemma winv_acquire k h gens nx iss hd id ks h' tok ok :
  (id, ks) ∈ iss -> AcquireConcurrency h ks = (h', (tok, ok)) ->
  winv k (mkWorld h gens nx iss hd) ->
  winv k (mkWorld h' gens nx iss (if tok then (id, ks_Concur ks) :: hd else hd)).
Proof.
  intros Hin HA [Hwf Htok Hheld Hkey]. unfold AcquireConcurrency, Acquire in HA. cbn in *.
  destruct (concs h !! ks_Concur ks) as [c|] eqn:Ec; [|by injection HA as <- <- _].
  assert (<[ks_Concur ks := c]> (concs h) = concs h) as Hid by (by apply insert_id).
  destruct (held c) as [n|] eqn:Eh.
  2:{ injection HA as <- <- _. rewrite Hid. by destruct h. }
  destruct (Z.ltb_spec n (limit c)); injection HA as <- <- _.
  2:{ rewrite Hid. by destruct h. }
  destruct (Htok _ _ _ Ec Eh) as [Hn Hl].
  split; cbn.
  - by eapply heap_wf_update.
  - intros a c' m. rewrite on_addr_cons. cbn.
    destruct (decide (ks_Concur ks = a)) as [<-|Hne].
    + rewrite lookup_insert_eq, Nat.eqb_refl. intros [= <-] [= <-]. cbn. lia.
    + rewrite lookup_insert_ne, (proj2 (Nat.eqb_neq _ _)) by done. apply Htok.
  - intros id' a [[= -> ->]|Hin']%elem_of_cons.
    + split; [|eauto]. rewrite lookup_insert_eq. eauto.
    + apply Hheld in Hin' as [(c' & m & Hc' & Hm) ?]. split; [|done].
      destruct (decide (ks_Concur ks = a)) as [<-|Hne];
        [rewrite lookup_insert_eq|rewrite lookup_insert_ne by done]; eauto.
  - destruct Hkey as [?|(ks0 & Ht & Hg & Hbf & Hall)]; [by left|]. right. exists ks0.
    split; [done|]. split; [done|]. split; [|done]. by apply (built_for_update_conc _ _ _ _ c).
Qed.

Lemma winv_release k h gens nx iss l1 l2 id a c c' :
  concs h !! a = Some c -> Release c = Some c' ->
  winv k (mkWorld h gens nx iss (l1 ++ (id, a) :: l2)) ->
  winv k (mkWorld (mkHeap (buckets h) (<[a := c']> (concs h)) (next h)) gens nx iss (l1 ++ l2)).
Proof.
  intros Hc HR [Hwf Htok Hheld Hkey]. cbn in *.
  assert ((id, a) ∈ l1 ++ (id, a) :: l2) as Hin by set_solver.
  destruct (Hheld _ _ Hin) as [(c0 & n & Hc0 & Hn) _]. rewrite Hc in Hc0. injection Hc0 as <-.
  destruct (Htok _ _ _ Hc Hn) as [Hon Hl]. unfold Release in HR. rewrite Hn in HR.
  destruct (Z.ltb_spec 0 n); [|done]. injection HR as <-.
  rewrite on_addr_app, on_addr_cons in Hon. cbn in Hon. rewrite Nat.eqb_refl in Hon.
  split; cbn.
  - by eapply heap_wf_update.
  - intros x c' m. rewrite on_addr_app.
    destruct (decide (a = x)) as [<-|Hne].
    + rewrite lookup_insert_eq. intros [= <-] [= <-]. cbn. lia.
    + rewrite lookup_insert_ne by done. intros Hx Hm. destruct (Htok _ _ _ Hx Hm) as [Hm' ?].
      rewrite on_addr_app, on_addr_cons in Hm'. cbn in Hm'.
      rewrite (proj2 (Nat.eqb_neq _ _)) in Hm' by done. split; [lia|done].
  - intros id' x Hin'. assert ((id', x) ∈ l1 ++ (id, a) :: l2) as Hin2 by set_solver.
    destruct (Hheld _ _ Hin2) as [(c1 & m & Hc1 & Hm) ?]. split; [|done].
    destruct (decide (a = x)) as [<-|Hne];
      [rewrite lookup_insert_eq|rewrite lookup_insert_ne by done]; eauto.
  - destruct Hkey as [?|(ks0 & Ht & Hg & Hbf & Hall)]; [by left|]. right. exists ks0.
    split; [done|]. split; [done|]. split; [|done]. by apply (built_for_update_conc _ _ _ _ c).
Qed.

Lemma winv_compute k h r gens iss hd keep :
  keeps keep (ID k) -> winv k (mkWorld h (r :: gens) None iss hd) ->
  winv k (mkWorld h (r :: gens) (Some (NewRegistryCarrying (Some r) keep)) iss hd).
Proof.
  intros Hkeep [Hwf Htok Hheld Hkey]. split; cbn -[NewRegistryCarrying] in *; [done..|].
  unfold made in *; cbn -[NewRegistryCarrying] in *.
  destruct Hkey as [[Hu ?]|(ks0 & (? & ? & [= <- <-] & Ht) & Hg & Hb & Hall)]; [left|right].
  - split; [|done]. constructor; [|done]. apply untracked_reload. by inversion_clear Hu.
  - pose proof (tracks_reload _ _ _ _ Hkeep Ht). exists ks0. split; [eauto|].
    split; [constructor; [by right|done]|done].
Qed.

Lemma winv_step k w w' : wstep k w w' -> winv k w -> winv k w'.
Proof.
  destruct 1; eauto using winv_for, winv_rate, winv_acquire, winv_release, winv_compute.
  by intros [Hwf Htok Hheld Hkey].
Qed.

Lemma winv_reachable k w : rtc (wstep k) init_world w -> winv k w.
Proof.
  intros Hr. cut (forall w0, rtc (wstep k) w0 w -> winv k w0 -> winv k w).
  { intros Hc. eapply Hc; [done|apply winv_init]. }
  induction 1; eauto using winv_step.
Qed.

Lemma in_flight_on_addr id a hd :
  (forall x, (id, x) ∈ hd -> x = a) ->
  (count (fun x : string * addr => String.eqb x.1 id) hd <= on_addr a hd)%nat.
Proof.
  induction hd as [|[id' x] hd IH]; intros Hall; [done|]. rewrite count_cons, on_addr_cons.
  specialize (IH (fun y Hy => Hall y (list_elem_of_further _ _ _ Hy))). cbn in *.
  destruct (String.eqb_spec id' id) as [->|]; [|lia].
  rewrite (Hall x), Nat.eqb_refl by (by left). lia.
Qed.

(** C2: Reloading the key file does not loosen a key's limits, but for one
    race.  Take requests of any keys, each asking at any time the generation it
    loaded, releases, and reloads that keep key [k] and its limits, computed
    and published as two separate steps.  As long as [k]'s very first state is
    not built in a generation that a reload had copied before (the race that
    [IngressFacts.reload_race] exhibits, in which the key gets a second slot
    set): all the states ever handed out for [k], whichever generation was
    asked, are one and the same bucket and slot set, made for [k]'s limits;
    the requests of [k] in flight never exceed its concurrency limit; and
    giving a slot back never blocks. *)
Theorem reload_keeps_limits k w :
  rtc (wstep k) init_world w ->
  (forall ks ks', (ID k, ks) ∈ w_issued w -> (ID k, ks') ∈ w_issued w -> ks = ks')
  /\ (forall ks, (ID k, ks) ∈ w_issued w -> built_for (w_heap w) ks k)
  /\ (1 <= ConcurrentRequests (Limits k) -> in_flight (ID k) w <= ConcurrentRequests (Limits k))
  /\ (forall id a, (id, a) ∈ w_held w ->
       exists c c', concs (w_heap w) !! a = Some c /\ Release c = Some c').
Proof.
  intros Hr%winv_reachable. pose proof Hr as [Hwf Htok Hheld Hkey]. split; [|split; [|split]].
  - destruct Hkey as [[_ Hno]|(ks0 & _ & _ & _ & Hall)]; intros ks ks' H1 H2.
    + by apply Hno in H1.
    + by rewrite (Hall _ H1), (Hall _ H2).
  - intros ks Hin. destruct Hkey as [[_ Hno]|(ks0 & _ & _ & Hb & Hall)]; [by apply Hno in Hin|].
    by rewrite (Hall _ Hin).
  - intros Hl. unfold in_flight.
    destruct Hkey as [[_ Hno]|(ks0 & _ & _ & [(c & Hc & Hlim) _] & Hall)].
    + pose proof (in_flight_on_addr (ID k) (next (w_heap w)) (w_held w)) as Hle.
      rewrite on_addr_fresh in Hle; [|intros; by eapply wi_held_bound].
      enough (forall x, (ID k, x) ∉ w_held w) as Hnone.
      { specialize (Hle (fun x Hx => False_ind _ (Hnone x Hx))). lia. }
      intros x (_ & ks & Hin & _)%Hheld. by apply Hno in Hin.
    + unfold want_conc in Hlim. rewrite (proj2 (Z.ltb_ge _ _)) in Hlim by lia.
      assert (forall x, (ID k, x) ∈ w_held w -> x = ks_Concur ks0) as Hx.
      { intros x (_ & ks & Hin & <-)%Hheld. by rewrite (Hall _ Hin). }
      pose proof (in_flight_on_addr _ _ _ Hx) as Hle.
      destruct (held c) as [n|] eqn:Eh; [destruct (Htok _ _ _ Hc Eh); lia|].
      destruct (on_addr (ks_Concur ks0) (w_held w)) eqn:Eo; [lia|].
      destruct (on_addr_pos (ks_Concur ks0) (w_held w)) as [id Hin]; [lia|].
      apply Hheld in Hin as [(c' & n' & Hc' & Hn') _]. congruence.
  - intros id a Hin. destruct (Hheld _ _ Hin) as [(c & n & Hc & Hn) _].
    exists c. unfold Release. rewrite Hn. destruct (Htok _ _ _ Hc Hn) as [-> _].
    apply on_addr_held in Hin. rewrite (proj2 (Z.ltb_lt _ _)) by lia. eauto.
Qed.
End Worlds.

(** ** The per-source registry is bounded *)

Section Sources.
Context {F : Type} `{Float64 F}.
Implicit Types (r : SourceRegistry F) (order : list (string * SourceState F)).

(** The scan returns an entry it probed, no younger than any other probed. *)
Lemma evict_scan_oldest order n best ip t :
  evict_scan order n best = Some (ip, t) ->
  (best = Some (ip, t) \/ exists st, (ip, st) ∈ take n order /\ src_last st = t)
  /\ (forall ip' t', best = Some (ip', t') -> t <= t')
  /\ Forall (fun e => t <= src_last e.2) (take n order).
Proof.
  revert n best. induction order as [|[ip1 st1] order IH]; intros n best; [destruct n|destruct n]; cbn.
  1-3: intros ->; split; [by left|]; split; [intros ? ? [= _ ->]; lia|constructor].
  intros (Hin & Hb & Hall)%IH.
  assert (Hnew : forall x, (x = Some (ip, t) \/ exists st, (ip, st) ∈ take n order /\ src_last st = t) ->
    x = Some (ip1, src_last st1) ->
    exists st, (ip, st) ∈ (ip1, st1) :: take n order /\ src_last st = t).
  { intros x [->|(st & ? & ?)] Hx; [injection Hx as -> ->; exists st1|exists st]; set_solver. }
  destruct best as [[ip' t']|]; unfold Before in *; [destruct (Z.ltb_spec (src_last st1) t')|].
  - specialize (Hb _ _ eq_refl). split; [right; eauto|]. split; [intros ? ? [= <- <-]; lia|].
    by constructor.
  - specialize (Hb _ _ eq_refl). split; [destruct Hin as [?|(st & ? & ?)]; [by left|right; exists st; set_solver]|].
    split; [by intros ? ? [= <- <-]|]. constructor; [cbn; lia|done].
  - specialize (Hb _ _ eq_refl). split; [right; eauto|]. split; [done|]. by constructor.
Qed.

Lemma evict_scan_some order n best : is_Some best -> is_Some (evict_scan order n best).
Proof.
  revert n best. induction order as [|[ip st] order IH]; intros [|n] best Hb; cbn; try done.
  apply IH. by destruct best as [[? ?]|]; [destruct (Before _ _)|].
Qed.

(** Eviction from a non-empty map removes one entry, an oldest one of those
    probed. *)
Lemma evictOldest_spec order (m : gmap string (SourceState F)) :
  order ≡ₚ map_to_list m -> m <> ∅ ->
  exists ip st, m !! ip = Some st /\ evictOldest order m = delete ip m
    /\ Forall (fun e => src_last st <= src_last e.2) (take evictProbeBudget order).
Proof.
  intros Hord Hne. unfold evictOldest.
  destruct order as [|[ip0 st0] order'] eqn:Eo.
  { apply Permutation_nil_l in Hord. symmetry in Hord. by apply map_to_list_empty_iff in Hord. }
  destruct (evict_scan _ _ _) as [[ip t]|] eqn:Es; cycle 1.
  { assert (is_Some (evict_scan order' 63 (Some (ip0, src_last st0)))) as [? ?] by (by apply evict_scan_some).
    cbn in Es. congruence. }
  rewrite <- Eo in *. apply evict_scan_oldest in Es as ([?|(st & Hin & <-)] & _ & Hall); [done|].
  exists ip, st. split; [|done]. apply elem_of_map_to_list. rewrite <- Hord.
  by eapply elem_of_take in Hin as (i & Hi & _); [apply list_elem_of_lookup_2 in Hi].
Qed.

Definition sstep r r' : Prop :=
  exists order ip now, order ≡ₚ map_to_list (srcs r) /\ fst (source_Allow order r ip now) = r'.

Record sources_ok (c : Z) r : Prop := {
  so_cap : src_cap r = c;
  so_pos : 1 <= c;
  so_size : Z.of_nat (sources_size r) <= c;
  so_rate : f_leb (src_rps r) (f_of_Z 0) = false
}.

(** The effect of one [Allow] on the table. *)
Lemma source_Allow_srcs c order r ip now :
  sources_ok c r -> order ≡ₚ map_to_list (srcs r) ->
  let r' := fst (source_Allow order r ip now) in
  sources_ok c r' /\ (exists st, srcs r' !! ip = Some st /\ src_last st = now)
  /\ (forall ip', ip' <> ip -> srcs r' !! ip' <> srcs r !! ip' ->
      srcs r' !! ip' = None /\ srcs r !! ip = None /\ Z.of_nat (sources_size r) = c
      /\ exists st, srcs r !! ip' = Some st
           /\ Forall (fun e => src_last st <= src_last e.2) (take evictProbeBudget order)).
Proof.
  intros [Hc Hp Hs Hr] Hord. unfold source_Allow, NewBucket, sources_size in *. rewrite Hr.
  destruct (srcs r !! ip) as [st|] eqn:E.
  - destruct (Allow (src_rate st) now) as [b res]. cbn. split; [|split].
    + split; cbn; try done. unfold sources_size; cbn. by rewrite map_size_insert_Some.
    + rewrite lookup_insert_eq. eauto.
    + intros ip' Hne. by rewrite lookup_insert_ne.
  - rewrite Hc. set (b0 := mkBucket _ _ _ _). destruct (Allow b0 now) as [b res]. cbn [fst srcs].
    destruct (Z.leb_spec c (Z.of_nat (size (srcs r)))) as [Hfull|Hroom].
    + destruct (evictOldest_spec order (srcs r) Hord) as (v & st & Hv & -> & Hold).
      { intros He. rewrite He, map_size_empty in Hfull. lia. }
      split; [|split].
      * split; cbn; try done. unfold sources_size; cbn.
        rewrite map_size_insert_None, map_size_delete_Some by (eauto; by rewrite lookup_delete_None; right).
        assert (size (srcs r) <> 0%nat) by lia. lia.
      * rewrite lookup_insert_eq. eauto.
      * intros ip' Hne. rewrite lookup_insert_ne by done.
        destruct (decide (v = ip')) as [->|]; [|by rewrite lookup_delete_ne].
        rewrite lookup_delete_eq. intros _. split_and!; [done..|lia|eauto].
    + split; [|split].
      * split; cbn; try done. unfold sources_size; cbn. rewrite map_size_insert_None by done. lia.
      * rewrite lookup_insert_eq. eauto.
      * intros ip' Hne. by rewrite lookup_insert_ne.
Qed.

Lemma sources_ok_reachable c r0 r : rtc sstep r0 r -> sources_ok c r0 -> sources_ok c r.
Proof.
  induction 1 as [|r1 r2 r3 (order & ip & now & Hord & <-) _ IH]; [done|]. intros Hok.
  apply IH. by apply source_Allow_srcs.
Qed.

(** The pre-auth table cannot be grown or used to disturb other clients
    beyond one eviction.  After any sequence of requests and any map
    iteration orders it holds at most the configured number of sources (at
    least one); every request leaves its own source in the table, stamped
    with its time; another source's bucket is either untouched or, when the
    table was full and the request's source was new, evicted, in which case
    no entry probed by the scan was used less recently. *)
Theorem source_registry_bounded rps burst capacity r0 r order ip now :
  NewSourceRegistry rps burst capacity = Some r0 -> rtc sstep r0 r ->
  order ≡ₚ map_to_list (srcs r) ->
  let r' := fst (source_Allow order r ip now) in
  Z.of_nat (sources_size r') <= Z.max 1 capacity
  /\ (exists st, srcs r' !! ip = Some st /\ src_last st = now)
  /\ (forall ip', ip' <> ip -> srcs r' !! ip' <> srcs r !! ip' ->
      srcs r' !! ip' = None /\ srcs r !! ip = None
      /\ Z.of_nat (sources_size r) = Z.max 1 capacity
      /\ exists st, srcs r !! ip' = Some st
           /\ Forall (fun e => src_last st <= src_last e.2) (take evictProbeBudget order)).
Proof.
  intros Hnew Hrtc Hord. assert (sources_ok (Z.max 1 capacity) r0) as H0.
  { unfold NewSourceRegistry in Hnew. destruct (f_leb _ _) eqn:E; [done|]. injection Hnew as <-.
    split; cbn; [destruct (Z.ltb_spec capacity 1); lia|lia|cbv [sources_size srcs]; rewrite map_size_empty; lia|done]. }
  pose proof (sources_ok_reachable _ _ _ Hrtc H0) as Hok.
  destruct (source_Allow_srcs _ order r ip now Hok Hord) as ([_ _ Hs _] & Hip & Hoth).
  by split_and!.
Qed.
End Sources.

(** ** NaN rates *)

(** A key whose rate is IEEE's not-a-number passes [validateLimits] and is
    served with no rate bucket at all: every request is admitted. *)
Theorem nan_rate_unlimited (k : Key spec_float) h r' h' ks now :
  RequestsPerSecond (Limits k) = S754_nan ->
  0 <= ConcurrentRequests (Limits k) -> 0 <= Burst (Limits k) ->
  0 <= TokensPerHour (Limits k) -> 0 <= TokensPerDay (Limits k) ->
  For NewRegistry h k = (r', h', ks) ->
  validateLimits (Limits k) = Ok tt /\ AllowRate h' ks now = (h', (true, 0)).
Proof.
  intros Hnan Hc Hb Hh Hd HF. split; [apply validateLimits_ok; by rewrite Hnan|].
  unfold For, build, build_conc in HF. cbn -[f_ltb] in HF. rewrite Hnan in HF. cbn in HF.
  injection HF as <- <- <-. done.
Qed.

(** ** Witnesses *)

Module LimiterDemo.
Definition b : Bucket Q := mkBucket (2 # 1)%Q (3 # 1)%Q (1 # 1)%Q 0.
Definition k : Key Q := Demo.key.
Definition k1 : Key Q := mkKey "0011223344556677" "bob" "" true None [] (mkKeyLimits (1 # 2)%Q 0 1 0 0).
Definition nan_key : Key spec_float := mkKey "0011223344556677" "bob" "" true None [] (mkKeyLimits S754_nan 0 1 0 0).
(** A request and its slot; a reload is computed, the old generation is asked
    again before the new one is published and once more after; a request of
    the new generation is refused the slot. *)
Definition st1 := For NewRegistry empty_heap k1.
Definition st2 := AcquireConcurrency st1.1.2 st1.2.
Definition reg2 := NewRegistryCarrying (Some st1.1.1) None.
Definition st3 := For reg2 st2.1 k1.
Definition w5 : world (F := Q) :=
  mkWorld st3.1.2 [st3.1.1; st1.1.1] None [(ID k1, st3.2); (ID k1, st1.2); (ID k1, st1.2); (ID k1, st1.2)]
    [(ID k1, ks_Concur st1.2)].
Definition sr : SourceRegistry Q := mkSources 1 (1 # 1)%Q 1 ∅.
Definition sr1 : SourceRegistry Q := fst (source_Allow [] sr "10.0.0.1" 5).
End LimiterDemo.

Lemma bucket_window_bound_witness :
  (inject_Z (snd (allow_all LimiterDemo.b [0; 2; 1; 1000000000]%Z))
   <= cap LimiterDemo.b + accrued (rate LimiterDemo.b) (1000000000 - 0)%Z)%Q.
Proof.
  apply bucket_window_bound; [split; cbn; try split; discriminate || reflexivity|lia|].
  repeat constructor; lia.
Defined.

Lemma Allow_retry_tight_witness :
  let b := mkBucket (2 # 1)%Q (3 # 1)%Q (1 # 2)%Q 0 in
  ((250000000 < 250000000)%Z -> fst (snd (Allow b 250000000)) = false)
  /\ ((250000000 < 250000001)%Z -> fst (snd (Allow b 250000001)) = true).
Proof.
  cbv zeta. split; intros Hlt.
  - lia.
  - apply (Allow_retry_tight (mkBucket (2 # 1)%Q (3 # 1)%Q (1 # 2)%Q 0) 0 (mkBucket (2 # 1)%Q (3 # 1)%Q (1 # 2)%Q 0) 250000000);
      [split; cbn; try split; discriminate || reflexivity|vm_compute; (reflexivity || discriminate)..].
Defined.

Lemma reload_keeps_limits_witness :
  in_flight (ID LimiterDemo.k1) LimiterDemo.w5 = 1
  /\ in_flight (ID LimiterDemo.k1) LimiterDemo.w5 <= ConcurrentRequests (Limits LimiterDemo.k1).
Proof.
  assert (Hold : For LimiterDemo.st1.1.1 LimiterDemo.st2.1 LimiterDemo.k1
    = (LimiterDemo.st1.1.1, LimiterDemo.st2.1, LimiterDemo.st1.2)) by (vm_compute; reflexivity).
  assert (Hmade : ~ untracked LimiterDemo.st1.1.1 LimiterDemo.k1)
    by (intros [Hk _]; vm_compute in Hk; discriminate Hk).
  split; [reflexivity|]. apply (reload_keeps_limits LimiterDemo.k1 LimiterDemo.w5); [|vm_compute; discriminate].
  eapply rtc_l.
  { apply (ws_for LimiterDemo.k1 empty_heap [NewRegistry] None [] [] 0 NewRegistry LimiterDemo.k1
      LimiterDemo.st1.1.1 LimiterDemo.st1.1.2 LimiterDemo.st1.2); [done|done|vm_compute; reflexivity]. }
  eapply rtc_l.
  { apply (ws_acquire LimiterDemo.k1 LimiterDemo.st1.1.2 [LimiterDemo.st1.1.1] None
      [(ID LimiterDemo.k1, LimiterDemo.st1.2)] []
      (ID LimiterDemo.k1) LimiterDemo.st1.2 LimiterDemo.st2.1 true true); [by left|vm_compute; reflexivity]. }
  eapply rtc_l; [apply (ws_compute LimiterDemo.k1 _ _ _ _ _ None); exact I|].
  eapply rtc_l.
  { apply (ws_for LimiterDemo.k1 LimiterDemo.st2.1 [LimiterDemo.st1.1.1] (Some LimiterDemo.reg2) _ _ 0
      LimiterDemo.st1.1.1 LimiterDemo.k1 LimiterDemo.st1.1.1 LimiterDemo.st2.1 LimiterDemo.st1.2 eq_refl);
      [by split|exact Hold]. }
  eapply rtc_l; [apply ws_publish|].
  eapply rtc_l.
  { apply (ws_for LimiterDemo.k1 LimiterDemo.st2.1 [LimiterDemo.reg2; LimiterDemo.st1.1.1] None _ _ 1
      LimiterDemo.st1.1.1 LimiterDemo.k1 LimiterDemo.st1.1.1 LimiterDemo.st2.1 LimiterDemo.st1.2 eq_refl);
      [by split|exact Hold]. }
  eapply rtc_l.
  { apply (ws_for LimiterDemo.k1 LimiterDemo.st2.1 [LimiterDemo.reg2; LimiterDemo.st1.1.1] None _ _ 0
      LimiterDemo.reg2 LimiterDemo.k1 LimiterDemo.st3.1.1 LimiterDemo.st3.1.2 LimiterDemo.st3.2 eq_refl);
      [by split|vm_compute; reflexivity]. }
  apply rtc_once. apply (ws_acquire LimiterDemo.k1 LimiterDemo.st3.1.2 [LimiterDemo.st3.1.1; LimiterDemo.st1.1.1]
    None _ [(ID LimiterDemo.k1, ks_Concur LimiterDemo.st1.2)] (ID LimiterDemo.k1) LimiterDemo.st3.2
    LimiterDemo.st3.1.2 false false); [by left|vm_compute; reflexivity].
Defined.

Lemma source_registry_bounded_witness :
  Z.of_nat (sources_size (fst (source_Allow (map_to_list (srcs LimiterDemo.sr1))
    LimiterDemo.sr1 "10.0.0.2" 9))) <= Z.max 1 1.
Proof.
  apply (source_registry_bounded (1 # 1)%Q 1 1 LimiterDemo.sr LimiterDemo.sr1).
  - reflexivity.
  - apply rtc_once. exists [], "10.0.0.1", 5. by split; [reflexivity|].
  - vm_compute. reflexivity.
Defined.

Lemma nan_rate_unlimited_witness :
  validateLimits (Limits LimiterDemo.nan_key) = Ok tt
  /\ forall now, AllowRate (For NewRegistry empty_heap LimiterDemo.nan_key).1.2
       (For NewRegistry empty_heap LimiterDemo.nan_key).2 now
       = ((For NewRegistry empty_heap LimiterDemo.nan_key).1.2, (true, 0)).
Proof.
  assert (Hall : forall now, _) by (intros now;
    apply (nan_rate_unlimited LimiterDemo.nan_key empty_heap (For NewRegistry empty_heap LimiterDemo.nan_key).1.1
      (For NewRegistry empty_heap LimiterDemo.nan_key).1.2 (For NewRegistry empty_heap LimiterDemo.nan_key).2 now);
    vm_compute; (reflexivity || discriminate)).
  split; [apply (Hall 0)|intros now; apply (Hall now)].
Defined.
