(* ===== verification/Routing.v ===== *)
(** * Routing: [internal/routing/router.go]

    The mapping of a public model to one eligible backend per attempt, with
    the five strategies and passive health.  The router's counters are
    explicit state; the clock and the backends' live load are arguments of
    the operations. *)

From S2P Require Import Prelude Float64 GoStrings Net Config ConfigFacts.
From Stdlib Require Import QArith Lqa.
From stdpp Require Import sorting.
#[local] Open Scope Z_scope.

Section Routing.
Context {F : Type} `{Float64 F}.

Inductive route_error :=
| ErrUnknownModel
| ErrNoEligibleBackend
| ErrUnimplementedStrategy (s : string).
#[global] Instance route_error_eq_dec : EqDecision route_error.
Proof. solve_decision. Defined.

Inductive new_error :=
| NENoModels
| NENoBackends (model : string)
| NEStrategy (model strategy : string)
| NEUnknownBackend (model backend : string)
| NENoUpstream (backend : string).

(* src: internal/routing/router.go 48-52 healthBaseCooldown *)
Definition healthBaseCooldown : duration := 5 * Second.
(* src: internal/routing/router.go 53-53 healthMaxCooldown *)
Definition healthMaxCooldown : duration := Minute.
(* src: internal/routing/router.go 54-54 healthShiftCap *)
Definition healthShiftCap : Z := 16.

(* src: internal/routing/router.go Target *)
Record Target := mkTarget { PublicModel : string; t_Backend : string; Upstream : string; t_Type : string }.

(* src: internal/routing/router.go replica *)
Record replica := mkReplica { r_name : string; r_upstream : string; r_weight : Z }.

(* src: internal/routing/router.go modelEntry *)
Record modelEntry := mkEntry { typ : string; strategy : string; replicas : list replica }.
#[global] Instance replica_inhabited : Inhabited replica := populate (mkReplica "" "" 0).

(** ** Passive health *)

(* src: internal/routing/router.go hState *)
Record hState := mkHState { until : time; streak : Z }.
(** The [states] map of [health]; [base] and [max] are the constants. *)
(* src: internal/routing/router.go health *)
Record health := mkHealth { states : gmap string hState }.

(* src: internal/routing/router.go newHealth *)
Definition newHealth : health := mkHealth ∅.

(* src: internal/routing/router.go health.unavailable *)
Definition unavailable (h : health) (now : time) (name : string) : bool :=
  match states h !! name with Some s => After (until s) now | None => false end.

(* src: internal/routing/router.go health.recordFailure *)
Definition recordFailure (h : health) (now : time) (name : string) : health :=
  let s := default (mkHState zero_time 0) (states h !! name) in
  let n := streak s + 1 in
  let shift := Z.min (n - 1) healthShiftCap in
  let cooldown := Z.min (wrap64 (Z.shiftl healthBaseCooldown shift)) healthMaxCooldown in
  mkHealth (<[name := mkHState (time_add now cooldown) n]> (states h)).

(* src: internal/routing/router.go health.recordSuccess *)
Definition recordSuccess (h : health) (name : string) : health := mkHealth (delete name (states h)).

(** ** The router *)

(* src: internal/routing/router.go Router *)
Record Router := mkRouter {
  models : gmap string modelEntry;
  order : list string;
  r_health : health;
  rr : gmap string Z;             (* per-model round-robin counter, uint64 *)
  wrr : gmap string (list Z)      (* per-model smooth weighted round-robin *)
}.

Definition supportedStrategies (s : string) : bool := one_of SupportedStrategies s.
#[local] Arguments supportedStrategies : simpl never.

(** The replicas of one model, in the order of its references. *)
(* src: internal/routing/router.go 130-141 New *)
Fixpoint build_replicas (cfg : Config (F := F)) (name : string) (refs : list BackendRef)
  : result new_error (list replica) :=
  match refs with
  | [] => Ok []
  | ref :: refs =>
      match Backends cfg !! ref_Name ref with
      | None => Err (NEUnknownBackend name (ref_Name ref))
      | Some b =>
          if String.eqb (UpstreamModel b) "" then Err (NENoUpstream (ref_Name ref))
          else
            let w := Z.max (Weight ref) 1 in
            let? reps := build_replicas cfg name refs in
            Ok (mkReplica (ref_Name ref) (UpstreamModel b) w :: reps)
      end
  end.

Fixpoint build_models (cfg : Config (F := F)) (ms : list (string * Model)) (acc : gmap string modelEntry)
  : result new_error (gmap string modelEntry) :=
  match ms with
  | [] => Ok acc
  | (name, m) :: ms =>
      if bool_decide (m_Backends m = []) then Err (NENoBackends name)
      else if negb (supportedStrategies (Strategy m)) then Err (NEStrategy name (Strategy m))
      else
        let? reps := build_replicas cfg name (m_Backends m) in
        build_models cfg ms (<[name := mkEntry (m_Type m) (Strategy m) reps]> acc)
  end.

(* src: internal/routing/router.go New *)
Definition New (cfg : Config (F := F)) : result new_error Router :=
  if (size (c_Models cfg) =? 0)%nat then Err NENoModels
  else
    let? ms := build_models cfg (map_to_list (c_Models cfg)) ∅ in
    Ok (mkRouter ms (sorted_keys (c_Models cfg)) newHealth ∅ ∅).

(* src: internal/routing/router.go excluded *)
Definition excluded (exclude : list string) (name : string) : bool := existsb (String.eqb name) exclude.

(** The indices of the eligible replicas. *)
(* src: internal/routing/router.go 158-164 Router.Select *)
Definition candidates (r : Router) (now : time) (entry : modelEntry) (exclude : list string) : list nat :=
  List.filter (fun i => let rep := replicas entry !!! i in
                        negb (excluded exclude (r_name rep) || unavailable (r_health r) now (r_name rep)))
              (seq 0 (length (replicas entry))).

(* src: internal/routing/router.go score *)
Definition score (rep : replica) (inflight : string -> Z) : F :=
  f_div (f_of_Z (inflight (r_name rep) + 1)) (f_of_Z (r_weight rep)).

(** The first index of the ring starting at [start] that is a candidate. *)
Definition ring_pick (n start : nat) (cands : list nat) (dflt : nat) : nat :=
  match List.find (fun i => existsb (Nat.eqb i) cands) (map (fun k => (start + k) mod n)%nat (seq 0 n)) with
  | Some i => i
  | None => dflt
  end.

(** The loops "best = i if i is better than best" over the candidates. *)
Definition best_of (better : nat -> nat -> bool) (c0 : nat) (cs : list nat) : nat :=
  fold_left (fun best i => if better i best then i else best) cs c0.

Definition add64 (a b : Z) : Z := wrap64 (a + b).

(** One iteration of smooth weighted round-robin on the counters. *)
(* src: internal/routing/router.go Router.nextWRR *)
Definition nextWRR (current : option (list Z)) (entry : modelEntry) (cands : list nat) : list Z * nat :=
  let zeros := replicate (length (replicas entry)) 0 in
  let current := match current with None => zeros | Some c => c end in
  let current := if (length current =? length (replicas entry))%nat then current else zeros in
  let weight i := r_weight (replicas entry !!! i) in
  let current := fold_left (fun cur i => <[i := add64 (cur !!! i) (weight i)]> cur) cands current in
  let total := fold_left (fun t i => add64 t (weight i)) cands 0 in
  match cands with
  | [] => (current, 0%nat)
  | c0 :: cs =>
      let best := best_of (fun i best => (current !!! best) <? (current !!! i)) c0 cs in
      (<[best := add64 (current !!! best) (- total)]> current, best)
  end.

Definition with_rr (r : Router) (m : string) (n : Z) : Router :=
  mkRouter (models r) (order r) (r_health r) (<[m := n]> (rr r)) (wrr r).
Definition with_wrr (r : Router) (m : string) (c : list Z) : Router :=
  mkRouter (models r) (order r) (r_health r) (rr r) (<[m := c]> (wrr r)).
Definition with_health (r : Router) (h : health) : Router :=
  mkRouter (models r) (order r) h (rr r) (wrr r).

(** The strategy switch: the new router and the chosen index. *)
(* src: internal/routing/router.go 169-225 Router.Select *)
Definition pick_index (r : Router) (inflight : string -> Z) (publicModel : string) (entry : modelEntry)
    (c0 : nat) (cs : list nat) : Router * result route_error nat :=
  let cands := c0 :: cs in
  let load i := inflight (r_name (replicas entry !!! i)) in
  if String.eqb (strategy entry) "single" then (r, Ok c0)
  else if String.eqb (strategy entry) "round-robin" then
    let c := wrapu64 (default 0 (rr r !! publicModel) + 1) in
    let n := wrapu64 (c - 1) in
    let start := Z.to_nat (n mod Z.of_nat (length (replicas entry))) in
    (with_rr r publicModel c, Ok (ring_pick (length (replicas entry)) start cands c0))
  else if String.eqb (strategy entry) "weighted-round-robin" then
    let '(current, best) := nextWRR (wrr r !! publicModel) entry cands in
    (with_wrr r publicModel current, Ok best)
  else if String.eqb (strategy entry) "least-inflight" then
    (r, Ok (best_of (fun i best => load i <? load best) c0 cs))
  else if String.eqb (strategy entry) "weighted-least-inflight" then
    (r, Ok (best_of (fun i best => f_ltb (score (replicas entry !!! i) inflight)
                                         (score (replicas entry !!! best) inflight)) c0 cs))
  else (r, Err (ErrUnimplementedStrategy (strategy entry))).

(* src: internal/routing/router.go Router.Select *)
Definition Select (r : Router) (now : time) (inflight : string -> Z) (publicModel : string) (exclude : list string)
  : Router * result route_error Target :=
  match models r !! publicModel with
  | None => (r, Err ErrUnknownModel)
  | Some entry =>
      match candidates r now entry exclude with
      | [] => (r, Err ErrNoEligibleBackend)
      | c0 :: cs =>
          let '(r, pick) := pick_index r inflight publicModel entry c0 cs in
          (r, let? i := pick in
              let rep := replicas entry !!! i in
              Ok (mkTarget publicModel (r_name rep) (r_upstream rep) (typ entry)))
      end
  end.

(* src: internal/routing/router.go Router.Has *)
Definition Has (r : Router) (publicModel : string) : bool := bool_decide (is_Some (models r !! publicModel)).

(* src: internal/routing/router.go Router.List *)
Definition List_models (r : Router) : list string := order r.

(* src: internal/routing/router.go Router.TypeOf *)
Definition TypeOf (r : Router) (publicModel : string) : string :=
  match models r !! publicModel with Some e => typ e | None => "" end.

(* src: internal/routing/router.go Router.UpstreamFor *)
Definition UpstreamFor (r : Router) (backendName : string) : option string :=
  head (flat_map (fun name =>
    match models r !! name with
    | Some e => map r_upstream (List.filter (fun rep => String.eqb (r_name rep) backendName) (replicas e))
    | None => []
    end) (order r)).

(* src: internal/routing/router.go Router.RecordFailure *)
Definition RecordFailure (r : Router) (now : time) (backendName : string) : Router :=
  with_health r (recordFailure (r_health r) now backendName).

(* src: internal/routing/router.go Router.RecordSuccess *)
Definition RecordSuccess (r : Router) (backendName : string) : Router :=
  with_health r (recordSuccess (r_health r) backendName).


(** ** The choice among candidates *)

Lemma best_of_in better c0 cs : best_of better c0 cs ∈ c0 :: cs.
Proof.
  unfold best_of. revert c0. induction cs as [|c cs IH]; intros c0; cbn; [by left|].
  specialize (IH (if better c c0 then c else c0)). destruct (better c c0); set_solver.
Qed.

(** With a strict order the loop returns a minimum. *)
Lemma best_of_least (lt : nat -> nat -> bool) c0 cs :
  (forall a b c, lt b a = false -> lt c b = false -> lt c a = false) -> (forall a, lt a a = false) ->
  (forall a b, lt a b = true -> lt b a = false) ->
  Forall (fun i => lt i (best_of lt c0 cs) = false) (c0 :: cs).
Proof.
  intros Htr Hirr Has. unfold best_of. revert c0. induction cs as [|c cs IH]; intros c0; cbn; [by constructor|].
  specialize (IH (if lt c c0 then c else c0)). inversion IH as [|? ? H0 Hcs]; subst.
  destruct (lt c c0) eqn:E; constructor; auto; [|constructor; auto]. 
  all: eapply Htr; [exact H0|]; auto.
Qed.

Lemma ring_covers (n start i : nat) : (i < n)%nat -> (start < n)%nat ->
  exists k, (k < n)%nat /\ ((start + k) mod n)%nat = i.
Proof.
  intros Hi Hs. destruct (le_lt_dec start i).
  - exists (i - start)%nat. split; [lia|]. replace (start + (i - start))%nat with i by lia. by apply Nat.mod_small.
  - exists (i + n - start)%nat. split; [lia|]. replace (start + (i + n - start))%nat with (i + 1 * n)%nat by lia.
    rewrite Nat.Div0.mod_add. by apply Nat.mod_small.
Qed.

Lemma existsb_eqb_elem i (l : list nat) : existsb (Nat.eqb i) l = true <-> i ∈ l.
Proof.
  rewrite existsb_exists. setoid_rewrite <- list_elem_of_In. split.
  - by intros (x & Hin & ->%Nat.eqb_eq).
  - intros Hin. exists i. split; [done|apply Nat.eqb_refl].
Qed.

(** The ring search finds the first candidate at or after [start]. *)
Lemma ring_pick_first n start cands d :
  (start < n)%nat -> cands <> [] -> Forall (fun i => (i < n)%nat) cands ->
  exists k, (k < n)%nat /\ ring_pick n start cands d = ((start + k) mod n)%nat
    /\ ring_pick n start cands d ∈ cands
    /\ forall j, (j < k)%nat -> ((start + j) mod n)%nat ∉ cands.
Proof.
  intros Hs Hne Hlt. unfold ring_pick.
  assert (Hgen : forall m s, (exists k, (s <= k < s + m)%nat /\ ((start + k) mod n)%nat ∈ cands) ->
    exists k, (s <= k < s + m)%nat
      /\ List.find (fun i => existsb (Nat.eqb i) cands) (map (fun k => (start + k) mod n)%nat (seq s m)) = Some ((start + k) mod n)%nat
      /\ ((start + k) mod n)%nat ∈ cands /\ forall j, (s <= j < k)%nat -> ((start + j) mod n)%nat ∉ cands).
  { induction m as [|m IH]; intros s (k & Hk & Hin); [lia|]. cbn.
    destruct (existsb (Nat.eqb ((start + s) mod n)) cands) eqn:E.
    - exists s. apply existsb_eqb_elem in E. split_and!; [lia..|done|done|]. intros j Hj. lia.
    - assert (((start + s) mod n)%nat ∉ cands) as Hns by (rewrite <- existsb_eqb_elem; by rewrite E).
      assert (k <> s) by (intros ->; done).
      destruct (IH (S s)) as (k' & Hk' & Hf & Hin' & Hfirst); [exists k; split; [lia|done]|].
      exists k'. split_and!; [lia..|done|done|]. intros j Hj.
      destruct (decide (j = s)) as [->|]; [done|]. apply Hfirst. lia. }
  destruct cands as [|c0 cs]; [done|]. inversion Hlt as [|? ? Hc0 _]; subst.
  destruct (ring_covers n start c0 Hc0 Hs) as (k0 & Hk0 & Heq).
  destruct (Hgen n 0%nat) as (k & Hk & -> & Hin & Hfirst).
  { exists k0. rewrite Heq. split; [lia|by left]. }
  exists k. split_and!; [lia|done|done|]. intros j Hj. apply Hfirst. lia.
Qed.

(** ** Routers built from valid configurations *)

Record entry_wf (e : modelEntry) : Prop := {
  ew_replicas : replicas e <> [];
  ew_strategy : strategy e ∈ SupportedStrategies;
  ew_weights : Forall (fun rep => 1 <= r_weight rep) (replicas e);
  ew_names : NoDup (map r_name (replicas e))
}.
Definition router_wf (r : Router) : Prop := forall m e, models r !! m = Some e -> entry_wf e.

Definition replica_of (cfg : Config (F := F)) (ref : BackendRef) : replica :=
  mkReplica (ref_Name ref) (match Backends cfg !! ref_Name ref with Some b => UpstreamModel b | None => "" end)
    (Z.max (Weight ref) 1).
Definition entry_of (cfg : Config (F := F)) (m : Model) : modelEntry :=
  mkEntry (m_Type m) (Strategy m) (map (replica_of cfg) (m_Backends m)).

Lemma build_replicas_ok cfg name refs :
  Forall (fun ref => exists b, Backends cfg !! ref_Name ref = Some b /\ UpstreamModel b <> "") refs ->
  build_replicas cfg name refs = Ok (map (replica_of cfg) refs).
Proof.
  induction 1 as [|ref refs (b & Hb & Hu) _ IH]; cbn; [done|].
  unfold replica_of at 1. rewrite Hb. apply String.eqb_neq in Hu. by rewrite Hu, IH.
Qed.

Lemma build_models_ok cfg ms acc :
  Forall (fun nm => m_Backends nm.2 <> [] /\ Strategy nm.2 ∈ SupportedStrategies
    /\ Forall (fun ref => exists b, Backends cfg !! ref_Name ref = Some b /\ UpstreamModel b <> "") (m_Backends nm.2)) ms ->
  NoDup ms.*1 -> (forall nm, nm ∈ ms.*1 -> acc !! nm = None) ->
  exists res, build_models cfg ms acc = Ok res
    /\ forall n, res !! n = match (list_to_map ms : gmap string Model) !! n with
                            | Some m => Some (entry_of cfg m) | None => acc !! n end.
Proof.
  revert acc. induction ms as [|[n m] ms IH]; intros acc Hall Hnd Hfr; cbn.
  { exists acc. split; [done|]. intros k. by rewrite lookup_empty. }
  inversion Hall as [|? ? (Hne & Hst & Hrefs) Hall']; subst. cbn in *.
  apply NoDup_cons in Hnd as [Hni Hnd].
  rewrite bool_decide_false by done. unfold supportedStrategies. rewrite (proj2 (one_of_elem _ _)) by done. cbn.
  rewrite build_replicas_ok by done.
  destruct (IH (<[n := entry_of cfg m]> acc)) as (res & Hres & Hl); [done|done| |].
  { intros nm Hin. rewrite lookup_insert_ne; [set_solver|]. intros ->. done. }
  exists res. split; [done|]. intros k. rewrite Hl.
  destruct (decide (n = k)) as [<-|Hne'].
  - rewrite !lookup_insert_eq. by rewrite (not_elem_of_list_to_map_1 ms n Hni).
  - by rewrite !lookup_insert_ne.
Qed.

Lemma New_ok url_parse cfg : config_ok url_parse cfg ->
  exists r, New cfg = Ok r /\ router_wf r
    /\ (forall m, models r !! m = entry_of cfg <$> c_Models cfg !! m)
    /\ r_health r = newHealth /\ rr r = ∅ /\ wrr r = ∅.
Proof.
  intros Hok. destruct (co_models _ _ Hok) as [Hne Hm]. destruct (co_backends _ _ Hok) as [_ Hb].
  unfold New. rewrite (proj2 (Nat.eqb_neq _ _)) by (by rewrite map_size_empty_iff).
  destruct (build_models_ok cfg (map_to_list (c_Models cfg)) ∅) as (res & Hres & Hl).
  - apply Forall_forall. intros [n m] Hin%elem_of_map_to_list. destruct (Hm _ _ Hin) as [_ _ Hst _ Hnb Hk _ _].
    split_and!; try done. eapply Forall_impl; [exact Hk|]. cbn. intros ref (_ & [b Hb'] & _).
    exists b. split; [done|]. by destruct (Hb _ _ Hb').
  - apply NoDup_fst_map_to_list.
  - intros. apply lookup_empty.
  - rewrite Hres. eexists. split; [done|]. cbn [models r_health rr wrr].
    assert (Hmods : forall m, res !! m = entry_of cfg <$> c_Models cfg !! m).
    { intros m. rewrite Hl, list_to_map_to_list, lookup_empty. by destruct (c_Models cfg !! m). }
    split; [|done]. intros m e. cbn. rewrite Hmods, fmap_Some. intros (x & Hx & ->).
    destruct (Hm _ _ Hx) as [_ _ Hst _ Hnb Hk Hnd _]. split; cbn; try done.
    + intros Hn. apply Hnb. by destruct (m_Backends x).
    + apply Forall_map, Forall_forall. intros ref _. cbn. lia.
    + by rewrite map_map.
Qed.

(** ** Selection *)

Definition eligible (r : Router) (now : time) (exclude : list string) (rep : replica) : Prop :=
  (r_name rep ∉ exclude) /\ unavailable (r_health r) now (r_name rep) = false.

Lemma excluded_elem exclude name : excluded exclude name = true <-> name ∈ exclude.
Proof.
  unfold excluded. rewrite existsb_exists. setoid_rewrite <- list_elem_of_In. split.
  - by intros (x & Hin & ->%String.eqb_eq).
  - intros Hin. exists name. split; [done|apply String.eqb_refl].
Qed.

Lemma candidates_elem r now entry exclude i :
  i ∈ candidates r now entry exclude <->
  (i < length (replicas entry))%nat /\ eligible r now exclude (replicas entry !!! i).
Proof.
  unfold candidates, eligible. rewrite list_elem_of_In, filter_In, in_seq, negb_true_iff, orb_false_iff.
  rewrite <- not_true_iff_false, excluded_elem. intuition lia.
Qed.

Lemma candidates_empty r now entry exclude :
  candidates r now entry exclude = [] <-> Forall (fun rep => ~ eligible r now exclude rep) (replicas entry).
Proof.
  rewrite Forall_lookup. split.
  - intros He i rep Hi Hel. assert (i ∈ candidates r now entry exclude) as Hin.
    { apply candidates_elem. split; [by eapply lookup_lt_Some|]. by rewrite (list_lookup_total_correct _ _ _ Hi). }
    rewrite He in Hin. by apply not_elem_of_nil in Hin.
  - intros Hall. destruct (candidates r now entry exclude) as [|c cs] eqn:E; [done|].
    assert (c ∈ candidates r now entry exclude) as (Hc & Hel)%candidates_elem by (rewrite E; by left).
    exfalso. destruct (lookup_lt_is_Some_2 _ _ Hc) as [rep Hrep]. apply (Hall _ _ Hrep).
    by rewrite <- (list_lookup_total_correct _ _ _ Hrep).
Qed.

Lemma nextWRR_best cur entry c0 cs : (nextWRR cur entry (c0 :: cs)).2 ∈ c0 :: cs.
Proof. unfold nextWRR. cbn [snd]. apply best_of_in. Qed.

Lemma pick_index_candidate r inflight m entry c0 cs now exclude :
  entry_wf entry -> candidates r now entry exclude = c0 :: cs ->
  exists r' i, pick_index r inflight m entry c0 cs = (r', Ok i) /\ i ∈ c0 :: cs
    /\ models r' = models r /\ order r' = order r /\ r_health r' = r_health r.
Proof.
  intros [Hne Hst _ _] Hc. unfold pick_index.
  assert (Hlt : Forall (fun i => (i < length (replicas entry))%nat) (c0 :: cs)).
  { rewrite <- Hc. apply Forall_forall. intros i Hi. by apply candidates_elem in Hi as [? _]. }
  destruct (String.eqb_spec (strategy entry) "single"); [eexists _, _; split; [done|]; split; [by left|done]|].
  destruct (String.eqb_spec (strategy entry) "round-robin").
  { eexists _, _. split; [done|]. split; [|done].
    assert (0 < length (replicas entry))%nat by (destruct (replicas entry); [done|cbn; lia]).
    edestruct (ring_pick_first (length (replicas entry))
      (Z.to_nat (wrapu64 (wrapu64 (default 0 (rr r !! m) + 1) - 1) mod Z.of_nat (length (replicas entry)))) (c0 :: cs) c0)
      as (k & _ & _ & Hin & _); try done.
    pose proof (Z.mod_pos_bound (wrapu64 (wrapu64 (default 0 (rr r !! m) + 1) - 1)) (Z.of_nat (length (replicas entry)))). lia. }
  destruct (String.eqb_spec (strategy entry) "weighted-round-robin").
  { pose proof (nextWRR_best (wrr r !! m) entry c0 cs) as Hb. destruct (nextWRR _ _ _) as [cur best].
    eexists _, _. split; [done|]. by split. }
  destruct (String.eqb_spec (strategy entry) "least-inflight"); [eexists _, _; split; [done|]; split; [apply best_of_in|done]|].
  destruct (String.eqb_spec (strategy entry) "weighted-least-inflight"); [eexists _, _; split; [done|]; split; [apply best_of_in|done]|].
  exfalso. unfold SupportedStrategies in Hst. rewrite !elem_of_cons, elem_of_nil in Hst. tauto.
Qed.
End Routing.

(** ** Reachable routers *)

Section Reachable.
Context {F : Type} `{Float64 F}.
Variable url_parse : string -> option URL.

Inductive rstep : Router -> Router -> Prop :=
| rs_select r now inflight m exclude : rstep r (Select (F := F) r now inflight m exclude).1
| rs_failure r now name : rstep r (RecordFailure r now name)
| rs_success r name : rstep r (RecordSuccess r name).

Lemma pick_index_models r inflight m entry c0 cs :
  models (pick_index (F := F) r inflight m entry c0 cs).1 = models r.
Proof. unfold pick_index. by repeat case_match. Qed.

Lemma rstep_models r r' : rstep r r' -> models r' = models r.
Proof.
  destruct 1; [|done|done]. unfold Select. destruct (models r !! m) as [e|]; [|done].
  destruct (candidates r now e exclude) as [|c0 cs]; [done|].
  pose proof (pick_index_models r inflight m e c0 cs) as Hm. by destruct (pick_index _ _ _ _ _ _).
Qed.

Lemma rsteps_models r r' : rtc rstep r r' -> models r' = models r.
Proof. induction 1 as [|r1 r2 r3 Hs _ IH]; [done|]. rewrite IH. by apply rstep_models. Qed.

(** C28: Selection is sound and complete.  On a router built from an accepted
    configuration, after any history of selections and health reports, an
    attempt is routed to a backend that the operator listed for the model,
    with that backend's upstream name, that the caller has not excluded and
    that is not in cooldown; it fails as unknown exactly for unconfigured
    models, and as not eligible exactly when every listed backend is
    excluded or cooling down.  The unimplemented-strategy branch is
    unreachable. *)
Theorem Select_sound_complete cfg r0 r now inflight m exclude :
  config_ok url_parse cfg -> New cfg = Ok r0 -> rtc rstep r0 r ->
  let bad ref := ref_Name ref ∈ exclude \/ unavailable (r_health r) now (ref_Name ref) = true in
  match (Select (F := F) r now inflight m exclude).2 with
  | Err ErrUnknownModel => c_Models cfg !! m = None
  | Err ErrNoEligibleBackend => exists md, c_Models cfg !! m = Some md /\ Forall bad (m_Backends md)
  | Err (ErrUnimplementedStrategy _) => False
  | Ok t => exists md ref b, c_Models cfg !! m = Some md /\ ref ∈ m_Backends md /\ ~ bad ref
      /\ Backends cfg !! ref_Name ref = Some b
      /\ t = mkTarget m (ref_Name ref) (UpstreamModel b) (m_Type md)
  end.
Proof.
  intros Hok HN Hr bad. destruct (New_ok _ _ Hok) as (r0' & HN' & Hwf & Hmods & _).
  rewrite HN in HN'. injection HN' as <-. apply rsteps_models in Hr.
  unfold Select. rewrite Hr, Hmods. destruct (c_Models cfg !! m) as [md|] eqn:Emd; [|done]. cbn [fmap option_fmap option_map].
  destruct (candidates r now (entry_of cfg md) exclude) as [|c0 cs] eqn:Ec.
  - exists md. split; [done|]. apply candidates_empty in Ec. cbn in Ec. rewrite Forall_map in Ec.
    eapply Forall_impl; [exact Ec|]. intros ref Hn. unfold bad, eligible in *. cbn in Hn.
    destruct (decide (ref_Name ref ∈ exclude)); [by left|right].
    destruct (unavailable _ _ _) eqn:E; [done|]. exfalso. auto.
  - destruct (pick_index_candidate r inflight m (entry_of cfg md) c0 cs now exclude) as (r' & i & -> & Hin & _).
    { apply (Hwf m). by rewrite Hmods, Emd. } { done. }
    rewrite <- Ec in Hin. apply candidates_elem in Hin as [Hlt Hel]. cbn in Hlt, Hel |- *. rewrite length_map in Hlt.
    destruct (lookup_lt_is_Some_2 _ _ Hlt) as [ref Href].
    assert (Hrep : map (replica_of cfg) (m_Backends md) !!! i = replica_of cfg ref).
    { apply list_lookup_total_correct. rewrite list_lookup_fmap. by rewrite Href. }
    rewrite Hrep in *. unfold eligible in Hel. cbn in Hel.
    destruct (co_models _ _ Hok) as [_ Hm]. pose proof (mk_known _ _ _ (Hm _ _ Emd)) as Hk.
    assert (ref ∈ m_Backends md) as Hin by (by eapply list_elem_of_lookup_2).
    rewrite Forall_forall in Hk. destruct (Hk _ Hin) as (_ & [b Hb] & _).
    exists md, ref, b. cbn. rewrite Hb. split_and!; try done. unfold bad. intros [?|?]; [tauto|].
    destruct Hel as [_ Hel]. congruence.
Qed.
End Reachable.

(** ** Passive health *)

(** [n] consecutive failures of [name]; the last at time [now]. *)
Fixpoint failures (h : health) (name : string) (times : list time) : health :=
  match times with [] => h | t :: ts => failures (recordFailure h t name) name ts end.

Definition cooldown (n : Z) : duration := Z.min (5 * Second * 2 ^ (n - 1)) Minute.

Lemma cooldown_shift n : 1 <= n ->
  Z.min (wrap64 (Z.shiftl healthBaseCooldown (Z.min (n - 1) healthShiftCap))) healthMaxCooldown = cooldown n.
Proof.
  intros Hn. unfold cooldown, healthBaseCooldown, healthMaxCooldown, healthShiftCap, Minute, Second.
  rewrite Z.shiftl_mul_pow2 by lia. destruct (Z.le_gt_cases (n - 1) 16) as [Hle|Hgt].
  - rewrite (Z.min_l (n - 1) 16) by lia. rewrite wrap64_id; [done|].
    pose proof (Z.pow_le_mono_r 2 (n - 1) 16 ltac:(lia) ltac:(lia)). change (2 ^ 16) with 65536 in *.
    pose proof (Z.pow_nonneg 2 (n - 1) ltac:(lia)). int64_unfold. lia.
  - rewrite (Z.min_r (n - 1) 16) by lia. rewrite wrap64_id by (int64_unfold; cbn; lia).
    pose proof (Z.pow_le_mono_r 2 16 (n - 1) ltac:(lia) ltac:(lia)). change (2 ^ 16) with 65536 in *. lia.
Qed.

Lemma failures_state h name ts : ts <> [] ->
  (match states h !! name with Some s => 0 <= streak s | None => True end) ->
  exists t, List.last ts 0 = t /\
  states (failures h name ts) !! name =
    Some (mkHState (t + cooldown (default 0 (streak <$> states h !! name) + Z.of_nat (length ts)))
                   (default 0 (streak <$> states h !! name) + Z.of_nat (length ts))).
Proof.
  revert h. induction ts as [|t ts IH]; intros h Hne Hs; [done|]. cbn [failures].
  set (n := default 0 (streak <$> states h !! name)).
  assert (Hn : 0 <= n) by (unfold n; destruct (states h !! name); cbn; lia).
  assert (Hr : states (recordFailure h t name) !! name = Some (mkHState (t + cooldown (n + 1)) (n + 1))).
  { unfold recordFailure. cbn [states]. rewrite lookup_insert_eq. unfold time_add, n.
    destruct (states h !! name) as [s|]; cbn [default fmap option_fmap option_map streak id]; rewrite cooldown_shift by (cbn in *; lia); done. }
  destruct ts as [|t' ts].
  - cbn [failures]. rewrite Hr. exists t. cbn. split; [done|]. by rewrite Z.add_1_r.
  - destruct (IH (recordFailure h t name)) as (t0 & Hl & Hst); [done|by rewrite Hr; cbn; lia|].
    exists t0. split; [done|]. rewrite Hst, Hr. cbn [fmap option_fmap option_map streak default id length].
    do 2 f_equal; [do 2 f_equal|]; lia.
Qed.

(** Passive health.  After [n] consecutive connection failures of a
    backend (and none before), the backend is unavailable exactly for the
    [min (5s * 2^(n-1)) 60s] following the last one; a success makes it
    available at once and forgets the streak. *)
Theorem cooldown_exact h name ts now :
  states h !! name = None -> ts <> [] ->
  unavailable (failures h name ts) now name =
    (now <? List.last ts 0 + cooldown (Z.of_nat (length ts)))
  /\ unavailable (recordSuccess (failures h name ts) name) now name = false
  /\ states (recordSuccess (failures h name ts) name) !! name = None.
Proof.
  intros Hh Hne. destruct (failures_state h name ts Hne) as (t & Hl & Hst); [by rewrite Hh|].
  unfold unavailable, recordSuccess, After. cbn [states]. rewrite Hst, lookup_delete_eq, Hh. subst t. done.
Qed.

(** ** Smooth weighted round-robin is fair *)

Lemma nextWRR_unfold cur entry cands c0 cs :
  cands = c0 :: cs -> length cur = length (replicas entry) ->
  nextWRR (Some cur) entry cands =
  let cur1 := fold_left (fun cur i => <[i := add64 (cur !!! i) (r_weight (replicas entry !!! i))]> cur) cands cur in
  let total := fold_left (fun t i => add64 t (r_weight (replicas entry !!! i))) cands 0 in
  let best := best_of (fun i best => (cur1 !!! best) <? (cur1 !!! i)) c0 cs in
  (<[best := add64 (cur1 !!! best) (- total)]> cur1, best).
Proof. intros -> Hlen. unfold nextWRR. by rewrite Hlen, Nat.eqb_refl. Qed.

Lemma nonempty_cons {A} (l : list A) : l <> [] -> exists x l', l = x :: l'.
Proof. destruct l; eauto; done. Qed.

Section WRR.
Variable entry : modelEntry.
Variable cands : list nat.
Let n := length (replicas entry).
Let w (i : nat) : Z := r_weight (replicas entry !!! i).
Let W : Z := zsum (map w cands).

Hypothesis cands_nodup : NoDup cands.
Hypothesis cands_range : Forall (fun i => (i < n)%nat) cands.
Hypothesis cands_nonempty : cands <> [].
Hypothesis weights_pos : Forall (fun i => 1 <= w i) cands.
Hypothesis no_overflow : (Z.of_nat (length cands) + 1) * W <= MaxInt64.

(** [k] successive picks from the counters [cur]. *)
Fixpoint wrr_run (k : nat) (cur : list Z) : list Z * list nat :=
  match k with
  | O => (cur, [])
  | S k =>
      let '(cur, best) := nextWRR (Some cur) entry cands in
      let '(cur, picks) := wrr_run k cur in
      (cur, best :: picks)
  end.

Definition picked (i : nat) (picks : list nat) : Z := Z.of_nat (count (Nat.eqb i) picks).

Lemma zsum_map_ext {A} (f g : A -> Z) l : (forall x, x ∈ l -> f x = g x) -> zsum (map f l) = zsum (map g l).
Proof.
  induction l as [|a l IH]; intros Hfg; [done|]. cbn. rewrite !zsum_cons, (Hfg a), IH; [done| |by left].
  intros x Hx. apply Hfg. by right.
Qed.
Lemma zsum_map_add {A} (f g : A -> Z) l : zsum (map (fun x => f x + g x) l) = zsum (map f l) + zsum (map g l).
Proof. induction l as [|a l IH]; cbn; rewrite ?zsum_cons; [done|lia]. Qed.
Lemma zsum_map_scale {A} c (f : A -> Z) l : zsum (map (fun x => c * f x) l) = c * zsum (map f l).
Proof. induction l as [|a l IH]; cbn; rewrite ?zsum_nil, ?zsum_cons; lia. Qed.
Lemma zsum_map_le {A} (f g : A -> Z) l : (forall x, x ∈ l -> f x <= g x) -> zsum (map f l) <= zsum (map g l).
Proof.
  induction l as [|a l IH]; intros Hfg; [done|]. cbn. rewrite !zsum_cons.
  specialize (Hfg a ltac:(by left)) as Ha. specialize (IH (fun x Hx => Hfg x (list_elem_of_further _ _ _ Hx))). lia.
Qed.
Lemma zsum_const {A} (c : Z) (l : list A) : zsum (map (fun _ => c) l) = c * Z.of_nat (length l).
Proof. induction l as [|a l IH]; cbn; rewrite ?zsum_nil, ?zsum_cons; [lia|]. rewrite IH. lia. Qed.
Lemma zsum_map_single (b : nat) c (l : list nat) : NoDup l -> b ∈ l ->
  zsum (map (fun i => if Nat.eqb i b then c else 0) l) = c.
Proof.
  induction l as [|a l IH]; intros Hnd Hin; [by apply not_elem_of_nil in Hin|].
  apply NoDup_cons in Hnd as [Hni Hnd]. cbn. rewrite zsum_cons.
  destruct (Nat.eqb_spec a b) as [->|Hne].
  - rewrite (zsum_map_ext _ (fun _ => 0)), zsum_const; [lia|]. intros x Hx.
    destruct (Nat.eqb_spec x b) as [->|]; done.
  - rewrite IH; [lia|done|]. apply elem_of_cons in Hin as [->|?]; done.
Qed.

Lemma W_bounds : 1 <= W /\ forall i, i ∈ cands -> 1 <= w i <= W.
Proof.
  rewrite Forall_forall in weights_pos.
  assert (Hle : forall i l, i ∈ l -> (forall j, j ∈ l -> 1 <= w j) -> w i <= zsum (map w l)).
  { intros i l. induction l as [|a l IH]; intros Hin Hall; [by apply not_elem_of_nil in Hin|]. cbn. rewrite zsum_cons.
    assert (0 <= zsum (map w l)).
    { apply zsum_nonneg, Forall_map, Forall_forall. intros x Hx. cbn. specialize (Hall x (list_elem_of_further _ _ _ Hx)). lia. }
    apply elem_of_cons in Hin as [->|Hin]; [lia|].
    specialize (IH Hin (fun j Hj => Hall j (list_elem_of_further _ _ _ Hj))).
    specialize (Hall a ltac:(by left)). lia. }
  destruct (nonempty_cons cands cands_nonempty) as (c0 & cs & Ec).
  assert (c0 ∈ cands) as Hc0 by (rewrite Ec; by left). split.
  - specialize (Hle c0 cands Hc0 weights_pos). specialize (weights_pos c0 Hc0). unfold W. lia.
  - intros i Hi. split; [auto|]. unfold W. auto.
Qed.

Lemma add_weights cur l : NoDup l -> Forall (fun i => (i < length cur)%nat) l ->
  let cur' := fold_left (fun cur i => <[i := add64 (cur !!! i) (w i)]> cur) l cur in
  length cur' = length cur
  /\ forall i, cur' !!! i = if bool_decide (i ∈ l) then add64 (cur !!! i) (w i) else cur !!! i.
Proof.
  revert cur. induction l as [|a l IH]; intros cur Hnd Hlt; cbn; [done|].
  apply NoDup_cons in Hnd as [Hni Hnd]. apply Forall_cons in Hlt as [Ha Hlt].
  destruct (IH (<[a := add64 (cur !!! a) (w a)]> cur) Hnd) as [Hlen Hl].
  { by rewrite length_insert. }
  rewrite Hlen, length_insert. split; [done|]. intros i. rewrite Hl.
  destruct (decide (i = a)) as [->|Hne].
  - rewrite bool_decide_false, bool_decide_true by set_solver. by rewrite list_lookup_total_insert_eq.
  - rewrite list_lookup_total_insert_ne by done. repeat case_bool_decide; set_solver.
Qed.

Lemma total_weight l acc : (forall i, i ∈ l -> 1 <= w i) -> 0 <= acc -> acc + zsum (map w l) <= MaxInt64 ->
  fold_left (fun t i => add64 t (w i)) l acc = acc + zsum (map w l).
Proof.
  revert acc. induction l as [|a l IH]; intros acc Hw Hacc Hle; cbn; [rewrite zsum_nil; lia|].
  cbn in Hle. rewrite zsum_cons in *.
  assert (0 <= zsum (map w l)).
  { apply zsum_nonneg, Forall_map, Forall_forall. intros x Hx. specialize (Hw x (list_elem_of_further _ _ _ Hx)). cbn; lia. }
  specialize (Hw a ltac:(by left)) as Ha. unfold add64. rewrite wrap64_id by (int64_unfold; lia).
  rewrite IH; [lia|intros; apply Hw; by right|lia|lia].
Qed.

(** Counters after [t] picks in which each candidate was picked [cnt] times. *)
Record wrr_inv (t : Z) (cnt : nat -> Z) (cur : list Z) : Prop := {
  wv_len : length cur = n;
  wv_val : forall i, i ∈ cands -> cur !!! i = t * w i - W * cnt i;
  wv_low : forall i, i ∈ cands -> - W < cur !!! i;
  wv_sum : zsum (map (fun i => cur !!! i) cands) = 0;
  wv_other : forall i, (i < n)%nat -> i ∉ cands -> cur !!! i = 0
}.

Lemma wrr_high t cnt cur : wrr_inv t cnt cur ->
  forall i, i ∈ cands -> cur !!! i <= Z.of_nat (length cands) * W.
Proof.
  intros [_ _ Hlow Hsum _] i Hi. destruct W_bounds as [HW _].
  assert (zsum (map (fun j => (cur !!! j) - (if Nat.eqb j i then cur !!! i else 0)) cands) = - (cur !!! i)).
  { rewrite (zsum_map_ext _ (fun j => (cur !!! j) + (if Nat.eqb j i then - (cur !!! i) else 0)))
      by (intros j _; destruct (Nat.eqb j i); lia).
    rewrite zsum_map_add, Hsum, zsum_map_single by done. lia. }
  assert (zsum (map (fun _ => - W) cands) <= zsum (map (fun j => (cur !!! j) - (if Nat.eqb j i then cur !!! i else 0)) cands)).
  { apply zsum_map_le. intros j Hj. specialize (Hlow j Hj). destruct (Nat.eqb_spec j i) as [->|]; lia. }
  rewrite zsum_const in *. lia.
Qed.

Lemma best_max (cur : list Z) c0 cs :
  Forall (fun i => (cur !!! i) <= (cur !!! best_of (fun i best => (cur !!! best) <? (cur !!! i)) c0 cs)) (c0 :: cs).
Proof.
  eapply Forall_impl; [apply (best_of_least (fun i best => (cur !!! best) <? (cur !!! i)))|].
  - intros a b c H1 H2. apply Z.ltb_ge in H1, H2. apply Z.ltb_ge. lia.
  - intros a. apply Z.ltb_irrefl.
  - intros a b H1. apply Z.ltb_lt in H1. apply Z.ltb_ge. lia.
  - cbn. intros x Hx. by apply Z.ltb_ge in Hx.
Qed.

Lemma wrr_step t cnt cur : wrr_inv t cnt cur ->
  let '(cur', best) := nextWRR (Some cur) entry cands in
  best ∈ cands /\ wrr_inv (t + 1) (fun i => cnt i + (if Nat.eqb i best then 1 else 0)) cur'.
Proof.
  intros Hinv. pose proof Hinv as [Hlen Hval Hlow Hsum Hoth]. pose proof (wrr_high _ _ _ Hinv) as Hhigh.
  destruct W_bounds as [HW Hw]. pose proof (proj1 (Forall_forall _ _) cands_range) as Hrange.
  destruct (nonempty_cons cands cands_nonempty) as (c0 & cs & Ec).
  rewrite (nextWRR_unfold cur entry cands c0 cs Ec Hlen). cbv zeta. fold w.
  destruct (add_weights cur cands cands_nodup) as [Hlen1 Hcur1].
  { apply Forall_forall. rewrite Hlen. exact Hrange. }
  rewrite total_weight by (try (intros i Hi; apply Hw; done); fold W; nia). rewrite Z.add_0_l. fold W.
  set (cur1 := fold_left _ cands cur) in *. clearbody cur1.
  assert (Hc1 : forall i, i ∈ cands -> cur1 !!! i = (cur !!! i) + w i).
  { intros i Hi. rewrite Hcur1, bool_decide_true by done. unfold add64. apply wrap64_id.
    specialize (Hhigh i Hi). specialize (Hlow i Hi). specialize (Hw i Hi). int64_unfold. nia. }
  assert (Hsum1 : zsum (map (fun i => cur1 !!! i) cands) = W).
  { rewrite (zsum_map_ext _ (fun i => (cur !!! i) + w i)) by auto. rewrite zsum_map_add, Hsum. fold W. lia. }
  set (best := best_of _ c0 cs).
  assert (Hb : best ∈ cands) by (rewrite Ec; apply best_of_in).
  assert (Hmax : forall i, i ∈ cands -> cur1 !!! i <= cur1 !!! best).
  { pose proof (best_max cur1 c0 cs) as Hm. rewrite <- Ec, Forall_forall in Hm. exact Hm. }
  assert (Hpos : 0 < cur1 !!! best).
  { destruct (Z.lt_ge_cases 0 (cur1 !!! best)) as [|Hneg]; [done|exfalso].
    assert (zsum (map (fun i => cur1 !!! i) cands) <= zsum (map (fun _ => 0) cands)).
    { apply zsum_map_le. intros i Hi. specialize (Hmax i Hi). lia. }
    rewrite zsum_const in *. lia. }
  clearbody best.
  assert (Hbl : (best < length cur1)%nat) by (rewrite Hlen1, Hlen; auto).
  assert (Hsub : add64 (cur1 !!! best) (- W) = (cur1 !!! best) - W).
  { unfold add64. apply wrap64_id. specialize (Hhigh best Hb). specialize (Hw best Hb). rewrite (Hc1 best Hb) in *. int64_unfold. nia. }
  assert (Hcur2 : forall i, i ∈ cands -> <[best := add64 (cur1 !!! best) (- W)]> cur1 !!! i
      = (cur1 !!! i) + (if Nat.eqb i best then - W else 0)).
  { intros i Hi. destruct (Nat.eqb_spec i best) as [->|Hne].
    - rewrite list_lookup_total_insert_eq by done. lia.
    - rewrite list_lookup_total_insert_ne by done. lia. }
  split; [done|]. split.
  - by rewrite length_insert, Hlen1.
  - intros i Hi. rewrite Hcur2, Hc1, Hval by done. destruct (Nat.eqb i best); lia.
  - intros i Hi. rewrite Hcur2 by done. destruct (Nat.eqb_spec i best) as [->|]; [lia|].
    rewrite Hc1 by done. specialize (Hlow i Hi). specialize (Hw i Hi). lia.
  - rewrite (zsum_map_ext _ (fun i => (cur1 !!! i) + (if Nat.eqb i best then - W else 0))) by auto.
    rewrite zsum_map_add, Hsum1, zsum_map_single by done. lia.
  - intros i Hn Hi. rewrite list_lookup_total_insert_ne by (intros ->; done). rewrite Hcur1, bool_decide_false by done. auto.
Qed.

Lemma wrr_run_inv k t cnt cur : wrr_inv t cnt cur ->
  let '(cur', picks) := wrr_run k cur in
  wrr_inv (t + Z.of_nat k) (fun i => cnt i + picked i picks) cur'.
Proof.
  revert t cnt cur. induction k as [|k IH]; intros t cnt cur Hinv; cbn [wrr_run].
  { destruct Hinv as [? Hv ? ? ?]. split; try done. intros i Hi. rewrite (Hv i Hi). unfold picked, count. cbn. lia. }
  pose proof (wrr_step _ _ _ Hinv) as Hs. destruct (nextWRR _ _ _) as [cur1 best]. destruct Hs as [_ Hs].
  specialize (IH _ _ _ Hs). destruct (wrr_run k cur1) as [cur2 picks].
  destruct IH as [? Hv ? ? ?]. split; try done. intros i Hi. rewrite (Hv i Hi).
  unfold picked. rewrite count_cons. destruct (Nat.eqb i best); lia.
Qed.

Lemma wrr_zero : wrr_inv 0 (fun _ => 0) (replicate n 0).
Proof.
  destruct W_bounds as [HW _]. pose proof (proj1 (Forall_forall _ _) cands_range) as Hrange.
  assert (Hz : forall i, (i < n)%nat -> replicate n (0 : Z) !!! i = 0) by (intros; by apply lookup_total_replicate_2).
  split.
  - apply length_replicate.
  - intros i Hi. rewrite Hz by auto. lia.
  - intros i Hi. rewrite Hz by auto. lia.
  - rewrite (zsum_map_ext _ (fun _ => 0)) by auto. rewrite zsum_const. lia.
  - auto.
Qed.

Lemma wrr_period_picks cur picks : wrr_run (Z.to_nat W) (replicate n 0) = (cur, picks) ->
  (forall i, i ∈ cands -> picked i picks = w i) /\ cur = replicate n 0.
Proof.
  intros Hr. pose proof (wrr_run_inv (Z.to_nat W) _ _ _ wrr_zero) as Hi. rewrite Hr in Hi.
  destruct W_bounds as [HW _]. rewrite Z2Nat.id, Z.add_0_l in Hi by lia. destruct Hi as [Hlen Hval Hlow Hsum Hoth].
  assert (Hle : forall i, i ∈ cands -> picked i picks <= w i).
  { intros i Hi. specialize (Hlow i Hi). rewrite (Hval i Hi) in Hlow. nia. }
  assert (Hz : zsum (map (fun i => w i - picked i picks) cands) = 0).
  { rewrite (zsum_map_ext (fun i => cur !!! i) (fun i => W * (w i - picked i picks))) in Hsum
      by (intros i Hi; rewrite (Hval i Hi); lia). rewrite zsum_map_scale in Hsum. nia. }
  assert (Hall : forall l, (forall i, i ∈ l -> picked i picks <= w i) ->
    zsum (map (fun i => w i - picked i picks) l) = 0 -> forall i, i ∈ l -> picked i picks = w i).
  { clear. induction l as [|a l IH]; intros Hl Hz i Hi; [by apply not_elem_of_nil in Hi|].
    cbn in Hz. rewrite zsum_cons in Hz.
    assert (0 <= zsum (map (fun i => w i - picked i picks) l)).
    { apply zsum_nonneg, Forall_map, Forall_forall. intros x Hx. specialize (Hl x (list_elem_of_further _ _ _ Hx)). cbn. lia. }
    specialize (Hl a ltac:(by left)) as Ha.
    apply elem_of_cons in Hi as [->|Hi]; [lia|]. apply IH; auto; [|lia]. intros; apply Hl; by right. }
  specialize (Hall cands Hle Hz). split; [done|].
  apply list_eq. intros i. destruct (decide (i < n)%nat) as [Hi|Hi].
  - rewrite lookup_replicate_2 by done. rewrite list_lookup_alt. split; [lia|].
    destruct (decide (i ∈ cands)) as [Hin|Hin]; [|by apply Hoth]. rewrite (Hval i Hin), (Hall i Hin). lia.
  - rewrite !(proj2 (lookup_ge_None _ _)); [done| |]; rewrite ?length_replicate; lia.
Qed.
End WRR.

(** ** Fairness of successive selections *)

Section Fairness.
Context {F : Type} `{Float64 F}.

(** Successive first attempts for one model, at given times and loads. *)
Fixpoint select_seq (r : Router) (m : string) (calls : list (time * (string -> Z)))
  : Router * list (result route_error Target) :=
  match calls with
  | [] => (r, [])
  | (now, inflight) :: calls =>
      let '(r, res) := Select (F := F) r now inflight m [] in
      let '(r, rest) := select_seq r m calls in
      (r, res :: rest)
  end.

Definition chosen (backend : string) (res : list (result route_error Target)) : Z :=
  Z.of_nat (count (fun t => match t with Ok t => String.eqb (t_Backend t) backend | Err _ => false end) res).

(** No replica of the model has a health record. *)
Definition all_healthy (r : Router) (e : modelEntry) : Prop :=
  Forall (fun rep => states (r_health r) !! r_name rep = None) (replicas e).

Definition target_of (m : string) (e : modelEntry) (i : nat) : Target :=
  let rep := replicas e !!! i in mkTarget m (r_name rep) (r_upstream rep) (typ e).

Lemma candidates_all r e now : all_healthy r e -> candidates r now e [] = seq 0 (length (replicas e)).
Proof.
  intros Hh. unfold candidates. apply forallb_filter_id, forallb_forall. intros i Hi.
  apply in_seq in Hi. unfold all_healthy in Hh. rewrite Forall_lookup in Hh.
  destruct (lookup_lt_is_Some_2 (replicas e) i) as [rep Hrep]; [lia|].
  rewrite (list_lookup_total_correct _ _ _ Hrep). unfold unavailable. by rewrite (Hh _ _ Hrep).
Qed.

Lemma seq_cons_entry e : replicas e <> [] ->
  exists cs, seq 0 (length (replicas e)) = 0%nat :: cs.
Proof. intros Hne. destruct (replicas e) as [|x l]; [done|]. cbn. eauto. Qed.

(** *** Weighted round-robin *)

Lemma nextWRR_length e cands cur : length cur = length (replicas e) ->
  cands <> [] -> length (nextWRR (Some cur) e cands).1 = length (replicas e).
Proof.
  intros Hlen Hne. destruct (nonempty_cons cands Hne) as (c0 & cs & Ec).
  rewrite (nextWRR_unfold cur e cands c0 cs Ec Hlen). cbn [fst]. rewrite length_insert.
  clear Ec Hne. revert cur Hlen. induction cands as [|a l IH]; intros cur Hlen; cbn; [done|].
  apply IH. by rewrite length_insert.
Qed.

Lemma select_seq_wrr r m e calls cur :
  models r !! m = Some e -> strategy e = "weighted-round-robin" -> replicas e <> [] -> all_healthy r e ->
  length cur = length (replicas e) -> default (replicate (length (replicas e)) 0) (wrr r !! m) = cur ->
  (select_seq r m calls).2 =
  map (fun i => Ok (target_of m e i)) (wrr_run e (seq 0 (length (replicas e))) (length calls) cur).2.
Proof.
  intros Hm Hst Hne. revert r cur Hm. induction calls as [|[now inflight] calls IH]; intros r cur Hm Hh Hlen Hcur; [done|].
  destruct (seq_cons_entry e Hne) as [cs Hseq]. cbn [select_seq wrr_run length].
  unfold Select. rewrite Hm, candidates_all, Hseq by done. unfold pick_index. rewrite Hst. cbn [String.eqb Ascii.eqb Bool.eqb].
  rewrite <- Hseq.
  assert (nextWRR (wrr r !! m) e (seq 0 (length (replicas e))) = nextWRR (Some cur) e (seq 0 (length (replicas e)))) as ->.
  { rewrite <- Hcur. by destruct (wrr r !! m). }
  pose proof (nextWRR_length e (seq 0 (length (replicas e))) cur Hlen) as Hl.
  destruct (nextWRR (Some cur) e _) as [cur1 best] eqn:En. cbn [fst] in Hl.
  specialize (IH (with_wrr r m cur1) cur1 Hm Hh).
  destruct (select_seq (with_wrr r m cur1) m calls) as [r2 rest].
  destruct (wrr_run e _ (length calls) cur1) as [cur2 picks]. cbn in *. f_equal. apply IH.
  - apply Hl. by rewrite Hseq.
  - by rewrite lookup_insert_eq.
Qed.

Lemma target_name e m i j : NoDup (map r_name (replicas e)) ->
  (i < length (replicas e))%nat -> (j < length (replicas e))%nat ->
  String.eqb (t_Backend (target_of m e i)) (r_name (replicas e !!! j)) = Nat.eqb j i.
Proof.
  intros Hnd Hi Hj. unfold target_of. cbn. destruct (Nat.eqb_spec j i) as [->|Hne]; [apply String.eqb_refl|].
  apply String.eqb_neq. intros Heq. apply Hne.
  eapply (NoDup_lookup _ j i (r_name (replicas e !!! j)) Hnd).
  - by rewrite list_lookup_fmap, (list_lookup_lookup_total_lt _ _ Hj).
  - by rewrite list_lookup_fmap, (list_lookup_lookup_total_lt _ _ Hi), <- Heq.
Qed.

Lemma chosen_picked e m j picks : NoDup (map r_name (replicas e)) -> (j < length (replicas e))%nat ->
  Forall (fun i => (i < length (replicas e))%nat) picks ->
  chosen (r_name (replicas e !!! j)) (map (fun i => Ok (target_of m e i)) picks) = picked j picks.
Proof.
  intros Hnd Hj Hp. unfold chosen, picked. f_equal. induction Hp as [|i picks Hi _ IH]; [done|].
  cbn [map]. rewrite !count_cons, IH, target_name by done. done.
Qed.

Lemma wrr_run_range e cands k cur : Forall (fun i => (i < length (replicas e))%nat) cands -> cands <> [] ->
  Forall (fun i => (i < length (replicas e))%nat) (wrr_run e cands k cur).2.
Proof.
  intros Hc Hne. revert cur. induction k as [|k IH]; intros cur; cbn; [done|].
  destruct (nonempty_cons cands Hne) as (c0 & cs & Ec).
  pose proof (nextWRR_best (Some cur) e c0 cs) as Hb. rewrite <- Ec in Hb.
  destruct (nextWRR _ _ _) as [cur1 best]. specialize (IH cur1). destruct (wrr_run e cands k cur1) as [cur2 picks].
  cbn in *. constructor; [|done]. rewrite Forall_forall in Hc. auto.
Qed.

Lemma map_lookup_seq {A B} `{!Inhabited A} (f : A -> B) (l : list A) :
  map (fun i => f (l !!! i)) (seq 0 (length l)) = map f l.
Proof.
  apply list_eq. intros i. rewrite !list_lookup_fmap.
  destruct (decide (i < length l)%nat) as [Hi|Hi].
  - rewrite lookup_seq_lt by done. cbn. by rewrite (list_lookup_lookup_total_lt _ _ Hi).
  - rewrite lookup_seq_ge by lia. by rewrite (proj2 (lookup_ge_None _ _)) by lia.
Qed.

(** Weighted round-robin is exactly fair.  For a model with the
    weighted-round-robin strategy and healthy backends, starting from a
    fresh counter, out of as many successive first attempts as the weights
    sum to, each backend receives exactly as many as its weight, whatever
    the load and the times (the weights being far from overflowing). *)
Theorem wrr_fair r m e calls :
  models r !! m = Some e -> entry_wf e -> strategy e = "weighted-round-robin" -> all_healthy r e ->
  wrr r !! m = None ->
  let W := zsum (map r_weight (replicas e)) in
  (Z.of_nat (length (replicas e)) + 1) * W <= MaxInt64 -> Z.of_nat (length calls) = W ->
  Forall (fun rep => chosen (r_name rep) (select_seq r m calls).2 = r_weight rep) (replicas e).
Proof.
  intros Hm [Hne _ Hw Hnd] Hst Hh Hwrr W Hov Hlen. set (n := length (replicas e)) in *.
  rewrite (select_seq_wrr r m e calls (replicate n 0) Hm Hst Hne Hh (length_replicate _ _) ltac:(by rewrite Hwrr)). fold n.
  destruct (wrr_run e (seq 0 n) (length calls) (replicate n 0)) as [cur picks] eqn:Er.
  assert (HW : zsum (map (fun i => r_weight (replicas e !!! i)) (seq 0 n)) = W) by (unfold W, n; by rewrite map_lookup_seq).
  assert (Hseq : seq 0 n <> []) by (destruct (seq_cons_entry e Hne) as [cs Hcs]; fold n in Hcs; by rewrite Hcs).
  assert (Hr : Forall (fun i => (i < n)%nat) (seq 0 n)) by (apply Forall_forall; intros i Hi%elem_of_seq; lia).
  pose proof (wrr_run_range e (seq 0 n) (length calls) (replicate n 0) Hr Hseq) as Hp. rewrite Er in Hp.
  destruct (wrr_period_picks e (seq 0 n) (NoDup_seq 0 n) Hr Hseq) with (cur := cur) (picks := picks) as [Hpick _].
  - apply Forall_forall. intros i Hi%elem_of_seq. rewrite Forall_lookup in Hw.
    destruct (lookup_lt_is_Some_2 (replicas e) i) as [rep Hrep]; [fold n; lia|].
    rewrite (list_lookup_total_correct _ _ _ Hrep). by eapply Hw.
  - rewrite length_seq, HW. done.
  - rewrite HW, <- Hlen, Nat2Z.id. done.
  - apply Forall_lookup. intros j rep Hj. assert (Hlt : (j < length (replicas e))%nat) by (by eapply lookup_lt_Some).
    rewrite <- (list_lookup_total_correct _ _ _ Hj). cbn [snd]. rewrite (chosen_picked e m j picks Hnd Hlt Hp).
    apply Hpick, elem_of_seq. fold n in Hlt. lia.
Qed.

(** *** Round-robin *)

Lemma select_seq_rr r m e calls c :
  models r !! m = Some e -> strategy e = "round-robin" -> replicas e <> [] -> all_healthy r e ->
  default 0 (rr r !! m) = c -> 0 <= c -> c + Z.of_nat (length calls) < 2 ^ 64 ->
  (select_seq r m calls).2 =
  map (fun k => Ok (target_of m e ((Z.to_nat c + k) mod length (replicas e))%nat)) (seq 0 (length calls)).
Proof.
  intros Hm Hst Hne. revert r c Hm. induction calls as [|[now inflight] calls IH]; intros r c Hm Hh Hc H0 Hlt; [done|].
  destruct (seq_cons_entry e Hne) as [cs Hseq]. cbn [select_seq length seq map].
  set (n := length (replicas e)) in *. assert (0 < n)%nat by (unfold n; destruct (replicas e); [done|cbn; lia]).
  cbn [length] in Hlt. rewrite pow64_value in *.
  unfold Select. rewrite Hm, candidates_all by done. fold n. rewrite Hseq. unfold pick_index. rewrite Hst.
  cbn [String.eqb Ascii.eqb Bool.eqb]. rewrite Hc, <- Hseq. fold n.
  assert (Hcc : wrapu64 (c + 1) = c + 1) by (unfold wrapu64; rewrite pow64_value, Z.mod_small; lia).
  assert (Hc1 : wrapu64 (c + 1 - 1) = c) by (unfold wrapu64; rewrite pow64_value, Z.mod_small; lia).
  rewrite Hcc, Hc1.
  assert (Hpick : ring_pick n (Z.to_nat (c mod Z.of_nat n)) (seq 0 n) 0%nat = ((Z.to_nat c) mod n)%nat).
  { destruct (ring_pick_first n (Z.to_nat (c mod Z.of_nat n)) (seq 0 n) 0%nat) as (k & Hk & -> & _ & Hfirst).
    - pose proof (Z.mod_pos_bound c (Z.of_nat n)). lia.
    - by rewrite Hseq.
    - apply Forall_forall. intros i Hi%elem_of_seq. lia.
    - destruct k as [|k]; cycle 1.
      + exfalso. apply (Hfirst 0%nat); [lia|]. apply elem_of_seq.
        pose proof (Nat.mod_upper_bound (Z.to_nat (c mod Z.of_nat n) + 0) n). lia.
      + rewrite Nat.add_0_r, Z2Nat.inj_mod, Nat2Z.id by lia. apply Nat.Div0.mod_mod. }
  specialize (IH (with_rr r m (c + 1)) (c + 1) Hm Hh).
  destruct (select_seq (with_rr r m (c + 1)) m calls) as [r2 rest]. cbn [snd] in *. rewrite Hpick, Nat.add_0_r.
  f_equal. rewrite IH; [|cbn; by rewrite lookup_insert_eq|lia|lia].
  rewrite <- seq_shift, map_map. apply map_ext. intros k. do 3 f_equal. lia.
Qed.

Lemma ring_permutation c n : (0 < n)%nat -> map (fun k => (c + k) mod n)%nat (seq 0 n) ≡ₚ seq 0 n.
Proof.
  intros Hn. apply NoDup_Permutation.
  - apply NoDup_fmap_2_strong; [|apply NoDup_seq]. intros x y Hx%elem_of_seq Hy%elem_of_seq Heq.
    pose proof (Nat.div_mod_eq (c + x) n) as H1. pose proof (Nat.div_mod_eq (c + y) n) as H2.
    rewrite Heq in H1. set (q1 := ((c + x) / n)%nat) in *. set (q2 := ((c + y) / n)%nat) in *. clearbody q1 q2.
    destruct (Nat.lt_trichotomy q1 q2) as [?|[->|?]]; [exfalso; nia|lia|exfalso; nia].
  - apply NoDup_seq.
  - intros i. rewrite list_elem_of_fmap. setoid_rewrite elem_of_seq. split.
    + intros (k & -> & _). pose proof (Nat.mod_upper_bound (c + k) n). lia.
    + intros Hi. destruct (ring_covers n (c mod n) i) as (k & Hk & <-); [lia|apply Nat.mod_upper_bound; lia|].
      exists k. split; [|lia]. by rewrite Nat.Div0.add_mod_idemp_l.
Qed.

(** Round-robin is exactly fair.  For a round-robin model with healthy
    backends, whatever the counter has reached (short of wrapping at 2^64),
    as many successive first attempts as there are backends visit every
    backend exactly once. *)
Theorem rr_fair r m e calls :
  models r !! m = Some e -> strategy e = "round-robin" -> replicas e <> [] -> all_healthy r e ->
  length calls = length (replicas e) ->
  0 <= default 0 (rr r !! m) -> default 0 (rr r !! m) + Z.of_nat (length calls) < 2 ^ 64 ->
  (select_seq r m calls).2 ≡ₚ
  map (fun rep => Ok (mkTarget m (r_name rep) (r_upstream rep) (typ e))) (replicas e).
Proof.
  intros Hm Hst Hne Hh Hlen H0 Hlt. rewrite (select_seq_rr r m e calls _ Hm Hst Hne Hh eq_refl H0 Hlt), Hlen.
  assert (0 < length (replicas e))%nat as Hpos by (destruct (replicas e); [done|cbn; lia]).
  rewrite <- (map_map (fun k => (Z.to_nat (default 0%Z (rr r !! m)) + k) mod length (replicas e))%nat
                      (fun i => Ok (target_of m e i))).
  rewrite (ring_permutation _ _ Hpos).
  rewrite <- (map_lookup_seq (fun rep => Ok (mkTarget m (r_name rep) (r_upstream rep) (typ e)))). done.
Qed.
End Fairness.

(** ** Least load *)

Lemma score_le (a b : replica) inflight : 1 <= r_weight a -> 1 <= r_weight b ->
  f_ltb (score a inflight) (score (F := Q) b inflight) = false <->
  (inflight (r_name b) + 1) * r_weight a <= (inflight (r_name a) + 1) * r_weight b.
Proof.
  intros Ha Hb. rewrite Qltb_ge. unfold score. cbn [f_div f_of_Z exact].
  assert (0 < inject_Z (r_weight a))%Q as Qa by (change 0%Q with (inject_Z 0); rewrite <- Zlt_Qlt; lia).
  assert (0 < inject_Z (r_weight b))%Q as Qb by (change 0%Q with (inject_Z 0); rewrite <- Zlt_Qlt; lia).
  set (x := inflight (r_name a) + 1). set (y := inflight (r_name b) + 1).
  rewrite (Zle_Qle (y * r_weight a)), !inject_Z_mult.
  set (p := inject_Z (r_weight a)) in *. set (q := inject_Z (r_weight b)) in *. clearbody p q. split; intros Hle.
  - apply (Qmult_le_compat_r _ _ (p * q)) in Hle; [|apply Qlt_le_weak, Qmult_lt_0_compat; done].
    assert (inject_Z y / q * (p * q) == inject_Z y * p)%Q as E1 by (field; lra).
    assert (inject_Z x / p * (p * q) == inject_Z x * q)%Q as E2 by (field; lra).
    by rewrite E1, E2 in Hle.
  - apply Qle_shift_div_l; [done|].
    assert (inject_Z y / q * p == (inject_Z y * p) / q)%Q as -> by (field; lra).
    apply Qle_shift_div_r; done.
Qed.

(** The load-based strategies pick a least loaded backend.  Under
    least-inflight no eligible backend has fewer requests in flight than the
    chosen one; under weighted-least-inflight (scores in exact arithmetic)
    no eligible backend has a smaller (in-flight + 1) per weight. *)
Theorem least_inflight_minimal r now inflight m exclude e r' t :
  models r !! m = Some e -> entry_wf e -> Select (F := Q) r now inflight m exclude = (r', Ok t) ->
  exists c, c ∈ replicas e /\ t_Backend t = r_name c /\
  forall rep, rep ∈ replicas e -> eligible r now exclude rep ->
    (strategy e = "least-inflight" -> inflight (r_name c) <= inflight (r_name rep))
    /\ (strategy e = "weighted-least-inflight" ->
        (inflight (r_name c) + 1) * r_weight rep <= (inflight (r_name rep) + 1) * r_weight c).
Proof.
  intros Hm Hwf. pose proof Hwf as [_ _ Hw _]. unfold Select. rewrite Hm.
  destruct (candidates r now e exclude) as [|c0 cs] eqn:Ec; [done|].
  destruct (pick_index_candidate r inflight m e c0 cs now exclude Hwf Ec) as (r1 & i & Hpick & Hi & _).
  rewrite Hpick. intros [= _ <-]. cbn [t_Backend].
  assert (Hlt : forall j, j ∈ c0 :: cs -> (j < length (replicas e))%nat).
  { intros j Hj. rewrite <- Ec in Hj. by apply candidates_elem in Hj as [? _]. }
  assert (Hrep : forall j, j ∈ c0 :: cs -> replicas e !! j = Some (replicas e !!! j)).
  { intros j Hj. by apply list_lookup_lookup_total_lt, Hlt. }
  assert (Hwt : forall j, j ∈ c0 :: cs -> 1 <= r_weight (replicas e !!! j)).
  { intros j Hj. rewrite Forall_lookup in Hw. by eapply Hw, Hrep. }
  exists (replicas e !!! i). split; [eapply list_elem_of_lookup_2; by apply Hrep|]. split; [done|].
  intros rep [j Hj]%list_elem_of_lookup_1 Hel.
  assert (Hjc : j ∈ c0 :: cs).
  { rewrite <- Ec. apply candidates_elem. split; [by eapply lookup_lt_Some|]. by rewrite (list_lookup_total_correct _ _ _ Hj). }
  rewrite <- (list_lookup_total_correct _ _ _ Hj). clear Hj Hel.
  split; intros Hst; unfold pick_index in Hpick; rewrite Hst in Hpick;
    cbn [String.eqb Ascii.eqb Bool.eqb] in Hpick; injection Hpick as _ <-.
  - pose proof (best_of_least (fun i best => inflight (r_name (replicas e !!! i)) <? inflight (r_name (replicas e !!! best))) c0 cs) as Hl.
    rewrite Forall_forall in Hl. apply Z.ltb_ge. apply Hl; [| | |done].
    + intros a b c H1 H2. apply Z.ltb_ge in H1, H2. apply Z.ltb_ge. lia.
    + intros a. apply Z.ltb_irrefl.
    + intros a b H1. apply Z.ltb_lt in H1. apply Z.ltb_ge. lia.
  - pose proof (best_of_least (fun i best => f_ltb (score (replicas e !!! i) inflight) (score (F := Q) (replicas e !!! best) inflight)) c0 cs) as Hl.
    rewrite Forall_forall in Hl. apply score_le; [auto|apply Hwt, best_of_in|]. apply Hl; [| | |done].
    + intros a b c H1 H2. apply Qltb_ge in H1, H2. apply Qltb_ge. eapply Qle_trans; done.
    + intros a. apply Qltb_ge, Qle_refl.
    + intros a b H1. apply Qltb_lt in H1. apply Qltb_ge. by apply Qlt_le_weak.
Qed.

(** ** Witnesses *)

Module RoutingDemo.
Definition e (s : string) : modelEntry :=
  mkEntry "generation" s [mkReplica "a" "ua" 3; mkReplica "b" "ub" 1].
Definition r (s : string) : Router := mkRouter {["m" := e s]} ["m"] newHealth ∅ ∅.
Definition load (b : string) : Z := if String.eqb b "a" then 5 else 2.
Definition router : Router := Eval vm_compute in
  match New (applyDefaults ConfigDemo.cfg) with Ok r => r | Err _ => r "single" end.
Definition target : Target :=
  mkTarget "qwen" (defaultBackendName "qwen" "gpu") "qwen" "generation".
Definition call : time * (string -> Z) := (0, load).
End RoutingDemo.

Lemma demo_entry_wf s : s ∈ SupportedStrategies -> entry_wf (RoutingDemo.e s).
Proof.
  intros Hs. split; cbn; [done|done| |].
  - repeat constructor; cbn; lia.
  - apply NoDup_cons; split; [set_solver|]. apply NoDup_singleton.
Qed.

Lemma Select_sound_complete_witness :
  (Select (F := Q) RoutingDemo.router 0 RoutingDemo.load "qwen" []).2 = Ok RoutingDemo.target
  /\ exists md ref b, c_Models (applyDefaults ConfigDemo.cfg) !! "qwen" = Some md /\ ref ∈ m_Backends md
      /\ ~ (ref_Name ref ∈ [] \/ unavailable (r_health RoutingDemo.router) 0 (ref_Name ref) = true)
      /\ Backends (applyDefaults ConfigDemo.cfg) !! ref_Name ref = Some b
      /\ RoutingDemo.target = mkTarget "qwen" (ref_Name ref) (UpstreamModel b) (m_Type md).
Proof.
  assert (Hs : (Select (F := Q) RoutingDemo.router 0 RoutingDemo.load "qwen" []).2 = Ok RoutingDemo.target)
    by (vm_compute; reflexivity).
  assert (Hv : validate ConfigDemo.urls (applyDefaults ConfigDemo.cfg) = []) by (vm_compute; reflexivity).
  assert (Hn : New (applyDefaults ConfigDemo.cfg) = Ok RoutingDemo.router) by (vm_compute; reflexivity).
  split; [exact Hs|].
  pose proof (Select_sound_complete ConfigDemo.urls (applyDefaults ConfigDemo.cfg) RoutingDemo.router RoutingDemo.router
    0 RoutingDemo.load "qwen" [] (validate_ok ConfigDemo.urls _ Hv) Hn (rtc_refl _ _)) as Hc.
  cbv zeta in Hc. rewrite Hs in Hc. exact Hc.
Defined.

Lemma cooldown_exact_witness :
  unavailable (failures newHealth "a" [0; 10]) (9 * Second) "a" = true
  /\ unavailable (failures newHealth "a" [0; 10]) (9 * Second) "a" = (9 * Second <? 10 + cooldown 2).
Proof.
  split; [vm_compute; reflexivity|].
  exact (proj1 (cooldown_exact newHealth "a" [0; 10] (9 * Second) eq_refl ltac:(discriminate))).
Defined.

Lemma wrr_fair_witness :
  Forall (fun rep => chosen (r_name rep) (select_seq (F := Q) (RoutingDemo.r "weighted-round-robin") "m"
            (replicate 4 RoutingDemo.call)).2 = r_weight rep)
    (replicas (RoutingDemo.e "weighted-round-robin")).
Proof.
  apply wrr_fair; [reflexivity|apply demo_entry_wf; set_solver|reflexivity|repeat constructor|reflexivity|vm_compute; discriminate|reflexivity].
Defined.

Lemma rr_fair_witness :
  (select_seq (F := Q) (RoutingDemo.r "round-robin") "m" [RoutingDemo.call; RoutingDemo.call]).2 ≡ₚ
  map (fun rep => Ok (mkTarget "m" (r_name rep) (r_upstream rep) "generation")) (replicas (RoutingDemo.e "round-robin")).
Proof.
  apply (rr_fair (RoutingDemo.r "round-robin") "m" (RoutingDemo.e "round-robin"));
    [reflexivity|reflexivity|discriminate|repeat constructor|reflexivity|vm_compute; discriminate|vm_compute; reflexivity].
Defined.

Lemma least_inflight_minimal_witness :
  exists c, c ∈ replicas (RoutingDemo.e "least-inflight") /\ "b" = r_name c /\
  forall rep, rep ∈ replicas (RoutingDemo.e "least-inflight") -> eligible (RoutingDemo.r "least-inflight") 0 [] rep ->
    (strategy (RoutingDemo.e "least-inflight") = "least-inflight" -> RoutingDemo.load (r_name c) <= RoutingDemo.load (r_name rep))
    /\ (strategy (RoutingDemo.e "least-inflight") = "weighted-least-inflight" ->
        (RoutingDemo.load (r_name c) + 1) * r_weight rep <= (RoutingDemo.load (r_name rep) + 1) * r_weight c).
Proof.
  apply (least_inflight_minimal (RoutingDemo.r "least-inflight") 0 RoutingDemo.load "m" [] (RoutingDemo.e "least-inflight")
    (RoutingDemo.r "least-inflight") (mkTarget "m" "b" "ub" "generation"));
    [reflexivity|apply demo_entry_wf; set_solver|vm_compute; reflexivity].
Defined.
