(* ===== verification/Backend.v ===== *)
(** * The backend client: [internal/backend/backend.go]

    The egress policy and the policy-checked dialer, base-URL validation,
    the classification of transport errors, the admission pool of one
    inference server as a state machine over concurrent requests, and the
    fate of an admission slot in [Forward].

    The resolver, the TCP dialer and the HTTP round trip are parameters or
    events: their outcomes are arguments of the operations. *)

From S2P Require Import Prelude Float64 GoStrings Net Config ConfigFacts.
From Stdlib Require Import Ascii QArith.
#[local] Open Scope Z_scope.

(* src: internal/backend/backend.go 42-69 ErrConnect *)
Inductive backend_error :=
| ErrConnect | ErrDialTimeout | ErrHeaderTimeout | ErrTimeout
| ErrQueueFull | ErrQueueTimeout | ErrDraining | ErrPolicy | ErrTooLarge
| ErrUpstream (status : Z)          (* *Upstream *)
| ErrCanceled                       (* context.Canceled *)
| ErrDeadlineExceeded               (* context.DeadlineExceeded *)
| ErrNetwork (network : string).    (* unexpected network *)
#[export] Instance backend_error_eq_dec : EqDecision backend_error.
Proof. solve_decision. Defined.

(** ** Egress policy *)

(* src: internal/backend/backend.go Policy *)
Record Policy := mkPolicy { pol_Mode : string; pol_CIDRs : list IPNet }.

(* src: internal/backend/backend.go Policy.allow *)
Definition allow (p : Policy) (ip : IP) : bool :=
  if String.eqb (pol_Mode p) "any" then true
  else if String.eqb (pol_Mode p) "allowed-cidrs" then
    existsb (fun c => ipnet_contains c ip
                      || match To4 ip with Some v4 => ipnet_contains c (v4_mapped v4) | None => false end)
            (pol_CIDRs p)
  else ip_is_loopback ip.

Inductive policy_error := PNeedsCIDRs | PMode (mode : string) | PCIDR (cidr : string).

(* src: internal/backend/backend.go parsePolicy *)
Definition parsePolicy (p : Policy) : result policy_error Policy :=
  if one_of ["loopback-only"; "any"] (pol_Mode p) then Ok p
  else if String.eqb (pol_Mode p) "allowed-cidrs" then
    match pol_CIDRs p with [] => Err PNeedsCIDRs | _ => Ok p end
  else Err (PMode (pol_Mode p)).

Fixpoint parse_cidrs (l : list string) : result policy_error (list IPNet) :=
  match l with
  | [] => Ok []
  | c :: l =>
      match ParseCIDR c with
      | None => Err (PCIDR c)
      | Some n => let? ns := parse_cidrs l in Ok (n :: ns)
      end
  end.

(* src: internal/backend/backend.go PolicyFromConfig *)
Definition PolicyFromConfig (bn : BackendNetwork) : result policy_error Policy :=
  let? ns := parse_cidrs (bn_CIDRs bn) in parsePolicy (mkPolicy (bn_Mode bn) ns).

(** ** Base URLs *)

Inductive url_error :=
| UMalformed | UScheme | UFragment | UUserinfo | UQuery | UPath | UNoHost | UEmptyPort.

Section URLs.
Variable url_parse : string -> option URL.

(* src: internal/backend/backend.go parseBaseURL *)
Definition parseBaseURL (raw : string) : result url_error URL :=
  match url_parse raw with
  | None => Err UMalformed
  | Some u =>
      if negb (String.eqb (u_Scheme u) "http") && negb (String.eqb (u_Scheme u) "https") then Err UScheme
      else if negb (String.eqb (u_Fragment u) "") then Err UFragment
      else if u_User u then Err UUserinfo
      else if negb (String.eqb (u_RawQuery u) "") then Err UQuery
      else if negb (String.eqb (u_Path u) "") && negb (String.eqb (u_Path u) "/") then Err UPath
      else if String.eqb (url_Hostname u) "" then Err UNoHost
      else match SplitHostPort (u_Host u) with
           | Some (_, "") => Err UEmptyPort
           | _ => Ok u
           end
  end.

(* src: internal/sandbox/sandbox.go DefaultPortForScheme *)
Definition DefaultPortForScheme (scheme : string) : option string :=
  if String.eqb scheme "http" then Some "80"
  else if String.eqb scheme "https" then Some "443"
  else None.

(* src: internal/backend/backend.go splitHostPort *)
Definition splitHostPort (u : URL) : string * string :=
  match SplitHostPort (u_Host u) with
  | Some hp => hp
  | None => (url_Hostname u, default "" (DefaultPortForScheme (u_Scheme u)))
  end.

(** The part of [New] that decides whether the destination is acceptable. *)
(* src: internal/backend/backend.go 210-231 New *)
Definition new_destination (network : Policy) (baseURL : string) : result (policy_error + url_error + unit) (Policy * URL) :=
  match parsePolicy network with
  | Err e => Err (inl (inl e))
  | Ok policy =>
      match parseBaseURL baseURL with
      | Err e => Err (inl (inr e))
      | Ok u =>
          match ParseIP (splitHostPort u).1 with
          | Some ip => if negb (allow policy ip) then Err (inr tt) else Ok (policy, u)
          | None => Ok (policy, u)
          end
      end
  end.
End URLs.

(** ** Errors of the network stack

    What the classifiers look at in an [error] value. *)
Record go_error := mkGoError {
  g_canceled : bool;                 (* errors.Is context.Canceled *)
  g_deadline : bool;                 (* errors.Is context.DeadlineExceeded *)
  g_sentinel : option backend_error; (* one of the dialer's sentinels in the chain *)
  g_dns : option (bool * bool);      (* a *net.DNSError: IsTimeout, IsTemporary *)
  g_net : option bool;               (* a net.Error: Timeout() *)
  g_url_inner : option (option bool) (* a *url.Error: its Err seen as net.Error *)
}.

(* src: internal/backend/backend.go isTimeout *)
Definition isTimeout (e : go_error) : bool :=
  if g_deadline e then true
  else match g_dns e with
       | Some (to, temp) => to || temp
       | None => match g_net e with Some t => t | None => false end
       end.

(* src: internal/backend/backend.go dialError *)
Definition dialError (e : go_error) : backend_error :=
  match g_net e with
  | Some true => ErrDialTimeout
  | _ => if g_deadline e then ErrDialTimeout else ErrConnect
  end.

(* src: internal/backend/backend.go requestError *)
Definition requestError (e : go_error) (stream : bool) : backend_error :=
  if g_canceled e then ErrCanceled
  else match g_sentinel e with
       | Some s => s
       | None =>
           match g_net e with
           | Some true => if stream then ErrHeaderTimeout else ErrTimeout
           | Some false => ErrConnect
           | None => ErrConnect
           end
       end.

(* src: internal/backend/backend.go bodyReadError *)
Definition bodyReadError (e : go_error) : backend_error :=
  if g_canceled e then ErrCanceled
  else if g_deadline e then ErrTimeout
  else
    let net := match g_url_inner e with Some inner => inner | None => g_net e end in
    match net with Some true => ErrTimeout | _ => ErrConnect end.

(** ** The dialer *)

(** The resolver and the TCP connect are arguments; the result is the
    address that was dialed. *)
(* src: internal/backend/backend.go policyDial *)
Definition policyDial (p : Policy) (resolve : string -> result go_error (list IP))
    (connect : IP * string -> result go_error unit) (network addr : string)
  : result backend_error (IP * string) :=
  if negb (one_of ["tcp"; "tcp4"; "tcp6"] network) then Err (ErrNetwork network)
  else match SplitHostPort addr with
  | None => Err ErrConnect
  | Some (host, port) =>
      let target :=
        match ParseIP host with
        | Some ip => if negb (allow p ip) then Err ErrPolicy else Ok (ip, port)
        | None =>
            match resolve host with
            | Err e => Err (if isTimeout e then ErrDialTimeout else ErrConnect)
            | Ok ips => match List.find (allow p) ips with
                        | Some ip => Ok (ip, port)
                        | None => Err ErrPolicy
                        end
            end
        end in
      let? t := target in
      match connect t with
      | Ok _ => Ok t
      | Err e => Err (dialError e)
      end
  end.

(** ** Admission *)

(** The two buffered channels as their occupancy. *)
(* src: internal/backend/backend.go Admission *)
Record Admission := mkAdm {
  a_queue : Z; a_queue_cap : Z; a_conc : Z; a_conc_cap : Z; a_drain : bool
}.

(* src: internal/backend/backend.go NewAdmission *)
Definition NewAdmission (b : Backend) : Admission :=
  mkAdm 0 (Z.max (QueueSize b) 0) 0 (Z.max (MaxConcurrency b) 1) false.

Definition take_conc (a : Admission) : Admission :=
  mkAdm (a_queue a) (a_queue_cap a) (a_conc a + 1) (a_conc_cap a) (a_drain a).
Definition take_queue (a : Admission) : Admission :=
  mkAdm (a_queue a + 1) (a_queue_cap a) (a_conc a) (a_conc_cap a) (a_drain a).
Definition give_queue (a : Admission) : Admission :=
  mkAdm (a_queue a - 1) (a_queue_cap a) (a_conc a) (a_conc_cap a) (a_drain a).
(* src: internal/backend/backend.go hold.release *)
Definition release (a : Admission) : Admission :=
  mkAdm (a_queue a) (a_queue_cap a) (a_conc a - 1) (a_conc_cap a) (a_drain a).

(* src: internal/backend/backend.go Client.Drain *)
Definition Drain (a : Admission) : Admission :=
  mkAdm (a_queue a) (a_queue_cap a) (a_conc a) (a_conc_cap a) true.

(* src: internal/backend/backend.go Client.Inflight *)
Definition Inflight (a : Admission) : Z := a_queue a + a_conc a.

(** Where a request is inside [acquire], and afterwards. *)
Inductive pc :=
| PStart                              (* before the drain check *)
| PFast                               (* the fast-path select *)
| PQueue                              (* saturated: the queue select *)
| PFull                               (* queue full: the context recheck *)
| PWait                               (* parked, holding a queue token *)
| PTimer                              (* the timer fired: the context recheck *)
| PLeave (r : result backend_error unit)  (* returning: the deferred queue release *)
| PFailed (e : backend_error)         (* acquire returned an error *)
| PHeld                               (* acquire returned a hold *)
| PStream                             (* a live stream Result owns the hold *)
| PReleased.                          (* the hold was released *)

(** What a select can see besides the channels: the request's context and
    its queue timer. *)
Record req_env := mkEnv { ctx_err : option backend_error; timer_fired : bool }.

Definition ready {A} (b : bool) (x : A) : list A := if b then [x] else [].
(** A [select] with a default: one of the ready cases, or the default. *)
Definition select_default {A} (cases : list A) (d : A) : list A :=
  match cases with [] => [d] | _ => cases end.

Definition ctx_case {A} (env : req_env) (f : backend_error -> A) : list A :=
  match ctx_err env with Some e => [f e] | None => [] end.

(** The possible next states of one request; the empty list means that it
    is blocked. *)
(* src: internal/backend/backend.go Client.acquire *)
Definition acquire_step (a : Admission) (env : req_env) (p : pc) : list (Admission * pc) :=
  let conc_free := a_conc a <? a_conc_cap a in
  let queue_free := a_queue a <? a_queue_cap a in
  match p with
  | PStart => select_default (ready (a_drain a) (a, PFailed ErrDraining)) (a, PFast)
  | PFast =>
      select_default (ready conc_free (take_conc a, PHeld) ++ ctx_case env (fun e => (a, PFailed e)))
        (a, PQueue)
  | PQueue =>
      select_default (ready queue_free (take_queue a, PWait) ++ ctx_case env (fun e => (a, PFailed e)))
        (a, PFull)
  | PFull => select_default (ctx_case env (fun e => (a, PFailed e))) (a, PFailed ErrQueueFull)
  | PWait =>
      ready conc_free (take_conc a, PLeave (Ok tt)) ++ ctx_case env (fun e => (a, PLeave (Err e))) ++
      ready (a_drain a) (a, PLeave (Err ErrDraining)) ++ ready (timer_fired env) (a, PTimer)
  | PTimer => select_default (ctx_case env (fun e => (a, PLeave (Err e)))) (a, PLeave (Err ErrQueueTimeout))
  | PLeave (Ok _) => [(give_queue a, PHeld)]
  | PLeave (Err e) => [(give_queue a, PFailed e)]
  | PFailed _ | PHeld | PStream | PReleased => []
  end.

(** ** [Forward] after admission *)

Inductive body_read :=
| BodyAll (body : string)                            (* the whole body is readable *)
| BodyErr (e : go_error) (bound_fired : bool).       (* the read failed; our timer fired first *)

Inductive http_outcome :=
| HBadRequest                                        (* the request could not be built *)
| HErr (e : go_error)                                (* no response *)
| HResp (status : Z) (content_type : string) (body : body_read).

(** The buffered part of a [Result]; a live one has no bytes. *)
Record Res := mkRes { Status : Z; BodyBytes : string; Live : bool }.

(* src: internal/backend/backend.go isEventStream *)
Definition isEventStream (content_type : string) : bool :=
  has_prefix "text/event-stream" (to_lower content_type).

(** What [Forward] returns once it holds a slot, and whether it has released
    the slot itself. *)
(* src: internal/backend/backend.go 660-752 Client.Forward *)
Definition forward_outcome (maxResponseBytes : Z) (stream bounded : bool) (o : http_outcome)
  : (option Res * option backend_error) * bool :=
  match o with
  | HBadRequest => ((None, Some ErrConnect), true)
  | HErr e => ((None, Some (requestError e stream)), true)
  | HResp status ctype body =>
      if stream && (status =? 200) && isEventStream ctype then
        ((Some (mkRes status "" true), None), false)
      else match body with
      | BodyErr e fired =>
          ((None, Some (if stream && bounded && fired then ErrTimeout else bodyReadError e)), true)
      | BodyAll body =>
          let data := stake (Z.to_nat (maxResponseBytes + 1)) body in
          if maxResponseBytes <? slen data then ((None, Some ErrTooLarge), true)
          else if 300 <=? status then
            ((Some (mkRes status data false), Some (ErrUpstream status)), true)
          else ((Some (mkRes status data false), None), true)
      end
  end.

(** ** The pool and its requests *)

Record pool := mkPool { p_adm : Admission; p_reqs : list pc }.

Inductive pstep (maxResponseBytes : Z) : pool -> pool -> Prop :=
| ps_arrive a l : pstep maxResponseBytes (mkPool a l) (mkPool a (l ++ [PStart]))
| ps_acquire a l i p env a' p' :
    l !! i = Some p -> (a', p') ∈ acquire_step a env p ->
    pstep maxResponseBytes (mkPool a l) (mkPool a' (<[i := p']> l))
| ps_forward a l i stream bounded o r :
    l !! i = Some PHeld -> forward_outcome maxResponseBytes stream bounded o = (r, true) -> 0 < a_conc a ->
    pstep maxResponseBytes (mkPool a l) (mkPool (release a) (<[i := PReleased]> l))
| ps_forward_live a l i stream bounded o r :
    l !! i = Some PHeld -> forward_outcome maxResponseBytes stream bounded o = (r, false) ->
    pstep maxResponseBytes (mkPool a l) (mkPool a (<[i := PStream]> l))
| ps_close a l i :
    l !! i = Some PStream -> 0 < a_conc a ->
    pstep maxResponseBytes (mkPool a l) (mkPool (release a) (<[i := PReleased]> l))
| ps_close_again a l i :
    l !! i = Some PReleased ->
    pstep maxResponseBytes (mkPool a l) (mkPool a l)
| ps_drain a l : pstep maxResponseBytes (mkPool a l) (mkPool (Drain a) l).

Definition holds_conc (p : pc) : bool :=
  match p with PHeld | PStream | PLeave (Ok _) => true | _ => false end.
Definition holds_queue (p : pc) : bool :=
  match p with PWait | PTimer | PLeave _ => true | _ => false end.

(** ** Admission: theorems *)

(** The tokens in the channels are exactly those held by requests. *)
Record pool_inv (qcap ccap : Z) (s : pool) : Prop := {
  pi_caps : a_queue_cap (p_adm s) = qcap /\ a_conc_cap (p_adm s) = ccap;
  pi_conc : a_conc (p_adm s) = Z.of_nat (count holds_conc (p_reqs s));
  pi_queue : a_queue (p_adm s) = Z.of_nat (count holds_queue (p_reqs s));
  pi_bounds : a_conc (p_adm s) <= ccap /\ a_queue (p_adm s) <= qcap
}.

(** What one step of [acquire] does to the tokens. *)
Lemma acquire_step_tokens a env p a' p' :
  (a', p') ∈ acquire_step a env p ->
  a_queue_cap a' = a_queue_cap a /\ a_conc_cap a' = a_conc_cap a /\ a_drain a' = a_drain a
  /\ a_conc a' - (if holds_conc p' then 1 else 0) = a_conc a - (if holds_conc p then 1 else 0)
  /\ a_queue a' - (if holds_queue p' then 1 else 0) = a_queue a - (if holds_queue p then 1 else 0)
  /\ (a_conc a' <= a_conc a \/ a_conc a' <= a_conc_cap a)
  /\ (a_queue a' <= a_queue a \/ a_queue a' <= a_queue_cap a).
Proof.
  unfold acquire_step, select_default, ready, ctx_case.
  destruct p as [| | | | | |[[]|e]| | | |]; cbn;
  destruct (Z.ltb_spec (a_conc a) (a_conc_cap a)), (Z.ltb_spec (a_queue a) (a_queue_cap a)),
    (a_drain a) eqn:Ed, (ctx_err env), (timer_fired env); cbn; intros Hin;
  repeat (apply elem_of_cons in Hin as [[= -> ->]|Hin]); try (by apply not_elem_of_nil in Hin);
  cbn; repeat split; lia || done.
Qed.

Lemma pool_inv_step mrb qcap ccap s s' : pstep mrb s s' -> pool_inv qcap ccap s -> pool_inv qcap ccap s'.
Proof.
  intros Hs [Hcaps Hc Hq Hb]. destruct Hs as [a l|a l i p env a' p' Hl Hin|a l i stream bd o r Hl _ Hpos
    |a l i stream bd o r Hl _|a l i Hl Hpos|a l i Hl|a l]; cbn in *.
  - split; cbn; try done; rewrite count_app;
      [change (count holds_conc [PStart]) with 0%nat|change (count holds_queue [PStart]) with 0%nat]; lia.
  - apply acquire_step_tokens in Hin as (Hqc & Hcc & _ & Hct & Hqt & Hcb & Hqb).
    pose proof (count_insert holds_conc l i p p' Hl). pose proof (count_insert holds_queue l i p p' Hl).
    split; cbn; lia.
  - pose proof (count_insert holds_conc l i _ PReleased Hl). pose proof (count_insert holds_queue l i _ PReleased Hl).
    cbn in *. split; cbn; lia.
  - pose proof (count_insert holds_conc l i _ PStream Hl). pose proof (count_insert holds_queue l i _ PStream Hl).
    cbn in *. split; cbn; lia.
  - pose proof (count_insert holds_conc l i _ PReleased Hl). pose proof (count_insert holds_queue l i _ PReleased Hl).
    cbn in *. split; cbn; lia.
  - by split.
  - by split.
Qed.

Lemma pool_inv_reachable mrb b s : rtc (pstep mrb) (mkPool (NewAdmission b) []) s ->
  pool_inv (Z.max (QueueSize b) 0) (Z.max (MaxConcurrency b) 1) s.
Proof.
  intros Hr. cut (forall s0, rtc (pstep mrb) s0 s -> pool_inv (Z.max (QueueSize b) 0) (Z.max (MaxConcurrency b) 1) s0
    -> pool_inv (Z.max (QueueSize b) 0) (Z.max (MaxConcurrency b) 1) s).
  { intros Hc. eapply Hc; [done|]. split; cbn; [done|done|done|lia]. }
  induction 1; eauto using pool_inv_step.
Qed.


(** Progress inside [acquire]: what is left to do. *)
Definition acquire_left (p : pc) : nat :=
  match p with
  | PStart => 6 | PFast => 5 | PQueue => 4 | PFull => 1 | PWait => 3 | PTimer => 2 | PLeave _ => 1
  | PFailed _ | PHeld | PStream | PReleased => 0
  end.
Definition in_acquire (p : pc) : bool :=
  match p with PFailed _ | PHeld | PStream | PReleased => false | _ => true end.

Lemma acquire_step_progress a env p a' p' : (a', p') ∈ acquire_step a env p -> (acquire_left p' < acquire_left p)%nat.
Proof.
  unfold acquire_step, select_default, ready, ctx_case.
  destruct p as [| | | | | |[[]|e]| | | |]; cbn;
  destruct (a_conc a <? a_conc_cap a), (a_queue a <? a_queue_cap a),
    (a_drain a), (ctx_err env), (timer_fired env); cbn; intros Hin;
  repeat (apply elem_of_cons in Hin as [[= -> ->]|Hin]); try (by apply not_elem_of_nil in Hin); cbn; lia.
Qed.

(** No request waits forever, and idle capacity is never refused.
    [acquire] takes at most six steps; it can only block while parked in the
    queue, and then only while no slot is free, the client is still there,
    the queue timeout has not fired and the server is not draining.  With a
    free slot and a live client a request that passes the drain check is
    admitted at once; it is sent to the queue only when every slot is busy,
    and refused as queue-full only when the queue is full too; and once
    draining has begun a newly arriving request always fails with
    [ErrDraining] and a parked one can always leave with it. *)
Theorem acquire_live a env :
  (forall p a' p', (a', p') ∈ acquire_step a env p -> (acquire_left p' < acquire_left p)%nat)
  /\ (forall p, in_acquire p = true -> acquire_step a env p = [] ->
       p = PWait /\ a_conc_cap a <= a_conc a /\ ctx_err env = None /\ timer_fired env = false /\ a_drain a = false)
  /\ (a_conc a < a_conc_cap a -> ctx_err env = None -> acquire_step a env PFast = [(take_conc a, PHeld)])
  /\ (forall a', (a', PQueue) ∈ acquire_step a env PFast -> a_conc_cap a <= a_conc a)
  /\ (forall a', (a', PFull) ∈ acquire_step a env PQueue -> a_queue_cap a <= a_queue a)
  /\ (a_drain a = true -> acquire_step a env PStart = [(a, PFailed ErrDraining)]
       /\ (a, PLeave (Err ErrDraining)) ∈ acquire_step a env PWait).
Proof.
  split; [intros p a' p'; apply acquire_step_progress|].
  unfold acquire_step, select_default, ready, ctx_case. split_and!.
  - intros p Hp. destruct p as [| | | | | |[[]|e]| | | |]; try done; cbn;
    destruct (Z.ltb_spec (a_conc a) (a_conc_cap a)), (Z.ltb_spec (a_queue a) (a_queue_cap a)),
      (a_drain a), (ctx_err env), (timer_fired env); cbn; try done.
  - intros Hc ->. by rewrite (proj2 (Z.ltb_lt _ _) Hc).
  - intros a'. destruct (Z.ltb_spec (a_conc a) (a_conc_cap a)); [|done].
    destruct (ctx_err env); cbn; set_solver.
  - intros a'. destruct (Z.ltb_spec (a_queue a) (a_queue_cap a)); [|done].
    destruct (ctx_err env); cbn; set_solver.
  - intros ->. cbn. split; [done|]. rewrite !elem_of_app. right. right. left.
Qed.

(** ** Egress: theorems *)

Lemma policyDial_spec p resolve connect network addr ip port :
  policyDial p resolve connect network addr = Ok (ip, port) ->
  allow p ip = true /\ (exists host, SplitHostPort addr = Some (host, port))
  /\ (pol_Mode p = "loopback-only" -> ip_is_loopback ip = true).
Proof.
  unfold policyDial. destruct (one_of _ network); cbn [negb]; [|done].
  destruct (SplitHostPort addr) as [[host port']|]; [|done].
  assert (Hallow : forall (t : result backend_error (IP * string)),
    (forall i q, t = Ok (i, q) -> allow p i = true /\ q = port') ->
    (let? t := t in match connect t with Ok _ => Ok t | Err e => Err (dialError e) end) = Ok (ip, port) ->
    allow p ip = true /\ port = port').
  { intros [[i q]|e] Ht; [|done]. destruct (connect (i, q)); [|done]. intros [= -> ->]. by apply Ht. }
  intros Hd. apply Hallow in Hd as [Ha ->].
  - split; [done|]. split; [eauto|]. intros Hm. unfold allow in Ha. by rewrite Hm in Ha.
  - intros i q. destruct (ParseIP host) as [lit|].
    + destruct (allow p lit) eqn:E; cbn [negb]; [|done]. by intros [= -> ->].
    + destruct (resolve host) as [ips|e]; [|done]. destruct (List.find (allow p) ips) eqn:E; [|done].
      intros [= -> ->]. by apply List.find_some in E as [_ ?].
Qed.

(** Every backend connection obeys the egress policy.  Whatever address
    the transport asks for, and whatever the resolver answers (also when a
    name is re-pointed between lookups), a connection is only made to an IP
    the policy allows and on the requested port; under the default
    loopback-only policy that IP is a loopback address. *)
Theorem policyDial_allowed p resolve connect network addr ip port :
  policyDial p resolve connect network addr = Ok (ip, port) ->
  allow p ip = true /\ (exists host, SplitHostPort addr = Some (host, port))
  /\ (pol_Mode p = "loopback-only" -> ip_is_loopback ip = true).
Proof. apply policyDial_spec. Qed.

Section ConfigAgreement.
Context {F : Type} `{Float64 F}.
Variable url_parse : string -> option URL.

Lemma parse_cidrs_ok l : Forall (fun c => is_Some (ParseCIDR c)) l ->
  exists ns, parse_cidrs l = Ok ns /\ Forall2 (fun c n => ParseCIDR c = Some n) l ns.
Proof.
  induction 1 as [|c l [n Hn] _ (ns & Hns & Hf)]; cbn; [eauto|]. rewrite Hn, Hns. eauto.
Qed.

(** A host the validator accepted is not empty in [url.Hostname]'s view. *)
Lemma cut_last_app c s l r : cut_last c s = Some (l, r) -> s = l +:+ String c r.
Proof.
  revert l. induction s as [|a s IH]; intros l; cbn; [done|].
  destruct (cut_last c s) as [[l' r']|].
  - intros [= <- <-]. cbn. by rewrite (IH l' eq_refl).
  - destruct (Ascii.eqb a c) eqn:E; [|done]. apply Ascii.eqb_eq in E as ->. by intros [= <- <-].
Qed.
Lemma cut_char_app c s l r : cut_char c s = Some (l, r) -> s = l +:+ String c r.
Proof.
  revert l. induction s as [|a s IH]; intros l; cbn; [done|]. destruct (Ascii.eqb a c) eqn:E.
  - apply Ascii.eqb_eq in E as ->. by intros [= <- <-].
  - destruct (cut_char c s) as [[l' r']|]; [|done]. intros [= <- <-]. cbn. by rewrite (IH l' eq_refl).
Qed.

Lemma hostname_nonempty u host port :
  SplitHostPort (u_Host u) = Some (host, port) -> host <> "" -> port <> "" -> url_Hostname u <> "".
Proof.
  unfold SplitHostPort, url_Hostname, url_split_port.
  destruct (cut_last ":"%char (u_Host u)) as [[l r]|] eqn:El; [|done]. pose proof (cut_last_app _ _ _ _ El) as Hl.
  destruct (has_prefix "[" (u_Host u)) eqn:Eb.
  - destruct (cut_char _ _) as [[h after]|] eqn:Ec; [|done].
    destruct (String.eqb_spec after (String ":"%char r)) as [->|]; [|done].
    destruct (contains_char _ _ || contains_char "]"%char (String ":"%char r)) eqn:Ebr; [done|]. intros [= -> ->] Hh Hp.
    apply orb_false_iff in Ebr as [_ Ebr].
    apply has_prefix_inv in Eb. apply cut_char_app in Ec. cbn [String.length] in Eb.
    assert (l = String "["%char (host +:+ "]")) as Hl2.
    { apply (sapp_cancel_r _ _ (String ":"%char port)). rewrite <- Hl, Eb, Ec. cbn. by rewrite sapp_assoc. }
    destruct (sforall is_digit port).
    + rewrite Hl2. cbn [fst]. destruct (_ && _); [|done].
      cbn [String.length sdrop]. rewrite slen_app. cbn [String.length].
      replace (S (String.length host + 1) - 2)%nat with (String.length host) by lia. by rewrite stake_app.
    + cbn [fst]. destruct (has_prefix "[" (u_Host u) && has_suffix "]" (u_Host u)) eqn:Ew; [|by rewrite Hl, Hl2].
      rewrite Hl, Hl2. cbn [String.append String.length sdrop]. rewrite !slen_app. cbn [String.length].
      destruct host as [|x host]; [done|]. cbn. replace (_ - _)%nat with (S (String.length host + 1 + S (String.length port) - 1))%nat by lia. done.
  - destruct (contains_char ":"%char l) eqn:Ecl; [done|].
    destruct (contains_char "["%char (u_Host u) || contains_char "]"%char (u_Host u)); [done|].
    intros [= -> ->] Hh Hp.
    assert (Hpre : forall s, has_prefix "[" (host +:+ s) = false -> has_prefix "[" host = false).
    { intros s. destruct host as [|x host]; [done|]. unfold has_prefix. cbn [String.append String.prefix].
      destruct (ascii_dec "["%char x); [|done]. by destruct (host +:+ s), host. }
    rewrite Hl in Eb. pose proof (Hpre _ Eb) as Eb'.
    destruct (sforall is_digit port); cbn [fst]; [by rewrite Eb'|]. rewrite Hl, Eb. cbn. by destruct host.
Qed.

(** Hosts that are IPv4 addresses written in IPv6 form. *)
Definition v4_in_v6 (host : string) : Prop :=
  exists n z, ParseAddr host = Some (V6 n z) /\ To4 n <> None.

(** What `config check` accepts, the server can start with: for an
    accepted configuration the egress policy is well formed, and no backend
    is refused by the client's own policy and URL checks (except one whose
    host is an IPv4 address in IPv6 form, which [netip] and [net] treat
    differently). *)
Theorem validated_backends_start cfg name b :
  config_ok url_parse cfg -> Backends (F := F) cfg !! name = Some b ->
  (forall u host port, url_parse (BaseURL b) = Some u -> SplitHostPort (u_Host u) = Some (host, port) ->
     ~ v4_in_v6 host) ->
  exists p u, PolicyFromConfig (sec_BackendNetwork (c_Security cfg)) = Ok p
    /\ new_destination url_parse p (BaseURL b) = Ok (p, u).
Proof.
  intros Hok Hb Hmap. set (bn := sec_BackendNetwork (c_Security cfg)).
  destruct (co_network _ _ Hok) as (Hmode & Hcidrs & Hiff). fold bn in Hmode, Hcidrs, Hiff.
  destruct (parse_cidrs_ok _ Hcidrs) as (ns & Hns & Hf2).
  assert (Hpp : parsePolicy (mkPolicy (bn_Mode bn) ns) = Ok (mkPolicy (bn_Mode bn) ns)).
  { unfold parsePolicy. cbn. rewrite !elem_of_cons, elem_of_nil in Hmode.
    destruct Hmode as [->|[->|[Hm|[]]]]; [done..|]. rewrite Hm. cbn.
    destruct Hf2; [|done]. apply Hiff in Hm. done. }
  destruct (co_backends _ _ Hok) as [_ Hall]. destruct (bk_dest _ _ _ (Hall _ _ Hb))
    as (u & host & port & Hu & Hs & Hh & Hp & Hsch & Husr & Hq & Hfr & Hpath & Hlo & Hci). fold bn in Hlo, Hci.
  exists (mkPolicy (bn_Mode bn) ns), u. unfold PolicyFromConfig. rewrite Hns, Hpp. split; [done|].
  unfold new_destination, parseBaseURL. rewrite Hpp, Hu, Husr, Hq, Hfr, Hs.
  assert (String.eqb (url_Hostname u) "" = false) as -> by (apply String.eqb_neq; by eapply hostname_nonempty).
  assert (negb (String.eqb (u_Scheme u) "http") && negb (String.eqb (u_Scheme u) "https") = false) as ->
    by (by destruct Hsch as [-> | ->]).
  assert (negb (String.eqb (u_Path u) "") && negb (String.eqb (u_Path u) "/") = false) as ->
    by (by destruct Hpath as [-> | ->]).
  cbn [negb String.eqb]. destruct port as [|pc0 port]; [done|].
  unfold splitHostPort. rewrite Hs. cbn [fst].
  destruct (ParseIP host) as [ip|] eqn:Eip; [|done].
  assert (allow (mkPolicy (bn_Mode bn) ns) ip = true) as ->; [|done].
  unfold ParseIP in Eip. destruct (ParseAddr host) as [a|] eqn:Ea; [|done].
  destruct (String.eqb_spec (Zone a) "") as [Ez|]; [|done]. injection Eip as <-.
  unfold allow. cbn [pol_Mode pol_CIDRs]. rewrite !elem_of_cons, elem_of_nil in Hmode.
  destruct Hmode as [Hm|[Hm|[Hm|[]]]]; rewrite Hm; cbn.
  - eapply addr_loopback_As16; [done..|]. specialize (Hlo Hm). unfold isLoopbackHost in Hlo. by rewrite Ea in Hlo.
  - done.
  - specialize (Hci Hm a eq_refl). unfold inAnyPrefix in Hci. apply existsb_exists in Hci as (p & Hpin & Hcont).
    apply list_elem_of_In, list_elem_of_omap in Hpin as (c & Hc & Hpc).
    apply list_elem_of_lookup in Hc as [i Hi]. destruct (Forall2_lookup_l _ _ _ _ _ Hf2 Hi) as (n & Hni & Hcn).
    apply existsb_exists. exists n. split; [apply list_elem_of_In; by eapply list_elem_of_lookup_2|].
    rewrite (prefix_ipnet_contains c p n host a Hpc Hcn Ea); [done| |done].
    intros m z ->. destruct (To4 m) eqn:E4; [|done]. exfalso. eapply Hmap; [done..|]. exists m, z.
    split; [done|]. by rewrite E4.
Qed.
End ConfigAgreement.

(** ** [Forward]: theorems *)

(** What [Forward] hands back.  However the upstream behaves: the slot is
    kept exactly when a live stream is returned, which only happens for a
    streaming request answered 200 with an event-stream body; a buffered
    body never exceeds the response bound; redirects and error statuses are
    never returned as a success; and without a response there is an error. *)
Theorem forward_outcome_safe mrb stream bounded o res err released :
  0 <= mrb -> forward_outcome mrb stream bounded o = ((res, err), released) ->
  (released = false <-> exists r, res = Some r /\ Live r = true)
  /\ (forall r, res = Some r -> slen (BodyBytes r) <= mrb
      /\ (Live r = true -> stream = true /\ Status r = 200 /\ err = None)
      /\ (err = None -> Status r < 300))
  /\ (res = None -> err <> None).
Proof.
  intros Hm. unfold forward_outcome. destruct o as [|e|status ctype body].
  - intros [= <- <- <-]. split_and!; try done. split; [done|]. by intros (? & ? & _).
  - intros [= <- <- <-]. split_and!; try done. split; [done|]. by intros (? & ? & _).
  - destruct (stream && (status =? 200) && isEventStream ctype) eqn:Es.
    { apply andb_prop in Es as [Es _]. apply andb_prop in Es as [-> ->%Z.eqb_eq].
      intros [= <- <- <-]. split; [split; eauto|]. split; [|done].
      intros r [= <-]. cbn. split; [done|]. split; [done|]. lia. }
    destruct body as [body|e fired].
    + destruct (Z.ltb_spec mrb (slen (stake (Z.to_nat (mrb + 1)) body))).
      { intros [= <- <- <-]. split_and!; try done. split; [done|]. by intros (? & ? & _). }
      destruct (Z.leb_spec 300 status); intros [= <- <- <-];
        (split; [split; [done|by intros (? & [= <-] & ?)]|]); (split; [|done]);
        intros r [= <-]; cbn [BodyBytes Live Status]; by (split; [lia|]; split; [done|intros; try done; lia]).
    + intros [= <- <- <-]. split_and!; try done. split; [done|]. by intros (? & ? & _).
Qed.

(** ** Witnesses *)

Module BackendDemo.
Definition b : Backend := mkBackend "gpu" "http://127.0.0.1:8000" "qwen" "" Second Second Second Second 1 1 Second false.
Definition a1 : Admission := take_conc (NewAdmission b).
Definition s1 : pool := mkPool a1 [PHeld].
Definition env0 : req_env := mkEnv None false.
(** A dual-stack network written as an IPv6 prefix. *)
Definition bn6 : BackendNetwork := mkBackendNetwork "allowed-cidrs" ["::/0"].
Definition b6 : Backend := mkBackend "gpu" "http://[::ffff:10.0.0.1]:80" "qwen" "" Second Second Second Second 1 1 Second false.
Definition urls6 (s : string) : option URL :=
  if String.eqb s "http://[::ffff:10.0.0.1]:80" then Some (mkURL "http" false "[::ffff:10.0.0.1]:80" "" "" "") else None.
End BackendDemo.

(** An IPv4 address in IPv6 form passes configuration validation under
    "::/0" and is then refused when the client is built. *)
Example mapped_host_refused_at_start :
  validate_backend BackendDemo.urls6 BackendDemo.bn6 (omap ParsePrefix (bn_CIDRs BackendDemo.bn6)) "b" BackendDemo.b6 = []
  /\ exists p, PolicyFromConfig BackendDemo.bn6 = Ok p
     /\ new_destination BackendDemo.urls6 p (BaseURL BackendDemo.b6) = Err (inr tt).
Proof.
  split; [vm_compute; reflexivity|]. exists (mkPolicy "allowed-cidrs" [mkIPNet 0 false 0]).
  split; vm_compute; reflexivity.
Qed.


Lemma policyDial_allowed_witness :
  allow (mkPolicy "loopback-only" []) 281472812449793 = true
  /\ (exists host, SplitHostPort "localhost:80" = Some (host, "80"))
  /\ ("loopback-only" = "loopback-only" -> ip_is_loopback 281472812449793 = true).
Proof.
  apply (policyDial_allowed (mkPolicy "loopback-only" []) (fun _ => Ok [281470849982465; 281472812449793]) (fun _ => Ok tt)
    "tcp" "localhost:80" 281472812449793 "80").
  vm_compute. reflexivity.
Defined.

Lemma validated_backends_start_witness :
  exists p u, PolicyFromConfig (sec_BackendNetwork (c_Security (applyDefaults ConfigDemo.cfg))) = Ok p
    /\ new_destination ConfigDemo.urls p "http://127.0.0.1:8000" = Ok (p, u).
Proof.
  assert (Hv : validate ConfigDemo.urls (applyDefaults ConfigDemo.cfg) = []) by (vm_compute; reflexivity).
  set (b := default BackendDemo.b (Backends (applyDefaults ConfigDemo.cfg) !! defaultBackendName "qwen" "gpu")).
  assert (Hb : Backends (applyDefaults ConfigDemo.cfg) !! defaultBackendName "qwen" "gpu" = Some b) by (vm_compute; reflexivity).
  assert (Hu : BaseURL b = "http://127.0.0.1:8000") by (vm_compute; reflexivity).
  rewrite <- Hu. apply (validated_backends_start ConfigDemo.urls (applyDefaults ConfigDemo.cfg) (defaultBackendName "qwen" "gpu") b
    (validate_ok ConfigDemo.urls _ Hv) Hb).
  rewrite Hu. intros u host port Hp Hs (n & z & Ha & _). vm_compute in Hp. injection Hp as <-.
  vm_compute in Hs. injection Hs as <- <-. vm_compute in Ha. discriminate Ha.
Defined.

Lemma forward_outcome_safe_witness :
  (false = false <-> exists r, Some (mkRes 200 "" true) = Some r /\ Live r = true)
  /\ (forall r, Some (mkRes 200 "" true) = Some r -> slen (BodyBytes r) <= 64
      /\ (Live r = true -> true = true /\ Status r = 200 /\ (None : option backend_error) = None)
      /\ ((None : option backend_error) = None -> Status r < 300))
  /\ (Some (mkRes 200 "" true) = None -> (None : option backend_error) <> None).
Proof.
  apply (forward_outcome_safe 64 true true (HResp 200 "text/event-stream; charset=utf-8" (BodyAll "data: x"))); [lia|].
  vm_compute. reflexivity.
Defined.
