(* ===== verification/Affinity.v ===== *)
(** * Responses affinity: [internal/proxy/affinity.go]

    The bounded table that pins a stored response to the backend that
    created it, per API key.  The clock and the iteration order of the map
    are arguments. *)

From S2P Require Import Prelude.

(* src: internal/proxy/affinity.go affKey *)
Record affKey := mkAffKey { a_KeyID : string; a_RespID : string }.
#[export] Instance affKey_eq_dec : EqDecision affKey.
Proof. solve_decision. Defined.
#[export] Instance affKey_countable : Countable affKey.
Proof.
  refine (inj_countable' (fun k => (a_KeyID k, a_RespID k)) (fun p => mkAffKey p.1 p.2) _). by intros [].
Defined.

(* src: internal/proxy/affinity.go affVal *)
Record affVal := mkAffVal { v_Backend : string; v_Model : string; v_Expiry : time }.

(* src: internal/proxy/affinity.go affinity *)
Record affinity := mkAffinity { aff_ttl : duration; aff_max : Z; aff_table : gmap affKey affVal }.

(* src: internal/proxy/affinity.go newAffinity *)
Definition newAffinity (ttl : duration) (max : Z) : affinity :=
  mkAffinity ttl (if max <=? 0 then 1 else max) ∅.

(* src: internal/proxy/affinity.go evictProbeBudget *)
Definition evictProbeBudget : Z := 64.

(** The loop of [evictLocked] over the entries in iteration order. *)
(* src: internal/proxy/affinity.go 96-108 affinity.evictLocked *)
Fixpoint evict_loop (max : Z) (now : time) (order : list (affKey * affVal)) (table : gmap affKey affVal)
    (probed : Z) (oldest : option (affKey * time)) : gmap affKey affVal * option (affKey * time) :=
  match order with
  | [] => (table, oldest)
  | (k, v) :: order =>
      if After now (v_Expiry v) then evict_loop max now order (delete k table) probed oldest
      else
        let probed := probed + 1 in
        let better := match oldest with None => true | Some (_, t) => Before (v_Expiry v) t end in
        let oldest := if better then Some (k, v_Expiry v) else oldest in
        if (evictProbeBudget <=? probed) && (max <=? Z.of_nat (size table)) then (table, oldest)
        else evict_loop max now order table probed oldest
  end.

(* src: internal/proxy/affinity.go affinity.evictLocked *)
Definition evictLocked (order : list (affKey * affVal)) (a : affinity) (now : time) : affinity :=
  if Z.of_nat (size (aff_table a)) <? aff_max a then a
  else
    let '(table, oldest) := evict_loop (aff_max a) now order (aff_table a) 0 None in
    let table := if aff_max a <=? Z.of_nat (size table)
                 then match oldest with Some (k, _) => delete k table | None => table end
                 else table in
    mkAffinity (aff_ttl a) (aff_max a) table.

(* src: internal/proxy/affinity.go affinity.Put *)
Definition Put (order : list (affKey * affVal)) (a : affinity) (now : time)
    (keyID respID backend publicModel : string) : affinity :=
  let a := evictLocked order a now in
  mkAffinity (aff_ttl a) (aff_max a)
    (<[mkAffKey keyID respID := mkAffVal backend publicModel (time_add now (aff_ttl a))]> (aff_table a)).

(* src: internal/proxy/affinity.go affinity.Get *)
Definition Get (a : affinity) (now : time) (keyID respID : string) : affinity * option (string * string) :=
  let k := mkAffKey keyID respID in
  match aff_table a !! k with
  | None => (a, None)
  | Some v =>
      if After now (v_Expiry v) then (mkAffinity (aff_ttl a) (aff_max a) (delete k (aff_table a)), None)
      else (a, Some (v_Backend v, v_Model v))
  end.

(** ** Histories *)

Inductive aop :=
| APut (order : list (affKey * affVal)) (now : time) (keyID respID backend publicModel : string)
| AGet (now : time) (keyID respID : string).

Definition run_op (a : affinity) (op : aop) : affinity :=
  match op with
  | APut order now k r b m => Put order a now k r b m
  | AGet now k r => (Get a now k r).1
  end.
Definition run (a : affinity) (ops : list aop) : affinity := fold_left run_op ops a.

(** The last value stored under (key, response), and when. *)
Fixpoint last_put (ops : list aop) (k r : string) (acc : option (time * string * string))
  : option (time * string * string) :=
  match ops with
  | [] => acc
  | APut _ now k' r' b m :: ops =>
      last_put ops k r (if bool_decide (mkAffKey k' r' = mkAffKey k r) then Some (now, b, m) else acc)
  | AGet _ _ _ :: ops => last_put ops k r acc
  end.

(** The iteration orders given to the operations are orders of the table. *)
Fixpoint orders_ok (a : affinity) (ops : list aop) : Prop :=
  match ops with
  | [] => True
  | op :: ops =>
      match op with APut order _ _ _ _ _ => order ≡ₚ map_to_list (aff_table a) | AGet _ _ _ => True end
      /\ orders_ok (run_op a op) ops
  end.

(** ** Eviction *)

Lemma evict_loop_sub max now order table probed oldest k v :
  (evict_loop max now order table probed oldest).1 !! k = Some v -> table !! k = Some v.
Proof.
  revert table probed oldest. induction order as [|[k' v'] order IH]; intros table probed oldest; cbn; [done|].
  destruct (After now (v_Expiry v')).
  - intros Hl%IH. by apply lookup_delete_Some in Hl as [_ ?].
  - destruct (_ && _); [done|apply IH].
Qed.

(** Either the loop remembers an entry of the table, or it has emptied the
    table of everything it visited. *)
Lemma evict_loop_oldest max now order (table : gmap affKey affVal) probed oldest :
  (forall k t, oldest = Some (k, t) -> is_Some (table !! k)) ->
  NoDup order.*1 -> (forall k v, (k, v) ∈ order -> table !! k = Some v) ->
  (forall k t, oldest = Some (k, t) -> k ∉ order.*1) ->
  let r := evict_loop max now order table probed oldest in
  (forall k t, r.2 = Some (k, t) -> is_Some (r.1 !! k))
  /\ (r.2 = None -> oldest = None /\ forall k, is_Some (r.1 !! k) -> is_Some (table !! k) /\ k ∉ order.*1).
Proof.
  revert table probed oldest. induction order as [|[k v] order IH]; intros table probed oldest Ho Hnd Hin Hno; cbn.
  { split; [done|]. intros ->. split; [done|]. intros k Hk. split; [done|apply not_elem_of_nil]. }
  cbn in Hnd. apply NoDup_cons in Hnd as [Hni Hnd].
  assert (Hk : table !! k = Some v) by (apply Hin; by left).
  destruct (After now (v_Expiry v)).
  - destruct (IH (delete k table) probed oldest) as [H1 H2].
    + intros k' t He. rewrite lookup_delete_ne; [by eapply Ho|]. intros <-. apply (Hno _ _ He). cbn. by left.
    + done.
    + intros k' v' Hin'. rewrite lookup_delete_ne; [apply Hin; by right|]. intros <-. apply Hni.
      apply list_elem_of_fmap. by exists (k, v').
    + intros k' t He Hin'. apply (Hno _ _ He). cbn. by right.
    + split; [done|]. intros Hr. destruct (H2 Hr) as [? H3]. split; [done|]. intros k' Hk'.
      destruct (H3 _ Hk') as [[x Hx]%lookup_delete_is_Some Hni']. cbn. set_solver.
  - set (oldest' := if match oldest with None => true | Some (_, t) => Before (v_Expiry v) t end
                    then Some (k, v_Expiry v) else oldest).
    assert (Ho' : forall k' t, oldest' = Some (k', t) -> is_Some (table !! k') /\ k' ∉ order.*1).
    { unfold oldest'. intros k' t. destruct oldest as [[k0 t0]|]; [destruct (Before _ _)|]; intros [= <- <-].
      - split; [eauto|done].
      - split; [by eapply Ho|]. specialize (Hno _ _ eq_refl). cbn in Hno. set_solver.
      - split; [eauto|done]. }
    destruct (_ && _).
    + cbn. split; [intros; by eapply Ho'|]. intros Hnone. unfold oldest' in Hnone.
      destruct oldest as [[? ?]|]; [|done]. destruct (Before _ _); done.
    + destruct (IH table (probed + 1) oldest') as [H1 H2].
      * intros; by eapply Ho'. * done. * intros k' v' Hin'. apply Hin. by right. * intros; by eapply Ho'.
      * split; [done|]. intros Hr. destruct (H2 Hr) as [Hn _]. unfold oldest' in Hn.
        destruct oldest as [[? ?]|]; [|done]. destruct (Before _ _); done.
Qed.

Lemma evictLocked_spec order a now : order ≡ₚ map_to_list (aff_table a) -> 1 <= aff_max a ->
  Z.of_nat (size (aff_table a)) <= aff_max a ->
  let a' := evictLocked order a now in
  aff_ttl a' = aff_ttl a /\ aff_max a' = aff_max a
  /\ Z.of_nat (size (aff_table a')) < aff_max a
  /\ forall k v, aff_table a' !! k = Some v -> aff_table a !! k = Some v.
Proof.
  intros Hord Hm Hs. unfold evictLocked. destruct (Z.ltb_spec (Z.of_nat (size (aff_table a))) (aff_max a)); [done|].
  pose proof (evict_loop_sub (aff_max a) now order (aff_table a) 0 None) as Hsub.
  destruct (evict_loop_oldest (aff_max a) now order (aff_table a) 0 None) as [H1 H2]; try done.
  { rewrite Hord. apply NoDup_fst_map_to_list. }
  { intros k v Hin. apply elem_of_map_to_list. by rewrite <- Hord. }
  destruct (evict_loop _ _ _ _ _ _) as [table oldest] eqn:E. cbn in *.
  do 2 (split; [done|]).
  assert (Hle : (size table <= size (aff_table a))%nat).
  { apply map_subseteq_size, map_subseteq_spec. exact Hsub. }
  destruct (Z.leb_spec (aff_max a) (Z.of_nat (size table))).
  - destruct oldest as [[k t]|].
    + destruct (H1 k t eq_refl) as [v Hv]. split.
      * rewrite map_size_delete_Some by eauto. lia.
      * intros k' v' [_ Hk']%lookup_delete_Some. auto.
    + exfalso. destruct (H2 eq_refl) as [_ Hall].
      assert (table = ∅) as ->; [|rewrite map_size_empty in *; lia].
      apply map_eq. intros k. rewrite lookup_empty. destruct (table !! k) as [v|] eqn:Ek; [|done]. exfalso.
      destruct (Hall k ltac:(eauto)) as [[v' Hv'] Hni]. apply Hni. rewrite Hord.
      apply list_elem_of_fmap. exists (k, v'). split; [done|]. by apply elem_of_map_to_list.
  - split; [lia|done].
Qed.

(** ** Invariant of a history *)

Record aff_inv (ttl : duration) (max : Z) (ops : list aop) (a : affinity) : Prop := {
  ai_ttl : aff_ttl a = ttl;
  ai_max : aff_max a = max;
  ai_size : Z.of_nat (size (aff_table a)) <= max;
  ai_last : forall k r v, aff_table a !! mkAffKey k r = Some v ->
    exists t, last_put ops k r None = Some (t, v_Backend v, v_Model v) /\ v_Expiry v = t + ttl
}.

Lemma last_put_app ops op k r acc :
  last_put (ops ++ [op]) k r acc = last_put [op] k r (last_put ops k r acc).
Proof. revert acc. induction ops as [|[] ops IH]; intros acc; cbn [last_put app]; auto. Qed.

Lemma aff_inv_step ttl max ops a op : 1 <= max ->
  match op with APut order _ _ _ _ _ => order ≡ₚ map_to_list (aff_table a) | AGet _ _ _ => True end ->
  aff_inv ttl max ops a -> aff_inv ttl max (ops ++ [op]) (run_op a op).
Proof.
  intros Hm Hord [Ht Hmx Hs Hl]. destruct op as [order now k r b m|now k r]; cbn [run_op].
  - destruct (evictLocked_spec order a now Hord) as (Ht' & Hm' & Hs' & Hsub); [lia|lia|].
    unfold Put. set (a' := evictLocked order a now) in *. split; cbn.
    + congruence.
    + congruence.
    + rewrite map_size_insert. destruct (aff_table a' !! mkAffKey k r); cbn; lia.
    + intros k' r' v. rewrite last_put_app. cbn [last_put].
      destruct (decide (mkAffKey k r = mkAffKey k' r')) as [Heq|Hne].
      * rewrite bool_decide_true by done. rewrite Heq, lookup_insert_eq. intros [= <-]. cbn. exists now. split; [done|].
        unfold time_add. congruence.
      * rewrite bool_decide_false by done. rewrite lookup_insert_ne by done. intros Hv%Hsub. by apply Hl.
  - assert (Hrun : forall v k' r', aff_table (Get a now k r).1 !! mkAffKey k' r' = Some v -> aff_table a !! mkAffKey k' r' = Some v).
    { intros v k' r'. unfold Get. destruct (aff_table a !! mkAffKey k r); [|done]. destruct (After _ _); [|done].
      cbn. by intros [_ ?]%lookup_delete_Some. }
    split.
    + unfold Get. by repeat case_match.
    + unfold Get. by repeat case_match.
    + assert (size (aff_table (Get a now k r).1) <= size (aff_table a))%nat; [|lia].
      apply map_subseteq_size, map_subseteq_spec. intros [k' r'] v. apply Hrun.
    + intros k' r' v Hv%Hrun. rewrite last_put_app. cbn. by apply Hl.
Qed.

Lemma aff_inv_run ttl max ops0 ops a : 1 <= max -> orders_ok a ops ->
  aff_inv ttl max ops0 a -> aff_inv ttl max (ops0 ++ ops) (run a ops).
Proof.
  intros Hm. revert ops0 a. induction ops as [|op ops IH]; intros ops0 a Hok Hi; [by rewrite app_nil_r|].
  destruct Hok as [Hord Hok]. change (run a (op :: ops)) with (run (run_op a op) ops).
  replace (ops0 ++ op :: ops) with ((ops0 ++ [op]) ++ ops) by (by rewrite <- app_assoc).
  apply IH; [done|]. by apply aff_inv_step.
Qed.

(** Responses stay with the key that created them.  After any sequence
    of stores and lookups, with any map iteration orders: the table holds at
    most the configured number of entries; and a lookup by key [k] for
    response [r] returns a backend only if [k] itself stored [r], returns
    exactly what [k] stored last, and only while that is not older than the
    time to live.  A different key never sees it. *)
Theorem affinity_isolated ttl max ops now k r b m :
  orders_ok (newAffinity ttl max) ops ->
  let a := run (newAffinity ttl max) ops in
  Z.of_nat (size (aff_table a)) <= Z.max 1 max
  /\ ((Get a now k r).2 = Some (b, m) ->
      exists t, last_put ops k r None = Some (t, b, m) /\ now <= t + ttl).
Proof.
  intros Hok a. assert (aff_inv ttl (Z.max 1 max) ops a) as [Ht Hm Hs Hl].
  { apply (aff_inv_run ttl (Z.max 1 max) [] ops (newAffinity ttl max)); [lia|done|].
    split; [done|cbn; destruct (Z.leb_spec max 0); lia|cbn [aff_table newAffinity]; rewrite map_size_empty; lia|].
    intros ? ? v Hv. cbn [aff_table newAffinity] in Hv. by rewrite lookup_empty in Hv. }
  split; [done|]. unfold Get. destruct (aff_table a !! mkAffKey k r) as [v|] eqn:E; [|done].
  unfold After. destruct (Z.ltb_spec (v_Expiry v) now); [done|]. cbn. intros [= <- <-].
  destruct (Hl _ _ _ E) as (t & Hlast & He). exists t. split; [done|lia].
Qed.

(** A stored response is found: right after a store, and for as long as
    its time to live has not passed, the same key gets back the backend and
    model it stored, even when the store had to evict. *)
Theorem affinity_put_get order a now now' k r b m :
  now' <= now + aff_ttl a -> (Get (Put order a now k r b m) now' k r).2 = Some (b, m).
Proof.
  intros Ht. unfold Get, Put. cbn [aff_table]. rewrite lookup_insert_eq. cbn. unfold After, time_add.
  assert (aff_ttl (evictLocked order a now) = aff_ttl a) as ->.
  { unfold evictLocked. repeat case_match; done. }
  destruct (Z.ltb_spec (now + aff_ttl a) now'); [lia|done].
Qed.

(** ** Witnesses *)
Module AffinityDemo.
Definition ops : list aop := [APut [] 0 "k1" "resp_1" "b" "m"; AGet 5 "k2" "resp_1"].
End AffinityDemo.

Lemma affinity_isolated_witness :
  (Get (run (newAffinity 10 4) AffinityDemo.ops) 7 "k1" "resp_1").2 = Some ("b", "m")
  /\ exists t, last_put AffinityDemo.ops "k1" "resp_1" None = Some (t, "b", "m") /\ 7 <= t + 10.
Proof.
  split; [vm_compute; reflexivity|].
  refine (proj2 (affinity_isolated 10 4 AffinityDemo.ops 7 "k1" "resp_1" "b" "m" _) _).
  - cbn. split; [|done]. reflexivity.
  - vm_compute. reflexivity.
Defined.

Lemma affinity_put_get_witness :
  (Get (Put [] (newAffinity 10 4) 3 "k1" "resp_1" "b" "m") 13 "k1" "resp_1").2 = Some ("b", "m").
Proof. apply affinity_put_get. vm_compute. discriminate. Defined.
