(* ===== verification/Budget.v ===== *)
(** * The byte budget: [internal/proxy/budget.go]

    A process-wide weighted budget taken with a compare-and-swap loop.  The
    atomic counter is shared state; every atomic operation is one step, and
    requests interleave freely. *)

From S2P Require Import Prelude.

(* src: internal/proxy/budget.go budgetWeight *)
Definition budgetWeight : Z := 16.

(* src: internal/proxy/budget.go budget *)
Record budget := mkBudget { b_total : Z; b_used : Z }.

(* src: internal/proxy/budget.go newBudget *)
Definition newBudget (total : Z) : budget := mkBudget total 0.

(** A request inside [Acquire], or holding its reservation. *)
Inductive bpc :=
| BEnter (n : Z)                 (* called with [n] body bytes *)
| BLoop (n : Z)                  (* at the top of the loop *)
| BLoaded (n cur : Z)            (* has loaded [cur] *)
| BRefused
| BHolding (n : Z)
| BDone.

(** The next state of a request; at most one, since the code is
    deterministic between atomic operations. *)
(* src: internal/proxy/budget.go budget.Acquire *)
Definition Acquire_step (b : budget) (p : bpc) : option (budget * bpc) :=
  match p with
  | BEnter n =>
      if Z.quot (b_total b) budgetWeight <? n then Some (b, BRefused) else Some (b, BLoop n)
  | BLoop n => Some (b, BLoaded n (b_used b))
  | BLoaded n cur =>
      let weight := wrap64 (n * budgetWeight) in
      if b_total b <? wrap64 (cur + weight) then Some (b, BRefused)
      else if b_used b =? cur then Some (mkBudget (b_total b) (wrap64 (cur + weight)), BHolding n)
      else Some (b, BLoop n)
  | BRefused | BHolding _ | BDone => None
  end.

(* src: internal/proxy/budget.go budget.Release *)
Definition Release (b : budget) (n : Z) : budget :=
  mkBudget (b_total b) (wrap64 (b_used b + wrap64 (- n * budgetWeight))).

Record bpool := mkBPool { bp_budget : budget; bp_reqs : list bpc }.

Inductive bstep : bpool -> bpool -> Prop :=
| bs_enter b l n : 0 <= n -> bstep (mkBPool b l) (mkBPool b (l ++ [BEnter n]))
| bs_acquire b l i p b' p' :
    l !! i = Some p -> Acquire_step b p = Some (b', p') ->
    bstep (mkBPool b l) (mkBPool b' (<[i := p']> l))
| bs_shrink b l i n k :             (* readBody gives back what the body did not use *)
    l !! i = Some (BHolding n) -> 0 <= k <= n ->
    bstep (mkBPool b l) (mkBPool (Release b (n - k)) (<[i := BHolding k]> l))
| bs_release b l i n :
    l !! i = Some (BHolding n) ->
    bstep (mkBPool b l) (mkBPool (Release b n) (<[i := BDone]> l)).

(** Bytes reserved by a request. *)
Definition reserved (p : bpc) : Z := match p with BHolding n => n * budgetWeight | _ => 0 end.
Definition body_ok (total : Z) (p : bpc) : Prop :=
  match p with
  | BEnter n => 0 <= n
  | BLoop n | BLoaded n _ | BHolding n => 0 <= n /\ n * budgetWeight <= total
  | BRefused | BDone => True
  end.

Lemma zsum_insert {A} (f : A -> Z) (l : list A) i x y : l !! i = Some x ->
  zsum (map f (<[i := y]> l)) = zsum (map f l) - f x + f y.
Proof.
  revert i. induction l as [|a l IH]; intros [|i] Hl; try done; cbn in Hl.
  - injection Hl as ->. change (<[0%nat := y]> (x :: l)) with (y :: l). cbn. rewrite !zsum_cons. lia.
  - change (<[S i := y]> (a :: l)) with (a :: <[i := y]> l). cbn. rewrite !zsum_cons, (IH _ Hl). lia.
Qed.

Record budget_inv (total : Z) (s : bpool) : Prop := {
  bi_total : b_total (bp_budget s) = total;
  bi_used : b_used (bp_budget s) = zsum (map reserved (bp_reqs s));
  bi_bound : b_used (bp_budget s) <= total;
  bi_body : Forall (body_ok total) (bp_reqs s);
  bi_cur : Forall (fun p => match p with BLoaded _ cur => 0 <= cur <= total | _ => True end) (bp_reqs s)
}.

Lemma reserved_nonneg total l : Forall (body_ok total) l -> 0 <= zsum (map reserved l).
Proof.
  intros Hall. apply zsum_nonneg, Forall_map. eapply Forall_impl; [exact Hall|].
  intros p Hp. unfold budgetWeight in *. destruct p; cbn in *; unfold budgetWeight in *; lia.
Qed.

(** Giving back bytes that are held does not overflow. *)
Lemma Release_exact b n k : 0 <= k <= n -> n * budgetWeight <= b_total b -> 2 * b_total b <= MaxInt64 ->
  0 <= b_used b <= b_total b -> Release b k = mkBudget (b_total b) (b_used b - k * budgetWeight).
Proof.
  unfold Release, budgetWeight. intros Hk Hn Hm Hu.
  rewrite (wrap64_id (- k * 16)) by (int64_unfold; lia). rewrite wrap64_id by (int64_unfold; lia). f_equal. lia.
Qed.

Lemma budget_inv_step total s s' : 0 <= total -> 2 * total <= MaxInt64 ->
  bstep s s' -> budget_inv total s -> budget_inv total s'.
Proof.
  intros H0 Hmax Hs [Ht Hu Hb Hbody Hcur].
  assert (Hpos : 0 <= b_used (bp_budget s)) by (rewrite Hu; by eapply reserved_nonneg).
  destruct Hs as [b l n Hn|b l i p b' p' Hl Hstep|b l i n k Hl Hk|b l i n Hl]; cbn in *.
  - split; cbn; try done.
    + rewrite map_app, zsum_app. cbn. rewrite zsum_cons, zsum_nil. cbn. lia.
    + apply Forall_app. split; [done|]. by constructor.
    + apply Forall_app. split; [done|]. by constructor.
  - assert (Hp : body_ok total p) by (rewrite Forall_lookup in Hbody; by eapply Hbody).
    assert (Hins : forall q, body_ok total q -> Forall (body_ok total) (<[i := q]> l)) by (intros; by apply Forall_insert).
    assert (Hcins : forall q, (match q with BLoaded _ cur => 0 <= cur <= total | _ => True end) ->
      Forall (fun p => match p with BLoaded _ cur => 0 <= cur <= total | _ => True end) (<[i := q]> l))
      by (intros; by apply Forall_insert).
    pose proof (zsum_insert reserved l i p) as Hz.
    destruct p as [n|n|n cur| | |]; cbn in Hstep; try done.
    + destruct (Z.ltb_spec (Z.quot (b_total b) budgetWeight) n) as [?|Hle]; injection Hstep as <- <-;
        split; cbn; try done; try (by apply Hins); try (by apply Hcins); try (rewrite (Hz _ Hl); cbn; lia).
      apply Hins. split; [done|]. rewrite Ht in Hle. unfold budgetWeight in *.
      pose proof (Z.mul_quot_le total 16 H0 ltac:(lia)). lia.
    + injection Hstep as <- <-. split; cbn; try done; try (by apply Hins); try (rewrite (Hz _ Hl); cbn; lia).
      apply Hcins. lia.
    + destruct Hp as [Hn Hw].
      assert (Hc : 0 <= cur <= total) by (rewrite Forall_lookup in Hcur; apply (Hcur _ _ Hl)).
      rewrite (wrap64_id (n * budgetWeight)) in Hstep by (unfold budgetWeight in *; int64_unfold; lia).
      rewrite (wrap64_id (cur + n * budgetWeight)) in Hstep by (unfold budgetWeight in *; int64_unfold; lia).
      destruct (Z.ltb_spec (b_total b) (cur + n * budgetWeight));
        [|destruct (Z.eqb_spec (b_used b) cur)]; injection Hstep as <- <-;
        split; cbn; try done; try lia; try (by apply Hins); try (by apply Hcins); try (rewrite (Hz _ Hl); cbn; lia).
  - assert (Hp : body_ok total (BHolding n)) by (rewrite Forall_lookup in Hbody; by eapply Hbody).
    rewrite (Release_exact b n (n - k)) by (destruct Hp; rewrite ?Ht; lia).
    pose proof (zsum_insert reserved l i _ (BHolding k) Hl) as Hz. cbn in Hz, Hp. unfold budgetWeight in *.
    split; cbn; try lia; apply Forall_insert; try done. cbn. unfold budgetWeight. lia.
  - assert (Hp : body_ok total (BHolding n)) by (rewrite Forall_lookup in Hbody; by eapply Hbody).
    pose proof (zsum_insert reserved l i _ BDone Hl) as Hz. cbn in Hz, Hp.
    assert (Hrest : 0 <= zsum (map reserved (<[i := BDone]> l))).
    { eapply reserved_nonneg. by apply Forall_insert. }
    rewrite (Release_exact b n n) by (destruct Hp; rewrite ?Ht; lia). unfold budgetWeight in *.
    split; cbn; try lia; by apply Forall_insert.
Qed.

(** C37: The byte budget is never oversubscribed.  Under any interleaving of
    the compare-and-swap loops of concurrent requests (failed swaps and
    retries included), the reserved total is exactly the weighted bodies of
    the requests currently admitted, never exceeds the budget, and returns
    to what it was on release; none of the int64 operations overflows, for
    budgets up to half the int64 range. *)
Theorem budget_never_oversubscribed total s :
  0 <= total -> 2 * total <= MaxInt64 ->
  rtc bstep (mkBPool (newBudget total) []) s ->
  b_used (bp_budget s) = zsum (map reserved (bp_reqs s))
  /\ 0 <= b_used (bp_budget s) <= total.
Proof.
  intros H0 Hm Hr. assert (budget_inv total s) as [_ Hu Hb Hbody _].
  { cut (forall s0, rtc bstep s0 s -> budget_inv total s0 -> budget_inv total s).
    { intros Hc. eapply Hc; [done|]. by split. }
    induction 1; eauto using budget_inv_step. }
  split; [done|]. split; [|done]. rewrite Hu. by eapply reserved_nonneg.
Qed.

(** Run without interference, [Acquire] decides within three steps: it
    admits a request exactly when its weighted body fits in what is left of
    the budget, and then reserves exactly that. *)
Theorem budget_acquire_alone total used n :
  0 <= used <= total -> 2 * total <= MaxInt64 -> 0 <= n ->
  let b := mkBudget total used in
  exists p, p = (if n * budgetWeight <=? total - used then BHolding n else BRefused)
  /\ (Acquire_step b (BEnter n) = Some (b, BRefused) /\ p = BRefused
      \/ Acquire_step b (BEnter n) = Some (b, BLoop n)
         /\ Acquire_step b (BLoop n) = Some (b, BLoaded n used)
         /\ exists b', Acquire_step b (BLoaded n used) = Some (b', p)
              /\ b_used b' = used + (match p with BHolding _ => n * budgetWeight | _ => 0 end)).
Proof.
  intros Hu Hm Hn b. eexists. split; [done|]. cbn.
  pose proof (Z.mul_quot_le total 16 ltac:(lia) ltac:(lia)) as Hq.
  pose proof (Z.mul_succ_quot_gt total 16 ltac:(lia) ltac:(lia)) as Hq2.
  destruct (Z.ltb_spec (Z.quot total budgetWeight) n) as [Hlt|Hge]; unfold budgetWeight in *.
  - left. split; [done|]. destruct (Z.leb_spec (n * 16) (total - used)); [lia|done].
  - right. split; [done|]. split; [done|].
    rewrite (wrap64_id (n * 16)) by (int64_unfold; lia). rewrite (wrap64_id (used + n * 16)) by (int64_unfold; lia).
    destruct (Z.ltb_spec total (used + n * 16)), (Z.leb_spec (n * 16) (total - used)); try lia.
    + eexists. split; [done|]. cbn. lia.
    + rewrite Z.eqb_refl. eexists. split; [done|]. done.
Qed.

Module BudgetDemo.
Definition s : bpool := mkBPool (mkBudget 64 48) [BHolding 3].
End BudgetDemo.

Lemma budget_never_oversubscribed_witness :
  48 = zsum (map reserved (bp_reqs BudgetDemo.s)) /\ 0 <= 48 <= 64.
Proof.
  apply (budget_never_oversubscribed 64 BudgetDemo.s); [lia|vm_compute; discriminate|].
  eapply rtc_l; [apply (bs_enter (newBudget 64) [] 3); lia|].
  eapply rtc_l; [apply (bs_acquire (newBudget 64) [BEnter 3] 0%nat (BEnter 3) (newBudget 64) (BLoop 3)); reflexivity|].
  eapply rtc_l; [apply (bs_acquire (newBudget 64) [BLoop 3] 0%nat (BLoop 3) (newBudget 64) (BLoaded 3 0)); reflexivity|].
  apply rtc_once. apply (bs_acquire (newBudget 64) [BLoaded 3 0] 0%nat (BLoaded 3 0) (mkBudget 64 48) (BHolding 3)); reflexivity.
Defined.

Lemma budget_acquire_alone_witness :
  exists p, p = BHolding 1 /\ exists b', Acquire_step (mkBudget 64 48) (BLoaded 1 48) = Some (b', p) /\ b_used b' = 64.
Proof.
  pose proof (budget_acquire_alone 64 48 1 ltac:(lia) ltac:(vm_compute; discriminate) ltac:(lia)) as (p & -> & [[Hx _]|(_ & _ & b' & Hb & Hu)]).
  - vm_compute in Hx. discriminate Hx.
  - exists (BHolding 1). split; [reflexivity|]. exists b'. split; [exact Hb|]. exact Hu.
Defined.
