(* ===== verification/Sse.v ===== *)
(** * Server-sent events: [internal/proxy/sse.go]

    The bounded line and event reader over an upstream stream.  A stream is
    the bytes still to come and how it ends.  The parser keeps nothing
    between calls of [nextEvent] (its accumulators are reset on every
    return), so the reader is a function of the remaining stream. *)

From S2P Require Import Prelude GoStrings.
From Stdlib Require Import Ascii.

(* src: internal/proxy/sse.go 19-20 maxSSELine *)
Definition maxSSELine : Z := 256 * 1024.
(* src: internal/proxy/sse.go 21-22 maxSSEEvent *)
Definition maxSSEEvent : Z := 1024 * 1024.

(** How a read can end.  [SStream e] is an error of the transport. *)
Inductive sse_error := SEOF | SLineTooLarge | SEventTooLarge | SStream (e : string).

(** How the stream ends once its bytes are consumed: [None] is a clean end. *)
Record sse_stream := mkStream { s_bytes : string; s_end : option string }.

(** The outcome of [readLine]: a terminated line; a final line without
    terminator (returned with [io.EOF]); or an error. *)
Inductive line_result :=
| LLine (line : string)
| LLast (line : string)
| LErr (e : sse_error).

Definition drop_last_cr (rev_line : string) : string :=
  match rev_line with
  | String c r => if Ascii.eqb c ch_cr then r else rev_line
  | "" => ""
  end.

Fixpoint srev_append (a b : string) : string :=
  match a with "" => b | String c a => srev_append a (String c b) end.
Definition srev (s : string) : string := srev_append s "".

(** [rev_line] is the line read so far, newest byte first, and [n] its
    length. *)
(* src: internal/proxy/sse.go sseParser.readLine *)
Fixpoint readLine (rev_line : string) (n : Z) (bytes : string) (fin : option string) : line_result * string :=
  match bytes with
  | "" =>
      match fin with
      | Some e => (LErr (SStream e), "")
      | None => (if n =? 0 then LErr SEOF else LLast (srev rev_line), "")
      end
  | String b rest =>
      if Ascii.eqb b ch_nl then (LLine (srev (drop_last_cr rev_line)), rest)
      else if Ascii.eqb b ch_cr then
        match rest with
        | String c rest' => if Ascii.eqb c ch_nl then (LLine (srev rev_line), rest') else (LLine (srev rev_line), rest)
        | "" => (LLine (srev rev_line), rest)
        end
      else if maxSSELine <=? n then (LErr SLineTooLarge, rest)
      else readLine (String b rev_line) (n + 1) rest fin
  end.

(** [None] is fuel exhaustion. *)
(* src: internal/proxy/sse.go sseParser.nextEvent *)
Fixpoint nextEvent (fuel : nat) (event : string) (bytes : string) (fin : option string)
  : option (result sse_error string * string) :=
  match fuel with
  | O => None
  | S fuel =>
      let have := negb (String.eqb event "") in
      match readLine "" 0 bytes fin with
      | (LErr SEOF, rest) =>
          if have then Some (Ok event, rest) else Some (Err SEOF, rest)
      | (LLast line, rest) =>
          if maxSSEEvent <? slen event + slen line + 2 then Some (Err SEventTooLarge, rest)
          else Some (Ok (event +:+ line), rest)
      | (LErr e, rest) => Some (Err e, rest)
      | (LLine line, rest) =>
          if String.eqb line "" then
            if have then Some (Ok (event +:+ String ch_nl ""), rest)
            else nextEvent fuel event rest fin
          else if maxSSEEvent <? slen event + slen line + 2 then Some (Err SEventTooLarge, rest)
          else nextEvent fuel (event +:+ line +:+ String ch_nl "") rest fin
      end
  end.

(** One event from a stream, with fuel that always suffices. *)
Definition next (s : sse_stream) : option (result sse_error string * sse_stream) :=
  match nextEvent (S (String.length (s_bytes s))) "" (s_bytes s) (s_end s) with
  | Some (r, rest) => Some (r, mkStream rest (s_end s))
  | None => None
  end.

(** Every event of a stream and how it ends. *)
Fixpoint all_events (fuel : nat) (s : sse_stream) : option (list string * sse_error) :=
  match fuel with
  | O => None
  | S fuel =>
      match next s with
      | None => None
      | Some (Err e, _) => Some ([], e)
      | Some (Ok ev, s') =>
          match all_events fuel s' with
          | Some (evs, e) => Some (ev :: evs, e)
          | None => None
          end
      end
  end.

(** ** Data of an event *)

Fixpoint drop_nl (s : string) : string :=
  match s with String c r => if Ascii.eqb c ch_nl then drop_nl r else s | "" => "" end.

(* src: internal/proxy/sse.go TrimEventNewline *)
Definition TrimEventNewline (event : string) : string := srev (drop_nl (srev event)).

(** The value of a [data:] line, its one leading space stripped. *)
Definition data_value (line : string) : option string :=
  if has_prefix "data:" line then
    let l := sdrop 5 line in
    Some (match l with String c r => if Ascii.eqb c ch_space then r else l | "" => "" end)
  else None.

(** The loop over the lines; [sb] is the buffer. *)
Fixpoint data_loop (lines : list string) (sb : string) : string :=
  match lines with
  | [] => sb
  | line :: lines =>
      match data_value line with
      | None => data_loop lines sb
      | Some l => data_loop lines ((if String.eqb sb "" then sb else sb +:+ String ch_nl "") +:+ l)
      end
  end.

(* src: internal/proxy/sse.go dataField *)
Definition dataField (event : string) : option string :=
  let sb := data_loop (split_on ch_nl (TrimEventNewline event)) "" in
  if String.eqb sb "" then None else Some sb.

(** ** Strings *)

Lemma srev_append_app a b : srev_append a b = srev a +:+ b.
Proof.
  unfold srev. revert b. induction a as [|c a IH]; intros b; [done|]. cbn.
  rewrite IH, (IH (String c "")), sapp_assoc. done.
Qed.
Lemma srev_cons c a : srev (String c a) = srev a +:+ String c "".
Proof. unfold srev at 1. cbn. apply srev_append_app. Qed.
Lemma srev_app a b : srev (a +:+ b) = srev b +:+ srev a.
Proof.
  induction a as [|c a IH]; [cbn; by rewrite sapp_nil_r|]. cbn [String.append].
  by rewrite !srev_cons, IH, sapp_assoc.
Qed.
Lemma srev_invol a : srev (srev a) = a.
Proof. induction a as [|c a IH]; [done|]. by rewrite srev_cons, srev_app, IH. Qed.
Lemma srev_length a : String.length (srev a) = String.length a.
Proof. induction a as [|c a IH]; [done|]. rewrite srev_cons, slen_app, IH. cbn. lia. Qed.

Lemma eqb_empty_app a b : b <> "" -> String.eqb (a +:+ b) "" = false.
Proof. intros Hb. destruct a; [by apply String.eqb_neq|done]. Qed.

(** ** Reading a line *)

(** The bytes of a line: no terminator. *)
Definition no_terminator (s : string) : bool :=
  sforall (fun c => negb (Ascii.eqb c ch_nl) && negb (Ascii.eqb c ch_cr)) s.

(** Every byte read without finding a terminator is kept; the remaining
    stream gets shorter with every line. *)
Lemma readLine_rest rl n bytes fin r rest :
  readLine rl n bytes fin = (r, rest) ->
  (String.length rest <= String.length bytes)%nat
  /\ ((exists line, r = LLine line) -> (String.length rest < String.length bytes)%nat)
  /\ ((exists line, r = LLast line) \/ r = LErr SEOF -> rest = "").
Proof.
  revert rl n. induction bytes as [|b bytes IH]; intros rl n; cbn.
  { destruct fin; [intros [= <- <-]; split; [done|]; split; [by intros [? ?]|by intros [[? ?]|?]]|].
    destruct (n =? 0); intros [= <- <-]; (split; [done|]; split; [by intros [? ?]|done]). }
  destruct (Ascii.eqb b ch_nl).
  { intros [= <- <-]. split; [lia|]. split; [lia|]. by intros [[? ?]|?]. }
  destruct (Ascii.eqb b ch_cr).
  { destruct bytes as [|c bytes]; [|destruct (Ascii.eqb c ch_nl)]; intros [= <- <-]; cbn;
      (split; [lia|]; split; [lia|]; by intros [[? ?]|?]). }
  destruct (maxSSELine <=? n).
  { intros [= <- <-]. split; [lia|]. split; [by intros [? ?]|by intros [[? ?]|?]]. }
  intros (H1 & H2 & H3)%IH. split; [lia|]. split; [intros Hl; specialize (H2 Hl); lia|done].
Qed.

(** The length of what [readLine] returns. *)
Lemma readLine_bound rl n bytes fin r rest :
  readLine rl n bytes fin = (r, rest) -> n = slen rl -> n <= maxSSELine ->
  match r with LLine l | LLast l => slen l <= maxSSELine | LErr _ => True end.
Proof.
  unfold slen. revert rl n. induction bytes as [|b bytes IH]; intros rl n; cbn.
  { destruct fin; [by intros [= <- _]|]. destruct (Z.eqb_spec n 0); intros [= <- _]; [done|].
    intros -> Hn. by rewrite srev_length. }
  destruct (Ascii.eqb b ch_nl).
  { intros [= <- _] -> Hn. rewrite srev_length. unfold drop_last_cr. destruct rl as [|c rl]; [done|].
    destruct (Ascii.eqb c ch_cr); cbn in *; lia. }
  destruct (Ascii.eqb b ch_cr).
  { assert (slen (srev rl) = slen rl) as Hs by (unfold slen; by rewrite srev_length). unfold slen in Hs.
    destruct bytes as [|c bytes]; [|destruct (Ascii.eqb c ch_nl)]; intros [= <- _] -> Hn; lia. }
  destruct (Z.leb_spec maxSSELine n); [by intros [= <- _]|].
  intros Hr -> Hn. apply (IH _ _ Hr); cbn [String.length]; lia.
Qed.

(** A line followed by a newline is read back. *)
Lemma readLine_line line rest fin rl n :
  no_terminator line = true -> n + slen line <= maxSSELine ->
  (match rl with "" => True | String c _ => Ascii.eqb c ch_cr = false end) ->
  readLine rl n (line +:+ String ch_nl rest) fin = (LLine (srev rl +:+ line), rest).
Proof.
  unfold slen, no_terminator. revert rl n. induction line as [|c line IH]; intros rl n Hnt Hn Hrl; cbn [String.append readLine].
  - cbn. rewrite sapp_nil_r. unfold drop_last_cr. destruct rl as [|c rl]; [done|]. by rewrite Hrl.
  - cbn [sforall] in Hnt. apply andb_prop in Hnt as [Hc Hnt]. apply andb_prop in Hc as [Hc1 Hc2].
    apply negb_true_iff in Hc1, Hc2. rewrite Hc1, Hc2. cbn [String.length] in Hn.
    destruct (Z.leb_spec maxSSELine n); [lia|]. rewrite IH; [|done|lia|done].
    by rewrite srev_cons, sapp_assoc.
Qed.

(** ** Events *)

Lemma readLine_last_nonempty bytes fin line rest :
  readLine "" 0 bytes fin = (LLast line, rest) -> bytes <> "" /\ rest = "".
Proof.
  intros Hr. split; [|apply readLine_rest in Hr as (_ & _ & Hr); apply Hr; eauto].
  intros ->. cbn in Hr. by destruct fin.
Qed.

Lemma slen_sapp a b : slen (a +:+ b) = slen a + slen b.
Proof. unfold slen. rewrite slen_app. lia. Qed.

(** With fuel beyond the remaining bytes the reader decides; an event is
    within the bound and costs at least one byte. *)
Lemma nextEvent_total fuel event bytes fin :
  (String.length bytes < fuel)%nat -> slen event + 1 <= maxSSEEvent ->
  exists r rest, nextEvent fuel event bytes fin = Some (r, rest)
    /\ (String.length rest <= String.length bytes)%nat
    /\ forall ev, r = Ok ev -> slen ev <= maxSSEEvent
         /\ (event = "" -> (String.length rest < String.length bytes)%nat).
Proof.
  revert event bytes. induction fuel as [|fuel IH]; intros event bytes Hf Hev; [lia|]. cbn [nextEvent].
  destruct (readLine "" 0 bytes fin) as [r rest] eqn:Er.
  pose proof (readLine_rest _ _ _ _ _ _ Er) as (Hle & Hlt & _).
  destruct r as [line|line|e].
  - specialize (Hlt ltac:(eauto)). destruct (String.eqb_spec line "") as [->|Hne].
    + destruct (String.eqb_spec event "") as [->|He]; cbn [negb].
      * destruct (IH "" rest) as (r & rest' & Hn & Hle' & Hok); [lia|done|].
        exists r, rest'. split; [done|]. split; [lia|]. intros ev Hr. destruct (Hok ev Hr) as [? Hp]. split; [done|]. lia.
      * eexists _, _. split; [done|]. split; [lia|]. intros ev [= <-]. rewrite slen_sapp.
        change (slen (String ch_nl "")) with 1. split; [lia|done].
    + destruct (Z.ltb_spec maxSSEEvent (slen event + slen line + 2)).
      { eexists _, _. split; [done|]. split; [lia|]. done. }
      destruct (IH (event +:+ line +:+ String ch_nl "") rest) as (r & rest' & Hn & Hle' & Hok); [lia| |].
      { rewrite !slen_sapp. change (slen (String ch_nl "")) with 1. lia. }
      exists r, rest'. split; [done|]. split; [lia|]. intros ev Hr. destruct (Hok ev Hr) as [? _]. split; [done|]. lia.
  - apply readLine_last_nonempty in Er as [Hb ->].
    destruct (Z.ltb_spec maxSSEEvent (slen event + slen line + 2)); eexists _, _; (split; [done|]);
      (split; [cbn; lia|]); [done|]. intros ev [= <-]. rewrite slen_sapp. split; [lia|].
    intros _. destruct bytes; [done|]. cbn. lia.
  - assert (Herr : forall r, (r = Err e) -> exists r0 rest0, Some (r, rest) = Some (r0, rest0)
      /\ (String.length rest0 <= String.length bytes)%nat
      /\ forall ev : string, r0 = Ok ev -> slen ev <= maxSSEEvent
         /\ (event = "" -> (String.length rest0 < String.length bytes)%nat)).
    { intros r ->. eexists _, _. split; [done|]. split; [lia|done]. }
    destruct e; try (by apply Herr). destruct (String.eqb_spec event "") as [->|He]; cbn [negb]; [by apply Herr|].
    eexists _, _. split; [done|]. split; [lia|]. intros ev [= <-]. split; [lia|done].
Qed.

Lemma next_total s : exists r s', next s = Some (r, s') /\ s_end s' = s_end s
  /\ (forall ev, r = Ok ev -> slen ev <= maxSSEEvent
      /\ (String.length (s_bytes s') < String.length (s_bytes s))%nat).
Proof.
  unfold next. destruct (nextEvent_total (S (String.length (s_bytes s))) "" (s_bytes s) (s_end s))
    as (r & rest & -> & _ & Hok); [lia|done|].
  eexists _, _. split; [done|]. split; [done|]. intros ev Hr. destruct (Hok ev Hr) as [? Hp]. split; [done|]. by apply Hp.
Qed.

(** C40: Reading a stream always terminates within bounds.  Whatever bytes
    the upstream sends and however the stream ends, the reader yields a
    finite list of events and then an end or an error; every event is at
    most 1 MiB, and each call consumes input, so there are no more events
    than bytes. *)
Theorem sse_bounded s :
  exists evs e, all_events (S (String.length (s_bytes s))) s = Some (evs, e)
    /\ Forall (fun ev => slen ev <= maxSSEEvent) evs
    /\ (length evs <= String.length (s_bytes s))%nat.
Proof.
  assert (Hgen : forall fuel s, (String.length (s_bytes s) < fuel)%nat ->
    exists evs e, all_events fuel s = Some (evs, e) /\ Forall (fun ev => slen ev <= maxSSEEvent) evs
      /\ (length evs <= String.length (s_bytes s))%nat).
  { clear s. induction fuel as [|fuel IH]; intros s Hf; [lia|]. cbn [all_events].
    destruct (next_total s) as (r & s' & -> & He & Hok). destruct r as [ev|e].
    - destruct (Hok ev eq_refl) as [Hb Hlt]. destruct (IH s') as (evs & e & -> & Hall & Hlen); [lia|].
      eexists _, _. split; [done|]. split; [by constructor|]. cbn. lia.
    - eexists _, _. split; [done|]. split; [constructor|cbn; lia]. }
  apply Hgen. lia.
Qed.

(** *** Well-formed events *)

Fixpoint lines_text (lines : list string) : string :=
  match lines with [] => "" | l :: lines => l +:+ String ch_nl (lines_text lines) end.
(** The wire form of an event: its lines and a blank line. *)
Definition event_text (lines : list string) : string := lines_text lines +:+ String ch_nl "".

Definition line_ok (l : string) : Prop := l <> "" /\ no_terminator l = true /\ slen l <= maxSSELine.
Definition event_ok (lines : list string) : Prop :=
  lines <> [] /\ Forall line_ok lines /\ slen (event_text lines) <= maxSSEEvent.

Lemma nextEvent_lines lines : forall fuel event rest fin,
  Forall line_ok lines -> (event <> "" \/ lines <> []) ->
  slen event + slen (event_text lines) <= maxSSEEvent -> (length lines < fuel)%nat ->
  nextEvent fuel event (event_text lines +:+ rest) fin = Some (Ok (event +:+ event_text lines), rest).
Proof.
  unfold event_text. induction lines as [|l lines IH]; intros fuel event rest fin Hall Hne Hb Hf;
    destruct fuel as [|fuel]; cbn in Hf; try lia.
  - destruct Hne as [Hne|]; [|done]. cbn. apply String.eqb_neq in Hne. by rewrite Hne.
  - inversion Hall as [|? ? (Hl & Hnt & Hlen) Hall']; subst. cbn [lines_text].
    assert (Heq : ((l +:+ String ch_nl (lines_text lines)) +:+ String ch_nl "") +:+ rest
      = l +:+ String ch_nl ((lines_text lines +:+ String ch_nl "") +:+ rest)).
    { rewrite !sapp_assoc. cbn. by rewrite ?sapp_assoc. }
    rewrite Heq. cbn [nextEvent]. rewrite readLine_line by (done || lia). cbn [srev srev_append String.append].
    assert (Hq : String.eqb l "" = false) by (by apply String.eqb_neq). rewrite Hq.
    cbn [lines_text] in Hb. rewrite !slen_sapp in Hb.
    assert (Hsz : slen (String ch_nl (lines_text lines)) = 1 + slen (lines_text lines)).
    { unfold slen. cbn [String.length]. lia. }
    change (slen (String ch_nl "")) with 1 in *. rewrite Hsz in Hb.
    assert (0 <= slen (lines_text lines)) by (unfold slen; lia).
    destruct (Z.ltb_spec maxSSEEvent (slen event + slen l + 2)); [lia|].
    rewrite IH; [|done|left; by destruct event; destruct l|rewrite !slen_sapp; change (slen (String ch_nl "")) with 1; lia|lia].
    do 3 f_equal. rewrite !sapp_assoc. done.
Qed.

Lemma lines_text_length lines : (length lines <= String.length (lines_text lines))%nat.
Proof. induction lines as [|l lines IH]; cbn; [lia|]. rewrite slen_app. cbn. lia. Qed.

Lemma next_event_text lines rest fin : event_ok lines ->
  next (mkStream (event_text lines +:+ rest) fin) = Some (Ok (event_text lines), mkStream rest fin).
Proof.
  intros (Hne & Hall & Hb). unfold next. cbn [s_bytes s_end].
  rewrite nextEvent_lines; [done|done|by right|unfold slen at 1; cbn; lia|].
  unfold event_text. rewrite !slen_app. pose proof (lines_text_length lines). lia.
Qed.

(** Well-formed streams are relayed verbatim.  For a stream of events in
    wire form (LF line ends, lines up to 256 KiB, events up to 1 MiB) that
    the upstream closes cleanly, the reader yields exactly those events,
    byte for byte and in order, and then the end: what is re-emitted is what
    was sent. *)
Theorem sse_verbatim evs :
  Forall event_ok evs ->
  let bytes := fold_right String.append "" (map event_text evs) in
  all_events (S (length evs)) (mkStream bytes None) = Some (map event_text evs, SEOF).
Proof.
  intros Hall. cbv zeta. induction Hall as [|ev evs Hev Hall IH]; [done|].
  cbn [map fold_right]. change (all_events (S (length (ev :: evs))) ?s) with
    (match next s with
     | None => None
     | Some (Err e, _) => Some ([], e)
     | Some (Ok x, s') => match all_events (S (length evs)) s' with Some (xs, e) => Some (x :: xs, e) | None => None end
     end).
  rewrite (next_event_text ev _ None Hev), IH. done.
Qed.

(** *** Data *)

Lemma contains_srev c s : contains_char c s = false -> contains_char c (srev s) = false.
Proof.
  induction s as [|x s IH]; [done|]. cbn [contains_char]. intros [Hx Hs]%orb_false_iff. rewrite srev_cons.
  specialize (IH Hs). revert IH. generalize (srev s). induction s0 as [|y s0 IH0]; cbn; [by rewrite Hx|].
  intros [-> Hy]%orb_false_iff. by apply IH0.
Qed.

Lemma trim_two_newlines w : contains_char ch_nl w = false ->
  TrimEventNewline (w +:+ String ch_nl (String ch_nl "")) = w.
Proof.
  intros Hw%contains_srev. unfold TrimEventNewline. rewrite srev_app.
  change (srev (String ch_nl (String ch_nl ""))) with (String ch_nl (String ch_nl "")).
  cbn [String.append drop_nl]. rewrite !Ascii.eqb_refl.
  assert (Hd : drop_nl (srev w) = srev w); [|by rewrite Hd, srev_invol].
  destruct (srev w) as [|x y]; [done|]. cbn in *. apply orb_false_iff in Hw as [Hx _]. by rewrite Hx.
Qed.

(** The data of a one-line event is exactly what the upstream put after
    the field name, which is what usage and response ids are read from. *)
Theorem dataField_single v :
  v <> "" -> contains_char ch_nl v = false ->
  dataField ("data: " +:+ v +:+ String ch_nl (String ch_nl "")) = Some v.
Proof.
  intros Hne Hnl. unfold dataField. rewrite <- sapp_assoc, trim_two_newlines by done.
  rewrite split_on_word by done. cbn [data_loop]. unfold data_value.
  rewrite (has_prefix_app "data:" (" " +:+ v) : has_prefix "data:" ("data: " +:+ v) = true).
  cbn. apply String.eqb_neq in Hne. by rewrite Hne.
Qed.

(** A first empty data line is lost when lines are joined. *)
Example data_drops_leading_empty :
  dataField ("data:" +:+ String ch_nl ("data: x" +:+ String ch_nl (String ch_nl ""))) = Some "x".
Proof. vm_compute. reflexivity. Qed.

(** A CRLF stream is re-emitted with LF line ends. *)
Example crlf_normalized :
  next (mkStream ("data: x" +:+ String ch_cr (String ch_nl (String ch_cr (String ch_nl "")))) None)
  = Some (Ok ("data: x" +:+ String ch_nl (String ch_nl "")), mkStream "" None).
Proof. vm_compute. reflexivity. Qed.

Module SseDemo.
Definition ev : list string := ["event: x"; "data: {}"].
End SseDemo.

Lemma sse_verbatim_witness :
  all_events 3 (mkStream (event_text SseDemo.ev +:+ event_text SseDemo.ev) None)
  = Some ([event_text SseDemo.ev; event_text SseDemo.ev], SEOF).
Proof.
  apply (sse_verbatim [SseDemo.ev; SseDemo.ev]).
  repeat constructor; try discriminate; vm_compute; discriminate.
Defined.

Lemma dataField_single_witness : dataField ("data: [DONE]" +:+ String ch_nl (String ch_nl "")) = Some "[DONE]".
Proof. apply (dataField_single "[DONE]"); [discriminate|reflexivity]. Defined.
