(* ===== verification/Errors.v ===== *)
(** * The client-visible errors: [internal/proxy/errors.go], [internal/apierr]

    The table of sanitized errors, the classification of backend failures
    into retry, health and response, the relayed detail, and the JSON
    envelope every error is written in. *)

From Stdlib Require Import Ascii.
From S2P Require Import Prelude GoStrings Json JsonFacts Backend.

(* src: internal/proxy/errors.go apiError *)
Record apiError := mkApiError { ae_status : Z; ae_typ : string; ae_code : string; ae_msg : string; ae_class : string }.
#[export] Instance apiError_eq_dec : EqDecision apiError.
Proof. solve_decision. Defined.

(* src: internal/proxy/errors.go withClass *)
Definition withClass (e : apiError) (class : string) : apiError :=
  mkApiError (ae_status e) (ae_typ e) (ae_code e) (ae_msg e) class.

(* src: internal/proxy/errors.go 29-29 errDraining *)
Definition errDraining : apiError := mkApiError 503 "overload_error" "server_overloaded" "server is shutting down" "overload".
(* src: internal/proxy/errors.go 30-30 errOverloaded *)
Definition errOverloaded : apiError := mkApiError 503 "overload_error" "server_overloaded" "server is overloaded" "overload".
(* src: internal/proxy/errors.go 31-31 errNoBackend *)
Definition errNoBackend : apiError := mkApiError 503 "overload_error" "server_overloaded" "no backend is available" "no_backend_available".
(* src: internal/proxy/errors.go 32-32 errUnsupported *)
Definition errUnsupported : apiError := mkApiError 415 "invalid_request_error" "unsupported_media_type" "request compression is not supported" "bad_request".
(* src: internal/proxy/errors.go 33-33 errBodyTooBig *)
Definition errBodyTooBig : apiError := mkApiError 413 "invalid_request_error" "body_too_large" "request body exceeds the size limit" "bad_request".
(* src: internal/proxy/errors.go 34-34 errBodyUnread *)
Definition errBodyUnread : apiError := mkApiError 400 "invalid_request_error" "body_unreadable" "request body could not be read" "bad_request".
(* src: internal/proxy/errors.go 35-35 errBadJSON *)
Definition errBadJSON : apiError := mkApiError 400 "invalid_request_error" "invalid_json" "request body is not a valid JSON object" "bad_request".
(* src: internal/proxy/errors.go 36-36 errNoModel *)
Definition errNoModel : apiError := mkApiError 400 "invalid_request_error" "missing_model" "the model field is required" "bad_request".
(* src: internal/proxy/errors.go 37-37 errModelType *)
Definition errModelType : apiError := mkApiError 400 "invalid_request_error" "invalid_model" "the model field must be a string" "bad_request".
(* src: internal/proxy/errors.go 38-38 errNoStream *)
Definition errNoStream : apiError := mkApiError 400 "invalid_request_error" "stream_not_supported" "streaming is not supported for this endpoint" "bad_request".
(* src: internal/proxy/errors.go 39-39 errModelDenied *)
Definition errModelDenied : apiError := mkApiError 404 "invalid_request_error" "model_not_found_or_not_allowed" "model not found or not allowed" "authz".
(* src: internal/proxy/errors.go 40-40 errNotGenerate *)
Definition errNotGenerate : apiError := mkApiError 400 "invalid_request_error" "model_type_mismatch" "the requested model is not a generation model" "bad_request".
(* src: internal/proxy/errors.go 41-41 errNotEmbed *)
Definition errNotEmbed : apiError := mkApiError 400 "invalid_request_error" "model_type_mismatch" "the requested model is not an embedding model" "bad_request".
(* src: internal/proxy/errors.go 42-42 errPrevNotFound *)
Definition errPrevNotFound : apiError := mkApiError 404 "invalid_request_error" "response_not_found" "previous response not found" "affinity".
(* src: internal/proxy/errors.go 43-43 errRespNotFound *)
Definition errRespNotFound : apiError := mkApiError 404 "invalid_request_error" "response_not_found" "response not found" "affinity".
(* src: internal/proxy/errors.go 44-44 errRespBadID *)
Definition errRespBadID : apiError := mkApiError 404 "invalid_request_error" "response_not_found" "response not found" "bad_request".
(* src: internal/proxy/errors.go 45-45 errOutputCapExceeded *)
Definition errOutputCapExceeded : apiError := mkApiError 400 "invalid_request_error" "output_limit_exceeded" "requested output tokens exceed the model limit" "bad_request".
(* src: internal/proxy/errors.go 46-46 errOutputLimitInvalid *)
Definition errOutputLimitInvalid : apiError := mkApiError 400 "invalid_request_error" "invalid_output_limit" "output limit must be a non-negative integer" "bad_request".
(* src: internal/proxy/errors.go 47-47 errNotNormal *)
Definition errNotNormal : apiError := mkApiError 400 "invalid_request_error" "invalid_json" "request body could not be processed" "bad_request".
(* src: internal/proxy/errors.go 48-48 errQuota *)
Definition errQuota : apiError := mkApiError 429 "rate_limit_error" "token_quota_exceeded" "token quota exceeded for this window" "token_quota".
(* src: internal/proxy/errors.go 49-49 errInternal *)
Definition errInternal : apiError := mkApiError 500 "api_error" "internal" "internal error" "internal_error".
(* src: internal/proxy/errors.go 50-50 errPolicy *)
Definition errPolicy : apiError := mkApiError 500 "api_error" "internal" "internal error" "policy".
(* src: internal/proxy/errors.go 53-53 errUpstreamRateLimited *)
Definition errUpstreamRateLimited : apiError := mkApiError 429 "rate_limit_error" "upstream_rate_limited" "upstream is rate limited" "backend_429".
(* src: internal/proxy/errors.go 54-54 errUpstream5xx *)
Definition errUpstream5xx : apiError := mkApiError 502 "api_error" "upstream_unavailable" "upstream is unavailable" "backend_5xx".
(* src: internal/proxy/errors.go 55-55 errUpstreamRejected *)
Definition errUpstreamRejected : apiError := mkApiError 400 "invalid_request_error" "upstream_rejected" "upstream rejected the request" "backend_4xx".
(* src: internal/proxy/errors.go 56-56 errUpstreamTimeout *)
Definition errUpstreamTimeout : apiError := mkApiError 504 "api_error" "upstream_timeout" "upstream timed out" "backend_timeout".
(* src: internal/proxy/errors.go 57-57 errUpstreamConnect *)
Definition errUpstreamConnect : apiError := mkApiError 502 "api_error" "upstream_unavailable" "upstream is unavailable" "backend_connect".
(* src: internal/proxy/errors.go 58-58 errQueueFull *)
Definition errQueueFull : apiError := mkApiError 503 "overload_error" "server_overloaded" "server is overloaded" "queue_full".
(* src: internal/proxy/errors.go 66-66 errUpstreamDialTimeout *)
Definition errUpstreamDialTimeout : apiError := withClass errUpstreamTimeout "backend_dial_timeout".
(* src: internal/proxy/errors.go 67-67 errUpstreamHeaderTimeout *)
Definition errUpstreamHeaderTimeout : apiError := withClass errUpstreamTimeout "backend_header_timeout".
(* src: internal/proxy/errors.go 68-68 errQueueTimeout *)
Definition errQueueTimeout : apiError := withClass errQueueFull "queue_timeout".

(* src: internal/proxy/errors.go backendFailure *)
Record backendFailure := mkFailure { retryable : bool; poisonsHealth : bool; resp : apiError }.

(* src: internal/proxy/errors.go classifyBackendError *)
Definition classifyBackendError (err : backend_error) : backendFailure :=
  match err with
  | ErrUpstream status =>
      if status =? 429 then mkFailure true false errUpstreamRateLimited
      else if 500 <=? status then
        mkFailure ((status =? 502) || (status =? 503) || (status =? 504)) false errUpstream5xx
      else mkFailure false false errUpstreamRejected
  | ErrConnect => mkFailure true true errUpstreamConnect
  | ErrDialTimeout => mkFailure true true errUpstreamDialTimeout
  | Backend.ErrDraining => mkFailure false false errDraining
  | ErrQueueFull => mkFailure true false errQueueFull
  | ErrQueueTimeout => mkFailure true false errQueueTimeout
  | ErrHeaderTimeout => mkFailure false false errUpstreamHeaderTimeout
  | ErrTimeout => mkFailure false false errUpstreamTimeout
  | ErrTooLarge => mkFailure false false errUpstream5xx
  | ErrPolicy => mkFailure false false errPolicy
  | ErrCanceled | ErrDeadlineExceeded | ErrNetwork _ => mkFailure false false errUpstream5xx
  end.

(* src: internal/proxy/errors.go relayableUpstreamStatus *)
Definition relayableUpstreamStatus (status : Z) : bool :=
  (status =? 400) || (status =? 413) || (status =? 422) || (status =? 429).

(** [relay] is the server's [relay_upstream_errors]; [detail] the message
    of the upstream error, empty when its body had none. *)
(* src: internal/proxy/errors.go Proxy.relayUpstreamDetail *)
Definition relayUpstreamDetail (relay : bool) (e : apiError) (err : backend_error) (detail : string) : apiError :=
  if negb relay then e
  else match err with
       | ErrUpstream status =>
           if negb (relayableUpstreamStatus status) || String.eqb detail "" then e
           else mkApiError (ae_status e) (ae_typ e) (ae_code e) (ae_msg e +:+ ": " +:+ detail) (ae_class e)
       | _ => e
       end.

(* src: internal/apierr/apierr.go 36-38 DefaultRetryAfter *)
Definition DefaultRetryAfter : string := "1".

(** [json.Marshal] of the nested map: keys in byte order. *)
Definition error_tree (e : apiError) : json :=
  JObj [("error", JObj [("code", marshal_string (ae_code e)); ("message", marshal_string (ae_msg e));
                        ("param", JNull); ("type", marshal_string (ae_typ e))])].
(* src: internal/apierr/apierr.go Write *)
Definition Write (e : apiError) : Z * string := (ae_status e, print (error_tree e)).

(** The response of [fail]: the status, the [Retry-After] header, the body;
    a header set before is kept. *)
Record client_error := mkClientError { ce_status : Z; ce_retry_after : option string; ce_body : string }.
(* src: internal/proxy/proxy.go 250-259 Proxy.dispatch *)
Definition fail_with (retry_after : option string) (e : apiError) : client_error :=
  let retry_after :=
    if (ae_status e =? 429) && match retry_after with None => true | Some v => String.eqb v "" end
    then Some DefaultRetryAfter else retry_after in
  let '(status, body) := Write e in
  mkClientError status retry_after body.

(** ** What a client can learn of a backend failure *)

Lemma error_tree_wf e : json_wf maxNestingDepth (error_tree e).
Proof.
  constructor; [done|]. constructor; [|done]. split; [done|]. cbn [snd].
  constructor; [done|]. repeat (constructor; [split; [done|]; constructor; try apply quote_wf|]). done.
Qed.

(** The fields a client decodes from an error body. *)
Definition error_fields (body : string) : option (string * string * string) :=
  match json_parse body with
  | Some (JObj [(_, JObj m)]) =>
      match string_field "type" m, string_field "code" m, string_field "message" m with
      | Some t, Some c, Some msg => Some (t, c, msg)
      | _, _, _ => None
      end
  | _ => None
  end.

Lemma Write_fields e : valid_utf8 (ae_typ e) = true -> valid_utf8 (ae_code e) = true -> valid_utf8 (ae_msg e) = true ->
  error_fields (Write e).2 = Some (ae_typ e, ae_code e, ae_msg e).
Proof.
  intros Ht Hc Hm. unfold error_fields, Write. cbn [snd]. rewrite json_parse_print by apply error_tree_wf.
  unfold error_tree, string_field, decode_field, field_values. unfold List.filter.
  eval_field_names.
  cbn [map snd fold_left]. unfold marshal_string, decode_string. by rewrite !unquote_quote.
Qed.

(** What a client can learn of a backend failure; the theorem below says it in full. *)
Lemma failure_surface relay err detail retry_after :
  valid_utf8 detail = true ->
  let f := classifyBackendError err in
  let e := relayUpstreamDetail relay (resp f) err detail in
  let r := fail_with retry_after e in
  ce_status r ∈ [400; 429; 500; 502; 503; 504] /\
  (ce_status r = 429 -> exists v, ce_retry_after r = Some v /\ v <> "") /\
  (exists msg, error_fields (ce_body r) = Some (ae_typ (resp f), ae_code (resp f), msg) /\
    (msg = ae_msg (resp f) \/
     relay = true /\ msg = ae_msg (resp f) +:+ ": " +:+ detail /\
     exists s, err = ErrUpstream s /\ s ∈ [400; 413; 422; 429])) /\
  ae_status e = ae_status (resp f) /\
  (poisonsHealth f = true <-> err = ErrConnect \/ err = ErrDialTimeout) /\
  (poisonsHealth f = true -> retryable f = true).
Proof.
  intros Hd f e r.
  assert (ae_status e = ae_status (resp f) /\ ae_typ e = ae_typ (resp f) /\ ae_code e = ae_code (resp f) /\
    (ae_msg e = ae_msg (resp f) \/ relay = true /\ ae_msg e = ae_msg (resp f) +:+ ": " +:+ detail /\
     exists s, err = ErrUpstream s /\ s ∈ [400; 413; 422; 429])) as (Hs & Ht & Hc & Hm).
  { subst e. unfold relayUpstreamDetail. destruct relay; [|by auto]. cbn [negb].
    destruct err as [| | | | | | | | |s| | |]; auto. destruct (_ || _) eqn:E; [auto|]. cbn.
    split; [done|]. split; [done|]. split; [done|]. right. split; [done|]. split; [done|]. exists s. split; [done|].
    to_prop. unfold relayableUpstreamStatus in H. rewrite !orb_true_iff, !Z.eqb_eq in H.
    rewrite !elem_of_cons. naive_solver. }
  assert (resp f ∈ [errUpstreamRateLimited; errUpstream5xx; errUpstreamRejected; errUpstreamConnect; errUpstreamDialTimeout;
    errDraining; errQueueFull; errQueueTimeout; errUpstreamHeaderTimeout; errUpstreamTimeout; errPolicy]) as Hin.
  { subst f. unfold classifyBackendError. destruct err; cbn [resp]; repeat case_match; set_solver. }
  assert (valid_utf8 (ae_msg e) = true) as Hv.
  { destruct Hm as [->|(_ & -> & _)]; [|transitivity (valid_utf8 detail); [clear Hd|done]]; revert Hin; clear; generalize (resp f); intros x Hin;
      rewrite !elem_of_cons, elem_of_nil in Hin; destruct_or! Hin; subst; reflexivity || done. }
  assert (valid_utf8 (ae_typ e) = true /\ valid_utf8 (ae_code e) = true /\ ae_status e ∈ [400; 429; 500; 502; 503; 504])
    as (Hvt & Hvc & Hst).
  { rewrite Hs, Ht, Hc. revert Hin. clear. generalize (resp f). intros x Hin.
    rewrite !elem_of_cons, elem_of_nil in Hin. destruct_or! Hin; subst; try done; (split; [done|split; [done|]]; cbn; set_solver). }
  subst r. unfold fail_with. cbn [ce_status ce_retry_after ce_body Write fst snd].
  split_and!; [done| | |done| |].
  - intros ->. rewrite Z.eqb_refl. cbn [andb]. destruct retry_after as [v|]; [|by exists "1"].
    destruct (String.eqb_spec v ""); [by exists "1"|by exists v].
  - exists (ae_msg e). split; [|done]. change (print (error_tree e)) with (Write e).2. rewrite Write_fields by done.
    by rewrite Ht, Hc.
  - subst f. unfold classifyBackendError. destruct err; repeat case_match; cbn; naive_solver.
  - subst f. unfold classifyBackendError. destruct err; repeat case_match; cbn; naive_solver.
Qed.

(** What a client learns of a backend failure. Whatever went wrong with
    a backend, and whatever the backend put in its error body: the response
    has one of six statuses, and the type, code and status are those of the
    gateway's own table; the message is the table's, followed by the
    backend's text only for a server set to relay it and only for a 400, 413,
    422 or 429 answer (so never the text of a 401, 403, 404 or 5xx); the body
    is a JSON object from which a client reads exactly these; a 429 always
    says when to retry. Only failures to connect count against a backend's
    health, and those are retried. *)
Theorem backend_failure_surface relay err detail retry_after :
  valid_utf8 detail = true ->
  let f := classifyBackendError err in
  let e := relayUpstreamDetail relay (resp f) err detail in
  let r := fail_with retry_after e in
  ce_status r ∈ [400; 429; 500; 502; 503; 504] /\
  (ce_status r = 429 -> exists v, ce_retry_after r = Some v /\ v <> "") /\
  (exists msg, error_fields (ce_body r) = Some (ae_typ (resp f), ae_code (resp f), msg) /\
    (msg = ae_msg (resp f) \/
     relay = true /\ msg = ae_msg (resp f) +:+ ": " +:+ detail /\
     exists s, err = ErrUpstream s /\ s ∈ [400; 413; 422; 429])) /\
  ae_status e = ae_status (resp f) /\
  (poisonsHealth f = true <-> err = ErrConnect \/ err = ErrDialTimeout) /\
  (poisonsHealth f = true -> retryable f = true).
Proof. intros Hd. by apply failure_surface. Qed.

Lemma backend_failure_surface_witness :
  error_fields (ce_body (fail_with None (relayUpstreamDetail true (resp (classifyBackendError (ErrUpstream 400)))
    (ErrUpstream 400) "max_tokens is too large"))) =
  Some ("invalid_request_error", "upstream_rejected", "upstream rejected the request: max_tokens is too large").
Proof.
  pose proof (backend_failure_surface true (ErrUpstream 400) "max_tokens is too large" None eq_refl)
    as (_ & _ & (msg & E & [Hm|(_ & Hm & _)]) & _).
  - exfalso. revert E. rewrite Hm. vm_compute. discriminate.
  - rewrite E, Hm. reflexivity.
Defined.
