(* ===== verification/Diag.v ===== *)
(** * Upstream diagnostics: [internal/backend/diag.go]

    The one text of a backend that may reach a log or a client: extracted from
    an error body, cleaned and bounded. *)

From Stdlib Require Import Ascii.
From S2P Require Import Prelude GoStrings Json JsonFacts Utf8 Backend Errors.
#[local] Open Scope Z_scope.

(* src: internal/backend/diag.go 15-15 maxDetailType *)
Definition maxDetailType : Z := 64.
(* src: internal/backend/diag.go 16-16 maxDetailCode *)
Definition maxDetailCode : Z := 64.
(* src: internal/backend/diag.go 17-17 maxDetailMessage *)
Definition maxDetailMessage : Z := 256.
(* src: internal/backend/diag.go 32-32 maxDetailParseBytes *)
Definition maxDetailParseBytes : Z := 65536.

(* src: internal/backend/diag.go Detail *)
Record Detail := mkDetail { d_Type : string; d_Code : string; d_Message : string }.
Definition no_detail : Detail := mkDetail "" "" "".

(** A raw message is the tree of its text; [None] is a field never set. *)
(* src: internal/backend/diag.go errorFields *)
Record errorFields := mkErrorFields { ef_Type : option json; ef_Code : option json; ef_Message : option json }.

(** ** Text *)

(** The function [strings.Map] is given; [None] drops the code point. *)
(* src: internal/backend/diag.go 154-165 sanitizeDetailText *)
Definition detail_rune (c : Z) : option Z :=
  if (c =? 9) || (c =? 10) || (c =? 13) || (c =? 11) || (c =? 12) || (c =? 133) then Some 32
  else if IsControl c || IsFormat c then None
  else Some c.

(** [strings.Fields]: the maximal runs without white space; [cur] is the run
    so far, reversed. *)
Fixpoint fields_from (cur : list Z) (l : list Z) : list (list Z) :=
  match l with
  | [] => match cur with [] => [] | _ => [rev cur] end
  | u :: l =>
      if IsSpace u then match cur with [] => fields_from [] l | _ => rev cur :: fields_from [] l end
      else fields_from (u :: cur) l
  end.
Definition Fields (l : list Z) : list (list Z) := fields_from [] l.

(** [strings.Join] with a space. *)
Fixpoint join_runes (ws : list (list Z)) : list Z :=
  match ws with
  | [] => []
  | [w] => w
  | w :: ws => w ++ 32 :: join_runes ws
  end.

(* src: internal/backend/diag.go utf8Start *)
Definition utf8Start (b : ascii) : bool := negb (Z.land (bval b) 192 =? 128).

(** The loop that moves the cut back to a rune boundary. *)
(* src: internal/backend/diag.go 170-174 sanitizeDetailText *)
Fixpoint cut_back (cut : nat) (s : string) : nat :=
  match cut with
  | O => O
  | S c => match String.get cut s with
           | Some b => if utf8Start b then cut else cut_back c s
           | None => cut_back c s
           end
  end.

(* src: internal/backend/diag.go sanitizeDetailText *)
Definition sanitizeDetailText (s : string) (limit : Z) : string :=
  let s := encode (join_runes (Fields (omap detail_rune (runes s)))) in
  if slen s <=? limit then s else stake (cut_back (Z.to_nat limit) s) s.

(* src: internal/backend/diag.go scalarField *)
Definition scalarField (raw : option json) (limit : Z) : string :=
  match raw with
  | Some (JStr w) => sanitizeDetailText (unquote w) limit
  | Some (JBool b) => if b then "true" else "false"
  | Some (JNum lit) => if limit <? slen lit then "" else lit
  | _ => ""
  end.

(** The three members of an object decoded into [errorFields]. *)
Definition error_fields_of (m : list (string * json)) : errorFields :=
  mkErrorFields (raw_field "type" m) (raw_field "code" m) (raw_field "message" m).

(* src: internal/backend/diag.go upstreamDetail *)
Definition upstreamDetail (body : string) : Detail :=
  if (slen body =? 0) || (maxDetailParseBytes <? slen body) then no_detail
  else match json_parse body with
  | None => no_detail
  | Some v =>
      match decode_struct v with
      | None => no_detail
      | Some m =>
          match string_field "object" m, pointer_field "error" m with
          | Some object, Some error =>
              let f := match error with
                       | Some em => Some (error_fields_of em)
                       | None => if negb (String.eqb object "error") then None else Some (error_fields_of m)
                       end in
              match f with
              | None => no_detail
              | Some f => mkDetail (scalarField (ef_Type f) maxDetailType) (scalarField (ef_Code f) maxDetailCode)
                            (scalarField (ef_Message f) maxDetailMessage)
              end
          | _, _ => no_detail
          end
      end
  end.

Example upstreamDetail_ex :
  map (fun b => upstreamDetail (js b))
    ["{'error':{'message':'  only one\n\tsystem  message','type':'BadRequest','code':400,'param':{'secret':'x'}}}";
     "{'object':'error','message':'flat','code':'c'}"; "{'message':'not an error'}"; "{'error':'text'}"; "[1]"; ""]
  = [mkDetail "BadRequest" "400" "only one system message"; mkDetail "" "c" "flat"; no_detail; no_detail; no_detail; no_detail].
Proof. vm_compute. reflexivity. Qed.

(** ** Cutting on a rune boundary *)

Lemma utf8Start_cont b : utf8Start b = negb (cont b).
Proof. destruct b as [[] [] [] [] [] [] [] []]; reflexivity. Qed.

(** The bytes of a code point: a start, then continuations. *)
Lemma encoded_bytes u e : encoded u e -> exists b r, e = String b r /\ utf8Start b = true /\
  forall k c, String.get k r = Some c -> utf8Start c = false.
Proof.
  intros He.
  assert (Hs : forall b, bval b < 128 \/ 191 < bval b -> utf8Start b = true).
  { intros b Hb. rewrite utf8Start_cont. unfold cont. destruct Hb; [by rewrite in_range_below|by rewrite in_range_above]. }
  assert (Hc : forall b, 128 <= bval b <= 191 -> utf8Start b = false).
  { intros b Hb. rewrite utf8Start_cont. unfold cont. by rewrite in_range_true. }
  assert (Hmid : forall a x y b, (if bval a =? x then y else 128) <= bval b -> 128 <= y -> 128 <= bval b).
  { intros a x y b. destruct (bval a =? x); lia. }
  destruct He as [a Ha|a b Ha Hb|a b c Ha Hb Hc'|a b c d Ha Hb Hc' Hd]; eexists _, _; (split; [done|]); (split; [apply Hs; lia|]).
  - by intros [].
  - intros [|[]] x; [intros [= <-]; by apply Hc|done..].
  - destruct (Z.eqb_spec (bval a) 224), (Z.eqb_spec (bval a) 237);
      intros [|[|[]]] x; try done; intros [= <-]; apply Hc; lia.
  - destruct (Z.eqb_spec (bval a) 240), (Z.eqb_spec (bval a) 244);
      intros [|[|[|[]]]] x; try done; intros [= <-]; apply Hc; lia.
Qed.

Lemma get_app_right k a b : String.get (String.length a + k) (a +:+ b) = String.get k b.
Proof. induction a as [|c a IH]; [done|]. apply IH. Qed.

Lemma get_app_left k a b : (k < String.length a)%nat -> String.get k (a +:+ b) = String.get k a.
Proof. revert k. induction a as [|c a IH]; intros k Hk; [cbn in Hk; lia|]. destruct k; [done|]. apply IH. cbn in Hk. lia. Qed.

(** The cut ends at the start of the code point it fell into. *)
Lemma cut_back_start u e pre post k : encoded u e -> (k < String.length e)%nat ->
  cut_back (String.length pre + k) (pre +:+ e +:+ post) = String.length pre.
Proof.
  intros He. destruct (encoded_bytes _ _ He) as (b & r & -> & Hb & Hr). induction k as [|k IH]; intros Hk.
  - rewrite Nat.add_0_r. destruct (String.length pre) eqn:E; [done|]. cbn [cut_back]. rewrite <- E.
    pose proof (get_app_right 0 pre (String b r +:+ post)) as Hg. rewrite Nat.add_0_r in Hg. rewrite Hg. cbn. by rewrite Hb.
  - replace (String.length pre + S k)%nat with (S (String.length pre + k)) by lia. cbn [cut_back].
    replace (S (String.length pre + k))%nat with (String.length pre + S k)%nat by lia.
    rewrite get_app_right, get_app_left by done. cbn [String.get].
    destruct (String.get k r) as [c|] eqn:Eg; [rewrite (Hr _ _ Eg)|]; apply IH; cbn in *; lia.
Qed.

(** A byte offset within a text falls into one of its code points. *)
Lemma offset_in_rune l n : (n < String.length (encode l))%nat ->
  exists l1 u l2, l = l1 ++ u :: l2 /\ (String.length (encode l1) <= n < String.length (encode (l1 ++ [u])))%nat.
Proof.
  induction l as [|u l IH] using rev_ind; [cbn; lia|]. intros Hn.
  destruct (Nat.lt_ge_cases n (String.length (encode l))) as [Hlt|Hge].
  - destruct (IH Hlt) as (l1 & v & l2 & -> & Hb). exists l1, v, (l2 ++ [u]). by rewrite <- app_assoc.
  - exists l, u, []. split; [done|lia].
Qed.

Lemma cut_spec l n : Forall (fun u => scalar u = true) l -> (n < String.length (encode l))%nat ->
  exists l1 u l2, l = l1 ++ u :: l2 /\ stake (cut_back n (encode l)) (encode l) = encode l1 /\
    (String.length (encode l1) <= n < String.length (encode (l1 ++ [u])))%nat.
Proof.
  intros Hl Hn. destruct (offset_in_rune l n Hn) as (l1 & u & l2 & -> & Hb). exists l1, u, l2. split; [done|]. split; [|done].
  rewrite Forall_app, Forall_cons in Hl. destruct Hl as (_ & Hu & _).
  rewrite !encode_app in *. change (encode (u :: l2)) with (utf8_encode u +:+ encode l2).
  change (encode [u]) with (utf8_encode u +:+ "") in Hb. rewrite sapp_nil_r, slen_app in Hb.
  replace n with (String.length (encode l1) + (n - String.length (encode l1)))%nat by lia.
  rewrite (cut_back_start u) by (apply encode_encoded, Hu || lia). apply stake_app.
Qed.

(** ** What a detail is made of *)

(** A visible code point or a plain space: no control or format character, no
    line or paragraph separator. *)
Definition plain (u : Z) : bool :=
  scalar u && negb (IsControl u || IsFormat u) && (negb (IsSpace u) || (u =? 32)).
Definition plain_text (s : string) : Prop := exists l, s = encode l /\ Forall (fun u => plain u = true) l.

Lemma plain_scalar l : Forall (fun u => plain u = true) l -> Forall (fun u => scalar u = true) l.
Proof. intros Hl. eapply Forall_impl; [exact Hl|]. intros u. unfold plain. rewrite !andb_true_iff. tauto. Qed.

Lemma plain_text_valid s : plain_text s -> valid_utf8 s = true.
Proof. intros (l & -> & Hl%plain_scalar). apply runes_encode, Hl. Qed.

Lemma plain_text_app a b : plain_text a -> plain_text b -> plain_text (a +:+ b).
Proof. intros (l & -> & Hl) (k & -> & Hk). exists (l ++ k). rewrite encode_app. split; [done|by apply Forall_app]. Qed.

Lemma visible_plain s : sforall visible s = true -> plain_text s.
Proof.
  induction s as [|c s IH]; [by exists []|]. cbn [sforall]. rewrite andb_true_iff. intros [Hc (l & -> & Hl)%IH].
  assert (plain (bval c) = true /\ utf8_encode (bval c) = String c "") as [Hp He].
  { revert Hc. clear. by destruct c as [[] [] [] [] [] [] [] []]. }
  exists (bval c :: l). change (encode (bval c :: l)) with (utf8_encode (bval c) +:+ encode l). rewrite He. auto.
Qed.

(** ** The cleaned text *)

Lemma detail_rune_ok c u : scalar c = true -> detail_rune c = Some u ->
  scalar u = true /\ IsControl u || IsFormat u = false.
Proof.
  intros Hc. unfold detail_rune. destruct (_ || _) eqn:E; [by intros [= <-]|].
  destruct (IsControl c || IsFormat c) eqn:E2; [done|]. by intros [= <-].
Qed.

Definition quiet (u : Z) : Prop := scalar u = true /\ IsControl u || IsFormat u = false.

Lemma fields_from_plain cur l : Forall (fun u => plain u = true) cur -> Forall quiet l ->
  Forall (Forall (fun u => plain u = true)) (fields_from cur l).
Proof.
  intros Hcur Hl. revert cur Hcur. induction Hl as [|u l [Hs Hu] _ IH]; intros cur Hcur; cbn [fields_from].
  - destruct cur; [constructor|]. constructor; [|constructor]. by apply Forall_rev.
  - destruct (IsSpace u) eqn:Eu.
    + destruct cur; [by apply IH|]. constructor; [by apply Forall_rev|]. by apply IH.
    + apply IH. constructor; [|done]. unfold plain. by rewrite Hs, Hu, Eu.
Qed.

Lemma join_runes_plain ws : Forall (Forall (fun u => plain u = true)) ws -> Forall (fun u => plain u = true) (join_runes ws).
Proof.
  induction 1 as [|w ws Hw _ IH]; [constructor|]. cbn [join_runes]. destruct ws; [done|].
  apply Forall_app. split; [done|]. by constructor.
Qed.

(** The text before the cut: one line, its words one space apart. *)
Definition one_line (s : string) : list Z := join_runes (Fields (omap detail_rune (runes s))).

Lemma one_line_plain s : Forall (fun u => plain u = true) (one_line s).
Proof.
  apply join_runes_plain, fields_from_plain; [constructor|]. rewrite Forall_forall. intros u Hu.
  apply list_elem_of_omap in Hu as (c & Hc & Hu). pose proof (runes_scalar s) as Hs. rewrite Forall_forall in Hs.
  by apply (detail_rune_ok c); [apply Hs|].
Qed.

(** The cut keeps the most whole code points that fit. *)
Lemma sanitize_spec s limit : 0 <= limit -> exists l k, one_line s = l ++ k /\ sanitizeDetailText s limit = encode l /\
  slen (encode l) <= limit /\ forall u k', k = u :: k' -> limit < slen (encode (l ++ [u])).
Proof.
  intros Hlim. unfold sanitizeDetailText, slen. fold (one_line s). pose proof (one_line_plain s) as Hp. generalize dependent (one_line s).
  intros l Hl. destruct (Z.leb_spec (Z.of_nat (String.length (encode l))) limit) as [Hle|Hgt].
  - exists l, []. by rewrite app_nil_r.
  - destruct (cut_spec l (Z.to_nat limit) (plain_scalar _ Hl)) as (l1 & u & l2 & -> & -> & Hb); [lia|].
    exists l1, (u :: l2). split; [done|]. split; [done|]. split; [lia|]. intros v k' [= <- _]. lia.
Qed.

Lemma sanitize_plain s limit : 0 <= limit -> plain_text (sanitizeDetailText s limit) /\ slen (sanitizeDetailText s limit) <= limit.
Proof.
  intros Hlim. destruct (sanitize_spec s limit Hlim) as (l & k & El & -> & Hle & _). split; [|done]. exists l. split; [done|].
  pose proof (one_line_plain s) as Hp. rewrite El in Hp. by apply Forall_app in Hp as [Hp _].
Qed.

Lemma scalarField_plain d raw limit : 5 <= limit -> (forall v, raw = Some v -> json_wf d v) ->
  plain_text (scalarField raw limit) /\ slen (scalarField raw limit) <= limit.
Proof.
  intros Hlim Hraw. destruct raw as [v|]; [|split; [by exists []|unfold slen; cbn [scalarField String.length]; lia]]. specialize (Hraw v eq_refl).
  destruct Hraw as [?|? b|? lit Hnum|? w _|? l _ _|? m _ _]; cbn [scalarField].
  1, 5, 6: split; [by exists []|unfold slen; cbn [scalarField String.length]; lia].
  - destruct b; (split; [by apply visible_plain|unfold slen; cbn [scalarField String.length]; lia]).
  - destruct (Z.ltb_spec limit (slen lit)); [split; [by exists []|unfold slen; cbn [scalarField String.length]; lia]|]. split; [|done].
    apply visible_plain. by eapply scan_number_visible.
  - apply sanitize_plain. lia.
Qed.

Definition members_wf (d : Z) (m : list (string * json)) : Prop := Forall (fun kv => json_wf d kv.2) m.

Lemma field_values_wf d name m : members_wf d m -> Forall (json_wf d) (field_values name m).
Proof.
  unfold members_wf. rewrite !Forall_forall. intros Hm v Hv. unfold field_values in Hv.
  apply list_elem_of_fmap in Hv as (kv & -> & Hkv). apply Hm.
  apply list_elem_of_In, List.filter_In in Hkv as [Hkv _]. by apply list_elem_of_In.
Qed.

Lemma raw_field_wf d name m v : members_wf d m -> raw_field name m = Some v -> json_wf d v.
Proof.
  intros Hm%(field_values_wf d name) Hv. rewrite Forall_forall in Hm. apply Hm. by apply last_Some_elem_of.
Qed.

Lemma members_wf_obj d d' m : json_wf d (JObj m) -> d <= d' -> members_wf d' m.
Proof.
  inversion 1 as [| | | | |? ? _ Hm]; subst. intros Hd. eapply Forall_impl; [exact Hm|]. intros kv [_ Hkv]. eapply json_wf_le; [|exact Hkv]. lia.
Qed.

Lemma pointer_field_wf d name m em : members_wf d m -> pointer_field name m = Some (Some em) -> members_wf d em.
Proof.
  intros Hm. unfold pointer_field, decode_field.
  apply (field_values_wf d name) in Hm as Hvs.
  assert (forall em, (None : option (list (string * json))) = Some em -> members_wf d em) as Hacc by done.
  revert Hacc. generalize (None : option (list (string * json))) as acc.
  induction Hvs as [|v vs Hv _ IH]; intros acc Hacc; cbn [fold_left].
  - intros [= ->]. by apply Hacc.
  - destruct (decode_pointer acc v) as [acc'|] eqn:E.
    + apply IH. intros em' ->. destruct v as [| | | | |m']; try done. cbn in E. injection E as <-.
      apply Forall_app. split; [destruct acc; [by apply Hacc|constructor]|]. by eapply members_wf_obj; [exact Hv|].
    + clear. intros H. exfalso. induction vs as [|v vs IH]; [done|]. by apply IH.
Qed.

(** Whatever the body, a field of the detail is one line of plain text within its bound. *)
Lemma detail_plain body :
  Forall (fun fn => plain_text fn.1 /\ slen fn.1 <= fn.2)
    [(d_Type (upstreamDetail body), maxDetailType); (d_Code (upstreamDetail body), maxDetailCode);
     (d_Message (upstreamDetail body), maxDetailMessage)].
Proof.
  assert (Forall (fun fn => plain_text fn.1 /\ slen fn.1 <= fn.2)
    [(d_Type no_detail, maxDetailType); (d_Code no_detail, maxDetailCode); (d_Message no_detail, maxDetailMessage)]) as Hno.
  { repeat constructor; try by exists []. all: by vm_compute. }
  assert (forall d m, members_wf d m -> Forall (fun fn => plain_text fn.1 /\ slen fn.1 <= fn.2)
    [(scalarField (raw_field "type" m) maxDetailType, maxDetailType); (scalarField (raw_field "code" m) maxDetailCode, maxDetailCode);
     (scalarField (raw_field "message" m) maxDetailMessage, maxDetailMessage)]) as Hf.
  { intros d m Hm. repeat apply Forall_cons_2; [..|constructor]; (eapply (scalarField_plain d); [done|]);
      intros v; by apply raw_field_wf. }
  unfold upstreamDetail. destruct (_ || _); [done|]. destruct (json_parse body) as [v|] eqn:Ev; [|done].
  apply json_parse_wf in Ev. destruct (decode_struct v) as [m|] eqn:Em; [|done].
  assert (members_wf maxNestingDepth m) as Hm.
  { destruct v as [| | | | |m']; try done; [injection Em as <-; constructor|]. injection Em as <-. by eapply members_wf_obj. }
  destruct (string_field "object" m) as [object|]; [|done]. destruct (pointer_field "error" m) as [[em|]|] eqn:Ee; [| |done].
  - apply (Hf maxNestingDepth). by eapply pointer_field_wf.
  - destruct (negb _); [done|]. by apply (Hf maxNestingDepth).
Qed.

(** C35: A backend's error text is tamed before anyone sees it. Whatever bytes
    the error body holds, type, code and message of the extracted detail are
    valid UTF-8 of at most 64, 64 and 256 bytes made of visible characters
    and plain spaces: no control character, no format character (the bidi
    overrides and zero-width joiners among them), no line break of any kind.
    A string is reduced to its words one space apart and cut to the longest
    run of whole code points that fits the bound. So what a client reads in
    the response to a backend failure is the gateway's own message followed
    at most by 258 bytes of such text. *)
Theorem detail_plain_text body s limit relay err retry_after (Hlimit : 0 <= limit) :
  Forall (fun fn => plain_text fn.1 /\ slen fn.1 <= fn.2)
    [(d_Type (upstreamDetail body), 64); (d_Code (upstreamDetail body), 64); (d_Message (upstreamDetail body), 256)] /\
  (exists l k, one_line s = l ++ k /\ sanitizeDetailText s limit = encode l /\ slen (encode l) <= limit /\
    forall u k', k = u :: k' -> limit < slen (encode (l ++ [u]))) /\
  (let f := classifyBackendError err in
   let r := fail_with retry_after (relayUpstreamDetail relay (resp f) err (d_Message (upstreamDetail body))) in
   exists extra, error_fields (ce_body r) = Some (ae_typ (resp f), ae_code (resp f), ae_msg (resp f) +:+ extra) /\
     plain_text extra /\ slen extra <= 258).
Proof.
  split; [apply detail_plain|]. split; [by apply sanitize_spec|].
  pose proof (detail_plain body) as Hd. rewrite !Forall_cons in Hd. destruct Hd as (_ & _ & [Hd Hn] & _). cbn [fst snd] in Hd, Hn. cbn zeta.
  destruct (failure_surface relay err (d_Message (upstreamDetail body)) retry_after (plain_text_valid _ Hd))
    as (_ & _ & (msg & -> & Hmsg) & _). destruct Hmsg as [->|(_ & -> & _)].
  - exists "". rewrite sapp_nil_r. split; [done|]. split; [by exists []|done].
  - eexists. split; [done|]. split; [by apply plain_text_app; [apply visible_plain|]|].
    unfold slen, maxDetailMessage in *. rewrite slen_app. cbn [String.length]. lia.
Qed.

Lemma detail_plain_text_witness :
  0 <= 4 /\ sanitizeDetailText (js "a  b\n") 4 = "a b\" /\
  (exists l k, one_line (js "a  b\n") = l ++ k /\ sanitizeDetailText (js "a  b\n") 4 = encode l).
Proof.
  split; [lia|]. split; [by vm_compute|].
  destruct (detail_plain_text "" (js "a  b\n") 4 true ErrConnect None ltac:(lia)) as (_ & (l & k & H1 & H2 & _) & _). by exists l, k.
Defined.
