(* ===== verification/Discovery.v ===== *)
(** * Model discovery: [internal/discovery/discovery.go]

    What [init] learns from a server that is not trusted yet: the bounded
    answer to [/v1/models], the egress policy derived from the servers, the
    routing table aggregated from their answers. *)

From Stdlib Require Import Ascii.
From stdpp Require Import sorting.
From S2P Require Import Prelude GoStrings Net Json JsonFacts JsonStream Utf8 Config Backend Peer.
#[local] Open Scope Z_scope.

(* src: internal/discovery/discovery.go 27-28 MaxModelIDBytes *)
Definition MaxModelIDBytes : Z := 256.
(* src: internal/discovery/discovery.go 319-319 MaxResponseBytes *)
Definition MaxResponseBytes : Z := 1048576.
(* src: internal/discovery/discovery.go 320-320 MaxModels *)
Definition MaxModels : Z := 256.
(* src: internal/discovery/discovery.go 321-321 MaxServers *)
Definition MaxServers : Z := 16.
(* src: internal/discovery/discovery.go 322-322 MaxUniqueModels *)
Definition MaxUniqueModels : Z := 1024.

(** The errors of the parser, by their text's kind; those of the two bounds
    contain the word [exceeds]. *)
Inductive disc_error :=
| DMaxBytes | DMaxModels | DRead
| DExceedsBytes (n : Z) | DExceedsModels (n : Z)
| DInvalidJSON | DNotObject | DKey | DDuplicateObject | DDuplicateData | DDuplicateID
| DNotClosed | DObjectNotList | DNoData | DOneDocument
| DDataNotArray | DEntryNotObject | DEntryNotModel | DBadID | DDataNotClosed.

(** ** Model IDs *)

(* src: internal/discovery/discovery.go jsonHex16 *)
Definition jsonHex16 (a b c d : ascii) : option Z :=
  if is_hex a && is_hex b && is_hex c && is_hex d then Some (hex4 a b c d) else None.

(** The loop between the quotes. *)
(* src: internal/discovery/discovery.go 228-292 decodeJSONString *)
Fixpoint unescape (s : string) : option string :=
  match s with
  | "" => Some ""
  | String c r =>
      if negb (Ascii.eqb c ch_bslash) then
        if bval c <? 32 then None else option_map (String c) (unescape r)
      else match r with
      | "" => None
      | String e r1 =>
          if Ascii.eqb e ch_u then
            match r1 with
            | String h1 (String h2 (String h3 (String h4 r4))) =>
                match jsonHex16 h1 h2 h3 h4 with
                | None => None
                | Some code =>
                    if (55296 <=? code) && (code <=? 56319) then
                      match r4 with
                      | String b (String u (String g1 (String g2 (String g3 (String g4 r10))))) =>
                          if negb (Ascii.eqb b ch_bslash && Ascii.eqb u ch_u) then None
                          else match jsonHex16 g1 g2 g3 g4 with
                          | None => None
                          | Some low =>
                              if (low <? 56320) || (57343 <? low) then None
                              else option_map (String.append (utf8_encode (65536 + Z.shiftl (code - 55296) 10 + (low - 56320)))) (unescape r10)
                          end
                      | _ => None
                      end
                    else if (56320 <=? code) && (code <=? 57343) then None
                    else option_map (String.append (utf8_encode code)) (unescape r4)
                end
            | _ => None
            end
          else match simple_escape e with
               | Some x => option_map (String x) (unescape r1)
               | None => None
               end
      end
  end.

(* src: internal/discovery/discovery.go decodeJSONString *)
Definition decodeJSONString (raw : string) : option string :=
  let b := TrimSpace raw in
  if slen b <? 2 then None
  else match b with
       | String q r => if negb (Ascii.eqb q ch_dquote) then None
                       else match cut_suffix (String ch_dquote "") r with Some w => unescape w | None => None end
       | "" => None
       end.

(* src: internal/discovery/discovery.go validModelID *)
Definition validModelID (s : string) : bool :=
  if String.eqb s "" || (MaxModelIDBytes <? slen s) || negb (valid_utf8 s) || bool_decide (is_Some (ValidateModelName s)) then false
  else if existsb (fun r => IsControl r || IsFormat r || IsLineSep r || IsParSep r) (runes s) then false
  else if match runes s with first :: _ => IsSpace first | [] => false end then false
  else if match last (runes s) with Some r => IsSpace r | None => false end then false
  else true.

(** ** The answer *)

(** An entry's raw [id] is the text of its value, empty when it is absent. *)
(* src: internal/discovery/discovery.go modelEntry *)
Record modelEntry := mkModelEntry { me_Object : string; me_ID : string }.
Definition decode_entry (v : json) : option modelEntry :=
  match decode_struct v with
  | None => None
  | Some m => option_map (fun o => mkModelEntry o (match raw_field "id" m with Some v => print v | None => "" end)) (string_field "object" m)
  end.

(** One entry of the list. *)
(* src: internal/discovery/discovery.go 163-173 parseData *)
Definition entry_id (v : json) : result disc_error string :=
  match decode_entry v with
  | None => Err DEntryNotObject
  | Some entry =>
      if negb (String.eqb (me_Object entry) "model") then Err DEntryNotModel
      else match decodeJSONString (me_ID entry) with
           | Some id => if validModelID id then Ok id else Err DBadID
           | None => Err DBadID
           end
  end.

(** A decoder error inside [Decode] of an entry is reported as a bad entry,
    elsewhere as invalid JSON. *)
Definition as_error {A} (e : disc_error) (x : result derr A) : result disc_error A :=
  match x with Ok a => Ok a | Err _ => Err e end.

Section Parser.
(** [F] is the fuel of one [Decode] or [Token]: enough for the whole text. *)
Variable F : nat.

(* src: internal/discovery/discovery.go 158-175 parseData *)
Fixpoint data_loop (n : nat) (d : decoder) (ids : list string) (maxModels : Z) : result disc_error (list string * decoder) :=
  match n with
  | O => Err DInvalidJSON
  | S n =>
      if More d then
        if maxModels <=? Z.of_nat (length ids) then Err (DExceedsModels maxModels)
        else let? x := as_error DEntryNotObject (Decode F d) in
             let '(v, d) := x in
             let? id := entry_id v in data_loop n d (ids ++ [id]) maxModels
      else Ok (ids, d)
  end.

(* src: internal/discovery/discovery.go parseData *)
Definition parseData (d : decoder) (maxModels : Z) : result disc_error (list string * decoder) :=
  let? x := as_error DInvalidJSON (Token F F d) in
  let '(tok, d) := x in
  match tok with
  | TDelim "["%char =>
      let? x := data_loop F d [] maxModels in
      let '(ids, d) := x in
      let? x := as_error DInvalidJSON (Token F F d) in
      let '(tok, d) := x in
      match tok with TDelim "]"%char => Ok (ids, d) | _ => Err DDataNotClosed end
  | _ => Err DDataNotArray
  end.

(** The IDs of [data] against those seen. *)
(* src: internal/discovery/discovery.go 111-117 parseModelList *)
Fixpoint add_ids (seen : gset string) (ids parsed : list string) : result disc_error (list string) :=
  match parsed with
  | [] => Ok ids
  | id :: parsed => if bool_decide (id ∈ seen) then Err DDuplicateID else add_ids ({[id]} ∪ seen) (ids ++ [id]) parsed
  end.

(** What the loop has found: the [object] member, the IDs once [data] was
    seen. *)
Record found := mkFound { f_object : option string; f_data : option (list string) }.

Definition is_seen {A} (o : option A) : bool := match o with Some _ => true | None => false end.

(** The loop over the members. *)
(* src: internal/discovery/discovery.go 83-124 parseModelList *)
Fixpoint member_loop (n : nat) (d : decoder) (st : found) (maxModels : Z) : result disc_error (found * decoder) :=
  match n with
  | O => Err DInvalidJSON
  | S n =>
      if More d then
        let? x := as_error DInvalidJSON (Token F F d) in
        let '(tok, d) := x in
        match tok with
        | TStr key =>
            if String.eqb key "object" then
              if is_seen (f_object st) then Err DDuplicateObject
              else let? x := as_error DInvalidJSON (Decode F d) in
                   let '(v, d) := x in
                   match decode_string "" v with
                   | Some o => member_loop n d (mkFound (Some o) (f_data st)) maxModels
                   | None => Err DInvalidJSON
                   end
            else if String.eqb key "data" then
              if is_seen (f_data st) then Err DDuplicateData
              else let? x := parseData d maxModels in
                   let '(parsed, d) := x in
                   let? ids := add_ids ∅ [] parsed in
                   member_loop n d (mkFound (f_object st) (Some ids)) maxModels
            else let? x := as_error DInvalidJSON (Decode F d) in member_loop n x.2 st maxModels
        | _ => Err DKey
        end
      else Ok (st, d)
  end.

(* src: internal/discovery/discovery.go parseModelList *)
Definition parseModelList (text : string) (maxModels : Z) : result disc_error (list string) :=
  let? x := as_error DInvalidJSON (Token F F (mkDec text STop [])) in
  let '(tok, d) := x in
  match tok with
  | TDelim "{"%char =>
      let? x := member_loop F d (mkFound None None) maxModels in
      let '(st, d) := x in
      let? x := as_error DInvalidJSON (Token F F d) in
      let '(tok, d) := x in
      match tok with
      | TDelim "}"%char =>
          match f_object st, f_data st with
          | Some o, data =>
              if negb (String.eqb o "list") then Err DObjectNotList
              else match data with
                   | None => Err DNoData
                   | Some ids => match Token F F d with Err EOF => Ok ids | _ => Err DOneDocument end
                   end
          | None, _ => Err DObjectNotList
          end
      | _ => Err DNotClosed
      end
  | _ => Err DNotObject
  end.
End Parser.

Definition str_le (a b : string) : Prop := string_leb a b = true.
#[export] Instance str_le_dec : RelDecision str_le := fun a b => decide (string_leb a b = true).
#[export] Instance str_le_trans : Transitive str_le.
Proof. intros x y z. apply string_leb_trans. Qed.
#[export] Instance str_le_total : Total str_le.
Proof. intros x y. apply string_leb_total. Qed.

(** [body] is what reading at most [maxBytes+1] bytes gives, [None] a read
    error; the bound wraps at [MaxInt64], as the sum does.  (The lists
    preallocated for [maxModels] entries, 256 in the program, are not
    modelled.) *)
(* src: internal/discovery/discovery.go ParseModels *)
Definition ParseModels (body : option string) (maxBytes maxModels : Z) : result disc_error (list string) :=
  if maxBytes <=? 0 then Err DMaxBytes
  else if maxModels <=? 0 then Err DMaxModels
  else match body with
  | None => Err DRead
  | Some text =>
      let data := stake (Z.to_nat (wrap64 (maxBytes + 1))) text in
      if maxBytes <? slen data then Err (DExceedsBytes maxBytes)
      else let? ids := parseModelList (2 * String.length data + 2) data maxModels in Ok (merge_sort str_le ids)
  end.

Example ParseModels_ex :
  map (fun b => ParseModels (Some (js b)) 200 3)
    ["{'object':'list','data':[{'object':'model','id':'b'},{'id':'a\u00e9','object':'model','x':[1,{}]}]} ";
     "{'data':[],'object':'list','next':null}"; "{'object':'list','data':[{'object':'model','id':'*'}]}";
     "{'object':'list','data':[{'object':'model','id':'\ud800'}]}"; "{'object':'list'}"; "{'object':'list','data':[],}";
     "{'object':'list','data':[]} 1"; "[]"]
  = [Ok [ "a" +:+ String (byte 195) (String (byte 169) ""); "b"]; Ok []; Err DBadID; Err DBadID; Err DNoData; Err DInvalidJSON;
     Err DOneDocument; Err DNotObject].
Proof. vm_compute. reflexivity. Qed.

(** ** The streaming parser and the tree of the text *)

(** The IDs of a list of entries. *)
Definition entries (l : list json) (ids : list string) : Prop := Forall2 (fun v id => entry_id v = Ok id) l ids.

Lemma as_error_ok {A} e (x : result derr A) a : as_error e x = Ok a <-> x = Ok a.
Proof. destruct x; cbn; split; congruence. Qed.

Notation D0 := maxNestingDepth.

Lemma data_loop_sound F n s st stk ids M ids' d d' :
  st = SArrStart \/ st = SArrComma -> data_loop F n (mkDec s st stk) ids M = Ok (ids', d) ->
  Token F F d = Ok (TDelim "]"%char, d') ->
  exists l new o stk' t, elements_at D0 st s l t /\ entries l new /\ ids' = ids ++ new /\
    stk = o :: stk' /\ d' = mkDec t (value_end o) stk' /\ (new = [] \/ Z.of_nat (length ids') <= M).
Proof.
  revert s st ids. induction n as [|n IH]; intros s st ids Hst H Htok; [done|]. cbn [data_loop] in H.
  destruct (More (mkDec s st stk)).
  - destruct (Z.leb_spec M (Z.of_nat (length ids))); [done|].
    destruct (Decode F (mkDec s st stk)) as [[v d1]|] eqn:Ed; [|done]. cbn [as_error] in H.
    destruct (entry_id v) as [id|] eqn:Eid; [|done].
    apply Decode_ok in Ed as (r0 & st0 & r & Hdue & Hall & Hv & ->).
    assert (value_end st0 = SArrComma) as Est.
    { destruct Hst as [-> | ->]; cbn in Hdue; [by injection Hdue as _ <-|]. destruct (expect _ _); [|done]. by injection Hdue as _ <-. }
    rewrite Est in H. destruct (IH _ _ _ (or_intror eq_refl) H Htok) as (l & new & o & stk' & t & Hel & Hen & -> & Hstk & Hd & Hb).
    exists (v :: l), (id :: new), o, stk', t. destruct (elements_cons _ _ _ _ _ _ _ Hv Hel) as [k Hk].
    split; [|split; [by constructor|]].
    + destruct Hst as [-> | ->]; cbn in Hdue |- *; [injection Hdue as -> <-; right; by exists k|].
      destruct (expect ","%char (skip_ws s)) as [r1|] eqn:Ec; [|done]. injection Hdue as <- <-. right. by exists r1, k.
    + rewrite <- app_assoc. split; [done|]. split; [done|]. split; [done|]. right. destruct Hb as [->|Hb].
      * rewrite length_app. cbn. lia.
      * by rewrite <- app_assoc in Hb.
  - injection H as <- <-. apply Token_close_array in Htok as (o & stk' & t & Hstk & He & Hd); [|done].
    exists [], [], o, stk', t. split; [destruct Hst as [-> | ->]; by left|]. split; [constructor|]. rewrite app_nil_r. auto 10.
Qed.

Lemma elements_len D st s l t : st = SArrStart \/ st = SArrComma -> elements_at D st s l t -> (String.length t < String.length s)%nat.
Proof.
  pose proof (skip_ws_le s). intros [-> | ->]; cbn.
  - intros [[He _]|[k Hk]]; [apply expect_len in He; lia|]. by apply (proj2 (proj2 (parse_fuel k))) in Hk as [? _].
  - intros [[He _]|(r & k & He & Hk)]; [apply expect_len in He; lia|]. apply expect_len in He.
    apply (proj2 (proj2 (parse_fuel k))) in Hk as [? _]. lia.
Qed.

(** A value starts with no closing bracket. *)
Lemma parse_value_more k D s x st stk : parse_value k D s = Some x -> More (mkDec s st stk) = true.
Proof.
  intros H. destruct (More _) eqn:E; [done|exfalso]. destruct k; [done|]. cbn [parse_value] in H.
  apply More_false in E as [E|[[t E]|[t E]]]; [rewrite E in H; done|apply expect_some in E; rewrite E in H; done..].
Qed.
Lemma more_comma s r st stk : expect ","%char (skip_ws s) = Some r -> More (mkDec s st stk) = true.
Proof. intros E%expect_some. unfold More. cbn [d_buf]. by rewrite E. Qed.

Lemma data_loop_complete F d n s st o stk l new ids M t : st = SArrStart \/ st = SArrComma -> d <= D0 ->
  elements_at d st s l t -> entries l new -> (String.length s < n)%nat -> (2 * String.length s + 1 <= F)%nat ->
  Z.of_nat (length (ids ++ new)) <= M ->
  exists d1, data_loop F n (mkDec s st (o :: stk)) ids M = Ok (ids ++ new, d1) /\
    Token F F d1 = Ok (TDelim "]"%char, mkDec t (value_end o) stk).
Proof.
  intros Hst Hd. revert s st ids Hst l new. induction n as [|n IH]; intros s st ids Hst l new Hel Hen Hn HF HM; [lia|].
  pose proof (elements_len _ _ _ _ _ Hst Hel) as Hlen.
  destruct l as [|v l].
  - inversion Hen; subst. assert (expect "]"%char (skip_ws s) = Some t) as He.
    { destruct Hst as [-> | ->]; cbn in Hel.
      - destruct Hel as [[He _]|[k Hk]]; [done|]. by apply parse_elements_cons in Hk as (? & ? & ?).
      - destruct Hel as [[He _]|(r & k & _ & Hk)]; [done|]. by apply parse_elements_cons in Hk as (? & ? & ?). }
    cbn [data_loop]. rewrite (proj2 (More_false s st (o :: stk))) by eauto. exists (mkDec s st (o :: stk)). rewrite app_nil_r.
    split; [done|]. destruct F as [|F]; [lia|]. apply Token_close_intro; [by left|done].
  - inversion Hen as [|v' id l' new' Hid Hen']; subst.
    assert (exists r0 st0 k, due st s = Some (r0, st0) /\ value_end st0 = SArrComma /\ value_allowed st0 = true /\
      More (mkDec s st (o :: stk)) = true /\ (String.length r0 <= String.length s)%nat /\ parse_elements k d r0 = Some (v :: l, t))
      as (r0 & st0 & k & Hdue & Hve & Hva & Hmore & Hr0 & Hk).
    { pose proof (skip_ws_le s). destruct Hst as [-> | ->]; cbn in Hel.
      - destruct Hel as [[_ ?]|[k Hk]]; [done|]. exists s, SArrStart, k. split_and!; try done.
        destruct (elements_uncons _ _ _ _ _ _ Hk) as (k' & r & Hv & _). by eapply parse_value_more.
      - destruct Hel as [[_ ?]|(r & k & He & Hk)]; [done|]. exists r, SArrValue, k. cbn [due]. rewrite He. cbn.
        pose proof (expect_len _ _ _ He). split_and!; try done; [by eapply more_comma|lia]. }
    destruct (elements_uncons _ _ _ _ _ _ Hk) as (k' & r & Hv & Hel').
    apply (proj1 (parse_fuel k')) in Hv as [Hl Hv].
    assert (Decode F (mkDec s st (o :: stk)) = Ok (v, mkDec r SArrComma (o :: stk))) as Hdec.
    { apply Decode_ok. exists r0, st0, r. rewrite <- Hve. split_and!; try done. apply Hv; [lia|done]. }
    destruct (IH r SArrComma (ids ++ [id]) (or_intror eq_refl) l new' Hel' Hen') as (d1 & Hloop & Htok); [lia|lia|by rewrite <- app_assoc|].
    exists d1. rewrite <- app_assoc in Hloop. split; [|done]. cbn [data_loop]. rewrite Hmore, Hdec.
    rewrite !length_app in HM. cbn [length] in HM. destruct (Z.leb_spec M (Z.of_nat (length ids))); [lia|].
    cbn [as_error]. by rewrite Hid.
Qed.

Lemma add_ids_ok seen ids parsed out : add_ids seen ids parsed = Ok out <->
  out = ids ++ parsed /\ NoDup parsed /\ Forall (fun id => id ∉ seen) parsed.
Proof.
  revert seen ids. induction parsed as [|id parsed IH]; intros seen ids; cbn [add_ids].
  - rewrite app_nil_r. split; [intros [= <-]; split; [done|split; constructor]|by intros [-> _]].
  - rewrite NoDup_cons, Forall_cons. case_bool_decide as Hs; [naive_solver|]. rewrite IH, <- app_assoc. cbn.
    split; intros (-> & Hnd & Hf); (split; [done|]).
    + rewrite Forall_forall in Hf. split; [split; [|done]|split; [done|]].
      * intros Hin. specialize (Hf _ Hin). set_solver.
      * apply Forall_forall. intros x Hx. specialize (Hf _ Hx). set_solver.
    + destruct Hnd as [Hni Hnd], Hf as [_ Hf]. split; [done|]. rewrite Forall_forall in Hf. apply Forall_forall.
      intros x Hx. specialize (Hf _ Hx). set_solver.
Qed.

Lemma parseData_sound F s stk M ids d' : 0 <= M -> parseData F (mkDec s SObjColon stk) M = Ok (ids, d') ->
  exists r l t k, expect ":"%char (skip_ws s) = Some r /\ parse_value k (D0 + 1) r = Some (JArr l, t) /\ entries l ids /\
    Z.of_nat (length ids) <= M /\ d' = mkDec t SObjComma stk.
Proof.
  intros HM H. unfold parseData in H. destruct (Token F F _) as [[tok d1]|] eqn:Et; [|done]. cbn [as_error] in H.
  destruct tok as [c| |]; try done. destruct c as [[] [] [] [] [] [] [] []]; try done.
  apply Token_open_array in Et as (r & r1 & Hc & Hb & ->).
  destruct (data_loop F F (mkDec r1 SArrStart (SObjValue :: stk)) [] M) as [[ids1 d2]|] eqn:El; [|done].
  destruct (Token F F d2) as [[tok2 d3]|] eqn:Et2; [|done]. cbn [as_error] in H.
  destruct tok2 as [c| |]; try done. destruct c as [[] [] [] [] [] [] [] []]; try done. injection H as <- <-.
  destruct (data_loop_sound _ _ _ _ _ _ _ _ _ _ (or_introl eq_refl) El Et2) as (l & new & o & stk' & t & Hel & Hen & -> & [= <- <-] & -> & Hb2).
  destruct (proj2 (parse_array D0 r l t)) as [k Hk]; [split; [done|by exists r1]|]. exists r, l, t, k.
  split_and!; try done. destruct Hb2 as [->|?]; [cbn; lia|done].
Qed.

Lemma parseData_complete F d s stk M l ids r t k : d <= D0 -> expect ":"%char (skip_ws s) = Some r ->
  parse_value k d r = Some (JArr l, t) -> entries l ids -> Z.of_nat (length ids) <= M -> (2 * String.length s + 2 <= F)%nat ->
  parseData F (mkDec s SObjColon stk) M = Ok (ids, mkDec t SObjComma stk).
Proof.
  intros Hd Hc Hv Hen HM HF. destruct (proj1 (parse_array (d - 1) r l t)) as (Hd0 & r1 & Hb & Hel).
  { exists k. replace (d - 1 + 1) with d by lia. done. }
  pose proof (expect_len _ _ _ Hc). pose proof (expect_len _ _ _ Hb). pose proof (skip_ws_le s). pose proof (skip_ws_le r).
  unfold parseData. destruct F as [|[|F]]; [lia..|]. rewrite (Token_open_array_intro _ _ _ _ _ _ Hc Hb). cbn [as_error].
  destruct (data_loop_complete (S (S F)) (d - 1) (S (S F)) r1 SArrStart SObjValue stk l ids [] M t (or_introl eq_refl)) as (d1 & Hloop & Htok);
    try done; try lia. rewrite Hloop. cbn [as_error]. by rewrite Htok.
Qed.

(** What the loop over the members does, member by member. *)
Fixpoint members_ok (M : Z) (st : found) (m : list (string * json)) (st' : found) : Prop :=
  match m with
  | [] => st' = st
  | (k, v) :: m =>
      if String.eqb (unquote k) "object" then
        f_object st = None /\ exists o, decode_string "" v = Some o /\ members_ok M (mkFound (Some o) (f_data st)) m st'
      else if String.eqb (unquote k) "data" then
        f_data st = None /\ exists l ids, v = JArr l /\ entries l ids /\ Z.of_nat (length ids) <= M /\ NoDup ids /\
          members_ok M (mkFound (f_object st) (Some ids)) m st'
      else members_ok M st m st'
  end.

(** The text after the key, where the value is due. *)
Lemma key_scan st s r w t u : key_text st s = Some r -> scan_string r = Some (w, t) -> expect ":"%char (skip_ws t) = Some u ->
  exists s1, scan_key (skip_ws s1) = Some (w, u) /\ (String.length s1 <= String.length s)%nat /\
    (st = SObjStart /\ s1 = s \/ st = SObjComma /\ expect ","%char (skip_ws s) = Some s1).
Proof.
  intros Hk Hw Hu. pose proof (skip_ws_le s). destruct st; try done; cbn [key_text] in Hk.
  - exists s. split; [by eapply key_text_scan|]. auto.
  - destruct (expect ","%char (skip_ws s)) as [s1|] eqn:E; [|done]. exists s1. pose proof (expect_len _ _ _ E).
    split; [by eapply key_text_scan|]. split; [lia|by right].
Qed.

Lemma members_at_cons D st s w u v t1 m t k r s0 : key_text st s = Some r -> scan_string r = Some (w, s0) ->
  expect ":"%char (skip_ws s0) = Some u -> parse_value k D u = Some (v, t1) -> members_at D SObjComma t1 m t ->
  members_at D st s ((w, v) :: m) t.
Proof.
  intros Hk Hw Hu Hv Hm. destruct (key_scan _ _ _ _ _ _ Hk Hw Hu) as (s1 & Hs1 & _ & Hst).
  destruct (members_cons _ _ _ _ _ _ _ _ _ Hs1 Hv Hm) as [n Hn].
  destruct Hst as [[-> ->]|[-> He]]; right; [by exists n|by exists s1, n].
Qed.

Lemma member_loop_sound F n s st stk f M f' d d' : 0 <= M -> st = SObjStart \/ st = SObjComma ->
  member_loop F n (mkDec s st stk) f M = Ok (f', d) -> Token F F d = Ok (TDelim "}"%char, d') ->
  exists m o stk' t, members_at (D0 + 1) st s m t /\ members_ok M f m f' /\ stk = o :: stk' /\ d' = mkDec t (value_end o) stk'.
Proof.
  intros HM. revert s st f. induction n as [|n IH]; intros s st f Hst H Htok; [done|]. cbn [member_loop] in H.
  destruct (More (mkDec s st stk)).
  2: { injection H as <- <-. apply Token_close_object in Htok as (o & stk' & t & Hstk & He & Hd); [|done].
       exists [], o, stk', t. split; [destruct Hst as [-> | ->]; by left|]. done. }
  destruct (Token F F (mkDec s st stk)) as [[tok d1]|] eqn:Et; [|done]. cbn [as_error] in H. destruct tok as [| key|]; try done.
  apply Token_key in Et as (r & w & s0 & Hk & Hw & -> & ->); [|done].
  assert (forall v d2, Decode F (mkDec s0 SObjColon stk) = Ok (v, d2) -> exists k u t1, expect ":"%char (skip_ws s0) = Some u /\
    parse_value k (D0 + 1) u = Some (v, t1) /\ d2 = mkDec t1 SObjComma stk) as Hdec.
  { intros v d2 (r0 & st0 & t1 & Hdue & _ & Hv & ->)%Decode_ok. cbn in Hdue. destruct (expect _ _) as [u|]; [|done].
    injection Hdue as <- <-. apply (proj1 (parse_fuel F)) in Hv as [_ Hv].
    eexists _, u, t1. split; [done|]. split; [apply Hv; [reflexivity|lia]|done]. }
  cbn [members_ok]. destruct (String.eqb_spec (unquote w) "object") as [Ek|Ek].
  { destruct (f_object f) eqn:Ef; [done|]. cbn [is_seen] in H. destruct (Decode F _) as [[v d2]|] eqn:Ed; [|done].
    destruct (Hdec _ _ eq_refl) as (k & u & t1 & Hu & Hv & ->). cbn [as_error] in H.
    destruct (decode_string "" v) as [o'|] eqn:Eo; [|done].
    destruct (IH _ _ _ (or_intror eq_refl) H Htok) as (m & o & stk' & t & Hm & Hok & Hstk & Hd).
    exists ((w, v) :: m), o, stk', t. split; [by eapply members_at_cons|]. split; [|done]. cbn [members_ok].
    rewrite Ek, String.eqb_refl. split; [done|]. by exists o'. }
  destruct (String.eqb_spec (unquote w) "data") as [Ek2|Ek2].
  { destruct (f_data f) eqn:Ef; [done|]. cbn [is_seen] in H. destruct (parseData F _ M) as [[parsed d2]|] eqn:Ed; [|done].
    destruct (parseData_sound _ _ _ _ _ _ HM Ed) as (u & l & t1 & k & Hu & Hv & Hen & Hlen & ->).
    destruct (add_ids ∅ [] parsed) as [ids|] eqn:Ei; [|done]. apply add_ids_ok in Ei as (-> & Hnd & _). cbn [app] in H.
    destruct (IH _ _ _ (or_intror eq_refl) H Htok) as (m & o & stk' & t & Hm & Hok & Hstk & Hd).
    exists ((w, JArr l) :: m), o, stk', t. split; [by eapply members_at_cons|]. split; [|done]. cbn [members_ok].
    rewrite (proj2 (String.eqb_neq _ _) Ek), Ek2, String.eqb_refl. split; [done|]. by exists l, parsed. }
  destruct (Decode F _) as [[v d2]|] eqn:Ed; [|done]. destruct (Hdec _ _ eq_refl) as (k & u & t1 & Hu & Hv & ->). cbn [as_error snd] in H.
  destruct (IH _ _ _ (or_intror eq_refl) H Htok) as (m & o & stk' & t & Hm & Hok & Hstk & Hd).
  exists ((w, v) :: m), o, stk', t. split; [by eapply members_at_cons|]. split; [|done]. cbn [members_ok].
  by rewrite (proj2 (String.eqb_neq _ _) Ek), (proj2 (String.eqb_neq _ _) Ek2).
Qed.

Lemma members_len D st s m t : st = SObjStart \/ st = SObjComma -> members_at D st s m t -> (String.length t < String.length s)%nat.
Proof.
  pose proof (skip_ws_le s). intros [-> | ->]; cbn.
  - intros [[He _]|[k Hk]]; [apply expect_len in He; lia|]. by apply (proj1 (proj2 (parse_fuel k))) in Hk as [? _].
  - intros [[He _]|(r & k & He & Hk)]; [apply expect_len in He; lia|]. apply expect_len in He.
    apply (proj1 (proj2 (parse_fuel k))) in Hk as [? _]. lia.
Qed.

(** The pieces of the first member, as the decoder meets them. *)
Lemma members_at_uncons D st s w v m t : members_at D st s ((w, v) :: m) t ->
  exists r s0 u k t1, key_text st s = Some r /\ scan_string r = Some (w, s0) /\ expect ":"%char (skip_ws s0) = Some u /\
    parse_value k D u = Some (v, t1) /\ members_at D SObjComma t1 m t /\ (String.length s0 < String.length s)%nat /\
    forall stk, More (mkDec s st stk) = true.
Proof.
  intros H. pose proof (skip_ws_le s).
  assert (exists s1 n, parse_members n D s1 = Some ((w, v) :: m, t) /\ (String.length s1 <= String.length s)%nat /\
    (st = SObjStart /\ s1 = s \/ st = SObjComma /\ expect ","%char (skip_ws s) = Some s1)) as (s1 & n & Hn & Hl & Hst).
  { destruct st; try done; cbn in H.
    - destruct H as [[_ ?]|[k Hk]]; [done|]. exists s, k. auto.
    - destruct H as [[_ ?]|(r & k & He & Hk)]; [done|]. exists r, k. apply expect_len in He as ?. split; [done|]. split; [lia|by right]. }
  destruct (members_uncons _ _ _ _ _ _ Hn) as (u & k & t1 & Hkey & Hv & Hm). cbn [fst snd] in *.
  unfold scan_key in Hkey. destruct (expect ch_dquote (skip_ws s1)) as [r|] eqn:Eq; [|done].
  destruct (scan_string r) as [[w' s0]|] eqn:Ew; [|done]. destruct (expect ":"%char (skip_ws s0)) as [u'|] eqn:Eu; [|done].
  injection Hkey as -> ->. exists r, s0, u, k, t1. pose proof (skip_ws_le s1).
  apply expect_len in Eq as ?. apply scan_string_len in Ew as ?.
  destruct Hst as [[-> ->]|[-> He]]; cbn [key_text].
  - split_and!; try done; [lia|]. intros stk. unfold More. cbn [d_buf]. apply expect_some in Eq as ->. done.
  - rewrite He. split_and!; try done; [lia|]. intros stk. by eapply more_comma.
Qed.

Lemma member_loop_complete F d n s st o stk m f M f' t : 0 <= M -> st = SObjStart \/ st = SObjComma -> d <= D0 ->
  members_at d st s m t -> members_ok M f m f' -> (String.length s < n)%nat -> (2 * String.length s + 2 <= F)%nat ->
  exists d1, member_loop F n (mkDec s st (o :: stk)) f M = Ok (f', d1) /\ Token F F d1 = Ok (TDelim "}"%char, mkDec t (value_end o) stk).
Proof.
  intros HM Hst Hd. revert s st f Hst m. induction n as [|n IH]; intros s st f Hst m Hm Hok Hn HF; [lia|].
  destruct m as [|[w v] m].
  - cbn in Hok. subst f'. assert (expect "}"%char (skip_ws s) = Some t) as He.
    { destruct Hst as [-> | ->]; cbn in Hm.
      - destruct Hm as [[He _]|[k Hk]]; [done|]. by apply parse_members_cons in Hk as (? & ? & ?).
      - destruct Hm as [[He _]|(r & k & _ & Hk)]; [done|]. by apply parse_members_cons in Hk as (? & ? & ?). }
    cbn [member_loop]. rewrite (proj2 (More_false s st (o :: stk))) by eauto. exists (mkDec s st (o :: stk)).
    split; [done|]. destruct F as [|F]; [lia|]. apply Token_close_intro; [by right|done].
  - destruct (members_at_uncons _ _ _ _ _ _ _ Hm) as (r & s0 & u & k & t1 & Hk & Hw & Hu & Hv & Hm' & Hl0 & Hmore).
    pose proof (expect_len _ _ _ Hu). pose proof (skip_ws_le s0). pose proof (proj1 (parse_fuel k) _ _ _ _ Hv) as [Hlt Hv'].
    assert (Decode F (mkDec s0 SObjColon (o :: stk)) = Ok (v, mkDec t1 SObjComma (o :: stk))) as Hdec.
    { apply Decode_ok. exists u, SObjValue, t1. cbn [due]. rewrite Hu. split_and!; try done. apply Hv'; lia. }
    cbn [member_loop]. rewrite Hmore. destruct F as [|[|F]]; [lia..|]. rewrite (Token_key_intro _ _ _ _ _ _ _ _ Hk Hw). cbn [as_error].
    assert (forall f1, members_ok M f1 m f' -> exists d1, member_loop (S (S F)) n (mkDec t1 SObjComma (o :: stk)) f1 M = Ok (f', d1) /\
      Token (S (S F)) (S (S F)) d1 = Ok (TDelim "}"%char, mkDec t (value_end o) stk)) as Hnext.
    { intros f1 Hf1. apply (IH t1 SObjComma f1 (or_intror eq_refl) m Hm' Hf1); lia. }
    cbn [members_ok] in Hok. destruct (String.eqb (unquote w) "object").
    { destruct Hok as (-> & o' & Ho & Hok). cbn [is_seen]. rewrite Hdec. cbn [as_error]. rewrite Ho. by apply Hnext. }
    destruct (String.eqb (unquote w) "data").
    { destruct Hok as (-> & l & ids & -> & Hen & HlM & Hnd & Hok). cbn [is_seen].
      rewrite (parseData_complete _ _ _ _ _ _ _ _ _ _ Hd Hu Hv Hen HlM) by lia.
      destruct (add_ids ∅ [] ids) as [ids'|] eqn:Ei.
      - apply add_ids_ok in Ei as (-> & _). by apply Hnext.
      - exfalso. rewrite (proj2 (add_ids_ok ∅ [] ids ids)) in Ei; [done|]. split; [done|]. split; [done|].
        apply Forall_forall. intros x _. apply not_elem_of_empty. }
    rewrite Hdec. cbn [as_error snd]. by apply Hnext.
Qed.

(** The values of the members spelt so. *)
Definition values_of (name : string) (m : list (string * json)) : list json :=
  map snd (List.filter (fun kv => String.eqb (unquote kv.1) name) m).

(** What a model list says, read off the tree. *)
Definition listed (M : Z) (m : list (string * json)) (ids : list string) : Prop :=
  (exists o, values_of "object" m = [o] /\ decode_string "" o = Some "list") /\
  (exists l, values_of "data" m = [JArr l] /\ entries l ids) /\
  Z.of_nat (length ids) <= M /\ NoDup ids.

Lemma members_ok_listed M f m ids : members_ok M f m (mkFound (Some "list") (Some ids)) <->
  (match f_object f with
   | Some o => o = "list" /\ values_of "object" m = []
   | None => exists o, values_of "object" m = [o] /\ decode_string "" o = Some "list" end) /\
  (match f_data f with
   | Some ids' => ids' = ids /\ values_of "data" m = []
   | None => exists l, values_of "data" m = [JArr l] /\ entries l ids /\ Z.of_nat (length ids) <= M /\ NoDup ids end).
Proof.
  revert f. induction m as [|[k v] m IH]; intros [fo fd]; cbn [members_ok f_object f_data].
  { destruct fo, fd; cbn; naive_solver. }
  unfold values_of. cbn [List.filter fst]. fold (values_of "object" m) (values_of "data" m).
  destruct (String.eqb_spec (unquote k) "object") as [Ek|Ek].
  { rewrite Ek. change (String.eqb "object" "data") with false. cbn iota. cbn [map snd]. fold (values_of "object" m) (values_of "data" m).
    destruct fo as [o|]; [split; [by intros [? _]|by intros [[_ ?] _]]|].
    split.
    - intros (_ & o & Ho & Hok). apply IH in Hok as [[-> He] Hd]. cbn [f_data] in Hd. split; [|done]. exists v. by rewrite He.
    - intros [(o & [= -> He] & Ho) Hd]. split; [done|]. exists "list". split; [done|]. apply IH. cbn [f_object f_data]. auto. }
  destruct (String.eqb_spec (unquote k) "data") as [Ek2|Ek2].
  { cbn [map snd]. fold (values_of "object" m) (values_of "data" m). destruct fd as [ids'|]; [split; [by intros [? _]|by intros [_ [_ ?]]]|].
    split.
    - intros (_ & l & ids' & -> & Hen & Hl & Hnd & Hok). apply IH in Hok as [Ho [-> He]]. split; [done|]. exists l. by rewrite He.
    - intros [Ho (l & [= -> He] & Hen & Hl & Hnd)]. split; [done|]. exists l, ids. split_and!; try done. apply IH. cbn [f_object f_data]. auto. }
  rewrite IH. done.
Qed.

Lemma parseModelList_sound F text M ids : 0 <= M -> parseModelList F text M = Ok ids ->
  exists m, parse_text (D0 + 2) text = Some (JObj m) /\ listed M m ids.
Proof.
  intros HM H. unfold parseModelList in H. destruct (Token F F _) as [[tok d1]|] eqn:Et; [|done]. cbn [as_error] in H.
  destruct tok as [c| |]; try done. destruct c as [[] [] [] [] [] [] [] []]; try done.
  apply Token_open_object in Et as (s & Hb & ->).
  destruct (member_loop F F (mkDec s SObjStart [STop]) (mkFound None None) M) as [[f d2]|] eqn:El; [|done].
  destruct (Token F F d2) as [[tok2 d3]|] eqn:Et2; [|done]. cbn [as_error] in H.
  destruct tok2 as [c| |]; try done. destruct c as [[] [] [] [] [] [] [] []]; try done.
  destruct (member_loop_sound _ _ _ _ _ _ _ _ _ _ HM (or_introl eq_refl) El Et2) as (m & o & stk' & t & Hm & Hok & [= <- <-] & ->).
  destruct f as [[o|] data]; [|done]. cbn [f_object f_data] in H. destruct (String.eqb_spec o "list") as [->|]; [|done]. cbn [negb] in H.
  destruct data as [ids'|]; [|done]. destruct (Token F F _) as [|[]] eqn:Ee; try done. injection H as <-.
  destruct F as [|F]; [done|]. apply Token_end in Ee. exists m.
  destruct (proj2 (parse_object (D0 + 1) text m t)) as [k Hk]; [split; [done|by exists s]|].
  split; [by eapply parse_text_intro; [exact Hk|lia|]|].
  apply members_ok_listed in Hok as [Ho (l & Hl & Hen & HlM & Hnd)]. split; [done|]. split; [by exists l|done].
Qed.

Lemma parseModelList_complete F text M m ids : 0 <= M -> json_parse text = Some (JObj m) -> listed M m ids ->
  (2 * String.length text + 2 <= F)%nat -> parseModelList F text M = Ok ids.
Proof.
  intros HM Hp (Ho & (l & Hl & Hen) & HlM & Hnd) HF. unfold json_parse in Hp.
  destruct (parse_value _ D0 text) as [[v t]|] eqn:Ev; [|done]. destruct (String.eqb_spec (skip_ws t) "") as [Et|]; [|done]. injection Hp as ->.
  destruct (proj1 (parse_object (D0 - 1) text m t)) as (_ & s & Hb & Hm).
  { eexists. replace (D0 - 1 + 1) with D0 by lia. exact Ev. }
  pose proof (expect_len _ _ _ Hb). pose proof (skip_ws_le text).
  destruct (member_loop_complete F (D0 - 1) F s SObjStart STop [] m (mkFound None None) M (mkFound (Some "list") (Some ids)) t)
    as (d1 & Hloop & Htok); try done; try lia; [by left| |].
  { apply members_ok_listed. cbn. split; [done|]. by exists l. }
  unfold parseModelList. destruct F as [|F]; [lia|]. rewrite (Token_open_object_intro _ _ _ _ Hb). cbn [as_error]. rewrite Hloop.
  cbn [as_error]. rewrite Htok. cbn [as_error f_object f_data value_end]. change (negb (String.eqb "list" "list")) with false. cbn iota.
  by rewrite (proj2 (Token_end (S F) F t) Et).
Qed.

(** ** Strict strings *)

Lemma encoded_start u e : encoded u e -> exists b r, e = String b r /\ cont b = false.
Proof.
  intros He. assert (forall b, bval b < 128 \/ 191 < bval b -> cont b = false) as Hc.
  { intros b [Hb|Hb]; unfold cont; [by apply in_range_below|by apply in_range_above]. }
  destruct He; eexists _, _; (split; [done|apply Hc; lia]).
Qed.
Lemma utf8_encode_start u s c t : scalar u = true -> utf8_encode u +:+ s = String c t -> cont c = false.
Proof. intros Hu%encode_encoded. destruct (encoded_start _ _ Hu) as (b & r & -> & Hb). cbn. by intros [= <- _]. Qed.

Lemma hex16_range a b c d code : jsonHex16 a b c d = Some code -> 0 <= code < 65536.
Proof. unfold jsonHex16. destruct (_ && is_hex d) eqn:E; [|done]. intros [= <-]. by apply hex4_range. Qed.

(** An escape never yields a byte that only continues a code point, so such
    bytes were written as they are. *)
Lemma unescape_cont w c s : unescape w = Some (String c s) -> cont c = true -> exists w', w = String c w' /\ unescape w' = Some s.
Proof.
  intros H Hc. destruct w as [|a r]; [done|]. cbn [unescape] in H. destruct (Ascii.eqb a ch_bslash); cbn [negb] in H.
  - exfalso. destruct r as [|e r1]; [done|]. destruct (Ascii.eqb e ch_u).
    + destruct r1 as [|h1 [|h2 [|h3 [|h4 r4]]]]; try done. destruct (jsonHex16 h1 h2 h3 h4) as [code|] eqn:Eh; [|done].
      apply hex16_range in Eh. destruct ((55296 <=? code) && (code <=? 56319)) eqn:E1.
      * destruct r4 as [|b [|u [|g1 [|g2 [|g3 [|g4 r10]]]]]]; try done. destruct (negb _); [done|].
        destruct (jsonHex16 g1 g2 g3 g4) as [low|] eqn:Eg; [|done]. destruct ((low <? 56320) || (57343 <? low)) eqn:E2; [done|].
        destruct (unescape r10) as [t|]; [|done]. cbn [option_map] in H. injection H as H. to_prop.
        rewrite Z.shiftl_mul_pow2 in H by lia. apply utf8_encode_start in H; [congruence|apply scalar_spec; lia].
      * destruct ((56320 <=? code) && (code <=? 57343)) eqn:E2; [done|]. destruct (unescape r4) as [t|]; [|done]. cbn [option_map] in H.
        injection H as H. apply utf8_encode_start in H; [congruence|]. apply scalar_spec.
        apply andb_false_iff in E1, E2. rewrite !Z.leb_gt in E1, E2. lia.
    + destruct (simple_escape e) as [x|] eqn:Ex; [|done]. destruct (unescape r1); [|done]. cbn in H. injection H as <- _.
      apply simple_escape_ascii in Ex. unfold cont in Hc. apply in_range_inv in Hc. lia.
  - destruct (_ <? _); [done|]. destruct (unescape r) as [t|] eqn:Er; [|done]. cbn in H. injection H as -> ->. by exists r.
Qed.

Lemma unquote_encoded u e s : encoded u e -> 128 <= u -> unquote (e +:+ s) = e +:+ unquote s.
Proof.
  intros He Hu. pose proof (encoded_head u e s He) as (_ & _ & Hw).
  destruct He as [a Ha|a b Ha Hb|a b c Ha Hb Hc|a b c d Ha Hb Hc Hd]; [lia| | |];
    cbn [String.append] in *; rewrite unquote_plain, Hw by lia; reflexivity.
Qed.

(** Text that decodes to an encoded rune and more starts with that rune. *)
Lemma unescape_encoded a r t u e t' : unescape r = Some t -> String a t = e +:+ t' -> encoded u e ->
  exists w', String a r = e +:+ w' /\ unescape w' = Some t' /\ (String.length w' <= String.length r)%nat.
Proof.
  intros Et Es He. assert (forall b, 128 <= bval b <= 191 -> cont b = true) as Hcont by (intros; by apply in_range_true).
  destruct He as [a0 Ha|a0 b Ha Hb|a0 b c Ha Hb Hc|a0 b c d Ha Hb Hc Hd]; cbn [String.append] in Es; injection Es as <- ->.
  - by exists r.
  - destruct (unescape_cont _ _ _ Et (Hcont _ Hb)) as (w1 & -> & H1). exists w1. split_and!; [done|done|cbn; lia].
  - destruct (unescape_cont _ _ _ Et) as (w1 & -> & H1); [apply Hcont; destruct (_ =? _), (_ =? _); lia|].
    destruct (unescape_cont _ _ _ H1 (Hcont _ Hc)) as (w2 & -> & H2). exists w2. split_and!; [done|done|cbn; lia].
  - destruct (unescape_cont _ _ _ Et) as (w1 & -> & H1); [apply Hcont; destruct (_ =? _), (_ =? _); lia|].
    destruct (unescape_cont _ _ _ H1 (Hcont _ Hc)) as (w2 & -> & H2).
    destruct (unescape_cont _ _ _ H2 (Hcont _ Hd)) as (w3 & -> & H3). exists w3. split_and!; [done|done|cbn; lia].
Qed.

(** A strict decode agrees with the lenient one where its result is UTF-8. *)
Lemma unescape_unquote w s : unescape w = Some s -> valid_utf8 s = true -> unquote w = s.
Proof.
  revert s. induction w as [w IH] using string_len_ind. intros s H Hv.
  destruct w as [|a r]; [by injection H as <-|]. pose proof H as H0. cbn [unescape] in H.
  destruct (Ascii.eqb a ch_bslash) eqn:Ea; cbn [negb] in H.
  - destruct r as [|e r1]; [done|]. cbn [unquote]. rewrite Ea. destruct (Ascii.eqb e ch_u) eqn:Eu.
    + destruct r1 as [|h1 [|h2 [|h3 [|h4 r4]]]]; try done. unfold jsonHex16 in H.
      destruct (is_hex h1 && is_hex h2 && is_hex h3 && is_hex h4) eqn:Eh; [|done]. apply hex4_range in Eh. set (code := hex4 h1 h2 h3 h4) in *.
      destruct ((55296 <=? code) && (code <=? 56319)) eqn:E1.
      * destruct r4 as [|b [|u [|g1 [|g2 [|g3 [|g4 r10]]]]]]; try done. destruct (Ascii.eqb b ch_bslash && Ascii.eqb u ch_u) eqn:Eb; [|done].
        cbn [negb] in H. destruct (is_hex g1 && is_hex g2 && is_hex g3 && is_hex g4) eqn:Eg; [|done]. set (low := hex4 g1 g2 g3 g4) in *.
        destruct ((low <? 56320) || (57343 <? low)) eqn:E2; [done|]. destruct (unescape r10) as [t|] eqn:Et; [|done].
        cbn [option_map] in H. injection H as <-. to_prop. rewrite Z.shiftl_mul_pow2 in * by lia.
        assert (is_surrogate code = true) as -> by (unfold is_surrogate; rewrite andb_true_iff, Z.leb_le, Z.ltb_lt; lia).
        assert (utf16_pair code low = Some ((code - 55296) * 1024 + (low - 56320) + 65536)) as ->.
        { unfold utf16_pair. rewrite !(proj2 (Z.leb_le _ _)), !(proj2 (Z.ltb_lt _ _)) by lia. done. }
        replace (65536 + (code - 55296) * 2 ^ 10 + (low - 56320)) with ((code - 55296) * 1024 + (low - 56320) + 65536) in * by lia.
        rewrite (IH r10 ltac:(cbn; lia) t Et); [done|]. rewrite valid_encode in Hv; [done|lia|].
        unfold is_surrogate. apply andb_false_iff. right. apply Z.ltb_ge. lia.
      * destruct ((56320 <=? code) && (code <=? 57343)) eqn:E2; [done|]. destruct (unescape r4) as [t|] eqn:Et; [|done]. cbn [option_map] in H.
        injection H as <-. assert (is_surrogate code = false) as Hs.
        { apply andb_false_iff in E1, E2. rewrite !Z.leb_gt in E1, E2. unfold is_surrogate. rewrite andb_false_iff, Z.leb_gt, Z.ltb_ge. lia. }
        rewrite Hs. rewrite (IH r4 ltac:(cbn; lia) t Et); [done|]. rewrite valid_encode in Hv by (done || lia). done.
    + destruct (simple_escape e) as [x|] eqn:Ex; [|done]. destruct (unescape r1) as [t|] eqn:Et; [|done]. cbn [option_map] in H. injection H as <-.
      rewrite (IH r1 ltac:(cbn; lia) t Et); [done|]. by rewrite valid_ascii in Hv by (by eapply simple_escape_ascii).
  - destruct (_ <? _); [done|]. destruct (unescape r) as [t|] eqn:Et; [|done]. cbn [option_map] in H. injection H as <-.
    destruct (rune_head (String a t)) as [?|[(u & e & t' & Es & He)|(a' & t' & _ & Hw)]]; [done| |cbn [valid_utf8] in Hv; by rewrite Hw in Hv].
    assert (valid_utf8 t' = true) as Hv' by (rewrite Es in Hv; by rewrite (proj1 (proj2 (encoded_head _ _ _ He))) in Hv).
    destruct (unescape_encoded a r t u e t' Et Es He) as (w' & Ew & Hw' & Hl).
    rewrite Ew, Es. specialize (IH w' ltac:(cbn; lia) t' Hw' Hv').
    destruct (Z.lt_ge_cases u 128) as [Hu|Hu]; [|by rewrite (unquote_encoded u), IH].
    destruct He; try lia.
    + cbn [String.append] in *. injection Ew as <- <-. cbn [unquote]. rewrite Ea. unfold utf8_width. rewrite in_range_true by lia. by rewrite IH.
    + destruct (Z.eqb_spec (bval a0) 224), (Z.eqb_spec (bval a0) 237); lia.
    + destruct (Z.eqb_spec (bval a0) 240), (Z.eqb_spec (bval a0) 244); lia.
Qed.

Fixpoint slast (s : string) : option ascii :=
  match s with "" => None | String c "" => Some c | String _ s => slast s end.
Lemma slast_app s c : slast (s +:+ String c "") = Some c.
Proof. induction s as [|a s IH]; [done|]. cbn. rewrite IH. by destruct s. Qed.

Lemma has_suffix_end p s : has_suffix p s = true -> exists t, s = t +:+ p.
Proof.
  unfold has_suffix. intros [_ E%String.eqb_eq]%andb_true_iff. exists (stake (String.length s - String.length p) s).
  rewrite <- E at 2. generalize (String.length s - String.length p)%nat as k. clear. intros k. revert k.
  induction s as [|c s IH]; intros [|k]; cbn; try done. by rewrite <- IH.
Qed.

Lemma find_none {A} (p : A -> bool) l : Forall (fun x => p x = false) l -> List.find p l = None.
Proof. induction 1 as [|x l Hx _ IH]; [done|]. cbn. by rewrite Hx. Qed.

Lemma trim_right_dquote n s : trim_right_space n (s +:+ String ch_dquote "") = s +:+ String ch_dquote "".
Proof.
  destruct n as [|n]; [done|]. cbn [trim_right_space]. rewrite find_none; [done|].
  assert (Forall (fun p => slast p <> Some ch_dquote /\ p <> "") space_runes) as Hall by (vm_compute; repeat constructor; done).
  eapply Forall_impl; [exact Hall|]. intros p [Hp Hne]. destruct (has_suffix p _) eqn:E; [|done].
  apply has_suffix_end in E as [t E]. exfalso. apply (f_equal slast) in E. rewrite slast_app in E.
  assert (slast (t +:+ p) = slast p) as E2; [|congruence]. clear -Hne. induction t as [|c t IH]; [done|]. cbn.
  rewrite IH. by destruct t, p.
Qed.

(** A text that starts with a printing character keeps it, unless nothing is left. *)
Lemma trim_left_printing n c r : 33 <= bval c <= 126 -> trim_left_space n (String c r) = String c r.
Proof.
  intros Hc. destruct n as [|n]; [done|]. cbn [trim_left_space]. rewrite find_none; [done|].
  assert (forallb (fun p => match p with String b _ => (bval b <=? 32) || (127 <=? bval b) | "" => false end) space_runes = true) as Hall
    by (vm_compute; reflexivity).
  rewrite forallb_forall in Hall. apply Forall_forall. intros p Hp%list_elem_of_In%Hall. destruct p as [|b p]; [done|].
  apply has_prefix_ne. intros ->. to_prop. lia.
Qed.

Lemma trim_right_prefix n s : exists k, trim_right_space n s = stake k s.
Proof.
  revert s. induction n as [|n IH]; intros s; [exists (String.length s); symmetry; by apply stake_all|]. cbn [trim_right_space].
  destruct (List.find _ _) as [w|]; [|exists (String.length s); symmetry; by apply stake_all].
  destruct (IH (trim_suffix w s)) as [k ->]. unfold trim_suffix, cut_suffix. destruct (has_suffix w s); [|by exists k].
  exists (Nat.min k (String.length s - String.length w)). generalize (String.length s - String.length w)%nat. clear.
  intros j. revert k j. induction s as [|c s IH]; intros [|k] [|j]; cbn; try done. by rewrite IH.
Qed.

Lemma TrimSpace_printing c r : 33 <= bval c <= 126 -> TrimSpace (String c r) = "" \/ exists r', TrimSpace (String c r) = String c r'.
Proof.
  intros Hc. unfold TrimSpace. rewrite trim_left_printing by done. destruct (trim_right_prefix (String.length (String c r)) (String c r)) as [[|k] ->];
    [by left|right]. cbn. eauto.
Qed.

Lemma TrimSpace_quoted w : TrimSpace (quoted w) = quoted w.
Proof.
  unfold TrimSpace, quoted. rewrite trim_left_printing by (vm_compute; split; discriminate).
  apply (trim_right_dquote _ (String ch_dquote w)).
Qed.

Lemma cut_suffix_dquote w : cut_suffix (String ch_dquote "") (w +:+ String ch_dquote "") = Some w.
Proof.
  unfold cut_suffix, has_suffix. rewrite slen_app. cbn [String.length]. replace (String.length w + 1 - 1)%nat with (String.length w) by lia.
  rewrite (proj2 (Nat.leb_le _ _)) by lia. by rewrite sdrop_app, stake_app.
Qed.

(** Only a string value decodes, and to what it denotes. *)
Lemma decodeJSONString_text d v s : decodeJSONString (print v) = Some s -> valid_utf8 s = true -> json_wf d v ->
  exists w, v = JStr w /\ unescape w = Some s /\ unquote w = s.
Proof.
  intros H Hs Hw.
  assert (forall c r, print v = String c r -> 33 <= bval c <= 126 -> c <> ch_dquote -> False) as Hno.
  { intros c r E Hc Hne. rewrite E in H. unfold decodeJSONString in H. destruct (TrimSpace_printing c r Hc) as [E'|[r' E']]; rewrite E' in H; [done|].
    destruct (_ <? _); [done|]. by destruct (Ascii.eqb_spec c ch_dquote). }
  destruct v as [|b|lit|w|l|m].
  - exfalso. by eapply (Hno "n"%char).
  - exfalso. destruct b; [by eapply (Hno "t"%char)|by eapply (Hno "f"%char)].
  - exfalso. inversion Hw as [| |? ? Hn| | |]; subst. destruct (num_head _ Hn) as (c & (r & E) & Hc).
    assert (33 <= bval c <= 126 /\ c <> ch_dquote) as [Hc1 Hc2]; [|by eapply (Hno c r)].
    apply orb_true_iff in Hc as [->%Ascii.eqb_eq|Hc]; [by split|]. apply in_range_spec in Hc. split; [lia|]. intros ->. change (bval ch_dquote) with 34 in Hc. lia.
  - exists w. split; [done|]. cbn [print] in H. unfold decodeJSONString in H. rewrite TrimSpace_quoted in H.
    destruct (_ <? _); [done|]. cbn [quoted] in H. rewrite Ascii.eqb_refl, cut_suffix_dquote in H. cbn [negb] in H. split; [done|]. by apply unescape_unquote.
  - exfalso. by eapply (Hno "["%char).
  - exfalso. by eapply (Hno "{"%char).
Qed.

(** ** What is accepted *)

Definition good_rune (r : Z) : bool := negb (IsControl r || IsFormat r || IsLineSep r || IsParSep r).

Lemma validModelID_spec s : validModelID s = true <->
  s <> "" /\ slen s <= 256 /\ valid_utf8 s = true /\ s <> "*" /\ contains_char ","%char s = false /\
  Forall (fun r => good_rune r = true) (runes s) /\
  (forall r, head (runes s) = Some r -> IsSpace r = false) /\ (forall r, last (runes s) = Some r -> IsSpace r = false).
Proof.
  unfold validModelID. unfold MaxModelIDBytes.
  assert (is_Some (ValidateModelName s) <-> s = "*" \/ contains_char ","%char s = true) as Hname.
  { unfold ValidateModelName, ModelWildcard. destruct (String.eqb_spec s "*") as [->|]; [split; [by left|eauto]|].
    destruct (contains_char _ _); split; try naive_solver; eauto. }
  assert (existsb (fun r => IsControl r || IsFormat r || IsLineSep r || IsParSep r) (runes s) = false <->
          Forall (fun r => good_rune r = true) (runes s)) as Hrunes.
  { unfold good_rune. induction (runes s) as [|r l IH]; [split; [constructor|done]|]. cbn. rewrite Forall_cons, orb_false_iff, IH, negb_true_iff. tauto. }
  destruct (String.eqb_spec s "") as [->|Hne]; [split; [done|naive_solver]|]. cbn [orb].
  destruct (Z.ltb_spec 256 (slen s)); [split; [done|intros (_ & ? & _); lia]|]. cbn [orb].
  destruct (valid_utf8 s); cbn [negb orb]; [|split; [done|naive_solver]].
  case_bool_decide as Hn; [split; [done|]; apply Hname in Hn; naive_solver|].
  rewrite <- Hrunes. destruct (existsb _ _) eqn:Ee; [split; [done|by intros (_ & _ & _ & _ & _ & Hf & _)]|].
  assert (s <> "*" /\ contains_char ","%char s = false) as [Hs1 Hs2].
  { rewrite Hname in Hn. split; [tauto|]. destruct (contains_char _ _); tauto. }
  destruct (runes s) as [|r l] eqn:Er.
  { cbn. split; [|done]. intros _. split_and!; try done. }
  destruct (IsSpace r) eqn:E1; [split; [done|intros (_ & _ & _ & _ & _ & _ & Hh & _); specialize (Hh r eq_refl); congruence]|].
  destruct (last (r :: l)) as [z|] eqn:El.
  - destruct (IsSpace z) eqn:E2; split; try done.
    + intros (_ & _ & _ & _ & _ & _ & _ & Hh). specialize (Hh z eq_refl). congruence.
    + intros _. split_and!; try done; [by intros ? [= <-]|by intros ? [= <-]].
  - by apply last_None in El.
Qed.

(** An entry says [id]: an object marked [model] with a string [id] that is
    strictly well formed. *)
Definition entry_says (v : json) (id : string) : Prop :=
  exists em w, decode_struct v = Some em /\ string_field "object" em = Some "model" /\ raw_field "id" em = Some (JStr w) /\
    unescape w = Some id /\ unquote w = id /\ validModelID id = true.

Lemma entry_id_sound d v id : json_wf d v -> entry_id v = Ok id -> entry_says v id.
Proof.
  intros Hw H. unfold entry_id, decode_entry in H. destruct (decode_struct v) as [em|] eqn:Em; [|done].
  destruct (string_field "object" em) as [o|] eqn:Eo; [|done]. cbn [option_map me_Object me_ID] in H.
  destruct (String.eqb_spec o "model") as [->|]; [|done]. cbn [negb] in H.
  destruct (raw_field "id" em) as [x|] eqn:Ex; [|done]. destruct (decodeJSONString (print x)) as [id'|] eqn:Ed; [|done].
  destruct (validModelID id') eqn:Ev; [|done]. injection H as <-. apply validModelID_spec in Ev as Hv.
  assert (json_wf d x) as Hx.
  { unfold raw_field, field_values in Ex. apply last_Some_elem_of, list_elem_of_fmap in Ex as ([k x'] & -> & Hin).
    apply list_elem_of_In, filter_In in Hin as [Hin _]. apply list_elem_of_In in Hin.
    destruct v as [| | | | |m]; try done; injection Em as <-; [by apply elem_of_nil in Hin|].
    inversion Hw as [| | | | |? ? _ Hm]; subst. rewrite Forall_forall in Hm. eapply json_wf_le; [|apply (Hm _ Hin)]. lia. }
  destruct (decodeJSONString_text d x id' Ed) as (w & -> & Hu & Hq); [tauto|done|]. exists em, w. split_and!; done.
Qed.

Lemma entry_id_complete v id : entry_says v id -> entry_id v = Ok id.
Proof.
  intros (em & w & Em & Eo & Ex & Hu & _ & Hv). unfold entry_id, decode_entry. rewrite Em, Eo. cbn [option_map me_Object me_ID].
  rewrite Ex. cbn [print]. change (negb (String.eqb "model" "model")) with false. cbn iota.
  unfold decodeJSONString. rewrite TrimSpace_quoted. unfold slen, quoted. cbn [String.length]. rewrite slen_app. cbn [String.length].
  destruct (Z.ltb_spec (Z.of_nat (S (String.length w + 1))) 2); [lia|]. rewrite Ascii.eqb_refl. cbn [negb]. by rewrite cut_suffix_dquote, Hu, Hv.
Qed.

(** The model list a tree is: one [object] member saying [list], one [data]
    member with an array of entries, their IDs distinct and not too many. *)
Definition model_list (M : Z) (m : list (string * json)) (ids : list string) : Prop :=
  (exists o, values_of "object" m = [o] /\ decode_string "" o = Some "list") /\
  (exists l, values_of "data" m = [JArr l] /\ Forall2 entry_says l ids) /\
  Z.of_nat (length ids) <= M /\ NoDup ids.

(** What an accepted answer was. *)
Definition is_listing (maxBytes maxModels : Z) (body : string) (ids : list string) : Prop :=
  slen body <= maxBytes /\ StronglySorted str_le ids /\ NoDup ids /\ Forall (fun id => validModelID id = true) ids /\
  exists m ids0, parse_text (maxNestingDepth + 2) body = Some (JObj m) /\ model_list maxModels m ids0 /\ ids ≡ₚ ids0.

Lemma ParseModels_sound body maxBytes maxModels ids (Hb : 0 < maxBytes < MaxInt64) (Hm : 0 < maxModels) :
  ParseModels (Some body) maxBytes maxModels = Ok ids -> is_listing maxBytes maxModels body ids.
Proof.
  unfold ParseModels. destruct (Z.leb_spec maxBytes 0); [lia|]. destruct (Z.leb_spec maxModels 0); [lia|].
  rewrite wrap64_id by (int64_unfold; lia). pose proof (stake_length (Z.to_nat (maxBytes + 1)) body) as Hlen.
  intros Hids. unfold slen in *. destruct (Z.ltb_spec maxBytes (Z.of_nat (String.length (stake (Z.to_nat (maxBytes + 1)) body)))) as [|Hle]; [done|].
  assert (String.length body <= Z.to_nat maxBytes)%nat as Hbody by lia. rewrite (stake_all _ body) in Hids by lia.
  destruct (parseModelList _ body maxModels) as [ids0|] eqn:E; [|done]. injection Hids as <-.
  apply parseModelList_sound in E as (m & Hp & Ho & (l & Hl & Hen) & HlM & Hnd); [|lia].
  assert (json_wf (D0 + 2) (JObj m)) as Hw.
  { unfold parse_text in Hp. destruct (parse_value _ _ body) as [[v t]|] eqn:Ev; [|done]. destruct (String.eqb _ _); [|done]. injection Hp as ->.
    by eapply (proj1 (parse_wf _)). }
  assert (Forall2 entry_says l ids0) as Hsays.
  { assert (json_wf (D0 + 1) (JArr l)) as Hwl.
    { inversion Hw as [| | | | |? ? _ Hmm]; subst. replace (D0 + 2 - 1) with (D0 + 1) in Hmm by lia.
      assert (JArr l ∈ values_of "data" m) as Hin by (rewrite Hl; by apply list_elem_of_singleton).
      unfold values_of in Hin. apply list_elem_of_fmap in Hin as ([k v] & Ev & Hin). cbn in Ev. subst v.
      apply list_elem_of_In, filter_In in Hin as [Hin _]. apply list_elem_of_In in Hin. rewrite Forall_forall in Hmm.
      apply (Hmm _ Hin). }
    inversion Hwl as [| | | |? ? _ Hfl|]; subst. revert Hen Hfl. clear. intros Hen Hfl. induction Hen as [|v id l ids Hid _ IH]; [constructor|].
    apply Forall_cons in Hfl as [Hv Hfl]. constructor; [by eapply entry_id_sound|by apply IH]. }
  unfold is_listing, slen. split; [lia|]. split; [apply (StronglySorted_merge_sort _ _)|]. split; [by rewrite merge_sort_Permutation|]. split.
  + rewrite merge_sort_Permutation. clear -Hsays. induction Hsays as [|v id l ids (? & ? & ? & ? & ? & ? & ? & ?) _ IH]; by constructor.
  + exists m, ids0. split; [done|]. split; [|apply merge_sort_Permutation]. split; [done|]. split; [by exists l|done].
Qed.

(** C32: A model list is accepted exactly when it is one. Of a server's answer,
    at most [maxBytes] bytes long (fewer than [MaxInt64]), the IDs come out sorted and without
    repetition precisely when the answer is one JSON document whose tree has a
    single [object] member saying [list] and a single [data] member, an array
    of at most [maxModels] objects marked [model], each with an [id] that is a
    string with no lone surrogate and no byte that is not UTF-8, and a valid
    ID: 1 to 256 bytes, no control, format or line-separator code point, no
    white space at either end, neither the ACL wildcard nor with its comma;
    and the ID is what the JSON string denotes. (A document may nest to ten
    thousand levels; the streaming decoder starts the count afresh below the
    first two, so it takes some that nest two deeper.) *)
Theorem ParseModels_exact body maxBytes maxModels (Hb : 0 < maxBytes < MaxInt64) (Hm : 0 < maxModels) :
  (forall ids, ParseModels (Some body) maxBytes maxModels = Ok ids -> is_listing maxBytes maxModels body ids) /\
  (forall m ids0, slen body <= maxBytes -> json_parse body = Some (JObj m) -> model_list maxModels m ids0 ->
     ParseModels (Some body) maxBytes maxModels = Ok (merge_sort str_le ids0)).
Proof.
  split; [intros ids; by apply ParseModels_sound|].
  unfold ParseModels. destruct (Z.leb_spec maxBytes 0); [lia|]. destruct (Z.leb_spec maxModels 0); [lia|].
  rewrite wrap64_id by (int64_unfold; lia). pose proof (stake_length (Z.to_nat (maxBytes + 1)) body) as Hlen.
  intros m ids0 Hle Hp (Ho & (l & Hl & Hen) & HlM & Hnd). unfold slen in *. rewrite stake_all by lia.
  destruct (Z.ltb_spec maxBytes (Z.of_nat (String.length body))); [lia|].
  rewrite (parseModelList_complete _ body maxModels m ids0); try done; [lia|]. split; [done|]. split; [|done]. exists l. split; [done|].
  eapply Forall2_impl; [exact Hen|]. apply entry_id_complete.
Qed.

Module DiscoveryDemo.
Definition body : string := js "{'object':'list','data':[{'id':'qwen','object':'model'},{'object':'model','id':'a\u00e9'}],'x':[1]}".
Definition members : list (string * json) := match json_parse body with Some (JObj m) => m | _ => [] end.
Definition entry (o id : string) : list (string * json) := [("id", JStr id); ("object", JStr o)].
Definition entries : list json := [JObj (entry "model" "qwen"); JObj (rev (entry "model" "a\u00e9"))].
Definition ids : list string := ["qwen"; "a" +:+ String (byte 195) (String (byte 169) "")].
End DiscoveryDemo.

Lemma ParseModels_exact_witness :
  ParseModels (Some DiscoveryDemo.body) 100 4 = Ok (merge_sort str_le DiscoveryDemo.ids) /\
  merge_sort str_le DiscoveryDemo.ids = rev DiscoveryDemo.ids.
Proof.
  split; [|vm_compute; reflexivity].
  assert (H1 : slen DiscoveryDemo.body <= 100) by (vm_compute; discriminate).
  assert (H2 : json_parse DiscoveryDemo.body = Some (JObj DiscoveryDemo.members)) by (vm_compute; reflexivity).
  apply (ParseModels_exact DiscoveryDemo.body 100 4 ltac:(split; reflexivity) ltac:(lia)) with (m := DiscoveryDemo.members); [exact H1|exact H2|].
  split; [|split; [|split]].
  - exists (JStr "list"). split; vm_compute; reflexivity.
  - exists DiscoveryDemo.entries. split; [vm_compute; reflexivity|].
    apply Forall2_cons; split; [exists (DiscoveryDemo.entry "model" "qwen"), "qwen"; split_and!; vm_compute; reflexivity|].
    apply Forall2_cons; split; [exists (rev (DiscoveryDemo.entry "model" "a\u00e9")), "a\u00e9"; split_and!; vm_compute; reflexivity|].
    apply Forall2_nil_2.
  - vm_compute. discriminate.
  - unfold DiscoveryDemo.ids. apply NoDup_cons. split; [|apply NoDup_singleton]. rewrite list_elem_of_singleton. vm_compute. discriminate.
Defined.
