(* ===== verification/Setup.v ===== *)
(** * Setting up from servers: [internal/discovery/discovery.go]

    The other half of discovery: one bounded request to a server ([Fetch]),
    the egress policy that lets the program reach the servers it was given
    and nothing else ([DerivePolicy]), and the routing table made of the
    servers' answers ([Aggregate]). *)

From Stdlib Require Import Ascii.
From stdpp Require Import sorting.
From S2P Require Import Prelude Float64 GoStrings Net IpText Json JsonFacts JsonStream Config ConfigFacts Backend Discovery.
#[local] Open Scope Z_scope.

(* src: internal/discovery/discovery.go Server *)
Record Server := mkServer { sv_Name : string; sv_BaseURL : string }.

(** ** Policy *)

Inductive derive_error := NoServer | DURL (e : url_error) | NotLiteral.

Section URLs.
Variable url_parse : string -> option URL.

(* src: internal/discovery/discovery.go 490-503 DerivePolicy *)
Fixpoint server_ips (servers : list Server) : result derive_error (list IP) :=
  match servers with
  | [] => Ok []
  | s :: servers =>
      match parseBaseURL url_parse (sv_BaseURL s) with
      | Err e => Err (DURL e)
      | Ok u => match ParseIP (url_Hostname u) with
                | None => Err NotLiteral
                | Some ip => let? ips := server_ips servers in Ok (ip :: ips)
                end
      end
  end.

(* src: internal/discovery/discovery.go 512-517 DerivePolicy *)
Definition ip_cidr (ip : IP) : string := ip_String ip +:+ (if To4 ip then "/32" else "/128").

(** The entries not seen yet, in order. *)
(* src: internal/discovery/discovery.go 518-521 DerivePolicy *)
Fixpoint unseen (seen : gset string) (l : list string) : list string :=
  match l with
  | [] => []
  | c :: l => if bool_decide (c ∈ seen) then unseen seen l else c :: unseen ({[c]} ∪ seen) l
  end.

(* src: internal/discovery/discovery.go DerivePolicy *)
Definition DerivePolicy (servers : list Server) : result derive_error BackendNetwork :=
  match servers with
  | [] => Err NoServer
  | _ =>
      let? ips := server_ips servers in
      if forallb ip_is_loopback ips then Ok (mkBackendNetwork "loopback-only" [])
      else Ok (mkBackendNetwork "allowed-cidrs" (merge_sort str_le (unseen ∅ (map ip_cidr ips))))
  end.

(** ** One request *)

Inductive fetch_error :=
| FConnect | FDialTimeout | FHeaderTimeout | FTimeout | FPolicy | FStatus (code : Z) | FContentType | FTooLarge
| FURL (e : url_error) | FParse (e : disc_error) | FContext (e : backend_error).

(* src: internal/discovery/discovery.go classifyContextError *)
Definition classifyContextError (e : backend_error) : fetch_error :=
  if decide (e = ErrDeadlineExceeded) then FTimeout else FContext e.

(** [ctx] is the state of the request's context, [awaiting] whether the text
    of the error says that the response headers did not come in time. *)
(* src: internal/discovery/discovery.go classifyRequestError *)
Definition classifyRequestError (ctx : option backend_error) (e : go_error) (awaiting : bool) : fetch_error :=
  match ctx with
  | Some e => classifyContextError e
  | None =>
      match g_sentinel e with
      | Some ErrDialTimeout => FDialTimeout
      | Some ErrConnect => FConnect
      | Some ErrPolicy => FPolicy
      | _ => if awaiting then FHeaderTimeout else FConnect
      end
  end.

(** The parser's errors whose text has the word [exceeds]. *)
Definition exceeds (e : disc_error) : bool := match e with DExceedsBytes _ | DExceedsModels _ => true | _ => false end.

(** What the server answers: the body is what reading it gives, [None] when
    the read fails. *)
Record response := mkResponse { rs_StatusCode : Z; rs_ContentType : string; rs_Body : option string }.

(** [do] is the round trip, under the policy its dialer enforces and without
    following redirects; [ctx] and [ctx'] are the state of the context when it
    has failed and when the body has been read; [ParseMediaType] is
    [mime.ParseMediaType]. *)
(* src: internal/discovery/discovery.go Fetch *)
Definition Fetch (ParseMediaType : string -> option string) (do : Policy -> string -> result (go_error * bool) response)
    (network : BackendNetwork) (server : Server) (ctx ctx' : option backend_error) : result fetch_error (list string) :=
  match PolicyFromConfig network with
  | Err _ => Err FPolicy
  | Ok policy =>
  match parseBaseURL url_parse (sv_BaseURL server) with
  | Err e => Err (FURL e)
  | Ok base =>
      let endpoint := u_Scheme base +:+ "://" +:+ u_Host base +:+ "/v1/models" in
      match url_parse endpoint with
      | None => Err FConnect
      | Some _ =>
          match do policy endpoint with
          | Err (e, awaiting) => Err (classifyRequestError ctx e awaiting)
          | Ok resp =>
              if negb (rs_StatusCode resp =? 200) then Err (FStatus (rs_StatusCode resp))
              else if negb (String.eqb (rs_ContentType resp) "")
                   && negb (bool_decide (ParseMediaType (rs_ContentType resp) = Some "application/json")) then Err FContentType
              else match ParseModels (rs_Body resp) MaxResponseBytes MaxModels with
                   | Ok ids => Ok ids
                   | Err e => match ctx' with
                              | Some c => Err (classifyContextError c)
                              | None => if exceeds e then Err FTooLarge else Err (FParse e)
                              end
                   end
          end
      end
  end
  end.
End URLs.

(** ** The aggregate *)

Inductive agg_error :=
| ANoServer | ATooManyServers | ANoName | ADuplicateServer (name : string) | AMissing (name : string) | AUnexpected
| ATooManyModels (name : string) | AEmptyID (name : string) | ADuplicateModel (name id : string) | ATooManyUnique.

(* src: internal/discovery/discovery.go Result *)
Definition Result : Type := gmap string (list string).

(* src: internal/discovery/discovery.go Result.SortedModels *)
Definition SortedModels (r : Result) : list string := merge_sort str_le (map fst (map_to_list r)).

(** The names, in order, each once and with a result. *)
(* src: internal/discovery/discovery.go 581-593 Aggregate *)
Fixpoint server_order (seen : gset string) (discovered : gmap string (list string)) (l : list Server) : result agg_error (list string) :=
  match l with
  | [] => Ok []
  | s :: l =>
      let n := sv_Name s in
      if String.eqb n "" then Err ANoName
      else if bool_decide (n ∈ seen) then Err (ADuplicateServer n)
      else match discovered !! n with
           | None => Err (AMissing n)
           | Some _ => let? rest := server_order ({[n]} ∪ seen) discovered l in Ok (n :: rest)
           end
  end.

(** One server's models. *)
(* src: internal/discovery/discovery.go 606-616 Aggregate *)
Fixpoint add_models (name : string) (seen : gset string) (ids : list string) (models : gmap string (list string)) : result agg_error (gmap string (list string)) :=
  match ids with
  | [] => Ok models
  | id :: ids =>
      if String.eqb id "" then Err (AEmptyID name)
      else if bool_decide (id ∈ seen) then Err (ADuplicateModel name id)
      else add_models name ({[id]} ∪ seen) ids (<[id := default [] (models !! id) ++ [name]]> models)
  end.

(* src: internal/discovery/discovery.go 601-617 Aggregate *)
Fixpoint add_servers (order : list string) (discovered models : gmap string (list string)) : result agg_error (gmap string (list string)) :=
  match order with
  | [] => Ok models
  | name :: order =>
      let ids := default [] (discovered !! name) in
      if MaxModels <? Z.of_nat (length ids) then Err (ATooManyModels name)
      else let? models := add_models name ∅ ids models in add_servers order discovered models
  end.

(* src: internal/discovery/discovery.go Aggregate *)
Definition Aggregate (ordered : list Server) (discovered : gmap string (list string)) : result agg_error Result :=
  match ordered with
  | [] => Err ANoServer
  | _ =>
      if MaxServers <? Z.of_nat (length ordered) then Err ATooManyServers
      else let? order := server_order ∅ discovered ordered in
           if negb (bool_decide (dom discovered ⊆ list_to_set order)) then Err AUnexpected
           else let? models := add_servers order discovered ∅ in
                if MaxUniqueModels <? Z.of_nat (size models) then Err ATooManyUnique else Ok models
  end.

(** ** The discovery of [init] *)

(** [fetch] is [Fetch] with the policy and the round trip of each server. *)
(* src: cmd/mellomting/init.go discoverInitServers *)
Fixpoint discoverInitServers (fetch : Server -> result fetch_error (list string)) (servers : list Server) (results : gmap string (list string))
  : result (string * fetch_error) (gmap string (list string)) :=
  match servers with
  | [] => Ok results
  | s :: servers =>
      match fetch s with
      | Err e => Err (sv_Name s, e)
      | Ok ids => discoverInitServers fetch servers (<[sv_Name s := ids]> results)
      end
  end.

Example DerivePolicy_ex :
  let url_parse := fun raw => Some (mkURL "http" false (sdrop 7 raw) "" "" "") in
  let derive := fun l => DerivePolicy url_parse (map (mkServer "x") l) in
  (derive ["http://127.0.0.1:80"; "http://[::1]:80"], derive ["http://10.0.0.2:80"; "http://[2001:db8::7]:1"; "http://10.0.0.2:81"; "http://127.0.0.1:80"],
   derive ["http://gpu:80"])
  = (Ok (mkBackendNetwork "loopback-only" []), Ok (mkBackendNetwork "allowed-cidrs" ["10.0.0.2/32"; "127.0.0.1/32"; "2001:db8::7/128"]), Err NotLiteral).
Proof. vm_compute. reflexivity. Qed.

(** ** The policy lets in the servers, and only them *)

Lemma elem_of_unseen x l : forall seen, x ∈ unseen seen l <-> x ∈ l /\ x ∉ seen.
Proof.
  induction l as [|c l IH]; intros seen; cbn [unseen]; [set_solver|]. case_bool_decide as E; rewrite ?elem_of_cons, IH; [set_solver|].
  destruct (decide (x = c)) as [->|]; set_solver.
Qed.

Lemma splitHostPort_hostname u : (forall h p, SplitHostPort (u_Host u) = Some (h, p) -> sforall is_digit p = true) ->
  (splitHostPort u).1 = url_Hostname u.
Proof.
  intros Hp. unfold splitHostPort. destruct (SplitHostPort (u_Host u)) as [[h p]|] eqn:E; [|done]. specialize (Hp _ _ eq_refl). revert E. cbn [fst].
  unfold SplitHostPort, url_Hostname, url_split_port. destruct (cut_last ":"%char (u_Host u)) as [[l r]|] eqn:El; [|done].
  pose proof (cut_last_app _ _ _ _ El) as Hl. destruct (has_prefix "[" (u_Host u)) eqn:Eb.
  - destruct (cut_char _ _) as [[h' after]|] eqn:Ec; [|done]. destruct (String.eqb_spec after (String ":"%char r)) as [->|]; [|done].
    destruct (contains_char _ _ || _); [done|]. intros [= -> ->]. rewrite Hp. cbn [fst]. apply has_prefix_inv in Eb. apply cut_char_app in Ec. cbn [String.length] in Eb.
    assert (l = String "["%char (h +:+ "]")) as ->.
    { apply (sapp_cancel_r _ _ (String ":"%char p)). rewrite <- Hl, Eb, Ec. cbn. by rewrite sapp_assoc. }
    assert (has_suffix "]" (String "["%char (h +:+ "]")) = true) as -> by (change (String "["%char (h +:+ "]")) with (String "["%char h +:+ "]"); apply has_suffix_app).
    assert (has_prefix "[" (String "["%char (h +:+ "]")) = true) as -> by apply (has_prefix_app "[").
    cbn [andb sdrop String.length]. rewrite slen_app. cbn [String.length]. replace (S (String.length h + 1) - 2)%nat with (String.length h) by lia. by rewrite stake_app.
  - destruct (contains_char ":"%char l); [done|]. destruct (contains_char "["%char (u_Host u) || _); [done|]. intros [= -> ->]. rewrite Hp. cbn [fst].
    assert (has_prefix "[" h = false) as ->; [|done]. rewrite Hl in Eb. destruct h as [|x h]; [done|]. revert Eb. unfold has_prefix. cbn [String.append String.prefix].
    destruct (ascii_dec "["%char x); [|done]. by destruct (h +:+ _), h.
Qed.

(** The servers' addresses, in order. *)
Lemma server_ips_ok url_parse servers ips : server_ips url_parse servers = Ok ips ->
  Forall2 (fun s ip => exists u, parseBaseURL url_parse (sv_BaseURL s) = Ok u /\ ParseIP (url_Hostname u) = Some ip) servers ips.
Proof.
  revert ips. induction servers as [|s l IH]; intros ips; cbn [server_ips]; [intros [= <-]; constructor|].
  destruct (parseBaseURL url_parse (sv_BaseURL s)) as [u|] eqn:Eu; [|done]. destruct (ParseIP (url_Hostname u)) as [ip|] eqn:Ei; [|done].
  destruct (server_ips url_parse l) as [rest|]; [|done]. intros [= <-]. constructor; [by exists u|by apply IH].
Qed.

(** The prefixes of a list of addresses parse back to those addresses. *)
Lemma derived_cidrs ips l : Forall ip_ok ips -> (forall c, c ∈ l <-> c ∈ map ip_cidr ips) ->
  exists ns, parse_cidrs l = Ok ns /\ forall x, ip_ok x -> existsb (fun n => ipnet_contains n x) ns = bool_decide (x ∈ ips).
Proof.
  intros Hips Hl. assert (forall c, c ∈ l -> exists ip n, ip ∈ ips /\ c = ip_cidr ip /\ ParseCIDR c = Some n /\
      forall x, ip_ok x -> ipnet_contains n x = bool_decide (x = ip)) as Hc.
  { intros c Hc%Hl. apply list_elem_of_fmap in Hc as (ip & -> & Hin). rewrite Forall_forall in Hips.
    destruct (host_cidr ip (Hips _ Hin)) as (n & Hn & Hx). by exists ip, n. }
  destruct (parse_cidrs_ok l) as (ns & Hns & Hf).
  { apply Forall_forall. intros c Hin. destruct (Hc _ Hin) as (? & n & _ & _ & Hn & _). by exists n. }
  exists ns. split; [done|]. intros x Hx. apply eq_true_iff_eq. rewrite bool_decide_eq_true, existsb_exists. split.
  - intros (n & Hin%list_elem_of_In & Hxn). apply list_elem_of_lookup in Hin as [i Hi]. destruct (Forall2_lookup_r _ _ _ _ _ Hf Hi) as (c & Hci & Hcn).
    apply list_elem_of_lookup_2 in Hci. destruct (Hc _ Hci) as (ip & n' & Hip & _ & Hn' & Hin'). simplify_eq.
    rewrite Hin' in Hxn by done. apply bool_decide_eq_true in Hxn as ->. done.
  - intros Hin. assert (ip_cidr x ∈ l) as Hxl by (apply Hl, list_elem_of_fmap; by exists x).
    apply list_elem_of_lookup in Hxl as [i Hi]. destruct (Forall2_lookup_l _ _ _ _ _ Hf Hi) as (n & Hni & Hcn).
    destruct (host_cidr x Hx) as (n' & Hn' & Hself). unfold ip_cidr in Hcn. simplify_eq.
    exists n. split; [apply list_elem_of_In; by eapply list_elem_of_lookup_2|]. rewrite Hself by done. by apply bool_decide_eq_true.
Qed.

(** The addresses a policy made of such prefixes allows. *)
Lemma allow_cidrs ns (ip : IP) (ips : list IP) : ip_ok ip -> (forall x, ip_ok x -> existsb (fun n => ipnet_contains n x) ns = bool_decide (x ∈ ips)) ->
  allow (mkPolicy "allowed-cidrs" ns) ip = bool_decide (ip ∈ ips).
Proof.
  intros Hok Hns. rewrite <- (Hns ip Hok). unfold allow. cbn [pol_Mode pol_CIDRs]. change (String.eqb "allowed-cidrs" "any") with false.
  change (String.eqb "allowed-cidrs" "allowed-cidrs") with true. cbn iota. clear Hns. induction ns as [|n ns IH]; [done|]. cbn [existsb]. rewrite IH. f_equal.
  destruct (To4 ip) as [v|] eqn:E; [|by rewrite orb_false_r]. destruct (To4_inv _ _ Hok E) as [_ <-]. by rewrite orb_diag.
Qed.

(** A policy that allows a literal destination accepts it. *)
Lemma new_destination_literal url_parse p raw u ip :
  (forall h q, SplitHostPort (u_Host u) = Some (h, q) -> sforall is_digit q = true) ->
  parsePolicy p = Ok p -> parseBaseURL url_parse raw = Ok u -> ParseIP (url_Hostname u) = Some ip -> allow p ip = true ->
  new_destination url_parse p raw = Ok (p, u).
Proof. intros Hd Hp Hu Hi Ha. unfold new_destination. by rewrite Hp, Hu, (splitHostPort_hostname u Hd), Hi, Ha. Qed.

Lemma parseBaseURL_url url_parse raw u : parseBaseURL url_parse raw = Ok u -> url_parse raw = Some u.
Proof. unfold parseBaseURL. repeat case_match; congruence. Qed.

(** The derived policy is exact. From servers whose hosts are literal
    addresses [DerivePolicy] makes a policy that the backend client accepts,
    under which every one of the servers can be dialed; it lets no address
    through that is not one of theirs, except that it is the loopback-only
    policy when, and only when, all of them are loopback addresses. *)
Theorem DerivePolicy_exact url_parse servers bn
    (Hdigits : forall raw u h q, url_parse raw = Some u -> SplitHostPort (u_Host u) = Some (h, q) -> sforall is_digit q = true)
    (Hok : DerivePolicy url_parse servers = Ok bn) :
  exists p ips, PolicyFromConfig bn = Ok p /\ server_ips url_parse servers = Ok ips /\
    (forall s, s ∈ servers -> exists u, new_destination url_parse p (sv_BaseURL s) = Ok (p, u)) /\
    (forall ip, ip_ok ip -> allow p ip = if forallb ip_is_loopback ips then ip_is_loopback ip else bool_decide (ip ∈ ips)).
Proof.
  unfold DerivePolicy in Hok. destruct servers as [|s0 rest] eqn:Es; [done|]. rewrite <- Es in *. clear Es s0 rest.
  destruct (server_ips url_parse servers) as [ips|] eqn:Eips; [|done]. pose proof (server_ips_ok _ _ _ Eips) as Hf.
  assert (Forall ip_ok ips) as Hips.
  { apply Forall_forall. intros ip Hin. apply list_elem_of_lookup in Hin as [i Hi]. destruct (Forall2_lookup_r _ _ _ _ _ Hf Hi) as (s & _ & u & _ & Hu).
    by eapply ParseIP_ok. }
  assert (exists p, PolicyFromConfig bn = Ok p /\ parsePolicy p = Ok p /\
    forall ip, ip_ok ip -> allow p ip = if forallb ip_is_loopback ips then ip_is_loopback ip else bool_decide (ip ∈ ips)) as (p & Hp & Hpp & Hall).
  { destruct (forallb ip_is_loopback ips) eqn:El.
    - injection Hok as <-. by exists (mkPolicy "loopback-only" []).
    - injection Hok as <-. destruct (derived_cidrs ips (merge_sort str_le (unseen ∅ (map ip_cidr ips))) Hips) as (ns & Hns & Hx).
      { intros c. rewrite merge_sort_Permutation, elem_of_unseen. split; [by intros []|]. split; [done|]. apply not_elem_of_empty. }
      exists (mkPolicy "allowed-cidrs" ns). assert (parsePolicy (mkPolicy "allowed-cidrs" ns) = Ok (mkPolicy "allowed-cidrs" ns)) as Hpp.
      { destruct ns; [|done]. destruct ips as [|ip ips]; [done|]. apply Forall_cons in Hips as [Hip _]. specialize (Hx ip Hip). symmetry in Hx.
        apply bool_decide_eq_false in Hx. destruct Hx. apply list_elem_of_here. }
      unfold PolicyFromConfig. cbn [bn_CIDRs bn_Mode]. rewrite Hns. cbn iota. split; [done|]. split; [done|]. intros ip Hip. by apply allow_cidrs. }
  exists p, ips. split_and!; try done. intros s Hin. apply list_elem_of_lookup in Hin as [i Hi].
  destruct (Forall2_lookup_l _ _ _ _ _ Hf Hi) as (ip & Hii & u & Hu & Hip). exists u.
  eapply new_destination_literal; [|done..|]; [intros h q Hs; eapply Hdigits; [by eapply parseBaseURL_url|done]|].
  apply list_elem_of_lookup_2 in Hii. rewrite Forall_forall in Hips. rewrite Hall by by apply Hips.
  destruct (forallb ip_is_loopback ips) eqn:El; [|by apply bool_decide_eq_true]. rewrite forallb_forall in El. by apply El, list_elem_of_In.
Qed.

Module SetupDemo.
Definition of_host (scheme rest : string) : option URL :=
  let '(host, path) := match cut_char "/"%char rest with Some (h, p) => (h, String "/"%char p) | None => (rest, "") end in
  match SplitHostPort host with
  | Some (_, port) => if sforall is_digit port then Some (mkURL scheme false host path "" "") else None
  | None => Some (mkURL scheme false host path "" "")
  end.
Definition url_parse (raw : string) : option URL :=
  if has_prefix "http://" raw then of_host "http" (sdrop 7 raw) else if has_prefix "https://" raw then of_host "https" (sdrop 8 raw) else None.
Lemma url_parse_digits raw u h q : url_parse raw = Some u -> SplitHostPort (u_Host u) = Some (h, q) -> sforall is_digit q = true.
Proof.
  assert (forall scheme rest, of_host scheme rest = Some u -> SplitHostPort (u_Host u) = Some (h, q) -> sforall is_digit q = true) as H.
  { intros scheme rest. unfold of_host. destruct (match cut_char _ _ with Some _ => _ | None => _ end) as [host path].
    destruct (SplitHostPort host) as [[h' q']|] eqn:E; [destruct (sforall is_digit q') eqn:Ed; [|done]|];
      intros <-%(inj Some); cbn [u_Host]; rewrite E; congruence. }
  unfold url_parse. repeat case_match; try done; apply H.
Qed.
Definition servers : list Server := [mkServer "a" "http://10.0.0.2:80"; mkServer "b" "https://[2001:db8::7]:1"].
Definition network : BackendNetwork := mkBackendNetwork "allowed-cidrs" ["10.0.0.2/32"; "2001:db8::7/128"].
Definition policy : Policy := match PolicyFromConfig network with Ok p => p | Err _ => mkPolicy "" [] end.
Definition answer (s : Server) (p : Policy) (endpoint : string) : result (go_error * bool) response :=
  Ok (mkResponse 200 "application/json" (Some (if String.eqb (sv_Name s) "a" then DiscoveryDemo.body
      else js "{'object':'list','data':[{'id':'qwen','object':'model'}]}"))).
Definition results : gmap string (list string) := list_to_map [("b", ["qwen"]); ("a", rev DiscoveryDemo.ids)].
End SetupDemo.

Lemma DerivePolicy_exact_witness : exists p,
  PolicyFromConfig SetupDemo.network = Ok p /\
  (forall s, s ∈ SetupDemo.servers -> exists u, new_destination SetupDemo.url_parse p (sv_BaseURL s) = Ok (p, u)).
Proof.
  assert (H1 : DerivePolicy SetupDemo.url_parse SetupDemo.servers = Ok SetupDemo.network) by (vm_compute; reflexivity).
  destruct (DerivePolicy_exact SetupDemo.url_parse SetupDemo.servers _ SetupDemo.url_parse_digits H1) as (p & ips & Hp & _ & Hs & _).
  exists p. split; [exact Hp|exact Hs].
Defined.

(** ** What the aggregate holds *)

Lemma server_order_ok discovered l : forall seen order, server_order seen discovered l = Ok order <->
  order = map sv_Name l /\ Forall (fun n => n <> "" /\ n ∉ seen /\ is_Some (discovered !! n)) order /\ NoDup order.
Proof.
  induction l as [|s l IH]; intros seen order; cbn [server_order map].
  - split; [by intros [= <-]; split_and!; constructor|by intros (-> & _)].
  - destruct (String.eqb_spec (sv_Name s) "") as [E|Hne]; [rewrite E; split; [done|intros (-> & H & _); apply Forall_cons in H as [[? _] _]; done]|].
    case_bool_decide as Hs; [split; [done|intros (-> & H & _); by apply Forall_cons in H as [(_ & ? & _) _]]|].
    destruct (discovered !! sv_Name s) as [ids|] eqn:Ed;
      [|split; [done|intros (-> & H & _); apply Forall_cons in H as [(_ & _ & [? ?]) _]; congruence]].
    destruct (server_order ({[sv_Name s]} ∪ seen) discovered l) as [rest|e] eqn:Er.
    + apply IH in Er as (-> & Hf & Hnd). split.
      * intros [= <-]. split; [done|]. rewrite Forall_cons, NoDup_cons. split_and!; [done|done|by eexists| |intros Hin|done].
        -- eapply Forall_impl; [exact Hf|]. intros n (? & ? & ?). set_solver.
        -- rewrite Forall_forall in Hf. destruct (Hf _ Hin) as (_ & Hn & _). set_solver.
      * by intros (-> & _).
    + split; [done|]. intros (-> & Hf & Hnd). apply Forall_cons in Hf as [_ Hf]. apply NoDup_cons in Hnd as [Hn Hnd].
      assert (server_order ({[sv_Name s]} ∪ seen) discovered l = Ok (map sv_Name l)); [|congruence]. apply IH. split; [done|]. split; [|done].
      apply Forall_forall. intros n Hin. rewrite Forall_forall in Hf. destruct (Hf n Hin) as (? & ? & ?). split; [done|]. split; [|done].
      rewrite elem_of_union, elem_of_singleton. intros [->|]; done.
Qed.

(** The replicas of a model: the servers, in order, whose results name it. *)
Definition replicas (discovered : gmap string (list string)) (id : string) (order : list string) : list string :=
  filter (fun n => id ∈ default [] (discovered !! n)) order.

Lemma add_models_ok name ids : forall seen models r, add_models name seen ids models = Ok r ->
  NoDup ids /\ Forall (fun id => id <> "" /\ id ∉ seen) ids /\
  (forall id, default [] (r !! id) = default [] (models !! id) ++ (if decide (id ∈ ids) then [name] else [])) /\
  dom r = dom models ∪ list_to_set ids.
Proof.
  induction ids as [|i ids IH]; intros seen models r; cbn [add_models].
  - intros [= <-]. split_and!; [constructor|constructor| |set_solver]. intros id. by rewrite decide_False, app_nil_r by apply not_elem_of_nil.
  - destruct (String.eqb_spec i ""); [done|]. case_bool_decide as Hs; [done|]. intros (Hnd & Hf & Hr & Hd)%IH.
    rewrite Forall_forall in Hf. assert (i ∉ ids) as Hi by (intros Hin; destruct (Hf _ Hin); set_solver). split_and!.
    + by constructor.
    + constructor; [done|]. apply Forall_forall. intros id Hin. destruct (Hf _ Hin). set_solver.
    + intros id. rewrite Hr. destruct (decide (id = i)) as [->|Hne].
      * rewrite lookup_insert_eq, (decide_True (P := i ∈ i :: ids)), decide_False by set_solver. cbn. by rewrite app_nil_r.
      * rewrite lookup_insert_ne by done. f_equal. by destruct (decide (id ∈ ids)), (decide (id ∈ i :: ids)); set_solver.
    + rewrite Hd, dom_insert_L, list_to_set_cons. set_solver.
Qed.

Lemma add_servers_ok discovered order : forall models r, add_servers order discovered models = Ok r ->
  Forall (fun n => let ids := default [] (discovered !! n) in Z.of_nat (length ids) <= MaxModels /\ NoDup ids /\ Forall (fun id => id <> "") ids) order /\
  forall id, default [] (r !! id) = default [] (models !! id) ++ replicas discovered id order.
Proof.
  induction order as [|n order IH]; intros models r; cbn [add_servers].
  - intros [= <-]. split; [constructor|]. intros id. by rewrite app_nil_r.
  - destruct (Z.ltb_spec MaxModels (Z.of_nat (length (default [] (discovered !! n))))); [done|].
    destruct (add_models n ∅ _ models) as [models'|] eqn:E; [|done]. apply add_models_ok in E as (Hnd & Hf & Hr & _). intros [Ho Hr']%IH. split.
    + constructor; [|done]. split_and!; [done|done|]. eapply Forall_impl; [exact Hf|]. by intros ? [].
    + intros id. rewrite Hr', Hr, <- app_assoc. f_equal. unfold replicas. rewrite filter_cons. by case_decide.
Qed.

Definition ids_ok (ids : list string) : Prop := Z.of_nat (length ids) <= MaxModels /\ NoDup ids /\ Forall (fun id => id <> "") ids.

Lemma add_models_complete name ids : forall seen models, NoDup ids -> Forall (fun id => id <> "" /\ id ∉ seen) ids ->
  exists r, add_models name seen ids models = Ok r.
Proof.
  induction ids as [|i ids IH]; intros seen models Hnd Hf; cbn [add_models]; [by eexists|].
  apply Forall_cons in Hf as [[Hi Hs] Hf]. apply NoDup_cons in Hnd as [Hin Hnd]. rewrite (proj2 (String.eqb_neq _ _) Hi), bool_decide_eq_false_2 by done.
  apply IH; [done|]. apply Forall_forall. intros id Hid. rewrite Forall_forall in Hf. destruct (Hf _ Hid). split; [done|].
  rewrite elem_of_union, elem_of_singleton. intros [->|]; done.
Qed.

Lemma add_servers_complete discovered order : forall models, Forall (fun n => ids_ok (default [] (discovered !! n))) order ->
  exists r, add_servers order discovered models = Ok r.
Proof.
  induction order as [|n order IH]; intros models Hf; cbn [add_servers]; [by eexists|]. apply Forall_cons in Hf as [(Hl & Hnd & Hne) Hf].
  destruct (Z.ltb_spec MaxModels (Z.of_nat (length (default [] (discovered !! n))))); [lia|].
  destruct (add_models_complete n (default [] (discovered !! n)) ∅ models Hnd) as [r ->]; [|by apply IH].
  eapply Forall_impl; [exact Hne|]. intros id Hid. split; [done|]. apply not_elem_of_empty.
Qed.

(** No model of the table is without servers. *)
Lemma add_models_replicas name ids : forall seen models r, add_models name seen ids models = Ok r ->
  map_Forall (fun _ l => l <> []) models -> map_Forall (fun _ l => l <> []) r.
Proof.
  induction ids as [|i ids IH]; intros seen models r; cbn [add_models]; [by intros [= <-]|].
  destruct (String.eqb i ""); [done|]. case_bool_decide; [done|]. intros Hr Hm. eapply IH; [exact Hr|]. apply map_Forall_insert_2; [|done].
  by destruct (default [] (models !! i)).
Qed.
Lemma add_servers_replicas discovered order : forall models r, add_servers order discovered models = Ok r ->
  map_Forall (fun _ l => l <> []) models -> map_Forall (fun _ l => l <> []) r.
Proof.
  induction order as [|n order IH]; intros models r; cbn [add_servers]; [by intros [= <-]|].
  destruct (_ <? _); [done|]. destruct (add_models n ∅ _ models) as [m|] eqn:E; [|done]. intros Hr Hm. eapply IH; [exact Hr|]. by eapply add_models_replicas.
Qed.

Lemma table_lookup (r : gmap string (list string)) id l : map_Forall (fun _ l => l <> []) r ->
  r !! id = Some l <-> l = default [] (r !! id) /\ l <> [].
Proof.
  intros Hr. destruct (r !! id) as [l'|] eqn:E; cbn; [|naive_solver]. specialize (Hr _ _ E). naive_solver.
Qed.

(** The results of a discovery are the servers' answers. *)
Lemma discoverInitServers_ok fetch servers : forall results out, discoverInitServers fetch servers results = Ok out -> NoDup (map sv_Name servers) ->
  dom out = dom results ∪ list_to_set (map sv_Name servers) /\
  (forall s, s ∈ servers -> exists ids, fetch s = Ok ids /\ out !! sv_Name s = Some ids) /\
  (forall n, n ∉ map sv_Name servers -> out !! n = results !! n).
Proof.
  induction servers as [|s l IH]; intros results out; cbn [discoverInitServers map].
  - intros [= <-] _. split_and!; [set_solver|by intros s ?%elem_of_nil|done].
  - destruct (fetch s) as [ids|] eqn:Ef; [|done]. intros Hout [Hs Hnd]%NoDup_cons. destruct (IH _ _ Hout Hnd) as (Hd & Hin & Hno). split_and!.
    + rewrite Hd, dom_insert_L, list_to_set_cons. set_solver.
    + intros s' [->|Hs']%elem_of_cons; [|by apply Hin]. exists ids. split; [done|]. by rewrite Hno, lookup_insert_eq.
    + intros n [Hn1 Hn2]%not_elem_of_cons. rewrite Hno by done. by rewrite lookup_insert_ne.
Qed.

(** The bounds of what [Fetch] returns. *)
Lemma Fetch_listing url_parse mime do network s ctx ctx' ids : Fetch url_parse mime do network s ctx ctx' = Ok ids ->
  exists policy base resp body, PolicyFromConfig network = Ok policy /\ parseBaseURL url_parse (sv_BaseURL s) = Ok base /\
    do policy (u_Scheme base +:+ "://" +:+ u_Host base +:+ "/v1/models") = Ok resp /\ rs_StatusCode resp = 200 /\
    (rs_ContentType resp = "" \/ mime (rs_ContentType resp) = Some "application/json") /\ rs_Body resp = Some body /\
    is_listing MaxResponseBytes MaxModels body ids.
Proof.
  unfold Fetch. destruct (PolicyFromConfig network) as [policy|] eqn:Ep; [|done].
  destruct (parseBaseURL url_parse (sv_BaseURL s)) as [base|] eqn:Eb; [|done]. cbv zeta. destruct (url_parse _); [|done].
  destruct (do policy _) as [resp|[e a]] eqn:Ed; [|done]. destruct (Z.eqb_spec (rs_StatusCode resp) 200) as [Hst|]; [|done]. cbn [negb].
  destruct (negb (String.eqb (rs_ContentType resp) "") && negb _) eqn:Ect; [done|].
  destruct (ParseModels (rs_Body resp) MaxResponseBytes MaxModels) as [ids'|e] eqn:Em; [|by destruct ctx', (exceeds e)].
  intros [= ->]. destruct (rs_Body resp) as [body|] eqn:Ebody; [|done]. exists policy, base, resp, body. split_and!; try done.
  - apply andb_false_iff in Ect. rewrite !negb_false_iff, bool_decide_eq_true, String.eqb_eq in Ect. done.
  - by apply ParseModels_sound.
Qed.

Lemma is_listing_ids B body ids : is_listing B MaxModels body ids -> ids_ok ids.
Proof.
  intros (_ & _ & Hnd & Hv & m & ids0 & _ & (_ & _ & Hlen & _) & Hp). split; [by rewrite Hp|]. split; [done|].
  eapply Forall_impl; [exact Hv|]. intros id Hid. by apply validModelID_spec in Hid as [? _].
Qed.

(** What a server's answer must be. [Fetch] returns models only from one
    exchange with the endpoint of a well-formed base URL under a policy made
    from the given network section, answered 200 (so a redirect, which is not
    followed, is refused), with no content type or [application/json], and
    with a body of at most 1 MiB that is a listing of at most 256 models;
    and when such an exchange cannot be had the error says so: an expired
    context before anything else, an oversized answer as too large, a bad
    status or content type as such. *)
Theorem Fetch_exact url_parse mime do network s ctx ctx' policy base
    (Hp : PolicyFromConfig network = Ok policy) (Hb : parseBaseURL url_parse (sv_BaseURL s) = Ok base) :
  let endpoint := u_Scheme base +:+ "://" +:+ u_Host base +:+ "/v1/models" in
  let fetch := Fetch url_parse mime do network s ctx ctx' in
  (forall ids, fetch = Ok ids -> exists resp body, do policy endpoint = Ok resp /\ rs_StatusCode resp = 200 /\
     (rs_ContentType resp = "" \/ mime (rs_ContentType resp) = Some "application/json") /\ rs_Body resp = Some body /\
     is_listing MaxResponseBytes MaxModels body ids) /\
  (forall e awaiting, is_Some (url_parse endpoint) -> do policy endpoint = Err (e, awaiting) ->
     exists err, fetch = Err err /\
       match ctx with
       | Some ErrDeadlineExceeded => err = FTimeout
       | Some c => err = FContext c
       | None => err ∈ [FConnect; FDialTimeout; FHeaderTimeout; FPolicy] /\ (err = FPolicy <-> g_sentinel e = Some ErrPolicy)
       end) /\
  (forall resp, is_Some (url_parse endpoint) -> do policy endpoint = Ok resp ->
     (rs_StatusCode resp <> 200 -> fetch = Err (FStatus (rs_StatusCode resp))) /\
     (rs_StatusCode resp = 200 -> rs_ContentType resp <> "" -> mime (rs_ContentType resp) <> Some "application/json" -> fetch = Err FContentType) /\
     (rs_StatusCode resp = 200 -> rs_ContentType resp = "" -> forall body, rs_Body resp = Some body -> MaxResponseBytes < slen body ->
        fetch = Err (match ctx' with Some c => classifyContextError c | None => FTooLarge end))).
Proof.
  cbv zeta. split_and!.
  - intros ids H%Fetch_listing. destruct H as (policy' & base' & resp & body & Hp' & Hb' & Hrest). rewrite Hp in Hp'. rewrite Hb in Hb'. injection Hp' as <-. injection Hb' as <-. exists resp, body. exact Hrest.
  - intros e awaiting [u Hu] Hd. unfold Fetch. rewrite Hp, Hb, Hu, Hd. eexists. split; [done|]. unfold classifyRequestError, classifyContextError.
    destruct ctx as [c|]; [destruct c; reflexivity|].
    destruct (g_sentinel e) as [[]|]; (split; [rewrite !elem_of_cons; destruct awaiting; tauto|destruct awaiting; split; congruence]).
  - intros resp [u Hu] Hd. unfold Fetch. rewrite Hp, Hb, Hu, Hd. split_and!.
    + intros ->%Z.eqb_neq. done.
    + intros -> Hc Hm. rewrite Z.eqb_refl. cbn [negb]. by rewrite (proj2 (String.eqb_neq _ _) Hc), bool_decide_eq_false_2.
    + intros -> -> body -> Hlen. rewrite Z.eqb_refl. cbn [negb String.eqb andb]. unfold ParseModels, MaxResponseBytes in *. unfold slen in *.
      change (1048576 <=? 0) with false. change (MaxModels <=? 0) with false. change (wrap64 (1048576 + 1)) with (1048576 + 1). cbv beta iota zeta. rewrite stake_length.
      destruct (Z.ltb_spec 1048576 (Z.of_nat (Nat.min (Z.to_nat (1048576 + 1)) (String.length body)))); [|lia]. by destruct ctx'.
Qed.

Lemma Fetch_exact_witness :
  exists resp body, SetupDemo.answer (mkServer "a" "http://10.0.0.2:80") SetupDemo.policy "http://10.0.0.2:80/v1/models" = Ok resp /\
    rs_Body resp = Some body /\ is_listing MaxResponseBytes MaxModels body (rev DiscoveryDemo.ids).
Proof.
  assert (H1 : PolicyFromConfig SetupDemo.network = Ok SetupDemo.policy) by (vm_compute; reflexivity).
  assert (H2 : parseBaseURL SetupDemo.url_parse "http://10.0.0.2:80" = Ok (mkURL "http" false "10.0.0.2:80" "" "" "")) by (vm_compute; reflexivity).
  assert (H3 : Fetch SetupDemo.url_parse Some (SetupDemo.answer (mkServer "a" "http://10.0.0.2:80")) SetupDemo.network (mkServer "a" "http://10.0.0.2:80") None None
    = Ok (rev DiscoveryDemo.ids)) by (vm_compute; reflexivity).
  destruct (Fetch_exact SetupDemo.url_parse Some (SetupDemo.answer (mkServer "a" "http://10.0.0.2:80")) SetupDemo.network (mkServer "a" "http://10.0.0.2:80")
    None None _ _ H1 H2) as [Hok _].
  destruct (Hok _ H3) as (resp & body & Hd & _ & _ & Hbody & Hl). exists resp, body. split; [exact Hd|]. split; [exact Hbody|exact Hl].
Defined.

(** The routing table is what the servers offer. Whatever servers are
    given, a table comes out only when they are at most 16, have distinct
    names and have all answered with a listing; then a model is in it exactly
    when some server's listing names it, its replicas are precisely those
    servers in the order they were given, and there are at most 1024 models,
    rendered in bytewise order. And once the servers have answered, nothing
    but that last bound can refuse the table. *)
Theorem discovered_routes servers url_parse mime do network ctx ctx' results
    (Hd : discoverInitServers (fun s => Fetch url_parse mime (do s) network s ctx ctx') servers ∅ = Ok results) :
  (forall r, Aggregate servers results = Ok r ->
     servers <> [] /\ Z.of_nat (length servers) <= MaxServers /\ NoDup (map sv_Name servers) /\ Z.of_nat (size r) <= MaxUniqueModels /\
     (forall s, s ∈ servers -> exists ids, results !! sv_Name s = Some ids /\ Fetch url_parse mime (do s) network s ctx ctx' = Ok ids) /\
     (forall id l, r !! id = Some l <-> l = replicas results id (map sv_Name servers) /\ l <> []) /\
     StronglySorted str_le (SortedModels r) /\ forall id, id ∈ SortedModels r <-> is_Some (r !! id)) /\
  (servers <> [] -> Z.of_nat (length servers) <= MaxServers -> NoDup (map sv_Name servers) -> Forall (fun s => sv_Name s <> "") servers ->
     (exists r, Aggregate servers results = Ok r) \/ Aggregate servers results = Err ATooManyUnique).
Proof.
  split.
  - intros r Hr. unfold Aggregate in Hr. destruct servers as [|s0 rest] eqn:Es; [done|]. rewrite <- Es in *. assert (servers <> []) as Hne by by rewrite Es.
    clear Es s0 rest. destruct (Z.ltb_spec MaxServers (Z.of_nat (length servers))); [done|].
    destruct (server_order ∅ results servers) as [order|] eqn:Eo; [|done]. apply server_order_ok in Eo as (-> & _ & Hnd).
    destruct (negb _); [done|]. destruct (add_servers _ _ ∅) as [models|] eqn:Ea; [|done].
    destruct (Z.ltb_spec MaxUniqueModels (Z.of_nat (size models))); [done|]. injection Hr as <-.
    pose proof (add_servers_replicas _ _ _ _ Ea (map_Forall_empty _)) as Hrep. apply add_servers_ok in Ea as [_ Hlook].
    destruct (discoverInitServers_ok _ _ _ _ Hd Hnd) as (_ & Hin & _). split_and!; try done.
    + intros s Hs. destruct (Hin s Hs) as (ids & ? & ?). by exists ids.
    + intros id l. rewrite (table_lookup _ _ _ Hrep), Hlook, lookup_empty. done.
    + apply (StronglySorted_merge_sort _ _).
    + intros id. unfold SortedModels. rewrite merge_sort_Permutation. split.
      * intros ([k v] & -> & Hk)%list_elem_of_fmap. apply elem_of_map_to_list in Hk. by exists v.
      * intros [v Hv]. apply list_elem_of_fmap. exists (id, v). split; [done|]. by apply elem_of_map_to_list.
  - intros Hne Hlen Hnd Hnames. unfold Aggregate. destruct servers as [|s0 rest] eqn:Es; [done|]. rewrite <- Es in *. clear Hne Es s0 rest.
    destruct (Z.ltb_spec MaxServers (Z.of_nat (length servers))); [lia|].
    destruct (discoverInitServers_ok _ _ _ _ Hd Hnd) as (Hdom & Hin & _).
    assert (forall n, n ∈ map sv_Name servers -> n <> "" /\ exists ids, results !! n = Some ids /\ ids_ok ids) as Hall.
    { intros n (s & -> & Hs)%list_elem_of_fmap. rewrite Forall_forall in Hnames. split; [by apply Hnames|].
      destruct (Hin s Hs) as (ids & Hf & Hl). exists ids. split; [done|]. apply Fetch_listing in Hf as (? & ? & ? & body & _ & _ & _ & _ & _ & _ & Hf).
      by eapply is_listing_ids. }
    assert (server_order ∅ results servers = Ok (map sv_Name servers)) as ->.
    { apply server_order_ok. split; [done|]. split; [|done]. apply Forall_forall. intros n Hn. destruct (Hall n Hn) as (? & ids & ? & _).
      split; [done|]. split; [apply not_elem_of_empty|by eexists]. }
    rewrite bool_decide_eq_true_2 by (rewrite Hdom, dom_empty_L; set_solver). cbn [negb].
    destruct (add_servers_complete results (map sv_Name servers) ∅) as [r ->].
    { apply Forall_forall. intros n Hn. destruct (Hall n Hn) as (_ & ids & -> & Hok). done. }
    destruct (_ <? _); [by right|left; by eexists].
Qed.

Lemma discovered_routes_witness : exists r, Aggregate SetupDemo.servers SetupDemo.results = Ok r /\
  (r !! "qwen" = Some ["a"; "b"] <-> ["a"; "b"] = replicas SetupDemo.results "qwen" ["a"; "b"] /\ ["a"; "b"] <> []).
Proof.
  assert (H1 : discoverInitServers (fun s => Fetch SetupDemo.url_parse Some (SetupDemo.answer s) SetupDemo.network s None None) SetupDemo.servers ∅
    = Ok SetupDemo.results) by (vm_compute; reflexivity).
  destruct (Aggregate SetupDemo.servers SetupDemo.results) as [r|e] eqn:E; [|exfalso; vm_compute in E; discriminate E].
  exists r. split; [reflexivity|].
  destruct (discovered_routes SetupDemo.servers SetupDemo.url_parse Some SetupDemo.answer SetupDemo.network None None _ H1) as [Hok _].
  destruct (Hok r E) as (_ & _ & _ & _ & _ & Hl & _). apply (Hl "qwen" ["a"; "b"]).
Defined.
