(* ===== verification/Paths.v ===== *)
(** * Paths: what the program uses of Go's [path/filepath] (Unix), and the
    group a service's files are given ([internal/securefile]) *)

From Stdlib Require Import Ascii.
From S2P Require Import Prelude GoStrings Net.
#[local] Open Scope Z_scope.

(** One component of a path against those before it, newest first. *)
Definition clean_step (rooted : bool) (stack : list string) (c : string) : list string :=
  if String.eqb c "" || String.eqb c "." then stack
  else if String.eqb c ".." then
    match stack with
    | top :: rest => if String.eqb top ".." then ".." :: stack else rest
    | [] => if rooted then [] else [".."]
    end
  else c :: stack.

(** [filepath.Clean]. *)
Definition Clean (p : string) : string :=
  let rooted := has_prefix "/" p in
  let body := join_with "/" (rev (fold_left (clean_step rooted) (split_on "/"%char p) [])) in
  if rooted then "/" +:+ body else if String.eqb body "" then "." else body.

(** [filepath.Dir], [filepath.Join]. *)
Definition Dir (p : string) : string :=
  match cut_last "/"%char p with Some (l, _) => Clean (l +:+ "/") | None => "." end.
Definition Join (l : list string) : string :=
  match filter (fun s => s <> "") l with [] => "" | l => Clean (join_with "/" l) end.

Fixpoint trim_slashes (n : nat) (s : string) : string :=
  match n with O => s | S n => if has_suffix "/" s then trim_slashes n (stake (String.length s - 1) s) else s end.

(** [filepath.Base]. *)
Definition Base (p : string) : string :=
  if String.eqb p "" then "."
  else let s := trim_slashes (String.length p) p in
       let b := match cut_last "/"%char s with Some (_, b) => b | None => s end in
       if String.eqb b "" then "/" else b.

(** [filepath.Abs], in the working directory [cwd]. *)
Definition Abs (cwd p : string) : string := if has_prefix "/" p then Clean p else Join [cwd; p].

Example paths_ex :
  (map Clean [""; "/"; "//a/./b/"; "/a/../../b"; "a/../.."; "../x"; "a//b"; "/.."],
   map Dir ["/etc/mellomting/config.yaml"; "/config.yaml"; "config.yaml"; "a/b/"; "/"; "a/../b"],
   map Base ["/etc/mellomting/config.yaml"; "a/b//"; "/"; ""; "///"; "x"],
   (Abs "/srv" "config.yaml", Abs "/srv" "../a", Join ["/etc"; "users.yaml"]))
  = (["."; "/"; "/a/b"; "/b"; ".."; "../x"; "a/b"; "/"], ["/etc/mellomting"; "/"; "."; "a/b"; "/"; "."],
     ["config.yaml"; "b"; "/"; "."; "/"; "x"], ("/srv/config.yaml", "/a", "/etc/users.yaml")).
Proof. vm_compute. reflexivity. Qed.

(** The group a file created in a directory takes. *)
(* src: internal/securefile/replace.go ServiceGroup *)
Definition ServiceGroup (egid dirGid : Z) : option Z := if dirGid =? egid then None else Some dirGid.
