(* ===== verification/Prog.v ===== *)
(** * Programs that call the operating system

    A program is a tree of operations: an operation, and what the program does
    with each of its answers.  What an operation may do to the state is a
    relation between the state before, its answer and the state after; other
    processes may act before each operation.  [always] is the logic that
    proves a property of every state of every execution; [run] computes one. *)

From S2P Require Import Prelude.
#[local] Open Scope Z_scope.

(** Fresh numbers. *)
Definition maximum (l : list Z) : Z := fold_right Z.max 0 l.

Lemma maximum_le l x : x ∈ l -> x <= maximum l.
Proof.
  induction l as [|y l IH]; [by intros ?%elem_of_nil|]. unfold maximum in *. cbn. intros [->|Hx]%elem_of_cons; [lia|]. specialize (IH Hx). lia.
Qed.

Lemma maximum_nonneg l : 0 <= maximum l.
Proof. unfold maximum. induction l; cbn [fold_right]; lia. Qed.

(** A signature: operations and their answers. *)
Inductive prog {op : Type} (answer : op -> Type) (A : Type) : Type :=
| Ret (a : A)
| Call (o : op) (k : answer o -> prog answer A).
Arguments Ret {op answer A} a.
Arguments Call {op answer A} o k.

Fixpoint bind {op : Type} {answer : op -> Type} {A B} (p : prog answer A) (f : A -> prog answer B) : prog answer B :=
  match p with Ret a => f a | Call o k => Call o (fun r => bind (k r) f) end.

Notation "'let!' x := p 'in' q" := (bind p (fun x => q)) (at level 10, x name, p at level 100, q at level 200) : go_scope.

Definition call {op : Type} {answer : op -> Type} (o : op) : prog answer (answer o) := Call o Ret.

(** [let?!]: go on with the result, or return the error. *)
Notation "'let?!' x := p 'in' q" := (let! r := p in match r with Err e => Ret (Err e) | Ok x => q end)
  (at level 10, x name, p at level 100, q at level 200) : go_scope.

(** [Q] holds of the result, whatever the operations answer. *)
Fixpoint returns {op : Type} {answer : op -> Type} {A} (Q : A -> Prop) (p : prog answer A) : Prop :=
  match p with Ret a => Q a | Call o k => forall r, returns Q (k r) end.

Section Returns.
Context {op : Type} {answer : op -> Type}.
Lemma returns_mono {A} (Q Q' : A -> Prop) (p : prog answer A) : (forall a, Q a -> Q' a) -> returns Q p -> returns Q' p.
Proof. intros HQ. induction p as [a|o k IH]; cbn; [apply HQ|]. intros H r. by apply IH. Qed.
Lemma returns_bind {A B} (Q : B -> Prop) (p : prog answer A) (f : A -> prog answer B) : returns (fun a => returns Q (f a)) p -> returns Q (bind p f).
Proof. induction p as [a|o k IH]; cbn; [done|]. intros H r. by apply IH. Qed.
Lemma returns_any {A} (p : prog answer A) : returns (fun _ => True) p.
Proof. induction p as [a|o k IH]; cbn; [done|]. intros r. apply IH. Qed.
End Returns.

Section Logic.
Context {op : Type} {answer : op -> Type} {state : Type}.
(** What other processes may have done, what an operation may do. *)
Variable interferes : state -> state -> Prop.
Variable behaves : forall o : op, state -> answer o -> state -> Prop.

(** One operation of the program, after what the others have done. *)
Definition step {A} (c c' : prog answer A * state) : Prop :=
  match c.1 with
  | Ret _ => False
  | Call o k => exists v1 r, interferes c.2 v1 /\ behaves o v1 r c'.2 /\ c'.1 = k r
  end.

(** [P] holds throughout, [Q] at the end. *)
Fixpoint always (P : state -> Prop) {A} (Q : A -> state -> Prop) (p : prog answer A) (v : state) : Prop :=
  match p with
  | Ret a => Q a v
  | Call o k => forall v1 r v2, interferes v v1 -> behaves o v1 r v2 -> P v2 /\ always P Q (k r) v2
  end.

Section Always.
Variable P : state -> Prop.

Lemma always_bind {A B} (p : prog answer A) (f : A -> prog answer B) Q v : always P (fun a => always P Q (f a)) p v -> always P Q (bind p f) v.
Proof.
  revert v. induction p as [a|o k IH]; intros v; cbn [always bind]; [done|]. intros H v1 r v2 Hi Hb. destruct (H _ _ _ Hi Hb). split; [done|]. by apply IH.
Qed.

Lemma always_mono {A} (p : prog answer A) (Q Q' : A -> state -> Prop) v : (forall a v, Q a v -> Q' a v) -> always P Q p v -> always P Q' p v.
Proof.
  intros HQ. revert v. induction p as [a|o k IH]; intros v; cbn [always]; [apply HQ|]. intros H v1 r v2 Hi Hb. destruct (H _ _ _ Hi Hb). split; [done|]. by apply IH.
Qed.

Lemma always_both {A} (p : prog answer A) (P' : state -> Prop) (Q Q' : A -> state -> Prop) v : always P Q p v -> always P' Q' p v ->
  always (fun v => P v /\ P' v) (fun a v => Q a v /\ Q' a v) p v.
Proof.
  revert v. induction p as [a|o k IH]; intros v; cbn [always]; [done|]. intros H H' v1 r v2 Hi Hb. destruct (H _ _ _ Hi Hb), (H' _ _ _ Hi Hb). split; [done|]. by apply IH.
Qed.

Lemma always_weaken {A} (p : prog answer A) (P' : state -> Prop) (Q : A -> state -> Prop) v : (forall v, P v -> P' v) -> always P Q p v -> always P' Q p v.
Proof.
  intros HP. revert v. induction p as [a|o k IH]; intros v; cbn [always]; [done|]. intros H v1 r v2 Hi Hb. destruct (H _ _ _ Hi Hb). split; [by apply HP|]. by apply IH.
Qed.

Lemma always_end {A} (p : prog answer A) Q v : P v -> always P Q p v -> always P (fun a v => P v /\ Q a v) p v.
Proof.
  revert v. induction p as [a|o k IH]; intros v; cbn [always]; [done|]. intros HP H v1 r v2 Hi Hb. destruct (H _ _ _ Hi Hb) as [HP2 HQ]. split; [done|]. by apply IH.
Qed.

Theorem always_adequate {A} (p p' : prog answer A) Q v v' : always P Q p v -> P v -> rtc step (p, v) (p', v') -> P v' /\ always P Q p' v'.
Proof.
  intros Hp HP Hr. remember (p, v) as c eqn:Ec. remember (p', v') as c' eqn:Ec'. revert p v Ec Hp HP.
  induction Hr as [c|c [p1 v1] c2 Hs _ IH]; intros p v -> Hp HP; [by injection Ec' as <- <-|].
  destruct p as [a|o k]; [done|]. destruct Hs as (w & r & Hi & Hb & Hk). cbn in Hk, Hb. destruct (Hp w r v1 Hi Hb) as [HP1 Hp1].
  subst p1. by eapply IH.
Qed.
End Always.

Lemma always_returns {A} (p : prog answer A) Q v : returns Q p -> always (fun _ => True) (fun a _ => Q a) p v.
Proof. revert v. induction p as [a|o k IH]; intros v; cbn [returns always]; [done|]. intros H v1 r v2 _ _. split; [done|]. by apply IH. Qed.

Lemma returns_adequate {A} (p : prog answer A) Q v a v' : returns Q p -> rtc step (p, v) (Ret a, v') -> Q a.
Proof. intros Hp Hr. by destruct (always_adequate (fun _ => True) p (Ret a) (fun a _ => Q a) v v' (always_returns p Q v Hp) I Hr). Qed.

(** ** Runs, from the first operation on *)

Lemma rtc_ret {A} (a : A) v q v' : rtc step (Ret a, v) (q, v') -> q = Ret a /\ v' = v.
Proof. intros [E|(y & Hs & _)]%rtc_inv; [by injection E|done]. Qed.
Lemma rtc_call {A} o (k : answer o -> prog answer A) v q v' : rtc step (Call o k, v) (q, v') ->
  (q = Call o k /\ v' = v) \/ exists v1 r v2, interferes v v1 /\ behaves o v1 r v2 /\ rtc step (k r, v2) (q, v').
Proof.
  intros [E|([p v2] & (v1 & r & Hi & Hb & Hk) & Hr)]%rtc_inv; [left; by injection E|right]. cbn in Hi, Hb, Hk. subst p. by exists v1, r, v2.
Qed.

(** ** Computed executions

    Each operation is answered by [sys], or by [fails] where the plan says so;
    the others do [idle]. *)
Variables (sys fails : forall o : op, state -> answer o * state) (idle : state -> state).

Fixpoint run {A} (plan : list bool) (p : prog answer A) (v : state) : A * state :=
  match p with
  | Ret a => (a, v)
  | Call o k =>
      match plan with
      | true :: plan => let x := fails o (idle v) in run plan (k x.1) x.2
      | _ => let x := sys o (idle v) in run (tl plan) (k x.1) x.2
      end
  end.

Hypothesis idle_ok : forall v, interferes v (idle v).
Hypothesis sys_ok : forall o v, behaves o v (sys o v).1 (sys o v).2.
Hypothesis fails_ok : forall o v, behaves o v (fails o v).1 (fails o v).2.

(** They are executions: no program is ever stuck. *)
Lemma run_executes {A} (p : prog answer A) : forall plan v, rtc step (p, v) (Ret (run plan p v).1, (run plan p v).2).
Proof.
  induction p as [a|o k IH]; intros plan v; cbn [run]; [done|].
  assert (forall x plan, behaves o (idle v) x.1 x.2 -> rtc step (Call o k, v) (Ret (run plan (k x.1) x.2).1, (run plan (k x.1) x.2).2)) as Hx.
  { intros x pl Hb. eapply rtc_l; [|apply IH]. by exists (idle v), x.1. }
  destruct plan as [|[] plan]; apply Hx; auto.
Qed.
End Logic.

(** ** Interference that depends on the state

    Where [J] holds throughout, what the others may do under [J] is all they
    do. *)
Lemma always_guard {op : Type} {answer : op -> Type} {state : Type} (I I' : state -> state -> Prop)
  (behaves : forall o : op, state -> answer o -> state -> Prop) (J P : state -> Prop) {A} (Q R : A -> state -> Prop) (p : prog answer A) v :
  (forall v v', J v -> I' v v' -> I v v') -> J v -> always I' behaves J R p v -> always I behaves P Q p v ->
  always I' behaves (fun v => P v /\ J v) (fun a v => Q a v /\ R a v) p v.
Proof.
  intros HJ. revert v. induction p as [a|o k IH]; intros v; cbn [always]; [done|]. intros Hv H' H v1 r v2 Hi Hb.
  destruct (H' _ _ _ Hi Hb) as [HJ2 H2], (H _ _ _ (HJ _ _ Hv Hi) Hb) as [HP2 HQ2]. split; [done|]. by apply IH.
Qed.

(** Others that do less. *)
Lemma always_rely {op : Type} {answer : op -> Type} {state : Type} (I I' : state -> state -> Prop)
  (behaves : forall o : op, state -> answer o -> state -> Prop) (P : state -> Prop) {A} (Q : A -> state -> Prop) (p : prog answer A) v :
  (forall v v', I' v v' -> I v v') -> always I behaves P Q p v -> always I' behaves P Q p v.
Proof.
  intros HI. revert v. induction p as [a|o k IH]; intros v; cbn [always]; [done|]. intros H v1 r v2 Hi Hb.
  destruct (H _ _ _ (HI _ _ Hi) Hb) as [HP HQ]. split; [done|]. by apply IH.
Qed.
