(* ===== verification/Host.v ===== *)
(** * The host's files, as package [os] presents them

    The operations of [os], [syscall] and [golang.org/x/sys/unix] that
    [internal/securefile], [internal/auth], [internal/systemd] and the
    listener of [cmd/mellomting/serve.go] use: what each may do to the files
    of the host when it succeeds and when it fails, what other processes may
    do meanwhile, and what a crash may leave.

    The state is a table of paths, a table of inodes, the open descriptors
    and the locks held through them.  An inode knows the owners and modes it
    had since its last sync, any of which a crash may bring back, and whether
    a process listens on it, which is what a dial finds out.  A program that
    is run ([Command]) does what other processes may do.  The behaviour of the operating system is [behaves]: any
    operation may fail, and a failed one changes nothing but what it says.
    Other processes may do anything to files and names that are not this
    program's own. *)

From S2P Require Import Prelude GoStrings Paths Prog.
From Stdlib Require Import Ascii.
#[local] Open Scope Z_scope.

Inductive errno := ENOENT | EEXIST | ELOOP | EPERM | EIO.
#[export] Instance errno_eq_dec : EqDecision errno.
Proof. solve_decision. Defined.

Inductive kind := KFile | KDir | KLink | KSocket | KOther.
#[export] Instance kind_eq_dec : EqDecision kind.
Proof. solve_decision. Defined.

(** [n_synced]: every write is on disk; [n_past]: the mode and the owners the
    disk may still have, those replaced since the file was last synced;
    [n_live]: a process accepts connections on the socket. *)
Record inode := mkInode {
  n_kind : kind; n_perm : Z; n_uid : Z; n_gid : Z; n_data : string; n_synced : bool; n_mtime : time;
  n_past : list (Z * Z * Z); n_live : bool
}.
Definition mkNode (k : kind) (perm uid gid : Z) (data : string) (synced : bool) (mtime : time) : inode :=
  mkInode k perm uid gid data synced mtime [] false.

(** What [os.FileInfo] tells; [os.SameFile] compares [fi_ino]. *)
Record FileInfo := mkInfo { fi_ino : Z; fi_kind : kind; fi_perm : Z; fi_uid : Z; fi_gid : Z; fi_size : Z; fi_mtime : time }.
Definition info_of (k : Z) (n : inode) : FileInfo :=
  mkInfo k (n_kind n) (n_perm n) (n_uid n) (n_gid n) (slen (n_data n)) (n_mtime n).
Definition IsRegular (i : FileInfo) : bool := bool_decide (fi_kind i = KFile).
Definition IsDir (i : FileInfo) : bool := bool_decide (fi_kind i = KDir).
Definition is_link (i : FileInfo) : bool := bool_decide (fi_kind i = KLink).
Definition SameFile (a b : FileInfo) : bool := fi_ino a =? fi_ino b.

(** Paths, inodes and descriptors; the tables of paths that may still be on
    disk, newest first; the descriptors that hold an exclusive lock; and, to
    speak about executions, the inodes this program has made for itself and
    how many of its operations have failed. *)
Record host := mkHost {
  h_names : gmap string Z;
  h_nodes : gmap Z inode;
  h_fds : gmap Z Z;
  h_hist : list (gmap string Z);
  h_mine : gset Z;
  h_fails : nat;
  h_locks : gset Z
}.

Definition set_names (d : gmap string Z) (h : host) : host := mkHost d (h_nodes h) (h_fds h) (d :: h_hist h) (h_mine h) (h_fails h) (h_locks h).
Definition set_node (k : Z) (n : inode) (h : host) : host :=
  mkHost (h_names h) (<[k := n]> (h_nodes h)) (h_fds h) (h_hist h) (h_mine h) (h_fails h) (h_locks h).
Definition set_fds (fds : gmap Z Z) (h : host) : host := mkHost (h_names h) (h_nodes h) fds (h_hist h) (h_mine h) (h_fails h) (h_locks h).
Definition set_hist (l : list (gmap string Z)) (h : host) : host := mkHost (h_names h) (h_nodes h) (h_fds h) l (h_mine h) (h_fails h) (h_locks h).
Definition own (k : Z) (h : host) : host := mkHost (h_names h) (h_nodes h) (h_fds h) (h_hist h) ({[k]} ∪ h_mine h) (h_fails h) (h_locks h).
Definition fault (h : host) : host := mkHost (h_names h) (h_nodes h) (h_fds h) (h_hist h) (h_mine h) (S (h_fails h)) (h_locks h).
Definition lock_fd (fd : Z) (h : host) : host :=
  mkHost (h_names h) (h_nodes h) (h_fds h) (h_hist h) (h_mine h) (h_fails h) ({[fd]} ∪ h_locks h).
(** The lock goes with the descriptor. *)
Definition close_fd (fd : Z) (h : host) : host :=
  mkHost (h_names h) (h_nodes h) (delete fd (h_fds h)) (h_hist h) (h_mine h) (h_fails h) (h_locks h ∖ {[fd]}).

Definition meta (n : inode) : Z * Z * Z := (n_perm n, n_uid n, n_gid n).
Definition with_perm (m : Z) (n : inode) : inode :=
  mkInode (n_kind n) m (n_uid n) (n_gid n) (n_data n) (n_synced n) (n_mtime n) (meta n :: n_past n) (n_live n).
Definition with_owner (uid gid : Z) (n : inode) : inode :=
  mkInode (n_kind n) (n_perm n) (if uid =? -1 then n_uid n else uid) (if gid =? -1 then n_gid n else gid) (n_data n) (n_synced n) (n_mtime n)
    (meta n :: n_past n) (n_live n).
Definition appended (s : string) (t : time) (n : inode) : inode :=
  mkInode (n_kind n) (n_perm n) (n_uid n) (n_gid n) (n_data n +:+ s) false t (n_past n) (n_live n).
Definition synced (n : inode) : inode :=
  mkInode (n_kind n) (n_perm n) (n_uid n) (n_gid n) (n_data n) true (n_mtime n) [] (n_live n).

(** ** Operations *)

Inductive op :=
| Lstat (path : string)
| Stat (path : string)
| CreateTemp (dir prefix : string)
| OpenNoFollow (path : string)
| Open (path : string)
| OpenLock (path : string)
| Flock (fd : Z)
| FStat (fd : Z)
| ReadLimit (fd n : Z)
| Write (fd : Z) (data : string)
| Sync (fd : Z)
| FChmod (fd mode : Z)
| FChown (fd uid gid : Z)
| Close (fd : Z)
| Remove (path : string)
| Rename (old new : string)
| Mkdir (path : string) (mode : Z)
| MkdirAll (path : string)
| Chmod (path : string) (mode : Z)
| Chown (path : string) (uid gid : Z)
| SyncDir (dir : string)
| Dial (path : string)
| ListenUnix (path : string)
| Random (n : nat)
| LookupUser (name : string)
| LookupGroup (name : string)
| LookupGroupId (gid : string)
| Command (path : string) (args : list string).

Definition ans (o : op) : Type :=
  match o with
  | Lstat _ | Stat _ | FStat _ => FileInfo
  | CreateTemp _ _ => Z * string
  | OpenNoFollow _ | Open _ | OpenLock _ | ListenUnix _ => Z
  | ReadLimit _ _ | Random _ => string
  | LookupUser _ => string * string
  | LookupGroup _ | LookupGroupId _ => string
  | _ => unit
  end.
Definition answer (o : op) : Type := result errno (ans o).

(** An inode number no table that may be on disk mentions. *)
Definition unused (h : host) (k : Z) : Prop :=
  h_nodes h !! k = None /\ k ∉ h_mine h /\ (forall p, h_names h !! p <> Some k) /\ forall d p, d ∈ h_hist h -> d !! p <> Some k.

(** The file at the end of the links at [path]; where links lead is not
    modelled. *)
Definition resolves (h : host) (path : string) (k : Z) (n : inode) : Prop :=
  h_nodes h !! k = Some n /\ n_kind n <> KLink /\
  exists k0 n0, h_names h !! path = Some k0 /\ h_nodes h !! k0 = Some n0 /\ (n_kind n0 <> KLink -> k = k0) /\ (n_kind n0 = KLink -> k ∉ h_mine h).

Definition on_fd (h h' : host) (fd : Z) (g : inode -> inode) : Prop :=
  exists k n, h_fds h !! fd = Some k /\ h_nodes h !! k = Some n /\ h' = set_node k (g n) h.
Definition on_path (h h' : host) (path : string) (g : inode -> inode) : Prop :=
  exists k n, resolves h path k n /\ h' = set_node k (g n) h.

(** A new inode at a free path: for everybody, or the program's own. *)
Definition adds (h h' : host) (path : string) (k : Z) (n : inode) : Prop :=
  h_names h !! path = None /\ unused h k /\ h' = set_node k n (set_names (<[path := k]> (h_names h)) h).
Definition creates (h h' : host) (path : string) (k : Z) (n : inode) : Prop :=
  h_names h !! path = None /\ unused h k /\ h' = own k (set_node k n (set_names (<[path := k]> (h_names h)) h)).

Definition opened (h h' : host) (fd k : Z) : Prop := h_fds h !! fd = None /\ h' = set_fds (<[fd := k]> (h_fds h)) h.

(** The name of a temporary file in a directory ([os.CreateTemp]). *)
Definition in_dir (dir name : string) : string := if has_suffix "/" dir then dir +:+ name else dir +:+ "/" +:+ name.

(** After a directory is synced, its entries on disk are those of now. *)
Definition settle (dir : string) (now d : gmap string Z) : gmap string Z :=
  filter (fun e => Dir e.1 = dir) now ∪ filter (fun e => Dir e.1 <> dir) d.

(** A socket somebody accepts connections on, at the end of the links. *)
Definition live (h : host) (path : string) : Prop := exists k n, resolves h path k n /\ n_kind n = KSocket /\ n_live n = true.

(** What other processes may have done between two operations: anything but
    to this program's files and the names that lead to them. *)
Definition interferes (h h' : host) : Prop :=
  exists d nodes, h' = mkHost d nodes (h_fds h) (d :: h_hist h) (h_mine h) (h_fails h) (h_locks h) /\
    (forall p k, k ∈ h_mine h -> d !! p = Some k <-> h_names h !! p = Some k) /\
    (forall k, k ∈ h_mine h -> nodes !! k = h_nodes h !! k).

(** A program that is started is another process; a lock is granted when no
    other process has one on the file; a dial succeeds only where somebody
    listens, and one that fails elsewhere than at a dead socket is a
    failure. *)
Definition behaves (o : op) (h : host) : answer o -> host -> Prop :=
  match o return answer o -> host -> Prop with
  | Lstat path => fun r h' =>
      match r with
      | Ok i => (exists k n, h_names h !! path = Some k /\ h_nodes h !! k = Some n /\ i = info_of k n) /\ h' = h
      | Err ENOENT => h_names h !! path = None /\ h' = h
      | Err _ => h' = fault h
      end
  | Stat path => fun r h' =>
      match r with
      | Ok i => (exists k n, resolves h path k n /\ i = info_of k n) /\ h' = h
      | Err _ => h' = h
      end
  | CreateTemp dir prefix => fun r h' =>
      match r with
      | Ok (fd, name) => exists k n rnd h1,
          name = in_dir dir (prefix +:+ rnd) /\ contains_char "/"%char rnd = false /\
          n_kind n = KFile /\ Z.land (n_perm n) 384 = n_perm n /\ n_data n = "" /\ n_past n = [] /\
          creates h h1 name k n /\ opened h1 h' fd k
      | Err _ => h' = fault h
      end
  | OpenNoFollow path => fun r h' =>
      match r with
      | Ok fd => exists k n, h_names h !! path = Some k /\ h_nodes h !! k = Some n /\ n_kind n <> KLink /\ opened h h' fd k
      | Err ENOENT => h_names h !! path = None /\ h' = h
      | Err _ => h' = fault h
      end
  | Open path => fun r h' =>
      match r with
      | Ok fd => exists k n, resolves h path k n /\ opened h h' fd k
      | Err _ => h' = fault h
      end
  | OpenLock path => fun r h' =>
      match r with
      | Ok fd => (exists k n, resolves h path k n /\ opened h h' fd k) \/
                 exists k n h1, n_kind n = KFile /\ adds h h1 path k n /\ opened h1 h' fd k
      | Err _ => h' = fault h
      end
  | Flock fd => fun r h' => match r with Ok _ => is_Some (h_fds h !! fd) /\ h' = lock_fd fd h | Err _ => h' = fault h end
  | FStat fd => fun r h' =>
      match r with
      | Ok i => (exists k n, h_fds h !! fd = Some k /\ h_nodes h !! k = Some n /\ i = info_of k n) /\ h' = h
      | Err _ => h' = fault h
      end
  | ReadLimit fd m => fun r h' =>
      match r with
      | Ok data => (exists k n, h_fds h !! fd = Some k /\ h_nodes h !! k = Some n /\ data = stake (Z.to_nat m) (n_data n)) /\ h' = h
      | Err _ => h' = fault h
      end
  | Write fd data => fun r h' =>
      match r with
      | Ok _ => exists t, on_fd h h' fd (appended data t)
      | Err _ => h' = fault h \/ exists m t h1, on_fd h h1 fd (appended (stake m data) t) /\ h' = fault h1
      end
  | Sync fd => fun r h' => match r with Ok _ => on_fd h h' fd synced | Err _ => h' = fault h end
  | FChmod fd mode => fun r h' => match r with Ok _ => on_fd h h' fd (with_perm mode) | Err _ => h' = fault h end
  | FChown fd uid gid => fun r h' => match r with Ok _ => on_fd h h' fd (with_owner uid gid) | Err _ => h' = fault h end
  | Close fd => fun r h' =>
      match r with
      | Ok _ => h' = close_fd fd h
      | Err _ => h' = fault h \/ h' = fault (close_fd fd h)
      end
  | Remove path => fun r h' =>
      match r with
      | Ok _ => is_Some (h_names h !! path) /\ h' = set_names (delete path (h_names h)) h
      | Err ENOENT => h_names h !! path = None /\ h' = h
      | Err _ => h' = fault h
      end
  | Rename old new => fun r h' =>
      match r with
      | Ok _ => exists k, h_names h !! old = Some k /\
          h' = if decide (h_names h !! new = Some k) then h else set_names (<[new := k]> (delete old (h_names h))) h
      | Err _ => h' = fault h
      end
  | Mkdir path mode => fun r h' =>
      match r with
      | Ok _ => exists k n, n_kind n = KDir /\ Z.land (n_perm n) mode = n_perm n /\ creates h h' path k n
      | Err _ => h' = fault h
      end
  | MkdirAll path => fun r h' =>
      match r with
      | Ok _ => exists d nodes, h' = mkHost d (nodes ∪ h_nodes h) (h_fds h) (d :: h_hist h) (h_mine h) (h_fails h) (h_locks h) /\ h_names h ⊆ d /\
          (forall k n, nodes !! k = Some n -> n_kind n = KDir /\ unused h k) /\
          forall p k, d !! p = Some k -> h_names h !! p = Some k \/ (is_Some (nodes !! k) /\ has_prefix p path = true)
      | Err _ => h' = fault h
      end
  | Chmod path mode => fun r h' => match r with Ok _ => on_path h h' path (with_perm mode) | Err _ => h' = fault h end
  | Chown path uid gid => fun r h' => match r with Ok _ => on_path h h' path (with_owner uid gid) | Err _ => h' = fault h end
  | SyncDir dir => fun r h' =>
      match r with Ok _ => h' = set_hist (map (settle dir (h_names h)) (h_hist h)) h | Err _ => h' = fault h end
  | Dial path => fun r h' => match r with Ok _ => live h path /\ h' = h | Err _ => (~ live h path /\ h' = h) \/ h' = fault h end
  | ListenUnix path => fun r h' =>
      match r with
      | Ok fd => exists k n h1, n_kind n = KSocket /\ n_live n = true /\ creates h h1 path k n /\ opened h1 h' fd k
      | Err _ => h' = fault h
      end
  | Random m => fun r h' => match r with Ok s => String.length s = m /\ h' = h | Err _ => h' = fault h end
  | LookupUser _ | LookupGroup _ | LookupGroupId _ => fun _ h' => h' = h
  | Command _ _ => fun r h' => match r with Ok _ => interferes h h' | Err _ => exists h1, interferes h h1 /\ h' = fault h1 end
  end.

(** The paths a crash may leave: for each one, what it was at some moment
    since its directory was last synced. *)
Definition crash (h : host) (d : gmap string Z) : Prop := forall p, exists d', d' ∈ h_hist h /\ d !! p = d' !! p.

(** And what it may leave of a file: anything, where a write was not synced;
    else its content, with the mode and the owners it has or one of those
    they replaced since. *)
Definition crash_node (n n' : inode) : Prop :=
  n_kind n' = n_kind n /\ (n_synced n = true -> n_data n' = n_data n /\ meta n' ∈ meta n :: n_past n).

(** Failures are only counted up. *)
Lemma behaves_fails o h r h' : behaves o h r h' -> (h_fails h <= h_fails h')%nat.
Proof.
  destruct o as [path|path|dir pre|path|path|path|fd|fd|fd m|fd data|fd|fd mode|fd uid gid|fd|path|old new|path mode|path|path mode|path uid gid|dir|path|path|m|u|g|g|c args];
    cbn [behaves]; unfold interferes, adds, creates, opened, on_fd, on_path; destruct r as [x|[]]; try (destruct x as [fd0 name0]); intros Hb;
    repeat match goal with
      | H : exists _, _ |- _ => destruct H | H : _ /\ _ |- _ => destruct H | H : _ \/ _ |- _ => destruct H end; repeat match goal with E : _ = _ :> host |- _ => first [subst h'|rewrite E; clear E] end; repeat case_decide; cbn; try lia.
Qed.

Notation prog := (Prog.prog answer).
Notation step := (Prog.step interferes behaves).
Notation always := (Prog.always interferes behaves).

(** ** A host that behaves

    One answer to every operation, or its failure: executions can be
    computed, and no program is ever stuck.  [a_time], [a_uid] and the like
    are what the host adds of its own. *)

Definition seen_inodes (h : host) : list Z :=
  map fst (map_to_list (h_nodes h)) ++ map snd (map_to_list (h_names h)) ++
  concat (map (fun d => map snd (map_to_list d)) (h_hist h)) ++ elements (h_mine h).
Definition next_ino (h : host) : Z := 1 + maximum (seen_inodes h).
Definition next_fd (h : host) : Z := 3 + maximum (map fst (map_to_list (h_fds h))).

Definition node_at (h : host) (path : string) : option (Z * inode) :=
  match h_names h !! path with
  | Some k => match h_nodes h !! k with Some n => Some (k, n) | None => None end
  | None => None
  end.
Definition node_of_fd (h : host) (fd : Z) : option (Z * inode) :=
  match h_fds h !! fd with
  | Some k => match h_nodes h !! k with Some n => Some (k, n) | None => None end
  | None => None
  end.
Definition make_node (h : host) (path : string) (n : inode) : host :=
  let k := next_ino h in own k (set_node k n (set_names (<[path := k]> (h_names h)) h)).
Definition add_node (h : host) (path : string) (n : inode) : host := set_node (next_ino h) n (set_names (<[path := next_ino h]> (h_names h)) h).
Definition open_fd (h : host) (k : Z) : host := set_fds (<[next_fd h := k]> (h_fds h)) h.
Definition answered {A} (h : host) (o : option A) : result errno A * host := match o with Some a => (Ok a, h) | None => (Err EIO, fault h) end.
Definition changed_node (h : host) (o : option (Z * inode)) (g : inode -> inode) : result errno unit * host :=
  match o with Some (k, n) => (Ok tt, set_node k (g n) h) | None => (Err EIO, fault h) end.

Definition idle (h : host) : host := mkHost (h_names h) (h_nodes h) (h_fds h) (h_names h :: h_hist h) (h_mine h) (h_fails h) (h_locks h).

Definition sys (o : op) (h : host) : answer o * host :=
  match o return answer o * host with
  | Lstat path => match h_names h !! path with
                  | None => (Err ENOENT, h)
                  | Some k => match h_nodes h !! k with Some n => (Ok (info_of k n), h) | None => (Err EIO, fault h) end
                  end
  | Stat path => match node_at h path with
                 | Some (k, n) => if decide (n_kind n = KLink) then (Err ENOENT, h) else (Ok (info_of k n), h)
                 | None => (Err ENOENT, h)
                 end
  | CreateTemp dir prefix =>
      let name := in_dir dir (prefix +:+ "1") in
      match h_names h !! name with
      | Some _ => (Err EEXIST, fault h)
      | None => let h1 := make_node h name (mkNode KFile 384 0 0 "" false 0) in (Ok (next_fd h1, name), open_fd h1 (next_ino h))
      end
  | OpenNoFollow path =>
      match h_names h !! path with
      | None => (Err ENOENT, h)
      | Some k => match h_nodes h !! k with
                  | Some n => if decide (n_kind n = KLink) then (Err ELOOP, fault h) else (Ok (next_fd h), open_fd h k)
                  | None => (Err EIO, fault h)
                  end
      end
  | Open path =>
      match node_at h path with
      | Some (k, n) => if decide (n_kind n = KLink) then (Err ELOOP, fault h) else (Ok (next_fd h), open_fd h k)
      | None => (Err ENOENT, fault h)
      end
  | OpenLock path =>
      match h_names h !! path with
      | None => let h1 := add_node h path (mkNode KFile 384 0 0 "" false 0) in (Ok (next_fd h1), open_fd h1 (next_ino h))
      | Some k => match h_nodes h !! k with
                  | Some n => if decide (n_kind n = KLink) then (Err ELOOP, fault h) else (Ok (next_fd h), open_fd h k)
                  | None => (Err EIO, fault h)
                  end
      end
  | Flock fd => match h_fds h !! fd with Some _ => (Ok tt, lock_fd fd h) | None => (Err EIO, fault h) end
  | FStat fd => match node_of_fd h fd with Some (k, n) => (Ok (info_of k n), h) | None => (Err EIO, fault h) end
  | ReadLimit fd m => match node_of_fd h fd with Some (_, n) => (Ok (stake (Z.to_nat m) (n_data n)), h) | None => (Err EIO, fault h) end
  | Write fd data => changed_node h (node_of_fd h fd) (appended data 0)
  | Sync fd => changed_node h (node_of_fd h fd) synced
  | FChmod fd mode => changed_node h (node_of_fd h fd) (with_perm mode)
  | FChown fd uid gid => changed_node h (node_of_fd h fd) (with_owner uid gid)
  | Close fd => (Ok tt, close_fd fd h)
  | Remove path => match h_names h !! path with
                   | Some _ => (Ok tt, set_names (delete path (h_names h)) h)
                   | None => (Err ENOENT, h)
                   end
  | Rename old new => match h_names h !! old with
                      | Some k => (Ok tt, if decide (h_names h !! new = Some k) then h else set_names (<[new := k]> (delete old (h_names h))) h)
                      | None => (Err ENOENT, fault h)
                      end
  | Mkdir path mode => match h_names h !! path with
                       | None => (Ok tt, make_node h path (mkNode KDir mode 0 0 "" false 0))
                       | Some _ => (Err EEXIST, fault h)
                       end
  | MkdirAll _ => (Ok tt, mkHost (h_names h) (∅ ∪ h_nodes h) (h_fds h) (h_names h :: h_hist h) (h_mine h) (h_fails h) (h_locks h))
  | Chmod path mode => match node_at h path with
                       | Some (k, n) => if decide (n_kind n = KLink) then (Err ELOOP, fault h) else (Ok tt, set_node k (with_perm mode n) h)
                       | None => (Err ENOENT, fault h)
                       end
  | Chown path uid gid => match node_at h path with
                          | Some (k, n) => if decide (n_kind n = KLink) then (Err ELOOP, fault h) else (Ok tt, set_node k (with_owner uid gid n) h)
                          | None => (Err ENOENT, fault h)
                          end
  | SyncDir dir => (Ok tt, set_hist (map (settle dir (h_names h)) (h_hist h)) h)
  | Dial path => match node_at h path with
                 | Some (k, n) => if decide (n_kind n = KLink) then (Err ELOOP, fault h)
                                  else if bool_decide (n_kind n = KSocket) && n_live n then (Ok tt, h) else (Err EIO, h)
                 | None => (Err ENOENT, h)
                 end
  | ListenUnix path =>
      match h_names h !! path with
      | None => let h1 := make_node h path (mkInode KSocket 511 0 0 "" false 0 [] true) in (Ok (next_fd h1), open_fd h1 (next_ino h))
      | Some _ => (Err EEXIST, fault h)
      end
  | Random m => (Ok (String.string_of_list_ascii (repeat "x"%char m)), h)
  | LookupUser _ => (Ok ("990", "991"), h)
  | LookupGroup _ => (Ok "991", h)
  | LookupGroupId _ => (Ok "mellomting", h)
  | Command _ _ => (Ok tt, idle h)
  end.

Definition fails (o : op) (h : host) : answer o * host := (Err EIO, match o with Stat _ | LookupUser _ | LookupGroup _ | LookupGroupId _ => h | Command _ _ => fault (idle h) | _ => fault h end).
Notation run := (Prog.run sys fails idle).

Lemma host_ino_unused h : unused h (next_ino h).
Proof.
  assert (forall k, k ∈ seen_inodes h -> k <> next_ino h) as H by (intros k Hk ->; apply maximum_le in Hk; unfold next_ino in Hk; lia).
  unfold seen_inodes in H. split_and!.
  - apply eq_None_not_Some. intros [n Hn]. apply (H (next_ino h)); [|done]. rewrite !elem_of_app. left. apply list_elem_of_fmap.
    exists (next_ino h, n). split; [done|]. by apply elem_of_map_to_list.
  - intros Hin. apply (H (next_ino h)); [|done]. rewrite !elem_of_app, elem_of_elements. tauto.
  - intros p Hp. apply (H (next_ino h)); [|done]. rewrite !elem_of_app. right. left. apply list_elem_of_fmap.
    exists (p, next_ino h). split; [done|]. by apply elem_of_map_to_list.
  - intros d p Hd Hp. apply (H (next_ino h)); [|done]. rewrite !elem_of_app. right. right. left. apply list_elem_of_In, in_concat.
    exists (map snd (map_to_list d)). split; [apply in_map_iff; exists d; split; [done|by apply list_elem_of_In]|].
    apply in_map_iff. exists (p, next_ino h). split; [done|]. apply list_elem_of_In. by apply elem_of_map_to_list.
Qed.

Lemma host_fd_free h : h_fds h !! next_fd h = None.
Proof.
  destruct (h_fds h !! next_fd h) as [k|] eqn:E; [|done]. apply elem_of_map_to_list in E.
  assert (next_fd h ∈ map fst (map_to_list (h_fds h))) as Hin by (apply list_elem_of_fmap; by exists (next_fd h, k)).
  apply maximum_le in Hin. unfold next_fd in Hin at 1. lia.
Qed.

Lemma make_node_creates h path n : h_names h !! path = None -> creates h (make_node h path n) path (next_ino h) n.
Proof. intros Hp. split; [done|]. split; [apply host_ino_unused|done]. Qed.
Lemma add_node_adds h path n : h_names h !! path = None -> adds h (add_node h path n) path (next_ino h) n.
Proof. intros Hp. split; [done|]. split; [apply host_ino_unused|done]. Qed.
Lemma open_fd_opened h k : opened h (open_fd h k) (next_fd h) k.
Proof. split; [apply host_fd_free|done]. Qed.

Lemma node_at_some h path k n : node_at h path = Some (k, n) -> h_names h !! path = Some k /\ h_nodes h !! k = Some n.
Proof. unfold node_at. destruct (h_names h !! path) as [k'|]; [|done]. destruct (h_nodes h !! k') as [n'|] eqn:E; [|done]. by intros [= <- <-]. Qed.
Lemma node_at_resolves h path k n : node_at h path = Some (k, n) -> n_kind n <> KLink -> resolves h path k n.
Proof. intros [Hp Hk]%node_at_some Hn. split; [done|]. split; [done|]. exists k, n. by split_and!. Qed.

Lemma live_node_at h path : live h path -> exists k n, node_at h path = Some (k, n) /\ (n_kind n <> KLink -> n_kind n = KSocket /\ n_live n = true).
Proof.
  intros (k & n & (Hk & Hl & k0 & n0 & Hp & Hn0 & Hs & _) & Hn & Hlv). exists k0, n0. unfold node_at. rewrite Hp, Hn0. split; [done|].
  intros Hl0. specialize (Hs Hl0). subst k0. split; congruence.
Qed.

Lemma changed_on_fd h fd g : match changed_node h (node_of_fd h fd) g with (Ok _, h') => on_fd h h' fd g | (Err _, h') => h' = fault h end.
Proof.
  unfold changed_node, node_of_fd. destruct (h_fds h !! fd) as [k|] eqn:E1; [|done]. destruct (h_nodes h !! k) as [n|] eqn:E2; [|done]. by exists k, n.
Qed.

Lemma host_idle_interferes h : interferes h (idle h).
Proof. by exists (h_names h), (h_nodes h). Qed.

Lemma host_sys_behaves o h : behaves o h (sys o h).1 (sys o h).2.
Proof.
  destruct o as [path|path|dir pre|path|path|path|fd|fd|fd m|fd data|fd|fd mode|fd uid gid|fd|path|old new|path mode|path|path mode|path uid gid|dir|path|path|m|u|g|g|c args];
    cbn [sys behaves].
  - destruct (h_names h !! path) as [k|] eqn:E; [|done]. destruct (h_nodes h !! k) as [n|] eqn:E2; cbn; [|done]. by split; [exists k, n|].
  - destruct (node_at h path) as [[k n]|] eqn:E; [|done]. destruct (decide (n_kind n = KLink)); cbn; [done|]. split; [|done]. exists k, n. split; [by apply node_at_resolves|done].
  - destruct (h_names h !! in_dir dir (pre +:+ "1")) eqn:E; [done|]. cbn. exists (next_ino h), (mkNode KFile 384 0 0 "" false 0), "1", (make_node h (in_dir dir (pre +:+ "1")) (mkNode KFile 384 0 0 "" false 0)). split; [done|]. split; [done|]. split; [done|]. split; [done|]. split; [done|]. split; [done|]. split; [by apply make_node_creates|apply open_fd_opened].
  - destruct (h_names h !! path) as [k|] eqn:E; [|done]. destruct (h_nodes h !! k) as [n|] eqn:E2; [|done]. destruct (decide (n_kind n = KLink)); cbn; [done|].
    exists k, n. split; [done|]. split; [done|]. split; [done|]. apply open_fd_opened.
  - destruct (node_at h path) as [[k n]|] eqn:E; [|done]. destruct (decide (n_kind n = KLink)); cbn; [done|]. exists k, n. split; [by apply node_at_resolves|apply open_fd_opened].
  - destruct (h_names h !! path) as [k|] eqn:E.
    + destruct (h_nodes h !! k) as [n|] eqn:E2; [|done]. destruct (decide (n_kind n = KLink)); cbn; [done|]. left. exists k, n. split; [|apply open_fd_opened].
      apply node_at_resolves; [|done]. unfold node_at. by rewrite E, E2.
    + cbn. right. eexists _, (mkNode _ _ 0 0 "" false 0), _. split; [|split; [by apply add_node_adds|apply open_fd_opened]]. done.
  - destruct (h_fds h !! fd) as [k|] eqn:E; [|done]. cbn. split; [by exists k|done].
  - unfold node_of_fd. destruct (h_fds h !! fd) as [k|] eqn:E1; [|done]. destruct (h_nodes h !! k) as [n|] eqn:E2; [|done]. cbn. by split; [exists k, n|].
  - unfold node_of_fd. destruct (h_fds h !! fd) as [k|] eqn:E1; [|done]. destruct (h_nodes h !! k) as [n|] eqn:E2; [|done]. cbn. by split; [exists k, n|].
  - pose proof (changed_on_fd h fd (appended data 0)) as Hc. destruct (changed_node _ _ _) as [[[]|e] h']; cbn; [by exists 0|by left].
  - pose proof (changed_on_fd h fd synced) as Hc. by destruct (changed_node _ _ _) as [[[]|e] h'].
  - pose proof (changed_on_fd h fd (with_perm mode)) as Hc. by destruct (changed_node _ _ _) as [[[]|e] h'].
  - pose proof (changed_on_fd h fd (with_owner uid gid)) as Hc. by destruct (changed_node _ _ _) as [[[]|e] h'].
  - done.
  - destruct (h_names h !! path) eqn:E; cbn; [|done]. by split; [eexists|].
  - destruct (h_names h !! old) as [k|] eqn:E; cbn; [|done]. by exists k.
  - destruct (h_names h !! path) eqn:E; cbn; [done|]. eexists _, (mkNode KDir mode 0 0 "" false 0). split; [done|]. split; [apply Z.land_diag|by apply make_node_creates].
  - cbn. exists (h_names h), ∅. split; [done|]. split; [done|]. split; [done|]. intros p k Hp. by left.
  - destruct (node_at h path) as [[k n]|] eqn:E; cbn; [|done]. destruct (decide (n_kind n = KLink)); cbn; [done|]. exists k, n. split; [by apply node_at_resolves|done].
  - destruct (node_at h path) as [[k n]|] eqn:E; cbn; [|done]. destruct (decide (n_kind n = KLink)); cbn; [done|]. exists k, n. split; [by apply node_at_resolves|done].
  - done.
  - destruct (node_at h path) as [[k n]|] eqn:E.
    + destruct (decide (n_kind n = KLink)) as [|Hl]; cbn; [by right|]. case_bool_decide as Es; cbn.
      * destruct (n_live n) eqn:En; cbn; [split; [|done]; exists k, n; split; [by apply node_at_resolves|done]|left].
        split; [|done]. intros (k' & n' & E' & Hn')%live_node_at. destruct (Hn' ltac:(congruence)). congruence.
      * left. split; [|done]. intros (k' & n' & E' & Hn')%live_node_at. destruct (Hn' ltac:(congruence)). congruence.
    + cbn. left. split; [|done]. intros (k' & n' & E' & _)%live_node_at. congruence.
  - destruct (h_names h !! path) eqn:E; cbn; [done|]. eexists _, (mkInode KSocket 511 0 0 "" false 0 [] true), _. split; [done|]. split; [done|]. split; [by apply make_node_creates|apply open_fd_opened].
  - cbn. split; [|done]. clear. induction m; cbn; [done|]. by f_equal.
  - done.
  - done.
  - done.
  - apply host_idle_interferes.
Qed.

Lemma fails_behaves o h : behaves o h (fails o h).1 (fails o h).2.
Proof. destruct o; cbn; auto. eexists; split; [apply host_idle_interferes|done]. Qed.

Lemma host_run_steps {A} (p : prog A) plan h : rtc step (p, h) (Ret (run plan p h).1, (run plan p h).2).
Proof. apply Prog.run_executes; [apply host_idle_interferes|apply host_sys_behaves|apply fails_behaves]. Qed.

Lemma always_fails {A} (I : host -> host -> Prop) (p : prog A) h : (forall v v', I v v' -> interferes v v') ->
  Prog.always I behaves (fun v => (h_fails h <= h_fails v)%nat) (fun _ v => (h_fails h <= h_fails v)%nat) p h.
Proof.
  intros HI. assert (forall v, (h_fails h <= h_fails v)%nat -> Prog.always I behaves (fun v => (h_fails h <= h_fails v)%nat) (fun _ v => (h_fails h <= h_fails v)%nat) p v) as H; [|by apply H].
  induction p as [a|o k IH]; intros v Hv; cbn [Prog.always]; [done|]. intros v1 r v2 Hi Hb. destruct (HI _ _ Hi) as (d & nodes & E & _).
  apply behaves_fails in Hb. assert (h_fails v1 = h_fails v) as E1 by (by rewrite E). split; [lia|]. apply IH. lia.
Qed.
