(* ===== verification/Replace.v ===== *)
(** * Secure files: [internal/securefile]

    Reading a sensitive file, and replacing one atomically: the content is
    written to a temporary file of the same directory, synced, given its mode
    through its descriptor, and renamed over the destination.  The operating
    system is that of [Host.v]. *)

From S2P Require Import Prelude GoStrings Net Paths Prog Host.
From Stdlib Require Import Ascii.
#[local] Open Scope Z_scope.

(** ** Read *)

Definition DefaultMaxSize : Z := 1048576.

(* src: internal/securefile/securefile.go WorldAccessible *)
Definition WorldAccessible (perm : Z) : bool := negb (Z.land perm 7 =? 0).

Inductive read_error := FOpen (e : errno) | FStatFailed | FNotRegular | FWorldAccessible | FRead | FTooLarge.

(** The descriptor is closed on every return. *)
Definition closing {A} (fd : Z) (a : A) : prog A := let! _ := call (Close fd) in Ret a.

(* src: internal/securefile/securefile.go read *)
Definition read (path : string) (maxBytes : Z) (rejectWorldAccessible : bool) : prog (result read_error string) :=
  let maxBytes := if maxBytes <=? 0 then DefaultMaxSize else maxBytes in
  let! r := call (OpenNoFollow path) in
  match r with
  | Err e => Ret (Err (FOpen e))
  | Ok fd =>
      let! r := call (FStat fd) in
      match r with
      | Err _ => closing fd (Err FStatFailed)
      | Ok info =>
          if negb (IsRegular info) then closing fd (Err FNotRegular)
          else if rejectWorldAccessible && WorldAccessible (fi_perm info) then closing fd (Err FWorldAccessible)
          else
          let! r := call (ReadLimit fd (maxBytes + 1)) in
          match r with
          | Err _ => closing fd (Err FRead)
          | Ok data => closing fd (if maxBytes <? slen data then Err FTooLarge else Ok data)
          end
      end
  end.

(* src: internal/securefile/securefile.go Read *)
Definition Read (path : string) (maxBytes : Z) : prog (result read_error string) := read path maxBytes true.
(* src: internal/securefile/securefile.go ReadPublic *)
Definition ReadPublic (path : string) (maxBytes : Z) : prog (result read_error string) := read path maxBytes false.

(** ** Replace *)

Inductive replace_error := RSymlink | RNotRegular | RStat | RCreateTemp | RWrite | RSync | RChmod | RClose | RRename.

(** What the caller's function emits: the chunks it writes, stopping at the
    first write that fails, and whether it then reports an error of its own. *)
Record emission := mkEmission { chunks : list string; e_err : bool }.

Section Replace.
(** The effective group of the process. *)
Variable egid : Z.

(* src: internal/securefile/replace.go dirGroup *)
Definition dirGroup (dir : string) : prog (option Z) :=
  let! r := call (Stat dir) in
  Ret (match r with Ok st => ServiceGroup egid (fi_gid st) | Err _ => None end).

(* src: internal/securefile/replace.go 103-108 replace *)
Definition abort {A} (fd : Z) (tmpName : string) (e : replace_error) : prog (result replace_error A) :=
  let! _ := call (Close fd) in
  let! _ := call (Remove tmpName) in
  Ret (Err e).

(** The owner and the mode of the new file. *)
(* src: internal/securefile/replace.go 110-133 replace *)
Definition adopt (existing : option FileInfo) (fd : Z) (dir : string) (mode clamp : Z) : prog Z :=
  if clamp =? 0 then Ret mode
  else match existing with
  | Some st =>
      let! _ := call (FChown fd (fi_uid st) (fi_gid st)) in
      Ret (Z.land (fi_perm st) clamp)
  | None =>
      let! g := dirGroup dir in
      match g with
      | None => Ret mode
      | Some gid =>
          let! r := call (FChown fd (-1) gid) in
          Ret (if is_ok r then Z.land (Z.lor mode 32) clamp else mode)    (* 0o040 *)
      end
  end.

Fixpoint write_chunks (fd : Z) (l : list string) : prog bool :=
  match l with
  | [] => Ret true
  | c :: l => let! r := call (Write fd c) in if is_ok r then write_chunks fd l else Ret false
  end.

Definition emit (fd : Z) (w : emission) : prog bool :=
  let! ok := write_chunks fd (chunks w) in Ret (ok && negb (e_err w)).

(** From the creation of the temporary file on. *)
(* src: internal/securefile/replace.go 96-164 replace *)
Definition install (existing : option FileInfo) (path : string) (mode clamp : Z) (w : emission) : prog (result replace_error unit) :=
  let dir := Dir path in
  let! r := call (CreateTemp dir (".mellomting-" +:+ Base path +:+ ".tmp-")) in
  match r with
  | Err _ => Ret (Err RCreateTemp)
  | Ok tmp =>
      let! mode := adopt existing tmp.1 dir mode clamp in
      let! ok := emit tmp.1 w in
      if negb ok then abort tmp.1 tmp.2 RWrite
      else
      let! r := call (Sync tmp.1) in
      if negb (is_ok r) then abort tmp.1 tmp.2 RSync
      else
      let! r := call (FChmod tmp.1 mode) in
      if negb (is_ok r) then abort tmp.1 tmp.2 RChmod
      else
      let! r := call (Close tmp.1) in
      if negb (is_ok r) then let! _ := call (Remove tmp.2) in Ret (Err RClose)
      else
      let! r := call (Rename tmp.2 path) in
      if negb (is_ok r) then let! _ := call (Remove tmp.2) in Ret (Err RRename)
      else
      let! _ := call (SyncDir dir) in
      Ret (Ok tt)
  end.

(* src: internal/securefile/replace.go replace *)
Definition replace (path : string) (mode clamp : Z) (w : emission) : prog (result replace_error unit) :=
  let! r := call (Lstat path) in
  match r with
  | Ok existing =>
      if is_link existing then Ret (Err RSymlink)
      else if negb (IsRegular existing) then Ret (Err RNotRegular)
      else install (Some existing) path mode clamp w
  | Err ENOENT => install None path mode clamp w
  | Err _ => Ret (Err RStat)
  end.

(* src: internal/securefile/replace.go Replace *)
Definition Replace (path : string) (mode : Z) (w : emission) : prog (result replace_error unit) := replace path mode 0 w.
(* src: internal/securefile/replace.go ReplacePreservingOwner *)
Definition ReplacePreservingOwner (path : string) (mode clamp : Z) (w : emission) : prog (result replace_error unit) :=
  replace path mode clamp w.
End Replace.

(** ** The temporary file has another name *)

Lemma sdrop_all n s : (String.length s <= n)%nat -> sdrop n s = "".
Proof. revert n. induction s as [|c s IH]; intros [|n] Hn; cbn in *; try done; [lia|]. apply IH. lia. Qed.
Lemma has_suffix_char c a w : contains_char c w = false -> w <> "" -> has_suffix (String c "") (a +:+ w) = false.
Proof.
  intros Hw Hne. unfold has_suffix. apply andb_false_iff. right. cbn [String.length]. rewrite slen_app.
  destruct (String.eqb_spec (sdrop (String.length a + String.length w - 1) (a +:+ w)) (String c "")) as [E|]; [|done]. exfalso.
  replace (String.length a + String.length w - 1)%nat with (String.length a + (String.length w - 1))%nat in E by (destruct w; [done|cbn; lia]).
  assert (forall n, sdrop (String.length a + n) (a +:+ w) = sdrop n w) as Hd by (intros n; clear; induction a; cbn; auto).
  rewrite Hd in E. clear Hd a Hne. revert Hw. induction w as [|x w IH]; [done|]. cbn [contains_char]. intros [Hx Hw]%orb_false_iff. cbn [String.length] in E.
  destruct w as [|y w]; [cbn in E; injection E as ->; by rewrite Ascii.eqb_refl in Hx|].
  apply IH; [|done]. cbn [String.length Nat.sub sdrop] in *. by rewrite Nat.sub_0_r in *.
Qed.

(** A path that does not end in a slash ends in its base. *)
Lemma Base_last path : has_suffix "/" path = false -> path <> "" ->
  contains_char "/"%char (Base path) = false /\ (path = Base path \/ exists l, path = l +:+ String "/" (Base path)).
Proof.
  intros Hs Hne. assert (trim_slashes (String.length path) path = path) as Ht by (destruct path; [done|cbn [String.length trim_slashes]; by rewrite Hs]).
  unfold Base. destruct (String.eqb_spec path "") as [|_]; [done|]. rewrite Ht.
  destruct (cut_last "/"%char path) as [[l b]|] eqn:E.
  - destruct (cut_last_some _ _ _ _ E) as [-> Hb]. destruct (String.eqb_spec b "") as [->|_]; [by rewrite has_suffix_app in Hs|]. eauto.
  - destruct (String.eqb_spec path "") as [|_]; [done|]. split; [|by left]. clear Hs Hne Ht. induction path as [|a s IH]; [done|]. cbn in *.
    destruct (cut_last "/"%char s) as [[??]|]; [done|]. destruct (Ascii.eqb a "/"%char); [done|]. by apply IH.
Qed.

Definition temp_prefix (path : string) : string := ".mellomting-" +:+ Base path +:+ ".tmp-".
Lemma temp_name_ne path dir rnd : contains_char "/"%char rnd = false -> in_dir dir (temp_prefix path +:+ rnd) <> path.
Proof.
  intros Hr E. unfold temp_prefix in E.
  assert (exists a, in_dir dir ((".mellomting-" +:+ Base path +:+ ".tmp-") +:+ rnd) = (a +:+ "/.mellomting-") +:+ Base path +:+ ".tmp-" +:+ rnd) as [a Ha].
  { unfold in_dir. rewrite !sapp_assoc. destruct (has_suffix "/" dir) eqn:Hd.
    - unfold has_suffix in Hd. apply andb_prop in Hd as [Hl Hd]. apply String.eqb_eq in Hd. apply Nat.leb_le in Hl.
      exists (stake (String.length dir - 1) dir). assert (dir = stake (String.length dir - 1) dir +:+ "/") as Hdir.
      { cbn [String.length] in Hd. transitivity (stake (String.length dir - 1) dir +:+ sdrop (String.length dir - 1) dir); [by rewrite stake_sdrop|by rewrite Hd]. }
      rewrite Hdir at 1. by rewrite !sapp_assoc.
    - exists dir. by rewrite !sapp_assoc. }
  rewrite Ha in E. clear Ha. destruct (has_suffix "/" path) eqn:Hs.
  - assert (has_suffix "/" ((((a +:+ "/.mellomting-") +:+ Base path) +:+ ".tmp") +:+ ("-" +:+ rnd)) = false) as Hf by (by apply has_suffix_char).
    rewrite !sapp_assoc in Hf. rewrite !sapp_assoc in E. change (".tmp" +:+ "-" +:+ rnd) with (".tmp-" +:+ rnd) in Hf. rewrite E in Hf. congruence.
  - destruct (Base_last path Hs) as [Hb Hp]; [intros ->; by destruct a|].
    assert (contains_char "/"%char (".mellomting-" +:+ Base path +:+ ".tmp-" +:+ rnd) = false) as Hw by (rewrite !contains_char_app, Hb, Hr; done).
    rewrite sapp_assoc in E. change ("/.mellomting-" +:+ Base path +:+ ".tmp-" +:+ rnd) with (String "/" (".mellomting-" +:+ Base path +:+ ".tmp-" +:+ rnd)) in E.
    pose proof (cut_last_at _ a _ Hw) as Hc. rewrite E in Hc. set (b := Base path) in *. clearbody b. clear E Hs Hw. destruct Hp as [->|[l ->]].
    + by rewrite cut_last_none in Hc.
    + rewrite cut_last_at in Hc by done. injection Hc as _ Hc.
      apply (f_equal String.length) in Hc. cbn in Hc. rewrite !slen_app in Hc. cbn in Hc. lia.
Qed.

(** ** What a replacement does *)

Definition content (w : emission) : string := String.concat "" (chunks w).

Section Atomic.
Variables (egid : Z) (path : string) (mode clamp : Z) (w : emission).

(** The modes the new file may get: never one outside the clamp. *)
Definition mode_allowed (m : Z) : Prop := m = mode \/ (clamp <> 0 /\ Z.land m clamp = m).

(** A mode that gives nothing to anybody but the owner. *)
Definition owner_only (m : Z) : Prop := Z.land m 384 = m.                 (* 0o600 *)
Definition past_private (n : inode) : Prop := Forall (fun x => owner_only x.1.1) (n_past n).

(** A regular file with all of the content, on disk, in its final mode; the
    mode that the disk may still have is that of the temporary file. *)
Definition complete (n : inode) : Prop :=
  n_kind n = KFile /\ n_data n = content w /\ n_synced n = true /\ mode_allowed (n_perm n) /\ past_private n.
Definition is_new (v : host) (k : Z) : Prop := k ∈ h_mine v /\ exists n, h_nodes v !! k = Some n /\ complete n.

(** After a crash: all of the content, in the final mode or in that of the
    temporary file. *)
Definition intact (n' : inode) : Prop :=
  n_kind n' = KFile /\ n_data n' = content w /\ (mode_allowed (n_perm n') \/ owner_only (n_perm n')).

Lemma complete_intact n n' : complete n -> crash_node n n' -> intact n'.
Proof.
  intros (Hk & Hd & Hs & Hm & Hp) [Hk' Hc]. destruct (Hc Hs) as [Hd' Hmeta]. split; [congruence|]. split; [congruence|].
  apply elem_of_cons in Hmeta as [E|Hin]; [left; injection E as E _ _; by rewrite E|right].
  unfold past_private in Hp. rewrite Forall_forall in Hp. exact (Hp _ Hin).
Qed.

(** What the others do, [I]; what they keep true of the path and of the file
    there, [Old], until the program replaces it; and what the tables of paths
    have at the path meanwhile, [Was]. *)
Variable I : host -> host -> Prop.
Variable Old : host -> Prop.
Variable Was : option Z -> Prop.
Definition same_entry (v v' : host) : Prop :=
  h_names v' !! path = h_names v !! path /\ forall k, h_names v !! path = Some k -> h_nodes v' !! k = h_nodes v !! k.
(** And the new tables have the entry, too. *)
Definition same_history (v v' : host) : Prop := forall d, d ∈ h_hist v' -> d ∈ h_hist v \/ d !! path = h_names v !! path.
Hypothesis I_interferes : forall v v', I v v' -> interferes v v'.
Hypothesis I_Old : forall v v', I v v' -> Old v -> Old v'.
Hypothesis Old_entry : forall v v', same_entry v v' -> same_history v v' -> Old v -> Old v'.
Hypothesis Old_Was : forall v d, Old v -> d ∈ h_hist v -> Was (d !! path).
Notation always := (Prog.always I behaves).

(** In every table of paths that may be on disk, the path is as others have
    it or leads to the complete new file. *)
Definition replace_safe (v : host) : Prop :=
  forall d, d ∈ h_hist v -> (Was (d !! path) /\ forall k, d !! path = Some k -> k ∉ h_mine v) \/ exists k, d !! path = Some k /\ is_new v k.

Lemma new_intact v k : is_new v k -> exists n, h_nodes v !! k = Some n /\ forall n', crash_node n n' -> intact n'.
Proof. intros (_ & n & Hn & Hc). exists n. split; [done|]. intros n'. by apply complete_intact. Qed.

(** And now it leads to the old file or to the new one. *)
Definition not_ours (v : host) : Prop := forall k, h_names v !! path = Some k -> k ∉ h_mine v.
Definition steady (v : host) : Prop := replace_safe v /\ ((Old v /\ not_ours v) \/ exists k, h_names v !! path = Some k /\ is_new v k).

(** A crash leaves the path as it is. *)
Definition durable (v : host) : Prop := forall d, d ∈ h_hist v -> d !! path = h_names v !! path.

(** No name of ours is left. *)
Definition nothing_left (v : host) : Prop := forall p k, h_names v !! p = Some k -> k ∉ h_mine v.

Definition replace_ended (f0 : nat) (r : result replace_error unit) (v : host) : Prop :=
  replace_safe v /\
  match r with
  | Ok _ => e_err w = false /\ ((h_fails v <= f0)%nat -> durable v) /\ exists k, h_names v !! path = Some k /\ is_new v k /\ forall p j, h_names v !! p = Some j -> j ∈ h_mine v -> p = path
  | Err e =>
      Old v /\ (forall k, h_names v !! path = Some k -> k ∉ h_mine v) /\
      ((h_fails v <= f0 + (if e_err w then 0 else 1))%nat -> nothing_left v) /\
      ((h_fails v <= f0)%nat -> e = RSymlink \/ e = RNotRegular \/ (e = RWrite /\ e_err w = true))
  end.

(** The state while the temporary file [k] is at [name], open at [fd] or
    closed, and [f] operations at most have failed. *)
Record working (f : nat) (name : string) (fd : option Z) (k : Z) (n : inode) (v : host) : Prop := {
  t_mine : h_mine v = {[k]};
  t_name : h_names v !! name = Some k;
  t_only : forall p, h_names v !! p = Some k -> p = name;
  t_ne : name <> path;
  t_fd : forall x, fd = Some x -> h_fds v !! x = Some k;
  t_node : h_nodes v !! k = Some n;
  t_hist : forall d, d ∈ h_hist v -> d !! path <> Some k;
  t_fails : h_fails v = f;
  t_old : Old v
}.

Lemma working_safe f name fd k n v : working f name fd k n v -> replace_safe v.
Proof. intros [Hm _ _ _ _ _ Hh _ HO] d Hd. left. split; [by eapply Old_Was|]. intros j Hj. rewrite Hm, elem_of_singleton. intros ->. by apply (Hh d). Qed.

Lemma working_steady f name fd k n v : working f name fd k n v -> steady v.
Proof.
  intros Hw. split; [by eapply working_safe|]. left. split; [by eapply t_old|]. destruct Hw as [Hm _ Ho Hne _ _ _ _ _]. intros j Hj.
  rewrite Hm, elem_of_singleton. intros ->. apply Hne. symmetry. by apply Ho.
Qed.

Lemma working_interferes f name fd k n v v' : working f name fd k n v -> I v v' -> working f name fd k n v'.
Proof.
  intros [Hm Hn Ho Hne Hf Hk Hh Hfl HO] HI. pose proof (I_Old _ _ HI HO) as HO'. destruct (I_interferes _ _ HI) as (d & nodes & -> & Hd & Hnodes).
  assert (k ∈ h_mine v) as Hin by (by rewrite Hm, elem_of_singleton).
  constructor; cbn; try done.
  - by apply Hd.
  - intros p Hp. apply Ho. by apply Hd.
  - by rewrite Hnodes.
  - intros d' [->|Hd']%elem_of_cons Hp; [|by apply (Hh d')]. apply Hne. symmetry. apply Ho. by apply Hd.
Qed.

Lemma working_on_fd f name fd k n v v' g : working f name (Some fd) k n v -> on_fd v v' fd g -> working f name (Some fd) k (g n) v'.
Proof.
  intros [Hm Hn Ho Hne Hf Hk Hh Hfl HO] (k' & n' & Hf' & Hk' & ->). rewrite (Hf fd eq_refl) in Hf'. injection Hf' as <-. rewrite Hk in Hk'. injection Hk' as <-.
  constructor; cbn; try done; [by rewrite lookup_insert_eq|]. eapply Old_entry, HO; [|by left]. split; [done|]. intros j Hj. cbn. apply lookup_insert_ne. intros ->.
  apply Hne. symmetry. by apply Ho.
Qed.

Lemma working_fault f name fd k n v : working f name fd k n v -> working (S f) name fd k n (fault v).
Proof. intros [? ? ? ? ? ? ? <- HO]. constructor; cbn; try done. eapply Old_entry, HO; [done|by left]. Qed.

Lemma working_close f name fd k n v : working f name (Some fd) k n v -> working f name None k n (close_fd fd v).
Proof. intros [? ? ? ? ? ? ? <- HO]. constructor; cbn; try done. eapply Old_entry, HO; [done|by left]. Qed.
Lemma working_drop f name fd k n v : working f name fd k n v -> working f name None k n v.
Proof. intros [? ? ? ? ? ? ? <- HO]. by constructor. Qed.

(** The temporary file is removed, or its removal fails. *)
Lemma remove_spec f name fd k n v (Q : result errno unit -> host -> Prop) : working f name fd k n v ->
  (forall r v', replace_safe v' -> Old v' -> (forall j, h_names v' !! path = Some j -> j ∉ h_mine v') ->
     (nothing_left v' /\ h_fails v' = f) \/ h_fails v' = S f -> Q r v') ->
  always steady Q (call (Remove name)) v.
Proof.
  intros Hw HQ v1 r v2 Hi Hb. pose proof (working_interferes _ _ _ _ _ _ _ Hw Hi) as Hw1. clear Hw Hi.
  pose proof (working_fault _ _ _ _ _ _ Hw1) as Hw2. pose proof (working_safe _ _ _ _ _ _ Hw2) as Hs2.
  pose proof (working_safe _ _ _ _ _ _ Hw1) as Hs1. pose proof (t_old _ _ _ _ _ _ Hw2) as HO2. destruct Hw1 as [Hm Hn Ho Hne _ Hk Hh Hfl HO].
  assert (forall j, h_names v1 !! path = Some j -> j ∉ h_mine v1) as Hp.
  { intros j Hj. rewrite Hm, elem_of_singleton. intros ->. apply Hne. symmetry. by apply Ho. }
  assert (v2 = set_names (delete name (h_names v1)) v1 \/ v2 = fault v1) as [->| ->].
  { destruct r as [[]|[]]; cbn in Hb; [left; apply Hb|exfalso; destruct Hb; congruence|by right..]. }
  - assert (Old (set_names (delete name (h_names v1)) v1)) as HO1.
    { eapply Old_entry, HO; [split; [cbn; by rewrite lookup_delete_ne|done]|]. intros d [->|Hd]%elem_of_cons; [right; by apply lookup_delete_ne|by left]. }
    assert (replace_safe (set_names (delete name (h_names v1)) v1)) as Hs.
    { intros d Hd. apply elem_of_cons in Hd as Hd'. destruct Hd' as [->|Hd']; [left|by apply (Hs1 d)]. split; [eapply Old_Was; [exact HO1|by left]|].
      intros j [_ Hj]%lookup_delete_Some. by apply Hp. }
    assert (not_ours (set_names (delete name (h_names v1)) v1)) as Hno by (intros j Hj; cbn in Hj; apply lookup_delete_Some in Hj as [_ Hj]; by apply Hp).
    split; [split; [done|by left]|]. apply HQ; [done|done|done|..].
    + left. split; [|done]. intros p j. cbn. rewrite Hm, elem_of_singleton. intros [Hne' Hj]%lookup_delete_Some ->. apply Hne'. symmetry. by apply Ho.
  - split; [split; [done|by left]|]. apply HQ; [done|done|done|]. right. cbn. by rewrite Hfl.
Qed.

Section Run.
(** The operations that had failed before. *)
Variable f0 : nat.
Notation ended := (replace_ended f0).

(** An error after [f] failures. *)
Definition excused (f : nat) (e : replace_error) : Prop := (S f0 <= f)%nat \/ (f0 <= f)%nat /\ e_err w = true /\ e = RWrite.

Lemma remove_ended f name fd k n v e : working f name fd k n v -> excused f e ->
  always steady ended (let! _ := call (Remove name) in Ret (Err e)) v.
Proof.
  intros Hw He. apply always_bind, (remove_spec _ _ _ _ _ _ _ Hw). intros r v' Hs HO Hp Hr. split; [done|]. split; [done|]. split; [done|].
  destruct Hr as [[Hn <-]|Hf]; destruct He as [He|(He & -> & ->)]; split; intros Hle; try done; try lia; auto.
  destruct (e_err w); lia.
Qed.

Lemma abort_ended f name fd k n v e : working f name (Some fd) k n v -> excused f e -> always steady ended (abort fd name e) v.
Proof.
  intros Hw He v1 r v2 Hi Hb. pose proof (working_interferes _ _ _ _ _ _ _ Hw Hi) as Hw1.
  assert (exists f', working f' name None k n v2 /\ (f <= f')%nat) as (f' & Hw2 & Hf').
  { destruct r as [[]|]; cbn in Hb.
    - subst. exists f. split; [by eapply working_close|done].
    - exists (S f). split; [|lia]. destruct Hb as [-> | ->]; apply working_fault; [by eapply working_drop|by eapply working_close]. }
  split; [by eapply working_steady|]. apply (remove_ended f' name None k n); [done|]. destruct He as [|(? & ? & ?)]; [left; lia|right; split; [lia|done]].
Qed.

(** An operation on the temporary file. *)
Lemma fd_op_spec {T} (o : op) (g : T -> inode -> inode) f name fd k n v (Q : answer o -> host -> Prop) : working f name (Some fd) k n v ->
  (forall v1 r v2, behaves o v1 r v2 -> (is_ok r = true /\ exists x, on_fd v1 v2 fd (g x)) \/
     (is_ok r = false /\ exists v3, (v3 = v1 \/ exists x, on_fd v1 v3 fd x) /\ v2 = fault v3)) ->
  (forall r v', is_ok r = true -> (exists x, working f name (Some fd) k (g x n) v') -> Q r v') ->
  (forall r v' n', is_ok r = false -> working (S f) name (Some fd) k n' v' -> Q r v') ->
  always steady Q (call o) v.
Proof.
  intros Hw Ho Hok Herr v1 r v2 Hi Hb. pose proof (working_interferes _ _ _ _ _ _ _ Hw Hi) as Hw1.
  destruct (Ho v1 r v2 Hb) as [[Hr [x Hx]]|(Hr & v3 & H3 & ->)].
  - pose proof (working_on_fd _ _ _ _ _ _ _ _ Hw1 Hx) as Hw2. split; [by eapply working_steady|]. apply Hok; eauto.
  - assert (exists n', working f name (Some fd) k n' v3) as [n' Hw3].
    { destruct H3 as [->|(x & Hx)]; [by exists n|]. exists (x n). by eapply working_on_fd. }
    apply working_fault in Hw3. split; [by eapply working_steady|]. by eapply Herr.
Qed.

(** The file while it is written: [done] of the content, nobody else's to
    read. *)
Definition being_written (done : string) (n : inode) : Prop := n_kind n = KFile /\ n_data n = done /\ owner_only (n_perm n) /\ past_private n.

Lemma write_chunks_spec fd name k l : forall f done n v (Q : bool -> host -> Prop),
  working f name (Some fd) k n v -> being_written done n ->
  (forall n' v', working f name (Some fd) k n' v' -> being_written (done +:+ String.concat "" l) n' -> Q true v') ->
  (forall n' v', working (S f) name (Some fd) k n' v' -> Q false v') ->
  always steady Q (write_chunks fd l) v.
Proof.
  induction l as [|c l IH]; intros f done n v Q Hw (Hk & Hd & Hpr) Hok Herr; cbn [write_chunks].
  - eapply Hok; [done|]. split; [done|]. split; [|done]. cbn. by rewrite sapp_nil_r.
  - apply always_bind, (fd_op_spec (Write fd c) (appended c) f name fd k n v); [done|..].
    + intros v1 [[]|e] v2; cbn; [left; auto|right]. split; [done|]. destruct H as [->|(m & t & v3 & H3 & ->)]; eauto 6.
    + intros [[]|e] v' Hr [t Hw']; [cbn [is_ok]|done]. eapply (IH f (done +:+ c)); [done|split; [done|]; split; [by cbn; rewrite Hd|done]| |done].
      intros n' v2 Hw2 Hn'. eapply Hok; [done|]. destruct l; cbn in *; [by rewrite sapp_nil_r in Hn'|]. by rewrite sapp_assoc in Hn'.
    + intros [[]|e] v' n' Hr Hw'; [done|]. by eapply Herr.
Qed.

(** Operations that only look. *)
Lemma look_spec (o : op) f name fd k n v (Q : answer o -> host -> Prop) : working f name fd k n v ->
  (forall v1 r v2, behaves o v1 r v2 -> v2 = v1) -> (forall r v', working f name fd k n v' -> Q r v') -> always steady Q (call o) v.
Proof.
  intros Hw Ho HQ v1 r v2 Hi Hb. apply Ho in Hb as ->. pose proof (working_interferes _ _ _ _ _ _ _ Hw Hi) as Hw1. split; [by eapply working_steady|by apply HQ].
Qed.

Lemma chown_spec f name fd k n v uid gid done (Q : result errno unit -> host -> Prop) : working f name (Some fd) k n v -> being_written done n ->
  (forall r f' n' v', (f <= f')%nat -> working f' name (Some fd) k n' v' -> being_written done n' -> Q r v') ->
  always steady Q (call (FChown fd uid gid)) v.
Proof.
  intros Hw Hn HQ v1 r v2 Hi Hb. pose proof (working_interferes _ _ _ _ _ _ _ Hw Hi) as Hw1. destruct r as [[]|e]; cbn in Hb.
  - pose proof (working_on_fd _ _ _ _ _ _ _ _ Hw1 Hb) as Hw2. split; [by eapply working_steady|]. eapply HQ; [..|exact Hw2|]; [done|].
    destruct Hn as (Hk & Hd & Hm & Hp). split; [done|]. split; [done|]. split; [done|]. by constructor.
  - subst v2. apply working_fault in Hw1. split; [by eapply working_steady|]. eapply HQ; [|exact Hw1|exact Hn]. lia.
Qed.

Lemma adopt_spec existing fd dir f name k n v (Q : Z -> host -> Prop) : working f name (Some fd) k n v -> being_written "" n ->
  (forall m f' n' v', mode_allowed m -> (f <= f')%nat -> working f' name (Some fd) k n' v' -> being_written "" n' -> Q m v') ->
  always steady Q (adopt egid existing fd dir mode clamp) v.
Proof.
  intros Hw Hn HQ. assert (mode_allowed mode) as Hmode by (by left). unfold adopt. destruct (Z.eqb_spec clamp 0) as [|Hc]; [by eapply HQ|].
  assert (forall m, mode_allowed (Z.land m clamp)) as Hclamp by (intros m; right; split; [done|by rewrite <- Z.land_assoc, Z.land_diag]).
  destruct existing as [st|].
  - apply always_bind. eapply chown_spec; [done..|]. intros r f' n' v' Hf Hw' Hn'. by eapply HQ.
  - apply always_bind. unfold dirGroup. apply always_bind. eapply look_spec; [done|by intros v1 [?|?] v2; cbn; [intros [_ ->]|intros ->]|].
    intros r v' Hw'. cbn [always]. 
    match goal with |- context [match ?x with Some _ => _ | None => _ end] => destruct x as [gid|] end; [|by eapply HQ].
    apply always_bind. eapply chown_spec; [done..|]. intros r' f' n' v2 Hf Hw2 Hn'. eapply HQ; [|done..]. destruct r'; [apply Hclamp|done].
Qed.

Definition fresh (f : nat) (v : host) : Prop := h_mine v = ∅ /\ h_fails v = f /\ Old v.
Lemma fresh_interferes f v v' : fresh f v -> I v v' -> fresh f v'.
Proof. intros (Hm & Hf & HO) HI. pose proof (I_Old _ _ HI HO) as HO'. destruct (I_interferes _ _ HI) as (d & nodes & -> & _). by split. Qed.
Lemma fresh_fault f v : fresh f v -> fresh (S f) (fault v).
Proof. intros (Hm & Hf & HO). split; [done|]. split; [cbn; by rewrite Hf|eapply Old_entry, HO; [done|by left]]. Qed.
Lemma fresh_safe f v : fresh f v -> replace_safe v.
Proof. intros (Hm & _ & HO) d Hd. left. split; [by eapply Old_Was|]. intros k _. rewrite Hm. apply not_elem_of_empty. Qed.
Lemma fresh_steady f v : fresh f v -> steady v.
Proof.
  intros Hv. split; [by eapply fresh_safe|]. left. split; [apply Hv|]. destruct Hv as (Hm & _). intros k _. rewrite Hm. apply not_elem_of_empty.
Qed.
Lemma fresh_ended f v e : fresh f v -> (S f0 <= f)%nat \/ (f0 <= f)%nat /\ (e = RSymlink \/ e = RNotRegular) -> ended (Err e) v.
Proof.
  intros Hv He. split; [by eapply fresh_safe|]. destruct Hv as (Hm & Hf & HO). assert (nothing_left v) as Hn by (intros p k _; rewrite Hm; apply not_elem_of_empty).
  split; [done|]. split; [intros k; apply Hn|]. split; [done|]. intros Hle. destruct He as [He|[_ [-> | ->]]]; [lia|auto..].
Qed.

(** Published. *)
Lemma rename_spec f name k n v (Q : result errno unit -> host -> Prop) : working f name None k n v -> complete n ->
  (forall v', replace_safe v' -> h_mine v' = {[k]} -> h_names v' !! path = Some k -> (forall p, h_names v' !! p = Some k -> p = path) ->
     h_nodes v' !! k = Some n -> h_fails v' = f -> Q (Ok tt) v') ->
  (forall e v', working (S f) name None k n v' -> Q (Err e) v') ->
  always steady Q (call (Rename name path)) v.
Proof.
  intros Hw Hn Hok Herr v1 r v2 Hi Hb. pose proof (working_interferes _ _ _ _ _ _ _ Hw Hi) as Hw1. destruct r as [[]|e]; cbn in Hb.
  - destruct Hb as (k' & Hk' & ->). pose proof (working_safe _ _ _ _ _ _ Hw1) as Hs1. destruct Hw1 as [Hm Hnm Ho Hne _ Hk Hh Hfl _]. assert (k' = k) as -> by congruence.
    rewrite decide_False by (intros E; by apply Hne; symmetry; apply Ho).
    assert (is_new (set_names (<[path:=k]> (delete name (h_names v1))) v1) k) as Hnew by (split; [cbn; rewrite Hm; by apply elem_of_singleton|by exists n]).
    assert (replace_safe (set_names (<[path:=k]> (delete name (h_names v1))) v1)) as Hs.
    { intros d [->|Hd]%elem_of_cons; [right|by apply (Hs1 d)]. exists k. by rewrite lookup_insert_eq. }
    split; [split; [done|right; exists k; split; [cbn; by rewrite lookup_insert_eq|done]]|]. apply Hok; [done|done|by cbn; rewrite lookup_insert_eq| |done|done].
    cbn. intros p Hp. destruct (decide (p = path)) as [|Hpp]; [done|]. rewrite lookup_insert_ne in Hp by done. apply lookup_delete_Some in Hp as [Hp1 Hp].
    destruct Hp1. symmetry. by apply Ho.
  - subst v2. apply working_fault in Hw1. split; [by eapply working_steady|]. by apply Herr.
Qed.

(** The new file is in place, and stays. *)
Definition placed (v : host) : Prop :=
  exists k n, h_mine v = {[k]} /\ h_names v !! path = Some k /\ (forall p, h_names v !! p = Some k -> p = path) /\
    h_nodes v !! k = Some n /\ complete n /\ replace_safe v.

Lemma placed_interferes v v' : placed v -> I v v' -> placed v'.
Proof.
  intros (k & n & Hm & Hp & Ho & Hk & Hn & Hs) (d & nodes & -> & Hd & Hnodes)%I_interferes. assert (k ∈ h_mine v) as Hin by (rewrite Hm; by apply elem_of_singleton).
  exists k, n. split; [done|]. split; [by apply Hd|]. split; [intros p Hpp; apply Ho; by apply Hd|]. split; [cbn; by rewrite Hnodes|]. split; [done|].
  intros d' [->|Hd']%elem_of_cons; cbn.
  - right. exists k. split; [by apply Hd|]. split; [done|]. exists n. cbn. by rewrite Hnodes.
  - destruct (Hs d' Hd') as [Hl|(j & Hj & Hl & m & Hjm & Hc)]; [by left|right]. exists j. split; [done|]. split; [done|]. exists m. cbn. by rewrite Hnodes.
Qed.

Lemma placed_fault v : placed v -> placed (fault v).
Proof. done. Qed.

Lemma settle_entry d now h p : settle d now h !! p = now !! p \/ settle d now h !! p = h !! p.
Proof.
  unfold settle. destruct (decide (Dir p = d)) as [E|E]; [left|right]; rewrite lookup_union, !map_lookup_filter.
  - destruct (now !! p), (h !! p); cbn; rewrite ?option_guard_True by done; rewrite ?(option_guard_False (Dir p <> d)) by (intros Hx; by apply Hx); done.
  - destruct (now !! p), (h !! p); cbn; rewrite ?(option_guard_False (Dir p = d)) by done; rewrite ?(option_guard_True (Dir p <> d)) by done; done.
Qed.

Lemma settle_here now h p : settle (Dir p) now h !! p = now !! p.
Proof.
  unfold settle. rewrite lookup_union, !map_lookup_filter.
  destruct (now !! p), (h !! p); cbn; rewrite ?option_guard_True by done; rewrite ?(option_guard_False (Dir p <> Dir p)) by (intros Hx; by apply Hx); done.
Qed.

Lemma placed_sync v dir : placed v -> placed (set_hist (map (settle dir (h_names v)) (h_hist v)) v).
Proof.
  intros (k & n & Hm & Hp & Ho & Hk & Hn & Hs). exists k, n. split; [done|]. split; [done|]. split; [done|]. split; [done|]. split; [done|]. intros d Hd. cbn in Hd.
  apply list_elem_of_fmap in Hd as (d0 & -> & Hd0). destruct (settle_entry dir (h_names v) d0 path) as [E|E]; rewrite E; [|by apply (Hs d0)].
  right. exists k. split; [done|]. split; [cbn; rewrite Hm; by apply elem_of_singleton|by exists n].
Qed.

Lemma placed_steady v : placed v -> steady v.
Proof. intros (k & n & Hm & Hp & Ho & Hk & Hn & Hs). split; [done|]. right. exists k. split; [done|]. split; [rewrite Hm; by apply elem_of_singleton|by exists n]. Qed.
Lemma placed_ended v : placed v -> e_err w = false -> ((h_fails v <= f0)%nat -> durable v) -> ended (Ok tt) v.
Proof.
  intros (k & n & Hm & Hp & Ho & Hk & Hn & Hs) He Hd. split; [done|]. split; [done|]. split; [done|]. exists k. split; [done|]. split; [split; [rewrite Hm; by apply elem_of_singleton|by exists n]|].
  intros p j Hj. rewrite Hm, elem_of_singleton. intros ->. by apply Ho.
Qed.

(** Every state has a table of paths, newest first, that is the present one;
    [CreateTemp] finds a name no table knows. *)
Lemma create_spec v v1 v2 fd name : fresh f0 v -> I v v1 -> behaves (CreateTemp (Dir path) (temp_prefix path)) v1 (Ok (fd, name)) v2 ->
  exists k n, working f0 name (Some fd) k n v2 /\ being_written "" n.
Proof.
  intros Hv Hi (k & n & rnd & h1 & -> & Hr & Hk & Hpm & Hd & Hpa & (Hn & (_ & _ & Hu1 & Hu2) & ->) & _ & ->).
  destruct (fresh_interferes _ _ _ Hv Hi) as (Hm & Hf & HO). pose proof (temp_name_ne path (Dir path) rnd Hr) as Hne. exists k, n.
  split; [|split; [done|split; [done|split; [done|]]]; unfold past_private; rewrite Hpa; constructor]. constructor; cbn; try done.
  - rewrite Hm. apply union_empty_r_L.
  - by rewrite lookup_insert_eq.
  - intros p Hp. destruct (decide (p = in_dir (Dir path) (temp_prefix path +:+ rnd))) as [|Hpp]; [done|]. rewrite lookup_insert_ne in Hp by done. by destruct (Hu1 p).
  - intros x [= <-]. by rewrite lookup_insert_eq.
  - by rewrite lookup_insert_eq.
  - intros d [->|Hd']%elem_of_cons; [rewrite lookup_insert_ne by done; apply Hu1|by apply Hu2].
  - eapply Old_entry, HO.
    + split; [cbn; by rewrite lookup_insert_ne|]. intros j Hj. cbn. apply lookup_insert_ne. intros ->. by destruct (Hu1 path).
    + intros d [->|Hd']%elem_of_cons; [right; by apply lookup_insert_ne|by left].
Qed.

Lemma publish_ended f name k n v : working f name None k n v -> (f0 <= f)%nat -> complete n -> e_err w = false ->
  always steady ended (let! r := call (Rename name path) in
    if negb (is_ok r) then let! _ := call (Remove name) in Ret (Err RRename) else let! _ := call (SyncDir (Dir path)) in Ret (Ok tt)) v.
Proof.
  intros Hw Hf Hn He. apply always_bind, (rename_spec f name k n); [done|done|..].
  - intros v' Hs Hm Hp Ho Hk Hfl. cbn [is_ok negb]. assert (placed v') as Hpl by (by exists k, n).
    intros v1 r v2 Hi Hb. pose proof (placed_interferes _ _ Hpl Hi) as Hp1. assert (placed v2) as Hp2.
    { destruct r as [[]|e]; cbn in Hb; subst v2; [by apply placed_sync|done]. }
    split; [by apply placed_steady|]. apply placed_ended; [done|done|].
    destruct r as [[]|e]; cbn in Hb; subst v2; cbn.
    + intros _ d Hd. apply list_elem_of_fmap in Hd as (d0 & -> & _). by apply settle_here.
    + apply I_interferes in Hi as (d & nodes & -> & _). cbn. lia.
  - intros e v' Hw'. cbn [is_ok negb]. apply (remove_ended (S f) name None k n); [done|left; lia].
Qed.

Lemma finish_ended f name fd k n m v : working f name (Some fd) k n v -> (f0 <= f)%nat -> being_written (content w) n -> mode_allowed m -> e_err w = false ->
  always steady ended (
    let! r := call (Sync fd) in
    if negb (is_ok r) then abort fd name RSync
    else let! r := call (FChmod fd m) in
    if negb (is_ok r) then abort fd name RChmod
    else let! r := call (Close fd) in
    if negb (is_ok r) then let! _ := call (Remove name) in Ret (Err RClose)
    else let! r := call (Rename name path) in
    if negb (is_ok r) then let! _ := call (Remove name) in Ret (Err RRename) else let! _ := call (SyncDir (Dir path)) in Ret (Ok tt)) v.
Proof.
  intros Hw Hf (Hk & Hd & Hpm & Hpa) Hm He. assert (forall e, excused (S f) e) as Hex by (left; lia).
  apply always_bind, (fd_op_spec (Sync fd) (fun _ : unit => synced) f name fd k n); [done| | |].
  { intros v1 [[]|e] v2; cbn; [left; split; [done|by exists tt]|right; eauto]. }
  2: { intros [[]|e] v' n' Hr Hw'; [done|]. cbn [is_ok negb]. by eapply abort_ended. }
  intros [[]|e] v' Hr [_ Hw']; [cbn [is_ok negb]|done].
  apply always_bind, (fd_op_spec (FChmod fd m) (fun _ : unit => with_perm m) f name fd k (synced n)); [done| | |].
  { intros v1 [[]|e] v2; cbn; [left; split; [done|by exists tt]|right; eauto]. }
  2: { intros [[]|e] v2 n' Hr2 Hw2; [done|]. cbn [is_ok negb]. by eapply abort_ended. }
  intros [[]|e] v2 Hr2 [_ Hw2]; [cbn [is_ok negb]|done].
  intros v3 r v4 Hi Hb. pose proof (working_interferes _ _ _ _ _ _ _ Hw2 Hi) as Hw3. destruct r as [[]|e]; cbn in Hb.
  - subst v4. apply working_close in Hw3. split; [by eapply working_steady|]. cbn [is_ok negb bind]. apply (publish_ended f name k (with_perm m (synced n))); [done|done| |done].
    split; [done|]. split; [done|]. split; [done|]. split; [done|]. by constructor.
  - assert (working (S f) name None k (with_perm m (synced n)) v4) as Hw4 by (destruct Hb as [-> | ->]; apply working_fault; [by eapply working_drop|by eapply working_close]).
    split; [by eapply working_steady|]. cbn [is_ok negb bind]. by eapply remove_ended.
Qed.

Lemma install_spec existing v : fresh f0 v -> always steady ended (install egid existing path mode clamp w) v.
Proof.
  intros Hv. unfold install. fold (temp_prefix path). apply always_bind. intros v1 r v2 Hi Hb. destruct r as [[fd name]|e].
  2: { cbn in Hb. subst v2. pose proof (fresh_fault _ _ (fresh_interferes _ _ _ Hv Hi)) as Hv2.
       split; [by eapply fresh_steady|]. cbn [always]. by eapply fresh_ended; [exact Hv2|left]. }
  destruct (create_spec _ _ _ _ _ Hv Hi Hb) as (k & n & Hw & Hn). split; [by eapply working_steady|]. cbn [always fst snd].
  apply always_bind. eapply adopt_spec; [done..|]. intros m f n1 v3 Hm Hf Hw3 Hn1. apply always_bind. unfold emit. apply always_bind.
  eapply (write_chunks_spec fd name k (chunks w) f "" n1); [done..| |].
  - intros n2 v4 Hw4 Hn2. cbn [always String.append andb]. destruct (e_err w) eqn:He; cbn [negb]; [eapply abort_ended; [done|right; auto]|].
    by eapply finish_ended.
  - intros n2 v4 Hw4. cbn [always andb negb]. eapply abort_ended; [done|left; lia].
Qed.

Lemma replace_spec v : fresh f0 v -> always steady ended (replace egid path mode clamp w) v.
Proof.
  intros Hv v1 r v2 Hi Hb. pose proof (fresh_interferes _ _ _ Hv Hi) as Hv1. pose proof (fresh_fault _ _ Hv1) as Hv2.
  destruct r as [st|[]]; cbn in Hb; [destruct Hb as [_ ->]|destruct Hb as [_ ->]|subst v2..].
  - split; [by eapply fresh_steady|]. cbn [bind]. destruct (is_link st); [eapply fresh_ended; [exact Hv1|auto]|].
    destruct (IsRegular st); cbn [negb]; [by apply install_spec|eapply fresh_ended; [exact Hv1|auto]].
  - split; [by eapply fresh_steady|]. by apply install_spec.
  - split; [by eapply fresh_steady|]. eapply fresh_ended; [exact Hv2|by left].
  - split; [by eapply fresh_steady|]. eapply fresh_ended; [exact Hv2|by left].
  - split; [by eapply fresh_steady|]. eapply fresh_ended; [exact Hv2|by left].
  - split; [by eapply fresh_steady|]. eapply fresh_ended; [exact Hv2|by left].
Qed.
End Run.
End Atomic.

(** The others leave the path and the file there alone. *)
Definition respects (path : string) (v v' : host) : Prop := interferes v v' /\ same_entry path v v'.
Definition kept (path : string) (v0 v : host) : Prop := same_entry path v0 v.

Lemma same_entry_trans path v1 v2 v3 : same_entry path v1 v2 -> same_entry path v2 v3 -> same_entry path v1 v3.
Proof. intros [H1 H2] [H3 H4]. split; [congruence|]. intros k Hk. rewrite H4 by congruence. by apply H2. Qed.
Lemma respects_interferes path v v' : respects path v v' -> interferes v v'.
Proof. by intros []. Qed.
Lemma respects_kept path v0 v v' : respects path v v' -> kept path v0 v -> kept path v0 v'.
Proof. intros [_ H] Hk. by eapply same_entry_trans. Qed.
Lemma kept_entry path v0 v v' : same_entry path v v' -> same_history path v v' -> kept path v0 v -> kept path v0 v'.
Proof. intros H _ Hk. by eapply same_entry_trans. Qed.

(** What others do elsewhere changes neither. *)
Lemma is_new_interferes mode clamp w v v' k : interferes v v' -> is_new mode clamp w v k -> is_new mode clamp w v' k.
Proof. intros (d & nodes & -> & _ & Hn) [Hm (n & Hk & Hc)]. split; [done|]. exists n. cbn. by rewrite Hn. Qed.
Lemma steady_respects path mode clamp w v0 v v' : steady path mode clamp w (kept path v0) (fun _ => True) v -> respects path v v' ->
  steady path mode clamp w (kept path v0) (fun _ => True) v'.
Proof.
  intros [Hs Hn] Hr. assert ((kept path v0 v' /\ not_ours path v') \/ exists k, h_names v' !! path = Some k /\ is_new mode clamp w v' k) as Hn'.
  { destruct Hn as [[Hk Ho]|(k & Hk & Hnew)]; [left|right].
    - split; [by eapply respects_kept|]. destruct Hr as [(d & nodes & -> & _) [He _]]. intros k. cbn in *. rewrite He. apply Ho.
    - exists k. destruct Hr as [Hi [He _]]. split; [congruence|by eapply is_new_interferes]. }
  split; [|done]. intros d Hd. assert (d ∈ h_hist v \/ d = h_names v') as [Hin| ->].
  { destruct Hr as [(d' & nodes & -> & _) _]. cbn in Hd. apply elem_of_cons in Hd as [->|Hd]; auto. }
  - destruct (Hs d Hin) as [[_ H]|(k & Hk & Hnew)]; [left|right].
    + split; [done|]. by destruct Hr as [(d' & nodes & -> & _) _].
    + exists k. split; [done|]. eapply is_new_interferes; [apply Hr|done].
  - destruct Hn' as [[_ Ho]|H]; [left; by split|by right].
Qed.

(** And no table of paths has had anything else there. *)
Definition kept_durably (path : string) (v0 v : host) : Prop := kept path v0 v /\ forall d, d ∈ h_hist v -> d !! path = h_names v0 !! path.
Lemma respects_durably path v0 v v' : respects path v v' -> kept_durably path v0 v -> kept_durably path v0 v'.
Proof.
  intros Hr [Hk Hd]. split; [by eapply respects_kept|]. destruct Hr as [(d & nodes & -> & _) [He _]]. destruct Hk as [Hk _]. cbn in *.
  intros d' [->|Hd']%elem_of_cons; [congruence|by apply Hd].
Qed.
Lemma durably_entry path v0 v v' : same_entry path v v' -> same_history path v v' -> kept_durably path v0 v -> kept_durably path v0 v'.
Proof.
  intros He Hh [Hk Hd]. split; [by eapply same_entry_trans|]. intros d [Hin|E]%Hh; [by apply Hd|]. destruct Hk as [Hk _]. congruence.
Qed.

(** The new file is at the path. *)
Definition new_at (path : string) (mode clamp : Z) (w : emission) (v : host) : Prop := exists k, h_names v !! path = Some k /\ is_new mode clamp w v k.
(** In a table of paths that a crash leaves, the path leads to the new file,
    with all of its content. *)
Definition new_after (path : string) (mode clamp : Z) (w : emission) (v : host) (d : gmap string Z) : Prop :=
  exists k n, d !! path = Some k /\ k ∈ h_mine v /\ h_nodes v !! k = Some n /\ forall n', crash_node n n' -> intact mode clamp w n'.

Lemma safe_crash path mode clamp w Was v d : replace_safe path mode clamp w Was v -> crash v d ->
  (Was (d !! path) /\ forall k, d !! path = Some k -> k ∉ h_mine v) \/ new_after path mode clamp w v d.
Proof.
  intros Hs Hd. destruct (Hd path) as (d' & Hd' & E). destruct (Hs d' Hd') as [H|(k & Hk & Hn)]; [left; by rewrite E|right].
  destruct (new_intact _ _ _ _ _ Hn) as (n & Hkn & Hc). exists k, n. split; [congruence|]. split; [apply Hn|by split].
Qed.

(** Every state of every run. *)
Lemma replaced egid path mode clamp w (I : host -> host -> Prop) (Old : host -> Prop) (Was : option Z -> Prop) v0 q v
  (HI : forall v v', I v v' -> interferes v v') (HO : forall v v', I v v' -> Old v -> Old v')
  (He : forall v v', same_entry path v v' -> same_history path v v' -> Old v -> Old v') (HW : forall v d, Old v -> d ∈ h_hist v -> Was (d !! path))
  (Hmine : h_mine v0 = ∅) (Hrun : rtc (Prog.step I behaves) (replace egid path mode clamp w, v0) (q, v)) (H0 : Old v0) :
  replace_safe path mode clamp w Was v /\ ((Old v /\ not_ours path v) \/ new_at path mode clamp w v) /\
  forall r, q = Ret r -> replace_ended path mode clamp w Old Was (h_fails v0) r v.
Proof.
  assert (fresh Old (h_fails v0) v0) as Hf by done.
  assert (steady path mode clamp w Old Was v0) as Hs by (by eapply fresh_steady).
  pose proof (replace_spec egid path mode clamp w I Old Was HI HO He HW (h_fails v0) v0 Hf) as Hsp.
  destruct (always_adequate _ _ _ _ _ _ _ _ Hsp Hs Hrun) as [[H1 H2] Hq]. split; [done|]. split; [done|]. by intros r ->.
Qed.


(** ** Reading, undisturbed *)

Section Reading.
Variables (path : string) (v0 : host) (maxBytes : Z) (rejects : bool) (P : host -> Prop).
(** The operations that had failed before. *)
Variable f0 : nat.
Notation fresh := (fresh (kept path v0)).
Hypothesis Hmax : 0 < maxBytes.
Hypothesis fresh_P : forall f v, fresh f v -> P v.

(** What the path led to at the start: a regular file, nobody else's to read
    where that matters, no longer than allowed. *)
Definition read_result (r : result read_error string) : Prop :=
  match r with
  | Ok data => exists k n, h_names v0 !! path = Some k /\ h_nodes v0 !! k = Some n /\ n_kind n = KFile /\
      rejects && WorldAccessible (n_perm n) = false /\ data = n_data n /\ slen data <= maxBytes
  | Err (FOpen ENOENT) => h_names v0 !! path = None
  | Err _ => True
  end.

(** And the whole answer, when no operation fails. *)
Definition read_answer : result read_error string :=
  match h_names v0 !! path with
  | None => Err (FOpen ENOENT)
  | Some k =>
      match h_nodes v0 !! k with
      | None => Err (FOpen EIO)
      | Some n =>
          if negb (bool_decide (n_kind n = KFile)) then Err FNotRegular
          else if rejects && WorldAccessible (n_perm n) then Err FWorldAccessible
          else if maxBytes <? slen (n_data n) then Err FTooLarge else Ok (n_data n)
      end
  end.
Definition read_ended (f : nat) (r : result read_error string) (v : host) : Prop :=
  (exists f', (f <= f')%nat /\ fresh f' v) /\ read_result r /\ (h_fails v = f0 -> r = read_answer).
Notation reads := (Prog.always (respects path) behaves P).

Lemma fresh_others f v v' : fresh f v -> respects path v v' -> fresh f v'.
Proof. apply fresh_interferes; [apply respects_interferes|apply respects_kept]. Qed.
Lemma fresh_failed f v : fresh f v -> fresh (S f) (fault v).
Proof. apply (fresh_fault path). apply kept_entry. Qed.
Lemma fresh_fds f v fds : fresh f v -> fresh f (set_fds fds v).
Proof. intros (Hm & Hf & Hk). split; [done|]. split; [done|]. eapply kept_entry, Hk; [done|by left]. Qed.
Lemma fresh_close f v fd : fresh f v -> fresh f (close_fd fd v).
Proof. intros (Hm & Hf & Hk). split; [done|]. split; [done|]. eapply kept_entry, Hk; [done|by left]. Qed.

Lemma closing_spec f v fd r : fresh f v -> (f0 <= f)%nat -> read_result r -> (f = f0 -> r = read_answer) -> reads (read_ended f) (closing fd r) v.
Proof.
  intros Hv Hf Hr Ha v1 x v2 Hi Hb. pose proof (fresh_others _ _ _ Hv Hi) as Hv1. destruct x as [[]|e]; cbn in Hb.
  - subst v2. apply (fresh_close f v1 fd) in Hv1. split; [by eapply fresh_P|]. split; [by exists f|]. split; [done|].
    destruct Hv1 as (_ & Hfl & _). rewrite Hfl. apply Ha.
  - assert (fresh (S f) v2) as Hv2 by (destruct Hb as [-> | ->]; apply fresh_failed; [done|by apply fresh_close]).
    split; [by eapply fresh_P|]. split; [exists (S f); split; [lia|done]|]. split; [done|]. destruct Hv2 as (_ & Hfl & _). rewrite Hfl. lia.
Qed.

(** After a failure any error will do. *)
Lemma closing_failed f v fd e : fresh f v -> (f0 <= f)%nat -> (match e with FOpen _ => False | _ => True end) ->
  P (fault v) /\ reads (read_ended f) (closing fd (Err e)) (fault v).
Proof.
  intros Hv%fresh_failed Hf He. split; [by eapply fresh_P|]. eapply always_mono, (closing_spec (S f)); [|done|lia|by destruct e|lia].
  intros r v' ((f' & Hf' & Hv') & Hr'). split; [exists f'; split; [lia|done]|done].
Qed.

(** While the file is open at [fd]. *)
Definition reading (f : nat) (fd k : Z) (n : inode) (v : host) : Prop :=
  fresh f v /\ h_fds v !! fd = Some k /\ h_names v0 !! path = Some k /\ h_nodes v0 !! k = Some n.
Lemma reading_others f fd k n v v' : reading f fd k n v -> respects path v v' -> reading f fd k n v' /\ h_nodes v' !! k = Some n.
Proof.
  intros (Hv & Hfd & Hp & Hk) Hi. pose proof (fresh_others _ _ _ Hv Hi) as Hv'. destruct Hi as [(d & nodes & -> & _) _]. split; [done|].
  destruct Hv' as (_ & _ & _ & Hs). by rewrite Hs.
Qed.

Lemma read_open f v fd k n : reading f fd k n v -> (f0 <= f)%nat ->
  reads (read_ended f)
    (let! r := call (FStat fd) in
     match r with
     | Err _ => closing fd (Err FStatFailed)
     | Ok info =>
         if negb (IsRegular info) then closing fd (Err FNotRegular)
         else if rejects && WorldAccessible (fi_perm info) then closing fd (Err FWorldAccessible)
         else let! r := call (ReadLimit fd (maxBytes + 1)) in
         match r with
         | Err _ => closing fd (Err FRead)
         | Ok data => closing fd (if maxBytes <? slen data then Err FTooLarge else Ok data)
         end
     end) v.
Proof.
  intros Hv Hf0 v1 r v2 Hi Hb. destruct (reading_others _ _ _ _ _ _ Hv Hi) as [Hv1 Hk1]. pose proof Hv1 as (Hf1 & Hfd1 & Hp & Hk).
  destruct r as [info|e]; cbn in Hb; [|subst v2; by apply closing_failed].
  destruct Hb as [(k' & n' & Hfd' & Hk' & ->) ->]. assert (k' = k) as -> by congruence. assert (n' = n) as -> by congruence.
  assert (read_answer = if negb (bool_decide (n_kind n = KFile)) then Err FNotRegular else if rejects && WorldAccessible (n_perm n) then Err FWorldAccessible
    else if maxBytes <? slen (n_data n) then Err FTooLarge else Ok (n_data n)) as Ha by (unfold read_answer; by rewrite Hp, Hk).
  split; [by eapply fresh_P|]. cbn [bind IsRegular fi_kind fi_perm info_of]. unfold IsRegular. cbn [fi_kind info_of]. case_bool_decide as Ek; cbn [negb] in *; [|by apply closing_spec].
  destruct (rejects && WorldAccessible (n_perm n)) eqn:Ew; [by apply closing_spec|].
  intros v3 r v4 Hi3 Hb. destruct (reading_others _ _ _ _ _ _ Hv1 Hi3) as [Hv3 Hk3]. pose proof Hv3 as (Hf3 & Hfd3 & _).
  destruct r as [data|e]; cbn in Hb; [|subst v4; by apply closing_failed].
  destruct Hb as [(k' & n' & Hfd'' & Hk'' & ->) ->]. assert (k' = k) as -> by congruence. assert (n' = n) as -> by congruence.
  split; [by eapply fresh_P|]. apply closing_spec; [done|done|..]; unfold slen in *; rewrite stake_length;
    destruct (Z.ltb_spec maxBytes (Z.of_nat (Nat.min (Z.to_nat (maxBytes + 1)) (String.length (n_data n))))) as [Hlt|Hle]; [done|..].
  - rewrite stake_all by lia. exists k, n. split; [done|]. split; [done|]. split; [done|]. split; [done|]. split; [done|]. unfold slen. lia.
  - intros _. by rewrite Ha, (proj2 (Z.ltb_lt _ _)) by lia.
  - intros _. rewrite Ha, (proj2 (Z.ltb_ge _ _)) by lia. by rewrite stake_all by lia.
Qed.

Lemma read_spec f v : fresh f v -> (f0 <= f)%nat -> reads (read_ended f) (read path maxBytes rejects) v.
Proof.
  intros Hv Hf0. unfold read. rewrite (proj2 (Z.leb_gt _ _)) by lia. intros v1 r v2 Hi Hb. pose proof (fresh_others _ _ _ Hv Hi) as Hv1. destruct r as [fd|e]; cbn in Hb.
  - destruct Hb as (k & n & Hp & Hk & _ & Hfd & ->). split; [by eapply fresh_P, fresh_fds|]. apply (read_open f _ fd k n); [|done].
    destruct Hv1 as (Hm & Hf & Hs1 & Hs2). split; [by apply fresh_fds|]. split; [cbn; by rewrite lookup_insert_eq|]. rewrite Hs1 in Hp. split; [done|]. by rewrite <- Hs2.
  - assert (e = ENOENT /\ h_names v1 !! path = None /\ v2 = v1 \/ e <> ENOENT /\ v2 = fault v1) as [(-> & Hn & ->)|[He ->]] by (destruct e; naive_solver).
    + assert (h_names v0 !! path = None) as Hn0 by (destruct Hv1 as (_ & _ & Hs & _); congruence).
      split; [by eapply fresh_P|]. split; [by exists f|]. split; [done|]. unfold read_answer. by rewrite Hn0.
    + apply fresh_failed in Hv1. split; [by eapply fresh_P|]. split; [exists (S f); split; [lia|done]|]. split; [by destruct e|]. destruct Hv1 as (_ & Hfl & _). rewrite Hfl. lia.
Qed.
End Reading.

Lemma idle_respects path h : respects path h (idle h).
Proof. split; [apply host_idle_interferes|done]. Qed.
Lemma run_respects {A} path (p : prog A) plan h : rtc (Prog.step (respects path) behaves) (p, h) (Ret (run plan p h).1, (run plan p h).2).
Proof. apply Prog.run_executes; [apply idle_respects|apply host_sys_behaves|apply fails_behaves]. Qed.

Module ReplaceDemo.
Definition dir_node : inode := mkNode KDir 488 0 991 "" true 0.
Definition old_node : inode := mkNode KFile 420 0 991 "old" true 0.
Definition host0 : host :=
  let d := <["/etc/m/users.yaml" := 7]> (<["/etc/m" := 2]> ∅) in mkHost d (<[7 := old_node]> (<[2 := dir_node]> ∅)) ∅ [d] ∅ 0 ∅.
Definition job : prog (result replace_error unit) := ReplacePreservingOwner 0 "/etc/m/users.yaml" 384 416 (mkEmission ["new "; "content"] false).

(** Mode 0644 becomes 0640, and the group is kept; the disk may still have
    the mode 0600. *)
Example job_ok :
  let x := run [] job host0 in (x.1, node_at x.2 "/etc/m/users.yaml", size (h_names x.2)) = (Ok tt, Some (8, mkInode KFile 416 0 991 "new content" true 0 [(384, 0, 991)] false), 2%nat).
Proof. vm_compute. reflexivity. Qed.
Example job_fails :
  let x := run [false; false; false; false; true] job host0 in (x.1, node_at x.2 "/etc/m/users.yaml", size (h_names x.2)) = (Err RWrite, Some (7, old_node), 2%nat).
Proof. vm_compute. reflexivity. Qed.
End ReplaceDemo.

