(* ===== verification/Frame.v ===== *)
(** * What a program leaves alone

    A path, and the file it leads to, that a program never replaces, removes
    or writes to.  [frames] follows the temporary names and the descriptors
    that are the program's own: a program that renames and removes only those
    names, never onto the path, and writes to those descriptors alone, keeps
    the path and the content there, whatever fails and whatever other
    processes do elsewhere, the programs it starts included ([tame]).  The
    section [Holding] says the same of a descriptor that a program keeps open,
    such as that of a lock file. *)

From S2P Require Import Prelude GoStrings Paths Prog Host Replace.
#[local] Open Scope Z_scope.

Section Frame.
Variables (p : string) (k0 : Z) (kind0 : kind) (data0 : string).

(** The path leads to the file it led to, with the content it had. *)
Definition same_content (v : host) : Prop :=
  h_names v !! p = Some k0 /\ k0 ∉ h_mine v /\ exists n, h_nodes v !! k0 = Some n /\ n_kind n = kind0 /\ n_data n = data0.

(** The others leave it alone. *)
Definition leaves (v v' : host) : Prop := interferes v v' /\ (same_content v -> same_content v').

(** And so do the programs that this one starts. *)
Definition tame (o : op) (v : host) (r : answer o) (v' : host) : Prop :=
  behaves o v r v' /\ match o with Command _ _ => same_content v -> same_content v' | _ => True end.

(** The names and the descriptors that are the program's own. *)
Definition owned (T : gset string) (F : gset Z) (v : host) : Prop :=
  same_content v /\ (forall t, t ∈ T -> exists k, h_names v !! t = Some k /\ k ∈ h_mine v) /\
  forall fd, fd ∈ F -> exists k, h_fds v !! fd = Some k /\ k ∈ h_mine v.

Definition allowed (T : gset string) (F : gset Z) (o : op) : Prop :=
  match o with
  | Write fd _ => fd ∈ F
  | Rename old new => old ∈ T /\ new <> p
  | Remove path => path ∈ T
  | _ => True
  end.

(** The path is there. *)
Definition possible (o : op) : answer o -> Prop :=
  match o return answer o -> Prop with
  | Lstat path | OpenNoFollow path => fun r => r = Err ENOENT -> path <> p
  | _ => fun _ => True
  end.

Definition names_after (o : op) (T : gset string) : answer o -> gset string :=
  match o return answer o -> gset string with
  | CreateTemp _ _ => fun r => match r with Ok x => {[x.2]} ∪ T | Err _ => T end
  | Rename old _ => fun r => if is_ok r then T ∖ {[old]} else T
  | Remove path => fun _ => T ∖ {[path]}
  | _ => fun _ => T
  end.
Definition fds_after (o : op) (F : gset Z) : answer o -> gset Z :=
  match o return answer o -> gset Z with
  | CreateTemp _ _ => fun r => match r with Ok x => {[x.1]} ∪ F | Err _ => F end
  | Close fd => fun _ => F ∖ {[fd]}
  | _ => fun _ => F
  end.

Fixpoint frames {A} (Q : A -> gset string -> gset Z -> Prop) (T : gset string) (F : gset Z) (q : prog A) : Prop :=
  match q with
  | Ret a => Q a T F
  | Call o k => allowed T F o /\ forall r, possible o r -> frames Q (names_after o T r) (fds_after o F r) (k r)
  end.

Lemma frames_bind {A B} (Q : B -> _) T F (q : prog A) (f : A -> prog B) : frames (fun a T F => frames Q T F (f a)) T F q -> frames Q T F (bind q f).
Proof. revert T F. induction q as [a|o k IH]; intros T F; cbn [frames bind]; [done|]. intros [Ha H]. split; [done|]. intros r Hr. by apply IH, H. Qed.

Lemma frames_call {B} (Q : B -> _) T F o (f : answer o -> prog B) :
  allowed T F o -> (forall r, possible o r -> frames Q (names_after o T r) (fds_after o F r) (f r)) -> frames Q T F (bind (call o) f).
Proof. by split. Qed.

Lemma frames_mono {A} (Q Q' : A -> _) T F (q : prog A) : (forall a T F, Q a T F -> Q' a T F) -> frames Q T F q -> frames Q' T F q.
Proof. intros HQ. revert T F. induction q as [a|o k IH]; intros T F; cbn [frames]; [apply HQ|]. intros [Ha H]. split; [done|]. intros r Hr. by apply IH, H. Qed.

(** More names and descriptors do no harm. *)
Lemma frames_more {A} (Q : A -> Prop) T F T' F' (q : prog A) : T ⊆ T' -> F ⊆ F' -> frames (fun a _ _ => Q a) T F q -> frames (fun a _ _ => Q a) T' F' q.
Proof.
  revert T F T' F'. induction q as [a|o k IH]; intros T F T' F' HT HF; cbn [frames]; [done|]. intros [Ha H]. split.
  - destruct o; cbn in *; try done; set_solver.
  - intros r Hr. eapply IH, H, Hr; destruct o; cbn; try done; try (destruct r); set_solver.
Qed.

(** ** Each operation *)

Lemma owned_weaken T F T' F' v : owned T F v -> T' ⊆ T -> F' ⊆ F -> owned T' F' v.
Proof. intros (Hs & HT & HF) H1 H2. split; [done|]. split; intros x Hx; [apply HT, H1|apply HF, H2]; done. Qed.

Lemma owned_leaves T F v v' : owned T F v -> leaves v v' -> owned T F v'.
Proof.
  intros (Hs & HT & HF) [(d & nodes & -> & Hd & Hn) Hl]. split; [by apply Hl|]. split.
  - intros t (k & Hk & Hm)%HT. exists k. split; [by apply Hd|done].
  - intros fd (k & Hk & Hm)%HF. by exists k.
Qed.

Lemma owned_fault T F v : owned T F v -> owned T F (fault v).
Proof. done. Qed.

Lemma owned_close T F fd v : owned T F v -> owned T (F ∖ {[fd]}) (close_fd fd v).
Proof.
  intros (Hs & HT & HF). split; [done|]. split; [done|]. intros x [Hx Hne]%elem_of_difference. rewrite elem_of_singleton in Hne.
  destruct (HF x Hx) as (k & Hk & Hm). exists k. split; [|done]. cbn. by rewrite lookup_delete_ne.
Qed.

Lemma owned_set_node T F v k n n' : owned T F v -> h_nodes v !! k = Some n -> n_kind n' = n_kind n -> (n_data n' = n_data n \/ k <> k0) ->
  owned T F (set_node k n' v).
Proof.
  intros ((Hp & Hm & n0 & Hn0 & Hk0 & Hd0) & HT & HF) Hk Hkind Hdata. split; [|by split]. split; [done|]. split; [done|]. cbn. destruct (decide (k = k0)) as [->|Hne].
  - rewrite lookup_insert_eq. exists n'. split; [done|]. destruct Hdata; [|done]. split; congruence.
  - rewrite lookup_insert_ne by done. by exists n0.
Qed.

Lemma owned_on_fd T F v v' fd g : owned T F v -> on_fd v v' fd g -> (forall n, n_kind (g n) = n_kind n) -> ((forall n, n_data (g n) = n_data n) \/ fd ∈ F) -> owned T F v'.
Proof.
  intros Ho (k & n & Hfd & Hk & ->) Hkind Hdata. eapply owned_set_node; [done..|by apply Hkind|]. destruct Hdata as [Hd|Hin]; [by left|right].
  destruct Ho as ((_ & Hm & _) & _ & HF). destruct (HF fd Hin) as (k' & Hk' & Hm'). congruence.
Qed.

Lemma owned_on_path T F v v' path g : owned T F v -> on_path v v' path g -> (forall n, n_kind (g n) = n_kind n) -> (forall n, n_data (g n) = n_data n) -> owned T F v'.
Proof. intros Ho (k & n & (Hk & _) & ->) Hkind Hdata. eapply owned_set_node; [done..|by apply Hkind|by left]. Qed.

Lemma owned_creates T F v v' path k n : owned T F v -> creates v v' path k n -> owned T F v' /\ h_names v' !! path = Some k /\ k ∈ h_mine v'.
Proof.
  intros ((Hp & Hm & n0 & Hn0 & Hk0 & Hd0) & HT & HF) (Hfree & (Hnk & _ & Hnn & _) & ->). cbn. rewrite lookup_insert_eq. split; [|split; [done|set_solver]].
  assert (k <> k0) as Hne by congruence. split; [split; [|split]|split]; cbn.
  - rewrite lookup_insert_ne by congruence. done.
  - set_solver.
  - rewrite lookup_insert_ne by done. by exists n0.
  - intros t (j & Hj & Hjm)%HT. exists j. rewrite lookup_insert_ne by congruence. split; [done|set_solver].
  - intros fd (j & Hj & Hjm)%HF. exists j. split; [done|set_solver].
Qed.

Lemma owned_adds T F v v' path k n : owned T F v -> adds v v' path k n -> owned T F v'.
Proof.
  intros Ho (Hfree & Hu & ->). destruct (owned_creates T F v _ path k n Ho (conj Hfree (conj Hu eq_refl))) as (((Hp & _ & Hn0) & HT & HF) & _).
  pose proof Ho as ((_ & Hm0 & _) & HT0 & HF0). split; [by split|]. split.
  - intros t Ht. destruct (HT t Ht) as (j & Hj & _). destruct (HT0 t Ht) as (j' & Hj' & Hm'). exists j. split; [done|]. cbn in Hj.
    rewrite lookup_insert_ne in Hj by congruence. by assert (j' = j) as <- by congruence.
  - intros fd Hfd. exact (HF0 fd Hfd).
Qed.

Lemma owned_opened T F v v' fd k : owned T F v -> opened v v' fd k -> owned T F v' /\ h_fds v' !! fd = Some k.
Proof.
  intros (Hs & HT & HF) [Hfree ->]. cbn. rewrite lookup_insert_eq. split; [|done]. split; [done|]. split; [done|].
  intros x (j & Hj & Hjm)%HF. exists j. cbn. rewrite lookup_insert_ne by congruence. done.
Qed.

Lemma owned_temp T F v v1 v' fd name k n : owned T F v -> creates v v1 name k n -> opened v1 v' fd k -> owned ({[name]} ∪ T) ({[fd]} ∪ F) v'.
Proof.
  intros Ho Hc Hop. destruct (owned_creates _ _ _ _ _ _ _ Ho Hc) as (Ho1 & Hname & Hmine). destruct (owned_opened _ _ _ _ _ _ Ho1 Hop) as [Ho2 Hfd].
  destruct Hop as [_ ->]. destruct Ho2 as (Hs & HT2 & HF2). split; [done|]. split.
  - intros t [->%elem_of_singleton|Ht]%elem_of_union; [by exists k|by apply HT2].
  - intros x [->%elem_of_singleton|Hx]%elem_of_union; [by exists k|by apply HF2].
Qed.

Lemma owned_remove T F v path : owned T F v -> path ∈ T -> owned (T ∖ {[path]}) F (set_names (delete path (h_names v)) v).
Proof.
  intros ((Hp & Hm & n0 & Hn0) & HT & HF) Ha. destruct (HT path Ha) as (j & Hj & Hjm). split; [|split; [|done]].
  - split; [|split; [done|by exists n0]]. cbn. rewrite lookup_delete_ne by congruence. done.
  - intros t [Ht Hne]%elem_of_difference. rewrite elem_of_singleton in Hne. destruct (HT t Ht) as (i & Hi & Him). exists i. cbn. by rewrite lookup_delete_ne.
Qed.

Lemma owned_rename T F v old new k : owned T F v -> old ∈ T -> new <> p -> h_names v !! old = Some k ->
  owned (T ∖ {[old]}) F (set_names (<[new := k]> (delete old (h_names v))) v).
Proof.
  intros ((Hp & Hm & n0 & Hn0) & HT & HF) Hold Hnew Hk. destruct (HT old Hold) as (j & Hj & Hjm). assert (j = k) as -> by congruence. split; [|split; [|done]].
  - split; [|split; [done|by exists n0]]. cbn. rewrite lookup_insert_ne by done. rewrite lookup_delete_ne by congruence. done.
  - intros t [Ht Hne]%elem_of_difference. rewrite elem_of_singleton in Hne. destruct (HT t Ht) as (i & Hi & Him). cbn. destruct (decide (t = new)) as [->|].
    + rewrite lookup_insert_eq. by exists k.
    + rewrite lookup_insert_ne, lookup_delete_ne by done. by exists i.
Qed.

Lemma owned_directories T F v d nodes : owned T F v -> h_names v ⊆ d -> (forall k n, nodes !! k = Some n -> unused v k) ->
  owned T F (mkHost d (nodes ∪ h_nodes v) (h_fds v) (d :: h_hist v) (h_mine v) (h_fails v) (h_locks v)).
Proof.
  intros ((Hp & Hm & n0 & Hn0 & Hd0) & HT & HF) Hsub Hnew. split; [split; [|split; [done|]]|split; [|done]]; cbn.
  - by eapply lookup_weaken.
  - exists n0. split; [|done]. apply lookup_union_Some_raw. right. split; [|done]. destruct (nodes !! k0) as [n|] eqn:E; [|done]. destruct (Hnew _ _ E) as [Hu _]. congruence.
  - intros t (j & Hj & Hjm)%HT. exists j. split; [|done]. cbn. by eapply lookup_weaken.
Qed.

(** An operation that is allowed keeps what is owned, and its answer is
    possible. *)
Lemma owned_step T F v v' o r : owned T F v -> allowed T F o -> tame o v r v' -> possible o r /\ owned (names_after o T r) (fds_after o F r) v'.
Proof.
  intros Ho Ha [Hb Hcmd]. pose proof Ho as ((Hp & _) & _).
  destruct o as [path|path|dir pre|path|path|path|fd|fd|fd m|fd data|fd|fd mode|fd uid gid|fd|path|old new|path mode|path|path mode|path uid gid|dir|path|path|m|u|g|g|c args];
    cbn [behaves possible names_after fds_after allowed] in *.
  - destruct r as [i|[]]; [|destruct Hb as [Hn ->]|subst; by split..]; [destruct Hb as [_ ->]; by split|]. split; [congruence|done].
  - destruct r; [destruct Hb as [_ ->]|subst]; by split.
  - destruct r as [[fd name]|e]; [|by subst]. destruct Hb as (k & n & rnd & h1 & _ & _ & _ & _ & _ & _ & Hc & Hop). split; [done|]. by eapply owned_temp.
  - destruct r as [fd|[]]; [|destruct Hb as [Hn ->]|subst; by split..]; [|split; [congruence|done]].
    destruct Hb as (k & n & _ & _ & _ & Hop). split; [done|]. by eapply owned_opened.
  - destruct r as [fd|e]; [|by subst]. destruct Hb as (k & n & _ & Hop). split; [done|]. by eapply owned_opened.
  - destruct r as [fd|e]; [|by subst]. split; [done|]. destruct Hb as [(k & n & _ & Hop)|(k & n & h1 & _ & Hc & Hop)]; [by eapply owned_opened|].
    eapply owned_opened, Hop. by eapply owned_adds.
  - destruct r; [destruct Hb as [_ ->]|subst]; by split.
  - destruct r; [destruct Hb as [_ ->]|subst]; by split.
  - destruct r; [destruct Hb as [_ ->]|subst]; by split.
  - split; [done|]. destruct r; [destruct Hb as [t Hb]; eapply owned_on_fd; [done..|done|by right]|].
    destruct Hb as [->|(x & t & h1 & Hb & ->)]; [done|]. apply owned_fault. eapply owned_on_fd; [done..|done|by right].
  - split; [done|]. destruct r; [eapply owned_on_fd; [done..|done|by left]|by subst].
  - split; [done|]. destruct r; [eapply owned_on_fd; [done..|done|by left]|by subst].
  - split; [done|]. destruct r; [eapply owned_on_fd; [done..|done|by left]|by subst].
  - split; [done|]. destruct r; [subst; by apply owned_close|]. destruct Hb as [-> | ->]; apply owned_fault; [|by apply owned_close].
    eapply owned_weaken; [done..|]. set_solver.
  - split; [done|]. destruct r as [|[]]; [destruct Hb as [_ ->]; by apply owned_remove|destruct Hb as [_ ->]|subst; apply owned_fault..]; (eapply owned_weaken; [done| |done]; set_solver).
  - split; [done|]. destruct r; [|by subst]. cbn [is_ok]. destruct Ha as [Hold Hnew]. destruct Hb as (k & Hk & ->).
    destruct (decide _); [eapply owned_weaken; [done| |done]; set_solver|by apply owned_rename].
  - split; [done|]. destruct r; [|by subst]. destruct Hb as (k & n & _ & _ & Hc). by eapply owned_creates.
  - split; [done|]. destruct r; [|by subst]. destruct Hb as (d & nodes & -> & Hsub & Hnew & _). apply owned_directories; [done|done|]. intros k n Hk. by apply (Hnew k n).
  - split; [done|]. destruct r; [by eapply owned_on_path|by subst].
  - split; [done|]. destruct r; [by eapply owned_on_path|by subst].
  - destruct r; subst; by split.
  - split; [done|]. destruct r; [by destruct Hb as [_ ->]|]. by destruct Hb as [[_ ->]| ->].
  - destruct r as [fd|e]; [|by subst]. split; [done|]. destruct Hb as (k & n & h1 & _ & _ & Hc & Hop). eapply owned_opened, Hop. by eapply owned_creates.
  - destruct r; [destruct Hb as [_ ->]|subst]; by split.
  - subst. by split.
  - subst. by split.
  - subst. by split.
  - split; [done|]. destruct r; [by eapply owned_leaves|]. destruct Hb as (h1 & Hi & ->). apply owned_fault. by eapply owned_leaves.
Qed.

(** A program that frames the path keeps it. *)
Lemma frames_always {A} (Q : A -> gset string -> gset Z -> Prop) T F (q : prog A) v : frames Q T F q -> owned T F v ->
  Prog.always leaves tame same_content (fun a v' => exists T' F', Q a T' F' /\ owned T' F' v') q v.
Proof.
  revert T F v. induction q as [a|o k IH]; intros T F v; cbn [frames Prog.always]; [by exists T, F|]. intros [Ha H] Ho v1 r v2 Hl Hb.
  destruct (owned_step _ _ _ _ _ _ (owned_leaves _ _ _ _ Ho Hl) Ha Hb) as [Hr Ho2]. split; [by destruct Ho2|]. eapply IH; [by apply H|done].
Qed.
End Frame.

(** ** A replacement leaves every other path alone *)

Section Replacing.
Variables (p : string) (egid : Z).
Notation frames := (frames p).
Notation anything := (fun _ _ _ => True).

(** Operations that change neither the names nor the descriptors. *)
Definition same_owned {A} (T : gset string) (F : gset Z) : A -> gset string -> gset Z -> Prop := fun _ T' F' => T' = T /\ F' = F.

Lemma adopt_frames existing fd dir mode clamp T F : frames (same_owned T F) T F (adopt egid existing fd dir mode clamp).
Proof.
  unfold adopt. destruct (clamp =? 0); [done|]. destruct existing as [st|]; cbn; [done|]. split; [done|]. intros r _.
  destruct r as [st|]; [|done]. destruct (ServiceGroup egid (fi_gid st)); done.
Qed.

Lemma write_chunks_frames fd l T F : fd ∈ F -> frames (same_owned T F) T F (write_chunks fd l).
Proof. intros Hfd. induction l as [|c l IH]; [done|]. cbn. split; [done|]. intros r _. destruct r; [exact IH|done]. Qed.

Lemma emit_frames fd w T F : fd ∈ F -> frames (same_owned T F) T F (emit fd w).
Proof. intros Hfd. apply frames_bind. eapply frames_mono, (write_chunks_frames fd (chunks w) T F Hfd). by intros ok T' F' [-> ->]. Qed.

Lemma abort_frames {A} fd name e T F : name ∈ T -> frames anything T F (abort (A := A) fd name e).
Proof. intros Hn. cbn. split; [done|]. intros _ _. by split. Qed.

Lemma install_frames existing path mode clamp w T F : path <> p -> frames anything T F (install egid existing path mode clamp w).
Proof.
  intros Hp. cbn. split; [done|]. intros r0 _. destruct r0 as [[fd name]|e]; [|done]. cbn [names_after fds_after fst snd].
  assert (name ∈ {[name]} ∪ T) as Hname by set_solver. assert (fd ∈ {[fd]} ∪ F) as Hfd by set_solver. generalize dependent ({[name]} ∪ T). generalize dependent ({[fd]} ∪ F). clear T F. intros F Hfd T Hname.
  apply frames_bind. eapply frames_mono, adopt_frames. intros m T' F' [-> ->]. apply frames_bind. eapply frames_mono, emit_frames; [|done]. intros ok T' F' [-> ->].
  destruct ok; cbn [negb]; [|by apply abort_frames]. split; [done|]. intros r1 _. cbn [bind]. destruct r1; cbn [is_ok negb]; [|by apply abort_frames].
  split; [done|]. intros r2 _. cbn [bind]. destruct r2; cbn [is_ok negb]; [|by apply abort_frames].
  split; [done|]. intros r3 _. cbn [bind]. destruct r3; cbn [is_ok negb]; [|by split].
  split; [done|]. intros r4 _. cbn [bind names_after fds_after]. destruct r4; cbn [is_ok negb]; by split.
Qed.

Lemma replace_frames path mode clamp w T F : path <> p -> frames anything T F (replace egid path mode clamp w).
Proof.
  intros Hp. cbn. split; [done|]. intros r _. destruct r as [st|[]]; [|by apply install_frames|done..].
  destruct (is_link st); [done|]. destruct (IsRegular st); cbn [negb]; [by apply install_frames|done].
Qed.
End Replacing.

(** ** Holding a lock

    A program that closes only what it opened keeps the lock it holds. *)

Section Holding.
(** The descriptor that holds the lock, and the file it is open at. *)
Variables (x k : Z).

Definition held (v : host) : Prop := x ∈ h_locks v /\ h_fds v !! x = Some k.

(** The descriptor an answer returns. *)
Definition new_fd (o : op) : answer o -> option Z :=
  match o return answer o -> option Z with
  | CreateTemp _ _ => fun r => match r with Ok y => Some y.1 | Err _ => None end
  | OpenNoFollow _ | Open _ | OpenLock _ | ListenUnix _ => fun r => match r with Ok fd => Some fd | Err _ => None end
  | _ => fun _ => None
  end.

Definition sparing (o : op) : Prop := match o with Close fd => fd <> x | Command _ _ => False | _ => True end.
Fixpoint spares {A} (q : prog A) : Prop :=
  match q with
  | Ret _ => True
  | Call o f => sparing o /\ forall r, new_fd o r <> Some x -> spares (f r)
  end.

Lemma spares_bind {A B} (q : prog A) (f : A -> prog B) : spares q -> (forall a, spares (f a)) -> spares (bind q f).
Proof. intros Hq Hf. induction q as [a|o g IH]; [apply Hf|]. cbn in *. destruct Hq as [Ho H]. split; [done|]. intros r Hr. by apply IH, H. Qed.

Lemma opened_held v v' fd j : opened v v' fd j -> held v -> held v' /\ Some fd <> Some x.
Proof.
  intros [Hfree ->] [Hl Hx]. assert (fd <> x) as Hne by congruence. split; [|congruence]. split; [done|]. cbn. by rewrite lookup_insert_ne.
Qed.
Lemma held_close v fd : held v -> fd <> x -> held (close_fd fd v).
Proof. intros [Hl Hx] Hne. split; [cbn; set_solver|]. cbn. by rewrite lookup_delete_ne. Qed.

Lemma holding_step o v r v' : held v -> sparing o -> behaves o v r v' -> held v' /\ new_fd o r <> Some x.
Proof.
  intros Hv Ho Hb. assert (held (fault v)) as Hf by done.
  destruct o as [path|path|dir pre|path|path|path|fd|fd|fd m|fd data|fd|fd mode|fd uid gid|fd|path|old new|path mode|path|path mode|path uid gid|dir|path|path|m|u|g|g|c args];
    cbn [behaves new_fd sparing] in *; try done.
  - destruct r as [i|[]]; naive_solver.
  - destruct r; naive_solver.
  - destruct r as [[fd name]|e]; [|by subst]. destruct Hb as (j & n & rnd & h1 & _ & _ & _ & _ & _ & _ & (_ & _ & ->) & Hop). exact (opened_held _ _ _ _ Hop Hv).
  - destruct r as [fd|[]]; [|naive_solver..]. destruct Hb as (j & n & _ & _ & _ & Hop). exact (opened_held _ _ _ _ Hop Hv).
  - destruct r as [fd|e]; [|by subst]. destruct Hb as (j & n & _ & Hop). exact (opened_held _ _ _ _ Hop Hv).
  - destruct r as [fd|e]; [|by subst]. destruct Hb as [(j & n & _ & Hop)|(j & n & h1 & _ & (_ & _ & ->) & Hop)]; exact (opened_held _ _ _ _ Hop Hv).
  - destruct r; [|by subst]. destruct Hb as [_ ->]. split; [|done]. destruct Hv as [Hl Hx]. split; [cbn; set_solver|done].
  - destruct r; naive_solver.
  - destruct r; naive_solver.
  - unfold on_fd in Hb. destruct r; naive_solver.
  - unfold on_fd in Hb. destruct r; naive_solver.
  - unfold on_fd in Hb. destruct r; naive_solver.
  - unfold on_fd in Hb. destruct r; naive_solver.
  - split; [|done]. destruct r; [subst; by apply held_close|]. destruct Hb as [-> | ->]; [done|]. by apply (held_close v fd Hv).
  - destruct r as [|[]]; naive_solver.
  - destruct r; [|by subst]. destruct Hb as (j & _ & ->). by case_decide.
  - destruct r; [|by subst]. by destruct Hb as (j & n & _ & _ & (_ & _ & ->)).
  - destruct r; [|by subst]. by destruct Hb as (d & nodes & -> & _).
  - unfold on_path in Hb. destruct r; naive_solver.
  - unfold on_path in Hb. destruct r; naive_solver.
  - destruct r; naive_solver.
  - destruct r; naive_solver.
  - destruct r as [fd|e]; [|by subst]. destruct Hb as (j & n & h1 & _ & _ & (_ & _ & ->) & Hop). exact (opened_held _ _ _ _ Hop Hv).
  - destruct r; naive_solver.
  - naive_solver.
  - naive_solver.
  - naive_solver.
Qed.

(** And the name of the lock file with it. *)
Lemma spares_always {A} p kind0 data0 (J : host -> host -> Prop) T F (q : prog A) v :
  (forall v v', J v v' -> held v -> same_content p k kind0 data0 v -> leaves p k kind0 data0 v v') ->
  frames p (fun _ _ _ => True) T F q -> spares q -> owned p k kind0 data0 T F v -> held v ->
  Prog.always J behaves (fun v => held v /\ same_content p k kind0 data0 v) (fun _ v => held v /\ same_content p k kind0 data0 v) q v.
Proof.
  intros HJ. revert T F v. induction q as [a|o f IH]; intros T F v; cbn [frames spares Prog.always]; [by intros _ _ [H _] Hv|].
  intros [Ha Hf] [Ho Hs] Hv Hx v1 r v2 Hi Hb. pose proof (HJ _ _ Hi Hx (proj1 Hv)) as Hl. pose proof (owned_leaves _ _ _ _ _ _ _ _ Hv Hl) as Hv1.
  assert (held v1) as Hx1 by (by destruct Hl as [(d & nodes & -> & _) _]).
  destruct (holding_step _ _ _ _ Hx1 Ho Hb) as [Hx2 Hr]. assert (tame p k kind0 data0 o v1 r v2) as Ht by (split; [done|]; by destruct o).
  destruct (owned_step _ _ _ _ _ _ _ _ _ _ Hv1 Ha Ht) as [Hpos Hv2]. split; [split; [done|apply Hv2]|]. eapply IH; [by apply Hf|by apply Hs|done|done].
Qed.

(** A read and a replacement do. *)
Lemma closing_spares {A} fd (a : A) : fd <> x -> spares (closing fd a).
Proof. by intros Hfd. Qed.

Lemma read_spares path maxBytes rejects : spares (read path maxBytes rejects).
Proof.
  unfold read. split; [done|]. intros r Hr. destruct r as [fd|e]; [|done]. assert (fd <> x) as Hfd by (intros ->; by apply Hr). cbn [bind].
  split; [done|]. intros r1 _. destruct r1 as [i|]; [|by apply closing_spares]. cbn [bind]. destruct (IsRegular i); cbn [negb]; [|by apply closing_spares].
  destruct (rejects && WorldAccessible (fi_perm i)); [by apply closing_spares|]. split; [done|]. intros r2 _. destruct r2; by apply closing_spares.
Qed.

Lemma write_chunks_spares fd l : spares (write_chunks fd l).
Proof. induction l as [|c l IH]; [done|]. cbn. split; [done|]. intros r _. by destruct r. Qed.

Lemma install_spares egid existing path mode clamp w : spares (install egid existing path mode clamp w).
Proof.
  unfold install. split; [done|]. intros r Hr. destruct r as [[fd name]|e]; [|done]. assert (fd <> x) as Hfd by (intros ->; by apply Hr). cbn [bind fst snd].
  assert (forall e, spares (abort (A := unit) fd name e)) as Hab by done.
  apply spares_bind.
  { unfold adopt. destruct (clamp =? 0); [done|]. destruct existing as [st|]; cbn; [done|]. split; [done|]. intros r _. destruct r as [st|]; [|done]. by destruct (ServiceGroup egid (fi_gid st)). }
  intros m. apply spares_bind; [apply spares_bind; [apply write_chunks_spares|done]|]. intros [] ; cbn [negb]; [|done].
  split; [done|]. intros r1 _. destruct r1; cbn [is_ok negb bind]; [|done]. split; [done|]. intros r2 _. destruct r2; cbn [is_ok negb bind]; [|done].
  split; [done|]. intros r3 _. destruct r3; cbn [is_ok negb bind]; [|done]. split; [done|]. intros r4 _. destruct r4; cbn [is_ok negb bind]; by split.
Qed.

Lemma replace_spares egid path mode clamp w : spares (replace egid path mode clamp w).
Proof.
  unfold replace. split; [done|]. intros r _. destruct r as [st|[]]; [|apply install_spares|done..].
  cbn [bind]. destruct (is_link st); [done|]. destruct (IsRegular st); cbn [negb]; [apply install_spares|done].
Qed.
End Holding.

(** Reading changes nothing. *)
Lemma read_frames p path maxBytes rejects T F : frames p (fun _ _ _ => True) T F (read path maxBytes rejects).
Proof.
  unfold read. cbn. split; [done|]. intros r _. destruct r as [fd|]; [|done]. split; [done|]. intros r1 _. destruct r1 as [i|]; [|done].
  destruct (IsRegular i); cbn [negb]; [|done]. destruct (rejects && WorldAccessible (fi_perm i)); [done|]. split; [done|]. intros r2 _. by destruct r2.
Qed.
