(* ===== verification/Keys.v ===== *)
(** * Managing keys: [auth.Update] and the [key] commands

    The users file is read and validated ([internal/auth/store.go]), changed
    under an exclusive lock and replaced atomically (the other writers leave
    it alone while the lock is held: [cooperates]); the commands of
    [cmd/mellomting/main.go] add, enable, disable and remove keys.  The file
    system is that of [Host.v], the replacement that of [Replace.v]. *)

From Stdlib Require Import Ascii QArith.
From S2P Require Import Prelude Float64 GoStrings Net Crypto Auth Config Paths Prog Host Replace Frame.
#[local] Open Scope Z_scope.

(** ** Changes to the key list: [main.go] *)

Section Changes.
Context {F : Type} `{Float64 F}.
Implicit Types (k : Key F) (ks : list (Key F)) (uf : UsersFile F).

Inductive cmd_error :=
| NoSuchKey (id : string) | KeyGen (e : key_error) | Collision (attempts : nat)
| MixedWildcard | NoModelNamed.

Definition with_enabled (b : bool) k : Key F := mkKey (ID k) (Name k) (SecretHash k) b (ExpiresAt k) (Models k) (Limits k).

Fixpoint set_enabled_in (id : string) (b : bool) ks : option (list (Key F)) :=
  match ks with
  | [] => None
  | k :: ks => if String.eqb (ID k) id then Some (with_enabled b k :: ks) else option_map (cons k) (set_enabled_in id b ks)
  end.

(* src: cmd/mellomting/main.go setEnabled *)
Definition setEnabled uf (id : string) (b : bool) : result cmd_error (UsersFile F) :=
  match set_enabled_in id b (Keys uf) with
  | Some ks => Ok (mkUsersFile (uf_Version uf) ks)
  | None => Err (NoSuchKey id)
  end.

Fixpoint remove_first (id : string) ks : option (list (Key F)) :=
  match ks with
  | [] => None
  | k :: ks => if String.eqb (ID k) id then Some ks else option_map (cons k) (remove_first id ks)
  end.

(* src: cmd/mellomting/main.go revoke *)
Definition revoke uf (id : string) : result cmd_error (UsersFile F) :=
  match remove_first id (Keys uf) with
  | Some ks => Ok (mkUsersFile (uf_Version uf) ks)
  | None => Err (NoSuchKey id)
  end.

(* src: cmd/mellomting/main.go userIDExists *)
Definition userIDExists uf (id : string) : bool := existsb (fun k => String.eqb (ID k) id) (Keys uf).

(** [generate i] is the outcome of the [i]-th call of the generator. *)
Fixpoint choose_from (generate : nat -> result key_error (string * string)) uf (max i n : nat) : result cmd_error (string * string) :=
  match n with
  | O => Err (Collision max)
  | S n =>
      match generate i with
      | Err e => Err (KeyGen e)
      | Ok (key, id) => if userIDExists uf id then choose_from generate uf max (S i) n else Ok (key, id)
      end
  end.

(* src: cmd/mellomting/main.go chooseKeyID *)
Definition chooseKeyID (generate : nat -> result key_error (string * string)) uf (maxAttempts : nat) : result cmd_error (string * string) :=
  choose_from generate uf maxAttempts 0 maxAttempts.

(** The names of the list, and whether it has the wildcard. *)
(* src: cmd/mellomting/main.go 555-565 splitModels *)
Fixpoint model_names (parts : list string) : list string * bool :=
  match parts with
  | [] => ([], false)
  | p :: parts =>
      let p := TrimSpace p in
      let rest := model_names parts in
      if String.eqb p "" then rest
      else if String.eqb p ModelWildcard then (rest.1, true)
      else (p :: rest.1, rest.2)
  end.

(* src: cmd/mellomting/main.go splitModels *)
Definition splitModels (s : string) : result cmd_error (list string) :=
  let x := model_names (split_on ","%char s) in
  if x.2 && negb (bool_decide (x.1 = [])) then Err MixedWildcard
  else if x.2 then Ok [ModelWildcard]
  else if bool_decide (x.1 = []) then Err NoModelNamed
  else Ok x.1.

(* src: cmd/mellomting/main.go 262-270 keyFlags *)
Record keyFlags := mkFlags {
  operand : string; f_models : string; f_expires : option time;
  concurrentRequests : Z; requestsPerSecond : F; f_burst : Z
}.

Inductive usage_error := UsageName (e : key_error) | UsageNegative (flag : string).

(** The checks on the operand and the numbers of [key create]. *)
(* src: cmd/mellomting/main.go 324-354 keyParseFlags *)
Definition check_flags (c : keyFlags) : result usage_error unit :=
  match ValidateUsername (operand c) with
  | Err e => Err (UsageName e)
  | Ok _ =>
      if concurrentRequests c <? 0 then Err (UsageNegative "concurrent-requests")
      else if f_ltb (requestsPerSecond c) (f_of_Z 0) then Err (UsageNegative "requests-per-second")
      else if f_burst c <? 0 then Err (UsageNegative "burst")
      else Ok tt
  end.

(* src: cmd/mellomting/main.go 426-434 keyCreate *)
Definition new_key (c : keyFlags) (pepper : string) (models : list string) (key id : string) : Key F :=
  mkKey id (operand c) (FormatHashValue (Hash pepper key)) true (f_expires c) models
    (mkKeyLimits (requestsPerSecond c) (f_burst c) (concurrentRequests c) 0 0).

(** The change [key create] makes, and the key it prints. *)
(* src: cmd/mellomting/main.go 418-436 keyCreate *)
Definition add_key (c : keyFlags) (pepper : string) (models : list string) (generate : nat -> result key_error (string * string)) uf
  : result cmd_error (UsersFile F * string) :=
  match chooseKeyID generate uf 8 with
  | Err e => Err e
  | Ok (key, id) => Ok (mkUsersFile (uf_Version uf) (Keys uf ++ [new_key c pepper models key id]), key)
  end.
End Changes.
Arguments keyFlags : clear implicits.

(** ** The users file *)

Section Users.
Context {F : Type} `{Float64 F}.
(** gopkg.in/yaml.v3: the document stream of a byte string, the strict
    decoding of a document into a users file, and the encoding of one. *)
Variable yaml_stream : string -> list (option Config.ynode).
Variable yaml_decode : Config.ynode -> option (UsersFile F).
Variable yaml_marshal : UsersFile F -> option string.
(** The effective group of the process. *)
Variable egid : Z.

Inductive load_error := LRead (e : read_error) | LTree (e : Config.parse_error) | LDecode | LUsers (e : users_error).

(* src: internal/auth/store.go ParseUsers *)
Definition ParseUsers (data : string) : result load_error (UsersFile F) :=
  match yaml_stream data with
  | [] | None :: _ => Err (LTree Config.PYaml)
  | (Some n :: _) as docs =>
      match Config.CheckYAMLTree n with
      | Err e => Err (LTree e)
      | Ok _ =>
          match Config.CheckSingleDocument docs with
          | Err e => Err (LTree e)
          | Ok _ =>
              match yaml_decode n with
              | None => Err LDecode
              | Some uf => match validateUsers uf with Err e => Err (LUsers e) | Ok _ => Ok uf end
              end
          end
      end
  end.

(* src: internal/auth/store.go LoadUsers *)
Definition LoadUsers (path : string) : prog (result load_error (UsersFile F)) :=
  let! r := Read path 1048576 in
  Ret (match r with Err e => Err (LRead e) | Ok data => ParseUsers data end).

Inductive update_error :=
| UpLock | UpLoad (e : load_error) | UpFn (e : cmd_error) | UpInvalid (e : users_error) | UpMarshal | UpReplace (e : replace_error).

(** The new file, from the old one. *)
(* src: internal/auth/store.go 352-362 Update *)
Definition updated {A} (fn : UsersFile F -> result cmd_error (UsersFile F * A)) (uf : UsersFile F) : result update_error (string * A) :=
  match fn uf with
  | Err e => Err (UpFn e)
  | Ok (uf, a) =>
      match validateUsers uf with
      | Err e => Err (UpInvalid e)
      | Ok _ => match yaml_marshal uf with None => Err UpMarshal | Some out => Ok (out, a) end
      end
  end.

(** What is done under the lock. *)
(* src: internal/auth/store.go 344-371 Update *)
Definition update_locked {A} (path : string) (fn : UsersFile F -> result cmd_error (UsersFile F * A)) : prog (result update_error A) :=
  let! r := LoadUsers path in
  match (match r with
         | Err (LRead (FOpen ENOENT)) => Ok (mkUsersFile 1 [])
         | Err e => Err (UpLoad e)
         | Ok uf => Ok uf
         end) with
  | Err e => Ret (Err e)
  | Ok uf =>
      match updated fn uf with
      | Err e => Ret (Err e)
      | Ok (out, a) =>
          let! r := ReplacePreservingOwner egid path 384 416 (mkEmission [out] false) in    (* 0o600, 0o640 *)
          Ret (match r with Err e => Err (UpReplace e) | Ok _ => Ok a end)
      end
  end.

(** The lock is released when its file is closed. *)
(* src: internal/auth/store.go Update *)
Definition Update {A} (path : string) (fn : UsersFile F -> result cmd_error (UsersFile F * A)) : prog (result update_error A) :=
  let! r := call (OpenLock (path +:+ ".lock")) in
  match r with
  | Err _ => Ret (Err UpLock)
  | Ok fd =>
      let! r := call (Flock fd) in
      match r with
      | Err _ => closing fd (Err UpLock)
      | Ok _ => let! r := update_locked path fn in closing fd r
      end
  end.

(** ** Commands: the exit code, and what goes to standard output *)

(* src: internal/auth/store.go 191-194 LoadPepper *)
Definition load_pepper (path : string) : prog (option string) :=
  let! r := Read path 4096 in
  Ret (match r with Err _ => None | Ok data => LoadPepper data end).

(* src: cmd/mellomting/main.go keyCreate *)
Definition keyCreate (c : keyFlags F) (usersPath pepperPath : string) (generate : nat -> result key_error (string * string)) : prog (Z * option string) :=
  let! p := load_pepper pepperPath in
  match p with
  | None => Ret (1, None)
  | Some pepper =>
      match splitModels (f_models c) with
      | Err _ => Ret (2, None)
      | Ok models =>
          let! r := Update usersPath (add_key c pepper models generate) in
          Ret (match r with Err _ => (1, None) | Ok key => (0, Some key) end)
      end
  end.

Definition no_output (r : result cmd_error (UsersFile F)) : result cmd_error (UsersFile F * unit) :=
  match r with Ok uf => Ok (uf, tt) | Err e => Err e end.

(* src: cmd/mellomting/main.go keySetEnabled *)
Definition keySetEnabled (usersPath id sub : string) (enable : bool) : prog (Z * option string) :=
  let! r := Update usersPath (fun uf => no_output (setEnabled uf id enable)) in
  Ret (match r with Err _ => (1, None) | Ok _ => (0, Some (sub +:+ "d key " +:+ id)) end).

(* src: cmd/mellomting/main.go keyRevoke *)
Definition keyRevoke (usersPath id : string) : prog (Z * option string) :=
  let! r := Update usersPath (fun uf => no_output (revoke uf id)) in
  Ret (match r with Err _ => (1, None) | Ok _ => (0, Some ("revoked key " +:+ id)) end).
End Users.

(** ** What the commands change *)

Section ChangeFacts.
Context {F : Type} `{Float64 F}.
Implicit Types (k : Key F) (ks : list (Key F)) (uf : UsersFile F).

Lemma set_enabled_split id b ks ks' : set_enabled_in id b ks = Some ks' ->
  exists l1 k l2, ks = l1 ++ k :: l2 /\ ID k = id /\ id ∉ (ID <$> l1) /\ ks' = l1 ++ with_enabled b k :: l2.
Proof.
  revert ks'. induction ks as [|k ks IH]; intros ks'; cbn; [done|]. destruct (String.eqb_spec (ID k) id) as [E|E].
  - intros [= <-]. exists [], k, ks. split; [done|]. split; [done|]. split; [apply not_elem_of_nil|done].
  - destruct (set_enabled_in id b ks) as [l|]; [|done]. intros [= <-]. destruct (IH l eq_refl) as (l1 & k' & l2 & -> & Hid & Hn & ->).
    exists (k :: l1), k', l2. split; [done|]. split; [done|]. split; [|done]. cbn. apply not_elem_of_cons. by split.
Qed.

Lemma remove_first_split id ks ks' : remove_first id ks = Some ks' ->
  exists l1 k l2, ks = l1 ++ k :: l2 /\ ID k = id /\ id ∉ (ID <$> l1) /\ ks' = l1 ++ l2.
Proof.
  revert ks'. induction ks as [|k ks IH]; intros ks'; cbn; [done|]. destruct (String.eqb_spec (ID k) id) as [E|E].
  - intros [= <-]. exists [], k, ks. split; [done|]. split; [done|]. split; [apply not_elem_of_nil|done].
  - destruct (remove_first id ks) as [l|]; [|done]. intros [= <-]. destruct (IH l eq_refl) as (l1 & k' & l2 & -> & Hid & Hn & ->).
    exists (k :: l1), k', l2. split; [done|]. split; [done|]. split; [|done]. cbn. apply not_elem_of_cons. by split.
Qed.

Lemma userIDExists_spec uf id : userIDExists uf id = true <-> id ∈ (ID <$> Keys uf).
Proof.
  unfold userIDExists. rewrite existsb_exists, list_elem_of_fmap. split.
  - intros (k & Hin & E). apply String.eqb_eq in E. exists k. by rewrite list_elem_of_In.
  - intros (k & -> & Hin). exists k. rewrite <- list_elem_of_In. by rewrite String.eqb_refl.
Qed.

(** The identifier is new, and it comes from one of the first [max] calls,
    all before it having collided. *)
Lemma choose_from_spec generate uf max i n key id : choose_from generate uf max i n = Ok (key, id) ->
  id ∉ (ID <$> Keys uf) /\ exists j, (i <= j < i + n)%nat /\ generate j = Ok (key, id) /\
    forall j', (i <= j' < j)%nat -> exists key' id', generate j' = Ok (key', id') /\ id' ∈ (ID <$> Keys uf).
Proof.
  revert i. induction n as [|n IH]; intros i; cbn [choose_from]; [done|]. destruct (generate i) as [[k1 i1]|e] eqn:E; [|done].
  destruct (userIDExists uf i1) eqn:Eu.
  - intros (Hn & j & Hj & Hg & Hb)%IH. split; [done|]. exists j. split; [lia|]. split; [done|]. intros j' Hj'.
    destruct (decide (j' = i)) as [->|]; [exists k1, i1; split; [done|by apply userIDExists_spec]|]. apply Hb. lia.
  - intros [= <- <-]. split; [rewrite <- userIDExists_spec; congruence|]. exists i. split; [lia|]. split; [done|]. lia.
Qed.

Lemma with_enabled_valid b k : valid_key k -> valid_key (with_enabled b k).
Proof. by intros []. Qed.
Lemma fmap_ID_middle (l1 l2 : list (Key F)) k k' : ID k = ID k' -> ID <$> (l1 ++ k :: l2) = ID <$> (l1 ++ k' :: l2).
Proof. intros E. rewrite !fmap_app. cbn. by rewrite E. Qed.

Lemma setEnabled_valid uf id b uf' : validateUsers uf = Ok tt -> setEnabled uf id b = Ok uf' -> validateUsers uf' = Ok tt.
Proof.
  rewrite !validateUsers_ok. unfold setEnabled. intros (Hv & Hk & Hnd). destruct (set_enabled_in id b (Keys uf)) as [ks|] eqn:E; [|done]. intros [= <-].
  destruct (set_enabled_split _ _ _ _ E) as (l1 & k & l2 & Ek & _ & _ & ->). rewrite Ek in *. cbn. split; [done|]. split.
  - apply Forall_app in Hk as [H1 [H2 H3]%Forall_cons]. apply Forall_app. split; [done|]. constructor; [by apply with_enabled_valid|done].
  - by rewrite (fmap_ID_middle l1 l2 (with_enabled b k) k).
Qed.

Lemma revoke_valid uf id uf' : validateUsers uf = Ok tt -> revoke uf id = Ok uf' -> validateUsers uf' = Ok tt.
Proof.
  rewrite !validateUsers_ok. unfold revoke. intros (Hv & Hk & Hnd). destruct (remove_first id (Keys uf)) as [ks|] eqn:E; [|done]. intros [= <-].
  destruct (remove_first_split _ _ _ E) as (l1 & k & l2 & Ek & _ & _ & ->). rewrite Ek in *. cbn. split; [done|]. split.
  - apply Forall_app in Hk as [H1 [H2 H3]%Forall_cons]. by apply Forall_app.
  - rewrite fmap_app in Hnd |- *. cbn in Hnd. apply NoDup_app in Hnd as (N1 & N2 & N3). apply NoDup_cons in N3 as [_ N3]. apply NoDup_app. set_solver.
Qed.

(** ** What they change for the daemon *)

Lemma Lookup_same (s s' : Store (F := F)) now raw : pepper s = pepper s' ->
  (forall p, Auth.Parse raw = Ok p -> byID s !! pID p = byID s' !! pID p) -> Lookup s now raw = Lookup s' now raw.
Proof.
  intros Hp Hid. unfold Lookup. destruct (Auth.Parse raw) as [p|]; [|done]. rewrite <- (Hid p eq_refl), <- Hp. destruct (byID s !! pID p); [|done]. done.
Qed.

Lemma index_middle (l1 l2 l2' : list (Key F)) id : NoDup (ID <$> (l1 ++ l2)) -> NoDup (ID <$> (l1 ++ l2')) ->
  (forall k, ID k = id -> k ∈ l2 <-> k ∈ l2') -> index_keys (l1 ++ l2) !! id = index_keys (l1 ++ l2') !! id.
Proof.
  intros N1 N2 E. apply option_eq. intros r. rewrite !index_keys_lookup by done. setoid_rewrite elem_of_app.
  split; intros (k & Hin & Hid & ->); exists k; (split; [|done]); destruct Hin; [by left|right; by apply E|by left|right; by apply E].
Qed.

Section Stores.
Variables (uf uf' : UsersFile F) (pep : string) (rnd rnd' : option string) (s s' : Store (F := F)) (id : string).
Hypotheses (Hv : validateUsers uf = Ok tt) (Hs : NewStore uf pep rnd = Ok s) (Hs' : NewStore uf' pep rnd' = Ok s').

Lemma other_keys_same now raw : validateUsers uf' = Ok tt ->
  (exists l1 k l2, Keys uf = l1 ++ k :: l2 /\ ID k = id /\ (Keys uf' = l1 ++ l2 \/ exists b, Keys uf' = l1 ++ with_enabled b k :: l2)) ->
  (forall p, Auth.Parse raw = Ok p -> pID p <> id) -> Lookup s' now raw = Lookup s now raw.
Proof.
  intros Hv' (l1 & k & l2 & E & Hid & E') Hne. destruct (NewStore_inv _ _ _ _ Hs) as [Hb Hp]. destruct (NewStore_inv _ _ _ _ Hs') as [Hb' Hp'].
  apply validateUsers_ok in Hv as (_ & _ & N1). apply validateUsers_ok in Hv' as (_ & _ & N2).
  apply Lookup_same; [by rewrite Hp, Hp'|]. intros p Hpar. rewrite Hb, Hb'. specialize (Hne p Hpar). rewrite E in *.
  destruct E' as [E'|[b E']]; rewrite E' in *; apply index_middle; try done.
  - intros k0 Hk0. rewrite elem_of_cons. split; [by right|]. intros [->|]; [congruence|done].
  - intros k0 Hk0. rewrite !elem_of_cons. split; (intros [->|]; [exfalso; cbn in Hk0; congruence|by right]).
Qed.
End Stores.

Lemma remove_first_none id ks : remove_first id ks = None <-> existsb (fun k => String.eqb (ID k) id) ks = false.
Proof. induction ks as [|k ks IH]; cbn; [done|]. destruct (String.eqb (ID k) id); [done|]. rewrite orb_false_l, <- IH. by destruct (remove_first id ks). Qed.
Lemma set_enabled_none id b ks : set_enabled_in id b ks = None <-> existsb (fun k => String.eqb (ID k) id) ks = false.
Proof. induction ks as [|k ks IH]; cbn; [done|]. destruct (String.eqb (ID k) id); [done|]. rewrite orb_false_l, <- IH. by destruct (set_enabled_in id b ks). Qed.
Lemma revoke_found uf id : is_ok (revoke uf id) = userIDExists uf id.
Proof.
  unfold revoke, userIDExists. pose proof (remove_first_none id (Keys uf)) as E. destruct (remove_first id (Keys uf)), (existsb _ (Keys uf)); cbn; try done; naive_solver.
Qed.
Lemma setEnabled_found uf id b : is_ok (setEnabled uf id b) = userIDExists uf id.
Proof.
  unfold setEnabled, userIDExists. pose proof (set_enabled_none id b (Keys uf)) as E. destruct (set_enabled_in id b (Keys uf)), (existsb _ (Keys uf)); cbn; try done; naive_solver.
Qed.

(** What a caller gets who holds a key with that id, once it is withdrawn. *)
Definition withdrawn (id : string) (denial : result lookup_error (Key F) -> lookup_error) (s : Store (F := F)) (now : time) (raw : string) : result lookup_error (Key F) :=
  match Auth.Parse raw with
  | Ok p => if String.eqb (pID p) id then Err (denial (Lookup s now raw)) else Lookup s now raw
  | Err _ => Lookup s now raw
  end.
Definition revoked (r : result lookup_error (Key F)) : lookup_error := ErrUnknownKey.
Definition disabled (r : result lookup_error (Key F)) : lookup_error := match r with Err ErrUnknownKey => ErrUnknownKey | _ => ErrDisabled end.

Lemma withdrawn_spec uf uf' pep rnd rnd' (s s' : Store (F := F)) id denial now raw :
  validateUsers uf = Ok tt -> NewStore uf pep rnd = Ok s -> NewStore uf' pep rnd' = Ok s' -> validateUsers uf' = Ok tt ->
  (exists l1 k l2, Keys uf = l1 ++ k :: l2 /\ ID k = id /\ (Keys uf' = l1 ++ l2 \/ exists b, Keys uf' = l1 ++ with_enabled b k :: l2)) ->
  (forall p, Auth.Parse raw = Ok p -> pID p = id -> Lookup s' now raw = Err (denial (Lookup s now raw))) ->
  Lookup s' now raw = withdrawn id denial s now raw.
Proof.
  intros Hv Hs Hs' Hv' Hch Hid. unfold withdrawn. destruct (Auth.Parse raw) as [p|e] eqn:Ep.
  - destruct (String.eqb_spec (pID p) id) as [E|E]; [by apply (Hid p)|]. apply (other_keys_same uf uf' pep rnd rnd' s s' id); try done. intros p'. rewrite Ep. by intros [= <-].
  - unfold Lookup. by rewrite Ep.
Qed.

Lemma revoked_unknown uf uf' pep rnd' (s' : Store (F := F)) id now raw p : validateUsers uf = Ok tt -> revoke uf id = Ok uf' -> validateUsers uf' = Ok tt ->
  NewStore uf' pep rnd' = Ok s' -> Auth.Parse raw = Ok p -> pID p = id -> Lookup s' now raw = Err ErrUnknownKey.
Proof.
  rewrite !validateUsers_ok. intros (_ & _ & Hnd) Hr (_ & _ & Hnd') [Hb _]%NewStore_inv Hp Hid. unfold Lookup. rewrite Hp, Hb.
  destruct (index_keys (Keys uf') !! pID p) as [r|] eqn:E; [exfalso|done]. apply index_keys_lookup in E as (k & Hin & Hk & _); [|done].
  unfold revoke in Hr. destruct (remove_first id (Keys uf)) as [ks|] eqn:E; [|done]. injection Hr as <-. cbn in Hin.
  destruct (remove_first_split _ _ _ E) as (l1 & k0 & l2 & E1 & Hid0 & _ & E2). rewrite E1, fmap_app in Hnd. cbn in Hnd. subst ks.
  apply NoDup_app in Hnd as (_ & N2 & [N3 _]%NoDup_cons). assert (ID k = ID k0) as Ek by congruence. apply elem_of_app in Hin as [Hin|Hin].
  - apply (N2 (ID k)); [by apply list_elem_of_fmap_2|]. rewrite Ek. by left.
  - apply N3. rewrite <- Ek. by apply list_elem_of_fmap_2.
Qed.

Lemma disabled_denied uf uf' pep rnd rnd' (s s' : Store (F := F)) id now raw p : validateUsers uf = Ok tt -> setEnabled uf id false = Ok uf' -> validateUsers uf' = Ok tt ->
  NewStore uf pep rnd = Ok s -> NewStore uf' pep rnd' = Ok s' -> Auth.Parse raw = Ok p -> pID p = id -> Lookup s' now raw = Err (disabled (Lookup s now raw)).
Proof.
  rewrite !validateUsers_ok. intros (_ & _ & Hnd) Hr (_ & _ & Hnd') [Hb Hpe]%NewStore_inv [Hb' Hpe']%NewStore_inv Hp Hid.
  unfold setEnabled in Hr. destruct (set_enabled_in id false (Keys uf)) as [ks|] eqn:E; [|done]. injection Hr as <-. cbn in *.
  destruct (set_enabled_split _ _ _ _ E) as (l1 & k & l2 & E1 & Hk & _ & ->).
  assert (byID s !! pID p = Some (normalize k)) as H1.
  { rewrite Hb. apply index_keys_lookup; [done|]. exists k. rewrite E1. split; [|by split; [congruence|]]. rewrite elem_of_app. right. by left. }
  assert (byID s' !! pID p = Some (normalize (with_enabled false k))) as H2.
  { rewrite Hb'. apply index_keys_lookup; [done|]. exists (with_enabled false k). split; [|by split; [cbn; congruence|]]. rewrite elem_of_app. right. by left. }
  unfold Lookup. rewrite Hp, H1, H2, Hpe, Hpe'.
  destruct (normalize_same k) as (_ & HN & HS & HE & HX & _). destruct (normalize_same (with_enabled false k)) as (_ & HN' & HS' & HE' & _). cbn in HN', HS', HE'.
  rewrite HN', HS', HE', HN, HS. destruct (ParseHashValue (SecretHash k)); [|done]. destruct (ConstantTimeCompare _ _); [|done]. cbn [negb].
  destruct (ConstantTimeCompare _ _); [|done]. cbn [negb]. destruct (Enabled (normalize k)); cbn [negb]; [|done]. destruct (ExpiresAt (normalize k)) as [e|]; [|done]. by destruct (After now e).
Qed.

Lemma revoke_lookup uf uf' id pep rnd rnd' (s s' : Store (F := F)) now raw : validateUsers uf = Ok tt -> NewStore uf pep rnd = Ok s ->
  revoke uf id = Ok uf' -> NewStore uf' pep rnd' = Ok s' -> Lookup s' now raw = withdrawn id revoked s now raw.
Proof.
  intros Hv Hs Hr Hs'. pose proof (revoke_valid _ _ _ Hv Hr) as Hv'. apply (withdrawn_spec uf uf' pep rnd rnd' s s' id); try done.
  - unfold revoke in Hr. destruct (remove_first id (Keys uf)) as [ks|] eqn:E; [|done]. injection Hr as <-.
    destruct (remove_first_split _ _ _ E) as (l1 & k & l2 & E1 & Hid & _ & E2). exists l1, k, l2. split; [done|]. split; [done|]. by left.
  - intros p Hp Hid. by apply (revoked_unknown uf uf' pep rnd' s' id now raw p).
Qed.

(** Withdrawing a key denies that key and no other.  [key revoke] and
    [key disable] fail exactly when no key of the file has the id; what they
    leave is a valid users file; and the store the daemon then builds answers
    every raw key whose id is another exactly as before, while one with that
    id is unknown after a revocation, and after a disabling is disabled to
    whoever holds its secret and unknown to everybody else. *)
Theorem withdrawal_exact uf id pep rnd (s : Store (F := F)) (Hv : validateUsers uf = Ok tt) (Hs : NewStore uf pep rnd = Ok s) :
  (is_ok (revoke uf id) = userIDExists uf id /\ is_ok (setEnabled uf id false) = userIDExists uf id) /\
  (forall uf', revoke uf id = Ok uf' -> validateUsers uf' = Ok tt /\
     forall rnd' (s' : Store (F := F)) now raw, NewStore uf' pep rnd' = Ok s' -> Lookup s' now raw = withdrawn id revoked s now raw) /\
  (forall uf', setEnabled uf id false = Ok uf' -> validateUsers uf' = Ok tt /\
     forall rnd' (s' : Store (F := F)) now raw, NewStore uf' pep rnd' = Ok s' -> Lookup s' now raw = withdrawn id disabled s now raw).
Proof.
  split; [split|split]; [apply revoke_found|apply setEnabled_found| |].
  - intros uf' Hr. split; [by eapply revoke_valid|]. intros rnd' s' now raw Hs'. by eapply revoke_lookup.
  - intros uf' Hr. pose proof (setEnabled_valid _ _ _ _ Hv Hr) as Hv'. split; [done|]. intros rnd' s' now raw Hs'.
    apply (withdrawn_spec uf uf' pep rnd rnd' s s' id); try done.
    { unfold setEnabled in Hr. destruct (set_enabled_in id false (Keys uf)) as [ks|] eqn:E; [|done]. injection Hr as <-.
      destruct (set_enabled_split _ _ _ _ E) as (l1 & k & l2 & E1 & Hid & _ & E2). exists l1, k, l2. split; [done|]. split; [done|]. right. by exists false. }
    intros p Hp Hid. by eapply (disabled_denied uf uf' pep rnd rnd' s s' id).
Qed.

Lemma model_names_spec parts : model_names parts =
  (List.filter (fun p => negb (String.eqb p "") && negb (String.eqb p ModelWildcard)) (map TrimSpace parts), existsb (fun p => String.eqb p ModelWildcard) (map TrimSpace parts)).
Proof.
  induction parts as [|p parts IH]; [done|]. cbn [model_names map List.filter existsb]. rewrite IH. cbn [fst snd].
  destruct (String.eqb_spec (TrimSpace p) "") as [E|E]; [by rewrite E|]. by destruct (String.eqb (TrimSpace p) ModelWildcard).
Qed.

(** The wildcard alone, or names without it. *)
Lemma splitModels_ok s ms : splitModels s = Ok ms -> ms <> [] /\
  ((ms = [ModelWildcard]) \/ (ModelWildcard ∉ ms /\ "" ∉ ms /\ forall m, m ∈ ms <-> m <> "" /\ m <> ModelWildcard /\ exists p, p ∈ split_on ","%char s /\ m = TrimSpace p)).
Proof.
  unfold splitModels. rewrite model_names_spec. cbn [fst snd]. set (l := List.filter _ _). set (b := existsb _ _).
  assert (forall m, m ∈ l <-> m <> "" /\ m <> ModelWildcard /\ exists p, p ∈ split_on ","%char s /\ m = TrimSpace p) as Hl.
  { intros m. unfold l. rewrite list_elem_of_In, filter_In, in_map_iff, andb_true_iff, !negb_true_iff, !String.eqb_neq. setoid_rewrite <- list_elem_of_In. naive_solver. }
  destruct b; cbn [andb]; case_bool_decide as E; cbn [negb]; try done.
  - intros [= <-]. split; [done|by left].
  - intros [= <-]. split; [done|]. right. split; [|split; [|exact Hl]]; intros ?%Hl; naive_solver.
Qed.

Lemma new_key_valid (c : keyFlags F) pep models key id : check_flags c = Ok tt -> models <> [] -> isLowerHex id 16 = true -> valid_key (new_key c pep models key id).
Proof.
  unfold check_flags, ValidateUsername. destruct (usernamePattern (operand c)) eqn:Hu; [|done].
  destruct (Z.ltb_spec (concurrentRequests c) 0); [done|]. destruct (f_ltb (requestsPerSecond c) (f_of_Z 0)) eqn:Hr; [done|].
  destruct (Z.ltb_spec (f_burst c) 0); [done|]. intros _ Hm Hid. 
  assert (ParseHashValue (SecretHash (new_key c pep models key id)) = Ok (Hash pep key)) as Hh by (apply ParseHashValue_Format, hmac_sha256_length).
  constructor; [done|done|by rewrite Hh|done|done|done|done|done|done].
Qed.

Lemma index_snoc (ks : list (Key F)) k id : NoDup (ID <$> ks) -> ID k <> id -> ID k ∉ (ID <$> ks) ->
  index_keys (ks ++ [k]) !! id = index_keys ks !! id.
Proof.
  intros N Hne Hni. rewrite <- (app_nil_r ks) at 2. apply index_middle; [|by rewrite app_nil_r|].
  - rewrite fmap_app. apply NoDup_app. split; [done|]. split; [|apply NoDup_singleton]. intros x Hx ->%list_elem_of_singleton. done.
  - intros k0 Hk0. rewrite list_elem_of_singleton. split; [intros ->; congruence|by intros ?%not_elem_of_nil].
Qed.

Lemma generated (c : keyFlags F) (j : nat) (idb sb : nat -> option string) key id : Generate (operand c) (idb j) (sb j) = Ok (key, id) ->
  (forall i b, idb i = Some b -> String.length b = keyIDBytes) -> (forall i b, sb i = Some b -> String.length b = secretBytes) ->
  exists b1 b2 : string, String.length b1 = keyIDBytes /\ String.length b2 = secretBytes /\
    Generate (operand c) (Some b1) (Some b2) = Ok (key, id) /\ isLowerHex id 16 = true.
Proof.
  intros Hg Hid Hsb. destruct (idb j) as [b1|] eqn:E1; [|unfold Generate in Hg; by destruct (usernamePattern _)].
  destruct (sb j) as [b2|] eqn:E2; [|unfold Generate in Hg; by destruct (usernamePattern _)].
  exists b1, b2. split; [by eapply Hid|]. split; [by eapply Hsb|]. split; [done|]. unfold Generate in Hg. destruct (usernamePattern _); [|done].
  injection Hg as <- <-. apply (isLowerHex_encode b1 8). by eapply Hid.
Qed.

Lemma appended_valid uf k : validateUsers uf = Ok tt -> valid_key k -> ID k ∉ (ID <$> Keys uf) -> validateUsers (mkUsersFile (uf_Version uf) (Keys uf ++ [k])) = Ok tt.
Proof.
  rewrite !validateUsers_ok. cbn. intros (Hv & Hk & Hnd) Hvk Hni. split; [done|]. split; [apply Forall_app; split; [done|by constructor]|].
  rewrite fmap_app. apply NoDup_app. split; [done|]. split; [|apply NoDup_singleton]. intros x Hx ->%list_elem_of_singleton. done.
Qed.

Lemma new_key_allows (c : keyFlags F) pep models key id m : (models = [ModelWildcard] \/ ModelWildcard ∉ models /\ "" ∉ models /\ (forall m, m ∈ models <-> m <> "" /\ m <> ModelWildcard /\ exists p, p ∈ split_on ","%char (f_models c) /\ m = TrimSpace p)) ->
  Allows (normalize (new_key c pep models key id)) m = true <-> models = [ModelWildcard] \/ m ∈ models.
Proof.
  intros Hml. destruct (normalize_same (new_key c pep models key id)) as (_ & _ & _ & _ & _ & HM). unfold Allows. rewrite HM. cbn [Models new_key].
  rewrite existsb_exists. setoid_rewrite orb_true_iff. setoid_rewrite String.eqb_eq. setoid_rewrite <- list_elem_of_In. split.
  - intros (x & Hin & [->| ->]); [by right|]. destruct Hml as [|[Hn _]]; [by left|done].
  - intros [->|Hin]; [exists ModelWildcard; split; [by left|by right]|]. exists m. split; [done|by left].
Qed.

(** A created key works, for what it was created for, and takes nothing
    from the others.  From flags and a model list the command accepts, and
    full random reads, [key create] either fails (a read failed, or eight
    identifiers in a row were taken) or appends one key to the file; the
    file is then valid, and in the daemon's store built from it the printed
    key authenticates until it expires, is allowed exactly the models listed
    (or all, for the wildcard alone), and every raw key with another id gets
    the answer it got before. *)
Theorem created_key_exact uf (c : keyFlags F) pep models (idb sb : nat -> option string) uf' key rnd (s : Store (F := F))
  (Hv : validateUsers uf = Ok tt) (Hs : NewStore uf pep rnd = Ok s)
  (Hc : check_flags c = Ok tt) (Hm : splitModels (f_models c) = Ok models)
  (Hid : forall i b, idb i = Some b -> String.length b = keyIDBytes) (Hsb : forall i b, sb i = Some b -> String.length b = secretBytes)
  (Hadd : add_key c pep models (fun i => Generate (operand c) (idb i) (sb i)) uf = Ok (uf', key)) :
  validateUsers uf' = Ok tt /\
  exists k, Keys uf' = Keys uf ++ [k] /\ Name k = operand c /\ ID k ∉ (ID <$> Keys uf) /\
    (forall m, Allows (normalize k) m = true <-> models = [ModelWildcard] \/ m ∈ models) /\
    forall rnd' (s' : Store (F := F)) now, NewStore uf' pep rnd' = Ok s' ->
      ((forall e, f_expires c = Some e -> now <= e) -> Lookup s' now key = Ok (normalize k)) /\
      (forall raw p, Auth.Parse raw = Ok p -> pID p <> ID k -> Lookup s' now raw = Lookup s now raw).
Proof.
  unfold add_key, chooseKeyID in Hadd. destruct (choose_from _ uf 8 0 8) as [[k1 id]|e] eqn:E; [|done]. injection Hadd as <- <-.
  apply choose_from_spec in E as (Hfresh & j & _ & Hg & _). destruct (splitModels_ok _ _ Hm) as [Hne Hml].
  destruct (generated c j idb sb k1 id Hg Hid Hsb) as (b1 & b2 & Hb1 & Hb2 & Hgen & Hhex).
  pose proof (new_key_valid c pep models k1 id Hc Hne Hhex) as Hvk. set (k := new_key c pep models k1 id) in *.
  assert (validateUsers (mkUsersFile (uf_Version uf) (Keys uf ++ [k])) = Ok tt) as Hv' by (by apply appended_valid).
  split; [done|]. exists k. split; [done|]. split; [done|]. split; [done|]. split; [intros m; by apply (new_key_allows c pep models k1 id m)|].
  intros rnd' s' now Hs'. split.
  - intros Hexp. eapply (minted_key_authenticates _ k pep rnd' k1 b1 b2 s' now Hv'); try done. cbn. rewrite elem_of_app. right. by left.
  - intros raw p Hp Hpk. destruct (NewStore_inv _ _ _ _ Hs) as [Hb Hpe]. destruct (NewStore_inv _ _ _ _ Hs') as [Hb' Hpe'].
    apply Lookup_same; [congruence|]. intros p'. rewrite Hp. intros [= <-]. rewrite Hb, Hb'. apply validateUsers_ok in Hv as (_ & _ & Hnd).
    apply index_snoc; [done|by apply not_eq_sym|done].
Qed.
End ChangeFacts.

(** ** The update *)

Section UpdateFacts.
Context {F : Type} `{Float64 F}.
Variable yaml_stream : string -> list (option Config.ynode).
Variable yaml_decode : Config.ynode -> option (UsersFile F).
Variable yaml_marshal : UsersFile F -> option string.
Variables (egid : Z) (path : string) (A : Type) (fn : UsersFile F -> result cmd_error (UsersFile F * A)).
Notation ParseUsers := (ParseUsers yaml_stream yaml_decode).
Notation updated := (updated yaml_marshal).
Notation always := (Prog.always (respects path) behaves).

(** The key list of the file at the path: none if there is no file. *)
Definition current (v : host) : option (UsersFile F) :=
  match h_names v !! path with
  | None => Some (mkUsersFile 1 [])
  | Some k =>
      match h_nodes v !! k with
      | Some n =>
          if bool_decide (n_kind n = KFile) && negb (WorldAccessible (n_perm n)) && (slen (n_data n) <=? 1048576)
          then match ParseUsers (n_data n) with Ok uf => Some uf | Err _ => None end else None
      | None => None
      end
  end.

(** The file that an update writes. *)
Definition outcome (v : host) : option (string * A) :=
  match current v with
  | Some uf => match updated fn uf with Ok x => Some x | Err _ => None end
  | None => None
  end.
Definition written (v0 : host) : emission := mkEmission [default "" (fst <$> outcome v0)] false.

(** While the lock is held the path has the old file or the new one. *)
Definition update_safe (v0 v : host) : Prop :=
  steady path 384 416 (written v0) (kept path v0) (fun _ => True) v.
Definition update_ended (v0 : host) (r : result update_error A) (v : host) : Prop :=
  match r with
  | Ok a => exists out k, outcome v0 = Some (out, a) /\ h_names v !! path = Some k /\ is_new 384 416 (mkEmission [out] false) v k
  | Err _ => kept path v0 v
  end.

Lemma read_current v0 r : read_result path v0 1048576 true r ->
  match (match r with Err e => Err (LRead e) | Ok data => ParseUsers data end) with
  | Err (LRead (FOpen ENOENT)) => current v0 = Some (mkUsersFile 1 [])
  | Err _ => True
  | Ok uf => current v0 = Some uf
  end.
Proof.
  unfold current. destruct r as [data|[[]| | | | |]]; cbn; try done.
  - intros (k & n & -> & -> & Hk & Hw & -> & Hl). rewrite bool_decide_true by done. cbn [andb] in Hw. rewrite Hw. cbn [negb andb]. rewrite (proj2 (Z.leb_le _ _)) by done.
    destruct (ParseUsers (n_data n)) as [uf|e] eqn:E; [done|]. destruct e as [e| | |]; try done. exfalso. revert E. unfold Keys.ParseUsers. repeat case_match; done.
  - by intros ->.
Qed.

Lemma update_locked_spec v0 (Hmine : h_mine v0 = ∅) :
  always (update_safe v0) (update_ended v0) (update_locked yaml_stream yaml_decode yaml_marshal egid path fn) v0.
Proof.
  assert (fresh (kept path v0) (h_fails v0) v0) as H0 by done.
  assert (forall f v, fresh (kept path v0) f v -> update_safe v0 v) as HP by (intros f v; by apply fresh_steady).
  unfold update_locked, LoadUsers. apply always_bind, always_bind. unfold Read. eapply always_mono, (read_spec path v0 1048576 true _ 0 eq_refl HP (h_fails v0)); [|done|lia].
  intros r v1 ((f & Hf & Hv1) & Hr & _). cbn [Prog.always]. apply read_current in Hr.
  assert (kept path v0 v1) as Hk1 by apply Hv1.
  set (loaded := match r with Err e => Err (LRead e) | Ok data => ParseUsers data end) in *. clearbody loaded. clear r.
  assert (forall uf, current v0 = Some uf -> always (update_safe v0) (update_ended v0)
    (match updated fn uf with
     | Err e => Ret (Err e)
     | Ok (out, a) => let! r := ReplacePreservingOwner egid path 384 416 (mkEmission [out] false) in Ret (match r with Err e => Err (UpReplace e) | Ok _ => Ok a end)
     end) v1) as Hgo.
  { intros uf Hc. destruct (updated fn uf) as [[out a]|e] eqn:E; [|done]. apply always_bind. assert (outcome v0 = Some (out, a)) as Ho by (unfold outcome; by rewrite Hc, E).
    assert (written v0 = mkEmission [out] false) as Hw by (unfold written; by rewrite Ho). unfold update_safe. rewrite Hw.
    eapply always_mono, (replace_spec egid path 384 416 (mkEmission [out] false) (respects path) (kept path v0) (fun _ => True)).
    - intros [[]|e] v [Hs He]; cbn; [|apply He]. destruct He as (_ & _ & k & Hk & Hn & _). by exists out, k.
    - apply respects_interferes.
    - apply respects_kept.
    - apply kept_entry.
    - done.
    - exact Hv1. }
  destruct loaded as [uf|[[[]| | | | |]| | |]]; try done; by apply Hgo.
Qed.

(** ** The lock

    The other programs that change the file take the same lock: they leave
    the path alone while this one holds it, and may do what they like before
    and after.  Nobody replaces the lock file, or plants a link there. *)

Definition lock_path : string := path +:+ ".lock".
Definition holds (fd k : Z) (v : host) : Prop := fd ∈ h_locks v /\ h_fds v !! fd = Some k /\ h_names v !! lock_path = Some k.
Definition plain_lock (v : host) : Prop := forall k, h_names v !! lock_path = Some k -> exists n, h_nodes v !! k = Some n /\ n_kind n <> KLink.
Definition cooperates (v v' : host) : Prop :=
  interferes v v' /\ (is_Some (h_names v !! lock_path) -> same_entry lock_path v v') /\ (plain_lock v -> plain_lock v') /\
  forall fd k, holds fd k v -> same_entry path v v'.

Lemma cooperates_respects fd k v v' : holds fd k v -> cooperates v v' -> respects path v v'.
Proof. intros Hh (Hi & _ & _ & He). split; [done|by eapply He]. Qed.
Lemma holds_others fd k v v' : holds fd k v -> cooperates v v' -> holds fd k v'.
Proof. intros (H1 & H2 & H3) (Hi & Hl & _). destruct (Hl ltac:(by exists k)) as [Hn _]. destruct Hi as (d & nodes & -> & _). split; [done|]. split; [done|]. congruence. Qed.

Lemma lock_not_path : path <> lock_path.
Proof. intros E. apply (f_equal String.length) in E. unfold lock_path in E. rewrite slen_app in E. cbn in E. lia. Qed.

(** What is done under the lock leaves the lock file alone, and the lock is
    kept. *)
Notation locked_job := (update_locked yaml_stream yaml_decode yaml_marshal egid path fn).

Lemma locked_spares x : spares x locked_job.
Proof.
  unfold update_locked. apply spares_bind; [apply spares_bind; [apply read_spares|done]|]. intros r.
  assert (forall uf, spares x (match updated fn uf with
     | Err e => Ret (Err e)
     | Ok (out, a) => let! r := ReplacePreservingOwner egid path 384 416 (mkEmission [out] false) in Ret (match r with Err e => Err (UpReplace e) | Ok _ => Ok a end)
     end)) as Hgo by (intros uf; destruct (updated fn uf) as [[out a]|e]; [|done]; apply spares_bind; [apply replace_spares|done]).
  destruct r as [uf|[[[]| | | | |]| | |]]; try done; apply Hgo.
Qed.

Lemma locked_frames T F0 : frames lock_path (fun _ _ _ => True) T F0 locked_job.
Proof.
  unfold update_locked, LoadUsers. apply frames_bind, frames_bind. eapply frames_mono, read_frames. intros rd T' F' _. cbn [frames].
  generalize (match rd with Err e => Err (LRead e) | Ok data => ParseUsers data end). intros r.
  assert (forall uf, frames lock_path (fun _ _ _ => True) T' F' (match updated fn uf with
     | Err e => Ret (Err e)
     | Ok (out, a) => let! r := ReplacePreservingOwner egid path 384 416 (mkEmission [out] false) in Ret (match r with Err e => Err (UpReplace e) | Ok _ => Ok a end)
     end)) as Hgo.
  { intros uf. destruct (updated fn uf) as [[out a]|e]; [|done]. apply frames_bind. eapply frames_mono, replace_frames; [done|apply lock_not_path]. }
  destruct r as [uf|[[[]| | | | |]| | |]]; try done; apply Hgo.
Qed.

Lemma locked_holds fd k v : h_mine v = ∅ -> plain_lock v -> holds fd k v ->
  Prog.always cooperates behaves (fun v => holds fd k v) (fun _ v => holds fd k v) locked_job v.
Proof.
  intros Hm Hpl (H1 & H2 & H3). destruct (Hpl k H3) as (n & Hn & _).
  assert (owned lock_path k (n_kind n) (n_data n) ∅ ∅ v) as Ho.
  { split; [split; [done|]; split; [rewrite Hm; apply not_elem_of_empty|by exists n]|]. split; intros y Hy; by apply not_elem_of_empty in Hy. }
  eapply always_weaken, always_mono, (spares_always fd k lock_path (n_kind n) (n_data n) cooperates ∅ ∅);
    [..|apply locked_frames|apply locked_spares|exact Ho|by split].
  - intros w [[Ha Hb] [Hc _]]. by split.
  - intros a w [[Ha Hb] [Hc _]]. by split.
  - intros w w' (Hi & Hl & _) _ _. split; [done|]. intros (Hc & Hcm & m & Hw & Hk & Hd). destruct (Hl ltac:(by exists k)) as [E1 E2].
    split; [congruence|]. split; [by destruct Hi as (d & nodes & -> & _)|]. exists m. by rewrite E2.
Qed.

(** From the moment the lock is taken on. *)
Lemma locked_transaction fd k v : h_mine v = ∅ -> plain_lock v -> holds fd k v ->
  Prog.always cooperates behaves (update_safe v) (update_ended v) (let! r := locked_job in closing fd r) v.
Proof.
  intros Hm Hpl Hh. apply always_bind.
  pose proof (always_guard (respects path) cooperates behaves (holds fd k) (update_safe v) _ _ locked_job v (cooperates_respects fd k) Hh
    (locked_holds fd k v Hm Hpl Hh) (update_locked_spec v Hm)) as Hall.
  assert (update_safe v v) as H0 by (eapply fresh_steady; [done|by split]). apply always_end in Hall; [|by split].
  eapply always_weaken, always_mono, Hall; [by intros w []|]. cbn beta. intros r w ([Hsafe _] & Hend & Hw) w1 x w2 Hi Hb.
  pose proof (cooperates_respects _ _ _ _ Hw Hi) as Hr. assert (update_safe v w1 /\ update_ended v r w1) as [Hs1 He1].
  { split; [eapply steady_respects; [exact Hsafe|exact Hr]|]. destruct r as [a|e]; cbn in Hend |- *; [|by eapply respects_kept].
    destruct Hend as (out & j & Ho & Hj & Hn). exists out, j. split; [done|]. destruct Hr as [Hi1 [He _]]. split; [congruence|by eapply is_new_interferes]. }
  assert (w2 = close_fd fd w1 \/ w2 = fault w1 \/ w2 = fault (close_fd fd w1)) as Hw2 by (destruct x; cbn in Hb; tauto). clear Hb Hi.
  split; [by destruct Hw2 as [->|[->| ->]]|]. destruct r; by destruct Hw2 as [->|[->| ->]].
Qed.

(** The lock file is open at [fd]. *)
Definition locking (fd k : Z) (v : host) : Prop := h_mine v = ∅ /\ plain_lock v /\ h_fds v !! fd = Some k /\ h_names v !! lock_path = Some k.
Lemma locking_others fd k v v' : locking fd k v -> cooperates v v' -> locking fd k v'.
Proof.
  intros (Hm & Hpl & Hf & Hn) (Hi & Hl & Hp & _). destruct (Hl ltac:(by exists k)) as [E _]. specialize (Hp Hpl).
  destruct Hi as (d & nodes & -> & _). split; [done|]. split; [done|]. split; [done|]. congruence.
Qed.
Lemma opened_locking fd v v' : h_mine v = ∅ -> plain_lock v ->
  (exists k n, resolves v lock_path k n /\ opened v v' fd k) \/ (exists k n h1, n_kind n = KFile /\ adds v h1 lock_path k n /\ opened h1 v' fd k) ->
  exists k, locking fd k v'.
Proof.
  intros Hm Hpl [(k & n & (Hk & Hn & k0 & n0 & Hp & Hn0 & Hs & _) & _ & ->)|(k & n & h1 & Hkind & (_ & _ & ->) & _ & ->)]; exists k.
  - destruct (Hpl _ Hp) as (n1 & Hn1 & Hl1). rewrite <- (Hs ltac:(congruence)) in Hp. split; [done|]. split; [done|]. split; [apply lookup_insert_eq|done].
  - split; [done|]. split; [|split; [apply lookup_insert_eq|apply lookup_insert_eq]]. intros j Hj. cbn in Hj. rewrite lookup_insert_eq in Hj. injection Hj as <-.
    exists n. cbn. rewrite lookup_insert_eq. split; [done|]. by rewrite Hkind.
Qed.

(** The runs before the lock is taken, and those after. *)
Lemma Update_runs q v0 v : h_mine v0 = ∅ -> plain_lock v0 ->
  rtc (Prog.step cooperates behaves) (Update yaml_stream yaml_decode yaml_marshal egid path fn, v0) (q, v) ->
  (h_mine v = ∅ /\ forall r, q = Ret r -> r = Err UpLock) \/
  exists fd k vl, h_mine vl = ∅ /\ plain_lock vl /\ holds fd k vl /\
    rtc (Prog.step cooperates behaves) (Update yaml_stream yaml_decode yaml_marshal egid path fn, v0) (let! r := locked_job in closing fd r, vl) /\
    rtc (Prog.step cooperates behaves) (let! r := locked_job in closing fd r, vl) (q, v).
Proof.
  intros Hm Hpl Hrun. destruct (rtc_call _ _ _ _ _ _ _ Hrun) as [[-> ->]|(v1 & r & v2 & Hi & Hb & Hr)]; [by left|].
  pose proof Hi as (Hi0 & _ & Hpl1 & _). specialize (Hpl1 Hpl). assert (h_mine v1 = ∅) as Hm1 by (by destruct Hi0 as (d & nodes & -> & _)).
  destruct r as [fd|e]; cbn in Hb.
  2: { left. subst v2. apply rtc_ret in Hr as [-> ->]. split; [done|]. by intros r [= <-]. }
  assert (exists k, locking fd k v2) as (k & Hl2) by (by eapply opened_locking).
  destruct (rtc_call _ _ _ _ _ _ _ Hr) as [[-> ->]|(v3 & r & v4 & Hi3 & Hb3 & Hr4)]; [left; split; [apply Hl2|done]|].
  pose proof (locking_others _ _ _ _ Hl2 Hi3) as Hl3. destruct r as [[]|e]; cbn in Hb3.
  - right. destruct Hb3 as [_ ->]. exists fd, k, (lock_fd fd v3). destruct Hl3 as (H1 & H2 & H3 & H4). split; [done|]. split; [done|].
    split; [split; [cbn; set_solver|by split]|]. split; [|exact Hr4]. eapply (rtc_l _ _ (_, v2)); [exists v1, (Ok fd); split; [exact Hi|split; [exact Hb|done]]|].
    eapply (rtc_l _ _ (_, lock_fd fd v3)); [exists v3, (Ok tt); split; [exact Hi3|split; [|done]]|apply rtc_refl]. split; [by exists k|done].
  - left. subst v4. destruct (rtc_call _ _ _ _ _ _ _ Hr4) as [[-> ->]|(v5 & r & v6 & Hi5 & Hb5 & Hr6)]; [split; [apply Hl3|done]|].
    assert (h_mine v5 = ∅) as Hm5. { destruct Hi5 as [(d & nodes & -> & _) _]. apply Hl3. }
    apply rtc_ret in Hr6 as [-> ->]. split; [|by intros r0 [= <-]]. destruct r; cbn in Hb5; [by subst v6|]. by destruct Hb5 as [-> | ->].
Qed.

End UpdateFacts.

(** ** Witnesses *)

Module KeysDemo.
(** A little codec: two users files. *)
Definition stream (s : string) : list (option Config.ynode) := [Some (Config.YNode Config.YDocument "" "" (slen s) [])].
Definition decode (n : Config.ynode) : option (UsersFile Q) :=
  match n with Config.YNode _ _ _ line _ => if line =? 5 then Some (mkUsersFile 1 []) else Some Auth.Demo.users end.
Definition marshal (uf : UsersFile Q) : option string := Some (if bool_decide (Keys uf = []) then "none." else "alice's key").
Definition path : string := "/etc/m/users.yaml".
Definition host0 : host :=
  let d := <[path := 7]> (<["/etc/m" := 2]> ∅) in
  mkHost d (<[7 := mkNode KFile 416 0 991 "alice's key" true 0]> (<[2 := mkNode KDir 488 0 991 "" true 0]> ∅)) ∅ [d] ∅ 0 ∅.
Definition change (uf : UsersFile Q) : result cmd_error (UsersFile Q * unit) := no_output (revoke uf (ID Auth.Demo.key)).
Definition job : prog (result update_error unit) := update_locked stream decode marshal 0 path change.

Definition flags : keyFlags Q := mkFlags "bob" " m1, m2" None 2 (1 # 2)%Q 0.
Definition no_users : UsersFile Q := mkUsersFile 1 [].
Definition no_store : Store (F := Q) := mkStore (index_keys []) Auth.Demo.pep "dummy".
Definition minted : UsersFile Q * string := Eval vm_compute in
  match add_key flags Auth.Demo.pep ["m1"; "m2"] (fun _ => Generate "bob" (Some Auth.Demo.idb) (Some Auth.Demo.sb)) no_users with Ok x => x | Err _ => (no_users, "") end.

Definition update : prog (result update_error unit) := Update stream decode marshal 0 path change.
(** There is no lock file yet. *)
Lemma no_lock : plain_lock path host0.
Proof. intros k Hk. vm_compute in Hk. discriminate Hk. Qed.
Example full_update : let x := run [] update host0 in (x.1, n_data <$> (snd <$> node_at x.2 path)) = (Ok tt, Some "none.").
Proof. vm_compute. reflexivity. Qed.
Example splits : map splitModels ["*"; " m1 ,,m2"; "*,m1"; " , "] = [Ok ["*"]; Ok ["m1"; "m2"]; Err MixedWildcard; Err NoModelNamed].
Proof. vm_compute. reflexivity. Qed.
End KeysDemo.

Lemma idle_cooperates path h : cooperates path h (idle h).
Proof. split; [apply host_idle_interferes|]. split; [by intros _|]. split; [done|]. by intros fd k _. Qed.
Lemma run_cooperates {A} path (p : prog A) plan h : rtc (Prog.step (cooperates path) behaves) (p, h) (Ret (run plan p h).1, (run plan p h).2).
Proof. apply Prog.run_executes; [apply idle_cooperates|apply host_sys_behaves|apply fails_behaves]. Qed.


Lemma withdrawal_exact_witness :
  Lookup KeysDemo.no_store 0 Auth.Demo.raw = withdrawn (ID Auth.Demo.key) revoked Auth.Demo.store 0 Auth.Demo.raw.
Proof.
  destruct (withdrawal_exact Auth.Demo.users (ID Auth.Demo.key) Auth.Demo.pep (Some "dummy") Auth.Demo.store) as (_ & H & _); [vm_compute; reflexivity|vm_compute; reflexivity|].
  destruct (H KeysDemo.no_users) as [_ Hl]; [vm_compute; reflexivity|]. apply (Hl (Some "dummy")). vm_compute. reflexivity.
Defined.

Lemma created_key_exact_witness :
  validateUsers KeysDemo.minted.1 = Ok tt /\
  exists k, Keys KeysDemo.minted.1 = [] ++ [k] /\ Name k = "bob" /\ (forall m, Allows (normalize k) m = true <-> ["m1"; "m2"] = [ModelWildcard] \/ m ∈ ["m1"; "m2"]).
Proof.
  destruct (created_key_exact KeysDemo.no_users KeysDemo.flags Auth.Demo.pep ["m1"; "m2"] (fun _ => Some Auth.Demo.idb) (fun _ => Some Auth.Demo.sb)
    KeysDemo.minted.1 KeysDemo.minted.2 (Some "dummy") KeysDemo.no_store) as (Hv & k & Hk & Hn & _ & Ha & _).
  - vm_compute. reflexivity.
  - vm_compute. reflexivity.
  - vm_compute. reflexivity.
  - vm_compute. reflexivity.
  - intros i b [= <-]. reflexivity.
  - intros i b [= <-]. reflexivity.
  - vm_compute. reflexivity.
  - split; [exact Hv|]. exists k. split; [exact Hk|]. split; [exact Hn|exact Ha].
Defined.
