(* ===== verification/Load.v ===== *)
(** * Loading the configuration: [internal/config/load.go]

    The configuration file is opened, bounded and read, then parsed
    ([Config.v]).  The operating system is that of [Host.v].  Unlike the
    files with secrets, the configuration may be reached through links and
    may be readable by anyone. *)

From Stdlib Require Import Ascii.
From S2P Require Import Prelude Float64 GoStrings Net Config Prog Host Replace.
#[local] Open Scope Z_scope.

(* src: internal/config/config.go 29-30 MaxFileBytes *)
Definition MaxFileBytes : Z := 2 ^ 20.

Inductive load_error := LoadOpen (e : errno) | LoadStat | LoadNotRegular | LoadRead | LoadTooLarge | LoadParse (e : parse_error) | LoadRender.

(** The descriptor is closed on every return. *)
(* src: internal/config/load.go readBounded *)
Definition readBounded (path : string) : prog (result load_error string) :=
  let! r := call (Open path) in
  match r with
  | Err e => Ret (Err (LoadOpen e))
  | Ok fd =>
      let! r := call (FStat fd) in
      match r with
      | Err _ => closing fd (Err LoadStat)
      | Ok info =>
          if IsDir info then closing fd (Err LoadNotRegular)
          else
          let! r := call (ReadLimit fd (MaxFileBytes + 1)) in
          match r with
          | Err _ => closing fd (Err LoadRead)
          | Ok data => closing fd (if MaxFileBytes <? slen data then Err LoadTooLarge else Ok data)
          end
      end
  end.

Section Load.
Context {F : Type} `{Float64 F}.
(** gopkg.in/yaml.v3, as in [Config.v], and its encoder. *)
Variable yaml_stream : string -> list (option ynode).
Variable yaml_is_map : ynode -> bool.
Variable yaml_decode : ynode -> option (sourceDoc (F := F)).
Variable yaml_encode : effectiveDoc (F := F) -> option string.
Variable url_parse : string -> option URL.

(** There is no partial state. *)
(* src: internal/config/load.go Load *)
Definition Load (path : string) : prog (result load_error (Config (F := F))) :=
  let! r := readBounded path in
  Ret (match r with
       | Err e => Err e
       | Ok data => match Parse yaml_stream yaml_is_map yaml_decode url_parse data with Ok cfg => Ok cfg | Err e => Err (LoadParse e) end
       end).

(* src: internal/config/load.go LoadEffective *)
Definition LoadEffective (path : string) : prog (result load_error (Config (F := F) * string)) :=
  let! r := readBounded path in
  Ret (match r with
       | Err e => Err e
       | Ok data =>
           match ParseEffective yaml_stream yaml_is_map yaml_decode url_parse data with
           | Err e => Err (LoadParse e)
           | Ok (cfg, doc) => match yaml_encode doc with Some out => Ok (cfg, out) | None => Err LoadRender end
           end
       end).

(** ** What is loaded was there

    While nothing else runs. *)

(** The file at the end of the links of a path. *)
Definition holds (h : host) (path : string) (n : inode) : Prop := exists k, resolves h path k n.

(** Descriptors come and go, and operations fail; nothing else changes. *)
Definition same_files (h h' : host) : Prop := h_names h' = h_names h /\ h_nodes h' = h_nodes h /\ h_hist h' = h_hist h /\ h_mine h' = h_mine h.

Lemma same_files_refl h : same_files h h.
Proof. done. Qed.
Lemma same_files_fault h h' : same_files h h' -> same_files h (fault h').
Proof. done. Qed.
Lemma same_files_fds h h' fds : same_files h h' -> same_files h (set_fds fds h').
Proof. done. Qed.

Notation quietly := (Prog.always (@eq host) behaves).

Lemma quietly_closing {A} h0 fd (a : A) h : same_files h0 h ->
  quietly (same_files h0) (fun a' h' => a' = a /\ same_files h0 h' /\ (h_fails h <= h_fails h')%nat) (closing fd a) h.
Proof.
  intros Hs. unfold closing. cbn. intros h1 r h2 <- Hb. destruct r as [|e]; [by subst h2|]. destruct Hb as [->| ->]; (split; [done|]; split; [done|]; split; [done|cbn; lia]).
Qed.

(** A failure, or what is at the path cannot be a configuration. *)
Definition read_in (h : host) (path : string) (r : result load_error string) (h' : host) : Prop :=
  match r with
  | Ok data => exists n, holds h path n /\ n_data n = data /\ n_kind n <> KDir /\ slen data <= MaxFileBytes
  | Err _ => (h_fails h < h_fails h')%nat \/ exists n, holds h path n /\ (n_kind n = KDir \/ MaxFileBytes < slen (n_data n))
  end.

Lemma failed_closing h fd (e : load_error) h1 path : same_files h h1 -> (h_fails h <= h_fails h1)%nat ->
  quietly (same_files h) (fun r h' => read_in h path r h' /\ same_files h h') (closing fd (Err e)) (fault h1).
Proof.
  intros Hs Hf. eapply always_mono; [|by apply quietly_closing]. intros r h' (-> & Hs' & Hle). cbn in *. split; [left; lia|done].
Qed.

Lemma read_opened path h h1 (fd k : Z) n : resolves h path k n -> same_files h h1 -> (h_fails h <= h_fails h1)%nat -> h_fds h1 !! fd = Some k -> h_nodes h1 !! k = Some n ->
  quietly (same_files h) (fun r h' => read_in h path r h' /\ same_files h h')
    (let! r := call (FStat fd) in
     match r with
     | Err _ => closing fd (Err LoadStat)
     | Ok info =>
         if IsDir info then closing fd (Err LoadNotRegular)
         else
         let! r := call (ReadLimit fd (MaxFileBytes + 1)) in
         match r with
         | Err _ => closing fd (Err LoadRead)
         | Ok data => closing fd (if MaxFileBytes <? slen data then Err LoadTooLarge else Ok data)
         end
     end) h1.
Proof.
  intros Hk Hs Hf Hfd Hn h2 r h3 <- Hb. destruct r as [info|e]; [|cbn in Hb; subst h3; split; [done|]; by apply failed_closing].
  destruct Hb as [(k' & n' & Hk' & Hn' & ->) ->]. split; [done|]. rewrite Hfd in Hk'. injection Hk' as <-. rewrite Hn in Hn'. injection Hn' as <-.
  cbn [bind call]. unfold IsDir. cbn [info_of fi_kind]. case_bool_decide as Hd.
  { eapply always_mono; [|by apply quietly_closing]. intros r h' (-> & Hs' & _). split; [|done]. right. exists n. split; [by exists k|by left]. }
  intros h2 r h3 <- Hb. destruct r as [data|e]; [|cbn in Hb; subst h3; split; [done|]; by apply failed_closing].
  destruct Hb as [(k' & n' & Hk' & Hn' & ->) ->]. split; [done|]. rewrite Hfd in Hk'. injection Hk' as <-. rewrite Hn in Hn'. injection Hn' as <-.
  cbn [bind call]. eapply always_mono; [|by apply quietly_closing]. intros r h' (-> & Hs' & _). split; [|done].
  destruct (Z.ltb_spec MaxFileBytes (slen (stake (Z.to_nat (MaxFileBytes + 1)) (n_data n)))) as [Hlt|Hl].
  - right. exists n. split; [by exists k|]. right. unfold slen in *. rewrite stake_length in Hlt. lia.
  - exists n. split; [by exists k|]. split; [|by split]. symmetry. apply stake_all. unfold slen in Hl. rewrite stake_length in Hl. lia.
Qed.

Lemma readBounded_spec path h : quietly (same_files h) (fun r h' => read_in h path r h' /\ same_files h h') (readBounded path) h.
Proof.
  unfold readBounded. intros h1 r h2 <- Hb. destruct r as [fd|e]; [|cbn in Hb; subst h2; split; [done|]; split; [left; cbn; lia|done]].
  destruct Hb as (k & n & Hk & Hfd & ->). split; [done|].
  apply (read_opened path h _ fd k n); [done|done|cbn; lia| |by destruct Hk]. cbn. by rewrite lookup_insert_eq.
Qed.

(** What is at the end of the links of the path is no configuration. *)
Definition unusable (h : host) (path : string) : Prop :=
  exists n, holds h path n /\ (n_kind n = KDir \/ MaxFileBytes < slen (n_data n) \/ is_ok (Parse yaml_stream yaml_is_map yaml_decode url_parse (n_data n)) = false).

(** A configuration that loads is what the bounded content of the file parses
    to, one that does not is unusable unless an operation failed (a file that
    is not there is one that cannot be opened), and loading changes no
    file. *)
Lemma Load_spec path h :
  quietly (same_files h)
    (fun r h' => (match r with
                  | Ok cfg => exists n, holds h path n /\ n_kind n <> KDir /\ slen (n_data n) <= MaxFileBytes /\ Parse yaml_stream yaml_is_map yaml_decode url_parse (n_data n) = Ok cfg
                  | Err _ => (h_fails h < h_fails h')%nat \/ unusable h path
                  end) /\ same_files h h')
    (Load path) h.
Proof.
  unfold Load. apply always_bind. eapply always_mono; [|apply readBounded_spec]. intros r h' [Hr Hs]. cbn. split; [|done]. destruct r as [data|e].
  - destruct Hr as (n & Hn & <- & Hd & Hl). destruct (Parse _ _ _ _ _) as [cfg|e] eqn:E; [by exists n|]. right. exists n. split; [done|]. right. right. by rewrite E.
  - destruct Hr as [Hr|(n & Hn & Hu)]; [by left|right]. exists n. split; [done|]. tauto.
Qed.
End Load.
