(* ===== verification/Flags.v ===== *)
(** * Go's [flag], and the values its flags take

    What the command lines of [cmd/mellomting] use of the standard library:
    [strconv.ParseBool], [strconv.ParseInt] with base 0, [strconv.ParseFloat],
    [time.ParseDuration], the two layouts [time.Parse] is given, and
    [flag.FlagSet.Parse]; and that [Parse] accepts exactly the command lines
    of a grammar, with the settings they spell. *)

From Stdlib Require Import Ascii SpecFloat.
From S2P Require Import Prelude Float64 GoStrings Net Json Accounting Config.
#[local] Open Scope Z_scope.

(** ** Numbers *)

Definition or20 (c : ascii) : Z := Z.lor (bval c) 32.

(** The value of a digit, letters counting from ten. *)
Definition digit_of (base : Z) (c : ascii) : option Z :=
  let d := if is_digit c then bval c - 48 else if (97 <=? or20 c) && (or20 c <=? 122) then or20 c - 87 else base in
  if d <? base then Some d else None.

(** What was seen last: nothing, a digit, an underscore, something else. *)
Inductive seen := SNothing | SDigit | SUnderscore | SOther.

Fixpoint underscores_ok (hex : bool) (last : seen) (s : string) : bool :=
  match s with
  | "" => match last with SUnderscore => false | _ => true end
  | String c s =>
      if is_digit c || (hex && bool_decide (is_Some (digit_of 16 c))) then underscores_ok hex SDigit s
      else if Ascii.eqb c "_"%char then match last with SDigit => underscores_ok hex SUnderscore s | _ => false end
      else match last with SUnderscore => false | _ => underscores_ok hex SOther s end
  end.

Definition drop_sign (s : string) : string := if has_prefix "-" s || has_prefix "+" s then sdrop 1 s else s.

(** The letter of a base prefix: [0b], [0o], [0x]. *)
Definition base_prefix (s : string) : option Z :=
  match s with
  | String z (String c _) => if Ascii.eqb z "0"%char then Some (or20 c) else None
  | _ => None
  end.

Definition underscoreOK (s : string) : bool :=
  let s := drop_sign s in
  match base_prefix s with
  | Some c => if (c =? 98) || (c =? 111) || (c =? 120) then underscores_ok (c =? 120) SDigit (sdrop 2 s) else underscores_ok false SNothing s
  | None => underscores_ok false SNothing s
  end.

(** The digits of a number, underscores skipped. *)
Fixpoint digits_acc (base acc : Z) (s : string) : option Z :=
  match s with
  | "" => Some acc
  | String c s =>
      if Ascii.eqb c "_"%char then digits_acc base acc s
      else match digit_of base c with Some d => digits_acc base (acc * base + d) s | None => None end
  end.

(** [strconv.ParseUint] with base 0: the base by the prefix. *)
Definition ParseUint0 (s : string) : option Z :=
  if String.eqb s "" then None
  else
    let '(base, body) :=
      match base_prefix s with
      | Some c =>
          if (3 <=? slen s) && (c =? 98) then (2, sdrop 2 s)
          else if (3 <=? slen s) && (c =? 111) then (8, sdrop 2 s)
          else if (3 <=? slen s) && (c =? 120) then (16, sdrop 2 s)
          else (8, sdrop 1 s)
      | None => if String.eqb s "0" then (8, "") else (10, s)
      end in
    match digits_acc base 0 body with
    | Some n => if (n <? 2 ^ 64) && (negb (contains_char "_"%char s) || underscoreOK s) then Some n else None
    | None => None
    end.

(** [strconv.ParseInt] with base 0, of 64 bits. *)
Definition ParseInt0 (s : string) : option Z :=
  match ParseUint0 (drop_sign s) with
  | Some n => let z := if has_prefix "-" s then - n else n in if (MinInt64 <=? z) && (z <=? MaxInt64) then Some z else None
  | None => None
  end.
Example ParseInt0_ex :
  map ParseInt0 ["42"; "-7"; "+7"; "0x1F"; "0b101"; "017"; "0"; "1_000"; "1__0"; "_1"; "0x_1"; "08"; ""; "-"; "9223372036854775808"; "-9223372036854775808"]
  = [Some 42; Some (-7); Some 7; Some 31; Some 5; Some 15; Some 0; Some 1000; None; None; Some 1; None; None; None; None; Some MinInt64].
Proof. vm_compute. reflexivity. Qed.

Definition ParseBool (s : string) : option bool :=
  if one_of ["1"; "t"; "T"; "true"; "TRUE"; "True"] s then Some true
  else if one_of ["0"; "f"; "F"; "false"; "FALSE"; "False"] s then Some false else None.

(** ** Floating-point numbers *)

(** Mantissa of a text: its digits as a number, how many follow the point,
    whether there is a point, whether there is a digit, and the rest. *)
Record mantissa := mkMantissa { mt_value : Z; mt_frac : Z; mt_dot : bool; mt_digits : bool; mt_rest : string }.

Fixpoint scan_mantissa (base : Z) (m : mantissa) (s : string) : mantissa :=
  match s with
  | "" => mkMantissa (mt_value m) (mt_frac m) (mt_dot m) (mt_digits m) ""
  | String c s' =>
      if Ascii.eqb c "_"%char then scan_mantissa base m s'
      else if Ascii.eqb c "."%char && negb (mt_dot m) then scan_mantissa base (mkMantissa (mt_value m) (mt_frac m) true (mt_digits m) "") s'
      else match digit_of base c with
           | Some d => scan_mantissa base (mkMantissa (mt_value m * base + d) (mt_frac m + if mt_dot m then 1 else 0) (mt_dot m) true "") s'
           | None => mkMantissa (mt_value m) (mt_frac m) (mt_dot m) (mt_digits m) s
           end
  end.

(** The digits of an exponent; it stops growing at 10000. *)
Fixpoint scan_exponent (e : Z) (s : string) : option Z :=
  match s with
  | "" => Some e
  | String c s =>
      if Ascii.eqb c "_"%char then scan_exponent e s
      else if is_digit c then scan_exponent (if e <? 10000 then e * 10 + (bval c - 48) else e) s
      else None
  end.

(** What follows the mantissa, to the end of the text. *)
Definition exponent_of (letter : Z) (required : bool) (s : string) : option Z :=
  match s with
  | "" => if required then None else Some 0
  | String c s =>
      if or20 c =? letter then
        match drop_sign s with
        | String d _ => if is_digit d then option_map (fun e => if has_prefix "-" s then - e else e) (scan_exponent 0 (drop_sign s)) else None
        | "" => None
        end
      else None
  end.

(** [m * 10 ^ e] and [m * 2 ^ e], rounded to nearest even; [None] out of range. *)
Definition in_range64 (f : spec_float) : option spec_float := match f with S754_infinity _ => None | _ => Some f end.
Definition of_decimal (neg : bool) (m e : Z) : option spec_float :=
  in_range64
    (if m =? 0 then S754_zero neg
     else if 0 <=? e then binary_normalize Binary64.prec Binary64.emax (if neg then - (m * 10 ^ e) else m * 10 ^ e) 0 neg
     else SFdiv Binary64.prec Binary64.emax (S754_finite neg (Z.to_pos m) 0) (S754_finite false (Z.to_pos (10 ^ (- e))) 0)).
Definition of_binary (neg : bool) (m e : Z) : option spec_float :=
  in_range64 (binary_normalize Binary64.prec Binary64.emax (if neg then - m else m) e neg).

(** Infinities and not-a-number, by name. *)
Definition special (s : string) : option spec_float :=
  if one_of ["inf"; "infinity"] (to_lower (drop_sign s)) then Some (S754_infinity (has_prefix "-" s))
  else if String.eqb (to_lower s) "nan" then Some S754_nan else None.

(** [strconv.ParseFloat], of 64 bits. *)
Definition ParseFloat (s : string) : option spec_float :=
  match special s with
  | Some f => Some f
  | None =>
      let neg := has_prefix "-" s in
      let body := drop_sign s in
      let hex := match base_prefix body with Some c => (3 <=? slen body) && (c =? 120) | None => false end in
      let m := scan_mantissa (if hex then 16 else 10) (mkMantissa 0 0 false false "") (if hex then sdrop 2 body else body) in
      if negb (mt_digits m) then None
      else match exponent_of (if hex then 112 else 101) hex (mt_rest m) with
           | None => None
           | Some e =>
               if contains_char "_"%char s && negb (underscoreOK s) then None
               else if hex then of_binary neg (mt_value m) (e - 4 * mt_frac m) else of_decimal neg (mt_value m) (e - mt_frac m)
           end
  end.
Example ParseFloat_ex :
  map ParseFloat ["2.5"; "-1e3"; "+.5"; "0x1p-2"; "1_0.5"; "inf"; "-Infinity"; "NaN"; "1e400"; "."; "1e"; "0x1"; "1_"; "2.5x"; ""; "0.1"]
  = [Some (SFdiv 53 1024 (Binary64.of_Z 5) (Binary64.of_Z 2)); Some (Binary64.of_Z (-1000)); Some (SFdiv 53 1024 (Binary64.of_Z 1) (Binary64.of_Z 2));
     Some (SFdiv 53 1024 (Binary64.of_Z 1) (Binary64.of_Z 4)); Some (SFdiv 53 1024 (Binary64.of_Z 21) (Binary64.of_Z 2)); Some (S754_infinity false);
     Some (S754_infinity true); Some S754_nan; None; None; None; None; None; None; None; Some (SFdiv 53 1024 (Binary64.of_Z 1) (Binary64.of_Z 10))].
Proof. vm_compute. reflexivity. Qed.

(** ** Durations: [time.ParseDuration] *)

(** An overflow is an error. *)
Fixpoint leadingInt (x : Z) (s : string) : option (Z * string) :=
  match s with
  | String c s' =>
      if is_digit c then
        if 2 ^ 63 / 10 <? x then None
        else let y := x * 10 + (bval c - 48) in if 2 ^ 63 <? y then None else leadingInt y s'
      else Some (x, s)
  | "" => Some (x, "")
  end.

(** Digits beyond the range are dropped. *)
Fixpoint leadingFraction (x : Z) (scale : spec_float) (overflow : bool) (s : string) : Z * spec_float * string :=
  match s with
  | String c s' =>
      if is_digit c then
        if overflow || (MaxInt64 / 10 <? x) then leadingFraction x scale true s'
        else let y := x * 10 + (bval c - 48) in
             if 2 ^ 63 <? y then leadingFraction x scale true s' else leadingFraction y (f_mul scale (f_of_Z 10)) false s'
      else (x, scale, s)
  | "" => (x, scale, "")
  end.

Fixpoint span_unit (s : string) : string * string :=
  match s with
  | String c s' => if Ascii.eqb c "."%char || is_digit c then ("", s) else let r := span_unit s' in (String c r.1, r.2)
  | "" => ("", "")
  end.

Definition micro (c1 c2 : Z) : string := String (byte c1) (String (byte c2) "s").
Definition unit_of (u : string) : option Z :=
  if String.eqb u "ns" then Some Nanosecond
  else if one_of ["us"; micro 194 181; micro 206 188] u then Some 1000
  else if String.eqb u "ms" then Some Millisecond
  else if String.eqb u "s" then Some Second
  else if String.eqb u "m" then Some Minute
  else if String.eqb u "h" then Some Hour else None.

(** A number and its unit. *)
Definition duration_term (s : string) : option (Z * string) :=
  match leadingInt 0 s with
  | None => None
  | Some (v, s1) =>
      let pre := negb (slen s1 =? slen s) in
      let '(f, scale, s2, post) :=
        match s1 with
        | String c s' => if Ascii.eqb c "."%char then let '(f, scale, r) := leadingFraction 0 (f_of_Z 1) false s' in (f, scale, r, negb (slen r =? slen s'))
                         else (0, f_of_Z 1, s1, false)
        | "" => (0, f_of_Z 1, "", false)
        end in
      if negb (pre || post) then None
      else let '(u, rest) := span_unit s2 in
      match unit_of u with
      | None => None
      | Some unit =>
          if 2 ^ 63 / unit <? v then None
          else let v := v * unit + (if 0 <? f then f_trunc (f_mul (f_of_Z f) (f_div (f_of_Z unit) scale)) else 0) in
          if 2 ^ 63 <? v then None else Some (v, rest)
      end
  end.

(** Every term takes a byte at least. *)
Fixpoint duration_terms (n : nat) (d : Z) (s : string) : option Z :=
  match n, s with
  | _, "" => Some d
  | O, _ => None
  | S n, _ =>
      match duration_term s with
      | None => None
      | Some (v, s) => let d := wrapu64 (d + v) in if 2 ^ 63 <? d then None else duration_terms n d s
      end
  end.

Definition ParseDuration (s : string) : option duration :=
  let body := drop_sign s in
  if String.eqb body "0" then Some 0
  else if String.eqb body "" then None
  else match duration_terms (String.length body) 0 body with
       | None => None
       | Some d => if has_prefix "-" s then Some (- d) else if MaxInt64 <? d then None else Some d
       end.
Example ParseDuration_ex :
  map ParseDuration ["1s"; "1h30m"; "250ms"; "-1.5s"; "0"; "1"; ".5m"; "."; "1d"; ""; "9223372036854775808ns"; "-9223372036854775808ns"; "1.0000000001s"]
  = [Some Second; Some (90 * Minute); Some (250 * Millisecond); Some (- 1500 * Millisecond); Some 0; None; Some (30 * Second); None; None; None; None; Some MinInt64; Some Second].
Proof. vm_compute. reflexivity. Qed.

(** ** Times: the layouts [time.DateOnly] and [time.RFC3339] of [time.Parse] *)

Definition parse_date_only (s : string) : option time :=
  bind (take_num 4 0 9999 s) (fun '(y, s) => bind (expect "-"%char s) (fun s =>
  bind (take_num 2 1 12 s) (fun '(mo, s) => bind (expect "-"%char s) (fun s =>
  bind (take_num 2 1 (days_in y mo) s) (fun '(d, s) =>
  if String.eqb s "" then Some (days_since_year1 y mo d * 86400 * Second) else None))))).

(** The hour may have one digit, the fraction a comma for its point, and the
    zone 24 hours or 60 minutes. *)
Definition take_hour (s : string) : option (Z * string) :=
  match s with
  | String c (String d _) => if is_digit d then take_num 2 0 23 s else take_num 1 0 9 s
  | _ => take_num 1 0 9 s
  end.

Definition scan_fraction (s : string) : Z * string :=
  match s with
  | String c r => if Ascii.eqb c ","%char then scan_nanos (String "." r) else scan_nanos s
  | "" => (0, "")
  end.

Definition scan_offset (s : string) : option Z :=
  if String.eqb s "Z" then Some 0
  else match s with
  | String sg r =>
      bind (take_num 2 0 24 r) (fun '(h, r) => bind (expect ":"%char r) (fun r => bind (take_num 2 0 60 r) (fun '(m, r) =>
      if negb (String.eqb r "") then None
      else if Ascii.eqb sg "+"%char then Some (h * 3600 + m * 60)
      else if Ascii.eqb sg "-"%char then Some (- (h * 3600 + m * 60)) else None)))
  | "" => None
  end.

Definition parse_time_rfc3339 (s : string) : option time :=
  bind (take_num 4 0 9999 s) (fun '(y, s) => bind (expect "-"%char s) (fun s =>
  bind (take_num 2 1 12 s) (fun '(mo, s) => bind (expect "-"%char s) (fun s =>
  bind (take_num 2 1 (days_in y mo) s) (fun '(d, s) => bind (expect "T"%char s) (fun s =>
  bind (take_hour s) (fun '(h, s) => bind (expect ":"%char s) (fun s =>
  bind (take_num 2 0 59 s) (fun '(mi, s) => bind (expect ":"%char s) (fun s =>
  bind (take_num 2 0 59 s) (fun '(sec, s) =>
  let '(ns, s) := scan_fraction s in
  bind (scan_offset s) (fun off =>
  Some ((days_since_year1 y mo d * 86400 + h * 3600 + mi * 60 + sec - off) * Second + ns))))))))))))).

(* src: cmd/mellomting/main.go parseExpiry *)
Definition parseExpiry (s : string) : option time :=
  match parse_date_only s with Some t => Some t | None => parse_time_rfc3339 s end.
Example parseExpiry_ex :
  map parseExpiry ["1970-01-02"; "1970-01-01T00:00:01Z"; "1970-01-01T1:00:01,5+01:00"; "1970-02-30"; "1970-1-1"; "tomorrow"; ""; "1970-01-01T00:00:01"; "1970-01-01 "]
  = [Some ((unix_to_internal + 86400) * Second); Some ((unix_to_internal + 1) * Second); Some ((unix_to_internal + 1) * Second + 500 * Millisecond); None; None; None; None; None; None].
Proof. vm_compute. reflexivity. Qed.

(** ** [flag.FlagSet.Parse] *)

(** What a flag holds; [KList] is a flag that may be repeated. *)
Inductive kind := KString | KBool | KInt | KFloat | KDuration | KList.
#[export] Instance kind_eq_dec : EqDecision kind.
Proof. solve_decision. Defined.
Inductive fval := VString (s : string) | VBool (b : bool) | VInt (n : Z) | VFloat (f : spec_float) | VDuration (d : duration).

(** [flag.Value.Set]. *)
Definition set_value (k : kind) (v : string) : option fval :=
  match k with
  | KString | KList => Some (VString v)
  | KBool => option_map VBool (ParseBool v)
  | KInt => option_map VInt (ParseInt0 v)
  | KFloat => option_map VFloat (ParseFloat v)
  | KDuration => option_map VDuration (ParseDuration v)
  end.

Inductive flag_error := ErrHelp | BadFlag (arg : string) | NotDefined (name : string) | NeedsArgument (name : string) | InvalidValue (name value : string).

(** The flags of a command. *)
Definition flagset := list (string * kind).
Fixpoint formal (fs : flagset) (name : string) : option kind :=
  match fs with [] => None | (n, k) :: fs => if String.eqb n name then Some k else formal fs name end.

(** One argument: not a flag, the end of the flags, a flag and its value if it
    has one, or neither. *)
Inductive shape := Positional | Terminator | Malformed | Named (name : string) (value : option string).

Definition split_value (name : string) : string * option string :=
  match cut_char "="%char name with Some (n, v) => (n, Some v) | None => (name, None) end.

Definition shape_of (arg : string) : shape :=
  if (slen arg <? 2) || negb (has_prefix "-" arg) then Positional
  else if String.eqb arg "--" then Terminator
  else
    let name := if has_prefix "--" arg then sdrop 2 arg else sdrop 1 arg in
    if has_prefix "-" name || has_prefix "=" name then Malformed
    else let x := split_value name in Named x.1 x.2.

(** The settings in the order they are made, and the arguments that are left. *)
Definition setting := (string * fval)%type.
Definition parsed := result flag_error (list setting * list string).
Definition then_parse (s : setting) (r : parsed) : parsed :=
  match r with Ok x => Ok (s :: x.1, x.2) | Err e => Err e end.

Definition set_flag (name : string) (k : kind) (value : string) (r : parsed) : parsed :=
  match set_value k value with Some v => then_parse (name, v) r | None => Err (InvalidValue name value) end.

Fixpoint Parse (fs : flagset) (args : list string) : parsed :=
  match args with
  | [] => Ok ([], [])
  | arg :: args' =>
      match shape_of arg with
      | Positional => Ok ([], args)
      | Terminator => Ok ([], args')
      | Malformed => Err (BadFlag arg)
      | Named name value =>
          match formal fs name with
          | None => if one_of ["help"; "h"] name then Err ErrHelp else Err (NotDefined name)
          | Some KBool => set_flag name KBool (default "true" value) (Parse fs args')
          | Some k =>
              match value, args' with
              | Some v, _ => set_flag name k v (Parse fs args')
              | None, v :: rest => set_flag name k v (Parse fs rest)
              | None, [] => Err (NeedsArgument name)
              end
          end
      end
  end.

(** ** The grammar of a command line *)

Section Grammar.
Variable fs : flagset.

(** The arguments that make one setting. *)
Inductive spells : list string -> setting -> Prop :=
| sp_with arg name k value v :
    shape_of arg = Named name (Some value) -> formal fs name = Some k -> set_value k value = Some v -> spells [arg] (name, v)
| sp_next arg name k value v :
    shape_of arg = Named name None -> formal fs name = Some k -> k <> KBool -> set_value k value = Some v -> spells [arg; value] (name, v)
| sp_bare arg name :
    shape_of arg = Named name None -> formal fs name = Some KBool -> spells [arg] (name, VBool true).

(** The flags end at the first argument that is none, or after [--]. *)
Inductive leftover : list string -> list string -> Prop :=
| lo_none : leftover [] []
| lo_positional arg args : shape_of arg = Positional -> leftover (arg :: args) (arg :: args)
| lo_terminated arg args : shape_of arg = Terminator -> leftover (arg :: args) args.

Inductive line : list string -> list setting -> list string -> Prop :=
| ln_end args rest : leftover args rest -> line args [] rest
| ln_setting w s args ss rest : spells w s -> line args ss rest -> line (w ++ args) (s :: ss) rest.

Lemma set_flag_ok name k value r ss rest : set_flag name k value r = Ok (ss, rest) ->
  exists v ss', set_value k value = Some v /\ ss = (name, v) :: ss' /\ r = Ok (ss', rest).
Proof.
  unfold set_flag. destruct (set_value k value) as [v|]; [|done]. unfold then_parse. destruct r as [[ss' rest']|e]; [|done]. cbn. intros [= <- <-]. eauto.
Qed.

Lemma Parse_line n : forall args ss rest, (length args <= n)%nat -> Parse fs args = Ok (ss, rest) -> line args ss rest.
Proof.
  induction n as [|n IH]; intros [|arg args] ss rest Hn Hp; cbn [length] in Hn; try lia; [by injection Hp as <- <-; repeat constructor..|]. cbn [Parse] in Hp.
  destruct (shape_of arg) as [| | |name value] eqn:Es; try done; [by injection Hp as <- <-; constructor; constructor..|].
  destruct (formal fs name) as [k|] eqn:Ef; [|by destruct (one_of _ _)].
  assert (forall value', value = Some value' -> set_flag name k value' (Parse fs args) = Ok (ss, rest) -> line (arg :: args) ss rest) as Hwith.
  { intros value' -> Hs. apply set_flag_ok in Hs as (v & ss' & Hv & -> & Hp'). apply (ln_setting [arg]); [by eapply sp_with|]. apply IH; [lia|done]. }
  destruct (decide (k = KBool)) as [->|Hk].
  - destruct value as [value|]; [by apply (Hwith value)|]. cbn [default] in Hp. apply set_flag_ok in Hp as (v & ss' & Hv & -> & Hp').
    injection Hv as <-. apply (ln_setting [arg]); [by eapply sp_bare|]. apply IH; [lia|done].
  - assert (match value, args with Some v, _ => set_flag name k v (Parse fs args) | None, v :: rest => set_flag name k v (Parse fs rest) | None, [] => Err (NeedsArgument name) end
            = Ok (ss, rest)) as Hp' by (by destruct k). clear Hp.
    destruct value as [value|]; [by apply (Hwith value)|]. destruct args as [|v args]; [done|]. cbn [length] in Hn.
    apply set_flag_ok in Hp' as (x & ss' & Hv & -> & Hp'). apply (ln_setting [arg; v]); [by eapply sp_next|]. apply IH; [lia|done].
Qed.

Lemma Parse_spelled w s args : spells w s -> Parse fs (w ++ args) = then_parse s (Parse fs args).
Proof.
  intros [arg name k value v Es Ef Hv|arg name k value v Es Ef Hk Hv|arg name Es Ef]; cbn [app Parse]; rewrite Es, Ef; unfold set_flag.
  - destruct k; cbn [default from_option]; unfold id; by rewrite Hv.
  - destruct k; try done; by rewrite Hv.
  - done.
Qed.

(** [Parse] accepts exactly the lines of the grammar. *)
Lemma Parse_iff args ss rest : Parse fs args = Ok (ss, rest) <-> line args ss rest.
Proof.
  split; [by apply (Parse_line (length args))|]. intros Hl. induction Hl as [args rest [|arg args' Es|arg args' Es]|w s args ss rest Hw _ IH]; cbn [Parse].
  - done.
  - by rewrite Es.
  - by rewrite Es.
  - by rewrite (Parse_spelled _ _ _ Hw), IH.
Qed.

End Grammar.
