(* ===== verification/Sandbox.v ===== *)
(** * Confinement: [internal/sandbox], [internal/landlock], [internal/seatbelt]

    What the daemon may still do after startup, as data; the Landlock rules
    and the Seatbelt profile it becomes; and how [cmd/mellomting/serve.go]
    builds it and enforces it in each mode. *)

From Stdlib Require Import Ascii.
From stdpp Require Import sorting.
From S2P Require Import Prelude Float64 GoStrings Net Json JsonFacts Config ConfigFacts Backend Paths.
#[local] Open Scope Z_scope.

(* src: internal/sandbox/sandbox.go 20-24 ModeRequired *)
Definition ModeRequired : string := "required".
Definition ModeBestEffort : string := "best-effort".
Definition ModeDisabled : string := "disabled".

(* src: internal/sandbox/sandbox.go Listener *)
Record Listener := mkListener { UnixPath : string; TCPPort : Z }.

(* src: internal/sandbox/sandbox.go Policy *)
Record Policy := mkSandbox { ReadPaths : list string; WriteFiles : list string; ConnectTCP : list Z; Listeners : list Listener }.

(* src: internal/sandbox/sandbox.go Report *)
Record Report := mkReport { Platform : string; rp_Backend : string; Supported : bool; KernelABI : Z; Reason : string }.

(* src: internal/sandbox/sandbox.go 73-80 Policy.Summarize *)
Definition summarize_listener (l : Listener) : list string :=
  if negb (String.eqb (UnixPath l) "") then ["accept " +:+ UnixPath l]
  else if negb (TCPPort l =? 0) then ["accept tcp " +:+ dec_abs (TCPPort l)] else [].

(* src: internal/sandbox/sandbox.go Policy.Summarize *)
Definition Summarize (p : Policy) : list string :=
  map (fun f => "read " +:+ f) (ReadPaths p) ++ map (fun f => "write " +:+ f) (WriteFiles p) ++
  flat_map summarize_listener (Listeners p) ++ map (fun n => "connect tcp " +:+ dec_abs n) (ConnectTCP p).

(** ** Ports *)

Inductive ports_error := BadURL | BadScheme (s : string) | BadPort (p : string).

(** The port a URL names: its own, or its scheme's. *)
(* src: internal/sandbox/sandbox.go 137-144 BackendPorts *)
Definition url_port (u : URL) : string :=
  if String.eqb (url_Port u) "" then default "" (DefaultPortForScheme (u_Scheme u)) else url_Port u.

Section Ports.
Variable url_parse : string -> option URL.

(** One URL; then the loop over all, [ports] the ones seen, in order. *)
(* src: internal/sandbox/sandbox.go 128-148 BackendPorts *)
Definition port_of (raw : string) : result ports_error Z :=
  match url_parse raw with
  | None => Err BadURL
  | Some u =>
      if String.eqb (u_Host u) "" then Err BadURL
      else if negb (one_of ["http"; "https"] (u_Scheme u)) then Err (BadScheme (u_Scheme u))
      else match ParseUint (url_port u) 10 16 with
           | Some n => if n <? 1 then Err (BadPort (url_port u)) else Ok n
           | None => Err (BadPort (url_port u))
           end
  end.

(* src: internal/sandbox/sandbox.go 127-153 BackendPorts *)
Fixpoint collect_ports (urls : list string) (ports : list Z) : result ports_error (list Z) :=
  match urls with
  | [] => Ok ports
  | raw :: urls =>
      match port_of raw with
      | Err e => Err e
      | Ok n => collect_ports urls (if bool_decide (n ∈ ports) then ports else ports ++ [n])
      end
  end.

(* src: internal/sandbox/sandbox.go BackendPorts *)
Definition BackendPorts (urls : list string) : result ports_error (list Z) :=
  match collect_ports urls [] with Err e => Err e | Ok ports => Ok (merge_sort Z.le ports) end.
End Ports.

(** ** Landlock *)

(* src: internal/landlock/landlock.go 18-29 MaxABI *)
Definition MaxABI : Z := 9.
Definition DefaultMinimumABI : Z := 6.

(** What is used of go-landlock: the rules, and the restriction of a preset,
    which is the kernel's. *)
Inductive rule := ReadFile (path : string) | WriteFile (path : string) | ConnectPort (port : Z).

(* src: internal/landlock/apply_linux.go 54-68 Apply *)
Definition landlock_rules (pol : Policy) : list rule :=
  map ReadFile (ReadPaths pol) ++ map WriteFile (WriteFiles pol) ++ map ConnectPort (ConnectTCP pol).

Inductive apply_error := UnsupportedABI (abi : Z) | KernelRefused (e : string).

(* src: internal/landlock/apply_linux.go Apply *)
Definition landlock_Apply (restrict : Z -> list rule -> option string) (abi : Z) (pol : Policy) : result apply_error unit :=
  if (1 <=? abi) && (abi <=? MaxABI)    (* the keys of abiPresets *)
  then match restrict abi (landlock_rules pol) with Some e => Err (KernelRefused e) | None => Ok tt end
  else Err (UnsupportedABI abi).

(** The kernel's answer to the version query: the ABI or an error. *)
(* src: internal/landlock/landlock_linux.go Check *)
Definition landlock_Check (version : result string Z) : Report :=
  match version with
  | Err e => mkReport "linux" "landlock" false 0 ("kernel does not accept Landlock (" +:+ e +:+ ")")
  | Ok abi => mkReport "linux" "landlock" true abi ""
  end.

(** ** Seatbelt *)

Definition dq : string := String ch_dquote "".
Definition nl : string := String ch_nl "".

Fixpoint escape (s : string) : string :=
  match s with
  | "" => ""
  | String c s => if Ascii.eqb c "\"%char || Ascii.eqb c ch_dquote then String "\" (String c (escape s)) else String c (escape s)
  end.
(* src: internal/seatbelt/seatbelt.go quote *)
Definition quote (s : string) : string := dq +:+ escape s +:+ dq.

Section Seatbelt.
(** [filepath.EvalSymlinks]: where a path leads, if it can be resolved. *)
Variable eval_symlinks : string -> option string.

(* src: internal/seatbelt/seatbelt.go pathForms *)
Definition pathForms (path : string) : list string :=
  match eval_symlinks path with
  | None => [path]
  | Some resolved => if String.eqb resolved path then [path] else [path; resolved]
  end.

(** The grants of a profile, in order, and their text. *)
Inductive grant := GRead (path : string) | GWrite (path : string) | GAccept (path : string) | GAcceptTCP (port : Z) | GConnect (port : Z).

(* src: internal/seatbelt/seatbelt.go 50-92 Profile *)
Definition grants (pol : Policy) : list grant :=
  flat_map (fun p => map GRead (pathForms p)) (ReadPaths pol) ++
  flat_map (fun p => map GWrite (pathForms p)) (WriteFiles pol) ++
  flat_map (fun l => if negb (String.eqb (UnixPath l) "") then map GAccept (pathForms (UnixPath l))
                     else if negb (TCPPort l =? 0) then [GAcceptTCP (TCPPort l)] else []) (Listeners pol) ++
  map GConnect (ConnectTCP pol).

(* src: internal/seatbelt/seatbelt.go 50-92 Profile *)
Definition grant_text (g : grant) : string :=
  match g with
  | GRead p => "(allow file-read* (subpath " +:+ quote p +:+ "))" +:+ nl
  | GWrite p => "(allow file-write-data (literal " +:+ quote p +:+ "))" +:+ nl
  | GAccept p => "(allow network-inbound (local unix-socket (path-literal " +:+ quote p +:+ ")))" +:+ nl
  | GAcceptTCP n => "(allow network-inbound (local ip " +:+ dq +:+ "*:" +:+ dec_abs n +:+ dq +:+ "))" +:+ nl
  | GConnect n => "(allow network-outbound (remote tcp " +:+ dq +:+ "*:" +:+ dec_abs n +:+ dq +:+ "))" +:+ nl
  end.

Definition profile_head : string := "(version 1)" +:+ nl +:+ "(deny default)" +:+ nl +:+ "(import " +:+ dq +:+ "bsd.sb" +:+ dq +:+ ")" +:+ nl.

(* src: internal/seatbelt/seatbelt.go Profile *)
Definition Profile (pol : Policy) : string := profile_head +:+ String.concat "" (map grant_text (grants pol)).
End Seatbelt.

(** The profile is compiled, then applied. *)
(* src: internal/seatbelt/apply_darwin.go Apply *)
Definition seatbelt_Apply (eval_symlinks : string -> option string) (compile apply : string -> option string) (pol : Policy) : result apply_error unit :=
  match compile (Profile eval_symlinks pol) with
  | Some e => Err (KernelRefused e)
  | None => match apply (Profile eval_symlinks pol) with Some e => Err (KernelRefused e) | None => Ok tt end
  end.

(** ** The daemon's policy, and its enforcement: [serve.go] *)

Inductive net_addr := UnixAddr (name : string) | TCPAddr (port : Z).

Section Enforce.
Context {F : Type} `{Float64 F}.
Variable url_parse : string -> option URL.

(** The base URLs in the order the map of backends is ranged over. *)
(* src: cmd/mellomting/serve.go backendBaseURLs *)
Definition backendBaseURLs (cfg : Config (F := F)) : list string := map (fun e => BaseURL e.2) (map_to_list (Backends cfg)).

(* src: cmd/mellomting/serve.go 611-618 sandboxPolicy *)
Definition listener_of (a : net_addr) : Listener :=
  match a with UnixAddr n => mkListener n 0 | TCPAddr p => mkListener "" (p mod 65536) end.

(* src: cmd/mellomting/serve.go sandboxPolicy *)
Definition sandboxPolicy (cfg : Config (F := F)) (listeners : list net_addr) : result ports_error Policy :=
  match BackendPorts url_parse (backendBaseURLs cfg) with
  | Err e => Err e
  | Ok ports =>
      Ok (mkSandbox [Dir (UsersFilePath (c_Auth cfg))] (if acc_Enabled (c_Accounting cfg) then [acc_Path (c_Accounting cfg)] else [])
            ports (map listener_of listeners))
  end.

(** [check] is what the probe reports; [apply] confines the process or fails. *)
(* src: cmd/mellomting/serve.go sandboxBackend *)
Record sandboxBackend := mkBackendOf {
  sb_name : string; sb_mode : string; check : Report;
  ready : Report -> option (string * string);
  apply : Report -> Policy -> result apply_error unit
}.

(** The daemon does not start, runs unconfined, or runs confined. *)
Inductive enforcement := StartRefused | Unconfined | Confined (pol : Policy).

Definition failClosed (b : sandboxBackend) : enforcement := if String.eqb (sb_mode b) ModeRequired then StartRefused else Unconfined.

(* src: cmd/mellomting/serve.go enforceSandbox *)
Definition enforceSandbox (b : sandboxBackend) (cfg : Config (F := F)) (listeners : list net_addr) : enforcement :=
  if String.eqb (sb_mode b) ModeDisabled then Unconfined
  else match sandboxPolicy cfg listeners with
  | Err _ => StartRefused
  | Ok pol =>
      if negb (Supported (check b)) then failClosed b
      else match ready b (check b) with
      | Some _ => failClosed b
      | None => match apply b (check b) pol with Err _ => failClosed b | Ok _ => Confined pol end
      end
  end.

(** The mechanisms of the two platforms. *)
Record mechanisms := mkMechanisms {
  mc_version : result string Z; mc_restrict : Z -> list rule -> option string;
  mc_symlinks : string -> option string; mc_compile : string -> option string; mc_sandbox : string -> option string
}.

(* src: internal/seatbelt/apply_darwin.go Check *)
Definition seatbelt_Check (m : mechanisms) : Report :=
  match mc_compile m (Profile (mc_symlinks m) (mkSandbox [] [] [] [])) with
  | Some e => mkReport "darwin" "seatbelt" false 0 e
  | None => mkReport "darwin" "seatbelt" true 0 ""
  end.

(* src: cmd/mellomting/serve.go platformSandbox *)
Definition platformSandbox (m : mechanisms) (darwin : bool) (cfg : Config (F := F)) : sandboxBackend :=
  if darwin then
    mkBackendOf "seatbelt" (sec_Seatbelt (c_Security cfg)) (seatbelt_Check m) (fun _ => None)
      (fun _ p => seatbelt_Apply (mc_symlinks m) (mc_compile m) (mc_sandbox m) p)
  else
    let l := sec_Landlock (c_Security cfg) in
    mkBackendOf "landlock" (ll_Mode l) (landlock_Check (mc_version m))
      (fun r => if KernelABI r <? MinimumABI l then Some ("kernel Landlock ABI is below the configured minimum", dec_abs (KernelABI r)) else None)
      (fun r p => landlock_Apply (mc_restrict m) (Z.min (KernelABI r) MaxABI) p).
End Enforce.

(** ** The ports *)

Section PortFacts.
Variable url_parse : string -> option URL.

Lemma port_of_range raw n : port_of url_parse raw = Ok n -> 1 <= n <= 65535.
Proof.
  unfold port_of. destruct (url_parse raw) as [u|]; [|done]. destruct (String.eqb (u_Host u) ""); [done|]. destruct (one_of _ _); cbn [negb]; [|done].
  destruct (ParseUint (url_port u) 10 16) as [m|] eqn:E; [|done]. destruct (Z.ltb_spec m 1); [done|]. intros [= <-].
  unfold ParseUint in E. destruct (String.eqb _ ""); [done|]. destruct (parse_uint_acc 10 0 (url_port u)); [|done]. destruct (Z.ltb_spec z (2 ^ 16)); [|done]. injection E as ->. lia.
Qed.

Lemma collect_ports_spec urls : forall ports, NoDup ports ->
  match collect_ports url_parse urls ports with
  | Ok l => NoDup l /\ forall n, n ∈ l <-> n ∈ ports \/ exists raw, raw ∈ urls /\ port_of url_parse raw = Ok n
  | Err e => exists raw, raw ∈ urls /\ port_of url_parse raw = Err e
  end.
Proof.
  induction urls as [|raw urls IH]; intros ports Hnd; cbn [collect_ports].
  - split; [done|]. intros n. split; [by left|]. intros [|(r & Hr & _)]; [done|by apply not_elem_of_nil in Hr].
  - destruct (port_of url_parse raw) as [n|e] eqn:E; [|exists raw; split; [by left|done]].
    case_bool_decide as Hin.
    + specialize (IH ports Hnd). destruct (collect_ports _ urls ports) as [l|e]; [|destruct IH as (r & ? & ?); exists r; split; [by right|done]].
      destruct IH as [Hl IH]. split; [done|]. intros m. rewrite IH. split; [intros [|(r & ? & ?)]; [by left|right; exists r; split; [by right|done]]|].
      intros [|(r & [->|Hr]%elem_of_cons & Hp)]; [by left|left; congruence|right; by exists r].
    + assert (NoDup (ports ++ [n])) as Hnd' by (apply NoDup_app; split; [done|]; split; [by intros x Hx ->%list_elem_of_singleton|apply NoDup_singleton]).
      specialize (IH _ Hnd'). destruct (collect_ports _ urls (ports ++ [n])) as [l|e]; [|destruct IH as (r & ? & ?); exists r; split; [by right|done]].
      destruct IH as [Hl IH]. split; [done|]. intros m. rewrite IH, elem_of_app, list_elem_of_singleton. split.
      * intros [[Hm| ->]|(r & ? & ?)]; [by left|right; exists raw; split; [by left|done]|right; exists r; split; [by right|done]].
      * intros [|(r & [->|Hr]%elem_of_cons & Hp)]; [by left; left|left; right; congruence|right; by exists r].
Qed.

Lemma BackendPorts_spec urls :
  match BackendPorts url_parse urls with
  | Ok l => StronglySorted Z.le l /\ NoDup l /\ forall n, n ∈ l <-> exists raw, raw ∈ urls /\ port_of url_parse raw = Ok n
  | Err e => exists raw, raw ∈ urls /\ port_of url_parse raw = Err e
  end.
Proof.
  unfold BackendPorts. pose proof (collect_ports_spec urls [] NoDup_nil_2) as Hs. destruct (collect_ports url_parse urls []) as [l|e]; [|exact Hs].
  destruct Hs as [Hnd Hl]. pose proof (merge_sort_Permutation Z.le l) as Hp. split; [apply StronglySorted_merge_sort; apply _|]. split; [by rewrite Hp|].
  intros n. rewrite Hp, Hl. split; [|by right]. intros [Hn|]; [by apply not_elem_of_nil in Hn|done].
Qed.

Lemma collect_ports_valid urls : forall ports, is_ok (collect_ports url_parse urls ports) = true -> Forall (fun raw => is_ok (port_of url_parse raw) = true) urls.
Proof.
  induction urls as [|raw urls IH]; intros ports; cbn [collect_ports]; [done|]. destruct (port_of url_parse raw) eqn:E; [|done].
  intros Hr. constructor; [by rewrite E|by eapply IH].
Qed.
End PortFacts.

(** [net.JoinHostPort], and the address net/http dials for a URL; [ascii] is
    the conversion of international host names. *)
Definition JoinHostPort (host port : string) : string :=
  if contains_char ":"%char host then "[" +:+ host +:+ "]:" +:+ port else host +:+ ":" +:+ port.
Definition canonicalAddr (ascii : string -> string) (u : URL) : string := JoinHostPort (ascii (url_Hostname u)) (url_port u).

Lemma SplitHostPort_join host port h p : contains_char ":"%char port = false -> SplitHostPort (JoinHostPort host port) = Some (h, p) -> p = port.
Proof.
  intros Hp. unfold JoinHostPort. destruct (contains_char ":"%char host).
  - assert ("[" +:+ host +:+ "]:" +:+ port = ("[" +:+ host +:+ "]") +:+ String ":" port) as -> by (rewrite !sapp_assoc; done).
    unfold SplitHostPort. rewrite cut_last_at by done. repeat case_match; congruence.
  - change (host +:+ ":" +:+ port) with (host +:+ String ":" port). unfold SplitHostPort. rewrite cut_last_at by done. repeat case_match; congruence.
Qed.

(** ** What the daemon may still do *)

Section ConfinementFacts.
Context {F : Type} `{Float64 F}.
Variable url_parse : string -> option URL.
Implicit Types (cfg : Config (F := F)).

Lemma backendBaseURLs_spec cfg raw : raw ∈ backendBaseURLs cfg <-> exists name b, Backends cfg !! name = Some b /\ BaseURL b = raw.
Proof.
  unfold backendBaseURLs. rewrite list_elem_of_In, in_map_iff. split.
  - intros ([name b] & <- & Hin). exists name, b. split; [|done]. apply elem_of_map_to_list. by apply list_elem_of_In.
  - intros (name & b & Hb & <-). exists (name, b). split; [done|]. apply list_elem_of_In. by apply elem_of_map_to_list.
Qed.

(** The rights a policy needs to give: to read beside the users file, to
    append to the accounting log, to answer on every listener, and to reach
    every backend's port; and no more. *)
Record policy_exact cfg (lns : list net_addr) (pol : Policy) : Prop := {
  pe_read : ReadPaths pol = [Dir (UsersFilePath (c_Auth cfg))];
  pe_write : WriteFiles pol = if acc_Enabled (c_Accounting cfg) then [acc_Path (c_Accounting cfg)] else [];
  pe_listen : Listeners pol = map listener_of lns;
  pe_sorted : StronglySorted Z.le (ConnectTCP pol) /\ NoDup (ConnectTCP pol);
  pe_ports : forall n, n ∈ ConnectTCP pol <-> exists name b, Backends cfg !! name = Some b /\ port_of url_parse (BaseURL b) = Ok n
}.

Lemma sandboxPolicy_exact cfg lns :
  match sandboxPolicy url_parse cfg lns with
  | Ok pol => policy_exact cfg lns pol
  | Err e => exists name b, Backends cfg !! name = Some b /\ port_of url_parse (BaseURL b) = Err e
  end.
Proof.
  unfold sandboxPolicy. pose proof (BackendPorts_spec url_parse (backendBaseURLs cfg)) as Hs. destruct (BackendPorts _ _) as [ports|e].
  - destruct Hs as (H1 & H2 & H3). constructor; try done. intros n. cbn [ConnectTCP]. rewrite H3. split.
    + intros (raw & (name & b & Hb & <-)%backendBaseURLs_spec & Hp). by exists name, b.
    + intros (name & b & Hb & Hp). exists (BaseURL b). split; [apply backendBaseURLs_spec; by exists name, b|done].
  - destruct Hs as (raw & (name & b & Hb & <-)%backendBaseURLs_spec & Hp). by exists name, b.
Qed.

(** A backend whose URL was accepted is dialed at a port that is granted. *)
Lemma dialed_port_granted cfg lns pol name b u p resolve connect ascii ip port :
  policy_exact cfg lns pol -> (forall name b, Backends cfg !! name = Some b -> is_ok (port_of url_parse (BaseURL b)) = true) ->
  Backends cfg !! name = Some b -> url_parse (BaseURL b) = Some u ->
  policyDial p resolve connect "tcp" (canonicalAddr ascii u) = Ok (ip, port) ->
  exists n, ParseUint port 10 16 = Some n /\ n ∈ ConnectTCP pol.
Proof.
  intros Hpol Hall Hb Hu Hd. specialize (Hall name b Hb). destruct (port_of url_parse (BaseURL b)) as [n|] eqn:Ep; [|done].
  assert (ParseUint (url_port u) 10 16 = Some n) as Hn.
  { unfold port_of in Ep. rewrite Hu in Ep. destruct (String.eqb (u_Host u) ""); [done|]. destruct (one_of _ _); cbn [negb] in Ep; [|done].
    destruct (ParseUint (url_port u) 10 16) as [m|]; [|done]. destruct (m <? 1); congruence. }
  assert (contains_char ":"%char (url_port u) = false) as Hc.
  { clear - Hn. unfold ParseUint in Hn. destruct (String.eqb _ ""); [done|]. destruct (parse_uint_acc 10 0 (url_port u)) as [m|] eqn:E; [|done]. clear Hn.
    revert E. generalize 0. induction (url_port u) as [|c s IH]; intros acc; cbn; [done|]. destruct (is_digit c) eqn:Ed; [|done]. cbn [andb].
    destruct (bval c - 48 <? 10); [|done]. intros E. rewrite (IH _ E), orb_false_r. destruct (Ascii.eqb_spec c ":"%char) as [->|]; [done|done]. }
  destruct (policyDial_spec _ _ _ _ _ _ _ Hd) as (_ & [host Hs] & _). apply SplitHostPort_join in Hs; [|done]. subst port.
  exists n. split; [done|]. apply (pe_ports _ _ _ Hpol). by exists name, b.
Qed.

Lemma policy_ports_valid cfg lns pol : sandboxPolicy url_parse cfg lns = Ok pol ->
  forall name b, Backends cfg !! name = Some b -> is_ok (port_of url_parse (BaseURL b)) = true.
Proof.
  unfold sandboxPolicy, BackendPorts. pose proof (collect_ports_valid url_parse (backendBaseURLs cfg) []) as Hv. destruct (collect_ports _ _ _); [|done].
  intros _ name b Hb. specialize (Hv eq_refl). rewrite Forall_forall in Hv. apply Hv, backendBaseURLs_spec. by exists name, b.
Qed.

(** The mechanism accepted the policy. *)
Definition enforced (m : mechanisms) (darwin : bool) cfg (pol : Policy) : Prop :=
  if darwin then let profile := Profile (mc_symlinks m) pol in mc_compile m profile = None /\ mc_sandbox m profile = None
  else exists abi, mc_version m = Ok abi /\ MinimumABI (sec_Landlock (c_Security cfg)) <= abi /\ 1 <= Z.min abi MaxABI <= MaxABI /\
       mc_restrict m (Z.min abi MaxABI) (landlock_rules pol) = None.

Lemma platform_apply m darwin cfg pol (b := platformSandbox m darwin cfg) :
  Supported (check b) = true -> ready b (check b) = None -> apply b (check b) pol = Ok tt -> enforced m darwin cfg pol.
Proof.
  unfold b, platformSandbox. destruct darwin; cbn [check ready apply sb_mode enforced].
  - unfold seatbelt_Apply. intros _ _. destruct (mc_compile m _); [done|]. by destruct (mc_sandbox m _).
  - unfold landlock_Check. destruct (mc_version m) as [abi|e]; cbn [Supported KernelABI]; [|done]. intros _.
    destruct (Z.ltb_spec abi (MinimumABI (sec_Landlock (c_Security cfg)))); [done|]. intros _. unfold landlock_Apply.
    destruct (Z.leb_spec 1 (Z.min abi MaxABI)); cbn [andb]; [|done]. destruct (Z.leb_spec (Z.min abi MaxABI) MaxABI); [|done].
    destruct (mc_restrict m _ _) eqn:E; [done|]. intros _. exists abi. auto.
Qed.

Lemma enforce_cases m darwin cfg lns (b := platformSandbox m darwin cfg) :
  match enforceSandbox url_parse b cfg lns with
  | StartRefused => sb_mode b <> ModeDisabled /\ (sb_mode b = ModeRequired \/ exists e, sandboxPolicy url_parse cfg lns = Err e)
  | Unconfined => sb_mode b <> ModeRequired
  | Confined pol => sb_mode b <> ModeDisabled /\ sandboxPolicy url_parse cfg lns = Ok pol /\ enforced m darwin cfg pol
  end.
Proof.
  assert (sb_mode b <> ModeDisabled -> match failClosed b with StartRefused => sb_mode b <> ModeDisabled /\ (sb_mode b = ModeRequired \/ exists e, sandboxPolicy url_parse cfg lns = Err e)
    | Unconfined => sb_mode b <> ModeRequired | Confined _ => False end) as Hf.
  { intros Hd. unfold failClosed. destruct (String.eqb_spec (sb_mode b) ModeRequired); [by split; [|left]|done]. }
  unfold enforceSandbox. destruct (String.eqb_spec (sb_mode b) ModeDisabled) as [E|E]; [by rewrite E|]. specialize (Hf E).
  assert (forall x, x = failClosed b -> match x with StartRefused => sb_mode b <> ModeDisabled /\ (sb_mode b = ModeRequired \/ exists e, sandboxPolicy url_parse cfg lns = Err e)
    | Unconfined => sb_mode b <> ModeRequired | Confined pol => sb_mode b <> ModeDisabled /\ sandboxPolicy url_parse cfg lns = Ok pol /\ enforced m darwin cfg pol end) as Hx
    by (intros x ->; by destruct (failClosed b)).
  destruct (sandboxPolicy url_parse cfg lns) as [pol|e] eqn:Ep; [|by split; [|right; exists e]].
  destruct (Supported (check b)) eqn:Es; cbn [negb]; [|by apply Hx]. destruct (ready b (check b)) eqn:Er; [by apply Hx|].
  destruct (apply b (check b) pol) as [[]|] eqn:Ea; [|by apply Hx]. split; [done|]. split; [done|]. by apply platform_apply.
Qed.

End ConfinementFacts.

(** ** The text of a profile

    A reader of the profile's grants: paths are string literals in which a
    backslash takes the next character as it is. *)

Definition strip (p s : string) : option string := if has_prefix p s then Some (sdrop (String.length p) s) else None.

Fixpoint read_literal (s : string) : option (string * string) :=
  match s with
  | "" => None
  | String c s' =>
      if Ascii.eqb c ch_dquote then Some ("", s')
      else if Ascii.eqb c "\"%char then
        match s' with
        | "" => None
        | String d s'' => match read_literal s'' with Some (w, r) => Some (String d w, r) | None => None end
        end
      else match read_literal s' with Some (w, r) => Some (String c w, r) | None => None end
  end.
Definition read_quoted (before after : string) (s : string) : option (string * string) :=
  match strip (before +:+ dq) s with
  | None => None
  | Some s => match read_literal s with
              | None => None
              | Some (w, r) => match strip after r with Some r => Some (w, r) | None => None end
              end
  end.

Definition read_port (w : string) : option Z := option_map (fun d => dec_val d 0) (strip "*:" w).

Definition read_grant (s : string) : option (grant * string) :=
  match read_quoted "(allow file-read* (subpath " ("))" +:+ nl) s with
  | Some (p, r) => Some (GRead p, r)
  | None =>
  match read_quoted "(allow file-write-data (literal " ("))" +:+ nl) s with
  | Some (p, r) => Some (GWrite p, r)
  | None =>
  match read_quoted "(allow network-inbound (local unix-socket (path-literal " (")))" +:+ nl) s with
  | Some (p, r) => Some (GAccept p, r)
  | None =>
  match read_quoted "(allow network-inbound (local ip " ("))" +:+ nl) s with
  | Some (w, r) => match read_port w with Some n => Some (GAcceptTCP n, r) | None => None end
  | None =>
  match read_quoted "(allow network-outbound (remote tcp " ("))" +:+ nl) s with
  | Some (w, r) => match read_port w with Some n => Some (GConnect n, r) | None => None end
  | None => None
  end
  end
  end
  end
  end.

Fixpoint read_grants (n : nat) (s : string) : option (list grant) :=
  match n, s with
  | _, "" => Some []
  | O, _ => None
  | S n, _ => match read_grant s with Some (g, r) => option_map (cons g) (read_grants n r) | None => None end
  end.
Definition read_profile (s : string) : option (list grant) :=
  match strip profile_head s with Some r => read_grants (String.length r) r | None => None end.

Lemma strip_app p s : strip p (p +:+ s) = Some s.
Proof. unfold strip. by rewrite has_prefix_app, sdrop_app. Qed.

Lemma read_literal_escape s r : read_literal (escape s +:+ dq +:+ r) = Some (s, r).
Proof.
  induction s as [|c s IH]; [done|]. cbn [escape]. destruct (Ascii.eqb_spec c "\"%char) as [->|H1]; cbn [orb].
  - cbn [String.append read_literal]. rewrite IH. done.
  - destruct (Ascii.eqb_spec c ch_dquote) as [->|H2].
    + cbn [String.append read_literal]. change (Ascii.eqb "\"%char ch_dquote) with false. change (Ascii.eqb "\"%char "\"%char) with true. cbv iota. by rewrite IH.
    + cbn [String.append read_literal]. destruct (Ascii.eqb_spec c ch_dquote); [done|]. destruct (Ascii.eqb_spec c "\"%char); [done|]. by rewrite IH.
Qed.

Lemma read_quoted_app before after s r : read_quoted before after (before +:+ quote s +:+ after +:+ r) = Some (s, r).
Proof.
  unfold read_quoted, quote. rewrite !sapp_assoc. rewrite <- (sapp_assoc before dq), strip_app, read_literal_escape, strip_app. done.
Qed.

Lemma escape_digits s : sforall is_digit s = true -> escape s = s.
Proof.
  induction s as [|c s IH]; [done|]. cbn [sforall escape]. intros [Hc Hs]%andb_prop. rewrite (IH Hs).
  destruct (Ascii.eqb_spec c "\"%char) as [->|_]; [done|]. by destruct (Ascii.eqb_spec c ch_dquote) as [->|_].
Qed.
Lemma escape_port n : 0 <= n -> escape ("*:" +:+ dec_abs n) = "*:" +:+ dec_abs n.
Proof.
  intros Hn. destruct (dec_abs_spec n Hn) as (_ & Hd & _). change (escape ("*:" +:+ dec_abs n)) with ("*:" +:+ escape (dec_abs n)). by rewrite escape_digits.
Qed.

Lemma quote_port n : 0 <= n -> dq +:+ "*:" +:+ dec_abs n +:+ dq = quote ("*:" +:+ dec_abs n).
Proof. intros Hn. unfold quote. rewrite escape_port by done. by rewrite sapp_assoc. Qed.
Lemma read_port_dec n : 0 <= n -> read_port ("*:" +:+ dec_abs n) = Some n.
Proof. intros Hn. unfold read_port. rewrite strip_app. cbn. f_equal. by apply dec_abs_spec. Qed.

Definition grant_ok (g : grant) : Prop := match g with GAcceptTCP n | GConnect n => 0 <= n | _ => True end.

Lemma read_grant_text g r : grant_ok g -> read_grant (grant_text g +:+ r) = Some (g, r).
Proof.
  intros Hg. destruct g as [p|p|p|n|n]; cbn [grant_text].
  - rewrite !sapp_assoc. unfold read_grant. pose proof (read_quoted_app "(allow file-read* (subpath " ("))" +:+ nl) p r) as E. rewrite sapp_assoc in E. by rewrite E.
  - rewrite !sapp_assoc. unfold read_grant. pose proof (read_quoted_app "(allow file-write-data (literal " ("))" +:+ nl) p r) as E. rewrite sapp_assoc in E. by rewrite E.
  - rewrite !sapp_assoc. unfold read_grant. pose proof (read_quoted_app "(allow network-inbound (local unix-socket (path-literal " (")))" +:+ nl) p r) as E. rewrite sapp_assoc in E. by rewrite E.
  - cbn in Hg. pose proof (read_quoted_app "(allow network-inbound (local ip " ("))" +:+ nl) ("*:" +:+ dec_abs n) r) as E. rewrite <- quote_port in E by done. rewrite !sapp_assoc in E. rewrite !sapp_assoc.
    unfold read_grant. by rewrite E, read_port_dec.
  - cbn in Hg. pose proof (read_quoted_app "(allow network-outbound (remote tcp " ("))" +:+ nl) ("*:" +:+ dec_abs n) r) as E. rewrite <- quote_port in E by done. rewrite !sapp_assoc in E. rewrite !sapp_assoc.
    unfold read_grant. by rewrite E, read_port_dec.
Qed.

Lemma grant_text_nonempty g : (1 <= String.length (grant_text g))%nat.
Proof. destruct g; cbn [grant_text]; rewrite slen_app; cbn; lia. Qed.

Lemma read_grants_text l : forall n, Forall grant_ok l -> (String.length (String.concat "" (map grant_text l)) <= n)%nat ->
  read_grants n (String.concat "" (map grant_text l)) = Some l.
Proof.
  assert (forall g l, String.concat "" (map grant_text (g :: l)) = grant_text g +:+ String.concat "" (map grant_text l)) as Hcons.
  { intros g [|g' l']; cbn; [by rewrite sapp_nil_r|done]. }
  induction l as [|g l IH]; intros n Hall Hn; [by destruct n|]. apply Forall_cons in Hall as [Hg Hl]. rewrite Hcons, slen_app in *.
  pose proof (grant_text_nonempty g) as Hne. destruct n as [|n]; [lia|].
  assert (exists c s, grant_text g +:+ String.concat "" (map grant_text l) = String c s) as (c & s & E) by (destruct g; cbn; eauto).
  assert (read_grants (S n) (grant_text g +:+ String.concat "" (map grant_text l)) =
    match read_grant (grant_text g +:+ String.concat "" (map grant_text l)) with Some (g, r) => option_map (cons g) (read_grants n r) | None => None end) as -> by (rewrite E; done).
  rewrite read_grant_text by done. rewrite IH by (done || lia). done.
Qed.

Lemma grants_ok ev pol : Forall (fun n => 0 <= n) (ConnectTCP pol) -> Forall (fun l => 0 <= TCPPort l) (Listeners pol) -> Forall grant_ok (grants ev pol).
Proof.
  intros Hc Hl. assert (forall (f : string -> grant) l, (forall p, grant_ok (f p)) -> Forall grant_ok (map f l)) as Hm by (intros f l Hf; induction l; constructor; auto).
  assert (forall (f : string -> grant) l, (forall p, grant_ok (f p)) -> Forall grant_ok (flat_map (fun p => map f (pathForms ev p)) l)) as Hfm
    by (intros f l Hf; induction l; cbn; [constructor|]; apply Forall_app; split; [by apply Hm|done]).
  unfold grants. rewrite !Forall_app. split; [by apply Hfm|]. split; [by apply Hfm|]. split.
  - induction Hl as [|x l Hx Hl' IH]; cbn; [constructor|]. apply Forall_app. split; [|done]. destruct (negb _); [by apply Hm|]. destruct (negb _); [by repeat constructor|constructor].
  - induction Hc; cbn; constructor; auto.
Qed.


(** ** Witnesses *)

Module SandboxDemo.
(** Pathnames that try to add a grant of their own. *)
Definition hostile : string := js "/tmp/x')) (allow network* (remote ip '*:*'))".
Definition pol : Policy := mkSandbox ["/etc/m"; hostile; "/a\"] ["/var/log/u.jsonl"] [80; 8000] [mkListener "" 8080; mkListener "/run/m.sock" 0].
Example summary : Summarize (mkSandbox ["/etc/m"] ["/l"] [80] [mkListener "/s" 0; mkListener "" 9]) =
  ["read /etc/m"; "write /l"; "accept /s"; "accept tcp 9"; "connect tcp 80"].
Proof. vm_compute. reflexivity. Qed.

Definition base : Config (F := QArith_base.Q) := applyDefaults ConfigDemo.cfg.
Definition bad_url : string := "http://127.0.0.1:99999".
Definition bad_backend : Backend := match Backends base !! "qwen/gpu" with Some b => mkBackend (b_Server b) bad_url "qwen" "" Second Second Second Second 1 1 Second false | None => mkBackend "" bad_url "qwen" "" Second Second Second Second 1 1 Second false end.
Definition urls (s : string) : option URL := if String.eqb s bad_url then Some (mkURL "http" false "127.0.0.1:99999" "" "" "") else ConfigDemo.urls s.
Definition m : mechanisms := mkMechanisms (Ok 12) (fun abi _ => if abi =? 9 then None else Some "no") (fun _ => None) (fun _ => None) (fun _ => None).
End SandboxDemo.

(** Validation accepts a base URL whose port no TCP connection can have;
    the sandbox policy, and with it the start of the daemon, does not. *)
Example port_out_of_range_accepted :
  validate_backend SandboxDemo.urls (mkBackendNetwork "loopback-only" []) [] "b" SandboxDemo.bad_backend = [] /\
  port_of SandboxDemo.urls SandboxDemo.bad_url = Err (BadPort "99999").
Proof. split; vm_compute; reflexivity. Qed.

