(* ===== verification/Fs.v ===== *)
(** * One directory, as the programs that write into it see it

    The operations of [commitOps] ([cmd/mellomting/init.go]) and those of
    [internal/securefile] on one directory and the files in it: what each may
    do to the directory when it succeeds and when it fails, what other
    processes may do meanwhile, and what a crash may leave.  Programs are
    those of [Prog.v].

    The behaviour of the operating system is [behaves]: an operation may fail
    at any time, and a failed one changes nothing but what it says.  Other
    processes may add entries, but do not remove or replace any: the programs
    check that the directory is writable by its owner only. *)

From S2P Require Import Prelude GoStrings Prog.
#[local] Open Scope Z_scope.

Inductive errno := ENOENT | EEXIST | EPERM | EIO.
#[export] Instance errno_eq_dec : EqDecision errno.
Proof. solve_decision. Defined.

(** The device and inode numbers of a file. *)
Definition key : Type := (Z * Z)%type.

(* src: cmd/mellomting/init.go commitFileIdentity *)
Record commitFileIdentity := mkId { Dev : Z; Ino : Z; Mode : Z; Uid : Z; Gid : Z }.
Definition key_of (id : commitFileIdentity) : key := (Dev id, Ino id).

Record file := mkFile { f_data : string; f_synced : bool; f_mode : Z; f_gid : Z }.

(** The directory, the files, the open descriptors; the states of the
    directory that may still be on disk, newest first; and, to speak about
    executions: the files this program has created, the files it created
    without learning so, the names it has unlinked, how many of its operations
    have failed; and what the directory itself is. *)
Record view := mkView {
  v_dir : gmap string key;
  v_files : gmap key file;
  v_fds : gmap Z key;
  v_hist : list (gmap string key);
  v_mine : gset key;
  v_lost : gset key;
  v_gone : gset string;
  v_fails : nat;
  v_self : commitFileIdentity
}.

Definition set_dir (d : gmap string key) (v : view) : view :=
  mkView d (v_files v) (v_fds v) (d :: v_hist v) (v_mine v) (v_lost v) (v_gone v) (v_fails v) (v_self v).
Definition set_file (k : key) (f : file) (v : view) : view :=
  mkView (v_dir v) (<[k := f]> (v_files v)) (v_fds v) (v_hist v) (v_mine v) (v_lost v) (v_gone v) (v_fails v) (v_self v).
Definition set_fds (fds : gmap Z key) (v : view) : view :=
  mkView (v_dir v) (v_files v) fds (v_hist v) (v_mine v) (v_lost v) (v_gone v) (v_fails v) (v_self v).
Definition add_mine (k : key) (v : view) : view :=
  mkView (v_dir v) (v_files v) (v_fds v) (v_hist v) ({[k]} ∪ v_mine v) (v_lost v) (v_gone v) (v_fails v) (v_self v).
Definition add_lost (k : key) (v : view) : view :=
  mkView (v_dir v) (v_files v) (v_fds v) (v_hist v) (v_mine v) ({[k]} ∪ v_lost v) (v_gone v) (v_fails v) (v_self v).
Definition add_gone (n : string) (v : view) : view :=
  mkView (v_dir v) (v_files v) (v_fds v) (v_hist v) (v_mine v) (v_lost v) ({[n]} ∪ v_gone v) (v_fails v) (v_self v).
Definition set_hist (h : list (gmap string key)) (v : view) : view :=
  mkView (v_dir v) (v_files v) (v_fds v) h (v_mine v) (v_lost v) (v_gone v) (v_fails v) (v_self v).
Definition fault (v : view) : view :=
  mkView (v_dir v) (v_files v) (v_fds v) (v_hist v) (v_mine v) (v_lost v) (v_gone v) (S (v_fails v)) (v_self v).

(** ** Operations *)

(* src: cmd/mellomting/init.go commitOps *)
Inductive op :=
| openParent (path : string)
| fstatParent (fd : Z)
| lstatInDir (fd : Z) (name : string)
| createInDir (fd : Z) (name : string) (mode : Z)
| fchownFile (fd : Z) (name : string) (gid : Z)
| fchmodFile (fd : Z) (name : string) (mode : Z)
| writeAll (fd : Z) (name : string) (data : string)
| fsyncFile (fd : Z) (name : string)
| fstatFile (fd : Z) (name : string)
| closeFile (fd : Z) (name : string)
| linkInDir (fd : Z) (oldname newname : string)
| unlinkInDir (fd : Z) (name : string)
| fsyncDir (fd : Z).

Definition ans (o : op) : Type :=
  match o with
  | openParent _ | createInDir _ _ _ => Z * commitFileIdentity
  | fstatParent _ | lstatInDir _ _ | fstatFile _ _ => commitFileIdentity
  | _ => unit
  end.

(** A number no file has that the directory knows or may know on disk. *)
Definition unused (v : view) (k : key) : Prop :=
  k ∉ v_mine v /\ k ∉ v_lost v /\ (forall n, v_dir v !! n <> Some k) /\ forall d n, d ∈ v_hist v -> d !! n <> Some k.

(** An operation on the file open at [fd]. *)
Definition on_file (v v' : view) (fd : Z) (g : file -> file) : Prop :=
  exists k f, v_fds v !! fd = Some k /\ v_files v !! k = Some f /\ v' = set_file k (g f) v.

Definition behaves (o : op) (v : view) : result errno (ans o) -> view -> Prop :=
  match o return result errno (ans o) -> view -> Prop with
  | openParent _ => fun r v' =>
      match r with
      | Ok (fd, id) => v_fds v !! fd = None /\ id = v_self v /\ v' = set_fds (<[fd := key_of id]> (v_fds v)) v
      | Err _ => v' = fault v
      end
  | fstatParent fd => fun r v' =>
      match r with Ok id => v_fds v !! fd = Some (key_of id) /\ v' = v | Err _ => v' = fault v end
  | lstatInDir _ name => fun r v' =>
      match r with
      | Ok id => v_dir v !! name = Some (key_of id) /\ v' = v
      | Err ENOENT => v_dir v !! name = None /\ v' = v
      | Err _ => v' = fault v
      end
  | createInDir _ name mode => fun r v' =>
      match r with
      | Ok (fd, id) =>
          let k := key_of id in
          v_dir v !! name = None /\ v_fds v !! fd = None /\ unused v k /\ Ino id <> 0 /\
          exists m, Z.land m mode = m /\
          v' = add_mine k (set_fds (<[fd := k]> (v_fds v)) (set_file k (mkFile "" false m (Gid id)) (set_dir (<[name := k]> (v_dir v)) v)))
      | Err _ => v' = fault v \/ exists k, v_dir v !! name = None /\ unused v k /\ v' = fault (add_lost k (set_dir (<[name := k]> (v_dir v)) v))
      end
  | fchownFile fd _ gid => fun r v' =>
      match r with
      | Ok _ => on_file v v' fd (fun f => mkFile (f_data f) (f_synced f) (f_mode f) gid)
      | Err EPERM => v' = v
      | Err _ => v' = fault v
      end
  | fchmodFile fd _ mode => fun r v' =>
      match r with Ok _ => on_file v v' fd (fun f => mkFile (f_data f) (f_synced f) mode (f_gid f)) | Err _ => v' = fault v end
  | writeAll fd _ data => fun r v' =>
      match r with
      | Ok _ => on_file v v' fd (fun f => mkFile (f_data f +:+ data) false (f_mode f) (f_gid f))
      | Err _ => v' = fault v \/ exists n v1, on_file v v1 fd (fun f => mkFile (f_data f +:+ stake n data) false (f_mode f) (f_gid f)) /\ v' = fault v1
      end
  | fsyncFile fd _ => fun r v' =>
      match r with Ok _ => on_file v v' fd (fun f => mkFile (f_data f) true (f_mode f) (f_gid f)) | Err _ => v' = fault v end
  | fstatFile fd _ => fun r v' =>
      match r with Ok id => v_fds v !! fd = Some (key_of id) /\ v' = v | Err _ => v' = fault v end
  | closeFile fd _ => fun r v' =>
      match r with
      | Ok _ => v' = set_fds (delete fd (v_fds v)) v
      | Err _ => v' = fault v \/ v' = fault (set_fds (delete fd (v_fds v)) v)
      end
  | linkInDir _ oldname newname => fun r v' =>
      match r with
      | Ok _ => exists k, v_dir v !! oldname = Some k /\ v_dir v !! newname = None /\ v' = set_dir (<[newname := k]> (v_dir v)) v
      | Err _ => v' = fault v
      end
  | unlinkInDir _ name => fun r v' =>
      match r with Ok _ => v' = add_gone name (set_dir (delete name (v_dir v)) v) | Err _ => v' = fault v end
  | fsyncDir _ => fun r v' =>
      match r with Ok _ => v' = set_hist [v_dir v] v | Err _ => v' = fault v end
  end.

(** What another process may do. *)
Definition meddles (v v' : view) : Prop :=
  exists d files, v' = mkView d files (v_fds v) (d :: v_hist v) (v_mine v) (v_lost v) (v_gone v) (v_fails v) (v_self v) /\
    v_dir v ⊆ d /\ (forall n k, d !! n = Some k -> v_dir v !! n = Some k \/ k ∉ v_mine v) /\
    (forall k, k ∈ v_mine v -> files !! k = v_files v !! k).

(** What the others may have done between two operations. *)
Definition interferes : view -> view -> Prop := rtc meddles.

(** The directory a crash may leave: for each name, what it was at some
    moment since the directory was last synced. *)
Definition crash (v : view) (d : gmap string key) : Prop := forall n, exists d', d' ∈ v_hist v /\ d !! n = d' !! n.

(** ** Programs *)

Definition answer (o : op) : Type := result errno (ans o).
Notation prog := (Prog.prog answer).
Notation step := (Prog.step interferes behaves).
Notation always := (Prog.always interferes behaves).

(** ** What a program knows of its own files

    [o] is where its files are linked; [S], the same for every state of the
    directory that may be on disk; [φ] and [ψ], its files and descriptors. *)

(** The entries of [d] for the files in [m] are those of [o]. *)
Definition proj (m : gset key) (d o : gmap string key) : Prop := forall n k, k ∈ m -> d !! n = Some k <-> o !! n = Some k.

Record rep (v0 : view) (o : gmap string key) (S : list (gmap string key)) (φ : gmap key file) (ψ : gmap Z key)
    (g : gset string) (n : nat) (v : view) : Prop := {
  r_keep : v_dir v0 ⊆ v_dir v;
  r_foreign : forall x k, v_dir v0 !! x = Some k -> k ∉ dom φ;
  r_mine : v_mine v = dom φ;
  r_files : φ ⊆ v_files v;
  r_fds : ψ ⊆ v_fds v;
  r_hist : forall d, d ∈ v_hist v -> exists o', o' ∈ S /\ proj (dom φ) d o';
  r_now : proj (dom φ) (v_dir v) o;
  r_in : o ∈ S;
  r_ok : forall o' x k, o' ∈ S -> o' !! x = Some k -> k ∈ dom φ;
  r_gone : v_gone v = g;
  r_fails : v_fails v = n;
  r_self : v_self v = v_self v0
}.

Lemma proj_insert_foreign m d o x k : proj m d o -> k ∉ m -> d !! x = None -> proj m (<[x := k]> d) o.
Proof.
  intros H Hk Hx y j Hj. destruct (decide (y = x)) as [->|Hne]; [|rewrite lookup_insert_ne by done; by apply H].
  rewrite lookup_insert_eq. rewrite <- (H x j Hj), Hx. split; [intros [= ->]; done|done].
Qed.
Lemma proj_insert m d o x k : proj m d o -> proj m (<[x := k]> d) (<[x := k]> o).
Proof. intros H y j Hj. destruct (decide (y = x)) as [->|Hne]; [by rewrite !lookup_insert_eq|]. rewrite !lookup_insert_ne by done. by apply H. Qed.
Lemma proj_delete m d o x : proj m d o -> proj m (delete x d) (delete x o).
Proof. intros H y j Hj. destruct (decide (y = x)) as [->|Hne]; [by rewrite !lookup_delete_eq|]. rewrite !lookup_delete_ne by done. by apply H. Qed.

Lemma interferes_keeps v v' : interferes v v' -> v_dir v ⊆ v_dir v'.
Proof. induction 1 as [|v v1 v' (d & files & -> & Hd & _) _ IH]; [done|]. by transitivity d. Qed.
(** What is the program's alone. *)
Lemma interferes_own v v' : interferes v v' ->
  v_fds v' = v_fds v /\ v_mine v' = v_mine v /\ v_lost v' = v_lost v /\ v_gone v' = v_gone v /\ v_fails v' = v_fails v /\ v_self v' = v_self v /\
  forall k, k ∈ v_mine v -> v_files v' !! k = v_files v !! k.
Proof.
  induction 1 as [|v v1 v' (d & files & -> & _ & _ & Hf) _ (E1 & E2 & E3 & E4 & E5 & E6 & E7)]; [done|]. cbn in *. repeat (split; [congruence|]).
  intros k Hk. rewrite E7 by done. by apply Hf.
Qed.

Section Rep.
Variable v0 : view.
Implicit Types (o : gmap string key) (S : list (gmap string key)) (φ : gmap key file) (ψ : gmap Z key).

Lemma rep_meddles o S φ ψ g n v v' : rep v0 o S φ ψ g n v -> meddles v v' -> rep v0 o S φ ψ g n v'.
Proof.
  intros [Hk Hf Hm Hfi Hfd Hh Hn Hi Ho Hg Hn' Hself] (d & files & -> & Hsub & Hnew & Hfiles).
  assert (proj (dom φ) d o) as Hd.
  { intros x k Hk'. rewrite <- (Hn x k Hk'). split; [intros Hx|intros Hx; by eapply lookup_weaken].
    destruct (Hnew _ _ Hx) as [|Hno]; [done|]. by rewrite Hm in Hno. }
  constructor; cbn; try done.
  - by transitivity (v_dir v).
  - apply map_subseteq_spec. intros k f Hkf. rewrite Hfiles; [by eapply lookup_weaken|]. rewrite Hm. by eapply elem_of_dom_2.
  - intros d' [->|Hd']%elem_of_cons; [by exists o|by apply Hh].
Qed.

Lemma rep_interferes o S φ ψ g n v v' : rep v0 o S φ ψ g n v -> interferes v v' -> rep v0 o S φ ψ g n v'.
Proof. intros Hr Hi. induction Hi as [|v v1 v' Hs _ IH]; [done|]. by eapply IH, rep_meddles. Qed.

Lemma rep_fault o S φ ψ g n v : rep v0 o S φ ψ g n v -> rep v0 o S φ ψ g (Datatypes.S n) (fault v).
Proof. intros [? ? ? ? ? ? ? ? ? ? <- ?]. by constructor. Qed.

(** An entry of ours is where we think. *)
Lemma rep_lookup o S φ ψ g n v x k : rep v0 o S φ ψ g n v -> o !! x = Some k -> v_dir v !! x = Some k.
Proof. intros H Hx. apply (r_now _ _ _ _ _ _ _ _ H); [|done]. eapply (r_ok _ _ _ _ _ _ _ _ H); [apply (r_in _ _ _ _ _ _ _ _ H)|done]. Qed.
Lemma rep_absent o S φ ψ g n v x : rep v0 o S φ ψ g n v -> v_dir v !! x = None -> o !! x = None.
Proof. intros H Hx. destruct (o !! x) eqn:E; [|done]. eapply rep_lookup in E; [|done]. congruence. Qed.

(** A file whose creation was not reported. *)
Lemma rep_lost o S φ ψ g n v x k : rep v0 o S φ ψ g n v -> v_dir v !! x = None -> unused v k ->
  rep v0 o S φ ψ g n (add_lost k (set_dir (<[x := k]> (v_dir v)) v)).
Proof.
  intros [Hk Hf Hm Hfi Hfd Hh Hn Hi Ho Hg Hn' Hself] Hx (Hu & _). rewrite Hm in Hu. constructor; cbn; try done.
  - etrans; [exact Hk|]. by apply insert_subseteq.
  - intros d' [->|Hd']%elem_of_cons; [|by apply Hh]. exists o. split; [done|]. by apply proj_insert_foreign.
  - by apply proj_insert_foreign.
Qed.

(** A new file. *)
Lemma rep_create o S φ ψ g n v x k fd f : rep v0 o S φ ψ g n v -> v_dir v !! x = None -> v_fds v !! fd = None -> unused v k ->
  rep v0 (<[x := k]> o) (<[x := k]> o :: S) (<[k := f]> φ) (<[fd := k]> ψ) g n
    (add_mine k (set_fds (<[fd := k]> (v_fds v)) (set_file k f (set_dir (<[x := k]> (v_dir v)) v)))).
Proof.
  intros [Hk Hf Hm Hfi Hfd Hh Hn Hi Ho Hg Hn' Hself] Hx Hfd' (Hu & _ & Hu1 & Hu2). rewrite Hm in Hu.
  assert (forall d o', proj (dom φ) d o' -> (forall y, d !! y <> Some k) -> (forall y, o' !! y <> Some k) -> proj ({[k]} ∪ dom φ) d o') as Hext.
  { intros d o' Hp H1 H2 y j [->%elem_of_singleton|Hj]%elem_of_union; [|by apply Hp]. split; intros ?; [by destruct (H1 y)|by destruct (H2 y)]. }
  assert (forall o', o' ∈ S -> forall y, o' !! y <> Some k) as Hok by (intros o' Ho' y Hy; by specialize (Ho _ _ _ Ho' Hy)).
  assert (proj (dom (<[k := f]> φ)) (<[x := k]> (v_dir v)) (<[x := k]> o)) as Hnow.
  { rewrite dom_insert_L. apply proj_insert, Hext; [done|done|by apply Hok]. }
  constructor; cbn; try done.
  - etrans; [exact Hk|]. by apply insert_subseteq.
  - intros y j Hj. rewrite dom_insert_L, elem_of_union, elem_of_singleton. intros [->|Hin]; [|by eapply Hf].
    eapply Hu1. eapply lookup_weaken; [exact Hj|done].
  - by rewrite Hm, dom_insert_L.
  - by apply insert_mono.
  - by apply insert_mono.
  - intros d' [->|Hd']%elem_of_cons; [exists (<[x := k]> o); split; [by left|done]|].
    destruct (Hh _ Hd') as (o' & Ho' & Hp). exists o'. split; [by right|]. rewrite dom_insert_L. apply Hext; [done|intros y; by apply Hu2|by apply Hok].
  - by left.
  - intros o' y j [->|Ho']%elem_of_cons Hy; rewrite dom_insert_L, elem_of_union, elem_of_singleton.
    + destruct (decide (y = x)) as [->|]; [rewrite lookup_insert_eq in Hy; injection Hy as <-; by left|].
      rewrite lookup_insert_ne in Hy by done. right. by eapply Ho.
    + right. by eapply Ho.
Qed.

(** A change to a file of ours. *)
Lemma rep_on_file o S φ ψ g n v v' fd k f (h : file -> file) : rep v0 o S φ ψ g n v -> on_file v v' fd h -> ψ !! fd = Some k -> φ !! k = Some f ->
  rep v0 o S (<[k := h f]> φ) ψ g n v'.
Proof.
  intros [Hk Hf Hm Hfi Hfd Hh Hn Hi Ho Hg Hn' Hself] (k' & f' & Hfd' & Hf' & ->) Hψ Hφ.
  assert (k' = k) as -> by (eapply lookup_weaken in Hψ; [|exact Hfd]; congruence).
  assert (f' = f) as -> by (eapply lookup_weaken in Hφ; [|exact Hfi]; congruence).
  assert (dom (<[k := h f]> φ) = dom φ) as Hdom by (apply dom_insert_lookup_L; by eexists).
  constructor; cbn; rewrite ?Hdom; try done. by apply insert_mono.
Qed.

Lemma rep_close o S φ ψ g n v fd : rep v0 o S φ ψ g n v -> rep v0 o S φ (delete fd ψ) g n (set_fds (delete fd (v_fds v)) v).
Proof. intros [Hk Hf Hm Hfi Hfd Hh Hn Hi Ho Hg Hn' Hself]. constructor; cbn; try done. by apply delete_mono. Qed.
Lemma rep_drop_fd o S φ ψ g n v fd : rep v0 o S φ ψ g n v -> rep v0 o S φ (delete fd ψ) g n v.
Proof. intros [Hk Hf Hm Hfi Hfd Hh Hn Hi Ho Hg Hn' Hself]. constructor; cbn; try done. etrans; [apply delete_subseteq|done]. Qed.
Lemma rep_open o S φ ψ g n v fd k : rep v0 o S φ ψ g n v -> v_fds v !! fd = None ->
  rep v0 o S φ (<[fd := k]> ψ) g n (set_fds (<[fd := k]> (v_fds v)) v).
Proof. intros [Hk Hf Hm Hfi Hfd Hh Hn Hi Ho Hg Hn' Hself] Hfd'. constructor; cbn; try done. by apply insert_mono. Qed.

(** A second name for a file of ours. *)
Lemma rep_link o S φ ψ g n v x k : rep v0 o S φ ψ g n v -> k ∈ dom φ -> v_dir v !! x = None ->
  rep v0 (<[x := k]> o) (<[x := k]> o :: S) φ ψ g n (set_dir (<[x := k]> (v_dir v)) v).
Proof.
  intros [Hk Hf Hm Hfi Hfd Hh Hn Hi Ho Hg Hn' Hself] Hin Hx. assert (proj (dom φ) (<[x := k]> (v_dir v)) (<[x := k]> o)) as Hnow by (by apply proj_insert).
  constructor; cbn; try done.
  - etrans; [exact Hk|]. by apply insert_subseteq.
  - intros d' [->|Hd']%elem_of_cons; [exists (<[x := k]> o); split; [by left|done]|].
    destruct (Hh _ Hd') as (o' & Ho' & Hp). exists o'. split; [by right|done].
  - by left.
  - intros o' y j [->|Ho']%elem_of_cons Hy; [|by eapply Ho].
    destruct (decide (y = x)) as [->|]; [rewrite lookup_insert_eq in Hy; by injection Hy as <-|]. rewrite lookup_insert_ne in Hy by done. by eapply Ho.
Qed.

(** One name less for a file of ours. *)
Lemma rep_unlink o S φ ψ g n v x k : rep v0 o S φ ψ g n v -> o !! x = Some k ->
  rep v0 (delete x o) (delete x o :: S) φ ψ ({[x]} ∪ g) n (add_gone x (set_dir (delete x (v_dir v)) v)).
Proof.
  intros [Hk Hf Hm Hfi Hfd Hh Hn Hi Ho Hg Hn' Hself] Hx. assert (proj (dom φ) (delete x (v_dir v)) (delete x o)) as Hnow by (by apply proj_delete).
  assert (k ∈ dom φ) as Hin by (by eapply Ho).
  constructor; cbn; try done.
  - apply map_subseteq_spec. intros y j Hy. destruct (decide (y = x)) as [->|]; [|rewrite lookup_delete_ne by done; by eapply lookup_weaken].
    exfalso. apply (Hf _ _ Hy). apply (Hn x k Hin) in Hx. eapply lookup_weaken in Hy; [|exact Hk]. congruence.
  - intros d' [->|Hd']%elem_of_cons; [exists (delete x o); split; [by left|done]|].
    destruct (Hh _ Hd') as (o' & Ho' & Hp). exists o'. split; [by right|done].
  - by left.
  - intros o' y j [->|Ho']%elem_of_cons Hy; [|by eapply Ho]. apply lookup_delete_Some in Hy as [_ Hy]. by eapply Ho.
  - by rewrite Hg.
Qed.

(** After the directory is synced, it is what the disk has. *)
Lemma rep_sync o S φ ψ g n v : rep v0 o S φ ψ g n v -> rep v0 o [o] φ ψ g n (set_hist [v_dir v] v).
Proof.
  intros [Hk Hf Hm Hfi Hfd Hh Hn Hi Ho Hg Hn' Hself]. constructor; cbn; try done.
  - intros d ->%list_elem_of_singleton. exists o. split; [by left|done].
  - by left.
  - intros o' x k ->%list_elem_of_singleton. by eapply Ho.
Qed.
End Rep.

(** ** A system that behaves

    One answer to every operation, or its failure: executions can be
    computed, and no program is ever stuck. *)

Definition seen_keys (v : view) : list key :=
  map snd (map_to_list (v_dir v)) ++ concat (map (fun d => map snd (map_to_list d)) (v_hist v)) ++ elements (v_mine v) ++ elements (v_lost v).
Definition next_ino (v : view) : Z := 1 + maximum (map snd (seen_keys v)).
Definition next_fd (v : view) : Z := 3 + maximum (map fst (map_to_list (v_fds v))).

Definition stat (v : view) (k : key) : commitFileIdentity :=
  match v_files v !! k with Some f => mkId k.1 k.2 (f_mode f) 0 (f_gid f) | None => mkId k.1 k.2 0 0 0 end.
Definition with_file (v : view) (fd : Z) (g : file -> file) : option view :=
  match v_fds v !! fd with
  | Some k => match v_files v !! k with Some f => Some (set_file k (g f) v) | None => None end
  | None => None
  end.
Definition or_fault (v : view) (o : option view) : result errno unit * view :=
  match o with Some v' => (Ok tt, v') | None => (Err EIO, fault v) end.

Definition sys (o : op) (v : view) : result errno (ans o) * view :=
  match o return result errno (ans o) * view with
  | openParent _ => let fd := next_fd v in (Ok (fd, v_self v), set_fds (<[fd := key_of (v_self v)]> (v_fds v)) v)
  | fstatParent fd | fstatFile fd _ =>
      match v_fds v !! fd with Some k => (Ok (stat v k), v) | None => (Err EIO, fault v) end
  | lstatInDir _ name => match v_dir v !! name with Some k => (Ok (stat v k), v) | None => (Err ENOENT, v) end
  | createInDir _ name mode =>
      match v_dir v !! name with
      | Some _ => (Err EEXIST, fault v)
      | None =>
          let fd := next_fd v in let i := mkId (Dev (v_self v)) (next_ino v) mode 0 (Gid (v_self v)) in let k := key_of i in
          (Ok (fd, i), add_mine k (set_fds (<[fd := k]> (v_fds v)) (set_file k (mkFile "" false mode (Gid i)) (set_dir (<[name := k]> (v_dir v)) v))))
      end
  | fchownFile fd _ gid => or_fault v (with_file v fd (fun f => mkFile (f_data f) (f_synced f) (f_mode f) gid))
  | fchmodFile fd _ mode => or_fault v (with_file v fd (fun f => mkFile (f_data f) (f_synced f) mode (f_gid f)))
  | writeAll fd _ data => or_fault v (with_file v fd (fun f => mkFile (f_data f +:+ data) false (f_mode f) (f_gid f)))
  | fsyncFile fd _ => or_fault v (with_file v fd (fun f => mkFile (f_data f) true (f_mode f) (f_gid f)))
  | closeFile fd _ => (Ok tt, set_fds (delete fd (v_fds v)) v)
  | linkInDir _ oldname newname =>
      match v_dir v !! oldname, v_dir v !! newname with
      | Some k, None => (Ok tt, set_dir (<[newname := k]> (v_dir v)) v)
      | _, _ => (Err EEXIST, fault v)
      end
  | unlinkInDir _ name => (Ok tt, add_gone name (set_dir (delete name (v_dir v)) v))
  | fsyncDir _ => (Ok tt, set_hist [v_dir v] v)
  end.

(** The program, with the failures of a plan, undisturbed. *)
Definition idle (v : view) : view := set_hist (v_dir v :: v_hist v) v.
Definition fails (o : op) (v : view) : answer o * view := (Err EIO, fault v).
Notation run := (Prog.run sys fails idle).

Lemma next_ino_unused v d : unused v (d, next_ino v).
Proof.
  assert (forall k, k ∈ seen_keys v -> k <> (d, next_ino v)) as H.
  { intros k Hk ->. assert (next_ino v ∈ map snd (seen_keys v)) as Hin by (apply list_elem_of_fmap; by exists (d, next_ino v)).
    apply maximum_le in Hin. unfold next_ino in Hin at 1. lia. }
  unfold seen_keys in H. split_and!.
  - intros Hin. apply (H (d, next_ino v)); [|done]. rewrite !elem_of_app, !elem_of_elements. tauto.
  - intros Hin. apply (H (d, next_ino v)); [|done]. rewrite !elem_of_app, !elem_of_elements. tauto.
  - intros n Hn. apply (H (d, next_ino v)); [|done]. rewrite elem_of_app. left. apply list_elem_of_fmap. exists (n, (d, next_ino v)). split; [done|].
    by apply elem_of_map_to_list.
  - intros d' n Hd Hn. apply (H (d, next_ino v)); [|done]. rewrite !elem_of_app. right. left. apply list_elem_of_In, in_concat.
    exists (map snd (map_to_list d')). split; [apply in_map_iff; exists d'; split; [done|by apply list_elem_of_In]|].
    apply in_map_iff. exists (n, (d, next_ino v)). split; [done|]. apply list_elem_of_In. by apply elem_of_map_to_list.
Qed.

Lemma next_fd_free v : v_fds v !! next_fd v = None.
Proof.
  destruct (v_fds v !! next_fd v) as [k|] eqn:E; [|done]. apply elem_of_map_to_list in E.
  assert (next_fd v ∈ map fst (map_to_list (v_fds v))) as Hin by (apply list_elem_of_fmap; by exists (next_fd v, k)).
  apply maximum_le in Hin. unfold next_fd in Hin at 1. lia.
Qed.

Lemma key_of_stat v k : key_of (stat v k) = k.
Proof. unfold stat. destruct k as [a b]. case_match; done. Qed.

Lemma with_file_ok v fd g v' : with_file v fd g = Some v' -> on_file v v' fd g.
Proof.
  unfold with_file. destruct (v_fds v !! fd) as [k|] eqn:E1; [|done]. destruct (v_files v !! k) as [f|] eqn:E2; [|done]. intros [= <-]. by exists k, f.
Qed.

Lemma sys_behaves o v : behaves o v (sys o v).1 (sys o v).2.
Proof.
  destruct o as [path|fd|fd name|fd name mode|fd name gid|fd name mode|fd name data|fd name|fd name|fd name|fd old new|fd name|fd]; cbn [sys behaves].
  - split; [apply next_fd_free|done].
  - destruct (v_fds v !! fd) eqn:E; cbn; [|done]. by rewrite key_of_stat.
  - destruct (v_dir v !! name) eqn:E; cbn; [|done]. by rewrite key_of_stat.
  - destruct (v_dir v !! name) eqn:E; cbn; [by left|]. split; [done|]. split; [apply next_fd_free|]. split; [apply next_ino_unused|].
    split; [unfold next_ino; pose proof (maximum_nonneg (map snd (seen_keys v))); cbn [Ino]; lia|].
    exists mode. split; [apply Z.land_diag|done].
  - destruct (with_file _ _ _) as [v'|] eqn:E; cbn [or_fault fst snd]; [by apply with_file_ok|done].
  - destruct (with_file _ _ _) as [v'|] eqn:E; cbn [or_fault fst snd]; [by apply with_file_ok|done].
  - destruct (with_file _ _ _) as [v'|] eqn:E; cbn [or_fault fst snd]; [by apply with_file_ok|by left].
  - destruct (with_file _ _ _) as [v'|] eqn:E; cbn [or_fault fst snd]; [by apply with_file_ok|done].
  - destruct (v_fds v !! fd) eqn:E; cbn; [|done]. by rewrite key_of_stat.
  - done.
  - destruct (v_dir v !! old) eqn:E1, (v_dir v !! new) eqn:E2; cbn; try done. by eexists.
  - done.
  - done.
Qed.

Lemma fault_behaves o v : behaves o v (Err EIO) (fault v).
Proof. destruct o; cbn; auto. Qed.

Lemma idle_interferes v : interferes v (idle v).
Proof. apply rtc_once. exists (v_dir v), (v_files v). unfold idle, set_hist. split; [done|]. split; [done|]. split; [by left|done]. Qed.

Lemma run_steps {A} (p : prog A) plan v : rtc step (p, v) (Ret (run plan p v).1, (run plan p v).2).
Proof. apply Prog.run_executes; [apply idle_interferes|apply sys_behaves|apply fault_behaves]. Qed.
