(* ===== verification/Commit.v ===== *)
(** * The init transaction: [commitInitArtifacts] of [cmd/mellomting/init.go]

    Three files, the pepper, the users file and the configuration, appear in
    one directory or none does: they are created under temporary names,
    written and synced, then linked to their names, the configuration last.
    The directory and its operations are those of [Fs.v]. *)

From S2P Require Import Prelude GoStrings Net Json Paths Prog Fs.
#[local] Open Scope Z_scope.

(* src: cmd/mellomting/init.go commitFile *)
Record commitFile := mkCommitFile {
  temp : string; final : string; data : string; fd : Z; id : commitFileIdentity; published : bool
}.
Definition no_id : commitFileIdentity := mkId 0 0 0 0 0.

Inductive commit_error :=
| EParents | EOpenParent | EOwner | EWritable | ERevalidateDir | EDirChanged | EStat (name : string) | EExisting (names : list string)
| ECreate (name : string) | EGroup (name : string) | EChmod (name : string) | EWrite (name : string) | EFsync (name : string)
| ERevalidate (name : string) | EChanged (name : string) | EClose (name : string) | EPublish (name : string) | EUnlink (name : string) | EFsyncDir.

Definition same_file (a b : commitFileIdentity) : bool := (Dev a =? Dev b) && (Ino a =? Ino b).

(** ** Rollback *)

Section Dir.
Variable dirFD : Z.

(** Remove a name if it still is that file's. *)
(* src: cmd/mellomting/init.go 862-864 rollbackCommitFiles *)
Definition unlink_if (name : string) (id : commitFileIdentity) : prog unit :=
  let! r := call (lstatInDir dirFD name) in
  match r with
  | Ok id' => if same_file id' id then let! _ := call (unlinkInDir dirFD name) in Ret tt else Ret tt
  | Err _ => Ret tt
  end.

(* src: cmd/mellomting/init.go 858-865 rollbackCommitFiles *)
Fixpoint unlink_finals (files : list commitFile) : prog unit :=
  match files with
  | [] => Ret tt
  | f :: files => if negb (published f) then unlink_finals files else let! _ := unlink_if (final f) (id f) in unlink_finals files
  end.

(* src: cmd/mellomting/init.go 866-873 rollbackCommitFiles *)
Fixpoint unlink_temps (files : list commitFile) : prog unit :=
  match files with
  | [] => Ret tt
  | f :: files => if Ino (id f) =? 0 then unlink_temps files else let! _ := unlink_if (temp f) (id f) in unlink_temps files
  end.

(* src: cmd/mellomting/init.go rollbackCommitFiles *)
Definition rollbackCommitFiles (files : list commitFile) : prog unit :=
  let! _ := unlink_finals (rev files) in unlink_temps (rev files).

Definition rollback_with {A} (files : list commitFile) (e : commit_error) : prog (result commit_error A) :=
  let! _ := rollbackCommitFiles files in Ret (Err e).

(** ** The steps *)

(** The destinations that exist. *)
(* src: cmd/mellomting/init.go 745-752 commitInitArtifacts *)
Fixpoint check_existing (files : list commitFile) (existing : list string) : prog (result commit_error (list string)) :=
  match files with
  | [] => Ret (Ok existing)
  | f :: files =>
      let! r := call (lstatInDir dirFD (final f)) in
      match r with
      | Ok _ => check_existing files (existing ++ [final f])
      | Err ENOENT => check_existing files existing
      | Err _ => Ret (Err (EStat (final f)))
      end
  end.

(** Create the temporary files; [adopt] is the group they are given. *)
(* src: cmd/mellomting/init.go 766-789 commitInitArtifacts *)
Fixpoint create_files (adopt : option Z) (done todo : list commitFile) : prog (result commit_error (list commitFile)) :=
  match todo with
  | [] => Ret (Ok done)
  | f :: todo =>
      let! r := call (createInDir dirFD (temp f) 384) in    (* 0o600 *)
      match r with
      | Err _ => rollback_with (done ++ f :: todo) (ECreate (temp f))
      | Ok x =>
          let f := mkCommitFile (temp f) (final f) (data f) x.1 x.2 (published f) in
          match adopt with
          | None => create_files adopt (done ++ [f]) todo
          | Some gid =>
              let! r := call (fchownFile (fd f) (temp f) gid) in
              match r with
              | Err EPERM => create_files adopt (done ++ [f]) todo
              | Err _ => rollback_with (done ++ f :: todo) (EGroup (final f))
              | Ok _ =>
                  let! r := call (fchmodFile (fd f) (temp f) 416) in    (* 0o640 *)
                  match r with
                  | Err _ => rollback_with (done ++ f :: todo) (EChmod (temp f))
                  | Ok _ => create_files adopt (done ++ [f]) todo
                  end
              end
          end
      end
  end.

(* src: cmd/mellomting/init.go 791-812 commitInitArtifacts *)
Fixpoint write_files (done todo : list commitFile) : prog (result commit_error (list commitFile)) :=
  match todo with
  | [] => Ret (Ok done)
  | f :: todo =>
      let! r := call (writeAll (fd f) (temp f) (data f)) in
      match r with
      | Err _ => rollback_with (done ++ f :: todo) (EWrite (temp f))
      | Ok _ =>
      let! r := call (fsyncFile (fd f) (temp f)) in
      match r with
      | Err _ => rollback_with (done ++ f :: todo) (EFsync (temp f))
      | Ok _ =>
      let! r := call (fstatFile (fd f) (temp f)) in
      match r with
      | Err _ => rollback_with (done ++ f :: todo) (ERevalidate (temp f))
      | Ok id' =>
      if negb (same_file id' (id f)) then rollback_with (done ++ f :: todo) (EChanged (temp f))
      else
      let! r := call (closeFile (fd f) (temp f)) in
      match r with
      | Err _ => rollback_with (done ++ f :: todo) (EClose (temp f))
      | Ok _ => write_files (done ++ [mkCommitFile (temp f) (final f) (data f) (-1) (id f) (published f)]) todo
      end
      end
      end
      end
  end.

(** The result, and the file as it is then. *)
(* src: cmd/mellomting/init.go publishCommitFile *)
Definition publishCommitFile (f : commitFile) : prog (option commit_error * commitFile) :=
  let! r := call (lstatInDir dirFD (temp f)) in
  match r with
  | Err _ => Ret (Some (ERevalidate (temp f)), f)
  | Ok id' =>
      if negb (same_file id' (id f)) then Ret (Some (EChanged (temp f)), f)
      else
      let! r := call (linkInDir dirFD (temp f) (final f)) in
      match r with
      | Err _ => Ret (Some (EPublish (final f)), f)
      | Ok _ =>
          let f := mkCommitFile (temp f) (final f) (data f) (fd f) (id f) true in
          let! r := call (unlinkInDir dirFD (temp f)) in
          match r with
          | Err _ => Ret (Some (EUnlink (temp f)), f)
          | Ok _ => Ret (None, f)
          end
      end
  end.

(** Publish [todo]; [rest] comes later. *)
(* src: cmd/mellomting/init.go 816-821 commitInitArtifacts *)
Fixpoint publish_files (done todo rest : list commitFile) : prog (result commit_error (list commitFile)) :=
  match todo with
  | [] => Ret (Ok (done ++ rest))
  | f :: todo =>
      let! x := publishCommitFile f in
      match x.1 with
      | Some e => rollback_with (done ++ x.2 :: todo ++ rest) e
      | None => publish_files (done ++ [x.2]) todo rest
      end
  end.

Definition sync_dir (files : list commitFile) : prog (result commit_error (list commitFile)) :=
  let! r := call (fsyncDir dirFD) in
  match r with Err _ => rollback_with files EFsyncDir | Ok _ => Ret (Ok files) end.

(* src: cmd/mellomting/init.go 712-837 commitInitArtifacts *)
Definition commit_in (euid : Z) (serviceGroup : Z -> option Z) (dirID : commitFileIdentity) (files : list commitFile)
  : prog (result commit_error unit) :=
  if negb (euid =? Uid dirID) then Ret (Err EOwner)
  else if negb (Z.land (Mode dirID) 18 =? 0) then Ret (Err EWritable)    (* 0o022 *)
  else
  let! r := call (fstatParent dirFD) in
  match r with
  | Err _ => Ret (Err ERevalidateDir)
  | Ok id' =>
      if negb (same_file id' dirID) then Ret (Err EDirChanged)
      else
      let?! existing := check_existing files [] in
      if bool_decide (existing <> []) then Ret (Err (EExisting existing))
      else
      let?! files := create_files (serviceGroup (Gid dirID)) [] files in
      let?! files := write_files [] files in
      let?! files := publish_files [] (take 2 files) (drop 2 files) in
      let?! files := sync_dir files in
      let?! files := publish_files (take 2 files) (drop 2 files) [] in
      let?! _ := sync_dir files in
      Ret (Ok tt)
  end.
End Dir.

(** The arguments the transaction uses, and the process it runs in. *)
Record initPaths := mkPaths { ConfigPath : string; UsersPath : string; PepperPath : string }.
Record process := mkProcess { euid : Z; egid : Z; pid : Z }.
(* src: cmd/mellomting/init.go initArtifacts *)
Record initArtifacts := mkArtifacts { a_Config : string; a_Users : string; a_Pepper : string }.

Definition temp_name (pid : Z) (what : string) : string := ".mellomting-init-" +:+ dec_abs pid +:+ "-" +:+ what +:+ ".tmp".

(* src: cmd/mellomting/init.go 724-743 commitInitArtifacts *)
Definition commit_files (p : process) (args : initPaths) (a : initArtifacts) : list commitFile :=
  [mkCommitFile (temp_name (pid p) "pepper") (Base (PepperPath args)) (a_Pepper a) 0 no_id false;
   mkCommitFile (temp_name (pid p) "users") (Base (UsersPath args)) (a_Users a) 0 no_id false;
   mkCommitFile (temp_name (pid p) "config") (Base (ConfigPath args)) (a_Config a) 0 no_id false].

(** The directory's descriptor is closed on every return but the last. *)
(* src: cmd/mellomting/init.go commitInitArtifacts *)
Definition commitInitArtifacts (p : process) (args : initPaths) (a : initArtifacts) : prog (result commit_error unit) :=
  if negb (String.eqb (Dir (ConfigPath args)) (Dir (UsersPath args))) || negb (String.eqb (Dir (ConfigPath args)) (Dir (PepperPath args)))
  then Ret (Err EParents)
  else
  let! r := call (openParent (Dir (ConfigPath args))) in
  match r with
  | Err _ => Ret (Err EOpenParent)
  | Ok x =>
      let! r := commit_in x.1 (euid p) (ServiceGroup (egid p)) x.2 (commit_files p args a) in
      match r with
      | Err e => let! _ := call (closeFile x.1 (Dir (ConfigPath args))) in Ret (Err e)
      | Ok _ => Ret (Ok tt)
      end
  end.

(** ** What is safe *)

Section Safety.
(** The destinations and what belongs there, the configuration last; the
    group the files may be given. *)
Variables fp fu fc dp du dc : string.
Variable adopt : option Z.
Variable v0 : view.

Definition targets : list (string * string) := [(fp, dp); (fu, du); (fc, dc)].

(** A file that is complete and on disk, in the one mode or the other. *)
Definition shape (f : file) : Prop := (f_mode f = 416 /\ adopt = Some (f_gid f)) \/ Z.land (f_mode f) 384 = f_mode f.
Definition complete (f : file) (data : string) : Prop := f_data f = data /\ f_synced f = true /\ shape f.

Definition installed (v : view) (d : gmap string key) (t : string * string) : Prop :=
  exists k f, d !! t.1 = Some k /\ k ∈ v_mine v /\ v_files v !! k = Some f /\ complete f t.2.
Definition has_config (v : view) (d : gmap string key) : Prop := exists k, d !! fc = Some k /\ k ∈ v_mine v.

(** No state of the directory with our configuration lacks the other files:
    neither the states it was in, nor, until a rollback removes one of them,
    any that a crash can make of them. *)
Definition safe (v : view) : Prop :=
  v_dir v0 ⊆ v_dir v /\
  ((v_fails v <= 1)%nat -> forall d, d ∈ v_hist v -> has_config v d -> Forall (installed v d) targets) /\
  (fp ∉ v_gone v -> fu ∉ v_gone v -> fc ∉ v_gone v -> forall d, crash v d -> has_config v d -> Forall (installed v d) targets).

(** Nothing of ours is linked. *)
Definition clean (v : view) : Prop := forall n k, v_dir v !! n = Some k -> k ∉ v_mine v.

(** ** The same, of what the program knows *)

Record st := mkSt { so : gmap string key; sS : list (gmap string key); sφ : gmap key file; sψ : gmap Z key; sg : gset string; sn : nat }.
Definition repr (s : st) (v : view) : Prop := rep v0 (so s) (sS s) (sφ s) (sψ s) (sg s) (sn s) v.

Definition inst (φ : gmap key file) (o : gmap string key) (t : string * string) : Prop :=
  exists k f, o !! t.1 = Some k /\ φ !! k = Some f /\ complete f t.2.

Definition good (s : st) : Prop :=
  ((sn s <= 1)%nat -> forall o, o ∈ sS s -> is_Some (o !! fc) -> Forall (inst (sφ s) o) targets) /\
  (fp ∉ sg s -> fu ∉ sg s -> fc ∉ sg s -> (exists o, o ∈ sS s /\ is_Some (o !! fc)) ->
     forall o, o ∈ sS s -> inst (sφ s) o (fp, dp) /\ inst (sφ s) o (fu, du) /\ (is_Some (o !! fc) -> inst (sφ s) o (fc, dc))).

Lemma inst_proj s v d o t : repr s v -> proj (dom (sφ s)) d o -> inst (sφ s) o t -> installed v d t.
Proof.
  intros Hr Hp (k & f & Hk & Hf & Hc). exists k, f. assert (k ∈ dom (sφ s)) as Hd by (by eapply elem_of_dom_2).
  split_and!; [by apply Hp|by rewrite (r_mine _ _ _ _ _ _ _ _ Hr)| |done]. eapply lookup_weaken; [done|apply (r_files _ _ _ _ _ _ _ _ Hr)].
Qed.

Lemma repr_safe s v : repr s v -> good s -> safe v.
Proof.
  intros Hr [H1 H2]. pose proof Hr as [Hk Hf Hm Hfi Hfd Hh Hn Hi Ho Hg Hn' _]. split; [done|]. rewrite Hn', Hg. split.
  - intros Hle d Hd (k & Hdk & Hkm). rewrite Hm in Hkm. destruct (Hh d Hd) as (o' & Ho' & Hp). specialize (H1 Hle o' Ho').
    eapply Forall_impl; [apply H1; exists k; by apply (Hp fc k Hkm)|]. intros t. by apply inst_proj.
  - intros G1 G2 G3 d Hd (k & Hdk & Hkm). rewrite Hm in Hkm.
    assert (forall x, exists o d', o ∈ sS s /\ proj (dom (sφ s)) d' o /\ d !! x = d' !! x) as Hx.
    { intros x. destruct (Hd x) as (d' & Hd' & E). destruct (Hh d' Hd') as (o' & Ho' & Hp). by exists o', d'. }
    assert (exists o, o ∈ sS s /\ is_Some (o !! fc)) as Hc.
    { destruct (Hx fc) as (o' & d' & Ho' & Hp & E). exists o'. split; [done|]. exists k. apply (Hp fc k Hkm). by rewrite <- E. }
    specialize (H2 G1 G2 G3 Hc).
    assert (forall t o d', proj (dom (sφ s)) d' o -> d !! t.1 = d' !! t.1 -> inst (sφ s) o t -> installed v d t) as Hone.
    { intros t o d' Hp E Hin. destruct (inst_proj _ _ _ _ _ Hr Hp Hin) as (k' & f & ? & ? & ? & ?). exists k', f. by rewrite E. }
    repeat constructor.
    + destruct (Hx fp) as (o' & d' & Ho' & Hp & E). by eapply Hone, (H2 o' Ho').
    + destruct (Hx fu) as (o' & d' & Ho' & Hp & E). by eapply Hone, (H2 o' Ho').
    + destruct (Hx fc) as (o' & d' & Ho' & Hp & E). eapply Hone; [done|done|]. apply (H2 o' Ho'). exists k. apply (Hp fc k Hkm). by rewrite <- E.
Qed.

Definition faulted (s : st) : st := mkSt (so s) (sS s) (sφ s) (sψ s) (sg s) (S (sn s)).
Lemma repr_fault s v : repr s v -> repr (faulted s) (fault v).
Proof. apply rep_fault. Qed.
Lemma good_fault s : good s -> good (faulted s).
Proof. intros [H1 H2]. split; cbn; [|done]. intros Hn. apply H1. lia. Qed.

(** Before the configuration is anywhere. *)
Lemma good_early s : (forall o, o ∈ sS s -> o !! fc = None) -> good s.
Proof.
  intros H. split.
  - intros _ o Ho [k Hk]. rewrite H in Hk by done. done.
  - intros _ _ _ (o & Ho & k & Hk). rewrite H in Hk by done. done.
Qed.

Lemma inst_delete φ o t x : t.1 <> x -> inst φ o t -> inst φ (delete x o) t.
Proof. intros Hne (k & f & Hk & Hf & Hc). exists k, f. by rewrite lookup_delete_ne. Qed.

(** Removing a name keeps a state good: a temporary name, the
    configuration's, or another once the configuration's is gone (or a second
    operation has failed). *)
Lemma good_delete s x : good s -> so s ∈ sS s -> (x = fp \/ x = fu -> (sn s <= 1)%nat -> so s !! fc = None) ->
  good (mkSt (delete x (so s)) (delete x (so s) :: sS s) (sφ s) (sψ s) ({[x]} ∪ sg s) (sn s)).
Proof.
  intros [H1 H2] Hin Hx. split; cbn.
  - intros Hn o [->|Ho]%elem_of_cons Hc; [|by apply H1].
    destruct (decide (x = fc)) as [->|Hne]; [rewrite lookup_delete_eq in Hc; by destruct Hc|]. rewrite lookup_delete_ne in Hc by done.
    specialize (H1 Hn _ Hin Hc). unfold targets in *. rewrite !Forall_cons in H1 |- *. destruct H1 as (Hp & Hu & Hcc & _).
    destruct (decide (x = fp)) as [->|Hp']; [destruct Hc as [? Hc]; rewrite Hx in Hc by auto; done|].
    destruct (decide (x = fu)) as [->|Hu']; [destruct Hc as [? Hc]; rewrite Hx in Hc by auto; done|].
    split_and!; [by apply inst_delete|by apply inst_delete|by apply inst_delete|constructor].
  - rewrite !not_elem_of_union, !not_elem_of_singleton. intros [Hp Gp] [Hu Gu] [Hc Gc] Hex.
    assert (exists o, o ∈ sS s /\ is_Some (o !! fc)) as Hex'.
    { destruct Hex as (o & [->|Ho]%elem_of_cons & Ho'); [|by exists o]. exists (so s). rewrite lookup_delete_ne in Ho' by done. done. }
    specialize (H2 Gp Gu Gc Hex'). intros o [->|Ho]%elem_of_cons; [|by apply H2]. destruct (H2 _ Hin) as (I1 & I2 & I3).
    split_and!; [by apply inst_delete|by apply inst_delete|]. rewrite lookup_delete_ne by done. intros Hcc. apply inst_delete; [done|by apply I3].
Qed.

Notation always := (always safe).

(** One operation, from what the program knows. *)
Lemma always_call {A} (o : op) (k : result errno (ans o) -> prog A) Q s v : repr s v ->
  (forall v1 r v2, repr s v1 -> behaves o v1 r v2 -> safe v2 /\ always Q (k r) v2) -> always Q (bind (call o) k) v.
Proof. intros Hr H v1 r v2 Hi Hb. apply (H v1); [|done]. by eapply rep_interferes. Qed.

(** ** Rollback *)

Section Rollback.
Variable dirFD : Z.

(** What one removal does: it has failed, or the name is not ours any more. *)
Definition removed (x : string) (s s' : st) : Prop :=
  sφ s' = sφ s /\ ((sn s' = S (sn s) /\ so s' = so s) \/ (sn s' = sn s /\ so s' = delete x (so s))).

Lemma same_file_key a b : same_file a b = true <-> key_of a = key_of b.
Proof. unfold same_file, key_of. rewrite andb_true_iff, !Z.eqb_eq. split; [by intros [-> ->]|by intros [= -> ->]]. Qed.

Lemma unlink_if_spec x i s v : repr s v -> good s -> (forall k, so s !! x = Some k -> k = key_of i) -> key_of i ∈ dom (sφ s) ->
  (x = fp \/ x = fu -> (sn s <= 1)%nat -> so s !! fc = None) ->
  always (fun _ v' => exists s', repr s' v' /\ good s' /\ removed x s s') (unlink_if dirFD x i) v.
Proof.
  intros Hr Hg Hx Hi Hc.
  assert (forall w w', repr s w -> w' = fault w -> safe w' /\ exists s', repr s' w' /\ good s' /\ removed x s s') as Hfault.
  { intros w w' Hw ->. pose proof (repr_fault _ _ Hw) as Hf. pose proof (good_fault _ Hg) as Hgf.
    split; [exact (repr_safe _ _ Hf Hgf)|]. exists (faulted s). split; [exact Hf|]. split; [exact Hgf|]. split; [done|by left]. }
  assert (forall w, repr s w -> so s !! x = None -> safe w /\ exists s', repr s' w /\ good s' /\ removed x s s') as Hskip.
  { intros w Hw Ho. split; [by eapply repr_safe|]. exists s. split; [done|]. split; [done|]. split; [done|]. right. by rewrite delete_id. }
  eapply always_call; [done|]. intros v1 r v2 Hr1 Hb. destruct r as [id'|e]; cbn in Hb.
  - destruct Hb as [Hd ->]. split; [by eapply repr_safe|]. destruct (same_file id' i) eqn:Es.
    + apply same_file_key in Es. rewrite Es in Hd. assert (so s !! x = Some (key_of i)) as Ho by (by apply (r_now _ _ _ _ _ _ _ _ Hr1)).
      eapply always_call; [exact Hr1|]. intros v3 r2 v4 Hr3 Hb2. destruct r2 as [[]|e]; cbn in Hb2; [|by apply (Hfault v3)]. subst v4.
      pose proof (rep_unlink _ _ _ _ _ _ _ _ _ _ Hr3 Ho) as Hu. pose proof (good_delete s x Hg (r_in _ _ _ _ _ _ _ _ Hr1) Hc) as Hgd.
      split; [by eapply (repr_safe (mkSt _ _ _ _ _ _))|]. eexists (mkSt _ _ _ _ _ _). split; [exact Hu|]. split; [exact Hgd|]. split; [done|by right].
    + apply Hskip; [done|]. destruct (so s !! x) as [k|] eqn:Ho; [|done]. pose proof (Hx _ eq_refl) as ->. eapply rep_lookup in Ho; [|exact Hr1].
      assert (key_of id' = key_of i) as E%same_file_key by congruence. congruence.
  - destruct e; try (by apply (Hfault v1)). destruct Hb as [Hd ->]. apply Hskip; [done|]. eapply rep_absent; [exact Hr1|done].
Qed.

(** The names of a file's that are ours are those the program recorded. *)
Definition tied (o : gmap string key) (φ : gmap key file) (f : commitFile) : Prop :=
  (forall k, o !! final f = Some k -> published f = true /\ k = key_of (id f)) /\
  (forall k, o !! temp f = Some k -> Ino (id f) <> 0 /\ k = key_of (id f)) /\
  (published f = true \/ Ino (id f) <> 0 -> key_of (id f) ∈ dom φ).

Lemma tied_delete o φ f x : tied o φ f -> tied (delete x o) φ f.
Proof. intros (H1 & H2 & H3). split_and!; [..|done]; intros k [_ Hk]%lookup_delete_Some; [by apply H1|by apply H2]. Qed.
Lemma tied_removed x s s' f : removed x s s' -> tied (so s) (sφ s) f -> tied (so s') (sφ s') f.
Proof. intros [-> [[_ ->]|[_ ->]]]; [done|apply tied_delete]. Qed.

Lemma unlink_finals_step f files s v Q : repr s v -> good s -> tied (so s) (sφ s) f ->
  (final f = fp \/ final f = fu -> (sn s <= 1)%nat -> so s !! fc = None) ->
  (forall s' v', repr s' v' -> good s' -> removed (final f) s s' -> always Q (unlink_finals dirFD files) v') ->
  always Q (unlink_finals dirFD (f :: files)) v.
Proof.
  intros Hr Hg (T1 & T2 & T3) Hc HQ. cbn [unlink_finals]. destruct (published f) eqn:E; cbn [negb].
  - apply always_bind. eapply always_mono; [|apply (unlink_if_spec (final f) (id f) s); try done]; [|intros k Hk; by apply T1|by apply T3; left].
    intros _ v' (s' & Hr' & Hg' & Hrem). by eapply HQ.
  - apply (HQ s); [done|done|]. split; [done|]. right. split; [done|]. rewrite delete_id; [done|].
    destruct (so s !! final f) as [k|] eqn:Ek; [|done]. by destruct (T1 k eq_refl).
Qed.

Lemma unlink_temps_step f files s v Q : repr s v -> good s -> tied (so s) (sφ s) f -> temp f <> fp -> temp f <> fu ->
  (forall s' v', repr s' v' -> good s' -> removed (temp f) s s' -> always Q (unlink_temps dirFD files) v') ->
  always Q (unlink_temps dirFD (f :: files)) v.
Proof.
  intros Hr Hg (T1 & T2 & T3) Hp Hu HQ. cbn [unlink_temps]. destruct (Z.eqb_spec (Ino (id f)) 0) as [E|E].
  - apply (HQ s); [done|done|]. split; [done|]. right. split; [done|]. rewrite delete_id; [done|].
    destruct (so s !! temp f) as [k|] eqn:Ek; [|done]. by destruct (T2 k eq_refl).
  - apply always_bind. eapply always_mono; [|apply (unlink_if_spec (temp f) (id f) s); try done]; [|intros k Hk; by apply T2|apply T3; by right|].
    + intros _ v' (s' & Hr' & Hg' & Hrem). by eapply HQ.
    + intros [?|?]; congruence.
Qed.

(** The three files, and where the program knows them to be linked. *)
Definition named (files : list commitFile) : Prop :=
  map final files = [fp; fu; fc] /\ map data files = [dp; du; dc] /\ NoDup (map temp files ++ [fp; fu; fc]).
Lemma named_three files : named files -> exists a b c, files = [a; b; c] /\ final a = fp /\ final b = fu /\ final c = fc /\
  data a = dp /\ data b = du /\ data c = dc /\ NoDup [temp a; temp b; temp c; fp; fu; fc].
Proof.
  intros (Hf & Hd & Hn). destruct files as [|a [|b [|c [|? ?]]]]; try done. cbn in Hf, Hd, Hn. injection Hf as ? ? ?. injection Hd as ? ? ?. by exists a, b, c.
Qed.
Definition all_names (files : list commitFile) : list string := map temp files ++ map final files.
Definition covered (s : st) (files : list commitFile) : Prop :=
  Forall (tied (so s) (sφ s)) files /\ forall x k, so s !! x = Some k -> x ∈ all_names files.

(** An execution that ends in an error: nothing of ours is left if at most
    one operation failed. *)
Definition undone (s : st) (v : view) : Prop := repr s v /\ good s /\ ((sn s <= 1)%nat -> so s = ∅).
Definition failed (v : view) : Prop := exists s, undone s v /\ (1 <= sn s)%nat.

Lemma clean_repr s v : repr s v -> so s = ∅ -> clean v.
Proof.
  intros Hr Ho n k Hn Hk. rewrite (r_mine _ _ _ _ _ _ _ _ Hr) in Hk. apply (r_now _ _ _ _ _ _ _ _ Hr) in Hn; [|done]. by rewrite Ho in Hn.
Qed.

Lemma rollback_spec files s v : repr s v -> good s -> named files -> covered s files -> (1 <= sn s)%nat ->
  always (fun _ v' => failed v') (rollbackCommitFiles dirFD files) v.
Proof.
  intros Hr Hg (a & b & c & -> & Ea & Eb & Ec & _ & _ & _ & Hnd)%named_three [Ht Hall] Hn. unfold rollbackCommitFiles. cbn [rev app].
  rewrite !NoDup_cons, !not_elem_of_cons in Hnd. destruct Hnd as ((Nab & Nac & Nap & Nau & Naf & _) & (Nbc & Nbp & Nbu & Nbf & _) & (Ncp & Ncu & Ncf & _) & (Npu & Npf & _) & (Nuf & _) & _).
  rewrite !Forall_cons in Ht. destruct Ht as (Ta & Tb & Tc & _). apply always_bind.
  apply (unlink_finals_step c _ s); try done; [rewrite Ec; intros [?|?]; congruence|]. intros s1 v1 Hr1 Hg1 R1. rewrite Ec in R1.
  assert (forall s', removed fc s s' -> (sn s' <= 1)%nat -> so s' !! fc = None) as Hfc.
  { intros s' [_ [[En _]|[_ Eo]]] Hle; [lia|]. by rewrite Eo, lookup_delete_eq. }
  apply (unlink_finals_step b _ s1); try done; [by eapply tied_removed|intros _; by apply Hfc|]. intros s2 v2 Hr2 Hg2 R2. rewrite Eb in R2.
  assert ((sn s2 <= 1)%nat -> so s2 !! fc = None) as Hfc2.
  { intros Hle. destruct R2 as [_ [[En Eo]|[En Eo]]]; rewrite Eo, ?lookup_delete_ne by done; apply Hfc; try done; lia. }
  apply (unlink_finals_step a _ s2); try done; [by do 2 (eapply tied_removed; [done|])|]. intros s3 v3 Hr3 Hg3 R3. rewrite Ea in R3. cbn [unlink_finals].
  apply (unlink_temps_step c _ s3); try done; [by do 3 (eapply tied_removed; [done|])|]. intros s4 v4 Hr4 Hg4 R4.
  apply (unlink_temps_step b _ s4); try done; [by do 4 (eapply tied_removed; [done|])|]. intros s5 v5 Hr5 Hg5 R5.
  apply (unlink_temps_step a _ s5); try done; [by do 5 (eapply tied_removed; [done|])|]. intros s6 v6 Hr6 Hg6 R6. cbn [unlink_temps].
  exists s6. revert R1 R2 R3 R4 R5 R6. unfold removed. intros [_ R1] [_ R2] [_ R3] [_ R4] [_ R5] [_ R6].
  split; [|lia]. split; [done|]. split; [done|]. intros Hle. apply map_empty. intros x.
  destruct R6 as [[? ?]|[? ->]]; [lia|]. destruct R5 as [[? ?]|[? ->]]; [lia|]. destruct R4 as [[? ?]|[? ->]]; [lia|].
  destruct R3 as [[? ?]|[? ->]]; [lia|]. destruct R2 as [[? ?]|[? ->]]; [lia|]. destruct R1 as [[? ?]|[? ->]]; [lia|].
  destruct (so s !! x) as [k|] eqn:E.
  - specialize (Hall x k E). unfold all_names in Hall. cbn [map app] in Hall. rewrite !elem_of_cons, elem_of_nil, Ea, Eb, Ec in Hall.
    rewrite !lookup_delete. repeat case_decide; try done. naive_solver.
  - rewrite !lookup_delete. by repeat case_decide.
Qed.

(** How a step ends: with its result, or in an error. *)
Definition outcome {A} (Q : A -> view -> Prop) (r : result commit_error A) (v : view) : Prop :=
  match r with Ok a => Q a v | Err _ => failed v end.

Lemma rollback_outcome {A} files e (Q : A -> view -> Prop) s v : repr s v -> good s -> named files -> covered s files -> (1 <= sn s)%nat ->
  always (outcome Q) (rollback_with dirFD files e) v.
Proof.
  intros Hr Hg Hn Hc Hs. unfold rollback_with. apply always_bind. eapply always_mono; [|by apply (rollback_spec files s)]. by intros u v' Hf.
Qed.

Lemma let_ok {A B} (p : prog (result commit_error A)) (k : A -> prog (result commit_error B)) Q Q' v :
  always (outcome Q) p v -> (forall a v', Q a v' -> always (outcome Q') (k a) v') ->
  always (outcome Q') (let?! x := p in k x) v.
Proof. intros Hp Hk. apply always_bind. eapply always_mono; [|exact Hp]. intros [a|e] v' Hv; [by apply Hk|done]. Qed.

(** ** Before anything is published *)

Definition fkey (f : commitFile) : key := key_of (id f).

Definition early (s : st) : Prop := forall o, o ∈ sS s -> o !! fp = None /\ o !! fu = None /\ o !! fc = None.

(** Some of the files are there, under their temporary names. *)
Record base (s : st) (done todo : list commitFile) : Prop := {
  b_named : named (done ++ todo);
  b_fails : sn s = 0%nat;
  b_early : early s;
  b_entries : forall x k, so s !! x = Some k -> exists f, f ∈ done /\ x = temp f /\ k = fkey f;
  b_linked : Forall (fun f => so s !! temp f = Some (fkey f)) done;
  b_keys : NoDup (map fkey done);
  b_done : Forall (fun f => published f = false /\ Ino (id f) <> 0 /\ fkey f ∈ dom (sφ s)) done;
  b_todo : Forall (fun f => published f = false /\ id f = no_id) todo
}.

Lemma base_good s done todo : base s done todo -> good s.
Proof. intros H. apply good_early. intros o Ho. by apply (b_early _ _ _ H). Qed.

Lemma base_covered s v done todo n : repr s v -> base s done todo -> covered (mkSt (so s) (sS s) (sφ s) (sψ s) (sg s) n) (done ++ todo).
Proof.
  intros Hr [Hn _ He Hent _ _ Hd Ht]. assert (Hnd := proj2 (proj2 Hn)). apply NoDup_app in Hnd as (Hnt & _ & _).
  destruct (He _ (r_in _ _ _ _ _ _ _ _ Hr)) as (E1 & E2 & E3). split; cbn.
  - apply Forall_forall. intros f Hf.
    assert (final f ∈ [fp; fu; fc]) as Hfin by (rewrite <- (proj1 Hn); apply list_elem_of_fmap; by exists f).
    split_and!.
    + intros k Hk. rewrite !elem_of_cons, elem_of_nil in Hfin. destruct Hfin as [E|[E|[E|[]]]]; rewrite E in Hk; congruence.
    + intros k Hk. destruct (Hent _ _ Hk) as (f' & Hf' & Et & ->). assert (f' = f) as Eff.
      { apply list_elem_of_lookup in Hf as [i Hi]. apply list_elem_of_lookup in Hf' as [j Hj].
        assert (map temp (done ++ todo) !! i = Some (temp f)) as Hi' by (rewrite list_lookup_fmap, Hi; done).
        assert (map temp (done ++ todo) !! j = Some (temp f)) as Hj' by (rewrite list_lookup_fmap, (lookup_app_l_Some _ _ _ _ Hj), Et; done).
        pose proof (NoDup_lookup _ _ _ _ Hnt Hi' Hj') as Eij. subst j. rewrite (lookup_app_l_Some _ _ _ _ Hj) in Hi. congruence. }
      subst f'. rewrite Forall_forall in Hd. by destruct (Hd f Hf') as (_ & ? & _).
    + intros Hor. apply elem_of_app in Hf as [Hf|Hf].
      * rewrite Forall_forall in Hd. by destruct (Hd f Hf) as (_ & _ & ?).
      * rewrite Forall_forall in Ht. destruct (Ht f Hf) as [Hp Hi]. rewrite Hp, Hi in Hor. by destruct Hor as [|[]].
  - intros x k Hx. destruct (Hent _ _ Hx) as (f & Hf & -> & _). unfold all_names. apply elem_of_app. left. apply list_elem_of_fmap. exists f.
    split; [done|]. apply elem_of_app. by left.
Qed.

(** An operation has failed: back to nothing. *)
Lemma base_fault {A} s v v' done todo files e (Q : A -> view -> Prop) : repr s v -> base s done todo -> v' = fault v -> files = done ++ todo ->
  safe v' /\ always (outcome Q) (rollback_with dirFD files e) v'.
Proof.
  intros Hr Hb -> ->. pose proof (repr_fault _ _ Hr) as Hf. pose proof (base_good _ _ _ Hb) as Hg. pose proof (good_fault _ Hg) as Hgf.
  split; [exact (repr_safe _ _ Hf Hgf)|]. eapply (rollback_outcome _ _ _ (faulted s)); [exact Hf|exact Hgf|apply Hb|by eapply base_covered|cbn; lia].
Qed.

Definition set_phi (φ : gmap key file) (s : st) : st := mkSt (so s) (sS s) φ (sψ s) (sg s) (sn s).
Definition set_psi (ψ : gmap Z key) (s : st) : st := mkSt (so s) (sS s) (sφ s) ψ (sg s) (sn s).

Lemma base_phi s done todo φ : base s done todo -> dom φ = dom (sφ s) -> base (set_phi φ s) done todo.
Proof. intros [? ? ? ? ? ? ? ?] Hd. constructor; try done. cbn. by rewrite Hd. Qed.

(** A file of the program that is being prepared: its content so far. *)
Definition holds (s : st) (good_file : file -> Prop) (f : commitFile) : Prop :=
  exists fl, sφ s !! fkey f = Some fl /\ good_file fl.
Definition opened (s : st) (f : commitFile) : Prop := sψ s !! fd f = Some (fkey f).
Definition empty_file (fl : file) : Prop := shape fl /\ f_data fl = "".

Lemma holds_phi s P f g fl : holds s P f -> fkey f <> fkey g -> holds (set_phi (<[fkey g := fl]> (sφ s)) s) P f.
Proof. intros (fl' & Hf & HP) Hne. exists fl'. cbn. by rewrite lookup_insert_ne. Qed.

Lemma keys_last done f : NoDup (map fkey (done ++ [f])) -> Forall (fun g => fkey g <> fkey f) done.
Proof.
  rewrite map_app. cbn. intros (_ & H & _)%NoDup_app. apply Forall_forall. intros g Hg E. apply (H (fkey g)); [apply list_elem_of_fmap; by exists g|].
  rewrite E. by apply list_elem_of_singleton.
Qed.

(** Give the last of the files a new content. *)
Lemma base_on_file s v v' done f todo h fl P : repr s v -> base s (done ++ [f]) todo -> opened s f -> sφ s !! fkey f = Some fl ->
  on_file v v' (fd f) h -> Forall (holds s P) done -> Forall (opened s) done ->
  let s' := set_phi (<[fkey f := h fl]> (sφ s)) s in
  repr s' v' /\ base s' (done ++ [f]) todo /\ sφ s' !! fkey f = Some (h fl) /\ Forall (holds s' P) done /\ Forall (opened s') done /\ opened s' f.
Proof.
  intros Hr Hb Ho Hf Hon HP Hops. cbv zeta. pose proof (rep_on_file _ _ _ _ _ _ _ _ _ _ _ _ _ Hr Hon Ho Hf) as Hr'. split; [exact Hr'|].
  split; [apply base_phi; [done|apply dom_insert_lookup_L; by eexists]|]. split; [by cbn; rewrite lookup_insert_eq|].
  split; [|by split]. pose proof (keys_last _ _ (b_keys _ _ _ Hb)) as Hk. rewrite Forall_forall in HP, Hk |- *. intros g Hg. apply holds_phi; [by apply HP|by apply Hk].
Qed.

(** A new temporary file. *)
Lemma base_create s v done f todo nfd i m P : repr s v -> base s done (f :: todo) ->
  v_dir v !! temp f = None -> v_fds v !! nfd = None -> unused v (key_of i) -> Ino i <> 0 -> Z.land m 384 = m ->
  Forall (holds s P) done -> Forall (opened s) done ->
  let k := key_of i in let f' := mkCommitFile (temp f) (final f) (data f) nfd i (published f) in
  let fl := mkFile "" false m (Gid i) in
  let v' := add_mine k (set_fds (<[nfd := k]> (v_fds v)) (set_file k fl (set_dir (<[temp f := k]> (v_dir v)) v))) in
  exists s', repr s' v' /\ base s' (done ++ [f']) todo /\ sφ s' !! fkey f' = Some fl /\ empty_file fl /\ opened s' f' /\
    Forall (holds s' P) done /\ Forall (opened s') done.
Proof.
  intros Hr Hb Hx Hfd Hu Hi Hm HP Hops. cbv zeta. pose proof (rep_create _ _ _ _ _ _ _ _ _ _ _ (mkFile "" false m (Gid i)) Hr Hx Hfd Hu) as Hr'.
  eexists (mkSt _ _ _ _ _ _). split; [exact Hr'|]. pose proof Hu as (Hk & _). rewrite (r_mine _ _ _ _ _ _ _ _ Hr) in Hk.
  pose proof (rep_absent _ _ _ _ _ _ _ _ _ Hr Hx) as Hox.
  destruct Hb as [(Hn1 & Hn2 & Hn3) Hf He Hent Hlk Hkeys Hd Ht]. apply Forall_cons in Ht as [[Hpub Hid] Ht].
  assert (temp f ∉ [fp; fu; fc]) as Hnf.
  { apply NoDup_app in Hn3 as (_ & Hn3 & _). apply Hn3, list_elem_of_fmap. exists f. split; [done|]. apply elem_of_app. right. by left. }
  rewrite !not_elem_of_cons in Hnf. destruct Hnf as (N1 & N2 & N3 & _).
  split; [constructor; cbn|].
  - unfold named in *. rewrite !map_app in *. cbn [map app temp final data] in *. rewrite <- !app_assoc in *. cbn [app]. done.
  - done.
  - intros o [->|Ho]%elem_of_cons; [|by apply He]. rewrite !lookup_insert_ne by congruence. apply He, (r_in _ _ _ _ _ _ _ _ Hr).
  - intros x k' Hxk. destruct (decide (x = temp f)) as [->|Hne].
    + rewrite lookup_insert_eq in Hxk. injection Hxk as <-. eexists. split; [apply elem_of_app; right; by apply list_elem_of_singleton|done].
    + rewrite lookup_insert_ne in Hxk by done. destruct (Hent _ _ Hxk) as (g & Hg & -> & ->). exists g. split; [apply elem_of_app; by left|done].
  - apply Forall_app. split; [|constructor; [by cbn; rewrite lookup_insert_eq|constructor]]. eapply Forall_impl; [exact Hlk|]. intros g Hg. cbn.
    rewrite lookup_insert_ne; [done|]. congruence.
  - rewrite map_app. cbn. apply NoDup_app. split; [done|]. split; [|apply NoDup_singleton]. intros k' Hk' ->%list_elem_of_singleton.
    apply list_elem_of_fmap in Hk' as (g & Eg & Hg). rewrite Forall_forall in Hd. destruct (Hd g Hg) as (_ & _ & Hdg). rewrite <- Eg in Hdg. done.
  - apply Forall_app. split.
    + eapply Forall_impl; [exact Hd|]. intros g (? & ? & ?). split_and!; try done. rewrite dom_insert_L. set_solver.
    + constructor; [|constructor]. split_and!; try done. cbn. rewrite dom_insert_L. set_solver.
  - done.
  - cbn. split; [by unfold fkey; cbn; rewrite lookup_insert_eq|]. split; [split; [by right|done]|]. split; [unfold opened; cbn; by rewrite lookup_insert_eq|].
    assert (forall g, g ∈ done -> fkey g <> key_of i) as Hne.
    { intros g Hg E. rewrite Forall_forall in Hd. destruct (Hd g Hg) as (_ & _ & Hdg). by rewrite E in Hdg. }
    rewrite !Forall_forall in *. split; intros g Hg.
    + destruct (HP g Hg) as (fl & Hfl & HPf). exists fl. cbn. rewrite lookup_insert_ne by (intros E; by apply (Hne g Hg)). done.
    + unfold opened. cbn. rewrite lookup_insert_ne; [by apply Hops|]. intros E. pose proof (Hops g Hg) as Hog. unfold opened in Hog. rewrite <- E in Hog.
      eapply lookup_weaken in Hog; [|apply (r_fds _ _ _ _ _ _ _ _ Hr)]. congruence.
Qed.

Lemma base_safe s v done todo : repr s v -> base s done todo -> safe v.
Proof. intros Hr Hb. eapply repr_safe; [exact Hr|by eapply base_good]. Qed.

Lemma cons_snoc (done : list commitFile) f todo : done ++ f :: todo = (done ++ [f]) ++ todo.
Proof. by rewrite <- app_assoc. Qed.

(** The files after a step, all of them as [P] says. *)
Definition prepared (P : file -> Prop) (files : list commitFile) (v : view) : Prop :=
  exists s, repr s v /\ base s files [] /\ Forall (holds s P) files /\ Forall (opened s) files.

Lemma temp_spec todo : forall done s v, repr s v -> base s done todo -> Forall (holds s empty_file) done -> Forall (opened s) done ->
  always (outcome (prepared empty_file)) (create_files dirFD adopt done todo) v.
Proof.
  induction todo as [|f todo IH]; intros done s v Hr Hb HP Hops; cbn [create_files]; [by exists s|].
  eapply always_call; [exact Hr|]. clear v Hr. intros v r v2 Hr Hbe. destruct r as [[nfd i]|e]; cbn in Hbe; cycle 1.
  { destruct Hbe as [E|(k & Hx & Hu & E)]; [by eapply base_fault|]. pose proof (rep_lost _ _ _ _ _ _ _ _ _ _ Hr Hx Hu) as Hr'. by eapply base_fault. }
  destruct Hbe as (Hx & Hfd & Hu & Hi & m & Hm & ->).
  destruct (base_create _ _ _ _ _ _ _ _ _ Hr Hb Hx Hfd Hu Hi Hm HP Hops) as (s1 & Hr1 & Hb1 & Hfl & Hempty & Hop & HP1 & Hops1).
  cbn [fst snd]. set (f' := mkCommitFile (temp f) (final f) (data f) nfd i (published f)) in *. split; [by eapply base_safe|].
  assert (forall s' v', repr s' v' -> base s' (done ++ [f']) todo -> Forall (holds s' empty_file) done -> holds s' empty_file f' ->
    Forall (opened s') done -> opened s' f' -> always (outcome (prepared empty_file)) (create_files dirFD adopt (done ++ [f']) todo) v') as Hnext.
  { intros s' v' ? ? ? ? ? ?. eapply IH; [done|done|..]; apply Forall_app; split; [done|by repeat constructor|done|by repeat constructor]. }
  assert (holds s1 empty_file f') as Hh1 by (by eexists). destruct adopt as [gid|] eqn:Ea; [|by eapply Hnext].
  eapply always_call; [exact Hr1|]. clear Hr Hr1 Hb. intros w r w2 Hr Hbe. destruct r as [[]|e]; cbn in Hbe; cycle 1.
  { destruct e; try (by eapply base_fault; [exact Hr|exact Hb1|exact Hbe|apply cons_snoc]). subst w2. split; [by eapply base_safe|by eapply Hnext]. }
  destruct (base_on_file _ _ _ _ _ _ _ _ _ Hr Hb1 Hop Hfl Hbe HP1 Hops1) as (Hr2 & Hb2 & Hfl2 & HP2 & Hops2 & Hop2). cbn [f_mode f_data f_synced f_gid] in *.
  split; [by eapply base_safe|]. eapply always_call; [exact Hr2|]. intros w3 r w4 Hr3 Hbe3. destruct r as [[]|e]; cbn in Hbe3; cycle 1.
  { by eapply base_fault; [exact Hr3|exact Hb2|exact Hbe3|apply cons_snoc]. }
  destruct (base_on_file _ _ _ _ _ _ _ _ _ Hr3 Hb2 Hop2 Hfl2 Hbe3 HP2 Hops2) as (Hr4 & Hb4 & Hfl4 & HP4 & Hops4 & Hop4). cbn [f_mode f_data f_synced f_gid] in *.
  split; [by eapply base_safe|]. eapply Hnext; try done. eexists. split; [exact Hfl4|]. split; [left; by rewrite Ea|]. apply Hempty.
Qed.

(** Writing: the content of the files done is complete, that of the others
    empty. *)
Definition content (f : commitFile) (fl : file) : Prop := complete fl (data f).
Definition written (s : st) (f : commitFile) : Prop := holds s (content f) f.

Lemma keys_middle done f todo : NoDup (map fkey (done ++ f :: todo)) -> Forall (fun g => fkey g <> fkey f) (done ++ todo).
Proof.
  rewrite map_app. cbn. intros (_ & H1 & [H2 _]%NoDup_cons)%NoDup_app. apply Forall_app. split; apply Forall_forall; intros g Hg E.
  - apply (H1 (fkey g)); [apply list_elem_of_fmap; by exists g|]. rewrite E. by left.
  - apply H2. rewrite <- E. apply list_elem_of_fmap. by exists g.
Qed.

(** Where the writing is: the files before, the one at hand, those after. *)
Record writing (s : st) (done : list commitFile) (f : commitFile) (todo : list commitFile) (P : file -> Prop) : Prop := {
  w_base : base s (done ++ f :: todo) [];
  w_done : Forall (written s) done;
  w_file : holds s P f;
  w_todo : Forall (holds s empty_file) todo;
  w_open : Forall (opened s) (f :: todo)
}.

Lemma writing_on_file s v v' done f todo P P' h : repr s v -> writing s done f todo P -> on_file v v' (fd f) h -> (forall fl, P fl -> P' (h fl)) ->
  exists s', repr s' v' /\ writing s' done f todo P'.
Proof.
  intros Hr [Hb Hd (fl & Hfl & HP) Ht Ho] Hon HPP. pose proof Ho as [Hof _]%Forall_cons.
  exists (set_phi (<[fkey f := h fl]> (sφ s)) s). split; [exact (rep_on_file _ _ _ _ _ _ _ _ _ _ _ _ _ Hr Hon Hof Hfl)|].
  pose proof (keys_middle _ _ _ (b_keys _ _ _ Hb)) as [Hk1 Hk2]%Forall_app. constructor.
  - apply base_phi; [done|]. apply dom_insert_lookup_L. by eexists.
  - rewrite Forall_forall in *. intros g Hg. apply holds_phi; [by apply Hd|by apply Hk1].
  - exists (h fl). split; [cbn; by rewrite lookup_insert_eq|by apply HPP].
  - rewrite Forall_forall in *. intros g Hg. apply holds_phi; [by apply Ht|by apply Hk2].
  - exact Ho.
Qed.

Lemma writing_fault {A} s v v' done f todo P e (Q : A -> view -> Prop) : repr s v -> writing s done f todo P -> v' = fault v ->
  safe v' /\ always (outcome Q) (rollback_with dirFD (done ++ f :: todo) e) v'.
Proof. intros Hr Hw E. eapply base_fault; [exact Hr|apply Hw|exact E|by rewrite app_nil_r]. Qed.

Definition closed (f : commitFile) : commitFile := mkCommitFile (temp f) (final f) (data f) (-1) (id f) (published f).

Lemma base_closed s done f todo : base s (done ++ f :: todo) [] -> base s (done ++ closed f :: todo) [].
Proof.
  intros [Hn Hf He Hent Hlk Hk Hd Ht]. constructor; try done.
  - unfold named in *. rewrite !map_app in *. exact Hn.
  - intros x k Hx. destruct (Hent x k Hx) as (g & Hg & E). rewrite elem_of_app, elem_of_cons in Hg. destruct Hg as [Hg|[->|Hg]].
    + exists g. rewrite elem_of_app. tauto.
    + exists (closed f). split; [|exact E]. rewrite elem_of_app. right. by left.
    + exists g. rewrite elem_of_app, elem_of_cons. tauto.
  - rewrite Forall_app, Forall_cons in *. exact Hlk.
  - rewrite map_app in *. exact Hk.
  - rewrite Forall_app, Forall_cons in *. exact Hd.
Qed.

Lemma writing_close s v done f todo : repr s v -> writing s done f todo (content f) ->
  exists s', repr s' (set_fds (delete (fd f) (v_fds v)) v) /\ base s' ((done ++ [closed f]) ++ todo) [] /\ Forall (written s') (done ++ [closed f]) /\
    Forall (holds s' empty_file) todo /\ Forall (opened s') todo.
Proof.
  intros Hr [Hb Hd Hf Ht Ho]. exists (set_psi (delete (fd f) (sψ s)) s). split; [exact (rep_close _ _ _ _ _ _ _ _ (fd f) Hr)|].
  pose proof (keys_middle _ _ _ (b_keys _ _ _ Hb)) as [_ Hk2]%Forall_app. apply Forall_cons in Ho as [Hof Ho].
  split; [rewrite <- app_assoc; cbn [app]; destruct (base_closed _ _ _ _ Hb); by constructor|]. split; [|split].
  - apply Forall_app. split; [exact Hd|]. constructor; [exact Hf|constructor].
  - exact Ht.
  - rewrite Forall_forall in *. intros g Hg. unfold opened. cbn. rewrite lookup_delete_ne; [by apply Ho|]. intros E.
    apply (Hk2 g Hg). pose proof (Ho g Hg) as Hog. unfold opened in Hog, Hof. rewrite E in Hof. congruence.
Qed.

Definition all_written (files : list commitFile) (v : view) : Prop := exists s, repr s v /\ base s files [] /\ Forall (written s) files.

Lemma write_files_spec todo : forall done s v, repr s v -> base s (done ++ todo) [] -> Forall (written s) done -> Forall (holds s empty_file) todo ->
  Forall (opened s) todo -> always (outcome all_written) (write_files dirFD done todo) v.
Proof.
  induction todo as [|f todo IH]; intros done s v Hr Hb Hd Ht Ho; cbn [write_files]; [exists s; by rewrite app_nil_r in Hb|].
  assert (writing s done f todo empty_file) as Hw by (apply Forall_cons in Ht as [Hf Ht]; by constructor). clear Hb Hd Ht Ho.
  eapply always_call; [exact Hr|]. clear v Hr. intros v r v2 Hr Hbe. destruct r as [[]|e]; cbn in Hbe; cycle 1.
  { destruct Hbe as [E|(n & w & Hon & E)]; [by eapply writing_fault|].
    destruct (writing_on_file _ _ _ _ _ _ _ (fun _ => True) _ Hr Hw Hon) as (s' & Hr' & Hw'); [done|]. by eapply writing_fault. }
  destruct (writing_on_file _ _ _ _ _ _ _ (fun fl => shape fl /\ f_data fl = data f) _ Hr Hw Hbe) as (s1 & Hr1 & Hw1).
  { intros fl [Hs Hfl]. by rewrite Hfl. }
  split; [eapply base_safe; [exact Hr1|apply Hw1]|]. eapply always_call; [exact Hr1|]. clear v v2 Hr Hr1 Hbe. intros v r v2 Hr Hbe.
  destruct r as [[]|e]; cbn in Hbe; [|by eapply writing_fault].
  destruct (writing_on_file _ _ _ _ _ _ _ (content f) _ Hr Hw1 Hbe) as (s2 & Hr2 & Hw2).
  { intros fl [Hs Hfl]. by split_and!. }
  split; [eapply base_safe; [exact Hr2|apply Hw2]|]. eapply always_call; [exact Hr2|]. clear v v2 Hr Hr2 Hbe. intros v r v2 Hr Hbe.
  destruct r as [i|e]; cbn in Hbe; [|by eapply writing_fault]. destruct Hbe as [Hfd ->]. split; [eapply base_safe; [exact Hr|apply Hw2]|].
  assert (same_file i (id f) = true) as ->.
  { apply same_file_key. pose proof (w_open _ _ _ _ _ Hw2) as [Ho _]%Forall_cons. unfold opened in Ho. eapply lookup_weaken in Ho; [|apply (r_fds _ _ _ _ _ _ _ _ Hr)].
    unfold fkey in Ho. congruence. }
  cbn [negb]. eapply always_call; [exact Hr|]. clear v Hr Hfd. intros v r v2 Hr Hbe. destruct r as [[]|e]; cbn in Hbe; cycle 1.
  { destruct Hbe as [E|E]; [by eapply writing_fault|].
    pose proof (rep_close _ _ _ _ _ _ _ _ (fd f) Hr) as Hr'. eapply (base_fault (mkSt _ _ _ _ _ _)); [exact Hr'| |exact E|by rewrite app_nil_r].
    destruct (w_base _ _ _ _ _ Hw2). by constructor. }
  subst v2. destruct (writing_close _ _ _ _ _ Hr Hw2) as (s3 & Hr3 & Hb3 & Hd3 & Ht3 & Ho3). split; [by eapply base_safe|]. by eapply IH.
Qed.

(** ** Publication *)

Definition marked (f : commitFile) : commitFile := mkCommitFile (temp f) (final f) (data f) (fd f) (id f) true.
Definition linked (f : commitFile) (s : st) : st :=
  mkSt (<[final f := fkey f]> (so s)) (<[final f := fkey f]> (so s) :: sS s) (sφ s) (sψ s) (sg s) (sn s).
Definition unlinked (f : commitFile) (s : st) : st :=
  mkSt (delete (temp f) (so s)) (delete (temp f) (so s) :: sS s) (sφ s) (sψ s) ({[temp f]} ∪ sg s) (sn s).

Lemma named_nodup files : named files -> NoDup (map temp files ++ map final files).
Proof. intros (-> & _ & H). exact H. Qed.

Lemma named_marked done f rest : named (done ++ f :: rest) -> named (done ++ marked f :: rest).
Proof. unfold named. rewrite !map_app. done. Qed.

Lemma NoDup_middle {A} (l k : list A) x : NoDup (l ++ x :: k) -> x ∉ l ++ k.
Proof. intros (_ & H1 & [H2 _]%NoDup_cons)%NoDup_app Hx%elem_of_app. destruct Hx as [Hx|Hx]; [|done]. apply (H1 x Hx). by left. Qed.

(** Another file has other names. *)
Lemma names_apart done f rest : named (done ++ f :: rest) -> temp f <> final f /\
  Forall (fun g => final g <> final f /\ temp g <> final f /\ temp g <> temp f) (done ++ rest).
Proof.
  intros Hn%named_nodup. rewrite !map_app in Hn. cbn [map] in Hn. pose proof Hn as Hf. rewrite app_assoc in Hf. apply NoDup_middle in Hf.
  rewrite <- app_assoc in Hn. apply NoDup_middle in Hn. rewrite !elem_of_app in Hf, Hn. rewrite ?elem_of_cons in Hf, Hn. rewrite ?elem_of_app in Hn.
  split; [intros E; apply Hf; left; left; right; by left|]. apply Forall_app. split; apply Forall_forall; intros g Hg.
  - assert (final g ∈ map final done /\ temp g ∈ map temp done) as [? ?] by (split; apply list_elem_of_fmap; by exists g).
    split_and!; intros E; rewrite E in *; tauto.
  - assert (final g ∈ map final rest /\ temp g ∈ map temp rest) as [? ?] by (split; apply list_elem_of_fmap; by exists g).
    split_and!; intros E; rewrite E in *; tauto.
Qed.

(** The state of a publication: what is known of all the files. *)
Record publishing (s : st) (files : list commitFile) : Prop := {
  p_named : named files;
  p_fails : sn s = 0%nat;
  p_good : good s;
  p_covered : covered s files;
  p_written : Forall (written s) files
}.
Definition pending (s : st) (f : commitFile) : Prop := published f = false /\ Ino (id f) <> 0 /\ so s !! temp f = Some (fkey f).

Lemma covered_marked s done f rest : named (done ++ f :: rest) -> covered s (done ++ f :: rest) -> pending s f -> fkey f ∈ dom (sφ s) ->
  covered (linked f s) (done ++ marked f :: rest) /\ covered (unlinked f (linked f s)) (done ++ marked f :: rest).
Proof.
  intros Hn [Ht Hent] (Hpub & Hi & Hl) Hk. destruct (names_apart _ _ _ Hn) as [Hne Hap].
  assert (covered (linked f s) (done ++ marked f :: rest)) as Hc.
  { split; cbn.
    - rewrite Forall_app, Forall_cons in Ht |- *. destruct Ht as (Hd & (T1 & T2 & T3) & Hr). apply Forall_app in Hap as [Hapd Hapr].
      assert (forall g, tied (so s) (sφ s) g -> final g <> final f /\ temp g <> final f /\ temp g <> temp f -> tied (<[final f := fkey f]> (so s)) (sφ s) g) as Hother.
      { intros g (G1 & G2 & G3) (N1 & N2 & _). split_and!; [..|done]; intros k; rewrite lookup_insert_ne by congruence; [apply G1|apply G2]. }
      split; [|split]; [| |].
      + rewrite Forall_forall in *. intros g Hg. apply Hother; [by apply Hd|by apply Hapd].
      + split_and!; cbn; [|intros k; rewrite lookup_insert_ne by congruence; apply T2|done]. intros k. rewrite lookup_insert_eq. by intros [= <-].
      + rewrite Forall_forall in *. intros g Hg. apply Hother; [by apply Hr|by apply Hapr].
    - intros x k Hx. unfold all_names in *. rewrite !map_app in *. cbn [map temp final marked] in *.
      destruct (decide (x = final f)) as [->|Hxn]; [rewrite !elem_of_app, !elem_of_cons; tauto|]. rewrite lookup_insert_ne in Hx by done. by eapply Hent. }
  split; [done|]. destruct Hc as [Hc1 Hc2]. split; cbn.
  - eapply Forall_impl; [exact Hc1|]. intros g Hg. by apply tied_delete.
  - intros x k [_ Hx]%lookup_delete_Some. by eapply Hc2.
Qed.

Lemma pub_fault {A} s v v' files e (Q : A -> view -> Prop) : repr s v -> publishing s files -> v' = fault v ->
  safe v' /\ always (outcome Q) (rollback_with dirFD files e) v'.
Proof.
  intros Hr [Hn Hs Hg Hc _] ->. pose proof (repr_fault _ _ Hr) as Hf. pose proof (good_fault _ Hg) as Hgf.
  split; [exact (repr_safe _ _ Hf Hgf)|]. eapply (rollback_outcome _ _ _ (faulted s)); [exact Hf|exact Hgf|exact Hn|exact Hc|cbn; lia].
Qed.

(** What a file that is now published leaves. *)
Lemma publishing_next s v done f rest : repr s v -> publishing s (done ++ f :: rest) -> pending s f -> good (linked f s) ->
  let s' := unlinked f (linked f s) in good s' /\ publishing s' (done ++ marked f :: rest) /\ covered (linked f s) (done ++ marked f :: rest).
Proof.
  intros Hr [Hn Hs Hg Hc Hw] Hp Hgl. cbv zeta.
  assert (fkey f ∈ dom (sφ s)) as Hk.
  { rewrite Forall_app, Forall_cons in Hw. destruct Hw as (_ & (fl & Hfl & _) & _). by eapply elem_of_dom_2. }
  destruct (covered_marked _ _ _ _ Hn Hc Hp Hk) as [Hc1 Hc2].
  assert (good (unlinked f (linked f s))) as Hgu.
  { apply (good_delete (linked f s)); [done|by left|]. intros Hor. exfalso. destruct Hn as (_ & _ & Hn%NoDup_app). destruct Hn as (_ & Hn & _).
    apply (Hn (temp f)); [apply list_elem_of_fmap; exists f; split; [done|rewrite elem_of_app; right; by left]|]. destruct Hor as [->| ->]; rewrite !elem_of_cons; auto. }
  split; [done|]. split; [|done]. constructor; [by apply named_marked|done|done|done|]. rewrite Forall_app, Forall_cons in Hw |- *. exact Hw.
Qed.

Lemma publish_spec s v done f rest : repr s v -> publishing s (done ++ f :: rest) -> pending s f -> good (linked f s) ->
  always (fun x v' => match x.1 with
    | None => x.2 = marked f /\ repr (unlinked f (linked f s)) v'
    | Some _ => exists s', repr s' v' /\ good s' /\ named (done ++ x.2 :: rest) /\ covered s' (done ++ x.2 :: rest) /\ (1 <= sn s')%nat
    end) (publishCommitFile dirFD f) v.
Proof.
  intros Hr Hp Hpe Hgl. destruct (publishing_next _ _ _ _ _ Hr Hp Hpe Hgl) as (Hgu & Hpn & Hcl). destruct Hpe as (Hpub & Hino & Hl).
  assert (forall w w', repr s w -> w' = fault w -> safe w' /\ exists s', repr s' w' /\ good s' /\ named (done ++ f :: rest) /\ covered s' (done ++ f :: rest) /\ (1 <= sn s')%nat) as Hfault.
  { intros w w' Hw ->. destruct Hp as [Hn _ Hg Hc _]. pose proof (repr_fault _ _ Hw) as Hf. pose proof (good_fault _ Hg) as Hgf.
    split; [exact (repr_safe _ _ Hf Hgf)|]. exists (faulted s). split; [exact Hf|]. split; [exact Hgf|]. split; [exact Hn|]. split; [exact Hc|cbn; lia]. }
  pose proof (r_in _ _ _ _ _ _ _ _ Hr) as Hin.
  eapply always_call; [exact Hr|]. clear v Hr. intros v r v2 Hr Hbe. destruct r as [i|e]; cbn in Hbe; cycle 1.
  { destruct e; try (by apply (Hfault v)). destruct Hbe as [Hd _]. eapply rep_lookup in Hl; [|exact Hr]. congruence. }
  destruct Hbe as [Hd ->]. split; [by eapply repr_safe; [|apply Hp]|].
  assert (same_file i (id f) = true) as ->.
  { apply same_file_key. eapply rep_lookup in Hl; [|exact Hr]. unfold fkey in Hl. congruence. }
  cbn [negb]. eapply always_call; [exact Hr|]. clear v Hr Hd. intros v r v2 Hr Hbe. destruct r as [[]|e]; cbn in Hbe; [|by apply (Hfault v)].
  destruct Hbe as (k & Hk & Hx & ->). assert (k = fkey f) as ->.
  { eapply rep_lookup in Hl; [|exact Hr]. congruence. }
  assert (fkey f ∈ dom (sφ s)) as Hdom by (eapply (r_ok _ _ _ _ _ _ _ _ Hr); [apply Hin|exact Hl]).
  assert (repr (linked f s) (set_dir (<[final f := fkey f]> (v_dir v)) v)) as Hr1 by exact (rep_link _ _ _ _ _ _ _ _ _ _ Hr Hdom Hx).
  split; [eapply repr_safe; [exact Hr1|exact Hgl]|]. eapply always_call; [exact Hr1|]. clear Hr Hr1. intros w r w2 Hr Hbe. destruct r as [[]|e]; cbn in Hbe; subst w2.
  - assert (so (linked f s) !! temp f = Some (fkey f)) as Hl1.
    { cbn. destruct (decide (temp f = final f)) as [E|E]; [rewrite E; by rewrite lookup_insert_eq|by rewrite lookup_insert_ne]. }
    pose proof (rep_unlink _ _ _ _ _ _ _ _ _ _ Hr Hl1) as Hr2. split; [exact (repr_safe (unlinked f (linked f s)) _ Hr2 Hgu)|]. split; [done|exact Hr2].
  - pose proof (repr_fault _ _ Hr) as Hf. pose proof (good_fault _ Hgl) as Hgf. split; [exact (repr_safe _ _ Hf Hgf)|].
    exists (faulted (linked f s)). split; [exact Hf|]. split; [exact Hgf|]. split; [apply (p_named _ _ Hpn)|]. split; [exact Hcl|cbn; lia].
Qed.

Lemma publish_files_step done f todo rest Q s v : repr s v -> publishing s (done ++ f :: todo ++ rest) -> pending s f -> good (linked f s) ->
  (forall v', repr (unlinked f (linked f s)) v' -> publishing (unlinked f (linked f s)) ((done ++ [marked f]) ++ todo ++ rest) ->
     always (outcome Q) (publish_files dirFD (done ++ [marked f]) todo rest) v') ->
  always (outcome Q) (publish_files dirFD done (f :: todo) rest) v.
Proof.
  intros Hr Hp Hpe Hgl HQ. cbn [publish_files]. apply always_bind. eapply always_mono; [|by apply (publish_spec s v done f (todo ++ rest))].
  intros [[e|] f'] v' Hv; cbn [fst snd] in *.
  - destruct Hv as (s' & Hr' & Hg' & Hn' & Hc' & Hs'). by eapply rollback_outcome.
  - destruct Hv as [-> Hr']. apply HQ; [done|]. rewrite <- app_assoc. by apply (publishing_next s v).
Qed.

Lemma sync_spec files s v Q : repr s v -> publishing s files -> good (mkSt (so s) [so s] (sφ s) (sψ s) (sg s) (sn s)) ->
  (forall v', v_hist v' = [v_dir v'] -> repr (mkSt (so s) [so s] (sφ s) (sψ s) (sg s) (sn s)) v' -> Q files v') ->
  always (outcome Q) (sync_dir dirFD files) v.
Proof.
  intros Hr Hp Hg HQ. eapply always_call; [exact Hr|]. clear v Hr. intros v r v2 Hr Hbe. destruct r as [[]|e]; cbn in Hbe; [|by eapply pub_fault].
  subst v2. pose proof (rep_sync _ _ _ _ _ _ _ _ Hr) as Hr'. split; [by eapply (repr_safe (mkSt _ _ _ _ _ _))|]. by apply HQ.
Qed.

(** ** The whole transaction *)

Lemma base_publishing s v files : repr s v -> base s files [] -> Forall (written s) files -> publishing s files /\ Forall (pending s) files.
Proof.
  intros Hr Hb Hw. pose proof (base_covered _ _ _ _ (sn s) Hr Hb) as Hc. rewrite app_nil_r in Hc. pose proof (b_named _ _ _ Hb) as Hn. rewrite app_nil_r in Hn.
  split; [constructor; [done|apply Hb|by eapply base_good|exact Hc|done]|].
  pose proof (b_done _ _ _ Hb) as Hd. pose proof (b_linked _ _ _ Hb) as Hl. rewrite Forall_forall in *. intros f Hf. destruct (Hd f Hf) as (? & ? & _).
  split_and!; [done|done|by apply Hl].
Qed.

Lemma pending_next s f g : pending s g -> final g <> final f /\ temp g <> final f /\ temp g <> temp f -> pending (unlinked f (linked f s)) g.
Proof. intros (H1 & H2 & H3) (_ & N1 & N2). split_and!; [done|done|]. cbn. by rewrite lookup_delete_ne, lookup_insert_ne by congruence. Qed.

(** The configuration is nowhere yet. *)
Definition hidden (s : st) : Prop := forall o, o ∈ sS s -> o !! fc = None.
Lemma hidden_next s f : hidden s -> so s ∈ sS s -> final f <> fc -> hidden (linked f s) /\ hidden (unlinked f (linked f s)).
Proof.
  intros H Hin Hne. assert (hidden (linked f s)) as Hl.
  { intros o [->|Ho]%elem_of_cons; [rewrite lookup_insert_ne by done; by apply H|by apply H]. }
  split; [done|]. intros o [->|Ho]%elem_of_cons; [|by apply Hl]. apply lookup_delete_None. right. apply Hl. by left.
Qed.

Lemma publish_two a b c s v : repr s v -> publishing s [a; b; c] -> Forall (pending s) [a; b; c] -> hidden s ->
  always (outcome (fun files v' => exists s', files = [marked a; marked b; c] /\ repr s' v' /\ publishing s' files /\ hidden s' /\ pending s' c /\ sφ s' = sφ s /\
    so s' = delete (temp b) (<[final b := fkey b]> (delete (temp a) (<[final a := fkey a]> (so s))))))
    (publish_files dirFD [] [a; b] [c]) v.
Proof.
  intros Hr Hp Hpe Hh. rewrite !Forall_cons in Hpe. destruct Hpe as (Pa & Pb & Pc & _).
  destruct (named_three _ (p_named _ _ Hp)) as (? & ? & ? & [= <- <- <-] & Ea & Eb & Ec & _ & _ & _ & Hnd).
  destruct (names_apart [] a [b; c] (p_named _ _ Hp)) as [_ Ha]. cbn [app] in Ha. rewrite !Forall_cons in Ha. destruct Ha as (Hab & Hac & _).
  rewrite !NoDup_cons, !not_elem_of_cons in Hnd. destruct Hnd as (_ & _ & _ & (Npu & Npf & _) & (Nuf & _) & _).
  destruct (hidden_next s a Hh (r_in _ _ _ _ _ _ _ _ Hr)) as [H1 H2]; [congruence|].
  apply (publish_files_step [] a [b] [c] _ s); try done; [by apply good_early|]. clear v Hr. cbn [app]. intros v Hr Hp1.
  destruct (names_apart [marked a] b [c] (p_named _ _ Hp1)) as [_ Hb]. cbn [app] in Hb. rewrite !Forall_cons in Hb. destruct Hb as (_ & Hbc & _).
  destruct (hidden_next _ b H2 (r_in _ _ _ _ _ _ _ _ Hr)) as [H3 H4]; [congruence|].
  apply (publish_files_step [marked a] b [] [c] _ (unlinked a (linked a s))); try done; [by apply pending_next|by apply good_early|]. cbn [app].
  intros v' Hr' Hp2. cbn [publish_files outcome]. eexists. split; [done|]. split; [exact Hr'|]. split; [exact Hp2|]. split; [done|].
  split; [by do 2 (apply pending_next; [|done])|]. done.
Qed.

(** The transaction is over: every state the disk may have holds the three
    files, and none of ours has another name. *)
Definition settled (v : view) : Prop :=
  (forall d, crash v d -> Forall (installed v d) targets) /\ (forall n k, v_dir v !! n = Some k -> k ∈ v_mine v -> n ∈ [fp; fu; fc]) /\ v_fails v = 0%nat.

Lemma settled_repr s v : repr s v -> v_hist v = [v_dir v] -> sn s = 0%nat -> Forall (inst (sφ s) (so s)) targets ->
  (forall x k, so s !! x = Some k -> x ∈ [fp; fu; fc]) -> settled v.
Proof.
  intros Hr Hh Hn Hi Hx. split_and!.
  - intros d Hd. eapply Forall_impl; [exact Hi|]. intros t Ht. destruct (inst_proj _ _ _ _ _ Hr (r_now _ _ _ _ _ _ _ _ Hr) Ht) as (k & f & Hk & Hrest).
    exists k, f. split; [|exact Hrest]. destruct (Hd t.1) as (d' & Hd' & E). rewrite Hh in Hd'. apply list_elem_of_singleton in Hd' as ->. by rewrite E.
  - intros n k Hn' Hk. rewrite (r_mine _ _ _ _ _ _ _ _ Hr) in Hk. apply (Hx n k). by apply (r_now _ _ _ _ _ _ _ _ Hr).
  - by rewrite (r_fails _ _ _ _ _ _ _ _ Hr).
Qed.

Lemma inst_insert φ o t x k : t.1 <> x -> inst φ o t -> inst φ (<[x := k]> o) t.
Proof. intros Hne (k' & f & Hk & Hf & Hc). exists k', f. by rewrite lookup_insert_ne. Qed.

(** The configuration can be published once the other two are on disk. *)
Lemma good_config s c : final c = fc -> data c = dc -> fp <> fc -> fu <> fc -> written s c -> sS s = [so s] -> hidden s ->
  inst (sφ s) (so s) (fp, dp) -> inst (sφ s) (so s) (fu, du) -> good (linked c s) /\ Forall (inst (sφ s) (so (linked c s))) targets.
Proof.
  intros Ec Ed Npf Nuf (fl & Hfl & Hc) HS Hh Ip Iu. assert (so s !! fc = None) as Hno by (apply Hh; rewrite HS; by left).
  assert (Forall (inst (sφ s) (so (linked c s))) targets) as Hall.
  { repeat constructor; cbn; rewrite Ec; [by apply inst_insert|by apply inst_insert|]. exists (fkey c), fl. cbn. rewrite lookup_insert_eq. by rewrite <- Ed. }
  split; [|exact Hall]. split; cbn; rewrite HS.
  - intros _ o [->|Ho%list_elem_of_singleton]%elem_of_cons Hsome; [done|]. subst o. rewrite Hno in Hsome. by destruct Hsome.
  - intros _ _ _ _ o [->|Ho%list_elem_of_singleton]%elem_of_cons.
    + unfold targets in Hall. rewrite !Forall_cons in Hall. tauto.
    + subst o. split; [done|]. split; [done|]. rewrite Hno. by intros [].
Qed.

Lemma finish a b c s v : repr s v -> publishing s [a; b; c] -> pending s c -> sS s = [so s] -> hidden s ->
  inst (sφ s) (so s) (fp, dp) -> inst (sφ s) (so s) (fu, du) -> so s !! temp a = None -> so s !! temp b = None ->
  always (outcome (fun _ => settled)) (let?! files := publish_files dirFD [a; b] [c] [] in let?! _ := sync_dir dirFD files in Ret (Ok tt)) v.
Proof.
  intros Hr Hp Hpe HS Hh Ip Iu Ta Tb.
  destruct (named_three _ (p_named _ _ Hp)) as (? & ? & ? & [= <- <- <-] & Ea & Eb & Ec & _ & _ & Ed & Hnd).
  rewrite !NoDup_cons, !not_elem_of_cons in Hnd. destruct Hnd as ((_ & Nac & Nap & Nau & Naf & _) & (Nbc & Nbp & Nbu & Nbf & _) & (Ncp & Ncu & Ncf & _) & (_ & Npf & _) & (Nuf & _) & _).
  assert (written s c) as Hw by (pose proof (p_written _ _ Hp) as Hw; rewrite !Forall_cons in Hw; tauto).
  destruct (good_config s c Ec Ed Npf Nuf Hw HS Hh Ip Iu) as [Hg Hall].
  eapply (let_ok _ _ (fun files v' => repr (unlinked c (linked c s)) v' /\ publishing (unlinked c (linked c s)) files)).
  { apply (publish_files_step [a; b] c [] [] _ s); done. }
  clear v Hr. intros files v [Hr Hpub].
  assert (Forall (inst (sφ s) (so (unlinked c (linked c s)))) targets) as Hfin.
  { eapply Forall_impl; [apply Forall_and; split; [exact Hall|]|].
    - instantiate (1 := fun t => t.1 <> temp c). repeat constructor; cbn; congruence.
    - intros t [Ht Hne]. by apply inst_delete. }
  eapply let_ok; [apply (sync_spec files _ v (fun _ => settled) Hr Hpub)|].
  - unfold targets in Hfin. rewrite !Forall_cons in Hfin. destruct Hfin as (I1 & I2 & I3 & _). split; cbn.
    + intros _ o ->%list_elem_of_singleton _. by repeat constructor.
    + intros _ _ _ _ o ->%list_elem_of_singleton. done.
  - intros v' Hh' Hr'. eapply settled_repr; [exact Hr'|exact Hh'|exact (p_fails _ _ Hp)|exact Hfin|]. cbn. intros x k Hx. apply lookup_delete_Some in Hx as [Hxc Hx].
    destruct (decide (x = fc)) as [->|Hxf]; [rewrite !elem_of_cons; tauto|]. rewrite Ec, lookup_insert_ne in Hx by done.
    pose proof (proj2 (p_covered _ _ Hp) x k Hx) as Hin. unfold all_names in Hin. cbn [map app] in Hin. rewrite !elem_of_cons, elem_of_nil, Ea, Eb, Ec in Hin.
    rewrite !elem_of_cons. destruct Hin as [->|[->|[->|[?|[?|[?|[]]]]]]]; try congruence; tauto.
  - intros u v' Hv'. exact Hv'.
Qed.

(** From the temporary files to the end. *)
Lemma publish_all s v files : repr s v -> base s files [] -> Forall (written s) files ->
  always (outcome (fun _ => settled))
    (let?! files := publish_files dirFD [] (take 2 files) (drop 2 files) in
     let?! files := sync_dir dirFD files in
     let?! files := publish_files dirFD (take 2 files) (drop 2 files) [] in
     let?! _ := sync_dir dirFD files in Ret (Ok tt)) v.
Proof.
  intros Hr Hb Hw. destruct (base_publishing _ _ _ Hr Hb Hw) as [Hp Hpe].
  destruct (named_three _ (p_named _ _ Hp)) as (a & b & c & -> & Ea & Eb & Ec & Da & Db & _ & Hnd). cbn [take drop].
  rewrite !NoDup_cons, !not_elem_of_cons in Hnd. destruct Hnd as ((Nab & Nac & Nap & Nau & Naf & _) & (Nbc & Nbp & Nbu & Nbf & _) & (Ncp & Ncu & Ncf & _) & (Npu & Npf & _) & (Nuf & _) & _).
  eapply let_ok; [apply (publish_two a b c s v Hr Hp Hpe); intros o Ho; by apply (b_early _ _ _ Hb)|].
  clear v Hr. intros files v (s' & -> & Hr & Hp' & Hh' & Hc' & Eφ & Eo). cbn [take drop].
  assert (forall x, so s' !! x = if decide (x = temp b) then None else if decide (x = fu) then Some (fkey b) else
    if decide (x = temp a) then None else if decide (x = fp) then Some (fkey a) else so s !! x) as Hlook.
  { intros x. rewrite Eo, !lookup_delete, !lookup_insert, !lookup_delete, !lookup_insert, Ea, Eb. repeat case_decide; congruence. }
  rewrite !Forall_cons in Hw. destruct Hw as ((fla & Hfa & Hca) & (flb & Hfb & Hcb) & Hwc & _).
  assert (so s' !! fc = None) as Hfc by (apply Hh', (r_in _ _ _ _ _ _ _ _ Hr)).
  set (s2 := mkSt (so s') [so s'] (sφ s') (sψ s') (sg s') (sn s')).
  assert (hidden s2) as Hh2 by (intros o ->%list_elem_of_singleton; exact Hfc).
  eapply let_ok; [apply (sync_spec _ s' v (fun files v' => files = [marked a; marked b; c] /\ repr s2 v') Hr Hp'); [by apply good_early|by intros v' _ Hr']|].
  clear v Hr. intros files v [-> Hr]. cbn [take drop].
  apply (finish (marked a) (marked b) c s2 v Hr); [|exact Hc'|done|exact Hh2|..]; cbn.
  - destruct Hp' as [Hn Hf Hg Hcov Hwr]. constructor; try done. by apply good_early.
  - exists (fkey a), fla. cbn. rewrite Hlook, Eφ, <- Da. repeat case_decide; congruence || done.
  - exists (fkey b), flb. cbn. rewrite Hlook, Eφ, <- Db. repeat case_decide; congruence || done.
  - rewrite Hlook. repeat case_decide; congruence.
  - rewrite Hlook. repeat case_decide; congruence.
Qed.

(** The destinations are free, or the program stops. *)
Lemma check_spec s files : forall existing v, repr s v -> good s -> so s = ∅ -> sn s = 0%nat ->
  always (fun r v' => match r with
    | Ok l => repr s v' /\ v_dir v ⊆ v_dir v' /\ exists more, l = existing ++ more /\ Forall (fun x => x ∈ map final files /\ is_Some (v_dir v' !! x)) more
    | Err _ => failed v'
    end) (check_existing dirFD files existing) v.
Proof.
  induction files as [|f files IH]; intros existing v Hr Hg Ho Hn; cbn [check_existing].
  { split; [exact Hr|]. split; [done|]. exists []. by rewrite app_nil_r. }
  intros v1 r v2 Hi Hbe. pose proof (rep_interferes _ _ _ _ _ _ _ _ _ Hr Hi) as Hr1. pose proof (interferes_keeps _ _ Hi) as Hsub1. clear Hi.
  assert (forall e : commit_error, always (fun (r : result commit_error (list string)) v' => match r with Ok l => repr s v' /\ v_dir v ⊆ v_dir v' /\ exists more, l = existing ++ more /\
      Forall (fun x => x ∈ map final (f :: files) /\ is_Some (v_dir v' !! x)) more | Err _ => failed v' end) (Ret (Err e)) (fault v1) /\ safe (fault v1)) as Hfault.
  { intros e. pose proof (repr_fault _ _ Hr1) as Hf. pose proof (good_fault _ Hg) as Hgf. split; [|exact (repr_safe _ _ Hf Hgf)].
    exists (faulted s). split; [split; [exact Hf|by split]|cbn; lia]. }
  assert (forall l w more, repr s w /\ v_dir v1 ⊆ v_dir w /\ (exists more', l = more ++ more' /\ Forall (fun x => x ∈ map final files /\ is_Some (v_dir w !! x)) more') ->
    more = existing \/ (more = existing ++ [final f] /\ is_Some (v_dir v1 !! final f)) ->
    repr s w /\ v_dir v ⊆ v_dir w /\ exists more, l = existing ++ more /\ Forall (fun x => x ∈ map final (f :: files) /\ is_Some (v_dir w !! x)) more) as Hnext.
  { intros l w more (Hw & Hs & more' & -> & Hf) Hmore. split; [done|]. split; [by transitivity (v_dir v1)|].
    assert (Forall (fun x => x ∈ map final (f :: files) /\ is_Some (v_dir w !! x)) more') as Hf'.
    { eapply Forall_impl; [exact Hf|]. intros x [? ?]. split; [by right|done]. }
    destruct Hmore as [->|[-> [k Hk]]]; [by exists more'|]. exists (final f :: more'). split; [by rewrite <- app_assoc|]. constructor; [|done].
    split; [by left|]. exists k. by eapply lookup_weaken. }
  destruct r as [i|e]; cbn in Hbe.
  - destruct Hbe as [Hd ->]. split; [by eapply repr_safe|]. eapply always_mono; [|by apply IH]. intros [l|e] w Hw; [|done].
    eapply Hnext; [exact Hw|]. right. split; [done|by eexists].
  - destruct e; try (subst v2; split; [apply (Hfault EParents)|apply Hfault]). destruct Hbe as [Hd ->]. split; [by eapply repr_safe|].
    eapply always_mono; [|by apply IH]. intros [l|e] w Hw; [|done]. eapply Hnext; [exact Hw|by left].
Qed.

(** The whole of it, in an open directory. *)
Definition refused (files : list commitFile) (euid : Z) (dirID : commitFileIdentity) (e : commit_error) (v : view) : Prop :=
  match e with
  | EOwner => euid <> Uid dirID
  | EWritable => Z.land (Mode dirID) 18 <> 0
  | EExisting l => l <> [] /\ Forall (fun x => x ∈ map final files /\ is_Some (v_dir v !! x)) l
  | _ => False
  end.
Definition ended (files : list commitFile) (euid : Z) (dirID : commitFileIdentity) (r : result commit_error unit) (v : view) : Prop :=
  match r with
  | Ok _ => settled v
  | Err e => exists s, undone s v /\ (sn s = 0%nat -> refused files euid dirID e v)
  end.

Lemma commit_in_spec euid dirID group files v s : repr s v -> base s [] files -> so s = ∅ -> sψ s !! dirFD = Some (key_of dirID) -> adopt = group (Gid dirID) ->
  always (ended files euid dirID) (commit_in dirFD euid group dirID files) v.
Proof.
  intros Hr Hb Ho Hfd Ha. pose proof (base_good _ _ _ Hb) as Hg. pose proof (b_fails _ _ _ Hb) as Hn. unfold commit_in.
  assert (forall w (e : commit_error), repr s w -> refused files euid dirID e w -> ended files euid dirID (Err e) w) as Hrefuse.
  { intros w e Hw He. exists s. split; [by split|done]. }
  assert (forall w (e : commit_error), failed w -> ended files euid dirID (Err e) w) as Hfailed.
  { intros w e (s' & Hu & Hs'). exists s'. split; [done|lia]. }
  destruct (Z.eqb_spec euid (Uid dirID)) as [Eu|Eu]; cbn [negb]; [|by apply Hrefuse].
  destruct (Z.eqb_spec (Z.land (Mode dirID) 18) 0) as [Em|Em]; cbn [negb]; [|by apply Hrefuse].
  eapply always_call; [exact Hr|]. clear v Hr. intros v r v2 Hr Hbe. destruct r as [i|e]; cbn in Hbe; cycle 1.
  { subst v2. pose proof (repr_fault _ _ Hr) as Hf. pose proof (good_fault _ Hg) as Hgf. split; [exact (repr_safe _ _ Hf Hgf)|].
    apply Hfailed. exists (faulted s). split; [split; [exact Hf|by split]|cbn; lia]. }
  destruct Hbe as [Hi ->]. split; [by eapply repr_safe|]. assert (same_file i dirID = true) as ->.
  { apply same_file_key. eapply lookup_weaken in Hfd; [|apply (r_fds _ _ _ _ _ _ _ _ Hr)]. congruence. }
  cbn [negb]. apply always_bind. eapply always_mono; [|by apply (check_spec s files [])]. clear Hr Hi. intros [l|e] w Hv; [|by apply Hfailed].
  destruct Hv as (Hr & _ & more & -> & Hmore). clear v. rename w into v. cbn [app]. case_bool_decide as Hm; [by apply Hrefuse|].
  assert (always (outcome (fun _ => settled)) (let?! files := create_files dirFD (group (Gid dirID)) [] files in let?! files := write_files dirFD [] files in
    let?! files := publish_files dirFD [] (take 2 files) (drop 2 files) in let?! files := sync_dir dirFD files in
    let?! files := publish_files dirFD (take 2 files) (drop 2 files) [] in let?! _ := sync_dir dirFD files in Ret (Ok tt)) v) as Hall.
  { rewrite <- Ha. eapply let_ok; [by apply (temp_spec files [] s)|]. clear v s Hr Hb Ho Hfd Hg Hn Hrefuse Hmore Hm more.
    intros fs v (s & Hr & Hb & Hh & Hops). eapply let_ok; [apply (write_files_spec fs [] s v Hr); try done|]. clear v s Hr Hb Hh Hops fs.
    intros fs v (s & Hr & Hb & Hw). by apply (publish_all s). }
  eapply always_mono; [|exact Hall]. intros [[]|e] w Hw; [done|by apply Hfailed].
Qed.
End Rollback.
End Safety.

(** ** The program *)

Section Program.
Variables (p : process) (args : initPaths) (a : initArtifacts) (v0 : view).
Let files := commit_files p args a.
Let group := ServiceGroup (egid p) (Gid (v_self v0)).

(** Whatever happens: see [safe]. *)
Definition init_safe (v : view) : Prop :=
  safe (Base (PepperPath args)) (Base (UsersPath args)) (Base (ConfigPath args)) (a_Pepper a) (a_Users a) (a_Config a) group v0 v.
(** The end of a run that reports success: see [settled]. *)
Definition init_settled (v : view) : Prop :=
  settled (Base (PepperPath args)) (Base (UsersPath args)) (Base (ConfigPath args)) (a_Pepper a) (a_Users a) (a_Config a) group v.
(** The reasons to refuse when no operation has failed. *)
Definition init_refused (e : commit_error) (v : view) : Prop :=
  match e with
  | EParents => Dir (ConfigPath args) <> Dir (UsersPath args) \/ Dir (ConfigPath args) <> Dir (PepperPath args)
  | _ => refused files (euid p) (v_self v0) e v
  end.
Definition init_ended (r : result commit_error unit) (v : view) : Prop :=
  match r with
  | Ok _ => init_settled v
  | Err e => ((v_fails v <= 1)%nat -> clean v) /\ (v_fails v = 0%nat -> init_refused e v)
  end.

Hypothesis Hnames : NoDup (map temp files ++ map final files).
Hypothesis Hmine : v_mine v0 = ∅.
Hypothesis Hgone : v_gone v0 = ∅.
Hypothesis Hfails : v_fails v0 = 0%nat.

Let s0 : st := mkSt ∅ [∅] ∅ ∅ ∅ 0.

Lemma init_repr : repr v0 s0 v0.
Proof.
  assert (forall d : gmap string key, proj (dom (∅ : gmap key file)) d ∅) as Hp by (intros d n k Hk; rewrite dom_empty_L in Hk; by apply elem_of_empty in Hk).
  constructor; cbn; rewrite ?dom_empty_L; try done.
  - apply map_empty_subseteq.
  - apply map_empty_subseteq.
  - intros d _. exists ∅. split; [by left|]. specialize (Hp d). by rewrite dom_empty_L in Hp.
  - by left.
  - by intros o x k ->%list_elem_of_singleton.
Qed.

Lemma init_base s : so s = ∅ -> sS s = [∅] -> sn s = 0%nat ->
  base (Base (PepperPath args)) (Base (UsersPath args)) (Base (ConfigPath args)) (a_Pepper a) (a_Users a) (a_Config a) s [] files.
Proof.
  intros Ho HS Hn. constructor; try done.
  - intros o Hin. rewrite HS in Hin. apply list_elem_of_singleton in Hin as ->. done.
  - intros x k. by rewrite Ho.
  - constructor.
  - by repeat constructor.
Qed.

(** What an ended run keeps while the directory is closed. *)
Lemma ended_close fd name r v :
  ended (Base (PepperPath args)) (Base (UsersPath args)) (Base (ConfigPath args)) (a_Pepper a) (a_Users a) (a_Config a) group v0 files (euid p) (v_self v0) (Err r) v ->
  always init_safe init_ended (let! _ := call (closeFile fd name) in Ret (Err r)) v.
Proof.
  intros (s & (Hr & Hg & Hu) & Hre) v1 x v2 Hi Hb. pose proof (rep_interferes _ _ _ _ _ _ _ _ _ Hr Hi) as Hr1.
  assert (v_dir v ⊆ v_dir v1 /\ v_fails v1 = v_fails v) as [Hsub Hf] by (split; [by apply interferes_keeps|destruct (interferes_own _ _ Hi) as (_ & _ & _ & _ & -> & _); done]).
  assert (forall ψ n v', rep v0 (so s) (sS s) (sφ s) ψ (sg s) n v' -> v_dir v1 ⊆ v_dir v' -> n = sn s \/ n = S (sn s) -> init_safe v' /\ init_ended (Err r) v') as Hend.
  { intros ψ n v' Hr' Hsub' Hn. set (s' := mkSt (so s) (sS s) (sφ s) ψ (sg s) n).
    assert (good (Base (PepperPath args)) (Base (UsersPath args)) (Base (ConfigPath args)) (a_Pepper a) (a_Users a) (a_Config a) group s') as Hg'.
    { destruct Hg as [G1 G2]. split; [cbn; intros; apply G1; [lia|done|done]|done]. }
    split; [eapply (repr_safe _ _ _ _ _ _ _ _ s'); [exact Hr'|exact Hg']|]. cbn [init_ended]. rewrite (r_fails _ _ _ _ _ _ _ _ Hr'). split.
    - intros Hle. eapply (clean_repr _ s'); [exact Hr'|]. apply Hu. lia.
    - intros H0. assert (sn s = 0%nat) as Hs by lia. specialize (Hre Hs). destruct r; try done. destruct Hre as [Hne Hall]. split; [done|].
      eapply Forall_impl; [exact Hall|]. intros y [? [k Hk]]. split; [done|]. exists k. eapply lookup_weaken; [exact Hk|]. by transitivity (v_dir v1). }
  destruct x as [[]|e]; cbn in Hb.
  - subst v2. eapply Hend; [by apply rep_close|done|by left].
  - destruct Hb as [->| ->]; eapply Hend; [by apply rep_fault|done|by right|by apply rep_fault, rep_close|done|by right].
Qed.

Lemma init_spec : always init_safe init_ended (commitInitArtifacts p args a) v0.
Proof.
  pose proof init_repr as Hr. unfold commitInitArtifacts.
  destruct (negb (String.eqb (Dir (ConfigPath args)) (Dir (UsersPath args))) || negb (String.eqb (Dir (ConfigPath args)) (Dir (PepperPath args)))) eqn:Ed.
  { split; [intros _; by eapply (clean_repr _ s0)|]. intros _. cbn. apply orb_true_iff in Ed. rewrite !negb_true_iff, !String.eqb_neq in Ed. exact Ed. }
  intros v1 r v2 Hi Hb. pose proof (rep_interferes _ _ _ _ _ _ _ _ _ Hr Hi) as Hr1.
  assert (v_self v1 = v_self v0) as Hself by (destruct (interferes_own _ _ Hi) as (_ & _ & _ & _ & _ & -> & _); done).
  assert (forall s, so s = ∅ -> sS s = [∅] -> sn s = 0%nat -> good (Base (PepperPath args)) (Base (UsersPath args)) (Base (ConfigPath args)) (a_Pepper a) (a_Users a) (a_Config a) group s) as Hg
    by (intros s ? ? ?; eapply base_good, init_base; done).
  destruct r as [[fd id]|e]; cbn in Hb.
  - destruct Hb as (Hfd & -> & ->). rewrite Hself. pose proof (rep_open _ _ _ _ _ _ _ _ fd (key_of (v_self v0)) Hr1 Hfd) as Hr2. cbn [fst snd].
    set (s1 := mkSt ∅ [∅] ∅ (<[fd := key_of (v_self v0)]> ∅) ∅ 0).
    split; [eapply (repr_safe _ _ _ _ _ _ _ _ s1); [exact Hr2|by apply Hg]|].
    change (always init_safe init_ended (let! r := commit_in fd (euid p) (ServiceGroup (egid p)) (v_self v0) files in
      match r with Err e => let! _ := call (closeFile fd (Dir (ConfigPath args))) in Ret (Err e) | Ok _ => Ret (Ok tt) end)
      (set_fds (<[fd := key_of (v_self v0)]> (v_fds v1)) v1)).
    apply always_bind. eapply always_mono;
      [|apply (commit_in_spec _ _ _ _ _ _ group v0 fd (euid p) (v_self v0) (ServiceGroup (egid p)) files _ s1); [exact Hr2|by apply init_base|done|cbn; by rewrite lookup_insert_eq|done]].
    intros [[]|err] v' Hv; [exact Hv|]. by apply ended_close.
  - subst v2. pose proof (rep_fault _ _ _ _ _ _ _ _ Hr1) as Hf.
    assert (good (Base (PepperPath args)) (Base (UsersPath args)) (Base (ConfigPath args)) (a_Pepper a) (a_Users a) (a_Config a) group (faulted s0)) as Hg1.
    { apply good_early. cbn. by intros o ->%list_elem_of_singleton. }
    split; [eapply (repr_safe _ _ _ _ _ _ _ _ (faulted s0)); [exact Hf|exact Hg1]|]. pose proof (r_fails _ _ _ _ _ _ _ _ Hf) as Hn.
    split; [|intros E; rewrite Hn in E; discriminate E]. intros _. eapply (clean_repr _ (faulted s0)); [exact Hf|done].
Qed.

(** What holds of every run. *)
Lemma init_runs q v : rtc step (commitInitArtifacts p args a, v0) (q, v) -> init_safe v /\ forall r, q = Ret r -> init_ended r v.
Proof.
  intros Hrun. assert (init_safe v0) as H0 by (eapply repr_safe; [exact init_repr|eapply base_good, init_base; done]).
  destruct (always_adequate _ _ _ _ _ _ _ _ init_spec H0 Hrun) as [Hs Hq]. split; [exact Hs|]. intros r ->. exact Hq.
Qed.

(** C8: All of the files or none.  Take a run of [init]'s transaction whose
    three destinations and three temporary names are distinct, however its
    operations turn out, whichever fail, and whatever entries other processes
    add meanwhile.  No entry that was in the directory is lost or replaced.
    At no moment of the run (if at most one operation failed), and in no state
    a crash at that moment may leave (while no destination has been rolled
    back), is our configuration at its name unless the pepper and the users
    file are at theirs, all of them complete and synced, in mode 0640 and the
    service group or in 0600 at most.  When it reports success the three are
    there, no crash can undo it, and no temporary name is left.  When it
    reports an error no file that it knows to have created is left, if no more
    than the one operation failed; and if none did, the reason is the
    directory (its owner, its mode), a destination that exists, or
    destinations in different directories. *)
Theorem init_atomic q v (Hrun : rtc step (commitInitArtifacts p args a, v0) (q, v)) :
  init_safe v /\ forall r, q = Ret r -> init_ended r v.
Proof. exact (init_runs q v Hrun). Qed.
End Program.

Module CommitDemo.
Definition proc : process := mkProcess 0 0 7.
Definition args : initPaths := mkPaths "/etc/mellomting/config.yaml" "/etc/mellomting/users.yaml" "/etc/mellomting/auth.pepper".
Definition artifacts : initArtifacts := mkArtifacts "version: 1" "users: []" "pepper".
Definition dir0 : gmap string key := {[ "README" := (1, 5) ]}.
Definition start : view := mkView dir0 ∅ ∅ [dir0] ∅ ∅ ∅ 0 (mkId 1 2 493 0 123).
Definition outcome (plan : list bool) := run plan (commitInitArtifacts proc args artifacts) start.
Definition names (plan : list bool) : list string := map fst (map_to_list (v_dir (outcome plan).2)).
Definition modes (plan : list bool) : list (string * option (string * bool * Z * Z)) :=
  let v := (outcome plan).2 in
  map (fun x => (x.1, match v_files v !! x.2 with Some f => Some (f_data f, f_synced f, f_mode f, f_gid f) | None => None end)) (map_to_list (v_dir v)).
(** The run whose [k]th operation fails. *)
Definition fails (k : nat) : list bool := replicate k false ++ [true].
End CommitDemo.

(** A run without failures publishes the three files; whichever of its 37
    operations fails, nothing is left. *)
Example commit_ex :
  (is_ok (CommitDemo.outcome []).1, CommitDemo.modes [],
   forallb (fun k => negb (is_ok (CommitDemo.outcome (CommitDemo.fails k)).1) && bool_decide (CommitDemo.names (CommitDemo.fails k) = ["README"])) (seq 0 37),
   is_ok (CommitDemo.outcome (CommitDemo.fails 37)).1)
  = (true, [("config.yaml", Some ("version: 1", true, 416, 123)); ("users.yaml", Some ("users: []", true, 416, 123));
            ("auth.pepper", Some ("pepper", true, 416, 123)); ("README", None)], true, true).
Proof. vm_compute. reflexivity. Qed.

Lemma init_atomic_witness :
  init_settled CommitDemo.proc CommitDemo.args CommitDemo.artifacts CommitDemo.start (CommitDemo.outcome []).2.
Proof.
  assert (Hn : NoDup (map temp (commit_files CommitDemo.proc CommitDemo.args CommitDemo.artifacts) ++
      map final (commit_files CommitDemo.proc CommitDemo.args CommitDemo.artifacts)))
    by (apply (bool_decide_unpack _); vm_compute; exact I).
  assert (Hok : (CommitDemo.outcome []).1 = Ok tt) by (vm_compute; reflexivity).
  destruct (init_atomic CommitDemo.proc CommitDemo.args CommitDemo.artifacts CommitDemo.start Hn eq_refl eq_refl eq_refl _ _
    (run_steps (commitInitArtifacts CommitDemo.proc CommitDemo.args CommitDemo.artifacts) [] CommitDemo.start)) as [_ H].
  specialize (H _ eq_refl). unfold CommitDemo.outcome in *. rewrite Hok in H. exact H.
Defined.

(** After a success the directory's descriptor is still open: the flag that
    says it has been closed is set, and nothing closes it. *)
Theorem init_leaves_directory_open :
  (CommitDemo.outcome []).1 = Ok tt /\ v_fds (CommitDemo.outcome []).2 !! 3 = Some (key_of (v_self CommitDemo.start)) /\
  forallb (fun k => bool_decide (v_fds (CommitDemo.outcome (CommitDemo.fails k)).2 !! 3 = None)) (seq 0 36) = true.
Proof. split_and!; vm_compute; reflexivity. Qed.
