(* ===== verification/Syscalls.v ===== *)
(** * The Linux system calls behind [commitOps]
    ([cmd/mellomting/init_commit_linux.go])

    The production operations of the init transaction as programs over the
    system calls, and that each of them does what [Fs.v] says of it: however
    its calls fail, whatever the kernel writes at a time, and whatever entries
    other processes add between its calls. *)

From S2P Require Import Prelude GoStrings Net Json Paths Prog Fs Commit.
#[local] Open Scope Z_scope.

(** ** System calls *)

Inductive sysop :=
| Openat (path : string)                            (* O_DIRECTORY|O_NOFOLLOW|O_CLOEXEC *)
| OpenatCreate (fd : Z) (name : string) (mode : Z)  (* O_CREAT|O_EXCL|O_WRONLY|O_CLOEXEC *)
| Fstat (fd : Z)
| Fstatat (fd : Z) (name : string)                  (* AT_SYMLINK_NOFOLLOW *)
| Fchown (fd gid : Z)
| Fchmod (fd mode : Z)
| Write (fd : Z) (data : string)
| Fsync (dir : bool) (fd : Z)                       (* of the directory, or of a file *)
| Close (fd : Z)
| Linkat (fd : Z) (oldname newname : string)
| Unlinkat (fd : Z) (name : string).

(** An error number, or the interruption by a signal. *)
Inductive sys_error := EINTR | Errno (e : errno).

Definition sys_ans (o : sysop) : Type :=
  match o with
  | Openat _ | OpenatCreate _ _ _ => Z
  | Fstat _ | Fstatat _ _ => commitFileIdentity
  | Write _ _ => nat
  | _ => unit
  end.
Definition sys_answer (o : sysop) : Type := result sys_error (sys_ans o).
Notation sys_prog := (Prog.prog sys_answer).

(** The directory and how often the kernel will still return from a write
    without having written.  A failed call changes nothing, except that a
    closed descriptor is gone whether or not [close] reports an error, as on
    Linux; the failures themselves are counted per operation, not here. *)
Definition kernel : Type := (view * nat)%type.

Definition sys_view (o : sysop) (v : view) : sys_answer o -> view -> Prop :=
  match o return sys_answer o -> view -> Prop with
  | Openat _ => fun r v' => match r with Ok fd => v_fds v !! fd = None /\ v' = set_fds (<[fd := key_of (v_self v)]> (v_fds v)) v | Err _ => v' = v end
  | OpenatCreate dfd name mode => fun r v' =>
      match r with
      | Ok fd => exists k m gid, v_dir v !! name = None /\ v_fds v !! fd = None /\ unused v k /\ k.2 <> 0 /\ Z.land m mode = m /\
          v' = add_mine k (set_fds (<[fd := k]> (v_fds v)) (set_file k (mkFile "" false m gid) (set_dir (<[name := k]> (v_dir v)) v)))
      | Err _ => v' = v
      end
  | Fstat fd => fun r v' =>
      match r with
      | Ok id => v' = v /\ v_fds v !! fd = Some (key_of id) /\ (key_of id = key_of (v_self v) -> id = v_self v) /\
                 forall f, v_files v !! key_of id = Some f -> key_of id ∈ v_mine v -> Gid id = f_gid f
      | Err _ => v' = v
      end
  | Fstatat _ name => fun r v' =>
      match r with
      | Ok id => v_dir v !! name = Some (key_of id) /\ v' = v
      | Err (Errno ENOENT) => v_dir v !! name = None /\ v' = v
      | Err _ => v' = v
      end
  | Fchown fd gid => fun r v' => match r with Ok _ => on_file v v' fd (fun f => mkFile (f_data f) (f_synced f) (f_mode f) gid) | Err _ => v' = v end
  | Fchmod fd mode => fun r v' => match r with Ok _ => on_file v v' fd (fun f => mkFile (f_data f) (f_synced f) mode (f_gid f)) | Err _ => v' = v end
  | Write fd data => fun r v' =>
      match r with
      | Ok n => (n <= String.length data)%nat /\ on_file v v' fd (fun f => mkFile (f_data f +:+ stake n data) false (f_mode f) (f_gid f))
      | Err _ => v' = v
      end
  | Fsync dir fd => fun r v' =>
      match r with
      | Ok _ => if dir then v' = set_hist [v_dir v] v else on_file v v' fd (fun f => mkFile (f_data f) true (f_mode f) (f_gid f))
      | Err _ => v' = v
      end
  | Close fd => fun _ v' => v' = set_fds (delete fd (v_fds v)) v
  | Linkat _ oldname newname => fun r v' =>
      match r with
      | Ok _ => exists k, v_dir v !! oldname = Some k /\ v_dir v !! newname = None /\ v' = set_dir (<[newname := k]> (v_dir v)) v
      | Err _ => v' = v
      end
  | Unlinkat _ name => fun r v' =>
      match r with
      | Ok _ => is_Some (v_dir v !! name) /\ v' = add_gone name (set_dir (delete name (v_dir v)) v)
      | Err (Errno ENOENT) => v_dir v !! name = None /\ v' = add_gone name (set_dir (delete name (v_dir v)) v)
      | Err _ => v' = v
      end
  end.

(** A write that writes nothing costs one of the kernel's idle returns. *)
Definition fruitless (o : sysop) : sys_answer o -> bool :=
  match o return sys_answer o -> bool with
  | Write _ data => fun r => match r with Err EINTR => true | Ok n => (n =? 0)%nat && negb (String.eqb data "") | Err _ => false end
  | _ => fun _ => false
  end.

Definition kernel_does (o : sysop) (s : kernel) (r : sys_answer o) (s' : kernel) : Prop :=
  sys_view o s.1 r s'.1 /\ if fruitless o r then s.2 = S s'.2 else s'.2 = s.2.

(** Other processes, between two calls. *)
Definition sys_interferes (s s' : kernel) : Prop := interferes s.1 s'.1 /\ s'.2 = s.2.

(** ** The production operations *)

Definition fault_of (e : sys_error) : errno := match e with Errno e => e | EINTR => EIO end.

(** The identity of a descriptor that was just opened; the descriptor is
    closed when it cannot be had. *)
Definition identified (fd : Z) : sys_prog (result errno (Z * commitFileIdentity)) :=
  let! r := call (Fstat fd) in
  match r with
  | Ok id => Ret (Ok (fd, id))
  | Err e => let! _ := call (Close fd) in Ret (Err (fault_of e))
  end.

(* src: cmd/mellomting/init_commit_linux.go productionCommitOps.openParent *)
Definition prod_openParent (path : string) : sys_prog (result errno (Z * commitFileIdentity)) :=
  let! r := call (Openat path) in
  match r with Err e => Ret (Err (fault_of e)) | Ok fd => identified fd end.

(* src: cmd/mellomting/init_commit_linux.go productionCommitOps.createInDir *)
Definition prod_createInDir (fd : Z) (name : string) (mode : Z) : sys_prog (result errno (Z * commitFileIdentity)) :=
  let! r := call (OpenatCreate fd name mode) in
  match r with Err e => Ret (Err (fault_of e)) | Ok f => identified f end.

Definition plain {A} (r : result sys_error A) : result errno A := match r with Ok a => Ok a | Err e => Err (fault_of e) end.

(* src: cmd/mellomting/init_commit_linux.go productionCommitOps.fstatParent *)
Definition prod_fstatParent (fd : Z) : sys_prog (result errno commitFileIdentity) := let! r := call (Fstat fd) in Ret (plain r).
(* src: cmd/mellomting/init_commit_linux.go productionCommitOps.lstatInDir *)
Definition prod_lstatInDir (fd : Z) (name : string) : sys_prog (result errno commitFileIdentity) := let! r := call (Fstatat fd name) in Ret (plain r).
(* src: cmd/mellomting/init_commit_linux.go productionCommitOps.fchownFile *)
Definition prod_fchownFile (fd gid : Z) : sys_prog (result errno unit) := let! r := call (Fchown fd gid) in Ret (plain r).
(* src: cmd/mellomting/init_commit_linux.go productionCommitOps.fchmodFile *)
Definition prod_fchmodFile (fd mode : Z) : sys_prog (result errno unit) := let! r := call (Fchmod fd mode) in Ret (plain r).

(** The loop, at most [n] writes of it: an interrupted write is made again,
    a short one goes on with the rest. *)
(* src: cmd/mellomting/init_commit_linux.go productionCommitOps.writeAll *)
Fixpoint prod_writeAll (n : nat) (fd : Z) (data : string) : sys_prog (option (result errno unit)) :=
  if String.eqb data "" then Ret (Some (Ok tt))
  else match n with
  | O => Ret None
  | S n =>
      let! r := call (Write fd data) in
      match r with
      | Err EINTR => prod_writeAll n fd data
      | Err (Errno e) => Ret (Some (Err e))
      | Ok k => prod_writeAll n fd (sdrop k data)
      end
  end.

(* src: cmd/mellomting/init_commit_linux.go productionCommitOps.fsyncFile *)
Definition prod_fsyncFile (fd : Z) : sys_prog (result errno unit) := let! r := call (Fsync false fd) in Ret (plain r).
(* src: cmd/mellomting/init_commit_linux.go productionCommitOps.fstatFile *)
Definition prod_fstatFile (fd : Z) : sys_prog (result errno commitFileIdentity) := let! r := call (Fstat fd) in Ret (plain r).
(* src: cmd/mellomting/init_commit_linux.go productionCommitOps.closeFile *)
Definition prod_closeFile (fd : Z) : sys_prog (result errno unit) := let! r := call (Close fd) in Ret (plain r).
(** That a name appeared meanwhile is said in the error's text. *)
(* src: cmd/mellomting/init_commit_linux.go productionCommitOps.linkInDir *)
Definition prod_linkInDir (fd : Z) (oldname newname : string) : sys_prog (result errno unit) := let! r := call (Linkat fd oldname newname) in Ret (plain r).
(** A name that is gone already is no error. *)
(* src: cmd/mellomting/init_commit_linux.go productionCommitOps.unlinkInDir *)
Definition prod_unlinkInDir (fd : Z) (name : string) : sys_prog (result errno unit) :=
  let! r := call (Unlinkat fd name) in
  Ret (match r with Ok _ | Err (Errno ENOENT) => Ok tt | Err e => Err (fault_of e) end).
(* src: cmd/mellomting/init_commit_linux.go productionCommitOps.fsyncDir *)
Definition prod_fsyncDir (fd : Z) : sys_prog (result errno unit) := let! r := call (Fsync true fd) in Ret (plain r).

Definition finished {A} (p : sys_prog A) : sys_prog (option A) := let! a := p in Ret (Some a).

(** The interface's operations; [n] bounds the writes of one [writeAll]. *)
(* src: cmd/mellomting/init_commit_linux.go 12-14 productionCommitOps *)
Definition production (n : nat) (o : op) : sys_prog (option (answer o)) :=
  match o return sys_prog (option (answer o)) with
  | openParent path => finished (prod_openParent path)
  | fstatParent fd => finished (prod_fstatParent fd)
  | lstatInDir fd name => finished (prod_lstatInDir fd name)
  | createInDir fd name mode => finished (prod_createInDir fd name mode)
  | fchownFile fd _ gid => finished (prod_fchownFile fd gid)
  | fchmodFile fd _ mode => finished (prod_fchmodFile fd mode)
  | writeAll fd _ data => prod_writeAll n fd data
  | fsyncFile fd _ => finished (prod_fsyncFile fd)
  | fstatFile fd _ => finished (prod_fstatFile fd)
  | closeFile fd _ => finished (prod_closeFile fd)
  | linkInDir fd oldname newname => finished (prod_linkInDir fd oldname newname)
  | unlinkInDir fd name => finished (prod_unlinkInDir fd name)
  | fsyncDir fd => finished (prod_fsyncDir fd)
  end.

(** A program over the interface, made of the production operations. *)
Fixpoint compile {A} (n : nat) (p : prog A) : sys_prog (option A) :=
  match p with
  | Ret a => Ret (Some a)
  | Call o k => let! r := production n o in match r with Some r => compile n (k r) | None => Ret None end
  end.

(** ** The same world

    The interface's operations keep an account of their failures and of which
    created files the program knows of; otherwise the two worlds agree.  The
    states that may be on disk are a set. *)

Definition same_hist (h h' : list (gmap string key)) : Prop := forall d, d ∈ h <-> d ∈ h'.

Lemma same_hist_trans h1 h2 h3 : same_hist h1 h2 -> same_hist h2 h3 -> same_hist h1 h3.
Proof. intros H1 H2 d. by rewrite (H1 d), (H2 d). Qed.

Record same (va v : view) : Prop := {
  sm_dir : v_dir va = v_dir v;
  sm_files : v_files va = v_files v;
  sm_fds : v_fds va = v_fds v;
  sm_gone : v_gone va = v_gone v;
  sm_self : v_self va = v_self v;
  sm_hist : same_hist (v_hist va) (v_hist v);
  sm_mine : v_mine va ⊆ v_mine v;
  sm_known : v_mine va ∪ v_lost va ⊆ v_mine v ∪ v_lost v;
  sm_now : v_dir v ∈ v_hist v
}.

Lemma same_refl v : v_dir v ∈ v_hist v -> same v v.
Proof. by constructor. Qed.
Lemma same_fault va v : same va v -> same (fault va) v.
Proof. intros []. by constructor. Qed.

Lemma same_on_file va v v' fd g : same va v -> on_file v v' fd g -> exists va', on_file va va' fd g /\ same va' v'.
Proof.
  intros [H1 H2 H3 H4 H5 H6 H7 H8 H9] (k & f & Hk & Hf & ->). exists (set_file k (g f) va). split; [exists k, f; by rewrite H3, H2|].
  constructor; try done. cbn. by rewrite H2.
Qed.
Lemma same_hist_cons d h h' : same_hist h h' -> same_hist (d :: h) (d :: h').
Proof. intros H x. rewrite !elem_of_cons. by rewrite (H x). Qed.
Lemma same_set_dir va v d : same va v -> same (set_dir d va) (set_dir d v).
Proof. intros []. constructor; try done; cbn; [by apply same_hist_cons|by left]. Qed.
Lemma same_set_fds va v fds : same va v -> same (set_fds fds va) (set_fds fds v).
Proof. intros []. by constructor. Qed.
Lemma same_add_gone va v n : same va v -> same (add_gone n va) (add_gone n v).
Proof. intros []. constructor; try done. cbn. congruence. Qed.
Lemma same_settled va v : same va v -> same (set_hist [v_dir va] va) (set_hist [v_dir v] v).
Proof. intros [H1 ? ? ? ? ? ? ? ?]. constructor; try done; cbn; [by rewrite H1|by left]. Qed.
Lemma same_unused va v k : same va v -> unused v k -> unused va k.
Proof.
  intros Hs (H1 & H2 & H3 & H4). pose proof (sm_known _ _ Hs) as Hkn. split_and!; try set_solver.
  - intros x. rewrite (sm_dir _ _ Hs). apply H3.
  - intros d x Hd%(sm_hist _ _ Hs). by apply H4.
Qed.

(** Other processes can do to [a'] what they did to [a], and leave any files
    there that are not [a']'s own. *)
Lemma follow a b a' F : interferes a b -> v_dir a' = v_dir a -> same_hist (v_hist a') (v_hist a) -> v_mine a' ⊆ v_mine a -> v_dir b ∈ v_hist b ->
  (forall k, k ∈ v_mine a' -> F !! k = v_files a' !! k) ->
  exists b', interferes a' b' /\ v_dir b' = v_dir b /\ v_files b' = F /\ same_hist (v_hist b') (v_hist b).
Proof.
  intros Hi. revert a'. induction Hi as [a|a a1 b (d & files & -> & Hd & Hnew & _) _ IH]; intros a' Hdir Hh Hm Hw HF.
  - exists (mkView (v_dir a') F (v_fds a') (v_dir a' :: v_hist a') (v_mine a') (v_lost a') (v_gone a') (v_fails a') (v_self a')). split.
    + apply rtc_once. exists (v_dir a'), F. split; [done|]. split; [done|]. split; [by left|done].
    + cbn. split; [done|]. split; [done|]. intros x. rewrite elem_of_cons, (Hh x), Hdir. naive_solver.
  - destruct (IH (mkView d (v_files a') (v_fds a') (d :: v_hist a') (v_mine a') (v_lost a') (v_gone a') (v_fails a') (v_self a'))) as (b' & Hb & H1 & H2 & H3); cbn; try done.
    { by apply same_hist_cons. }
    exists b'. split; [|done]. eapply rtc_l; [|exact Hb]. exists d, (v_files a'). rewrite Hdir. split; [done|]. split; [done|]. split; [|done].
    intros x k Hx. destruct (Hnew x k Hx) as [|Hno]; [by left|right]. set_solver.
Qed.

Lemma interferes_now v v' : interferes v v' -> v_dir v ∈ v_hist v -> v_dir v' ∈ v_hist v'.
Proof. induction 1 as [|v v1 v' (d & files & -> & _) _ IH]; [done|]. intros _. apply IH. by left. Qed.

Lemma same_interferes va v v' : same va v -> interferes v v' -> exists va', interferes va va' /\ same va' v'.
Proof.
  intros Hs Hi. destruct (interferes_own _ _ Hi) as (E1 & E2 & E3 & E4 & _ & E6 & E7). pose proof (sm_mine _ _ Hs) as Hm. pose proof (interferes_now _ _ Hi (sm_now _ _ Hs)) as Hw.
  destruct (follow v v' va (v_files v') Hi (sm_dir _ _ Hs) (sm_hist _ _ Hs) Hm Hw) as (va' & Hva & H1 & H2 & H3).
  { intros k Hk. rewrite E7 by set_solver. by rewrite (sm_files _ _ Hs). }
  exists va'. split; [done|]. destruct (interferes_own _ _ Hva) as (G1 & G2 & G3 & G4 & _ & G6 & _). destruct Hs.
  constructor; try done; try congruence; rewrite ?G2, ?G3, ?E2, ?E3; done.
Qed.

(** ** One operation *)

Notation sys_always := (Prog.always sys_interferes kernel_does).
Notation sys_step := (Prog.step sys_interferes kernel_does).

Section Simulation.
Context {A : Type}.
Variables (p0 : prog A) (v0 : view).

(** An execution of the program over the interface has come to [q], in the
    same world, but for what others have done since. *)
Definition reach (q : prog A) (v : view) : Prop := exists va vb, rtc step (p0, v0) (q, va) /\ interferes va vb /\ same vb v.
Definition shown (s : kernel) : Prop := exists q, reach q s.1.

Lemma reach_interferes q s s' : reach q s.1 -> sys_interferes s s' -> reach q s'.1.
Proof.
  intros (va & vb & Hr & Hi & Hs) [Hi' _]. destruct (same_interferes _ _ _ Hs Hi') as (vb' & Hi'' & Hs'). exists va, vb'. split; [done|]. split; [by etrans|done].
Qed.

Lemma reach_call o k v v' r : reach (Call o k) v -> (forall vb, same vb v -> exists va', behaves o vb r va' /\ same va' v') -> reach (k r) v'.
Proof.
  intros (va & vb & Hr & Hi & Hs) Hb. destruct (Hb vb Hs) as (va' & Hb' & Hs'). exists va', va'. split; [|by split]. eapply rtc_r; [exact Hr|]. exists vb, r. by repeat split.
Qed.

Definition answered o (k : answer o -> prog A) (r : option (answer o)) (s : kernel) : Prop := match r with Some r => reach (k r) s.1 | None => False end.

(** An operation that is one system call. *)
Lemma simulate_call o (k : answer o -> prog A) so (conv : sys_answer so -> answer o) s : reach (Call o k) s.1 ->
  (forall vb v r v', same vb v -> sys_view so v r v' -> exists va', behaves o vb (conv r) va' /\ same va' v') ->
  sys_always shown (answered o k) (finished (let! r := call so in Ret (conv r))) s.
Proof.
  intros Hr Hb s1 r s2 Hi [Hv _]. pose proof (reach_interferes _ _ _ Hr Hi) as Hr1. assert (reach (k (conv r)) s2.1) as Hr2.
  { apply (reach_call _ _ _ _ _ Hr1). intros vb Hs. by apply (Hb vb _ _ _ Hs). }
  split; [by exists (k (conv r))|done].
Qed.

(** A failure of a call that changes nothing. *)
Ltac call_failed := eexists; split; [first [done|by left]|first [done|by apply same_fault]].

Lemma simulate_fstatParent fd k s : reach (Call (fstatParent fd) k) s.1 -> sys_always shown (answered _ k) (finished (prod_fstatParent fd)) s.
Proof.
  intros Hr. apply (simulate_call (fstatParent fd) k (Fstat fd) plain); [done|]. intros vb v [id|e] v' Hs Hv; cbn in *; [|subst v'; call_failed].
  destruct Hv as (-> & Hk & _). exists vb. by rewrite (sm_fds _ _ Hs).
Qed.
Lemma simulate_fstatFile fd name k s : reach (Call (fstatFile fd name) k) s.1 -> sys_always shown (answered _ k) (finished (prod_fstatFile fd)) s.
Proof.
  intros Hr. apply (simulate_call (fstatFile fd name) k (Fstat fd) plain); [done|]. intros vb v [id|e] v' Hs Hv; cbn in *; [|subst v'; call_failed].
  destruct Hv as (-> & Hk & _). exists vb. by rewrite (sm_fds _ _ Hs).
Qed.
Lemma simulate_lstatInDir fd name k s : reach (Call (lstatInDir fd name) k) s.1 -> sys_always shown (answered _ k) (finished (prod_lstatInDir fd name)) s.
Proof.
  intros Hr. apply (simulate_call (lstatInDir fd name) k (Fstatat fd name) plain); [done|]. intros vb v [id|e] v' Hs Hv; cbn in *.
  - destruct Hv as [Hk ->]. exists vb. by rewrite (sm_dir _ _ Hs).
  - destruct e as [|[]]; try (subst v'; cbn; call_failed). destruct Hv as [Hn ->]. exists vb. by rewrite (sm_dir _ _ Hs).
Qed.
Lemma simulate_fchownFile fd name gid k s : reach (Call (fchownFile fd name gid) k) s.1 -> sys_always shown (answered _ k) (finished (prod_fchownFile fd gid)) s.
Proof.
  intros Hr. apply (simulate_call (fchownFile fd name gid) k (Fchown fd gid) plain); [done|]. intros vb v [[]|e] v' Hs Hv; cbn in *; [by eapply same_on_file|].
  subst v'. destruct e as [|[]]; cbn; call_failed.
Qed.
Lemma simulate_fchmodFile fd name mode k s : reach (Call (fchmodFile fd name mode) k) s.1 -> sys_always shown (answered _ k) (finished (prod_fchmodFile fd mode)) s.
Proof.
  intros Hr. apply (simulate_call (fchmodFile fd name mode) k (Fchmod fd mode) plain); [done|]. intros vb v [[]|e] v' Hs Hv; cbn in *; [by eapply same_on_file|].
  subst v'. call_failed.
Qed.
Lemma simulate_fsyncFile fd name k s : reach (Call (fsyncFile fd name) k) s.1 -> sys_always shown (answered _ k) (finished (prod_fsyncFile fd)) s.
Proof.
  intros Hr. apply (simulate_call (fsyncFile fd name) k (Fsync false fd) plain); [done|]. intros vb v [[]|e] v' Hs Hv; cbn in *; [by eapply same_on_file|].
  subst v'. call_failed.
Qed.
Lemma simulate_fsyncDir fd k s : reach (Call (fsyncDir fd) k) s.1 -> sys_always shown (answered _ k) (finished (prod_fsyncDir fd)) s.
Proof.
  intros Hr. apply (simulate_call (fsyncDir fd) k (Fsync true fd) plain); [done|]. intros vb v [[]|e] v' Hs Hv; cbn in *; subst v'; [|call_failed].
  eexists. split; [done|]. by apply same_settled.
Qed.
Lemma simulate_closeFile fd name k s : reach (Call (closeFile fd name) k) s.1 -> sys_always shown (answered _ k) (finished (prod_closeFile fd)) s.
Proof.
  intros Hr. apply (simulate_call (closeFile fd name) k (Close fd) plain); [done|]. intros vb v r v' Hs Hv; cbn in *. subst v'. rewrite <- (sm_fds _ _ Hs).
  destruct r as [[]|e]; cbn; eexists; (split; [first [done|by right]|]); [by apply same_set_fds|by apply same_fault, same_set_fds].
Qed.
Lemma simulate_linkInDir fd oldname newname k s : reach (Call (linkInDir fd oldname newname) k) s.1 -> sys_always shown (answered _ k) (finished (prod_linkInDir fd oldname newname)) s.
Proof.
  intros Hr. apply (simulate_call (linkInDir fd oldname newname) k (Linkat fd oldname newname) plain); [done|]. intros vb v [[]|e] v' Hs Hv; cbn in *; [|subst v'; call_failed].
  destruct Hv as (x & H1 & H2 & ->). rewrite <- (sm_dir _ _ Hs) in *. eexists. split; [by exists x|]. by apply same_set_dir.
Qed.
Lemma simulate_unlinkInDir fd name k s : reach (Call (unlinkInDir fd name) k) s.1 -> sys_always shown (answered _ k) (finished (prod_unlinkInDir fd name)) s.
Proof.
  intros Hr. apply (simulate_call (unlinkInDir fd name) k (Unlinkat fd name) (fun r => match r with Ok _ | Err (Errno ENOENT) => Ok tt | Err e => Err (fault_of e) end)); [done|].
  intros vb v r v' Hs Hv. assert (same (add_gone name (set_dir (delete name (v_dir vb)) vb)) (add_gone name (set_dir (delete name (v_dir v)) v))) as Hd
    by (rewrite (sm_dir _ _ Hs); by apply same_add_gone, same_set_dir).
  destruct r as [[]|[|[]]]; cbn in *; try (subst v'; call_failed); destruct Hv as [_ ->]; by eexists.
Qed.

(** *** A descriptor is opened, then identified *)

Lemma reach_after (o : op) (k : answer o -> prog A) v r v' va vb : rtc step (p0, v0) (Call o k, va) -> interferes va vb -> behaves o vb r v' -> forall b', interferes v' b' -> same b' v -> reach (k r) v.
Proof. intros Hr Hi Hb b' Hi' Hs. exists v', b'. split; [|by split]. eapply rtc_r; [exact Hr|]. exists vb, r. by repeat split. Qed.

Lemma open_failed vb v1 v4 (fd : Z) x : same vb v1 -> v_fds v1 !! fd = None -> interferes (set_fds (<[fd := x]> (v_fds v1)) v1) v4 ->
  exists b', interferes (fault vb) b' /\ same b' (set_fds (delete fd (v_fds v4)) v4).
Proof.
  intros Hs Hfd Hi. destruct (interferes_own _ _ Hi) as (E1 & E2 & E3 & E4 & _ & E6 & E7). cbn in E1, E2, E3, E4, E6, E7.
  pose proof (interferes_now _ _ Hi (sm_now _ _ Hs)) as Hw.
  destruct (follow _ _ (fault vb) (v_files v4) Hi (sm_dir _ _ Hs) (sm_hist _ _ Hs) (sm_mine _ _ Hs) Hw) as (b' & Hb & H1 & H2 & H3).
  { intros j Hj. pose proof (sm_mine _ _ Hs). rewrite E7 by set_solver. cbn. by rewrite (sm_files _ _ Hs). }
  exists b'. split; [done|]. destruct (interferes_own _ _ Hb) as (G1 & G2 & G3 & G4 & _ & G6 & _). cbn in G1, G2, G3, G4, G6. destruct Hs.
  constructor; cbn; try done; try congruence; rewrite ?G2, ?G3, ?E2, ?E3; try done.
  all: first [done|rewrite G1, sm_fds0, E1; by rewrite delete_insert_id].
Qed.

Lemma simulate_openParent path k s : reach (Call (openParent path) k) s.1 -> sys_always shown (answered _ k) (finished (prod_openParent path)) s.
Proof.
  intros Hr s1 r s2 Hi [Hv _]. pose proof (reach_interferes _ _ _ Hr Hi) as Hr1. destruct r as [fd|e]; cbn in Hv.
  - destruct Hv as [Hfd Hv]. assert (reach (k (Ok (fd, v_self s1.1))) s2.1) as Hr2.
    { apply (reach_call _ _ _ _ _ Hr1). intros vb Hs. eexists. split; [split; [by rewrite (sm_fds _ _ Hs)|by split; [by rewrite (sm_self _ _ Hs)|]]|].
      rewrite Hv, (sm_fds _ _ Hs). by apply same_set_fds. }
    split; [by eexists|]. intros s3 r s4 Hi3 [Hv4 _]. pose proof (reach_interferes _ _ _ Hr2 Hi3) as Hr3.
    destruct (interferes_own _ _ (proj1 Hi3)) as (E1 & _ & _ & _ & _ & E6 & _). rewrite Hv in E1, E6. cbn in E1, E6. destruct r as [id|e]; cbn in Hv4.
    + destruct Hv4 as (Hv4 & Hk & Hself & _). rewrite E1, lookup_insert_eq in Hk. apply (inj Some) in Hk. rewrite E6 in Hself.
      assert (id = v_self s1.1) as -> by (by apply Hself). rewrite <- Hv4 in Hr3. split; [by eexists|done].
    + rewrite <- Hv4 in Hr3. split; [by eexists|]. intros s5 r s6 Hi5 [Hv6 _]. cbn in Hv6.
      assert (interferes s2.1 s5.1) as Hi15 by (etrans; [exact (proj1 Hi3)|rewrite <- Hv4; exact (proj1 Hi5)]). rewrite Hv in Hi15.
      destruct Hr1 as (va & vb & Hst & Hia & Hs). destruct (open_failed vb s1.1 s5.1 fd _ Hs Hfd Hi15) as (b' & Hb & Hsb).
      assert (reach (k (Err (fault_of e))) s6.1) as Hr6 by (eapply (reach_after (openParent path)); [exact Hst|exact Hia|done|exact Hb|by rewrite Hv6]).
      split; [by eexists|exact Hr6].
  - subst. assert (reach (k (Err (fault_of e))) s2.1) as Hr2 by (rewrite Hv; apply (reach_call _ _ _ _ _ Hr1); intros vb Hs; eexists; split; [done|by apply same_fault]).
    split; [by eexists|done].
Qed.
Lemma create_failed vb v1 v4 (fd : Z) name x m gid (v2 := add_mine x (set_fds (<[fd := x]> (v_fds v1)) (set_file x (mkFile "" false m gid) (set_dir (<[name := x]> (v_dir v1)) v1)))) :
  same vb v1 -> unused v1 x -> v_fds v1 !! fd = None -> interferes v2 v4 ->
  exists b', interferes (fault (add_lost x (set_dir (<[name := x]> (v_dir vb)) vb))) b' /\ same b' (set_fds (delete fd (v_fds v4)) v4).
Proof.
  intros Hs (Hx & _) Hfd Hi. destruct (interferes_own _ _ Hi) as (E1 & E2 & E3 & E4 & _ & E6 & E7). cbn in E1, E2, E3, E4, E6, E7.
  pose proof (sm_mine _ _ Hs) as Hm. pose proof (interferes_now _ _ Hi ltac:(by left)) as Hw.
  destruct (follow v2 v4 (fault (add_lost x (set_dir (<[name := x]> (v_dir vb)) vb))) (v_files v4) Hi) as (b' & Hb & H1 & H2 & H3); try done.
  { cbn. by rewrite (sm_dir _ _ Hs). } { cbn. rewrite (sm_dir _ _ Hs). by apply same_hist_cons, sm_hist. } { cbn. set_solver. }
  { cbn. intros j Hj. assert (j <> x) by (intros ->; set_solver). rewrite E7 by set_solver. rewrite lookup_insert_ne by done. by rewrite (sm_files _ _ Hs). }
  exists b'. split; [done|]. destruct (interferes_own _ _ Hb) as (G1 & G2 & G3 & G4 & _ & G6 & _). cbn in G1, G2, G3, G4, G6. destruct Hs.
  constructor; cbn; try done; try congruence; rewrite ?G2, ?G3, ?E2, ?E3.
  - rewrite G1, sm_fds0, E1. by rewrite delete_insert_id.
  - set_solver.
  - set_solver.
Qed.

Lemma simulate_createInDir dfd name mode k s : reach (Call (createInDir dfd name mode) k) s.1 -> sys_always shown (answered _ k) (finished (prod_createInDir dfd name mode)) s.
Proof.
  intros Hr s1 r s2 Hi [Hv _]. pose proof (reach_interferes _ _ _ Hr Hi) as Hr1. destruct r as [fd|e]; cbn in Hv.
  - destruct Hv as (x & m & gid & Hname & Hfd & Hun & Hino & Hm & Hv).
    assert (forall id, key_of id = x -> Gid id = gid -> reach (k (Ok (fd, id))) s2.1) as Hr2.
    { intros id Hk Hg. apply (reach_call _ _ _ _ _ Hr1). intros vb Hs. eexists. split.
      - cbn. rewrite Hk, (sm_dir _ _ Hs), (sm_fds _ _ Hs). split; [done|]. split; [done|]. split; [by eapply same_unused|]. split; [by rewrite <- Hk in Hino|]. by exists m.
      - rewrite Hv, Hg. assert (same (set_dir (<[name := x]> (v_dir s1.1)) vb) (set_dir (<[name := x]> (v_dir s1.1)) s1.1)) as [] by (by apply same_set_dir).
        constructor; try done; cbn in *; [by rewrite sm_files0|set_solver|set_solver]. }
    assert (shown s2) as Hsh2 by (eexists; by apply (Hr2 (mkId x.1 x.2 0 0 gid)); [destruct x|]). split; [exact Hsh2|].
    intros s3 r s4 Hi3 [Hv4 _]. destruct (interferes_own _ _ (proj1 Hi3)) as (E1 & E2 & _ & _ & _ & _ & E7). rewrite Hv in E1, E2, E7. cbn in E1, E2, E7.
    assert (forall id, key_of id = x -> Gid id = gid -> reach (k (Ok (fd, id))) s3.1) as Hr3 by (intros id ? ?; eapply (reach_interferes _ s2); [by apply Hr2|done]).
    destruct r as [id|e]; cbn in Hv4.
    + destruct Hv4 as (Hv4 & Hk & _ & Hgid). rewrite E1, lookup_insert_eq in Hk. apply (inj Some) in Hk. rewrite <- Hk in Hgid. rewrite E2, E7, lookup_insert_eq in Hgid by set_solver.
      specialize (Hgid _ eq_refl ltac:(set_solver)). rewrite <- Hv4 in Hr3. assert (reach (k (Ok (fd, id))) s4.1) by (by apply Hr3). split; [by eexists|done].
    + rewrite <- Hv4 in Hr3. split; [eexists; by apply (Hr3 (mkId x.1 x.2 0 0 gid)); [destruct x|]|]. intros s5 r s6 Hi5 [Hv6 _]. cbn in Hv6.
      assert (interferes s2.1 s5.1) as Hi25 by (etrans; [exact (proj1 Hi3)|rewrite <- Hv4; exact (proj1 Hi5)]). rewrite Hv in Hi25.
      destruct Hr1 as (va & vb & Hst & Hia & Hs). destruct (create_failed vb s1.1 s5.1 fd name x m gid Hs Hun Hfd Hi25) as (b' & Hb & Hsb).
      assert (reach (k (Err (fault_of e))) s6.1) as Hr6.
      { eapply (reach_after (createInDir dfd name mode)); [exact Hst|exact Hia| |exact Hb|by rewrite Hv6]. right. exists x. rewrite (sm_dir _ _ Hs). split; [done|]. split; [by eapply same_unused|done]. }
      split; [by eexists|exact Hr6].
  - assert (reach (k (Err (fault_of e))) s2.1) as Hr2 by (rewrite Hv; apply (reach_call _ _ _ _ _ Hr1); intros vb Hs; eexists; split; [by left|by apply same_fault]).
    split; [by eexists|done].
Qed.

(** *** The write loop *)

Definition append (w : string) (f : file) : file := mkFile (f_data f +:+ w) false (f_mode f) (f_gid f).

(** [w] has been written, and the others may have done something since. *)
Definition written (fd : Z) (name data : string) (k : answer (writeAll fd name data) -> prog A) (w : string) (v : view) : Prop :=
  exists va v1 a vb, rtc step (p0, v0) (Call (writeAll fd name data) k, va) /\ interferes va v1 /\ on_file v1 a fd (append w) /\ interferes a vb /\ same vb v.

Lemma written_interferes fd name data k w s s' : written fd name data k w s.1 -> sys_interferes s s' -> written fd name data k w s'.1.
Proof.
  intros (va & v1 & a & vb & Hst & Hi & Hf & Ha & Hs) [Hi' _]. destruct (same_interferes _ _ _ Hs Hi') as (vb' & Hvb & Hs'). exists va, v1, a, vb'.
  repeat (split; [done|]). split; [by etrans|done].
Qed.

Lemma written_first fd name data k w v v' : reach (Call (writeAll fd name data) k) v -> on_file v v' fd (append w) -> written fd name data k w v'.
Proof.
  intros (va & vb & Hst & Hi & Hs) Hf. destruct (same_on_file _ _ _ _ _ Hs Hf) as (a & Ha & Hsa). exists va, vb, a, a. split; [done|]. split; [done|]. split; [done|]. by split.
Qed.

Lemma written_more fd name data k w x v v' : written fd name data k w v -> on_file v v' fd (append x) -> written fd name data k (w +:+ x) v'.
Proof.
  intros (va & v1 & a & vb & Hst & Hi & (i & f & Hfd & Hf & Ea) & Ha & Hs) (i' & f' & Hfd' & Hf' & ->).
  destruct (interferes_own _ _ Ha) as (E1 & E2 & E3 & E4 & _ & E6 & E7).
  assert (i' = i) as -> by (rewrite <- (sm_fds _ _ Hs), E1, Ea in Hfd'; cbn in Hfd'; congruence).
  set (a' := set_file i (append (w +:+ x) f) v1). destruct (follow a vb a' (<[i := append x f']> (v_files v)) Ha) as (b' & Hb & H1 & H2 & H3).
  - by rewrite Ea.
  - by rewrite Ea.
  - by rewrite Ea.
  - rewrite (sm_dir _ _ Hs). apply (sm_hist _ _ Hs), (sm_now _ _ Hs).
  - intros j Hj. assert (j ∈ v_mine a) as Hja by (by rewrite Ea). specialize (E7 j Hja). cbn. destruct (decide (j = i)) as [->|Hne].
    + rewrite !lookup_insert_eq. rewrite Ea in E7. cbn in E7. rewrite lookup_insert_eq, (sm_files _ _ Hs), Hf' in E7. injection E7 as ->. unfold append. cbn. by rewrite sapp_assoc.
    + rewrite !lookup_insert_ne by done. rewrite <- (sm_files _ _ Hs), E7, Ea. cbn. by rewrite lookup_insert_ne.
  - exists va, v1, a', b'. split; [done|]. split; [done|]. split; [by exists i, f|]. split; [done|].
    destruct (interferes_own _ _ Hb) as (G1 & G2 & G3 & G4 & _ & G6 & _). rewrite Ea in E1, E2, E3, E4, E6. cbn in *. destruct Hs.
    constructor; cbn; try done; try congruence; rewrite ?G2, ?G3, <- ?E2, <- ?E3; try done. by eapply same_hist_trans.
Qed.

Lemma written_reach fd name data k w (e : errno) v : written fd name data k w v -> (exists r, data = w +:+ r) -> reach (k (Err e)) v /\ (w = data -> reach (k (Ok tt)) v).
Proof.
  intros (va & v1 & a & vb & Hst & Hi & Hf & Ha & Hs) [r Hd]. split.
  - pose proof (interferes_own _ _ Ha) as (E1 & E2 & E3 & E4 & _ & E6 & E7).
    destruct (follow a vb (fault a) (v_files v) Ha) as (b' & Hb & H1 & H2 & H3); try done.
    { rewrite (sm_dir _ _ Hs). apply (sm_hist _ _ Hs), (sm_now _ _ Hs). }
    { intros j Hj. rewrite <- (sm_files _ _ Hs). by apply E7. }
    apply (reach_after (writeAll fd name data) k v (Err e) (fault a) va v1 Hst Hi) with (b' := b'); [|done|].
    { right. exists (String.length w), a. split; [|done]. rewrite Hd, stake_app. exact Hf. }
    destruct (interferes_own _ _ Hb) as (G1 & G2 & G3 & G4 & _ & G6 & _). cbn in *. destruct Hs.
    constructor; try done; try congruence; rewrite ?G2, ?G3, <- ?E2, <- ?E3; try done. by eapply same_hist_trans.
  - intros ->. apply (reach_after (writeAll fd name data) k v (Ok tt) a va v1 Hst Hi) with (b' := vb); done.
Qed.

(** The loop from the point where [w] has been written and [rest] has not;
    before the first write nothing has happened. *)
Definition in_loop (fd : Z) (name data : string) (k : answer (writeAll fd name data) -> prog A) (w rest : string) (s : kernel) : Prop :=
  data = w +:+ rest /\ ((w = "" /\ rest <> "" /\ reach (Call (writeAll fd name data) k) s.1) \/ written fd name data k w s.1).

Lemma in_loop_interferes fd name data k w rest s s' : in_loop fd name data k w rest s -> sys_interferes s s' -> in_loop fd name data k w rest s'.
Proof.
  intros [Hd [(Hw & Hr & Hc)|Hc]] Hi; (split; [done|]); [left|right]; [|by eapply written_interferes]. split; [done|]. split; [done|]. by eapply reach_interferes.
Qed.

Lemma in_loop_write fd name data k w rest j s v' : in_loop fd name data k w rest s -> on_file s.1 v' fd (append (stake j rest)) -> written fd name data k (w +:+ stake j rest) v'.
Proof. intros [Hd [(-> & Hr & Hc)|Hc]] Hf; [by eapply written_first|by eapply written_more]. Qed.

Lemma in_loop_failed fd name data k w rest s (e : errno) : in_loop fd name data k w rest s -> reach (k (Err e)) s.1.
Proof.
  intros [Hd [(-> & Hr & Hc)|Hc]]; [|by apply (written_reach _ _ _ _ _ e _ Hc); exists rest].
  apply (reach_call _ _ _ _ _ Hc). intros vb Hs. eexists. split; [by left|by apply same_fault].
Qed.

Lemma simulate_loop fd name data k n : forall w rest s, in_loop fd name data k w rest s -> (String.length rest + s.2 <= n)%nat ->
  sys_always shown (answered (writeAll fd name data) k) (prod_writeAll n fd rest) s.
Proof.
  induction n as [|n IH]; intros w rest s Hl Hn; cbn [prod_writeAll].
  all: destruct (String.eqb_spec rest "") as [->|Hr];
    [destruct Hl as [Hd [(_ & [] & _)|Hw]]; [done|]; rewrite sapp_nil_r in Hd; subst w; apply (written_reach _ _ _ _ _ EIO _ Hw); [exists ""; by rewrite sapp_nil_r|done]|].
  { destruct rest; [done|cbn in Hn; lia]. }
  intros s1 r s2 Hi [Hv Hk]. assert (s1.2 = s.2) as Hs1 by (by destruct Hi). pose proof (in_loop_interferes _ _ _ _ _ _ _ _ Hl Hi) as Hl1.
  destruct r as [j|[|e]]; cbn [kernel_does fruitless] in Hk.
  - destruct Hv as [Hj Hv]. pose proof (in_loop_write _ _ _ _ _ _ _ _ _ Hl1 Hv) as Hw2. assert (data = (w +:+ stake j rest) +:+ sdrop j rest) as Hd2 by (rewrite sapp_assoc, stake_sdrop; apply Hl).
    split; [eexists; exact (proj1 (written_reach _ _ _ _ _ EIO _ Hw2 (ex_intro _ _ Hd2)))|]. apply (IH (w +:+ stake j rest)); [by split; [|right]|].
    assert (String.length (sdrop j rest) + j = String.length rest)%nat as Hlen.
    { rewrite <- (stake_sdrop j rest) at 2. rewrite slen_app, stake_length. lia. }
    rewrite (proj2 (String.eqb_neq _ _) Hr) in Hk. cbn [negb] in Hk. rewrite andb_true_r in Hk. destruct (Nat.eqb_spec j 0); lia.
  - cbn in Hv. assert (in_loop fd name data k w rest s2) as Hl2 by (destruct s1, s2; cbn in *; by subst). split; [eexists; exact (in_loop_failed _ _ _ _ _ _ _ EIO Hl2)|].
    apply (IH w); [done|]. lia.
  - cbn in Hv. assert (reach (k (Err e)) s2.1) as Hr2 by (rewrite Hv; by eapply in_loop_failed). split; [by eexists|exact Hr2].
Qed.

(** A write of something, with enough turns of the loop for its bytes and for
    [i] idle returns of the kernel. *)
Definition fits (n i : nat) (o : op) : Prop := match o with writeAll _ _ data => data <> "" /\ (String.length data + i <= n)%nat | _ => True end.

Lemma simulate_production n o k s : reach (Call o k) s.1 -> fits n s.2 o -> sys_always shown (answered o k) (production n o) s.
Proof.
  intros Hr Hf. destruct o as [path|fd|fd name|fd name mode|fd name gid|fd name mode|fd name data|fd name|fd name|fd name|fd old new|fd name|fd]; cbn [production].
  - by apply simulate_openParent.
  - by apply simulate_fstatParent.
  - by apply simulate_lstatInDir.
  - by apply simulate_createInDir.
  - by apply simulate_fchownFile.
  - by apply simulate_fchmodFile.
  - destruct Hf as [Hne Hn]. apply (simulate_loop fd name data k n "" data); [split; [done|by left]|done].
  - by apply simulate_fsyncFile.
  - by apply simulate_fstatFile.
  - by apply simulate_closeFile.
  - by apply simulate_linkInDir.
  - by apply simulate_unlinkInDir.
  - by apply simulate_fsyncDir.
Qed.
End Simulation.

(** ** Whole programs *)

(** All the writes a program may make fit. *)
Fixpoint writes_fit {A} (n i : nat) (p : prog A) : Prop :=
  match p with Ret _ => True | Call o k => fits n i o /\ forall r, writes_fit n i (k r) end.

Lemma writes_fit_bind {A B} n i (p : prog A) (f : A -> prog B) : writes_fit n i p -> (forall a, writes_fit n i (f a)) -> writes_fit n i (bind p f).
Proof. intros Hp Hf. induction p as [a|o k IH]; [apply Hf|]. cbn in *. destruct Hp as [Ho H]. split; [done|]. intros r. by apply IH. Qed.

(** Idle returns are used up, never made. *)
Lemma idle_bounded {A} (p : sys_prog A) i s : (s.2 <= i)%nat -> sys_always (fun s => (s.2 <= i)%nat) (fun _ s => (s.2 <= i)%nat) p s.
Proof.
  revert s. induction p as [a|o k IH]; intros s Hs; [done|]. intros s1 r s2 [_ Hi] [_ Hk].
  assert ((s2.2 <= i)%nat) by (destruct (fruitless o r); lia). split; [done|]. by apply IH.
Qed.

Lemma compile_simulates {A} (p0 : prog A) v0 n i (p : prog A) : writes_fit n i p -> forall s, (s.2 <= i)%nat -> reach p0 v0 p s.1 ->
  sys_always (shown p0 v0) (fun r s' => exists a, r = Some a /\ reach p0 v0 (Ret a) s'.1) (compile n p) s.
Proof.
  induction p as [a|o k IH]; intros Hw s Hs Hr; cbn [compile]; [by exists a|]. destruct Hw as [Ho Hw]. apply always_bind.
  assert (fits n s.2 o) as Hf by (destruct o; try done; cbn in *; destruct Ho; split; [done|lia]).
  pose proof (always_both _ _ _ _ _ _ _ _ (simulate_production p0 v0 n o k s Hr Hf) (idle_bounded (production n o) i s Hs)) as Ha.
  eapply always_mono; [|eapply always_weaken; [|exact Ha]]; [|by intros ? [? _]]. intros [r|] s' [Hr' Hs']; [|done]. by apply IH.
Qed.

(** C20: The system calls implement the interface that [init]'s transaction is
    verified against.  Take any program over the interface whose writes are of
    at least one byte, and run it on the system calls: however the calls fail,
    however little the kernel writes at a time, as long as it returns idle
    from a write no more often than the loop has turns for, and whatever
    entries other processes add between any two calls.  At every moment the
    directory, its files, the descriptors and the states a crash may leave are
    those of an execution of the program over the interface, up to what the
    others have done since its last operation; no loop runs out; and a run that ends
    ends with the result of an execution that has ended. *)
Theorem production_refines {A} (p : prog A) n i v0 q s :
  v_dir v0 ∈ v_hist v0 -> writes_fit n i p -> rtc sys_step (compile n p, (v0, i)) (q, s) ->
  (exists p' va vb, rtc step (p, v0) (p', va) /\ interferes va vb /\ same vb s.1) /\
  forall r, q = Ret r -> exists a va vb, r = Some a /\ rtc step (p, v0) (Ret a, va) /\ interferes va vb /\ same vb s.1.
Proof.
  intros Hw Hf Hr. assert (reach p v0 p v0) as H0 by (exists v0, v0; split; [done|]; split; [done|by apply same_refl]).
  pose proof (compile_simulates p v0 n i p Hf (v0, i) (Nat.le_refl i) H0) as Ha.
  destruct (always_adequate _ _ _ _ _ _ _ _ Ha (ex_intro _ p H0) Hr) as [(p' & va & vb & H) Hq]. split; [by exists p', va, vb|].
  intros r ->. destruct Hq as (a & -> & va' & vb' & H'). by exists a, va', vb'.
Qed.

(** *** The transaction's own writes *)

Lemma writes_fit_returns {A B} n i (Q : A -> Prop) (p : prog A) (f : A -> prog B) :
  writes_fit n i p -> returns Q p -> (forall a, Q a -> writes_fit n i (f a)) -> writes_fit n i (bind p f).
Proof. intros Hp Hq Hf. induction p as [a|o k IH]; [by apply Hf|]. cbn in *. destruct Hp as [Ho H]. split; [done|]. intros r. by apply IH. Qed.

Section Writes.
Variables (n i : nat) (dirFD : Z).
(** What is to be written can be. *)
Definition writable (f : commitFile) : Prop := data f <> "" /\ (String.length (data f) + i <= n)%nat.
Definition all_writable (r : result commit_error (list commitFile)) : Prop := match r with Ok files => Forall writable files | Err _ => True end.

Lemma unlink_if_writes name id : writes_fit n i (unlink_if dirFD name id).
Proof. split; [done|]. intros [id'|e]; [|done]. cbn. by destruct (same_file id' id). Qed.
Lemma rollback_with_writes {A} files e : writes_fit n i (@rollback_with dirFD A files e).
Proof.
  apply writes_fit_bind; [|done]. apply writes_fit_bind.
  - induction (rev files) as [|f l IH]; cbn [unlink_finals]; [done|]. destruct (published f); cbn [negb]; [|done]. apply writes_fit_bind; [apply unlink_if_writes|done].
  - intros _. induction (rev files) as [|f l IH]; cbn [unlink_temps]; [done|]. destruct (_ =? 0); [done|]. apply writes_fit_bind; [apply unlink_if_writes|done].
Qed.
Lemma rollback_with_writable {A} (Q : result commit_error A -> Prop) files e : Q (Err e) -> returns Q (rollback_with dirFD files e).
Proof. intros H. apply returns_bind. eapply returns_mono; [|apply returns_any]. done. Qed.

Lemma check_existing_writes files : forall ex, writes_fit n i (check_existing dirFD files ex).
Proof. induction files as [|f l IH]; intros ex; [done|]. split; [done|]. by intros [id|[]]; cbn [bind]. Qed.

Ltac give_up_writing := first [apply rollback_with_writes|by apply rollback_with_writable].

Lemma create_files_writes adopt todo : forall don, Forall writable don -> Forall writable todo ->
  writes_fit n i (create_files dirFD adopt don todo) /\ returns all_writable (create_files dirFD adopt don todo).
Proof.
  induction todo as [|f todo IH]; intros don Hd Ht; [done|]. apply Forall_cons in Ht as [Hf Ht].
  assert (forall x y, writes_fit n i (create_files dirFD adopt (don ++ [mkCommitFile (temp f) (final f) (data f) x y (published f)]) todo) /\
    returns all_writable (create_files dirFD adopt (don ++ [mkCommitFile (temp f) (final f) (data f) x y (published f)]) todo)) as Hnext.
  { intros x y. apply IH; [|done]. apply Forall_app. split; [done|]. constructor; [exact Hf|constructor]. }
  cbn [create_files]. split.
  - split; [done|]. intros [[x y]|e]; [|give_up_writing]. destruct adopt as [gid|]; [|apply Hnext].
    split; [done|]. intros [[]|[]]; try give_up_writing; [|apply Hnext]. split; [done|]. intros [[]|e]; [apply Hnext|give_up_writing].
  - intros [[x y]|e]; [|give_up_writing]. destruct adopt as [gid|]; [|apply Hnext].
    intros [[]|[]]; try give_up_writing; [|apply Hnext]. intros [[]|e]; [apply Hnext|give_up_writing].
Qed.

Lemma write_files_writes todo : forall don, Forall writable todo -> writes_fit n i (write_files dirFD don todo).
Proof.
  induction todo as [|f todo IH]; intros don Ht; [done|]. apply Forall_cons in Ht as [Hf Ht].
  cbn [write_files]. split; [exact Hf|]. intros [[]|e]; [|give_up_writing]. split; [done|]. intros [[]|e]; [|give_up_writing].
  split; [done|]. intros [id'|e]; [|give_up_writing]. cbn [bind]. destruct (same_file id' (id f)); cbn [negb]; [|give_up_writing].
  split; [done|]. intros [[]|e]; [by apply IH|give_up_writing].
Qed.

Lemma publish_writes f : writes_fit n i (publishCommitFile dirFD f).
Proof. split; [done|]. intros [id'|e]; [|done]. cbn. destruct (same_file id' (id f)); cbn; [|done]. split; [done|]. intros [[]|e]; [|done]. split; [done|]. by intros [[]|e]. Qed.
Lemma publish_files_writes todo : forall don rest, writes_fit n i (publish_files dirFD don todo rest).
Proof.
  induction todo as [|f todo IH]; intros don rest; [done|]. cbn [publish_files]. apply writes_fit_bind; [apply publish_writes|].
  intros [[e|] f']; cbn [fst snd]; [apply rollback_with_writes|apply IH].
Qed.
Lemma sync_dir_writes files : writes_fit n i (sync_dir dirFD files).
Proof. split; [done|]. intros [[]|e]; [done|apply rollback_with_writes]. Qed.
End Writes.

Lemma commit_in_writes n i fd eu group dirID files : Forall (writable n i) files -> writes_fit n i (commit_in fd eu group dirID files).
Proof.
  intros Hf. unfold commit_in. destruct (negb (eu =? Uid dirID)); [done|]. destruct (negb (Z.land (Mode dirID) 18 =? 0)); [done|].
  split; [done|]. intros [id'|e]; [|done]. cbn [bind]. destruct (negb (same_file id' dirID)); [done|].
  apply writes_fit_bind; [apply check_existing_writes|]. intros [ex|e]; [|done]. case_bool_decide; [done|].
  destruct (create_files_writes n i fd (group (Gid dirID)) files [] ltac:(done) Hf) as [H1 H2].
  apply (writes_fit_returns n i (all_writable n i)); [done|done|]. intros [fs|e] Hfs; [|done].
  apply writes_fit_bind; [by apply write_files_writes|]. intros [fs'|e]; [|done].
  apply writes_fit_bind; [apply publish_files_writes|]. intros [fs2|e]; [|done].
  apply writes_fit_bind; [apply sync_dir_writes|]. intros [fs3|e]; [|done].
  apply writes_fit_bind; [apply publish_files_writes|]. intros [fs4|e]; [|done].
  apply writes_fit_bind; [apply sync_dir_writes|]. by intros [fs5|e].
Qed.

(** Enough turns for each of the three documents. *)
Lemma init_writes n i p args a : Forall (fun d => d <> "" /\ (String.length d + i <= n)%nat) [a_Pepper a; a_Users a; a_Config a] -> writes_fit n i (commitInitArtifacts p args a).
Proof.
  intros Hd. unfold commitInitArtifacts. destruct (_ || _); [done|]. split; [done|]. intros [[fd id]|e]; [|done]. cbn [bind].
  apply writes_fit_bind; [|by intros [[]|e]]. apply commit_in_writes. rewrite !Forall_cons in Hd. destruct Hd as (H1 & H2 & H3 & _). do 3 (constructor; [done|]). constructor.
Qed.

(** What is on disk for good stays so whatever the others add. *)
Lemma interferes_hist v v' : interferes v v' -> forall d, d ∈ v_hist v' -> d ∈ v_hist v \/ v_dir v ⊆ d.
Proof.
  induction 1 as [|v v1 v' (d0 & files & -> & Hd & _) _ IH]; [by left|]. intros d Hin. destruct (IH d Hin) as [Hc|Hsub]; cbn in *.
  - apply elem_of_cons in Hc as [->|?]; [by right|by left].
  - right. by transitivity d0.
Qed.

(** The three documents, complete and synced, in a directory. *)
Definition published_in (p : process) (args : initPaths) (a : initArtifacts) (self : commitFileIdentity) (files : gmap key file) (d : gmap string key) : Prop :=
  Forall (fun t => exists k f, d !! t.1 = Some k /\ files !! k = Some f /\ complete (ServiceGroup (egid p) (Gid self)) f t.2)
    (targets (Base (PepperPath args)) (Base (UsersPath args)) (Base (ConfigPath args)) (a_Pepper a) (a_Users a) (a_Config a)).

Lemma settled_published p args a v0 va vb v : init_settled p args a v0 va -> v_dir va ∈ v_hist va -> interferes va vb -> same vb v ->
  forall d, crash v d -> published_in p args a (v_self v0) (v_files v) d.
Proof.
  intros (Hs & _ & _) Hw Hi Hsm d Hd. destruct (interferes_own _ _ Hi) as (_ & _ & _ & _ & _ & _ & Hown). apply Forall_forall. intros t Ht.
  destruct (Hd t.1) as (d' & Hd' & E). apply (sm_hist _ _ Hsm) in Hd'.
  assert (exists e, crash va e /\ (e = d' \/ e ⊆ d')) as (e & He & Hed).
  { destruct (interferes_hist _ _ Hi _ Hd') as [H|H]; [exists d'|exists (v_dir va)]; (split; [intros x; by eexists|by auto]). }
  specialize (Hs e He). rewrite Forall_forall in Hs. destruct (Hs t Ht) as (k & f & Hk & Hm & Hf & Hc). exists k, f.
  split; [rewrite E; destruct Hed as [->|Hsub]; [done|by eapply lookup_weaken]|]. split; [|exact Hc]. rewrite <- (sm_files _ _ Hsm), Hown by done. exact Hf.
Qed.

Lemma behaves_now o v r v' : behaves o v r v' -> v_dir v ∈ v_hist v -> v_dir v' ∈ v_hist v'.
Proof.
  intros Hb Hin. destruct o; cbn in r; destruct r as [x|e]; cbn in Hb; try destruct x as [fd' id']; try destruct e; unfold on_file in Hb.
  all: repeat match goal with
    | H : _ /\ _ |- _ => destruct H
    | H : exists _, _ |- _ => destruct H
    | H : _ \/ _ |- _ => destruct H
    end; subst; cbn; first [done|by left].
Qed.
Lemma steps_now {A} (p q : prog A) v v' : rtc step (p, v) (q, v') -> v_dir v ∈ v_hist v -> v_dir v' ∈ v_hist v'.
Proof.
  intros Hr. remember (p, v) as c eqn:Ec. remember (q, v') as c' eqn:Ec'. revert p v Ec. induction Hr as [c|c [p1 v1] c2 Hs _ IH]; intros p v ->; [by injection Ec' as <- <-|].
  intros Hin. apply (IH Ec' p1 v1 eq_refl). destruct p as [a|o k]; [done|]. destruct Hs as (w & r & Hi & Hb & _). eapply behaves_now; [exact Hb|]. by eapply interferes_now.
Qed.

(** ** A kernel that behaves

    One answer to every call, or its failure.  It interrupts the first writes,
    as often as it may, and then writes at most four bytes at a time. *)

Definition linux (o : sysop) (s : kernel) : sys_answer o * kernel :=
  let '(v, i) := s in
  match o return sys_answer o * kernel with
  | Openat _ => let fd := next_fd v in (Ok fd, (set_fds (<[fd := key_of (v_self v)]> (v_fds v)) v, i))
  | OpenatCreate _ name mode =>
      match v_dir v !! name with
      | Some _ => (Err (Errno EEXIST), s)
      | None =>
          let fd := next_fd v in let k := (Dev (v_self v), next_ino v) in
          (Ok fd, (add_mine k (set_fds (<[fd := k]> (v_fds v)) (set_file k (mkFile "" false mode (Gid (v_self v))) (set_dir (<[name := k]> (v_dir v)) v))), i))
      end
  | Fstat fd =>
      match v_fds v !! fd with
      | Some k =>
          if decide (k = key_of (v_self v)) then if decide (k ∈ v_mine v) then (Err (Errno EIO), s) else (Ok (v_self v), s)
          else (Ok (stat v k), s)
      | None => (Err (Errno EIO), s)
      end
  | Fstatat _ name => match v_dir v !! name with Some k => (Ok (stat v k), s) | None => (Err (Errno ENOENT), s) end
  | Fchown fd gid =>
      match with_file v fd (fun f => mkFile (f_data f) (f_synced f) (f_mode f) gid) with Some v' => (Ok tt, (v', i)) | None => (Err (Errno EIO), s) end
  | Fchmod fd mode =>
      match with_file v fd (fun f => mkFile (f_data f) (f_synced f) mode (f_gid f)) with Some v' => (Ok tt, (v', i)) | None => (Err (Errno EIO), s) end
  | Write fd data =>
      match i with
      | S i => (Err EINTR, (v, i))
      | O =>
          let n := Nat.min 4 (String.length data) in
          match with_file v fd (fun f => mkFile (f_data f +:+ stake n data) false (f_mode f) (f_gid f)) with
          | Some v' => (Ok n, (v', O))
          | None => (Err (Errno EIO), s)
          end
      end
  | Fsync true _ => (Ok tt, (set_hist [v_dir v] v, i))
  | Fsync false fd =>
      match with_file v fd (fun f => mkFile (f_data f) true (f_mode f) (f_gid f)) with Some v' => (Ok tt, (v', i)) | None => (Err (Errno EIO), s) end
  | Close fd => (Ok tt, (set_fds (delete fd (v_fds v)) v, i))
  | Linkat _ oldname newname =>
      match v_dir v !! oldname, v_dir v !! newname with
      | Some k, None => (Ok tt, (set_dir (<[newname := k]> (v_dir v)) v, i))
      | _, _ => (Err (Errno EEXIST), s)
      end
  | Unlinkat _ name =>
      match v_dir v !! name with
      | Some _ => (Ok tt, (add_gone name (set_dir (delete name (v_dir v)) v), i))
      | None => (Err (Errno ENOENT), (add_gone name (set_dir (delete name (v_dir v)) v), i))
      end
  end.

Definition linux_fails (o : sysop) (s : kernel) : sys_answer o * kernel :=
  (Err (Errno EIO), match o with Close fd => (set_fds (delete fd (v_fds s.1)) s.1, s.2) | _ => s end).
Definition sys_idle (s : kernel) : kernel := (idle s.1, s.2).
Notation sys_run := (Prog.run linux linux_fails sys_idle).

Lemma linux_does o s : kernel_does o s (linux o s).1 (linux o s).2.
Proof.
  destruct s as [v i]. destruct o as [path|fd name mode|fd|fd name|fd gid|fd mode|fd data|[] fd|fd|fd old new|fd name]; unfold kernel_does; cbn [linux fst snd].
  - cbn. split; [|done]. split; [apply next_fd_free|done].
  - destruct (v_dir v !! name) eqn:E; cbn; (split; [|done]); [done|]. exists (Dev (v_self v), next_ino v), mode, (Gid (v_self v)).
    split; [done|]. split; [apply next_fd_free|]. split; [apply next_ino_unused|].
    split; [unfold next_ino; pose proof (maximum_nonneg (map snd (seen_keys v))); cbn [snd]; lia|]. split; [apply Z.land_diag|done].
  - destruct (v_fds v !! fd) as [k|] eqn:E; [|done]. destruct (decide (k = key_of (v_self v))) as [->|Hk]; [destruct (decide _) as [Hm|Hm]; [done|]|]; cbn; (split; [|done]).
    + split; [done|]. split; [done|]. split; [done|]. intros f _ Hin. by destruct Hm.
    + rewrite key_of_stat. split; [done|]. split; [done|]. split; [done|]. intros f Hf _. unfold stat. by rewrite Hf.
  - destruct (v_dir v !! name) eqn:E; cbn; [|done]. by rewrite key_of_stat.
  - destruct (with_file _ _ _) as [v'|] eqn:E; cbn; [|done]. split; [by apply with_file_ok|done].
  - destruct (with_file _ _ _) as [v'|] eqn:E; cbn; [|done]. split; [by apply with_file_ok|done].
  - destruct i as [|i]; [|done]. destruct (with_file _ _ _) as [v'|] eqn:E; cbn [fst snd sys_view fruitless]; [|done].
    split; [split; [lia|by apply with_file_ok]|]. destruct data as [|c data]; [done|]. cbn [String.length]. by rewrite <- Nat.succ_min_distr.
  - done.
  - destruct (with_file _ _ _) as [v'|] eqn:E; cbn; [|done]. split; [by apply with_file_ok|done].
  - done.
  - destruct (v_dir v !! old) eqn:E1, (v_dir v !! new) eqn:E2; cbn; try done. split; [|done]. by eexists.
  - destruct (v_dir v !! name) eqn:E; cbn; (split; [|done]); [|done]. split; [by eexists|done].
Qed.

Lemma linux_fails_ok o s : kernel_does o s (linux_fails o s).1 (linux_fails o s).2.
Proof. destruct o; done. Qed.

Lemma sys_steps {A} (p : sys_prog A) plan s : rtc sys_step (p, s) (Ret (sys_run plan p s).1, (sys_run plan p s).2).
Proof. apply Prog.run_executes; [intros v; split; [apply idle_interferes|done]|apply linux_does|apply linux_fails_ok]. Qed.

(** What [init] promises, of the directory itself. The transaction runs on
    the Linux system calls, which may fail, be interrupted and write a little
    at a time, while other processes add entries.  No entry that was there is
    lost or replaced at any moment.  The program comes to a result, since no
    write loop runs out of turns; and when it reports success, the pepper, the
    users file and the configuration are at their names in every state a crash
    may leave, complete, synced, and in mode 0640 with the service group or
    in 0600 at most. *)
Theorem init_on_linux p args a n i v0 q s :
  NoDup (map temp (commit_files p args a) ++ map final (commit_files p args a)) ->
  v_mine v0 = ∅ -> v_gone v0 = ∅ -> v_fails v0 = 0%nat -> v_dir v0 ∈ v_hist v0 ->
  Forall (fun d => d <> "" /\ (String.length d + i <= n)%nat) [a_Pepper a; a_Users a; a_Config a] ->
  rtc sys_step (compile n (commitInitArtifacts p args a), (v0, i)) (q, s) ->
  v_dir v0 ⊆ v_dir s.1 /\
  forall r, q = Ret r -> exists e, r = Some e /\ (e = Ok tt -> forall d, crash s.1 d -> published_in p args a (v_self v0) (v_files s.1) d).
Proof.
  intros Hn Hm Hg Hf Hw Hd Hr. assert (reach (commitInitArtifacts p args a) v0 (commitInitArtifacts p args a) v0) as H0 by (exists v0, v0; split; [done|]; split; [done|by apply same_refl]).
  assert (shown (commitInitArtifacts p args a) v0 (v0, i)) as H1 by (by exists (commitInitArtifacts p args a)).
  pose proof (compile_simulates _ v0 n i _ (init_writes n i p args a Hd) (v0, i) (Nat.le_refl i) H0) as Ha.
  destruct (always_adequate _ _ _ _ _ _ _ _ Ha H1 Hr) as [(p' & va & vb & Hst & Hi & Hs) Hq].
  destruct (init_runs p args a v0 Hn Hm Hg Hf _ _ Hst) as [[Hsub _] _]. split.
  { rewrite <- (sm_dir _ _ Hs). etrans; [exact Hsub|by apply interferes_keeps]. }
  intros r ->. destruct Hq as (e & -> & va' & vb' & Hst' & Hi' & Hs'). exists e. split; [done|]. intros ->.
  destruct (init_runs p args a v0 Hn Hm Hg Hf _ _ Hst') as [_ Hend]. specialize (Hend _ eq_refl).
  apply (settled_published p args a v0 va' vb'); [exact Hend|by eapply steps_now|done|done].
Qed.

Module LinuxDemo.
Definition program : sys_prog (option (result commit_error unit)) := compile 16 (commitInitArtifacts CommitDemo.proc CommitDemo.args CommitDemo.artifacts).
Definition outcome (plan : list bool) := sys_run plan program (CommitDemo.start, 3%nat).
Definition names (plan : list bool) : list string := map fst (map_to_list (v_dir (outcome plan).2.1)).
Definition modes (plan : list bool) : list (string * option (string * bool * Z * Z)) :=
  let v := (outcome plan).2.1 in
  map (fun x => (x.1, match v_files v !! x.2 with Some f => Some (f_data f, f_synced f, f_mode f, f_gid f) | None => None end)) (map_to_list (v_dir v)).
(** The calls whose failure leaves something behind. *)
Definition leaky (k : nat) : bool := negb (bool_decide (names (CommitDemo.fails k) = ["README"])).
End LinuxDemo.

(** Forty-nine calls, three of them interrupted writes, publish the files. *)
Example linux_ex :
  ((LinuxDemo.outcome []).1, LinuxDemo.modes [], forallb (fun k => match (LinuxDemo.outcome (CommitDemo.fails k)).1 with Some r => negb (is_ok r) | None => false end) (seq 0 49))
  = (Some (Ok tt), [("config.yaml", Some ("version: 1", true, 416, 123)); ("users.yaml", Some ("users: []", true, 416, 123));
                    ("auth.pepper", Some ("pepper", true, 416, 123)); ("README", None)], true).
Proof. vm_compute. reflexivity. Qed.

(** [createInDir] closes the file it cannot stat but does not remove it, and
    tells no one of it: the failure of one of the three [fstat] calls, and of
    no other call, leaves a temporary file behind. *)
Theorem unstatted_file_left :
  List.filter LinuxDemo.leaky (seq 0 49) = [7; 11; 15]%nat /\
  LinuxDemo.names (CommitDemo.fails 7) = [".mellomting-init-7-pepper.tmp"; "README"].
Proof. vm_compute. done. Qed.

Lemma demo_fits i : (i <= 3)%nat -> Forall (fun d => d <> "" /\ (String.length d + i <= 16)%nat)
  [a_Pepper CommitDemo.artifacts; a_Users CommitDemo.artifacts; a_Config CommitDemo.artifacts].
Proof. intros Hi. do 3 (constructor; [split; [done|cbn; lia]|]). constructor. Qed.

Lemma production_refines_witness : exists va vb,
  rtc step (commitInitArtifacts CommitDemo.proc CommitDemo.args CommitDemo.artifacts, CommitDemo.start) (Ret (Ok tt), va) /\
  interferes va vb /\ same vb (LinuxDemo.outcome []).2.1.
Proof.
  assert (Hok : (LinuxDemo.outcome []).1 = Some (Ok tt)) by (vm_compute; reflexivity).
  destruct (production_refines (commitInitArtifacts CommitDemo.proc CommitDemo.args CommitDemo.artifacts) 16 3 CommitDemo.start _ _
    ltac:(by left) (init_writes 16 3 CommitDemo.proc CommitDemo.args CommitDemo.artifacts (demo_fits 3 (le_n 3)))
    (sys_steps LinuxDemo.program [] (CommitDemo.start, 3%nat))) as [_ H].
  destruct (H _ eq_refl) as (a & va & vb & Ha & Hrest). unfold LinuxDemo.outcome in *. rewrite Hok in Ha. injection Ha as <-. exists va, vb. exact Hrest.
Defined.

Lemma init_on_linux_witness : forall d, crash (LinuxDemo.outcome []).2.1 d ->
  published_in CommitDemo.proc CommitDemo.args CommitDemo.artifacts (v_self CommitDemo.start) (v_files (LinuxDemo.outcome []).2.1) d.
Proof.
  assert (Hok : (LinuxDemo.outcome []).1 = Some (Ok tt)) by (vm_compute; reflexivity).
  assert (Hn : NoDup (map temp (commit_files CommitDemo.proc CommitDemo.args CommitDemo.artifacts) ++
      map final (commit_files CommitDemo.proc CommitDemo.args CommitDemo.artifacts)))
    by (apply (bool_decide_unpack _); vm_compute; exact I).
  destruct (init_on_linux CommitDemo.proc CommitDemo.args CommitDemo.artifacts 16 3 CommitDemo.start _ _ Hn eq_refl eq_refl eq_refl
    ltac:(by left) (demo_fits 3 (le_n 3)) (sys_steps LinuxDemo.program [] (CommitDemo.start, 3%nat))) as [_ H].
  destruct (H _ eq_refl) as (e & He & Hd). unfold LinuxDemo.outcome in *. rewrite Hok in He. injection He as <-. exact (Hd eq_refl).
Defined.
