(* ===== verification/Outbound.v ===== *)
(** * The request body on its way out: [internal/proxy/proxy.go]

    The operation table, the shallow parse of the body, the output cap and
    usage injection, and the single canonical encoding a backend receives;
    with the response-side readers of ids and usage-only chunks. *)

From Stdlib Require Import Ascii.
From stdpp Require Import sorting.
From S2P Require Import Prelude GoStrings Json JsonFacts.

(** ** Operations *)

(* src: internal/proxy/proxy.go routeKind *)
Inductive routeKind := routeByModel | routeByResponseID.
#[export] Instance routeKind_eq_dec : EqDecision routeKind.
Proof. solve_decision. Defined.

(* src: internal/proxy/proxy.go operation *)
Record operation := mkOp {
  op_path : string; op_method : string; op_route : routeKind; op_capture : bool; op_endpoint : string;
  capField : string; altCapField : string }.

(* src: internal/proxy/proxy.go operation.generative *)
Definition generative (o : operation) : bool := negb (String.eqb (capField o) "").
(* src: internal/proxy/proxy.go operation.consumesUsage *)
Definition consumesUsage (o : operation) : bool := bool_decide (op_route o = routeByModel).

(* src: internal/proxy/proxy.go 91-91 opChat *)
Definition opChat : operation :=
  mkOp "/v1/chat/completions" "POST" routeByModel false "chat.completions" "max_completion_tokens" "max_tokens".
(* src: internal/proxy/proxy.go 92-92 opLegacy *)
Definition opLegacy : operation := mkOp "/v1/completions" "POST" routeByModel false "completions" "max_tokens" "".
(* src: internal/proxy/proxy.go 93-93 opEmbed *)
Definition opEmbed : operation := mkOp "/v1/embeddings" "POST" routeByModel false "embeddings" "" "".
(* src: internal/proxy/proxy.go 94-94 opResp *)
Definition opResp : operation := mkOp "/v1/responses" "POST" routeByModel true "responses" "max_output_tokens" "".
(* src: internal/proxy/proxy.go 95-95 opRespGet *)
Definition opRespGet : operation := mkOp "/v1/responses" "GET" routeByResponseID false "responses" "" "".
(* src: internal/proxy/proxy.go 96-96 opRespCancel *)
Definition opRespCancel : operation := mkOp "/v1/responses" "POST" routeByResponseID false "responses" "" "".
Definition operations : list operation := [opChat; opLegacy; opEmbed; opResp; opRespGet; opRespCancel].

(** ** Parsing *)

Inductive parse_error := errJSON | errMissingModel | errModelNotString.

(* src: internal/proxy/proxy.go shallowParse *)
Definition shallowParse (body : string) : result parse_error (fields * string * bool) :=
  if String.eqb body "" then Err errMissingModel
  else match json_parse body with
  | None => Err errJSON
  | Some v =>
      match decode_map v with
      | None | Some None => Err errJSON
      | Some (Some f) =>
          match f !! "model" with
          | None => Err errMissingModel
          | Some rawModel =>
              match decode_string "" rawModel with
              | None => Err errModelNotString
              | Some model =>
                  if String.eqb model "" then Err errModelNotString
                  else
                    let stream := match f !! "stream" with
                                  | Some rawStream => default false (decode_bool false rawStream)
                                  | None => false
                                  end in
                    Ok (f, model, stream)
              end
          end
      end
  end.

Inductive encode_error := errNoUpstreamModel.
(** The map is shared by the attempts of a request; each sets the model and
    encodes. *)
(* src: internal/proxy/proxy.go encodeOutbound *)
Definition encodeOutbound (f : fields) (upstream : string) : result encode_error (fields * string) :=
  if String.eqb upstream "" then Err errNoUpstreamModel
  else let f := <["model" := marshal_string upstream]> f in Ok (f, encode_map f).

Definition id_char (c : ascii) : bool :=
  is_lower c || is_upper c || is_digit c || Ascii.eqb c "_"%char || Ascii.eqb c "-"%char.
(** Over runes in the source; every byte of a rune beyond ASCII is refused
    as the rune is. *)
(* src: internal/proxy/proxy.go isValidResponseID *)
Definition isValidResponseID (id : string) : bool :=
  if (slen id =? 0) || (256 <? slen id) then false else sforall id_char id.

(* src: internal/proxy/proxy.go stringField *)
Definition stringField (f : fields) (field : string) : option string :=
  match f !! field with
  | None => None
  | Some raw =>
      match decode_string "" raw with
      | None => None
      | Some s => if String.eqb s "" then None else Some s
      end
  end.

(* src: internal/proxy/proxy.go maxLoggedModelLen *)
Definition maxLoggedModelLen : Z := 128.
(* src: internal/proxy/proxy.go logModel *)
Definition logModel (m : string) : string :=
  if maxLoggedModelLen <? slen m then stake (Z.to_nat maxLoggedModelLen) m else m.

(* src: internal/proxy/proxy.go topLevelID *)
Definition topLevelID (body : string) : string :=
  match json_parse body with
  | None => ""
  | Some v =>
      match decode_map v with
      | None => ""
      | Some f => default "" (stringField (default ∅ f) "id")
      end
  end.

(* src: internal/proxy/proxy.go responseIDFromData *)
Definition responseIDFromData (data : string) : string :=
  match json_parse data with
  | None => ""
  | Some v =>
      match decode_struct v with
      | None => ""
      | Some m =>
          match string_field "type" m, string_field "id" m with
          | Some _, Some id =>
              let nested :=
                match raw_field "response" m with
                | Some r => match decode_struct r with
                            | Some m' => default "" (string_field "id" m')
                            | None => ""
                            end
                | None => ""
                end in
              if negb (String.eqb nested "") then nested else id
          | _, _ => ""
          end
      end
  end.

(** [Choices []json.RawMessage]: how many there are; each array of the text
    replaces the one before. *)
Definition decode_count (acc : nat) (v : json) : option nat :=
  match v with JArr l => Some (length l) | JNull => Some 0%nat | _ => None end.
(* src: internal/proxy/proxy.go isUsageOnlyChunk *)
Definition isUsageOnlyChunk (data : string) : bool :=
  match json_parse data with
  | None => false
  | Some v =>
      match decode_struct v with
      | None => false
      | Some m =>
          match decode_field decode_count 0%nat "choices" m with
          | None => false
          | Some n =>
              (n =? 0)%nat && match raw_field "usage" m with None | Some JNull => false | Some _ => true end
          end
      end
  end.

(** ** Output limits *)

Inductive cap_error := errCapExceeded | errCapInvalid.

(** [Ok None]: absent; [Ok (Some v)]: present and within the cap. *)
(* src: internal/proxy/proxy.go tokenLimit *)
Definition tokenLimit (f : fields) (name : string) (cap : Z) : result cap_error (option Z) :=
  match f !! name with
  | None => Ok None
  | Some raw =>
      match decode_number raw with
      | None => Err errCapInvalid
      | Some num =>
          match parse_int64 num with
          | None => Err errCapInvalid
          | Some n => if n <? 0 then Err errCapInvalid
                      else if cap <? n then Err errCapExceeded else Ok (Some n)
          end
      end
  end.

(** The stream options a client sent, empty when they do not decode. *)
Definition stream_options (f : fields) : fields :=
  match f !! "stream_options" with
  | Some raw => match decode_map raw with Some (Some m) => m | _ => ∅ end
  | None => ∅
  end.
Definition wants_usage (so : fields) : bool :=
  match so !! "include_usage" with Some raw => default false (decode_bool false raw) | None => false end.
(* src: internal/proxy/proxy.go injectStreamUsage *)
Definition injectStreamUsage (f : fields) : fields * bool :=
  let so := stream_options f in
  if wants_usage so then (f, false)
  else (<["stream_options" := marshal_map (<["include_usage" := JBool true]> so)]> f, true).

(** The body, the reservation, whether usage was injected. *)
(* src: internal/proxy/proxy.go prepareOutbound *)
Definition prepareOutbound (f : fields) (o : operation) (cap : Z) (stream ensureUsage : bool) (configuredReservation : Z)
    : result cap_error (fields * Z * bool) :=
  if String.eqb (capField o) "" && negb (stream && ensureUsage) then Ok (f, configuredReservation, false)
  else
    let? f :=
      (if negb (String.eqb (capField o) "") && (0 <? cap) then
         let? p := tokenLimit f (capField o) cap in
         let? a := (if negb (String.eqb (altCapField o) "") then tokenLimit f (altCapField o) cap else Ok None) in
         let limitSet := match p, a with None, None => false | _, _ => true end in
         Ok (if limitSet then f else <[capField o := marshal_int cap]> f)
       else Ok f) in
    let reservation := if 0 <? configuredReservation then configuredReservation else cap in
    let '(f, injected) :=
      if stream && ensureUsage &&
         (String.eqb (op_endpoint o) "chat.completions" || String.eqb (op_endpoint o) "completions")
      then injectStreamUsage f else (f, false) in
    Ok (f, reservation, injected).

(** ** The canonical body *)

Lemma shallowParse_ok body f model stream : shallowParse body = Ok (f, model, stream) ->
  exists v, json_parse body = Some v /\ decode_map v = Some (Some f) /\ fields_wf f /\
    model <> "" /\ stringField f "model" = Some model.
Proof.
  unfold shallowParse. destruct (String.eqb body ""); [done|].
  destruct (json_parse body) as [v|] eqn:Ev; [|done].
  destruct (decode_map v) as [[f'|]|] eqn:Ef; [|done..].
  destruct (f' !! "model") as [raw|] eqn:Em; [|done].
  destruct (decode_string "" raw) as [m|] eqn:Ed; [|done].
  destruct (String.eqb_spec m "") as [|Hne]; [done|]. intros [= <- <- _].
  exists v. split; [done|]. split; [done|]. split; [by eapply decode_map_wf|]. split; [done|].
  unfold stringField. rewrite Em, Ed. by rewrite (proj2 (String.eqb_neq _ _) Hne).
Qed.

Lemma map_of_values m k v : map_of m !! k = Some v -> exists k', (k', v) ∈ m.
Proof.
  unfold map_of. assert (forall acc : fields,
    fold_left (fun acc kv => <[unquote kv.1 := kv.2]> acc) m acc !! k = Some v -> acc !! k = Some v \/ exists k', (k', v) ∈ m).
  { induction m as [|[k1 v1] m IH]; intros acc; cbn; [auto|]. intros [H|[k' H]]%IH; [|right; exists k'; by right].
    apply lookup_insert_Some in H as [[_ <-]|[_ H]]; [right; exists k1; by left|by left]. }
  intros [E|?]%H; [|done]. by rewrite lookup_empty in E.
Qed.

Lemma stream_options_wf f : fields_wf f ->
  json_wf (maxNestingDepth - 1) (marshal_map (<["include_usage" := JBool true]> (stream_options f))).
Proof.
  intros Hf. unfold stream_options. apply marshal_map_wf; [done|]. intros k v [[_ <-]|[_ H]]%lookup_insert_Some; [constructor|].
  destruct (f !! "stream_options") as [raw|] eqn:Er; [|by rewrite lookup_empty in H].
  destruct raw as [| | | | |m]; cbn in H; try by rewrite lookup_empty in H.
  apply Hf in Er as [_ Hw]. inversion Hw as [| | | | |? ? _ Hm]; subst.
  apply map_of_values in H as [k' Hin]. rewrite Forall_forall in Hm. by apply (Hm (k', v)).
Qed.

(** The limit fields of the table. *)
Lemma operations_fields o : o ∈ operations ->
  valid_utf8 (capField o) = true /\ capField o <> "stream_options" /\ altCapField o <> "stream_options" /\
  (capField o <> "" -> altCapField o <> capField o).
Proof.
  unfold operations. rewrite !elem_of_cons, elem_of_nil. intros Ho. destruct_or! Ho; subst; done.
Qed.

(** What [prepareOutbound] can change. *)
Lemma prepareOutbound_frame f o cap stream ensure res f' r inj :
  prepareOutbound f o cap stream ensure res = Ok (f', r, inj) -> o ∈ operations -> fields_wf f ->
  fields_wf f' /\ forall k, k <> capField o -> k <> "stream_options" -> f' !! k = f !! k.
Proof.
  unfold prepareOutbound. intros H Ho Hf. destruct (_ && _); [by injection H as <- <- <-|].
  destruct (if negb (String.eqb (capField o) "") && (0 <? cap) then _ else Ok f) as [f1|] eqn:E1; [|done].
  assert (fields_wf f1 /\ forall k, k <> capField o -> f1 !! k = f !! k) as [Hf1 Hfr1].
  { destruct (_ && _); [|by injection E1 as <-].
    destruct (tokenLimit f (capField o) cap); [|done].
    destruct (if negb (String.eqb (altCapField o) "") then _ else _); [|done]. injection E1 as <-.
    repeat case_match; try done; (split; [|intros; by rewrite lookup_insert_ne]);
      apply fields_wf_insert; try done; first [by apply operations_fields|by apply marshal_int_wf]. }
  destruct (_ && _ && _); [|injection H as <- _ _; auto].
  unfold injectStreamUsage in H. destruct (wants_usage _); injection H as <- _ _; [auto|].
  split; [|intros; rewrite lookup_insert_ne by done; auto].
  apply fields_wf_insert; [done..|]. by apply stream_options_wf.
Qed.

Lemma prepareOutbound_reservation f o cap stream ensure res f' r inj :
  prepareOutbound f o cap stream ensure res = Ok (f', r, inj) -> r = res \/ r = (if 0 <? res then res else cap).
Proof.
  unfold prepareOutbound. destruct (_ && _); [intros [= _ <- _]; by left|].
  destruct (if negb (String.eqb (capField o) "") && (0 <? cap) then _ else Ok f) as [f1|]; [|done].
  destruct (stream && ensure && _); [destruct (injectStreamUsage f1)|]; intros [= _ <- _]; by right.
Qed.

(** C7: A backend sees the one model the access check approved.  For a body
    that parses, with whatever duplicate, escaped or differently cased keys:
    the text sent decodes to an object whose keys are pairwise different; its
    model is the upstream name, both for a reader that matches keys exactly
    and for one that ignores case and lets the last match win, as Go's own
    decoder does; every other field except the output limit and the stream
    options is the client's, value for value.  (A client's 'Model' is such a
    field, sent before 'model': nothing is claimed of a reader that ignores
    case and takes the first match.) *)
Theorem outbound_canonical body f model stream o cap ensure res f1 r inj upstream f2 text :
  shallowParse body = Ok (f, model, stream) -> o ∈ operations ->
  prepareOutbound f o cap stream ensure res = Ok (f1, r, inj) ->
  valid_utf8 upstream = true -> encodeOutbound f1 upstream = Ok (f2, text) ->
  exists m, json_parse text = Some (JObj m) /\ decode_map (JObj m) = Some (Some f2) /\
    NoDup (map (fun kv => unquote kv.1) m) /\
    stringField f2 "model" = Some upstream /\
    raw_field "model" m = Some (marshal_string upstream) /\
    (forall k, k <> "model" -> k <> capField o -> k <> "stream_options" -> f2 !! k = f !! k).
Proof.
  intros Hp Ho Hprep Hu Henc. apply shallowParse_ok in Hp as (_ & _ & _ & Hf & _ & _).
  destruct (prepareOutbound_frame _ _ _ _ _ _ _ _ _ Hprep Ho Hf) as [Hf1 Hframe].
  unfold encodeOutbound in Henc. destruct (String.eqb_spec upstream "") as [|Hne]; [done|]. injection Henc as <- <-.
  assert (fields_wf (<["model" := marshal_string upstream]> f1)) as Hf2.
  { apply fields_wf_insert; [done..|]. constructor. apply quote_wf. }
  destruct (encode_map_roundtrip _ Hf2) as [Hparse Hdec].
  destruct (raw_field_sorted "model" _ (marshal_string upstream) eq_refl Hf2 (lookup_insert_eq _ _ _)) as (m & Em & Hraw & Hnd).
  rewrite Em in *. exists m. split_and!; try done.
  - unfold stringField. rewrite lookup_insert_eq. cbn. rewrite unquote_quote by done.
    by rewrite (proj2 (String.eqb_neq _ _) Hne).
  - intros k Hk Hc Hs. rewrite lookup_insert_ne by done. by apply Hframe.
Qed.

(** ** The output cap *)

Lemma tokenLimit_ok f name cap x : tokenLimit f name cap = Ok x ->
  match x with
  | None => f !! name = None
  | Some n => 0 <= n <= cap /\ exists raw num, f !! name = Some raw /\ decode_number raw = Some num /\ parse_int64 num = Some n
  end.
Proof.
  unfold tokenLimit. destruct (f !! name) as [raw|] eqn:Er; [|by intros [= <-]].
  destruct (decode_number raw) as [num|] eqn:En; [|done]. destruct (parse_int64 num) as [n|] eqn:Ei; [|done].
  destruct (Z.ltb_spec n 0); [done|]. destruct (Z.ltb_spec cap n); [done|]. intros [= <-].
  split; [lia|]. eauto.
Qed.

(** The output limit a request carries: each limit field that is present
    holds an integer within the cap. *)
Definition capped (o : operation) (cap : Z) (f : fields) : Prop :=
  forall name raw, name ∈ [capField o; altCapField o] -> name <> "" -> f !! name = Some raw ->
  exists num n, decode_number raw = Some num /\ parse_int64 num = Some n /\ 0 <= n <= cap.

(** A limit that is refused is not within the cap; one that is read is. *)
Lemma limit_refused f o cap n e : n ∈ [capField o; altCapField o] -> n <> "" -> tokenLimit f n cap = Err e -> ~ capped o cap f.
Proof.
  intros Hn Hne. unfold tokenLimit. destruct (f !! n) as [raw|] eqn:Er; [|done]. intros Ht Hc.
  destruct (Hc n raw Hn Hne Er) as (num & z & Hd & Hz & Hr). rewrite Hd, Hz in Ht.
  destruct (Z.ltb_spec z 0); [lia|]. destruct (Z.ltb_spec cap z); [lia|done].
Qed.
Lemma limit_within f cap n x : tokenLimit f n cap = Ok x -> forall raw, f !! n = Some raw ->
  exists num z, decode_number raw = Some num /\ parse_int64 num = Some z /\ 0 <= z <= cap.
Proof.
  intros Hx raw Hr. apply tokenLimit_ok in Hx. destruct x as [z|]; [|congruence]. destruct Hx as (Hz & raw' & num & Hr' & ? & ?). simplify_eq. eauto.
Qed.

(** C38: The output cap holds and is honest. For a generating operation on a
    model with a cap, a request is either refused, which happens exactly when
    a limit the client gave is malformed, negative or above the cap; or it is
    sent with at least one limit, with every limit an integer within the cap,
    and with every limit the client gave left as it was. The reservation is
    the configured one or else the cap, whatever the client asked for. *)
Theorem output_cap_enforced f o cap stream ensure res :
  o ∈ operations -> generative o = true -> 0 < cap <= MaxInt64 ->
  match prepareOutbound f o cap stream ensure res with
  | Err e => ~ capped o cap f
  | Ok (f', r, _) =>
      capped o cap f /\ capped o cap f' /\
      (exists name, name ∈ [capField o; altCapField o] /\ name <> "" /\ is_Some (f' !! name)) /\
      (forall name raw, name ∈ [capField o; altCapField o] -> f !! name = Some raw -> f' !! name = Some raw) /\
      r = (if 0 <? res then res else cap)
  end.
Proof.
  intros Ho Hgen Hcap. unfold prepareOutbound. unfold generative in Hgen. rewrite Hgen.
  destruct (String.eqb_spec (capField o) "") as [|Hcf]; [done|]. cbn [andb negb].
  destruct (Z.ltb_spec 0 cap); [|lia].
  assert (capField o <> "stream_options" /\ altCapField o <> "stream_options" /\ altCapField o <> capField o) as (Hso1 & Hso2 & Hac).
  { apply operations_fields in Ho as (_ & ? & ? & ?). auto. }
  pose proof (limit_refused f o cap) as Herr. pose proof (limit_within f cap) as Hok.
  destruct (tokenLimit f (capField o) cap) as [p|e] eqn:Ep; [|eapply Herr; [by left|done..]].
  set (alt := if negb (String.eqb (altCapField o) "") then tokenLimit f (altCapField o) cap else Ok None).
  destruct alt as [a|e] eqn:Ea; [|unfold alt in Ea; destruct (String.eqb_spec (altCapField o) ""); [done|];
    eapply Herr; [by right; left|done..]].
  assert (capped o cap f) as Hcf0.
  { intros name raw Hn Hne. rewrite !elem_of_cons, elem_of_nil in Hn. destruct Hn as [->|[->|[]]]; [by eapply Hok|].
    unfold alt in Ea. destruct (String.eqb_spec (altCapField o) ""); [done|]. by eapply Hok. }
  set (f1 := if match p, a with None, None => false | _, _ => true end then f else <[capField o := marshal_int cap]> f).
  assert (capped o cap f1 /\ (exists name, name ∈ [capField o; altCapField o] /\ name <> "" /\ is_Some (f1 !! name)) /\
    (forall name raw, name ∈ [capField o; altCapField o] -> f !! name = Some raw -> f1 !! name = Some raw))
    as (Hc1 & Hex & Hkeep).
  { apply tokenLimit_ok in Ep as Hp. subst f1. destruct p as [z|].
    - split; [done|]. split; [|done]. destruct Hp as (_ & raw & _ & Hr & _). exists (capField o). split; [by left|]. eauto.
    - destruct a as [z|].
      + split; [done|]. split; [|done]. unfold alt in Ea. destruct (String.eqb_spec (altCapField o) ""); [done|].
        apply tokenLimit_ok in Ea as (_ & raw & _ & Hr & _). exists (altCapField o). split; [by right; left|]. eauto.
      + split; [|split].
        * intros name raw Hn Hne [[<- <-]|[Hx Hr]]%lookup_insert_Some; [|by eapply Hcf0].
          destruct (parse_int64_dec cap) as (lit & El & Hl); [int64_unfold; lia|].
          rewrite El. exists lit, cap. split; [done|]. split; [done|lia].
        * exists (capField o). split; [by left|]. split; [done|]. rewrite lookup_insert_eq. eauto.
        * intros name raw Hn Hr. rewrite lookup_insert_ne by (intros <-; congruence). done. }
  cbn zeta. unfold f1 in *. clear f1. cbn iota.
  destruct (stream && ensure && _); [|split_and!; done].
  unfold injectStreamUsage. destruct (wants_usage _); [split_and!; done|].
  assert (forall name v (g : fields), name ∈ [capField o; altCapField o] -> <["stream_options" := v]> g !! name = g !! name) as Hins.
  { intros name v g Hn. apply lookup_insert_ne. intros <-. rewrite !elem_of_cons, elem_of_nil in Hn. naive_solver. }
  split_and!; try done.
  - intros name raw Hn Hne. rewrite Hins by done. by apply Hc1.
  - destruct Hex as (name & Hn & Hne & Hs). exists name. by rewrite Hins.
  - intros name raw Hn Hr. rewrite Hins by done. by apply Hkeep.
Qed.

Module OutboundDemo.
(** Two models, one of them escaped: the last one counts. *)
Definition body : string := js "{'mo\u0064el':'secret','Model':'other','model':'m','stream':true,'n':1}".
Definition f : fields := match shallowParse body with Ok (f, _, _) => f | Err _ => ∅ end.
Definition f1 : fields := match prepareOutbound f opChat 100 true true 0 with Ok (f, _, _) => f | Err _ => ∅ end.
Definition f2 : fields := match encodeOutbound f1 "qwen" with Ok (f, _) => f | Err _ => ∅ end.
Definition text : string :=
  js "{'Model':'other','max_completion_tokens':100,'model':'qwen','n':1,'stream':true,'stream_options':{'include_usage':true}}".
End OutboundDemo.

Lemma outbound_canonical_witness :
  exists m, json_parse OutboundDemo.text = Some (JObj m) /\ raw_field "model" m = Some (marshal_string "qwen").
Proof.
  assert (H1 : shallowParse OutboundDemo.body = Ok (OutboundDemo.f, "m", true)) by (vm_compute; reflexivity).
  assert (H2 : prepareOutbound OutboundDemo.f opChat 100 true true 0 = Ok (OutboundDemo.f1, 100, true)) by (vm_compute; reflexivity).
  assert (H3 : encodeOutbound OutboundDemo.f1 "qwen" = Ok (OutboundDemo.f2, OutboundDemo.text)) by (vm_compute; reflexivity).
  assert (Ho : opChat ∈ operations) by (left; reflexivity).
  destruct (outbound_canonical _ _ _ _ _ _ _ _ _ _ _ _ _ _ H1 Ho H2 (eq_refl : valid_utf8 "qwen" = true) H3) as (m & Hp & _ & _ & _ & Hr & _).
  exists m. split; [exact Hp|exact Hr].
Defined.

Lemma output_cap_enforced_witness :
  capped opChat 100 OutboundDemo.f1 /\
  match prepareOutbound (<["max_tokens" := marshal_int 101]> OutboundDemo.f) opChat 100 true true 0 with
  | Ok _ => False
  | Err _ => ~ capped opChat 100 (<["max_tokens" := marshal_int 101]> OutboundDemo.f)
  end.
Proof.
  assert (Ho : opChat ∈ operations) by (left; reflexivity).
  assert (Hc : 0 < 100 <= MaxInt64) by (split; [lia|vm_compute; discriminate]).
  split.
  - pose proof (output_cap_enforced OutboundDemo.f opChat 100 true true 0 Ho eq_refl Hc) as H.
    assert (H2 : prepareOutbound OutboundDemo.f opChat 100 true true 0 = Ok (OutboundDemo.f1, 100, true)) by (vm_compute; reflexivity).
    rewrite H2 in H. apply H.
  - pose proof (output_cap_enforced (<["max_tokens" := marshal_int 101]> OutboundDemo.f) opChat 100 true true 0 Ho eq_refl Hc) as H.
    assert (H2 : prepareOutbound (<["max_tokens" := marshal_int 101]> OutboundDemo.f) opChat 100 true true 0 = Err errCapExceeded)
      by (vm_compute; reflexivity).
    rewrite H2 in H |- *. exact H.
Defined.
