(* ===== verification/Routes.v ===== *)
(** * The route table: [internal/httpapi/server.go]

    Which method and path reach which handler, and what every other request
    gets. *)

From Stdlib Require Import Ascii.
From S2P Require Import Prelude GoStrings Outbound.

(** ** Routes *)

(* src: internal/httpapi/server.go isSafeSegment *)
Definition isSafeSegment (seg : string) : bool :=
  if (slen seg =? 0) || (256 <? slen seg) then false
  else sforall (fun r => is_lower r || is_upper r || is_digit r || Ascii.eqb r "_"%char || Ascii.eqb r "-"%char) seg.

(** The id and whether the path ends in [/cancel]. *)
(* src: internal/httpapi/server.go Server.responsesID *)
Definition responsesID (path : string) : option (string * bool) :=
  let rest := trim_prefix "/v1/responses/" path in
  let '(rest, cancel) := match cut_suffix "/cancel" rest with Some before => (before, true) | None => (rest, false) end in
  if negb (isSafeSegment rest) then None else Some (rest, cancel).

(* src: internal/httpapi/server.go Server.allowFor *)
Definition allowFor (path : string) : string :=
  if String.eqb path "/v1/models" then "GET"
  else if String.eqb path "/v1/responses" then "POST"
  else if String.eqb path "/v1/chat/completions" || String.eqb path "/v1/completions" || String.eqb path "/v1/embeddings"
       || String.eqb path "/healthz" || String.eqb path "/readyz" then
    if String.eqb path "/v1/chat/completions" || String.eqb path "/v1/completions" || String.eqb path "/v1/embeddings"
    then "POST" else "GET"
  else if has_prefix "/v1/responses/" path then
    let rest := trim_prefix "/v1/responses/" path in
    let cancel := has_suffix "/cancel" rest in
    let rest := if cancel then trim_suffix "/cancel" rest else rest in
    if negb (isSafeSegment rest) then "" else if cancel then "POST" else "GET"
  else "".

(** Where a request goes: a health endpoint, before any limit; the model
    list; an operation of the proxy with the response id of its path; an
    error. *)
Inductive endpoint :=
| EHealthz | EReadyz
| EModels
| EProxy (o : operation) (responseID : string)
| EBadMethod (allow : string)
| ENotFound.
#[export] Instance operation_eq_dec : EqDecision operation.
Proof. solve_decision. Defined.
#[export] Instance endpoint_eq_dec : EqDecision endpoint.
Proof. solve_decision. Defined.

(* src: internal/httpapi/server.go 227-240 routeBody *)
Definition health_route (method path : string) : option endpoint :=
  if String.eqb method "GET" then
    if String.eqb path "/healthz" then Some EHealthz
    else if String.eqb path "/readyz" then Some EReadyz
    else None
  else None.

(** After the explicit routes: a known path with another method is a 405. *)
Definition fallback (path : string) : endpoint :=
  let allow := allowFor path in
  if negb (String.eqb allow "") then EBadMethod allow else ENotFound.

(* src: internal/httpapi/server.go 304-348 routeBody *)
Definition inference_route (method path : string) : endpoint :=
  let is_get := String.eqb method "GET" in
  let is_post := String.eqb method "POST" in
  if is_get && String.eqb path "/v1/models" then EModels
  else if is_post && String.eqb path "/v1/chat/completions" then EProxy opChat ""
  else if is_post && String.eqb path "/v1/completions" then EProxy opLegacy ""
  else if is_post && String.eqb path "/v1/embeddings" then EProxy opEmbed ""
  else if is_post && String.eqb path "/v1/responses" then EProxy opResp ""
  else if has_prefix "/v1/responses/" path then
    match responsesID path with
    | Some (id, cancel) =>
        if is_get && negb cancel then EProxy opRespGet id
        else if is_post && cancel then EProxy opRespCancel id
        else fallback path
    | None => fallback path
    end
  else fallback path.

Definition route (method path : string) : endpoint :=
  match health_route method path with Some e => e | None => inference_route method path end.

(** ** The table is exact *)

(** A request that reaches a handler. *)
Definition served (e : endpoint) : Prop :=
  match e with EBadMethod _ | ENotFound => False | _ => True end.

Lemma isSafeSegment_valid seg : isSafeSegment seg = isValidResponseID seg.
Proof. reflexivity. Qed.

(** [strings.CutSuffix] cuts exactly the suffix. *)
Lemma cut_suffix_app p s t : cut_suffix p s = Some t <-> s = t +:+ p.
Proof.
  unfold cut_suffix, has_suffix.
  assert (Hsplit : forall n s, s = stake n s +:+ sdrop n s).
  { clear. induction n as [|n IH]; intros [|c s]; [done..|]. cbn. f_equal. apply IH. }
  split.
  - destruct (_ && _) eqn:E; [|done]. apply andb_true_iff in E as [_ E%String.eqb_eq]. intros [= <-].
    rewrite <- E at 2. apply Hsplit.
  - intros ->. rewrite slen_app. assert ((String.length p <=? String.length t + String.length p)%nat = true) as ->
      by (apply Nat.leb_le; lia).
    replace (String.length t + String.length p - String.length p)%nat with (String.length t) by lia.
    by rewrite sdrop_app, stake_app, String.eqb_refl.
Qed.


(** The methods are told apart by the two the program serves. *)
Ltac by_method m :=
  destruct (String.eqb_spec m "GET") as [->|?]; [|destruct (String.eqb_spec m "POST") as [->|?]].

Lemma responsesID_spec path id cancel : has_prefix "/v1/responses/" path = true ->
  responsesID path = Some (id, cancel) <->
  isValidResponseID id = true /\ path = "/v1/responses/" +:+ id +:+ (if cancel then "/cancel" else "").
Proof.
  intros Hp. unfold responsesID. apply has_prefix_inv in Hp. set (rest := sdrop _ path) in Hp. clearbody rest. subst path.
  rewrite trim_prefix_app. assert (Hinj : forall (p a b : string), p +:+ a = p +:+ b -> a = b).
  { induction p as [|c p IH]; intros a b; [done|]. cbn. intros [= E]. by apply IH. }
  split.
  - destruct (cut_suffix "/cancel" rest) as [before|] eqn:Ec; rewrite isSafeSegment_valid.
    + apply cut_suffix_app in Ec as ->. destruct (isValidResponseID before) eqn:Ev; [|done]. by intros [= <- <-].
    + destruct (isValidResponseID rest) eqn:Ev; [|done]. intros [= <- <-]. by rewrite sapp_nil_r.
  - intros [Hv ->%Hinj]. destruct cancel.
    + destruct (cut_suffix "/cancel" (id +:+ "/cancel")) as [t|] eqn:Ec.
      * assert (cut_suffix "/cancel" (id +:+ "/cancel") = Some id) as E by (by apply cut_suffix_app).
        rewrite E in Ec. injection Ec as <-. by rewrite isSafeSegment_valid, Hv.
      * assert (cut_suffix "/cancel" (id +:+ "/cancel") = Some id) as E by (by apply cut_suffix_app). congruence.
    + rewrite sapp_nil_r. destruct (cut_suffix "/cancel" id) as [t|] eqn:Ec; [|by rewrite isSafeSegment_valid, Hv].
      apply cut_suffix_app in Ec as ->. unfold isValidResponseID in Hv. destruct (_ || _); [done|].
      rewrite sforall_app in Hv. by destruct (sforall id_char t).
Qed.

Lemma allowFor_responses path : has_prefix "/v1/responses/" path = true ->
  allowFor path = match responsesID path with
                  | Some (_, cancel) => if cancel then "POST" else "GET"
                  | None => ""
                  end.
Proof.
  intros Hp. unfold allowFor, responsesID, trim_suffix.
  repeat match goal with |- context [String.eqb path ?w] =>
    destruct (String.eqb_spec path w) as [->|?]; [discriminate Hp|] end.
  rewrite Hp. cbn [orb]. unfold cut_suffix. destruct (has_suffix _ _); destruct (isSafeSegment _); done.
Qed.

(** Paths under [/v1/responses/] are none of the literal ones. *)
Lemma route_responses m path : has_prefix "/v1/responses/" path = true ->
  route m path =
  match responsesID path with
  | Some (id, false) => if String.eqb m "GET" then EProxy opRespGet id else fallback path
  | Some (id, true) => if String.eqb m "POST" then EProxy opRespCancel id else fallback path
  | None => fallback path
  end.
Proof.
  intros Hp. unfold route, health_route, inference_route. rewrite Hp.
  repeat match goal with |- context [String.eqb path ?w] =>
    destruct (String.eqb_spec path w) as [->|?]; [discriminate Hp|] end.
  rewrite !andb_false_r. destruct (responsesID path) as [[id []]|]; by_method m; done.
Qed.

Lemma served_path m path : served (route m path) <-> m = allowFor path /\ allowFor path <> "".
Proof.
  destruct (has_prefix "/v1/responses/" path) eqn:Hp.
  - rewrite route_responses by done. unfold fallback. rewrite allowFor_responses by done.
    destruct (responsesID path) as [[id []]|]; by_method m; cbn; split; naive_solver.
  - unfold route, health_route, inference_route, fallback, allowFor. rewrite Hp.
    repeat match goal with |- context [String.eqb path ?w] =>
      destruct (String.eqb_spec path w) as [->|?]; [by_method m; cbn; split; naive_solver|] end.
    rewrite !andb_false_r. by_method m; cbn; split; naive_solver.
Qed.

Lemma not_served_fallback m path : ~ served (route m path) -> route m path = fallback path.
Proof.
  unfold route, health_route, inference_route. intros Hn.
  repeat (case_match; simplify_eq; try done); exfalso; exact (Hn I).
Qed.

Lemma proxy_route m path o id : route m path = EProxy o id <->
  o ∈ operations /\ m = op_method o /\
  match op_route o with
  | routeByModel => id = "" /\ path = op_path o
  | routeByResponseID =>
      isValidResponseID id = true /\
      path = "/v1/responses/" +:+ id +:+ (if String.eqb (op_method o) "POST" then "/cancel" else "")
  end.
Proof.
  split.
  - destruct (has_prefix "/v1/responses/" path) eqn:Hp.
    + rewrite route_responses by done. unfold fallback. destruct (responsesID path) as [[i cancel]|] eqn:Er.
      * apply responsesID_spec in Er as [Hv Hpath]; [|done].
        destruct cancel; by_method m; cbn; try (case_match; done); intros [= <- <-]; (split; [set_solver|]); done.
      * case_match; done.
    + unfold route, health_route, inference_route, fallback. repeat match goal with |- context [String.eqb path ?w] =>
        destruct (String.eqb_spec path w) as [->|?];
        [by_method m; cbn; try done; intros [= <- <-]; (split; [set_solver|]); done|] end.
      rewrite !andb_false_r. by_method m; cbn; repeat case_match; done.
  - intros (Ho & -> & Hrest). unfold operations in Ho. rewrite !elem_of_cons, elem_of_nil in Ho.
    destruct_or! Ho; subst o; unfold op_route, op_method, opRespGet, opRespCancel in *; destruct Hrest as [Hi ->]; subst; try done.
    + change (if ("GET" =? "POST")%string then "/cancel" else "") with "". rewrite route_responses by apply has_prefix_app.
      by rewrite (proj2 (responsesID_spec _ id false (has_prefix_app "/v1/responses/" (id +:+ ""))) (conj Hi eq_refl)).
    + change (if ("POST" =? "POST")%string then "/cancel" else "") with "/cancel". rewrite route_responses by apply has_prefix_app.
      by rewrite (proj2 (responsesID_spec _ id true (has_prefix_app "/v1/responses/" (id +:+ "/cancel"))) (conj Hi eq_refl)).
Qed.

(** Exactly the allow-listed routes are served. An operation of the proxy
    is reached exactly by its method and path, the response id of a retrieve
    or cancel being one safe segment, so the path the proxy sends upstream
    for it is the path that came in; the model list and the health checks
    likewise. Any other request gets a 405 when another method is served on
    its path, and then [Allow] names precisely the method that is; and a 404
    when no method is. *)
Theorem routes_exact m path :
  (forall o id, route m path = EProxy o id <->
     o ∈ operations /\ m = op_method o /\
     match op_route o with
     | routeByModel => id = "" /\ path = op_path o
     | routeByResponseID =>
         isValidResponseID id = true /\
         path = "/v1/responses/" +:+ id +:+ (if String.eqb (op_method o) "POST" then "/cancel" else "")
     end) /\
  (route m path = EModels <-> m = "GET" /\ path = "/v1/models") /\
  (route m path = EHealthz <-> m = "GET" /\ path = "/healthz") /\
  (route m path = EReadyz <-> m = "GET" /\ path = "/readyz") /\
  (forall a, route m path = EBadMethod a <-> m <> a /\ served (route a path)) /\
  (route m path = ENotFound <-> forall m', ~ served (route m' path)).
Proof.
  assert (Hlit : forall e, e = EModels \/ e = EHealthz \/ e = EReadyz -> route m path = e ->
    m = "GET" /\ (e = EModels /\ path = "/v1/models" \/ e = EHealthz /\ path = "/healthz" \/ e = EReadyz /\ path = "/readyz")).
  { intros e He. unfold route, health_route, inference_route, fallback.
    repeat match goal with |- context [String.eqb path ?w] =>
      destruct (String.eqb_spec path w) as [->|?]; [by_method m; cbn; intros <-; naive_solver|] end.
    rewrite !andb_false_r. by_method m; cbn; repeat case_match; intros <-; naive_solver. }
  split; [|split; [|split; [|split; [|split]]]].
  - intros o id. apply proxy_route.
  - split; [intros E; destruct (Hlit _ (or_introl eq_refl) E); naive_solver|by intros [-> ->]].
  - split; [intros E; destruct (Hlit _ (or_intror (or_introl eq_refl)) E); naive_solver|by intros [-> ->]].
  - split; [intros E; destruct (Hlit _ (or_intror (or_intror eq_refl)) E); naive_solver|by intros [-> ->]].
  - intros a. rewrite served_path. split.
    + intros E. assert (~ served (route m path)) as Hn by (rewrite E; exact (fun x => x)). pose proof (not_served_fallback _ _ Hn) as Hf.
      rewrite E in Hf. unfold fallback in Hf. destruct (String.eqb_spec (allowFor path) "") as [|Hne]; [done|].
      injection Hf as ->. split; [|done]. intros ->. apply Hn. by apply served_path.
    + intros (Hne & -> & Ha). assert (~ served (route m path)) as Hn by (rewrite served_path; naive_solver).
      rewrite (not_served_fallback _ _ Hn). unfold fallback. by destruct (String.eqb_spec (allowFor path) "").
  - split.
    + intros E m'. rewrite served_path. intros [-> Hne].
      assert (~ served (route m path)) as Hn by (rewrite E; exact (fun x => x)). apply not_served_fallback in Hn. rewrite E in Hn.
      unfold fallback in Hn. by destruct (String.eqb_spec (allowFor path) "").
    + intros Hn. rewrite (not_served_fallback _ _ (Hn m)). unfold fallback.
      destruct (String.eqb_spec (allowFor path) "") as [|Hne]; [done|]. exfalso. apply (Hn (allowFor path)). by apply served_path.
Qed.

(** A method that is served elsewhere, and a dot segment. *)
Lemma routes_exact_witness :
  (exists id, route "POST" "/v1/responses/resp_1/cancel" = EProxy opRespCancel id /\ isValidResponseID id = true) /\
  route "GET" "/v1/responses/resp_1/cancel" = EBadMethod "POST" /\
  (forall m, ~ served (route m "/v1/responses/../models")).
Proof.
  destruct (routes_exact "POST" "/v1/responses/resp_1/cancel") as [Hp _].
  destruct (routes_exact "GET" "/v1/responses/resp_1/cancel") as (_ & _ & _ & _ & Hb & _).
  destruct (routes_exact "GET" "/v1/responses/../models") as (_ & _ & _ & _ & _ & Hn).
  assert (E : route "POST" "/v1/responses/resp_1/cancel" = EProxy opRespCancel "resp_1") by (vm_compute; reflexivity).
  assert (N : route "GET" "/v1/responses/../models" = ENotFound) by (vm_compute; reflexivity).
  split; [|split].
  - exists "resp_1". split; [exact E|]. apply Hp in E as (_ & _ & Hv & _). exact Hv.
  - apply Hb. split; [discriminate|]. rewrite E. exact I.
  - apply Hn. exact N.
Defined.
