(* ===== verification/Ingress.v ===== *)
(** * The HTTP surface: [internal/httpapi/server.go], [models.go]

    The extraction of the credential, the model list, and
    the admission of concurrent requests as an interleaving of their atomic
    operations with reloads of the key file. *)

From Stdlib Require Import Ascii.
From S2P Require Import Prelude Float64 GoStrings Net Crypto Json JsonFacts Config Auth Limiter Routing Backend.
From S2P Require Import Peer Errors Outbound Routes.
#[local] Open Scope Z_scope.

(** A request as the routes see it: [Header.Values] of the three headers. *)
Record request := mkRequest {
  rq_method : string; rq_path : string; rq_remote : string;
  rq_xff : list string; rq_authorization : list string; rq_apikey : list string }.

(** ** The credential *)

(** [strings.Cut(auths[0], " ")], the scheme compared without case and the
    rest trimmed; [None] is an ambiguous or malformed presentation. *)
(* src: internal/httpapi/server.go 395-437 Server.authorize *)
Definition credential (authorization apikey : list string) : option string :=
  let bearer :=
    match authorization with
    | [] => Some ""
    | [v] =>
        match cut_char " "%char v with
        | None => None
        | Some (scheme, rest) =>
            if negb (equal_fold scheme "bearer") then None
            else let bearer := TrimSpace rest in
                 if String.eqb bearer "" then None else Some bearer
        end
    | _ => None
    end in
  match bearer with
  | None => None
  | Some bearer =>
      match apikey with
      | _ :: _ :: _ => None
      | _ =>
          let apiKey := match apikey with [k] => k | _ => "" end in
          if negb (String.eqb bearer "") && String.eqb apiKey "" then Some bearer
          else if String.eqb bearer "" && negb (String.eqb apiKey "") then Some apiKey
          else if negb (String.eqb bearer "") && negb (String.eqb apiKey "") then
            if negb (String.eqb bearer apiKey) then None else Some bearer
          else None
      end
  end.

(* src: internal/httpapi/server.go classifyAuthError *)
Definition classifyAuthError (err : lookup_error) : string :=
  match err with
  | ErrDisabled => "auth_disabled"
  | ErrExpired => "auth_expired"
  | ErrUnknownKey => "auth_unknown"
  end.

(** [rnd] is the 12-byte read, [None] when it fails. *)
(* src: internal/httpapi/server.go newRequestID *)
Definition newRequestID (rnd : option string) : string :=
  match rnd with
  | None => "req_0000000000000000"
  | Some b => "req_" +:+ hex_encode b
  end.

(** ** Responses *)

(* src: internal/httpapi/server.go 272-276 routeBody *)
Definition errBadAuth : apiError := mkApiError 401 "authentication_error" "invalid_api_key" "invalid api key" "".
(* src: internal/apierr/apierr.go 63-69 WriteRateLimit *)
Definition errRateLimit : apiError := mkApiError 429 "rate_limit_error" "too_many_requests" "too many requests" "".
(* src: internal/httpapi/server.go 343-343 routeBody *)
Definition errMethod : apiError := mkApiError 405 "invalid_request_error" "method_not_allowed" "method not allowed" "".
(* src: internal/httpapi/server.go 348-348 routeBody *)
Definition errNotFound : apiError := mkApiError 404 "invalid_request_error" "not_found" "not found" "".

(** What the client gets; [RServed] is what the proxy wrote, [RTorn] a
    response whose header was out when its handler panicked. *)
Inductive reply :=
| RHealth (status : Z) (body : string)
| RError (status : Z) (allow retryAfter : option string) (body : string)
| RModels (body : string)
| RServed (status : Z)
| RTorn.

(* src: internal/httpapi/errors.go writeErr *)
Definition writeErr (allow : option string) (e : apiError) : reply :=
  let '(status, body) := Write e in RError status allow None body.

(** The model list: one object per allowed name, keys in byte order as
    [json.Marshal] writes a map. *)
Definition model_object (startedUnix : Z) (name : string) : json :=
  JObj [("created", marshal_int startedUnix);
        ("id", marshal_string name); ("object", marshal_string "model"); ("owned_by", marshal_string "mellomting")].
(* src: internal/httpapi/models.go Server.handleModels *)
Definition handleModels {F} (startedUnix : Z) (names : list string) (key : Key F) : reply :=
  let data := map (model_object startedUnix) (List.filter (Allows key) names) in
  RModels (print (JObj [("data", JArr data); ("object", marshal_string "list")])).

Section Ingress.
Context {F : Type} `{Float64 F}.

(** The wait in whole seconds, at least one; no header for a wait that is
    not positive. *)
(* src: internal/apierr/apierr.go WriteRateLimit *)
Definition WriteRateLimit (retryAfter : duration) : reply :=
  let header :=
    if 0 <? retryAfter then Some (dec_abs (Z.max (f_ceil_int (Seconds (F := F) retryAfter)) 1)) else None in
  let '(status, body) := Write errRateLimit in RError status None header body.

(** ** The server

    A generation pairs a key store with the limit registry built for it; the
    one published is [sv_current]. Registries of earlier generations live on
    for the requests that loaded them. The buckets and slot sets are shared
    by address in [sv_heap]. [sv_warned] is the log: class, source and count
    of suppressed attempts of each warning. *)
(* src: internal/httpapi/server.go snapshot *)
Record snapshot := mkSnapshot { sn_store : Store (F := F); sn_limits : Registry }.
(* src: internal/httpapi/server.go Server *)
Record server := mkServer {
  sv_cap : Z; sv_inflight : Z;
  sv_globalRPS : Bucket F; sv_sources : SourceRegistry F;
  sv_authLog : Bucket F; sv_authDropped : Z; sv_warned : list (string * string * Z);
  sv_peers : trustedPeers; sv_ready : bool; sv_startedUnix : Z; sv_models : list string;
  sv_gens : list snapshot; sv_current : nat; sv_heap : heap F
}.

(** Rate limits fall back to the defaults when the configuration was not
    validated; [None] is the panic of an invalid rate. *)
(* src: internal/httpapi/server.go New *)
Definition New (cfg : Config (F := F)) (now : time) (store : Store (F := F)) (router : Router) : option server :=
  let l := c_Limits cfg in
  let '(rps, burst) :=
    if f_leb (GlobalRequestsPerSecond l) (f_of_Z 0) || (GlobalBurst l <? 1) then (f_of_Z 100, 200)
    else (GlobalRequestsPerSecond l, GlobalBurst l) in
  let '(prps, pburst) :=
    if f_leb (PreauthRequestsPerSecond l) (f_of_Z 0) || (PreauthBurst l <? 1) then (f_of_Z 100, 200)
    else (PreauthRequestsPerSecond l, PreauthBurst l) in
  let alr := if f_leb (AuthFailureLogRate l) (f_of_Z 0) then f_of_Z 1 else AuthFailureLogRate l in
  match NewBucket rps burst, NewSourceRegistry prps pburst 4096, NewBucket alr 3 with
  | Some globalRPS, Some sourceLimit, Some authLog =>
      Some (mkServer (Z.max (MaxInflightRequests (c_Server cfg)) 1) 0 globalRPS sourceLimit authLog 0 []
              (newTrustedPeers (l_Network (s_Listen (c_Server cfg))) (TrustedProxies (c_Server cfg)))
              false (Unix now) (List_models router) [mkSnapshot store NewRegistry] 0 empty_heap)
  | _, _, _ => None
  end.

Definition set_inflight (sv : server) (n : Z) : server :=
  mkServer (sv_cap sv) n (sv_globalRPS sv) (sv_sources sv) (sv_authLog sv) (sv_authDropped sv) (sv_warned sv)
    (sv_peers sv) (sv_ready sv) (sv_startedUnix sv) (sv_models sv) (sv_gens sv) (sv_current sv) (sv_heap sv).
Definition set_globalRPS (sv : server) (b : Bucket F) : server :=
  mkServer (sv_cap sv) (sv_inflight sv) b (sv_sources sv) (sv_authLog sv) (sv_authDropped sv) (sv_warned sv)
    (sv_peers sv) (sv_ready sv) (sv_startedUnix sv) (sv_models sv) (sv_gens sv) (sv_current sv) (sv_heap sv).
Definition set_sources (sv : server) (r : SourceRegistry F) : server :=
  mkServer (sv_cap sv) (sv_inflight sv) (sv_globalRPS sv) r (sv_authLog sv) (sv_authDropped sv) (sv_warned sv)
    (sv_peers sv) (sv_ready sv) (sv_startedUnix sv) (sv_models sv) (sv_gens sv) (sv_current sv) (sv_heap sv).
Definition set_authLog (sv : server) (b : Bucket F) (dropped : Z) (warned : list (string * string * Z)) : server :=
  mkServer (sv_cap sv) (sv_inflight sv) (sv_globalRPS sv) (sv_sources sv) b dropped warned
    (sv_peers sv) (sv_ready sv) (sv_startedUnix sv) (sv_models sv) (sv_gens sv) (sv_current sv) (sv_heap sv).
Definition set_gens (sv : server) (gens : list snapshot) (current : nat) (h : heap F) : server :=
  mkServer (sv_cap sv) (sv_inflight sv) (sv_globalRPS sv) (sv_sources sv) (sv_authLog sv) (sv_authDropped sv) (sv_warned sv)
    (sv_peers sv) (sv_ready sv) (sv_startedUnix sv) (sv_models sv) gens current h.
(* src: internal/httpapi/server.go Server.SetReady *)
Definition SetReady (sv : server) (v : bool) : server :=
  mkServer (sv_cap sv) (sv_inflight sv) (sv_globalRPS sv) (sv_sources sv) (sv_authLog sv) (sv_authDropped sv) (sv_warned sv)
    (sv_peers sv) v (sv_startedUnix sv) (sv_models sv) (sv_gens sv) (sv_current sv) (sv_heap sv).

(** ** One request

    A request is at one of these points; each atomic operation (a channel
    operation, a method under its mutex, an atomic load or swap) takes it to
    the next. [PReleaseKey] and [PRelease] are the deferred releases, in the
    order they run. *)
Inductive phase :=
| PArrive
| PSource | PGlobal | PSnap
| PAuth (g : nat)
| PAuthLog (class : string) | PWarn (class : string) | PCount
| PFor (g : nat) (key : Key F)
| PRate (g : nat) (key : Key F) (ks : KeyState)
| PConc (g : nat) (key : Key F) (ks : KeyState)
| PServe (g : nat) (key : Key F) (ks : KeyState) (tok : bool)
| PReleaseKey (ks : KeyState) (tok : bool) (r : reply)
| PRelease (r : reply)
| PDone (r : reply).

(** What the world decides at a step: the clock, the iteration order of the
    source table, and how the proxy's handler ends. *)
Inductive handled := HServed (status : Z) | HPanic (committed : bool).
Record env := mkEnv { e_now : time; e_order : list (string * SourceState F); e_handled : handled }.

(** The handler's reply, with the panic contained by [route]. *)
(* src: internal/httpapi/server.go 153-161 Server.route *)
Definition recovered (h : handled) : reply :=
  match h with
  | HServed status => RServed status
  | HPanic true => RTorn
  | HPanic false => writeErr None errInternal
  end.

(* src: internal/httpapi/server.go 296-348 routeBody *)
Definition serve (sv : server) (rq : request) (key : Key F) (h : handled) : reply :=
  match inference_route (rq_method rq) (rq_path rq) with
  | EModels => handleModels (sv_startedUnix sv) (sv_models sv) key
  | EProxy _ _ => recovered h
  | EBadMethod allow => writeErr (Some allow) errMethod
  | _ => writeErr None errNotFound
  end.

(** The health endpoints answer before any limit. *)
(* src: internal/httpapi/server.go 227-240 routeBody *)
Definition health (sv : server) (rq : request) : option reply :=
  match health_route (rq_method rq) (rq_path rq) with
  | Some EHealthz => Some (RHealth 200 "ok")
  | Some _ => Some (if sv_ready sv then RHealth 200 "ready" else RHealth 503 "not ready")
  | None => None
  end.

Definition remote (sv : server) (rq : request) : string := clientIP (sv_peers sv) (rq_remote rq) (rq_xff rq).

(** One atomic operation of a request; [None] when it blocks (a receive from
    an empty channel) or is over. *)
(* src: internal/httpapi/server.go routeBody *)
Definition advance (rq : request) (e : env) (sv : server) (p : phase) : option (server * phase) :=
  match p with
  | PArrive =>
      match health sv rq with
      | Some r => Some (sv, PDone r)
      | None =>
          if sv_inflight sv <? sv_cap sv then Some (set_inflight sv (sv_inflight sv + 1), PSource)
          else Some (sv, PDone (writeErr None errOverloaded))
      end
  | PSource =>
      let '(r, (ok, ra)) := source_Allow (e_order e) (sv_sources sv) (remote sv rq) (e_now e) in
      Some (set_sources sv r, if ok then PGlobal else PRelease (WriteRateLimit ra))
  | PGlobal =>
      let '(b, (ok, ra)) := Allow (sv_globalRPS sv) (e_now e) in
      Some (set_globalRPS sv b, if ok then PSnap else PRelease (WriteRateLimit ra))
  | PSnap => Some (sv, PAuth (sv_current sv))
  | PAuth g =>
      match credential (rq_authorization rq) (rq_apikey rq), sv_gens sv !! g with
      | Some rawKey, Some sn =>
          match Lookup (sn_store sn) (e_now e) rawKey with
          | Ok key => Some (sv, PFor g key)
          | Err err => Some (sv, PAuthLog (classifyAuthError err))
          end
      | _, _ => Some (sv, PRelease (writeErr None errBadAuth))
      end
  | PAuthLog class =>
      let '(b, (ok, _)) := Allow (sv_authLog sv) (e_now e) in
      Some (set_authLog sv b (sv_authDropped sv) (sv_warned sv), if ok then PWarn class else PCount)
  | PWarn class =>
      Some (set_authLog sv (sv_authLog sv) 0 ((class, remote sv rq, sv_authDropped sv) :: sv_warned sv),
            PRelease (writeErr None errBadAuth))
  | PCount =>
      Some (set_authLog sv (sv_authLog sv) (wrap64 (sv_authDropped sv + 1)) (sv_warned sv),
            PRelease (writeErr None errBadAuth))
  | PFor g key =>
      match sv_gens sv !! g with
      | Some sn =>
          let '(r, h, ks) := For (sn_limits sn) (sv_heap sv) key in
          Some (set_gens sv (<[g := mkSnapshot (sn_store sn) r]> (sv_gens sv)) (sv_current sv) h, PRate g key ks)
      | None => None
      end
  | PRate g key ks =>
      let '(h, (ok, ra)) := AllowRate (sv_heap sv) ks (e_now e) in
      Some (set_gens sv (sv_gens sv) (sv_current sv) h, if ok then PConc g key ks else PRelease (WriteRateLimit ra))
  | PConc g key ks =>
      let '(h, (tok, ok)) := AcquireConcurrency (sv_heap sv) ks in
      Some (set_gens sv (sv_gens sv) (sv_current sv) h,
            if ok then PServe g key ks tok else PRelease (WriteRateLimit Second))
  | PServe g key ks tok => Some (sv, PReleaseKey ks tok (serve sv rq key (e_handled e)))
  | PReleaseKey ks tok r =>
      if tok then
        match concs (sv_heap sv) !! ks_Concur ks with
        | Some c =>
            match Release c with
            | Some c' =>
                let h := sv_heap sv in
                Some (set_gens sv (sv_gens sv) (sv_current sv)
                        (mkHeap (buckets h) (<[ks_Concur ks := c']> (concs h)) (next h)), PRelease r)
            | None => None
            end
        | None => None
        end
      else Some (sv, PRelease r)
  | PRelease r =>
      if 0 <? sv_inflight sv then Some (set_inflight sv (sv_inflight sv - 1), PDone r) else None
  | PDone _ => None
  end.

(** ** Many requests and reloads

    A pool of requests, each at its point. A reload builds the registry of
    the next generation from the one published, then publishes both as one
    pointer. *)
Record world := mkWorld { w_sv : server; w_pool : list (request * phase) }.

(* src: internal/httpapi/server.go Server.ReloadStore *)
Definition reload_build (sv : server) (st : Store (F := F)) : server :=
  let prev := option_map sn_limits (sv_gens sv !! sv_current sv) in
  set_gens sv (sv_gens sv ++ [mkSnapshot st (NewRegistryCarrying prev (Some (HasID st)))]) (sv_current sv) (sv_heap sv).
Definition reload_publish (sv : server) : server :=
  set_gens sv (sv_gens sv) (length (sv_gens sv) - 1)%nat (sv_heap sv).

Inductive action :=
| AArrive (rq : request)
| AStep (i : nat) (e : env)
| AReady (v : bool)
| AReloadBuild (st : Store (F := F))
| AReloadPublish.

Definition run_action (a : action) (w : world) : option world :=
  match a with
  | AArrive rq => Some (mkWorld (w_sv w) (w_pool w ++ [(rq, PArrive)]))
  | AStep i e =>
      match w_pool w !! i with
      | Some (rq, p) =>
          match advance rq e (w_sv w) p with
          | Some (sv, p') => Some (mkWorld sv (<[i := (rq, p')]> (w_pool w)))
          | None => None
          end
      | None => None
      end
  | AReady v => Some (mkWorld (SetReady (w_sv w) v) (w_pool w))
  | AReloadBuild st => Some (mkWorld (reload_build (w_sv w) st) (w_pool w))
  | AReloadPublish => Some (mkWorld (reload_publish (w_sv w)) (w_pool w))
  end.

Definition wstep (w w' : world) : Prop := exists a, run_action a w = Some w'.

(** A schedule is run action by action. *)
Fixpoint run_schedule (l : list action) (w : world) : option world :=
  match l with
  | [] => Some w
  | a :: l => match run_action a w with Some w' => run_schedule l w' | None => None end
  end.

Lemma run_schedule_rtc l w w' : run_schedule l w = Some w' -> rtc wstep w w'.
Proof.
  revert w. induction l as [|a l IH]; intros w; cbn; [by intros [= <-]|].
  destruct (run_action a w) as [w1|] eqn:E; [|done]. intros Hr. eapply rtc_l; [by exists a|]. by apply IH.
Qed.
End Ingress.
