(* ===== verification/IngressFacts.v ===== *)
(** * The HTTP surface: theorems

    The invariant of the pool of requests over the server's channels,
    registries and slot sets; what a served request was admitted under; the
    credential; a race of reloads. *)

From Stdlib Require Import Ascii QArith.
From S2P Require Import Prelude Float64 GoStrings Net Crypto Json JsonFacts Config ConfigFacts Auth Limiter Routing Backend.
From S2P Require Import Peer Errors Outbound Routes Ingress.
#[local] Open Scope Z_scope.

Section Facts.
Context {F : Type} `{Float64Laws F}.
Implicit Types (sv : server (F := F)) (p : phase (F := F)) (h : heap F).

(** ** What a request holds at each point *)

Definition holds_inflight p : bool :=
  match p with PArrive | PDone _ => false | _ => true end.
Definition slot_of p : option addr :=
  match p with
  | PServe _ _ ks true | PReleaseKey ks true _ => Some (ks_Concur ks)
  | _ => None
  end.
Definition holds_slot (a : addr) (x : request * phase (F := F)) : bool := bool_decide (slot_of x.2 = Some a).
Definition gen_of p : option nat :=
  match p with
  | PAuth g | PFor g _ | PRate g _ _ | PConc g _ _ | PServe g _ _ _ => Some g
  | _ => None
  end.
(** The key a request was admitted as, with the generation it belongs to. *)
Definition admitted_as p : option (nat * Key F) :=
  match p with
  | PFor g k | PRate g k _ | PConc g k _ | PServe g k _ _ => Some (g, k)
  | _ => None
  end.

Definition store_of sv (g : nat) : option (Store (F := F)) := option_map sn_store (sv_gens sv !! g).

(** [key] is what the credential of [rq] names in the store of [g]. *)
Definition authenticated sv (rq : request) (g : nat) (key : Key F) : Prop :=
  exists st raw now, store_of sv g = Some st /\
    credential (rq_authorization rq) (rq_apikey rq) = Some raw /\ Lookup st now raw = Ok key.

(** ** One operation *)

(** What an operation does to the slot sets: nothing but add fresh ones; take
    a free token; give one back. *)
Inductive slot_effect (h : heap F) : option addr -> heap F -> option addr -> Prop :=
| se_grow s h' :
    (forall a c, concs h !! a = Some c -> concs h' !! a = Some c) ->
    (forall a c, concs h' !! a = Some c -> concs h !! a = Some c \/
       ((next h <= a)%nat /\ (held c = None \/ (held c = Some 0 /\ 0 <= limit c)))) ->
    slot_effect h s h' s
| se_take a c n h' :
    concs h !! a = Some c -> held c = Some n -> n < limit c ->
    concs h' = <[a := mkConcurrency (Some (n + 1)) (limit c)]> (concs h) ->
    slot_effect h None h' (Some a)
| se_give a c n h' :
    concs h !! a = Some c -> held c = Some n -> 0 < n ->
    concs h' = <[a := mkConcurrency (Some (n - 1)) (limit c)]> (concs h) ->
    slot_effect h (Some a) h' None
| se_free a c h' :                       (* a token of an unbounded set: never held *)
    concs h !! a = Some c -> held c = None -> concs h' = concs h ->
    slot_effect h (Some a) h' None.

Lemma se_same h s : slot_effect h s h s.
Proof. apply se_grow; auto. Qed.

Record effect sv p sv' p' : Prop := {
  ef_cap : sv_cap sv' = sv_cap sv;
  ef_current : sv_current sv' = sv_current sv;
  ef_length : length (sv_gens sv') = length (sv_gens sv);
  ef_store : forall g, store_of sv' g = store_of sv g;
  ef_inflight : sv_inflight sv' = sv_inflight sv - (if holds_inflight p then 1 else 0) + (if holds_inflight p' then 1 else 0);
  ef_bound : holds_inflight p = false -> holds_inflight p' = true -> sv_inflight sv < sv_cap sv;
  ef_wf : heap_wf (sv_heap sv');
  ef_slot : slot_effect (sv_heap sv) (slot_of p) (sv_heap sv') (slot_of p');
  ef_gen : forall g, gen_of p' = Some g -> gen_of p = Some g \/ g = sv_current sv
}.

(** An operation that leaves generations and slot sets alone. *)
Lemma effect_plain sv p sv' p' :
  heap_wf (sv_heap sv) -> sv_cap sv' = sv_cap sv -> sv_current sv' = sv_current sv ->
  sv_gens sv' = sv_gens sv -> sv_heap sv' = sv_heap sv ->
  sv_inflight sv' = sv_inflight sv - (if holds_inflight p then 1 else 0) + (if holds_inflight p' then 1 else 0) ->
  (holds_inflight p = false -> holds_inflight p' = true -> sv_inflight sv < sv_cap sv) ->
  slot_of p' = slot_of p -> (forall g, gen_of p' = Some g -> gen_of p = Some g \/ g = sv_current sv) ->
  effect sv p sv' p'.
Proof.
  intros Hwf Hcap Hcur Hg Hh Hi Hb Hs Hgen. split; try done; try congruence.
  - intros g. unfold store_of. by rewrite Hg.
  - by rewrite Hh, Hs; apply se_same.
Qed.

(** An operation of an admitted request on the shared heap. *)
Lemma effect_heap sv p h' p' :
  heap_wf h' -> holds_inflight p = true -> holds_inflight p' = true ->
  slot_effect (sv_heap sv) (slot_of p) h' (slot_of p') -> (forall g, gen_of p' = Some g -> gen_of p = Some g) ->
  effect sv p (set_gens sv (sv_gens sv) (sv_current sv) h') p'.
Proof.
  intros Hwf Hp Hp' Hs Hg. split; try done.
  - rewrite Hp, Hp'. cbn. lia.
  - by rewrite Hp.
  - auto.
Qed.

Lemma AllowRate_concs h ks now h' res : AllowRate h ks now = (h', res) -> heap_wf h ->
  heap_wf h' /\ concs h' = concs h.
Proof.
  unfold AllowRate. intros HA Hwf. destruct (ks_Bucket ks) as [a|]; [|by injection HA as <- _].
  destruct (buckets h !! a) as [b|] eqn:Eb; [|by injection HA as <- _].
  destruct (Allow b now) as [b' r]. injection HA as <- _. split; [|done].
  destruct Hwf as [HB HC]. split; cbn; [|done]. intros x.
  destruct (decide (a = x)) as [<-|Hne]; [eauto|rewrite lookup_insert_ne by done; auto].
Qed.

Lemma Acquire_effect h ks h' tok ok : AcquireConcurrency h ks = (h', (tok, ok)) -> heap_wf h ->
  heap_wf h' /\ slot_effect h None h' (if tok then Some (ks_Concur ks) else None) /\ (tok = true -> ok = true).
Proof.
  unfold AcquireConcurrency, Acquire. intros HA Hwf.
  destruct (concs h !! ks_Concur ks) as [c|] eqn:Ec; [|injection HA as <- <- <-; auto using se_same].
  assert (<[ks_Concur ks := c]> (concs h) = concs h) as Hid by (by apply insert_id).
  destruct (held c) as [n|] eqn:Eh; [destruct (Z.ltb_spec n (limit c))|]; injection HA as <- <- <-.
  - split; [by eapply heap_wf_update|]. split; [|done]. by eapply (se_take _ _ c n).
  - rewrite Hid. destruct h. auto using se_same.
  - rewrite Hid. destruct h. auto using se_same.
Qed.

Lemma advance_effect rq e sv p sv' p' : heap_wf (sv_heap sv) ->
  advance rq e sv p = Some (sv', p') -> effect sv p sv' p'.
Proof.
  intros Hwf. destruct p; cbn [advance].
  - destruct (health sv rq); [intros [= <- <-]; apply effect_plain; cbn; (done || lia)|].
    destruct (Z.ltb_spec (sv_inflight sv) (sv_cap sv)); intros [= <- <-]; apply effect_plain; cbn; (done || lia).
  - destruct (source_Allow _ _ _ _) as [r [ok ra]]. intros [= <- <-]. apply effect_plain; destruct ok; cbn; (done || lia).
  - destruct (Allow _ _) as [b [ok ra]]. intros [= <- <-]. apply effect_plain; destruct ok; cbn; (done || lia).
  - intros [= <- <-]. apply effect_plain; cbn; try (done || lia). intros g [= <-]. by right.
  - repeat case_match; intros [= <- <-]; apply effect_plain; cbn; (lia || naive_solver).
  - destruct (Allow _ _) as [b [ok ra]]. intros [= <- <-]. apply effect_plain; destruct ok; cbn; (done || lia).
  - intros [= <- <-]. apply effect_plain; cbn; (done || lia).
  - intros [= <- <-]. apply effect_plain; cbn; (done || lia).
  - destruct (sv_gens sv !! g) as [sn|] eqn:Eg; [|done]. destruct (For _ _ _) as [[r h'] ks] eqn:EF. intros [= <- <-].
    apply For_grows in EF as ((_ & HC & _ & Hnew) & Hwf' & _); [|done]. split; cbn; try done; try lia.
    + by rewrite length_insert.
    + intros g'. unfold store_of. cbn. destruct (decide (g = g')) as [<-|Hne]; [|by rewrite list_lookup_insert_ne].
      rewrite list_lookup_insert_eq, Eg; [done|]. by apply lookup_lt_Some in Eg.
    + by apply se_grow.
    + auto.
  - destruct (AllowRate _ _ _) as [h' [ok ra]] eqn:EA. intros [= <- <-].
    apply AllowRate_concs in EA as [Hwf' Hc]; [|done]. destruct ok; apply effect_heap; try done;
      apply se_grow; rewrite Hc; auto.
  - destruct (AcquireConcurrency _ _) as [h' [tok ok]] eqn:EA. intros [= <- <-].
    apply Acquire_effect in EA as (Hwf' & Hse & Htok); [|done].
    destruct ok, tok; try (discriminate (Htok eq_refl)); by apply effect_heap.
  - intros [= <- <-]. apply effect_plain; cbn; (done || lia || by destruct tok).
  - destruct tok; [|intros [= <- <-]; apply effect_plain; cbn; (done || lia)].
    destruct (concs (sv_heap sv) !! ks_Concur ks) as [c|] eqn:Ec; [|done]. unfold Release.
    destruct (held c) as [n|] eqn:Eh.
    + destruct (Z.ltb_spec 0 n); [|done]. intros [= <- <-]. split; cbn; try done; try lia.
      * by eapply heap_wf_update.
      * by eapply (se_give _ _ c n).
    + intros [= <- <-]. split; cbn; try done; try lia.
      * by eapply heap_wf_update.
      * eapply se_free; [done..|]. by apply insert_id.
  - destruct (Z.ltb_spec 0 (sv_inflight sv)); [|done]. intros [= <- <-]. apply effect_plain; cbn; (done || lia).
  - done.
Qed.
Lemma advance_auth rq e sv p sv' p' g k : advance rq e sv p = Some (sv', p') ->
  admitted_as p' = Some (g, k) -> admitted_as p = Some (g, k) \/ authenticated sv rq g k.
Proof.
  destruct p; cbn [advance].
  5: { destruct (credential _ _) as [raw|] eqn:Ec; [|by intros [= <- <-]].
    destruct (sv_gens sv !! g0) as [sn|] eqn:Eg; [|by intros [= <- <-]].
    destruct (Lookup _ _ _) as [key|err] eqn:El; intros [= <- <-]; [|done]. intros [= <- <-].
    right. exists (sn_store sn), raw, (e_now e). unfold store_of. by rewrite Eg. }
  all: repeat case_match; intros; simplify_eq; cbn in *; simplify_eq; auto.
Qed.

(** ** The pool *)

(** What the channels, slot sets and generations of a reachable world are. *)
Record winv (limit_inflight : Z) (w : world (F := F)) : Prop := {
  wv_cap : sv_cap (w_sv w) = limit_inflight;
  wv_inflight : sv_inflight (w_sv w) = Z.of_nat (count (fun x => holds_inflight x.2) (w_pool w));
  wv_bound : sv_inflight (w_sv w) <= limit_inflight;
  wv_heap : heap_wf (sv_heap (w_sv w));
  wv_tokens : forall a c n, concs (sv_heap (w_sv w)) !! a = Some c -> held c = Some n ->
    n = Z.of_nat (count (holds_slot a) (w_pool w)) /\ n <= limit c;
  wv_held : forall i rq p a, w_pool w !! i = Some (rq, p) -> slot_of p = Some a ->
    exists c n, concs (sv_heap (w_sv w)) !! a = Some c /\ held c = Some n;
  wv_current : (sv_current (w_sv w) < length (sv_gens (w_sv w)))%nat;
  wv_gens : forall i rq p g, w_pool w !! i = Some (rq, p) -> gen_of p = Some g -> (g < length (sv_gens (w_sv w)))%nat;
  wv_auth : forall i rq p g k, w_pool w !! i = Some (rq, p) -> admitted_as p = Some (g, k) ->
    authenticated (w_sv w) rq g k
}.

Lemma authenticated_mono sv sv' rq g k :
  (forall st, store_of sv g = Some st -> store_of sv' g = Some st) -> authenticated sv rq g k -> authenticated sv' rq g k.
Proof. intros Hs (st & raw & now & Hst & ?). exists st, raw, now. auto. Qed.

(** Nobody holds a token of a set that was just added. *)
Lemma no_holder c w a : winv c w -> (next (sv_heap (w_sv w)) <= a)%nat -> count (holds_slot a) (w_pool w) = 0%nat.
Proof.
  intros Hi Ha. destruct (Nat.eq_0_gt_0_cases (count (holds_slot a) (w_pool w))) as [|Hpos]; [done|exfalso].
  apply count_exists in Hpos as (i & [rq p] & Hl & Hs). unfold holds_slot in Hs. to_prop. cbn in Hs.
  destruct (wv_held _ _ Hi _ _ _ _ Hl Hs) as (c' & m & Hc & _).
  apply mk_is_Some, (proj2 (wv_heap _ _ Hi)) in Hc. lia.
Qed.

(** The tokens after one operation of request [i]. *)
Lemma tokens_step c w i rq p h' p' a c' n :
  winv c w -> w_pool w !! i = Some (rq, p) -> slot_effect (sv_heap (w_sv w)) (slot_of p) h' (slot_of p') ->
  concs h' !! a = Some c' -> held c' = Some n ->
  n = Z.of_nat (count (holds_slot a) (<[i := (rq, p')]> (w_pool w))) /\ n <= limit c'.
Proof.
  intros Hi Hl He Hc Hn. rewrite (count_insert _ _ _ _ (rq, p') Hl). change (holds_slot a (rq, p)) with (bool_decide (slot_of p = Some a)).
  change (holds_slot a (rq, p')) with (bool_decide (slot_of p' = Some a)).
  pose proof (wv_tokens _ _ Hi) as Htok.
  remember (slot_of p) as sp eqn:Esp. remember (slot_of p') as sp' eqn:Esp'.
  destruct He as [sp h1 Hkeep Hnew|x cx m h1 Hx Hm Hlt Hcs|x cx m h1 Hx Hm Hpos Hcs|x cx h1 Hx Hm Hcs].
  - apply Hnew in Hc as [Hc|[Hge Hfresh]]; [destruct (Htok _ _ _ Hc Hn); split; [|done]; case_bool_decide; lia|].
    rewrite (no_holder _ _ _ Hi Hge). destruct Hfresh as [Hf|[Hf Hlim]]; [congruence|].
    rewrite Hf in Hn. injection Hn as <-. split; [case_bool_decide; lia|done].
  - rewrite Hcs in Hc. destruct (decide (x = a)) as [->|Hne].
    + rewrite lookup_insert_eq in Hc. injection Hc as <-. cbn in Hn. injection Hn as <-.
      destruct (Htok _ _ _ Hx Hm) as [-> _]. rewrite bool_decide_false, bool_decide_true by done. cbn. lia.
    + rewrite lookup_insert_ne in Hc by done. rewrite !bool_decide_false by congruence.
      destruct (Htok _ _ _ Hc Hn). split; [lia|done].
  - rewrite Hcs in Hc. destruct (decide (x = a)) as [->|Hne].
    + rewrite lookup_insert_eq in Hc. injection Hc as <-. cbn in Hn. injection Hn as <-.
      destruct (Htok _ _ _ Hx Hm) as [-> ?]. rewrite bool_decide_true, bool_decide_false by done. cbn. lia.
    + rewrite lookup_insert_ne in Hc by done. rewrite !bool_decide_false by congruence.
      destruct (Htok _ _ _ Hc Hn). split; [lia|done].
  - symmetry in Esp. destruct (wv_held _ _ Hi _ _ _ _ Hl Esp) as (c1 & m1 & Hc1 & Hm1). congruence.
Qed.

Lemma held_step h s h' s' a : slot_effect h s h' s' ->
  (exists c n, concs h !! a = Some c /\ held c = Some n) -> exists c n, concs h' !! a = Some c /\ held c = Some n.
Proof.
  intros He (c & n & Hc & Hn).
  destruct He as [sp h1 Hkeep Hnew|x cx m h1 Hx Hm Hlt Hcs|x cx m h1 Hx Hm Hpos Hcs|x cx h1 Hx Hm Hcs]; [eauto| | |].
  3: { rewrite Hcs. eauto. }
  all: rewrite Hcs; destruct (decide (x = a)) as [->|Hne];
    [rewrite lookup_insert_eq; eauto|rewrite lookup_insert_ne by done; eauto].
Qed.

Lemma taken_held h h' a : slot_effect h None h' (Some a) -> exists c n, concs h' !! a = Some c /\ held c = Some n.
Proof.
  remember None as s eqn:Es. remember (Some a) as s' eqn:Es'. intros He.
  destruct He as [sp h1 Hkeep Hnew|x cx m h1 Hx Hm Hlt Hcs|x cx m h1 Hx Hm Hpos Hcs|x cx h1 Hx Hm Hcs]; simplify_eq.
  rewrite Hcs, lookup_insert_eq. eauto.
Qed.

Lemma winv_advance c w i rq p e sv' p' : w_pool w !! i = Some (rq, p) -> advance rq e (w_sv w) p = Some (sv', p') ->
  winv c w -> winv c (mkWorld sv' (<[i := (rq, p')]> (w_pool w))).
Proof.
  intros Hl Ha Hi. pose proof (advance_effect _ _ _ _ _ _ (wv_heap _ _ Hi) Ha) as He.
  assert (Hlk : forall j rq1 p1, <[i := (rq, p')]> (w_pool w) !! j = Some (rq1, p1) ->
    (j = i /\ rq1 = rq /\ p1 = p') \/ w_pool w !! j = Some (rq1, p1)).
  { intros j rq1 p1. destruct (decide (i = j)) as [<-|Hne]; [|rewrite list_lookup_insert_ne by done; auto].
    rewrite list_lookup_insert_eq by (by eapply lookup_lt_Some). intros [= <- <-]. auto. }
  assert (Hau : forall g k, authenticated (w_sv w) rq g k -> authenticated sv' rq g k).
  { intros g k. apply authenticated_mono. intros st. by rewrite (ef_store _ _ _ _ He). }
  split; cbn [w_sv w_pool].
  - rewrite (ef_cap _ _ _ _ He). apply Hi.
  - rewrite (count_insert _ _ _ _ (rq, p') Hl), (ef_inflight _ _ _ _ He), (wv_inflight _ _ Hi). cbn. lia.
  - rewrite (ef_inflight _ _ _ _ He). pose proof (wv_bound _ _ Hi). pose proof (wv_cap _ _ Hi). pose proof (ef_bound _ _ _ _ He).
    destruct (holds_inflight p), (holds_inflight p'); lia.
  - apply He.
  - intros a c' n. eapply tokens_step; [done|done|apply He].
  - intros j rq1 p1 a [(-> & -> & ->)|Hj]%Hlk Hs.
    + pose proof (ef_slot _ _ _ _ He) as Hse. destruct (slot_of p) as [b|] eqn:Eb; rewrite Hs in Hse; [|by eapply taken_held].
      assert (b = a) as -> by (inversion Hse; congruence).
        eapply held_step; [done|]. by eapply wv_held.
    + eapply held_step; [apply He|]. by eapply wv_held.
  - rewrite (ef_current _ _ _ _ He), (ef_length _ _ _ _ He). apply Hi.
  - intros j rq1 p1 g [(-> & -> & ->)|Hj]%Hlk Hg; rewrite (ef_length _ _ _ _ He); [|by eapply wv_gens].
    destruct (ef_gen _ _ _ _ He _ Hg) as [Hg'| ->]; [by eapply wv_gens|apply Hi].
  - intros j rq1 p1 g k [(-> & -> & ->)|Hj]%Hlk Hg.
    + destruct (advance_auth _ _ _ _ _ _ _ _ Ha Hg); apply Hau; [by eapply wv_auth|done].
    + eapply authenticated_mono; [|by eapply wv_auth]. intros st. by rewrite (ef_store _ _ _ _ He).
Qed.

Lemma ingress_winv_step c w w' : wstep w w' -> winv c w -> winv c w'.
Proof.
  intros [a Ha] Hi. destruct a as [rq|i e|v|st|]; cbn in Ha.
  - injection Ha as <-. destruct Hi as [H1 H2 H3 H4 H5 H6 H7 H8 H9].
    assert (Hlk : forall j rq1 p1, (w_pool w ++ [(rq, PArrive)]) !! j = Some (rq1, p1) -> w_pool w !! j = Some (rq1, p1) \/ p1 = PArrive).
    { intros j rq1 p1 [Hj|[_ Hj]]%lookup_app_Some; [by left|]. apply list_lookup_singleton_Some in Hj as [_ [= _ <-]]. by right. }
    assert (Hct : forall f, f (rq, PArrive) = false -> count f (w_pool w ++ [(rq, PArrive)]) = count f (w_pool w)).
    { intros f Hf. rewrite count_app, count_cons, Hf. unfold count at 2. cbn. lia. }
    split; cbn [w_sv w_pool]; try done.
    + by rewrite Hct.
    + intros a c' n. rewrite Hct by done. apply H5.
    + intros j rq1 p1 a [Hj| ->]%Hlk Hs; [by eapply H6|done].
    + intros j rq1 p1 g [Hj| ->]%Hlk Hs; [by eapply H8|done].
    + intros j rq1 p1 g k [Hj| ->]%Hlk Hs; [by eapply H9|done].
  - destruct (w_pool w !! i) as [[rq p]|] eqn:El; [|done]. destruct (advance _ _ _ _) as [[sv' p']|] eqn:Ea; [|done].
    injection Ha as <-. by eapply winv_advance.
  - injection Ha as <-. destruct Hi. by split.
  - injection Ha as <-. destruct Hi as [H1 H2 H3 H4 H5 H6 H7 H8 H9].
    split; cbn [w_sv w_pool]; try done; unfold reload_build, set_gens; cbn; rewrite ?length_app; cbn; try lia.
    + intros i rq p g Hl Hg. specialize (H8 _ _ _ _ Hl Hg). lia.
    + intros i rq p g k Hl Hg. eapply authenticated_mono; [|by eapply H9]. intros s.
      unfold store_of. cbn. destruct (sv_gens (w_sv w) !! g) as [sn|] eqn:Eg; [|done].
      by rewrite (lookup_app_l_Some _ _ _ _ Eg).
  - injection Ha as <-. destruct Hi as [H1 H2 H3 H4 H5 H6 H7 H8 H9].
    split; cbn [w_sv w_pool]; try done; unfold reload_publish, set_gens; cbn. lia.
Qed.

Lemma New_winv cfg now store router sv : Ingress.New cfg now store router = Some sv ->
  winv (Z.max (MaxInflightRequests (c_Server cfg)) 1) (mkWorld sv []).
Proof.
  unfold Ingress.New. destruct (if f_leb (GlobalRequestsPerSecond _) _ || _ then _ else _) as [rps burst].
  destruct (if f_leb (PreauthRequestsPerSecond _) _ || _ then _ else _) as [prps pburst].
  destruct (NewBucket rps burst); [|done]. destruct (NewSourceRegistry _ _ _); [|done].
  destruct (NewBucket _ 3); [|done]. intros [= <-].
  split; cbn; try done; try lia.
  split; intros a [? Ha]; discriminate Ha.
Qed.

(** ** Every request is answered *)

(** Operations left at each point. *)
Definition steps_left p : nat :=
  match p with
  | PArrive => 11 | PSource => 10 | PGlobal => 9 | PSnap => 8 | PAuth _ => 7
  | PFor _ _ => 6 | PRate _ _ _ => 5 | PConc _ _ _ => 4 | PServe _ _ _ _ => 3 | PReleaseKey _ _ _ => 2
  | PAuthLog _ => 3 | PWarn _ | PCount => 2 | PRelease _ => 1 | PDone _ => 0
  end.

Lemma advance_decreases rq e sv p sv' p' : advance rq e sv p = Some (sv', p') -> (steps_left p' < steps_left p)%nat.
Proof. destruct p; cbn [advance]; repeat case_match; intros; simplify_eq; cbn; lia. Qed.

(** No request ever waits: the only receives are the releases, and what they
    receive is the request's own token. *)
Lemma advance_enabled c w i rq p e : winv c w -> w_pool w !! i = Some (rq, p) -> (0 < steps_left p)%nat ->
  is_Some (advance rq e (w_sv w) p).
Proof.
  intros Hi Hl Hp. destruct p; cbn [advance]; try (repeat case_match; eauto; fail); try (cbn in Hp; lia).
  - pose proof (wv_gens _ _ Hi _ _ _ g Hl eq_refl) as Hg.
    destruct (lookup_lt_is_Some_2 _ _ Hg) as [sn ->]. destruct (For _ _ _) as [[r h] ks]. eauto.
  - destruct tok; [|eauto]. destruct (wv_held _ _ Hi _ _ _ _ Hl eq_refl) as (cc & n & Hc & Hn).
    rewrite Hc. unfold Release. rewrite Hn. destruct (wv_tokens _ _ Hi _ _ _ Hc Hn) as [-> _].
    assert (0 < count (holds_slot (ks_Concur ks)) (w_pool w))%nat.
    { eapply count_pos; [done|]. unfold holds_slot. by apply bool_decide_true. }
    destruct (Z.ltb_spec 0 (Z.of_nat (count (holds_slot (ks_Concur ks)) (w_pool w)))); [eauto|lia].
  - rewrite (wv_inflight _ _ Hi).
    assert (0 < count (fun x : request * phase => holds_inflight x.2) (w_pool w))%nat by (by eapply count_pos).
    destruct (Z.ltb_spec 0 (Z.of_nat (count (fun x : request * phase => holds_inflight x.2) (w_pool w)))); [eauto|lia].
Qed.

(** ** The surface *)

(** C4: The HTTP surface is bounded, leaks nothing and never blocks. In every
    state it reaches, under any interleaving of the atomic operations of any
    requests with reloads of the key file (both halves of a reload
    included), whatever the clock, the map orders and the handlers do,
    panics included: the requests past the inflight gate are exactly those
    counted in its channel, and at most the configured number; every slot
    set of every key holds exactly the tokens of the requests holding one,
    within its limit; an unfinished request can always take its next step
    and takes at most eleven; a request past authentication carries the key
    that its credential names in the one generation it loaded, however many
    reloads came since; and when all requests are done every channel is
    empty. *)
Theorem ingress_sound cfg now store router sv0 w :
  Ingress.New cfg now store router = Some sv0 -> rtc wstep (mkWorld sv0 []) w ->
  let sv := w_sv w in
  (sv_inflight sv = Z.of_nat (count (fun x => holds_inflight x.2) (w_pool w)) /\
   sv_inflight sv <= Z.max (MaxInflightRequests (c_Server cfg)) 1) /\
  (forall a c n, concs (sv_heap sv) !! a = Some c -> held c = Some n ->
     n = Z.of_nat (count (holds_slot a) (w_pool w)) /\ n <= limit c) /\
  (forall i rq p, w_pool w !! i = Some (rq, p) -> (exists r, p = PDone r) \/
     forall e, exists sv' p', advance rq e sv p = Some (sv', p') /\ (steps_left p' < steps_left p <= 11)%nat) /\
  (forall i rq p g key, w_pool w !! i = Some (rq, p) -> admitted_as p = Some (g, key) -> authenticated sv rq g key) /\
  ((forall i rq p, w_pool w !! i = Some (rq, p) -> steps_left p = 0%nat) ->
     sv_inflight sv = 0 /\ forall a c n, concs (sv_heap sv) !! a = Some c -> held c = Some n -> n = 0).
Proof.
  intros Hnew Hr sv. assert (winv (Z.max (MaxInflightRequests (c_Server cfg)) 1) w) as Hi.
  { eapply rtc_invariant; [apply ingress_winv_step|done|]. by eapply New_winv. }
  assert (Hzero : forall f, (forall i x, w_pool w !! i = Some x -> f x = false) -> count f (w_pool w) = 0%nat).
  { intros f Hf. destruct (Nat.eq_0_gt_0_cases (count f (w_pool w))) as [|(i & x & Hl & Hx)%count_exists]; [done|].
    rewrite (Hf _ _ Hl) in Hx. done. }
  split_and!; try apply Hi.
  - intros i rq p Hl. destruct (steps_left p) eqn:Es; [left; destruct p; try discriminate Es; eauto|right].
    intros e. destruct (advance_enabled _ _ _ _ _ e Hi Hl) as [[sv' p'] Ha]; [lia|].
    exists sv', p'. split; [done|]. apply advance_decreases in Ha. destruct p; cbn in *; lia.
  - intros Hdone. assert (Hph : forall i x, w_pool w !! i = Some x -> exists r, x.2 = PDone r).
    { intros i [rq p] Hl. specialize (Hdone _ _ _ Hl). destruct p; try discriminate Hdone. eauto. }
    split.
    + subst sv. rewrite (wv_inflight _ _ Hi), Hzero; [done|]. intros i x Hl. by destruct (Hph _ _ Hl) as [r ->].
    + intros a c n Hc Hn. destruct (wv_tokens _ _ Hi _ _ _ Hc Hn) as [-> _]. rewrite Hzero; [done|].
      intros i x Hl. unfold holds_slot. destruct (Hph _ _ Hl) as [r ->]. done.
Qed.
End Facts.

(** ** The credential *)

Definition visible (c : ascii) : bool := in_range 33 126 c.

Lemma space_runes_invisible : Forall (fun w => sforall visible w = false) space_runes.
Proof.
  assert (forallb (fun w => negb (sforall visible w)) space_runes = true) as Hall by (vm_compute; reflexivity).
  apply Forall_forall. intros w Hw. rewrite forallb_forall in Hall. apply negb_true_iff, Hall. by apply list_elem_of_In.
Qed.

Lemma no_space_at_ends s : sforall visible s = true ->
  List.find (fun w => has_prefix w s) space_runes = None /\ List.find (fun w => has_suffix w s) space_runes = None.
Proof.
  intros Hs. pose proof space_runes_invisible as Hsp. rewrite Forall_forall in Hsp. split.
  - destruct (List.find _ _) as [w|] eqn:Ef; [exfalso|done]. apply List.find_some in Ef as [Hw Hp].
    apply list_elem_of_In, Hsp in Hw. apply has_prefix_inv in Hp. by rewrite Hp, sforall_app, Hw in Hs.
  - destruct (List.find _ _) as [w|] eqn:Ef; [exfalso|done]. apply List.find_some in Ef as [Hw Hp].
    apply list_elem_of_In, Hsp in Hw.
    assert (exists t, cut_suffix w s = Some t) as [t ->%cut_suffix_app] by (unfold cut_suffix; rewrite Hp; eauto).
    by rewrite sforall_app, Hw, andb_false_r in Hs.
Qed.

Lemma TrimSpace_visible s : sforall visible s = true -> TrimSpace s = s.
Proof.
  intros Hs. destruct (no_space_at_ends s Hs) as [Hl Hr]. unfold TrimSpace.
  destruct (String.length s) eqn:E; [cbn; by rewrite E|]. cbn [trim_left_space]. rewrite Hl, E. cbn [trim_right_space]. by rewrite Hr.
Qed.

Lemma cut_char_spec c s l r : cut_char c s = Some (l, r) <-> s = l +:+ String c r /\ contains_char c l = false.
Proof.
  revert l r. induction s as [|a s IH]; intros l r; cbn [cut_char].
  - split; [done|]. intros [E _]. by destruct l.
  - destruct (Ascii.eqb_spec a c) as [->|Hne].
    + split; [by intros [= <- <-]|]. intros [E Hl]. destruct l as [|b l]; [by injection E as ->|].
      cbn in E, Hl. injection E as -> _. by rewrite Ascii.eqb_refl in Hl.
    + destruct (cut_char c s) as [[l0 r0]|].
      * split.
        -- intros [= <- <-]. destruct (proj1 (IH l0 r0) eq_refl) as [-> Hl]. cbn. split; [done|].
           by rewrite (proj2 (Ascii.eqb_neq _ _) Hne).
        -- intros [E Hl]. destruct l as [|b l]; [by injection E as -> _|]. injection E as -> E. cbn in Hl. to_prop.
           assert (Some (l0, r0) = Some (l, r)) as [= -> ->] by (by apply IH). done.
      * split; [done|]. intros [E Hl]. destruct l as [|b l]; [by injection E as -> _|]. injection E as -> E. cbn in Hl. to_prop.
        assert (None = Some (l, r)) by (by apply IH). done.
Qed.

Lemma visible_key u id sec : valid_segments u id sec -> sforall visible (format_key u id sec) = true.
Proof.
  intros (Hu & Hid & Hsec). unfold format_key, Prefix. rewrite !sforall_app.
  apply isLowerHex_iff in Hid as [_ Hid], Hsec as [_ Hsec].
  assert (Hhex : forall x, sforall is_hex_lower x = true -> sforall visible x = true).
  { intros x. apply sforall_impl. intros c. unfold is_hex_lower, is_digit, visible, in_range. lia. }
  assert (Hname : forall x, sforall username_char x = true -> sforall visible x = true).
  { intros x. apply sforall_impl. intros c. unfold username_char, is_lower, is_digit, visible, in_range.
    destruct (Ascii.eqb_spec c "_"%char) as [->|]; [done|].
    rewrite orb_false_r, orb_true_iff, !andb_true_iff, !Z.leb_le. lia. }
  rewrite (Hhex _ Hid), (Hhex _ Hsec). cbn. rewrite !andb_true_r.
  destruct u as [|c u]; [done|]. cbn in Hu. to_prop. cbn. rewrite Hname by done. rewrite andb_true_r.
  match goal with Hc : is_lower c = true |- _ => revert Hc end. unfold is_lower, visible, in_range.
  rewrite !andb_true_iff, !Z.leb_le. change (bval "s") with 115. change (bval "-") with 45. lia.
Qed.

(** How a request presents [raw]. *)
Definition presents (authorization apikey : list string) (raw : string) : Prop :=
  (authorization = [] /\ apikey = [raw]) \/
  (exists scheme rest, authorization = [scheme +:+ String " " rest] /\ contains_char " "%char scheme = false /\
     equal_fold scheme "bearer" = true /\ TrimSpace rest = raw /\
     (apikey = [] \/ apikey = [""] \/ apikey = [raw])).

Lemma credential_iff authorization apikey raw :
  credential authorization apikey = Some raw <-> raw <> "" /\ presents authorization apikey raw.
Proof.
  unfold credential, presents. split.
  - destruct authorization as [|v [|]]; [| |done].
    + destruct apikey as [|k [|]]; [done| |done]. cbn. destruct (String.eqb_spec k ""); [done|]. intros [= ->]. auto.
    + destruct (cut_char " "%char v) as [[scheme rest]|] eqn:Ec; [|done]. apply cut_char_spec in Ec as [-> Hs].
      destruct (equal_fold scheme "bearer") eqn:Ef; [|done]. cbn [negb].
      destruct (String.eqb_spec (TrimSpace rest) "") as [|Hne]; [done|]. intros Hk.
      assert (raw = TrimSpace rest /\ (apikey = [] \/ apikey = [""] \/ apikey = [raw])) as [-> Hor].
      { destruct apikey as [|k [|]]; [| |done]; rewrite (proj2 (String.eqb_neq _ _) Hne) in Hk; cbn in Hk; [naive_solver|].
        destruct (String.eqb_spec k "") as [->|]; cbn in Hk; [naive_solver|].
        destruct (String.eqb_spec (TrimSpace rest) k) as [<-|]; cbn in Hk; naive_solver. }
      split; [done|]. right. exists scheme, rest. auto.
  - intros [Hne [[-> ->]|(scheme & rest & -> & Hs & Hf & <- & Hk)]].
    + cbn. by destruct (String.eqb_spec raw "").
    + rewrite (proj2 (cut_char_spec _ _ scheme rest)) by done. rewrite Hf. cbn [negb].
      rewrite (proj2 (String.eqb_neq _ _) Hne).
      destruct Hk as [->|[->| ->]]; rewrite ?(proj2 (String.eqb_neq _ _) Hne), ?String.eqb_refl; cbn; try done.
Qed.

(** The credential is unambiguous. A request presents [raw] exactly when
    [raw] is not empty and either it is the one value of [X-Api-Key] and
    there is no [Authorization], or there is one [Authorization] whose
    scheme, up to case, is [Bearer] and whose rest, trimmed, is [raw], and
    [X-Api-Key] is absent, empty or the same: so a repeated header, another
    scheme, or two credentials that disagree are refused. A minted key is
    presented as it is by either header. *)
Theorem credential_exact authorization apikey raw :
  (credential authorization apikey = Some raw <-> raw <> "" /\ presents authorization apikey raw) /\
  (forall u id sec, valid_segments u id sec -> let key := format_key u id sec in
     credential ["Bearer " +:+ key] [] = Some key /\ credential [] [key] = Some key).
Proof.
  split; [apply credential_iff|]. intros u id sec Hv key.
  assert (String.eqb key "" = false) as Hne by (by apply String.eqb_neq).
  unfold credential. change ("Bearer " +:+ key) with ("Bearer" +:+ String " " key).
  rewrite (proj2 (cut_char_spec _ _ "Bearer" key)) by done.
  change (equal_fold "Bearer" "bearer") with true. cbn [negb]. unfold key at 1 2.
  rewrite TrimSpace_visible by (by apply visible_key). fold key. by rewrite Hne, String.eqb_refl.
Qed.

(** ** The log of refused keys *)

(** Refusals accounted for: one per warning, those a warning reports as
    suppressed, those not reported yet. *)
Definition refusals_logged {F} (sv : server (F := F)) : Z :=
  Z.of_nat (length (sv_warned sv)) + zsum (map snd (sv_warned sv)) + sv_authDropped sv.

(** No refusal of the key store is lost by the rate limit on the log, short
    of a counter wrap. *)
Lemma advance_logged {F} `{Float64 F} rq e (sv : server (F := F)) p sv' p' :
  advance rq e sv p = Some (sv', p') -> in_int64 (sv_authDropped sv + 1) ->
  refusals_logged sv' = refusals_logged sv + (match p with PWarn _ | PCount => 1 | _ => 0 end).
Proof.
  intros Ha Hd. unfold refusals_logged. destruct p; cbn [advance] in Ha.
  8: { injection Ha as <- <-. cbn [set_authLog sv_warned sv_authDropped]. rewrite wrap64_id by exact Hd. lia. }
  7: { injection Ha as <- <-. cbn [set_authLog sv_warned sv_authDropped map length snd]. rewrite zsum_cons. lia. }
  all: repeat case_match; simplify_eq; cbn [set_authLog set_gens set_sources set_globalRPS set_inflight sv_warned sv_authDropped]; lia.
Qed.

(** ** The model list *)

(** The ids a client reads from a model list. *)
Definition listed_ids (body : string) : option (list string) :=
  match json_parse body with
  | Some (JObj [("data", JArr l); _]) =>
      mapM (fun o => match o with JObj m => string_field "id" m | _ => None end) l
  | _ => None
  end.

Lemma model_object_id startedUnix n : valid_utf8 n = true ->
  match model_object startedUnix n with JObj m => string_field "id" m | _ => None end = Some n.
Proof.
  intros Hn. unfold model_object, string_field, decode_field, field_values. unfold List.filter. eval_field_names.
  cbn [map snd fold_left]. unfold decode_string, marshal_string. by rewrite unquote_quote.
Qed.

(** The model list shows exactly what the key may use. A client reads from
    it the public names of the router that the key's access list allows, in
    the router's order; nothing else of a model is in it than the name and
    constants, so no backend, upstream name or URL; and it is a JSON text
    whatever the names contain. *)
Theorem models_list_exact {F} startedUnix names (key : Key F) :
  Forall (fun n => valid_utf8 n = true) names ->
  exists body, handleModels startedUnix names key = RModels body /\
    listed_ids body = Some (List.filter (Allows key) names) /\
    (forall names', List.filter (Allows key) names' = List.filter (Allows key) names ->
       handleModels startedUnix names' key = RModels body).
Proof.
  intros Hv. eexists. split; [done|]. split.
  - unfold listed_ids. rewrite json_parse_print.
    + assert (Forall (fun n => valid_utf8 n = true) (List.filter (Allows key) names)) as Hf.
      { rewrite Forall_forall in *. intros n Hn. apply Hv. apply list_elem_of_In, filter_In in Hn as [Hn _]. by apply list_elem_of_In. }
      revert Hf. induction 1 as [|n l Hn _ IH]; [done|]. cbn [map mapM mbind option_bind].
      rewrite (model_object_id startedUnix n Hn). by rewrite IH.
    + constructor; [done|]. repeat (constructor; [split; [done|]; cbn [snd]|]); [|constructor; apply quote_wf|done].
      constructor; [done|]. apply Forall_map, Forall_forall. intros n _. unfold model_object.
      constructor; [done|]. repeat (constructor; [split; [done|]; cbn [snd]; first [apply marshal_int_wf|constructor; apply quote_wf]|]). done.
  - intros names' E. unfold handleModels. by rewrite E.
Qed.

(** ** Reloads race with first uses *)

Module IngressDemo.
(** A key with one concurrent request and no rate, in both generations. *)
Definition key : Key Q :=
  mkKey (ID Demo.key) "alice" (SecretHash Demo.key) true None ["*"] (mkKeyLimits (0 # 1)%Q 0 1 0 0).
Definition store : Store (F := Q) := mkStore {[ID key := key]} Demo.pep "dummy".
Definition bucket : Bucket Q := mkBucket (100 # 1)%Q (200 # 1)%Q (0 # 1)%Q 0.
Definition sv : server (F := Q) :=
  mkServer 64 0 bucket (mkSources 4096 (100 # 1)%Q 200 ∅) bucket 0 [] (mkPeers [] false) true 0 ["qwen"; "secret"]
    [mkSnapshot store NewRegistry] 0 empty_heap.
Definition rq : request := mkRequest "POST" "/v1/chat/completions" "10.0.0.1:5" [] ["Bearer " +:+ Demo.raw] [].
Definition e : env (F := Q) := mkEnv 1000000000 [] (HServed 200).
(** The first request authenticates under the old generation; the file is
    reloaded with the same key; the first request asks the old registry for
    the key's slots, the second the new one. *)
Definition schedule : list (action (F := Q)) :=
  [AArrive rq; AArrive rq] ++ repeat (AStep 0 e) 5 ++ [AReloadBuild store; AReloadPublish] ++
  repeat (AStep 0 e) 3 ++ repeat (AStep 1 e) 8.
End IngressDemo.

(** A key can be served beyond its concurrency limit across a reload that
    does not change it: a request that loaded the old generation and asks
    its registry for the key after the carry-over was computed builds a slot
    set of its own. *)
Theorem reload_race : exists w g1 g2 ks1 ks2,
  rtc wstep (mkWorld IngressDemo.sv []) w /\
  ConcurrentRequests (Limits IngressDemo.key) = 1 /\
  w_pool w = [(IngressDemo.rq, PServe g1 IngressDemo.key ks1 true); (IngressDemo.rq, PServe g2 IngressDemo.key ks2 true)] /\
  ks_Concur ks1 <> ks_Concur ks2.
Proof.
  destruct (run_schedule IngressDemo.schedule (mkWorld IngressDemo.sv [])) as [w|] eqn:E; [|vm_compute in E; discriminate E].
  assert (Hr := run_schedule_rtc _ _ _ E). vm_compute in E. injection E as E.
  exists w, 0%nat, 1%nat, (mkKeyState None 0%nat), (mkKeyState None 1%nat). subst w. cbn [w_pool].
  split; [exact Hr|]. split; [done|]. split; [vm_compute; reflexivity|done].
Qed.

(** ** Witnesses *)

(** Two requests in flight across a reload, from the server [New] builds for
    an accepted configuration. *)
Module ServerDemo.
Definition cfg : Config (F := Q) := applyDefaults ConfigDemo.cfg.
Definition sv0 : server (F := Q) := Eval vm_compute in
  match Ingress.New cfg 0 IngressDemo.store RoutingDemo.router with Some sv => sv | None => IngressDemo.sv end.
Definition w : world (F := Q) := Eval vm_compute in
  match run_schedule IngressDemo.schedule (mkWorld sv0 []) with Some w => w | None => mkWorld sv0 [] end.
End ServerDemo.

Lemma ingress_sound_witness :
  sv_inflight (w_sv ServerDemo.w) = 2 /\
  sv_inflight (w_sv ServerDemo.w) <= Z.max (MaxInflightRequests (c_Server ServerDemo.cfg)) 1 /\
  authenticated (w_sv ServerDemo.w) IngressDemo.rq 1 IngressDemo.key.
Proof.
  assert (Hn : Ingress.New ServerDemo.cfg 0 IngressDemo.store RoutingDemo.router = Some ServerDemo.sv0) by (vm_compute; reflexivity).
  assert (Hr : run_schedule IngressDemo.schedule (mkWorld ServerDemo.sv0 []) = Some ServerDemo.w) by (vm_compute; reflexivity).
  destruct (ingress_sound ServerDemo.cfg 0 IngressDemo.store RoutingDemo.router ServerDemo.sv0 ServerDemo.w Hn
    (run_schedule_rtc _ _ _ Hr)) as ([_ Hb] & _ & _ & Ha & _).
  split; [vm_compute; reflexivity|]. split; [exact Hb|].
  apply (Ha 1%nat IngressDemo.rq (PServe 1 IngressDemo.key (mkKeyState None 1%nat) true)); vm_compute; reflexivity.
Defined.

Lemma credential_exact_witness :
  credential ["bEARER   k "] ["k"] = Some "k" /\ presents ["bEARER   k "] ["k"] "k" /\
  credential ["Bearer " +:+ Demo.raw] [] = Some Demo.raw.
Proof.
  assert (E : credential ["bEARER   k "] ["k"] = Some "k") by (vm_compute; reflexivity).
  destruct (credential_exact ["bEARER   k "] ["k"] "k") as [Hiff Hkey].
  split; [exact E|]. split; [apply (proj1 Hiff E)|].
  apply (Hkey "alice" (hex_encode Demo.idb) (hex_encode Demo.sb)). split; [|split]; vm_compute; reflexivity.
Defined.

Module ModelsDemo.
Definition key : Key Q := mkKey "k1" "alice" "" true None ["qwen"] (mkKeyLimits (0 # 1)%Q 0 8 0 0).
End ModelsDemo.

(** A model the key is not allowed is not there. *)
Lemma models_list_exact_witness :
  exists body, handleModels 7 ["qwen"; "secret"] ModelsDemo.key = RModels body /\ listed_ids body = Some ["qwen"] /\
    handleModels 7 ["qwen"] ModelsDemo.key = RModels body.
Proof.
  destruct (models_list_exact 7 ["qwen"; "secret"] ModelsDemo.key) as (body & Hb & Hl & Hs).
  - repeat constructor; vm_compute; reflexivity.
  - exists body. split; [exact Hb|]. split; [exact Hl|]. apply Hs. vm_compute. reflexivity.
Defined.
