(* ===== verification/Dispatch.v ===== *)
(** * The inference pipeline: [internal/proxy/proxy.go]

    Body acquisition under the byte budget, the resolution of a request's
    target under the access rules, the preparation of the outbound body and
    quota admission, the retry loop, and the settlement.

    The environment (the client, the clock, the load, each backend's answer)
    is an argument; the budget's, quota's, router's and affinity table's
    operations are those of their own files. *)

From Stdlib Require Import Ascii QArith.
From S2P Require Import Prelude Float64 GoStrings Net Json JsonFacts.
From S2P Require Import Config ConfigFacts Auth Routing Backend Affinity Accounting Errors Outbound.
#[local] Open Scope Z_scope.

(** ** Acquiring the body *)

(** The request's body as net/http presents it: the declared length (-1 for
    a chunked body), the bytes that can be read, and whether reading past
    them fails. *)
Record body_source := mkBody { content_encoding : string; content_length : Z; b_bytes : string; b_fails : bool }.

Inductive read_error := errBodyTooLarge | errBodyRead.
(* src: internal/proxy/proxy.go readBodyLimited *)
Definition readBodyLimited (b : body_source) (max : Z) : result read_error string :=
  if max <? content_length b then Err errBodyTooLarge
  else
    let body := stake (Z.to_nat (max + 1)) (b_bytes b) in
    if (slen body <? max + 1) && b_fails b then Err errBodyRead
    else if max <? slen body then Err errBodyTooLarge
    else Ok body.

(** A call of the budget, and what [readBody] leaves reserved for the
    deferred release. *)
Inductive budget_call := CAcquire (n : Z) | CRelease (n : Z).

(** [grant] is what [Acquire] answers. *)
(* src: internal/proxy/proxy.go Proxy.readBody *)
Definition readBody (maxBody : Z) (o : operation) (b : body_source) (grant : Z -> bool)
    : list budget_call * Z * result apiError string :=
  if negb (String.eqb (op_method o) "POST") then ([], 0, Ok "")
  else if negb (String.eqb (content_encoding b) "") && negb (equal_fold (content_encoding b) "identity")
  then ([], 0, Err errUnsupported)
  else
    let cl := content_length b in
    let want := if (0 <? cl) && (cl <=? maxBody) then Some cl else if cl <? 0 then Some maxBody else None in
    let go calls reserve :=
      match readBodyLimited b maxBody with
      | Err errBodyTooLarge => (calls, reserve, Err errBodyTooBig)
      | Err errBodyRead => (calls, reserve, Err errBodyUnread)
      | Ok body =>
          let n := slen body in
          if n <? reserve then (calls ++ [CRelease (reserve - n)], n, Ok body) else (calls, reserve, Ok body)
      end in
    match want with
    | None => go [] 0
    | Some n => if grant n then go [CAcquire n] n else ([], 0, Err errOverloaded)
    end.

(** The deferred release of what is still reserved. *)
(* src: internal/proxy/proxy.go 718-724 Proxy.readBody *)
Definition release_deferred (reserve : Z) : list budget_call := if 0 <? reserve then [CRelease reserve] else [].

(** ** Resolving the target *)

(* src: internal/proxy/proxy.go target *)
Record target := mkTgt {
  t_model : string; t_stream : bool; t_backend : string; t_path : string;
  t_fields : option fields; t_body : string }.

Section Pipeline.
Context {F : Type} `{Float64 F}.

(** On failure the target still names the model that was parsed. *)
(* src: internal/proxy/proxy.go Proxy.resolveTarget *)
Definition resolveTarget (aff : affinity) (now : time) (r : Router) (key : Key F) (o : operation)
    (responseID body : string) : affinity * target * option apiError :=
  let t0 := mkTgt "" false "" (op_path o) None body in
  if bool_decide (op_route o = routeByModel) then
    match shallowParse body with
    | Err errJSON => (aff, t0, Some errBadJSON)
    | Err errMissingModel => (aff, t0, Some errNoModel)
    | Err errModelNotString => (aff, t0, Some errModelType)
    | Ok (f, publicModel, stream) =>
        let t := mkTgt publicModel stream "" (op_path o) (Some f) body in
        if stream && negb (generative o) then (aff, t, Some errNoStream)
        else if negb (Allows key publicModel) || negb (Has r publicModel) then (aff, t, Some errModelDenied)
        else
          let ty := TypeOf r publicModel in
          if String.eqb ty "embedding" && generative o then (aff, t, Some errNotGenerate)
          else if String.eqb ty "generation" && String.eqb (op_endpoint o) "embeddings" then (aff, t, Some errNotEmbed)
          else if op_capture o then
            match stringField f "previous_response_id" with
            | Some prev =>
                let '(aff, found) := Get aff now (ID key) prev in
                match found with
                | Some (b, m) =>
                    if String.eqb m publicModel
                    then (aff, mkTgt publicModel stream b (op_path o) (Some f) body, None)
                    else (aff, t, Some errPrevNotFound)
                | None => (aff, t, Some errPrevNotFound)
                end
            | None => (aff, t, None)
            end
          else (aff, t, None)
    end
  else
    let '(aff, found) := Get aff now (ID key) responseID in
    match found with
    | None => (aff, t0, Some errRespNotFound)
    | Some (b, m) =>
        if negb (Allows key m) then (aff, t0, Some errRespNotFound)
        else
          let t := mkTgt "" false b (op_path o) None body in
          if negb (isValidResponseID responseID) then (aff, t, Some errRespBadID)
          else
            let path := "/v1/responses/" +:+ responseID in
            let path := if String.eqb (op_method o) "POST" then path +:+ "/cancel" else path in
            (aff, mkTgt "" false b path None body, None)
    end.

(** ** Preparing the body *)

(* src: internal/proxy/proxy.go outbound *)
Record outbound := mkOutbound { ob_fields : option fields; ob_body : string; ob_reservation : Z; injectedUsage : bool }.

(* src: internal/proxy/proxy.go windowLimits *)
Definition windowLimits (l : KeyLimits F) : WindowLimit :=
  mkWindowLimit (Auth.TokensPerHour l) (Auth.TokensPerDay l).

(* src: internal/proxy/proxy.go Proxy.ensureStreamUsage *)
Definition ensureStreamUsage (cfg : Config (F := F)) (k : Key F) : bool :=
  default true (EnsureStreamUsage (c_Accounting cfg)) &&
  (acc_Enabled (c_Accounting cfg) || (0 <? Auth.TokensPerHour (Limits k)) || (0 <? Auth.TokensPerDay (Limits k))).

(* src: internal/proxy/proxy.go Proxy.prepare *)
Definition prepare (cfg : Config (F := F)) (quota : option Quota) (now : time) (key : Key F) (o : operation) (t : target)
    : option Quota * (outbound * option apiError) :=
  let ob := mkOutbound None (t_body t) 0 false in
  if negb (bool_decide (op_route o = routeByModel)) then (quota, (ob, None))
  else
    let cap := match c_Models cfg !! t_model t with Some m => MaxOutputTokens m | None => 0 end in
    match prepareOutbound (default ∅ (t_fields t)) o cap (t_stream t) (ensureStreamUsage cfg key)
            (UnknownUsageReservation (c_Accounting cfg)) with
    | Err errCapExceeded => (quota, (ob, Some errOutputCapExceeded))
    | Err errCapInvalid => (quota, (ob, Some errOutputLimitInvalid))
    | Ok (f, reservation, injected) =>
        let ob := mkOutbound (Some f) "" reservation injected in
        match quota with
        | None => (None, (ob, None))
        | Some q =>
            let '(q, why) := Admit q (ID key) (windowLimits (Limits key)) reservation now in
            match why with
            | Some _ => (Some q, (ob, Some errQuota))
            | None => (Some q, (ob, None))
            end
        end
    end.

(** ** The retry loop *)

(** The wait before repeating a backend, without jitter; the doubling is
    Go's, on int64. *)
Fixpoint backoff_loop (n : nat) (d max : duration) : duration :=
  match n with
  | O => d
  | S n => if d <? max then let d := wrap64 (d * 2) in backoff_loop n (if max <? d then max else d) max else d
  end.
(** [rand] is [rand.Int64N]: below its argument. *)
(* src: internal/proxy/proxy.go Proxy.sleepBackoff *)
Definition sleepBackoff (rt : Retry) (rand : Z -> Z) (attempt : nat) : duration :=
  let max := MaxBackoff rt in
  let d := backoff_loop (attempt - 1) (InitialBackoff rt) max in
  let d := if max <? d then max else d in
  if JitterEnabled rt && (0 <? d) then rand d else d.

(** What a backend answered to one forward: a failure (with the backend's
    own message and Retry-After, when it sent them, and whether the client
    has gone), or a response. *)
Inductive reply :=
| RFail (err : backend_error) (detail retry_after : string) (gone : bool)
| RDone (res : Res).

(** The world of one attempt. *)
Record attempt_env := mkAttempt {
  at_gone : bool;                          (* the client has gone *)
  at_now : time; at_inflight : string -> Z;  (* clock and load at selection *)
  at_slept : bool;                         (* the backoff ran to its end *)
  at_forward : string -> string -> reply   (* by backend and body *)
}.

(** One forward as made, for the theorems: to whom, what, after a backoff
    or not, and its answer. *)
Record forward := mkForward { fw_backend : string; fw_body : string; fw_backoff : bool; fw_reply : reply }.

Record loop_state := mkLoop {
  l_router : Router; l_fields : option fields; l_tried : list string;
  l_lastErr : option (backend_error * string); l_lastFailed : string; l_lastRetryAfter : string;
  l_retries : Z; l_trace : list forward }.

Inductive outcome :=
| OSuccess (backend : string) (res : Res)
| OGone                                    (* logged as 499, nothing written *)
| OFail (e : client_error)
| ONothing.                                (* no error to report: cannot happen *)

Context (cfg : Config (F := F)) (clients : string -> bool).

(** The choice of the attempt's backend: [None] ends the loop. *)
(* src: internal/proxy/proxy.go 343-361 Proxy.dispatch *)
Definition choose (fixed publicModel : string) (i : nat) (env : attempt_env) (st : loop_state)
    : Router * result (option apiError) string :=
  if negb (String.eqb fixed "") then (l_router st, Ok fixed)
  else
    let '(r, sel) := Select (l_router st) (at_now env) (at_inflight env) publicModel (l_tried st) in
    (r, match sel with
        | Ok t => Ok (Routing.t_Backend t)
        | Err _ =>
            match l_lastErr st with
            | Some (err, _) =>
                if retryable (classifyBackendError err) && negb (String.eqb (l_lastFailed st) "")
                then Ok (l_lastFailed st)
                else if (i =? 0)%nat then Err (Some errNoBackend) else Err None
            | None => if (i =? 0)%nat then Err (Some errNoBackend) else Err None
            end
        end).

(** The attempt's body: the decoded fields encoded for this backend, or the
    raw body. *)
(* src: internal/proxy/proxy.go 362-382 Proxy.dispatch *)
Definition attempt_body (r : Router) (backendName raw : string) (f : option fields)
    : result apiError (option fields * string) :=
  match f with
  | None => Ok (None, raw)
  | Some f =>
      match encodeOutbound f (default "" (UpstreamFor r backendName)) with
      | Ok (f, body) => Ok (Some f, body)
      | Err errNoUpstreamModel => Err errInternal
      end
  end.

(** The terminal error: the last failure's, with its Retry-After. *)
(* src: internal/proxy/proxy.go 506-519 Proxy.dispatch *)
Definition terminal (st : loop_state) : outcome :=
  match l_lastErr st with
  | None => ONothing
  | Some (err, detail) =>
      let f := classifyBackendError err in
      let ra := if bool_decide (resp f = errUpstreamRateLimited) && negb (String.eqb (l_lastRetryAfter st) "")
                then Some (l_lastRetryAfter st) else None in
      let relay := match Backends cfg !! l_lastFailed st with Some b => RelayUpstreamErrors b | None => false end in
      OFail (fail_with ra (relayUpstreamDetail relay (resp f) err detail))
  end.

(** The loop from attempt [i] on, [n] attempts left. *)
(* src: internal/proxy/proxy.go 337-504 Proxy.dispatch *)
Fixpoint attempts (n i : nat) (env : nat -> attempt_env) (fixed publicModel raw : string) (st : loop_state)
    : outcome * loop_state :=
  match n with
  | O => (terminal st, st)
  | S n =>
      let e := env i in
      if at_gone e then (OGone, st)
      else
        let '(r, choice) := choose fixed publicModel i e st in
        let st := mkLoop r (l_fields st) (l_tried st) (l_lastErr st) (l_lastFailed st) (l_lastRetryAfter st)
                         (l_retries st) (l_trace st) in
        match choice with
        | Err (Some err) => (OFail (fail_with None err), st)
        | Err None => (terminal st, st)
        | Ok backendName =>
            match attempt_body r backendName raw (l_fields st) with
            | Err err => (OFail (fail_with None err), st)
            | Ok (f, body) =>
                let again := (0 <? i)%nat && String.eqb backendName (l_lastFailed st) in
                let retries := if again then l_retries st + 1 else l_retries st in
                let st := mkLoop r f (l_tried st) (l_lastErr st) (l_lastFailed st) (l_lastRetryAfter st) retries (l_trace st) in
                if again && negb (at_slept e) then (OGone, st)
                else if negb (clients backendName) then (OFail (fail_with None errInternal), st)
                else
                  let rep := at_forward e backendName body in
                  let trace := l_trace st ++ [mkForward backendName body again rep] in
                  match rep with
                  | RDone res =>
                      (OSuccess backendName res,
                       mkLoop (RecordSuccess r backendName) f (l_tried st) (l_lastErr st) (l_lastFailed st)
                              (l_lastRetryAfter st) retries trace)
                  | RFail err detail retryAfter gone =>
                      if bool_decide (err = ErrCanceled) && gone
                      then (OGone, mkLoop r f (l_tried st) (l_lastErr st) (l_lastFailed st) (l_lastRetryAfter st) retries trace)
                      else
                        let lastRetryAfter :=
                          match err with ErrUpstream s => if s =? 429 then retryAfter else "" | _ => "" end in
                        let c := classifyBackendError err in
                        if retryable c then
                          let r := if poisonsHealth c then RecordFailure r (at_now e) backendName else r in
                          attempts n (S i) env fixed publicModel raw
                            (mkLoop r f (l_tried st ++ [backendName]) (Some (err, detail)) backendName lastRetryAfter retries trace)
                        else
                          let st := mkLoop r f (l_tried st) (Some (err, detail)) backendName lastRetryAfter retries trace in
                          (terminal st, st)
                  end
            end
        end
  end.

(* src: internal/proxy/proxy.go 305-329 Proxy.dispatch *)
Definition run_attempts (env : nat -> attempt_env) (r : Router) (t : target) (ob : outbound) : outcome * loop_state :=
  attempts (Z.to_nat (Z.max (MaxAttempts (c_Retry cfg)) 1)) 0 env (t_backend t) (t_model t) (ob_body ob)
    (mkLoop r (ob_fields ob) [] None "" "" 0 []).
(** ** The retry discipline *)

(** What the sequence of forwards of a request can be: each one but the
    first follows a failure that may be retried, and goes either to the
    backend that just failed, after the backoff, or at once to a backend
    that was not tried before; a pinned request stays with its backend. *)
Inductive retry_trace (fixed : string) : list forward -> Prop :=
| rt_nil : retry_trace fixed []
| rt_first f : fw_backoff f = false -> (fixed <> "" -> fw_backend f = fixed) -> retry_trace fixed [f]
| rt_next tr p f err d ra g :
    retry_trace fixed (tr ++ [p]) -> fw_reply p = RFail err d ra g -> retryable (classifyBackendError err) = true ->
    (fw_backend f = fw_backend p /\ fw_backoff f = true \/
     fw_backend f ∉ map fw_backend (tr ++ [p]) /\ fw_backoff f = false) ->
    (fixed <> "" -> fw_backend f = fixed) -> retry_trace fixed ((tr ++ [p]) ++ [f]).

Definition failed (f : forward) : Prop := exists err d ra g, fw_reply f = RFail err d ra g.
Definition own_retry_after (err : backend_error) (ra : string) : string :=
  match err with ErrUpstream s => if s =? 429 then ra else "" | _ => "" end.

(** Between two attempts. *)
Record loop_inv (fixed : string) (i : nat) (st : loop_state) : Prop := {
  li_trace : retry_trace fixed (l_trace st);
  li_len : length (l_trace st) = i;
  li_tried : l_tried st = map fw_backend (l_trace st);
  li_failed : Forall failed (l_trace st);
  li_none : i = O -> l_lastErr st = None;
  li_last : forall tr f, l_trace st = tr ++ [f] -> exists err d ra g, fw_reply f = RFail err d ra g /\
    retryable (classifyBackendError err) = true /\ l_lastErr st = Some (err, d) /\
    l_lastFailed st = fw_backend f /\ l_lastRetryAfter st = own_retry_after err ra;
  li_router : router_wf (l_router st) }.

(** How the loop ends. *)
Definition ends_well (fixed : string) (total : nat) (out : outcome) (st : loop_state) : Prop :=
  let tr := l_trace st in
  retry_trace fixed tr /\ (length tr <= total)%nat /\
  match out with
  | OSuccess b res => exists tr0 f, tr = tr0 ++ [f] /\ Forall failed tr0 /\ fw_backend f = b /\ fw_reply f = RDone res
  | OGone => Forall failed tr
  | ONothing => False
  | OFail e => Forall failed tr /\
      (e = fail_with None errInternal \/ (tr = [] /\ e = fail_with None errNoBackend) \/
       exists tr0 f err d ra g ra', tr = tr0 ++ [f] /\ fw_reply f = RFail err d ra g /\
         e = fail_with ra' (relayUpstreamDetail
               (match Backends cfg !! fw_backend f with Some b => RelayUpstreamErrors b | None => false end)
               (resp (classifyBackendError err)) err d) /\
         (ra' = None \/ err = ErrUpstream 429 /\ ra' = Some ra /\ ra <> ""))
  end.

Lemma Select_fresh r now inflight m tried r' sel : router_wf r ->
  Select (F := F) r now inflight m tried = (r', sel) ->
  router_wf r' /\ forall t, sel = Ok t -> Routing.t_Backend t ∉ tried.
Proof.
  intros Hwf Hsel. split.
  - unfold router_wf. intros m' e He. assert (models r' = models r) as E; [|rewrite E in He; by eapply Hwf].
    change r' with (r', sel).1. rewrite <- Hsel. apply rstep_models. constructor.
  - intros t ->. unfold Select in Hsel. destruct (models r !! m) as [e|] eqn:Em; [|done].
    destruct (candidates r now e tried) as [|c0 cs] eqn:Ec; [done|].
    destruct (pick_index_candidate r inflight m e c0 cs now tried (Hwf _ _ Em) Ec) as (r1 & i & Ep & Hi & _).
    rewrite Ep in Hsel. injection Hsel as _ <-. rewrite <- Ec in Hi. by apply candidates_elem in Hi as [_ [? _]].
Qed.

Lemma last_cases {A} (l : list A) : l = [] \/ exists l' x, l = l' ++ [x].
Proof. destruct l as [|x l] using rev_ind; eauto. Qed.

(** A terminal error is the last failure's. *)
Lemma terminal_ends fixed total st err d :
  retry_trace fixed (l_trace st) -> (length (l_trace st) <= total)%nat -> Forall failed (l_trace st) ->
  l_lastErr st = Some (err, d) ->
  (exists tr0 f ra g, l_trace st = tr0 ++ [f] /\ fw_reply f = RFail err d ra g /\ l_lastFailed st = fw_backend f /\
    l_lastRetryAfter st = own_retry_after err ra) ->
  ends_well fixed total (terminal st) st.
Proof.
  intros Htr Hlen Hf Herr (tr0 & f & ra & g & Et & Hr & Hlf & Hra). unfold ends_well, terminal. rewrite Herr.
  split; [done|]. split; [done|]. split; [done|]. right; right.
  exists tr0, f, err, d, ra, g. eexists. split; [done|]. split; [done|]. rewrite Hlf. split; [reflexivity|].
  destruct (bool_decide _ && _) eqn:E; [right|by left]. apply andb_prop in E as [_ Hne].
  apply negb_true_iff, String.eqb_neq in Hne. rewrite Hra in Hne |- *.
  destruct err as [| | | | | | | | |s| | |]; try done. cbn in *.
  by destruct (Z.eqb_spec s 429) as [->|].
Qed.

(** The backend of the next attempt: after a failure either the same again,
    or one never tried. *)
Lemma choose_next fixed m i e st r' b : loop_inv fixed i st -> choose fixed m i e st = (r', Ok b) ->
  router_wf r' /\ (fixed <> "" -> b = fixed) /\
  (fixed = "" -> b ∉ l_tried st \/ (0 < i)%nat /\ b = l_lastFailed st).
Proof.
  intros Hinv. unfold choose. destruct (String.eqb_spec fixed "") as [->|Hne]; cbn [negb].
  - destruct (Select _ _ _ _ _) as [r sel] eqn:Es. apply Select_fresh in Es as [Hwf Hfresh]; [|apply Hinv].
    destruct sel as [t|err].
    + intros [= <- <-]. split; [done|]. split; [done|]. left. by apply Hfresh.
    + destruct (l_lastErr st) as [[err' d]|] eqn:El.
      * assert (0 < i)%nat as Hi.
        { destruct i; [|lia]. by rewrite (li_none _ _ _ Hinv eq_refl) in El. }
        destruct (_ && _); [intros [= <- <-]; split; [done|split; [done|auto]]|]. by destruct (i =? 0)%nat.
      * by destruct (i =? 0)%nat.
  - intros [= <- <-]. split; [apply Hinv|]. done.
Qed.

(** One more forward keeps the trace disciplined. *)
Lemma trace_snoc fixed i e st m r b body rep : loop_inv fixed i st -> choose fixed m i e st = (r, Ok b) ->
  retry_trace fixed (l_trace st ++ [mkForward b body ((0 <? i)%nat && String.eqb b (l_lastFailed st)) rep]).
Proof.
  intros Hinv Hc. destruct (choose_next _ _ _ _ _ _ _ Hinv Hc) as (_ & Hfix & Hfree).
  pose proof (li_len _ _ _ Hinv) as Hl. destruct (last_cases (l_trace st)) as [E|(tr & p & E)].
  - rewrite E in *. cbn in Hl. subst i. by apply rt_first.
  - rewrite E in *. assert (0 < i)%nat as Hi by (rewrite length_app in Hl; cbn in Hl; lia).
    destruct (li_last _ _ _ Hinv tr p E) as (err & d & ra & g & Hr & Hre & _ & Hlf & _).
    eapply rt_next; [rewrite <- E; apply Hinv|done..| |done]. cbn [fw_backend fw_backoff].
    rewrite (proj2 (Nat.ltb_lt 0 i) Hi), Hlf. cbn [andb].
    destruct (String.eqb_spec b (fw_backend p)) as [->|Hne]; [by left|right]. split; [|done].
    rewrite <- E, <- (li_tried _ _ _ Hinv).
    assert (fw_backend p ∈ l_tried st) as Hp.
    { rewrite (li_tried _ _ _ Hinv), E, map_app. apply elem_of_app. right. by left. }
    destruct (decide (fixed = "")) as [Hf|Hf].
    + destruct (Hfree Hf) as [?|[_ ->]]; [done|]. by rewrite Hlf in Hne.
    + exfalso. apply Hne. rewrite (Hfix Hf). inversion Hinv as [Htr _ _ _ _ _ _]. rewrite E in Htr. clear -Htr Hf.
      inversion Htr as [Ht|f _ Hx Ht|tr' p' f ? ? ? ? _ _ _ _ Hx Ht].
      * by destruct tr.
      * destruct tr as [|? [|? ?]]; [|done..]. injection Ht as ->. symmetry. by apply Hx.
      * apply app_inj_tail in Ht as [_ ->]. symmetry. by apply Hx.
Qed.

Lemma loop_inv_router fixed i st r : loop_inv fixed i st -> router_wf r ->
  loop_inv fixed i (mkLoop r (l_fields st) (l_tried st) (l_lastErr st) (l_lastFailed st) (l_lastRetryAfter st) (l_retries st) (l_trace st)).
Proof. intros [? ? ? ? ? ? ?] ?. by split. Qed.

Lemma RecordFailure_wf r now b : router_wf r -> router_wf (RecordFailure r now b).
Proof. done. Qed.

Lemma choose_wf fixed m i e st r c : loop_inv fixed i st -> choose fixed m i e st = (r, c) -> router_wf r.
Proof.
  intros Hinv. unfold choose. destruct (negb _); [intros [= <- _]; apply Hinv|].
  destruct (Select _ _ _ _ _) as [r' sel] eqn:Es. apply Select_fresh in Es as [Hwf _]; [|apply Hinv]. by intros [= <- _].
Qed.

(** Giving up without an eligible backend. *)
Lemma choose_none fixed m i e st r x : loop_inv fixed i st -> choose fixed m i e st = (r, Err x) ->
  match x with Some err => err = errNoBackend /\ i = O | None => (0 < i)%nat end.
Proof.
  intros Hinv. unfold choose. destruct (negb _); [done|]. destruct (Select _ _ _ _ _) as [r' [t|err]]; [done|].
  destruct (l_lastErr st) as [[err' d]|]; [destruct (_ && _); [done|]|];
    (destruct (Nat.eqb_spec i 0); intros [= _ <-]; [done|lia]).
Qed.

(** After an attempt, the last one failed. *)
Lemma last_failed fixed i st : loop_inv fixed i st -> (0 < i)%nat -> exists tr f err d ra g, l_trace st = tr ++ [f] /\ fw_reply f = RFail err d ra g /\
  retryable (classifyBackendError err) = true /\ l_lastErr st = Some (err, d) /\ l_lastFailed st = fw_backend f /\ l_lastRetryAfter st = own_retry_after err ra.
Proof.
  intros Hinv Hi. destruct (last_cases (l_trace st)) as [E|(tr & f & E)].
  - pose proof (li_len _ _ _ Hinv) as Hl. rewrite E in Hl. cbn in Hl. lia.
  - destruct (li_last _ _ _ Hinv tr f E) as (err & d & ra & g & Hx). by exists tr, f, err, d, ra, g.
Qed.

Lemma attempts_end fixed m raw env n : forall i st out st',
  loop_inv fixed i st -> (0 < n + i)%nat -> attempts n i env fixed m raw st = (out, st') ->
  ends_well fixed (n + i) out st'.
Proof.
  induction n as [|n IH]; intros i st out st' Hinv Hpos Hrun; cbn [attempts] in Hrun.
  - injection Hrun as <- <-. destruct (last_failed _ _ _ Hinv) as (tr & f & err & d & ra & g & E & ? & ? & ? & ? & ?); [lia|].
    eapply terminal_ends; eauto; [apply Hinv|rewrite (li_len _ _ _ Hinv); lia|apply Hinv|]. by exists tr, f, ra, g.
  - assert (Hlen : (length (l_trace st) <= S n + i)%nat) by (rewrite (li_len _ _ _ Hinv); lia).
    pose proof (li_trace _ _ _ Hinv) as Htr. pose proof (li_failed _ _ _ Hinv) as Hfl.
    destruct (at_gone (env i)); [injection Hrun as <- <-; by split_and!|].
    destruct (choose fixed m i (env i) st) as [r choice] eqn:Ec.
    pose proof (choose_wf _ _ _ _ _ _ _ Hinv Ec) as Hwf.
    destruct choice as [b|[err|]].
    2: { destruct (choose_none _ _ _ _ _ _ _ Hinv Ec) as [-> ->]. injection Hrun as <- <-.
         split_and!; try done. right; left. split; [|done]. cbn. apply length_zero_iff_nil, (li_len _ _ _ Hinv). }
    2: { pose proof (choose_none _ _ _ _ _ _ _ Hinv Ec) as Hi. injection Hrun as <- <-.
         destruct (last_failed _ _ _ Hinv Hi) as (tr & f & err & d & ra & g & E & ? & ? & ? & ? & ?).
         eapply terminal_ends; eauto. by exists tr, f, ra, g. }
    cbn [l_fields l_trace l_tried l_lastErr l_lastFailed l_lastRetryAfter l_retries] in Hrun.
    destruct (attempt_body r b raw (l_fields st)) as [[f body]|err] eqn:Eb.
    2: { unfold attempt_body in Eb. destruct (l_fields st); [|done].
         destruct (encodeOutbound _ _) as [[? ?]|[]]; [done|]. injection Eb as <-. injection Hrun as <- <-.
         split_and!; try done. by left. }
    destruct (_ && negb (at_slept (env i))); [injection Hrun as <- <-; by split_and!|].
    destruct (negb (clients b)); [injection Hrun as <- <-; split_and!; try done; by left|].
    pose proof (trace_snoc fixed i (env i) st m r b body (at_forward (env i) b body) Hinv Ec) as Hsn.
    set (again := (0 <? i)%nat && String.eqb b (l_lastFailed st)) in *.
    set (fw := mkForward b body again (at_forward (env i) b body)) in *.
    assert (Hlen' : (length (l_trace st ++ [fw]) <= S n + i)%nat).
    { rewrite length_app, (li_len _ _ _ Hinv). cbn. lia. }
    destruct (at_forward (env i) b body) as [err d ra gone|res] eqn:Er.
    2: { injection Hrun as <- <-. split_and!; try done. by exists (l_trace st), fw. }
    assert (Hfl' : Forall failed (l_trace st ++ [fw])).
    { apply Forall_app. split; [done|]. constructor; [|done]. by exists err, d, ra, gone. }
    destruct (_ && gone); [injection Hrun as <- <-; by split_and!|].
    destruct (retryable (classifyBackendError err)) eqn:Ere.
    + replace (S n + i)%nat with (n + S i)%nat by lia. eapply IH; [|lia|exact Hrun]. split; cbn; try done.
      * rewrite length_app, (li_len _ _ _ Hinv). cbn. lia.
      * by rewrite map_app, (li_tried _ _ _ Hinv).
      * intros tr f0 E. apply app_inj_tail in E as [_ <-]. by exists err, d, ra, gone.
      * by destruct (poisonsHealth _).
    + injection Hrun as <- <-. eapply terminal_ends; try done. by exists (l_trace st), fw, ra, gone.
Qed.

Lemma attempts_disciplined env r t ob out st :
  router_wf r -> run_attempts env r t ob = (out, st) ->
  ends_well (t_backend t) (Z.to_nat (Z.max (MaxAttempts (c_Retry cfg)) 1)) out st.
Proof.
  intros Hwf Hrun. rewrite <- (Nat.add_0_r (Z.to_nat _)). eapply attempts_end; [|lia|exact Hrun].
  split; cbn; try done; [constructor|]. by intros [|] ?.
Qed.

(** C27: The retry discipline. For any client, clock, load and backend
    answers, the loop ends after at most [retry.max_attempts] forwards in
    all. Each forward but the first follows a failure that is allowed to be
    retried: it repeats the backend that just failed, after the backoff, or
    goes at once to a backend not tried before; nothing follows a response or
    a terminal failure, and a request pinned to a backend never leaves it.
    Exactly one outcome results: the last forward's response; an error, which
    is the gateway's own for the last failure and forwards a Retry-After only
    when that failure was an upstream 429 that sent it; or none because the
    client has gone. *)
Theorem retry_discipline env r t ob out st :
  router_wf r -> run_attempts env r t ob = (out, st) ->
  ends_well (t_backend t) (Z.to_nat (Z.max (MaxAttempts (c_Retry cfg)) 1)) out st.
Proof. apply attempts_disciplined. Qed.
(** ** Authorization *)

(** What a resolved target guarantees. *)
Definition authorized (aff : affinity) (now : time) (r : Router) (key : Key F) (o : operation) (responseID : string)
    (t : target) : Prop :=
  match op_route o with
  | routeByModel =>
      Allows key (t_model t) = true /\ Has r (t_model t) = true /\
      (exists f, t_fields t = Some f /\ fields_wf f /\ stringField f "model" = Some (t_model t)) /\
      (t_stream t = true -> generative o = true) /\ t_path t = op_path o /\
      (TypeOf r (t_model t) = "embedding" -> generative o = false) /\
      (TypeOf r (t_model t) = "generation" -> op_endpoint o <> "embeddings") /\
      (t_backend t <> "" -> op_capture o = true /\ exists prev, (Get aff now (ID key) prev).2 = Some (t_backend t, t_model t))
  | routeByResponseID =>
      exists m, (Get aff now (ID key) responseID).2 = Some (t_backend t, m) /\ Allows key m = true /\
      sforall id_char responseID = true /\ 0 < slen responseID <= 256 /\
      (t_path t = "/v1/responses/" +:+ responseID \/
       op_method o = "POST" /\ t_path t = "/v1/responses/" +:+ responseID +:+ "/cancel")
  end.

Lemma resolveTarget_spec aff now r key o responseID body aff' t e :
  resolveTarget aff now r key o responseID body = (aff', t, e) ->
  (e = None -> authorized aff now r key o responseID t) /\
  (forall r', op_route o = routeByModel -> Allows key (t_model t) = false ->
    resolveTarget aff now r' key o responseID body = (aff', t, e)).
Proof.
  unfold resolveTarget, authorized. destruct (op_route o) eqn:Eo.
  - rewrite bool_decide_eq_true_2 by done.
    destruct (shallowParse body) as [[[f m] stream]|[]] eqn:Ep; [|intros [= <- <- <-]; done..].
    apply shallowParse_ok in Ep as (_ & _ & _ & Hf & _ & Hm).
    destruct (stream && negb (generative o)) eqn:Es; [intros [= <- <- <-]; done|].
    destruct (Allows key m) eqn:Ea; cbn [negb orb]; [|intros [= <- <- <-]; done].
    assert (stream = true -> generative o = true) as Hs.
    { intros ->. by destruct (generative o). }
    destruct (Has r m) eqn:Eh; cbn [negb]; [|intros [= <- <- <-]; cbn [t_model]; by rewrite Ea].
    destruct (_ && generative o) eqn:Et1; [intros [= <- <- <-]; cbn [t_model]; by rewrite Ea|].
    destruct (_ && String.eqb (op_endpoint o) "embeddings") eqn:Et2; [intros [= <- <- <-]; cbn [t_model]; by rewrite Ea|].
    assert (TypeOf r m = "embedding" -> generative o = false) as Hty1.
    { intros E. rewrite E in Et1. by destruct (generative o). }
    assert (TypeOf r m = "generation" -> op_endpoint o <> "embeddings") as Hty2.
    { intros E Ee. by rewrite E, Ee in Et2. }
    assert (forall b, t = mkTgt m stream b (op_path o) (Some f) body -> Allows key (t_model t) = false -> False) as Hno.
    { intros b ->. cbn. by rewrite Ea. }
    destruct (op_capture o) eqn:Ec.
    + destruct (stringField f "previous_response_id") as [prev|].
      * destruct (Get aff now (ID key) prev) as [aff1 [[b m']|]] eqn:Eg; [|intros [= <- <- <-]; cbn [t_model]; by rewrite Ea].
        destruct (String.eqb_spec m' m) as [->|]; intros [= <- <- <-]; [|cbn [t_model]; by rewrite Ea].
        split; [intros _|cbn [t_model]; by rewrite Ea]. cbn. split_and!; eauto. intros _. split; [done|]. exists prev. by rewrite Eg.
      * intros [= <- <- <-]. split; [intros _|cbn [t_model]; by rewrite Ea]. cbn. split_and!; eauto. done.
    + intros [= <- <- <-]. split; [intros _|cbn [t_model]; by rewrite Ea]. cbn. split_and!; eauto. done.
  - rewrite bool_decide_eq_false_2 by done.
    destruct (Get aff now (ID key) responseID) as [aff1 [[b m]|]] eqn:Eg; [|intros [= <- <- <-]; done].
    destruct (Allows key m) eqn:Ea; cbn [negb]; [|intros [= <- <- <-]; done].
    unfold isValidResponseID. destruct ((slen responseID =? 0) || (256 <? slen responseID)) eqn:El; cbn [negb];
      [intros [= <- <- <-]; done|].
    destruct (sforall id_char responseID) eqn:Ei; cbn [negb]; intros [= <- <- <-]; [|done].
    split; [intros _|done]. exists m. cbn. to_prop. unfold slen in *. split_and!; try done; try lia.
    destruct (String.eqb_spec (op_method o) "POST"); [right|by left]. split; [done|]. reflexivity.
Qed.

(** C6: Access control. A request is forwarded only on behalf of a key that
    is allowed the model: by model name, the key's list allows the very model
    the body names (last duplicate) and the model is configured and of the
    endpoint's type; a pinned backend is one this key's own stored response
    lives on, under that same model. By response id, the response is this
    key's, created under a model the key is still allowed, and the id is safe
    to be one path segment. And the router is no oracle: for a model the key
    is not allowed, the answer is the same whatever models and backends
    exist. *)
Theorem resolveTarget_authorized aff now r key o responseID body aff' t e :
  resolveTarget aff now r key o responseID body = (aff', t, e) ->
  (e = None -> authorized aff now r key o responseID t) /\
  (forall r', op_route o = routeByModel -> Allows key (t_model t) = false ->
    resolveTarget aff now r' key o responseID body = (aff', t, e)).
Proof. apply resolveTarget_spec. Qed.

(** ** The body budget *)

Definition taken (calls : list budget_call) : Z :=
  zsum (map (fun c => match c with CAcquire n => n | CRelease n => - n end) calls).

Lemma readBodyLimited_ok b max body : 0 <= max -> readBodyLimited b max = Ok body ->
  content_length b <= max /\ slen body <= max /\ slen body <= slen (b_bytes b).
Proof.
  intros Hmax. unfold readBodyLimited. destruct (Z.ltb_spec max (content_length b)); [done|].
  destruct (_ && b_fails b); [done|]. destruct (Z.ltb_spec max (slen (stake (Z.to_nat (max + 1)) (b_bytes b)))); [done|].
  intros [= <-]. split; [lia|]. split; [lia|]. unfold slen. rewrite stake_length. lia.
Qed.

Lemma readBody_spec maxBody o b grant calls reserve res :
  0 <= maxBody -> readBody maxBody o b grant = (calls, reserve, res) ->
  0 <= reserve <= maxBody /\
  taken calls = reserve /\ taken (calls ++ release_deferred reserve) = 0 /\
  (forall body, res = Ok body -> slen body <= maxBody /\
    ((0 <= content_length b -> slen (b_bytes b) <= content_length b) -> slen body <= reserve)).
Proof.
  intros Hmax Hrun.
  assert (0 <= reserve <= maxBody /\ taken calls = reserve /\
    (forall body, res = Ok body -> slen body <= maxBody /\
      ((0 <= content_length b -> slen (b_bytes b) <= content_length b) -> slen body <= reserve))) as (Hr & Ht & Hb).
  { unfold readBody in Hrun.
    destruct (negb _); [injection Hrun as <- <- <-; split_and!; try done; intros body [= <-]; change (slen "") with 0; lia|].
    destruct (_ && _); [by injection Hrun as <- <- <-|].
    set (want := if (0 <? content_length b) && (content_length b <=? maxBody) then Some (content_length b)
                 else if content_length b <? 0 then Some maxBody else None) in *.
    assert (forall n, want = Some n -> 0 <= n <= maxBody /\ (n = content_length b \/ content_length b < 0 /\ n = maxBody)) as Hw.
    { subst want. intros n. destruct (_ && _) eqn:E; to_prop; [intros [= <-]; lia|].
      destruct (Z.ltb_spec (content_length b) 0); [|done]. intros [= <-]. lia. }
    assert (want = None -> 0 < content_length b <= maxBody \/ content_length b < 0 -> False) as Hn.
    { subst want. destruct (_ && _) eqn:E; [done|]. destruct (Z.ltb_spec (content_length b) 0); [done|]. intros _.
      apply andb_false_iff in E as [E|E]; to_prop; lia. }
    clearbody want.
    destruct (readBodyLimited b maxBody) as [body|re] eqn:El.
    - destruct (readBodyLimited_ok _ _ _ Hmax El) as (Hcl & Hm & Hbytes).
      destruct want as [n|].
      + destruct (grant n); [|by injection Hrun as <- <- <-]. destruct (Hw n eq_refl) as [Hn0 Hnc].
        assert (0 <= slen body) by (unfold slen; lia).
        destruct (Z.ltb_spec (slen body) n); injection Hrun as <- <- <-; unfold taken; cbn;
          rewrite ?zsum_cons, ?zsum_nil; (split; [lia|split; [lia|]]); intros ? [= <-]; (split; [done|]); intros Hd; [lia|].
        destruct Hnc as [->|[? ->]]; lia.
      + assert (0 <= slen body) by (unfold slen; lia).
        destruct (Z.ltb_spec (slen body) 0); [lia|]. injection Hrun as <- <- <-. split; [lia|]. split; [done|].
        intros ? [= <-]. split; [done|]. intros Hd.
        destruct (Z.eq_dec (content_length b) 0) as [E0|E0]; [rewrite E0 in Hd; lia|]. exfalso. apply Hn; [done|lia].
    - destruct want as [n|]; [destruct (grant n)|]; destruct re; injection Hrun as <- <- <-;
        unfold taken; cbn; rewrite ?zsum_cons, ?zsum_nil; (split; [try destruct (Hw n eq_refl); lia|split; [lia|done]]). }
  split_and!; try done; try lia. unfold taken, release_deferred in *. rewrite map_app, zsum_app, Ht.
  destruct (Z.ltb_spec 0 reserve); cbn; rewrite ?zsum_cons, ?zsum_nil; lia.
Qed.

(** The byte budget is charged for every body and given back. On every
    path of body acquisition (refusals, oversized and unreadable bodies
    included), what was acquired less what was released is what the deferred
    release returns, so a request leaves the budget as it found it; an
    accepted body is within [max_body_bytes] and, when it is no longer than
    its declared length, fully covered by the reservation while it is held. *)
Theorem readBody_balanced maxBody o b grant calls reserve res :
  0 <= maxBody -> readBody maxBody o b grant = (calls, reserve, res) ->
  0 <= reserve <= maxBody /\
  taken calls = reserve /\ taken (calls ++ release_deferred reserve) = 0 /\
  (forall body, res = Ok body -> slen body <= maxBody /\
    ((0 <= content_length b -> slen (b_bytes b) <= content_length b) -> slen body <= reserve)).
Proof. apply readBody_spec. Qed.

(** ** Settlement *)

(** The fields of [result] the accounting reads. *)
(* src: internal/proxy/proxy.go result *)
Record outcome_record := mkOut {
  o_status : Z; o_model : string; o_backend : string; o_retries : Z;
  o_usage : Usage; o_usageStatus : UsageStatus; o_reservation : Z }.

Definition status_text (s : UsageStatus) : string := match s with UsageExact => "exact" | UsageUnknown => "unknown" end.

(** The settlement and the log record of a request, each with its own reading
    of the clock; [acc] says whether there is a log. *)
(* src: internal/proxy/proxy.go Proxy.account *)
Definition account (quota : option Quota) (acc : bool) (settled now : time) (duration_ms : Z) (key : Key F) (requestID : string)
    (o : operation) (out : outcome_record) : option Quota * option Record_ :=
  match quota, acc with
  | None, false => (None, None)
  | _, _ =>
      let total :=
        match o_usageStatus out with
        | UsageUnknown => if (200 <=? o_status out) && (o_status out <? 300) then o_reservation out else 0
        | UsageExact => Total (o_usage out)
        end in
      let quota := match quota with
                   | Some q => Some (if 0 <? total then Settle q (ID key) total settled else q)
                   | None => None
                   end in
      (quota,
       if acc then
         Some (mkRecord now requestID (ID key) (logModel (o_model out)) (o_backend out) (op_endpoint o) (o_status out)
                 duration_ms (Input (o_usage out)) (Output (o_usage out)) (Total (o_usage out)) (Cached (o_usage out))
                 (Reasoning (o_usage out)) (status_text (o_usageStatus out)) (o_retries out) total)
       else None)
  end.

(** What a request with this outcome costs its key: the usage reported, or
    for a success of unknown usage the reservation. *)
Definition billed (out : outcome_record) : Z :=
  if Present (o_usage out) then Total (o_usage out)
  else if (200 <=? o_status out) && (o_status out <? 300) then o_reservation out else 0.

Lemma Settle_none q k n now : n <= 0 -> Settle q k n now = q.
Proof. intros Hn. unfold Settle. by rewrite (proj2 (Z.leb_le _ _)). Qed.

Lemma account_spec q acc settled now dur key rid o out body :
  o_usage out = ParseUsage body \/ o_usage out = no_usage ->
  o_usageStatus out = StatusOf (o_usage out) -> 0 <= o_reservation out <= MaxInt64 ->
  let '(q', rec) := account (Some q) acc settled now dur key rid o out in
  q' = Some (Settle q (ID key) (billed out) settled) /\ 0 <= billed out <= MaxInt64 /\
  match rec with
  | Some r => acc = true /\ event_of r = mkEvent (ID key) (billed out) now /\ rec_RequestID r = rid /\ rec_Status r = o_status out
  | None => acc = false
  end.
Proof.
  intros Hu Hst Hres. unfold account.
  assert (0 <= Total (o_usage out) <= 2 ^ 41 /\ (Present (o_usage out) = false -> Total (o_usage out) = 0)) as [Ht H0].
  { destruct Hu as [->| ->]; [|by cbn].
    pose proof (ParseUsage_range body) as (_ & _ & _ & _ & Ht & _ & Hn). split; [done|]. intros Hp.
    unfold StatusOf in Hn. rewrite Hp in Hn. by rewrite (proj1 Hn eq_refl). }
  assert (Hmax : 2 ^ 41 <= MaxInt64) by done.
  assert (0 <= billed out <= MaxInt64) as Hb by (unfold billed; repeat case_match; lia).
  rewrite Hst. unfold StatusOf.
  assert ((if Present (o_usage out) then Total (o_usage out)
           else if (200 <=? o_status out) && (o_status out <? 300) then o_reservation out else 0) = billed out) as E by done.
  destruct (Present (o_usage out)) eqn:Ep; rewrite E.
  - split; [destruct (Z.ltb_spec 0 (billed out)); [done|by rewrite Settle_none]|]. split; [done|]. destruct acc; [|done].
    split; [done|]. split; [|done]. unfold event_of, charged. cbn. f_equal. rewrite <- E. by case_match.
  - split; [destruct (Z.ltb_spec 0 (billed out)); [done|by rewrite Settle_none]|]. split; [done|]. destruct acc; [|done].
    split; [done|]. split; [|done]. unfold event_of, charged. cbn. f_equal. rewrite (H0 eq_refl). destruct (Z.eqb_spec (billed out) 0); lia.
Qed.

(** What is logged is what is charged. For every way a request can end, the
    quota is settled with what the outcome costs, and the record, when there
    is a log, stands for that amount and that key, so that replaying it
    charges again what the live quota was charged; no charge is negative. *)
Theorem account_record_settlement q acc settled now dur key rid o out body :
  o_usage out = ParseUsage body \/ o_usage out = no_usage ->
  o_usageStatus out = StatusOf (o_usage out) -> 0 <= o_reservation out <= MaxInt64 ->
  let '(q', rec) := account (Some q) acc settled now dur key rid o out in
  q' = Some (Settle q (ID key) (billed out) settled) /\ 0 <= billed out <= MaxInt64 /\
  match rec with
  | Some r => acc = true /\ event_of r = mkEvent (ID key) (billed out) now /\ rec_RequestID r = rid /\ rec_Status r = o_status out
  | None => acc = false
  end.
Proof. apply account_spec. Qed.
End Pipeline.

(** ** Witnesses *)

Module DispatchDemo.
Definition base : Config (F := Q) := applyDefaults ConfigDemo.cfg.
(** Three attempts in all. *)
Definition cfg : Config (F := Q) :=
  mkConfig (Version base) (c_Server base) (c_Auth base) (c_Security base) (c_Logging base) (c_Accounting base)
    (c_Limits base) (c_Shutdown base) (c_Responses base) (mkRetry 3 1 2 None) (Backends base) (c_Models base).
Definition router : Router := RoutingDemo.r "round-robin".
Definition body : string := js "{'model':'m'}".
Definition f : fields := match shallowParse body with Ok (f, _, _) => f | Err _ => ∅ end.
Definition tgt : target := mkTgt "m" false "" "/v1/chat/completions" (Some f) body.
Definition ob : outbound := mkOutbound (Some f) "" 0 false.
(** Backend [a] is down; [b] answers. *)
Definition env (_ : nat) : attempt_env :=
  mkAttempt false 0 RoutingDemo.load true
    (fun b _ => if String.eqb b "a" then RFail ErrConnect "" "" false else RDone (mkRes 200 "{}" false)).
Definition trace : list forward :=
  [mkForward "a" (js "{'model':'ua'}") false (RFail ErrConnect "" "" false);
   mkForward "b" (js "{'model':'ub'}") false (RDone (mkRes 200 "{}" false))].
Definition key : Key Q := mkKey "k1" "alice" "" true None ["m"] (mkKeyLimits (0 # 1)%Q 0 8 0 0).
Definition aff : affinity := Put [] (newAffinity Hour 10) 0 "k1" "resp_1" "a" "m".
Definition chunked : body_source := mkBody "" (-1) "hello" false.
Definition out : outcome_record := mkOut 200 "m" "b" 1 no_usage UsageUnknown 100.
Definition rec : Record_ := mkRecord 5 "r" "k1" "m" "b" "chat.completions" 200 9 0 0 0 0 0 "unknown" 1 100.
End DispatchDemo.

Lemma retry_discipline_witness :
  exists st, run_attempts DispatchDemo.cfg (fun _ => true) DispatchDemo.env DispatchDemo.router DispatchDemo.tgt DispatchDemo.ob
    = (OSuccess "b" (mkRes 200 "{}" false), st) /\ l_trace st = DispatchDemo.trace /\
  ends_well DispatchDemo.cfg "" 3 (OSuccess "b" (mkRes 200 "{}" false)) st.
Proof.
  assert (Hwf : router_wf DispatchDemo.router).
  { intros m e He. cbn [models DispatchDemo.router RoutingDemo.r] in He. apply lookup_singleton_Some in He as [_ <-]. 
    apply demo_entry_wf. set_solver. }
  set (st := (run_attempts DispatchDemo.cfg (fun _ => true) DispatchDemo.env DispatchDemo.router DispatchDemo.tgt DispatchDemo.ob).2).
  assert (Hrun : run_attempts DispatchDemo.cfg (fun _ => true) DispatchDemo.env DispatchDemo.router DispatchDemo.tgt DispatchDemo.ob
    = (OSuccess "b" (mkRes 200 "{}" false), st)) by (vm_compute; reflexivity).
  exists st. split; [exact Hrun|]. split; [vm_compute; reflexivity|].
  exact (retry_discipline DispatchDemo.cfg (fun _ => true) DispatchDemo.env DispatchDemo.router DispatchDemo.tgt
    DispatchDemo.ob _ _ Hwf Hrun).
Defined.

Lemma resolveTarget_authorized_witness :
  exists aff' t, resolveTarget DispatchDemo.aff 7 DispatchDemo.router DispatchDemo.key opRespGet "resp_1" "" = (aff', t, None) /\
  authorized DispatchDemo.aff 7 DispatchDemo.router DispatchDemo.key opRespGet "resp_1" t.
Proof.
  set (r := resolveTarget DispatchDemo.aff 7 DispatchDemo.router DispatchDemo.key opRespGet "resp_1" "").
  assert (Hr : resolveTarget DispatchDemo.aff 7 DispatchDemo.router DispatchDemo.key opRespGet "resp_1" "" = (r.1.1, r.1.2, None))
    by (vm_compute; reflexivity).
  exists r.1.1, r.1.2. split; [exact Hr|].
  exact (proj1 (resolveTarget_authorized _ _ _ _ _ _ _ _ _ _ Hr) eq_refl).
Defined.

Lemma readBody_balanced_witness :
  readBody 100 opChat DispatchDemo.chunked (fun _ => true) = ([CAcquire 100; CRelease 95], 5, Ok "hello") /\
  taken ([CAcquire 100; CRelease 95] ++ release_deferred 5) = 0.
Proof.
  assert (Hr : readBody 100 opChat DispatchDemo.chunked (fun _ => true) = ([CAcquire 100; CRelease 95], 5, Ok "hello"))
    by (vm_compute; reflexivity).
  assert (H100 : 0 <= 100) by lia.
  split; [exact Hr|]. exact (proj1 (proj2 (proj2 (readBody_balanced 100 _ _ _ _ _ _ H100 Hr)))).
Defined.

Lemma account_record_settlement_witness :
  account (Some NewQuota) true 4 5 9 DispatchDemo.key "r" opChat DispatchDemo.out =
    (Some (Settle NewQuota "k1" 100 4), Some DispatchDemo.rec) /\
  event_of DispatchDemo.rec = mkEvent "k1" 100 5.
Proof.
  assert (Ha : account (Some NewQuota) true 4 5 9 DispatchDemo.key "r" opChat DispatchDemo.out =
    (Some (Settle NewQuota "k1" 100 4), Some DispatchDemo.rec)) by (vm_compute; reflexivity).
  assert (H100 : 0 <= o_reservation DispatchDemo.out <= MaxInt64) by (split; vm_compute; discriminate).
  pose proof (account_record_settlement NewQuota true 4 5 9 DispatchDemo.key "r" opChat DispatchDemo.out ""
    (or_intror eq_refl) eq_refl H100) as Hs.
  rewrite Ha in Hs. split; [exact Ha|]. exact (proj1 (proj2 (proj2 (proj2 Hs)))).
Defined.
