(* ===== verification/Pump.v ===== *)
(** * The stream relay: [Proxy.pump] and the tail of [dispatch]

    The relay reads one event at a time from the SSE reader, captures the
    response id and the usage, swallows the usage chunk it asked for itself
    and writes the rest.  The reader goroutine is handed one token per read,
    so a read and its relay are one iteration; the timers and the client are
    an argument per iteration. *)

From Stdlib Require Import Ascii.
From S2P Require Import Prelude GoStrings Json Accounting Affinity Outbound Sse.

(** What happens around one iteration. *)
Record pump_env := mkPumpEnv {
  p_gone : bool;               (* the client context had ended at the top *)
  p_idle : bool;               (* the idle timer fired before the event came *)
  p_gone_read : bool;          (* the client context had ended when the read failed *)
  p_write_ok : bool;           (* the write to the client succeeded *)
  p_now : time; p_order : list (affKey * affVal) (* for the affinity table *)
}.

(** The outcome of the SSE transport that means cancellation. *)
Definition canceled_error : string := "context canceled".

Record pump_state := mkPump {
  ps_stream : sse_stream; ps_out : list string; ps_captured : bool; ps_usage : Usage; ps_aff : affinity }.

Section Pump.
(** The request: the operation, the key, the backend, whether usage was
    injected, and [server.max_response_bytes]. *)
Context (o : operation) (keyID backendName publicModel : string) (injected : bool) (maxResponseBytes : Z).

Definition bytes_out (st : pump_state) : Z := zsum (map slen (ps_out st)).

(** The id of a response, kept for the affinity once. *)
(* src: internal/proxy/proxy.go 940-949 Proxy.pump *)
Definition capture (e : pump_env) (data : option string) (st : pump_state) : affinity * bool :=
  match data with
  | Some d =>
      if op_capture o && negb (ps_captured st) then
        let id := responseIDFromData d in
        if isValidResponseID id
        then (Put (p_order e) (ps_aff st) (p_now e) keyID id backendName publicModel, true)
        else (ps_aff st, ps_captured st)
      else (ps_aff st, ps_captured st)
  | None => (ps_aff st, ps_captured st)
  end.

Definition chunk_usage (data : option string) (u : Usage) : Usage :=
  match data with
  | Some d => let u' := ParseStreamChunk d in if Present u' then u' else u
  | None => u
  end.
Definition swallowed (data : option string) : bool :=
  injected && match data with Some d => isUsageOnlyChunk d | None => false end.

(** The status, the bytes, the class; [None] is fuel exhaustion. *)
(* src: internal/proxy/proxy.go Proxy.pump *)
Fixpoint pump (fuel i : nat) (env : nat -> pump_env) (st : pump_state) : option (Z * Z * string * pump_state) :=
  match fuel with
  | O => None
  | S fuel =>
      let e := env i in
      if p_gone e then Some (200, bytes_out st, "client_canceled", st)
      else if p_idle e then Some (200, bytes_out st, "backend_stream_error", st)
      else match next (ps_stream st) with
      | None => None
      | Some (Err SEOF, _) => Some (200, bytes_out st, "ok", st)
      | Some (Err (SStream m), _) =>
          if String.eqb m canceled_error && p_gone_read e
          then Some (200, bytes_out st, "client_canceled", st)
          else Some (200, bytes_out st, "backend_stream_error", st)
      | Some (Err _, _) => Some (200, bytes_out st, "backend_stream_error", st)
      | Some (Ok ev, s) =>
          if String.eqb ev "" then pump fuel (S i) env (mkPump s (ps_out st) (ps_captured st) (ps_usage st) (ps_aff st))
          else
            let data := dataField ev in
            let '(aff, captured) := capture e data st in
            let st' := mkPump s (ps_out st) captured (chunk_usage data (ps_usage st)) aff in
            if swallowed data then pump fuel (S i) env st'
            else if (0 <? maxResponseBytes) && (maxResponseBytes <? bytes_out st + slen ev)
            then Some (200, bytes_out st, "backend_stream_error", st')
            else if negb (p_write_ok e) then Some (200, bytes_out st, "client_write_error", st')
            else pump fuel (S i) env (mkPump s (ps_out st ++ [ev]) captured (ps_usage st') aff)
      end
  end.

(** ** What is relayed *)

(** Of the events read, those the client gets, and the usage they carry. *)
Definition kept (evs : list string) : list string :=
  List.filter (fun ev => negb (String.eqb ev "") && negb (swallowed (dataField ev))) evs.
Definition usage_after (u : Usage) (evs : list string) : Usage :=
  fold_left (fun u ev => chunk_usage (dataField ev) u) evs u.

(** The affinity table after a relay: as before, or with one more response
    stored, this key's, under a safe id. *)
Definition aff_after (st st' : pump_state) : Prop :=
  ps_aff st' = ps_aff st \/
  ps_captured st = false /\ op_capture o = true /\
  exists order now id, isValidResponseID id = true /\ ps_aff st' = Put order (ps_aff st) now keyID id backendName publicModel.

Lemma kept_cons ev evs : kept (ev :: evs) = kept [ev] ++ kept evs.
Proof. unfold kept. cbn. by destruct (_ && _). Qed.

Lemma capture_after e data st aff c : capture e data st = (aff, c) ->
  (ps_captured st = true -> c = true) /\
  ((aff = ps_aff st /\ c = ps_captured st) \/
   (c = true /\ ps_captured st = false /\ op_capture o = true /\
    exists order now id, isValidResponseID id = true /\ aff = Put order (ps_aff st) now keyID id backendName publicModel)).
Proof.
  unfold capture. destruct data as [d|]; [|intros [= <- <-]; auto].
  destruct (_ && _) eqn:E; [|intros [= <- <-]; auto]. apply andb_prop in E as [Ho Hc%negb_true_iff].
  destruct (isValidResponseID _) eqn:Ei; intros [= <- <-]; [|auto].
  split; [done|]. right. split_and!; try done. by eexists _, _, _.
Qed.

(** The result of a relay from [st], its events being those of the stream. *)
Definition relayed (fuel : nat) (st : pump_state) (r : Z * Z * string * pump_state) : Prop :=
  let '(status, n, cls, st') := r in
  exists seen rest err, all_events fuel (ps_stream st) = Some (seen ++ rest, err) /\
    status = 200 /\ n = bytes_out st' /\ ps_usage st' = usage_after (ps_usage st) seen /\
    ((ps_out st' = ps_out st ++ kept seen /\ cls ∈ ["ok"; "client_canceled"; "backend_stream_error"]) \/
     (exists seen' ev, seen = seen' ++ [ev] /\ ps_out st' = ps_out st ++ kept seen' /\
       cls ∈ ["backend_stream_error"; "client_write_error"])) /\
    (cls = "ok" -> rest = [] /\ err = SEOF) /\
    aff_after st st' /\
    (0 < maxResponseBytes -> bytes_out st <= maxResponseBytes -> n <= maxResponseBytes).

(** One event read, the rest as [relayed] says. *)
Lemma relayed_step fuel st ev s aff c out st1 r :
  next (ps_stream st) = Some (Ok ev, s) ->
  st1 = mkPump s out c (chunk_usage (dataField ev) (ps_usage st)) aff ->
  out = ps_out st ++ kept [ev] ->
  (0 < maxResponseBytes -> bytes_out st <= maxResponseBytes -> bytes_out st1 <= maxResponseBytes) ->
  (ps_captured st = true -> c = true) ->
  (aff = ps_aff st \/ c = true /\ ps_captured st = false /\ op_capture o = true /\
    exists order now id, isValidResponseID id = true /\ aff = Put order (ps_aff st) now keyID id backendName publicModel) ->
  relayed fuel st1 r -> relayed (S fuel) st r.
Proof.
  intros Hn -> -> Hb Hc Haff. destruct r as [[[status n] cls] st'].
  intros (seen & rest & err & Hall & -> & -> & Hu & Hout & Hok & Ha & Hbound).
  exists (ev :: seen), rest, err. cbn [all_events]. rewrite Hn. cbn [ps_stream] in Hall. rewrite Hall.
  split_and!; try done.
  - destruct Hout as [[Hout Hcls]|(seen' & ev' & -> & Hout & Hcls)]; cbn [ps_out] in Hout.
    + left. split; [|done]. by rewrite kept_cons, Hout, app_assoc.
    + right. exists (ev :: seen'), ev'. split; [done|]. split; [|done]. by rewrite kept_cons, Hout, app_assoc.
  - unfold aff_after in *. cbn [ps_aff ps_captured] in Ha. destruct Ha as [->|(Hc' & Ho & Hput)].
    + destruct Haff as [->|(_ & ? & ? & ?)]; [by left|right; auto].
    + destruct Haff as [->|(Hc'' & _)]; [|congruence]. right. split; [|done].
      destruct (ps_captured st); [|done]. by rewrite Hc in Hc'.
  - intros H0 H1. auto.
Qed.
Lemma all_events_total fuel s : (String.length (s_bytes s) < fuel)%nat -> exists evs e, all_events fuel s = Some (evs, e).
Proof.
  revert s. induction fuel as [|fuel IH]; intros s Hf; [lia|]. cbn.
  destruct (next_total s) as (r & s' & -> & _ & Hok). destruct r as [ev|e]; [|eauto].
  destruct (Hok ev eq_refl) as [_ Hlt]. destruct (IH s') as (evs & e & ->); [lia|]. eauto.
Qed.

(** A return before an event is read. *)
Lemma relayed_now fuel st cls : (String.length (s_bytes (ps_stream st)) < fuel)%nat ->
  cls ∈ ["client_canceled"; "backend_stream_error"] -> relayed fuel st (200, bytes_out st, cls, st).
Proof.
  intros Hf Hc. destruct (all_events_total fuel (ps_stream st) Hf) as (evs & e & Hall).
  exists [], evs, e. split; [done|]. split; [done|]. split; [done|]. split; [done|]. split.
  - left. cbn. rewrite app_nil_r. split; [done|]. set_solver.
  - split; [|split; [by left|done]]. intros ->. rewrite !elem_of_cons, elem_of_nil in Hc. by destruct Hc as [?|[?|[]]].
Qed.

Lemma bytes_out_snoc st s c u a ev : bytes_out (mkPump s (ps_out st ++ [ev]) c u a) = bytes_out st + slen ev.
Proof. unfold bytes_out. cbn. rewrite map_app, zsum_app. cbn. rewrite zsum_cons, zsum_nil. lia. Qed.

Lemma pump_relayed fuel : forall i env st, (String.length (s_bytes (ps_stream st)) < fuel)%nat ->
  exists r, pump fuel i env st = Some r /\ relayed fuel st r.
Proof.
  induction fuel as [|fuel IH]; intros i env st Hf; [lia|]. cbn [pump].
  destruct (p_gone (env i)); [eexists; split; [done|]; apply relayed_now; [done|set_solver]|].
  destruct (p_idle (env i)); [eexists; split; [done|]; apply relayed_now; [done|set_solver]|].
  destruct (next_total (ps_stream st)) as (res & s & Hn & _ & Hok). rewrite Hn.
  destruct res as [ev|[| | |m]].
  2: { eexists. split; [done|]. exists [], [], SEOF. cbn [all_events]. rewrite Hn. split; [done|].
       split; [done|]. split; [done|]. split; [done|]. split; [left; cbn; rewrite app_nil_r; split; [done|set_solver]|].
       split; [done|]. split; [by left|done]. }
  2-3: eexists; split; [done|]; apply relayed_now; [done|set_solver].
  2: { destruct (_ && _); (eexists; split; [done|]; apply relayed_now; [done|set_solver]). }
  destruct (Hok ev eq_refl) as [_ Hlt].
  destruct (String.eqb_spec ev "") as [->|Hne].
  { destruct (IH (S i) env (mkPump s (ps_out st) (ps_captured st) (ps_usage st) (ps_aff st))) as (r & -> & Hr); [cbn; lia|].
    exists r. split; [done|]. eapply relayed_step; [exact Hn|reflexivity|..|exact Hr]; auto. cbn. by rewrite app_nil_r. }
  destruct (capture (env i) (dataField ev) st) as [aff c] eqn:Ec. apply capture_after in Ec as [Hc Haff].
  assert (aff = ps_aff st \/ c = true /\ ps_captured st = false /\ op_capture o = true /\
    exists order now id, isValidResponseID id = true /\ aff = Put order (ps_aff st) now keyID id backendName publicModel) as Haff'.
  { destruct Haff as [[-> _]|Haff]; [by left|by right]. }
  destruct (swallowed (dataField ev)) eqn:Es.
  { destruct (IH (S i) env (mkPump s (ps_out st) c (chunk_usage (dataField ev) (ps_usage st)) aff)) as (r & -> & Hr); [cbn; lia|].
    exists r. split; [done|]. eapply relayed_step; [exact Hn|reflexivity|..|exact Hr]; auto.
    unfold kept. cbn. rewrite Es, andb_false_r. by rewrite app_nil_r. }
  assert (forall cls, cls ∈ ["backend_stream_error"; "client_write_error"] ->
    relayed (S fuel) st (200, bytes_out st, cls, mkPump s (ps_out st) c (chunk_usage (dataField ev) (ps_usage st)) aff)) as Hstop.
  { intros cls Hcls. destruct (all_events_total fuel s) as (evs & e & Hall); [lia|].
    exists [ev], evs, e. cbn [all_events]. rewrite Hn, Hall. split; [done|]. split; [done|]. split; [done|]. split; [done|].
    split; [right; exists [], ev; cbn; rewrite app_nil_r; done|]. split.
    { intros ->. rewrite !elem_of_cons, elem_of_nil in Hcls. by destruct Hcls as [?|[?|[]]]. }
    split; [|done]. destruct Haff' as [->|(_ & ? & ? & ?)]; [by left|right; auto]. }
  destruct (_ && _) eqn:Eb; [eexists; split; [done|]; apply Hstop; set_solver|].
  destruct (negb (p_write_ok (env i))); [eexists; split; [done|]; apply Hstop; set_solver|].
  cbn [ps_usage]. destruct (IH (S i) env (mkPump s (ps_out st ++ [ev]) c (chunk_usage (dataField ev) (ps_usage st)) aff)) as (r & -> & Hr); [cbn; lia|].
  exists r. split; [done|]. eapply relayed_step; [exact Hn|reflexivity|..|exact Hr]; auto.
  - unfold kept. cbn. by rewrite Es, (proj2 (String.eqb_neq _ _) Hne).
  - intros Hpos Hle. rewrite bytes_out_snoc. apply andb_false_iff in Eb as [Eb|Eb]; to_prop; lia.
Qed.

End Pump.

Module PumpDemo.
Definition nl2 : string := String ch_nl (String ch_nl "").
(** A content chunk and the usage chunk the gateway asked for. *)
Definition chunk : string := js "data: {'choices':[{'delta':{}}]}" +:+ nl2.
Definition usage_chunk : string := js "data: {'choices':[],'usage':{'prompt_tokens':3,'completion_tokens':4,'total_tokens':7}}" +:+ nl2.
Definition stream : sse_stream := mkStream (chunk +:+ usage_chunk) None.
Definition env (_ : nat) : pump_env := mkPumpEnv false false false true 0 [].
(** The usage chunk is recorded and not relayed. *)
Example swallows :
  option_map (fun r => (r.1, ps_out r.2, Total (ps_usage r.2)))
    (pump opChat "k" "b" "m" true 1000 (S (String.length (s_bytes stream))) 0 env (mkPump stream [] false no_usage (newAffinity 0 1)))
  = Some (200, slen chunk, "ok", [chunk], 7).
Proof. vm_compute. reflexivity. Qed.
End PumpDemo.
