(* ===== verification/Proxy.v ===== *)
(** * The whole request: [Proxy.dispatch]

    The phases of a request composed as the code composes them, over the
    proxy's shared state (router, affinity table, quota) at the times the
    phases run, ending in the one deferred settlement and its record, each
    with its own reading of the clock. *)

From Stdlib Require Import Ascii QArith.
From S2P Require Import Prelude Float64 GoStrings Net Json JsonFacts Config ConfigFacts Auth Routing Backend Affinity.
From S2P Require Import Accounting Sse Errors Outbound Dispatch Pump.
#[local] Open Scope Z_scope.

Section Proxy.
Context {F : Type} `{Float64 F}.

(** The proxy's state; [px_acc] says whether there is an accounting log. *)
(* src: internal/proxy/proxy.go Proxy *)
Record proxy := mkProxy { px_router : Router; px_aff : affinity; px_quota : option Quota; px_acc : bool }.

(** The budget [New] builds: the aggregate of the buffered bodies. *)
(* src: internal/proxy/proxy.go New *)
Definition budget_total (cfg : Config (F := F)) : Z :=
  let total := wrap64 (MaxBufferedRequestBytes (c_Server cfg) * MaxInflightRequests (c_Server cfg)) in
  if total <=? 0 then 2 ^ 20 else total.

(** The world a request runs in. *)
Record world := mkWorld {
  w_draining : bool; w_grant : Z -> bool;
  w_resolve : time; w_admit : time;
  w_attempts : nat -> attempt_env;
  w_stream : sse_stream; w_pump : nat -> pump_env;      (* a live body and its relay *)
  w_put : time; w_order : list (affKey * affVal);       (* storing a buffered response's id *)
  w_settle : time; w_account : time; w_duration : Z }.        (* the deferred settlement, then its record *)

(** What the client gets. *)
Inductive response :=
| RError (e : client_error)
| RBody (status : Z) (body : string)
| RStream (events : list string)
| RAborted.

Record dispatched := mkDispatched {
  d_proxy : proxy; d_response : response; d_out : outcome_record; d_record : option Record_;
  d_budget : list budget_call; d_trace : list forward; d_target : option target }.

Context (cfg : Config (F := F)) (clients : string -> bool).

(** The last backend a forward went to. *)
Definition last_backend (tr : list forward) : string :=
  match last tr with Some f => fw_backend f | None => "" end.

Definition no_usage_out (status : Z) (model : string) (tr : list forward) (retries : Z) : outcome_record :=
  mkOut status model (last_backend tr) retries no_usage UsageUnknown 0.

(** The relay or the write of a response, then the id it creates. *)
(* src: internal/proxy/proxy.go 452-504 Proxy.dispatch *)
Definition deliver (w : world) (key : Key F) (o : operation) (t : target) (ob : outbound) (px : proxy)
    (b : string) (res : Res) (tr : list forward) (retries : Z) : proxy * response * outcome_record :=
  if Live res then
    match pump o (ID key) b (t_model t) (injectedUsage ob) (MaxResponseBytes (c_Server cfg))
            (S (String.length (s_bytes (w_stream w)))) 0 (w_pump w) (mkPump (w_stream w) [] false no_usage (px_aff px)) with
    | Some (status, _, _, st) =>
        (mkProxy (px_router px) (ps_aff st) (px_quota px) (px_acc px), RStream (ps_out st),
         mkOut status (t_model t) b retries (ps_usage st) (StatusOf (ps_usage st)) (ob_reservation ob))
    | None => (px, RAborted, no_usage_out 500 (t_model t) tr retries)
    end
  else
    let body := BodyBytes res in
    let usage := if consumesUsage o then ParseUsage body else no_usage in
    let reservation := if consumesUsage o then ob_reservation ob else 0 in
    let aff :=
      if op_capture o then
        let id := topLevelID body in
        if isValidResponseID id then Put (w_order w) (px_aff px) (w_put w) (ID key) id b (t_model t) else px_aff px
      else px_aff px in
    (mkProxy (px_router px) aff (px_quota px) (px_acc px), RBody (Status res) body,
     mkOut (Status res) (t_model t) b retries usage (StatusOf usage) reservation).

(** The deferred settlement, on every exit. *)
(* src: internal/proxy/proxy.go 216-249 Proxy.dispatch *)
Definition finish (w : world) (key : Key F) (o : operation) (requestID : string)
    (px : proxy) (resp : response) (out : outcome_record) (calls : list budget_call) (tr : list forward) (t : option target)
    : dispatched :=
  let '(quota, rec) := account (px_quota px) (px_acc px) (w_settle w) (w_account w) (w_duration w) key requestID o out in
  mkDispatched (mkProxy (px_router px) (px_aff px) quota (px_acc px)) resp out rec calls tr t.

(* src: internal/proxy/proxy.go Proxy.dispatch *)
Definition dispatch (px : proxy) (w : world) (key : Key F) (o : operation) (requestID responseID : string) (b : body_source)
    : dispatched :=
  let finish := finish w key o requestID in
  let fail px (e : client_error) model calls tr t retries :=
    finish px (RError e) (no_usage_out (ce_status e) model tr retries) calls tr t in
  if w_draining w then fail px (fail_with None errDraining) "" [] [] None 0
  else
    let '(calls, reserve, body) := readBody (MaxBodyBytes (c_Server cfg)) o b (w_grant w) in
    let calls := calls ++ release_deferred reserve in
    match body with
    | Err e => fail px (fail_with None e) "" calls [] None 0
    | Ok body =>
        let '(aff, t, err) := resolveTarget (px_aff px) (w_resolve w) (px_router px) key o responseID body in
        let px := mkProxy (px_router px) aff (px_quota px) (px_acc px) in
        match err with
        | Some e => fail px (fail_with None e) (t_model t) calls [] None 0
        | None =>
            let '(quota, (ob, err)) := prepare cfg (px_quota px) (w_admit w) key o t in
            let px := mkProxy (px_router px) (px_aff px) quota (px_acc px) in
            match err with
            | Some e => fail px (fail_with None e) (t_model t) calls [] None 0
            | None =>
                let '(out, st) := run_attempts cfg clients (w_attempts w) (px_router px) t ob in
                let px := mkProxy (l_router st) (px_aff px) (px_quota px) (px_acc px) in
                let tr := l_trace st in
                match out with
                | OSuccess bk res =>
                    let '(px, resp, out) := deliver w key o t ob px bk res tr (l_retries st) in
                    finish px resp out calls tr (Some t)
                | OGone =>
                    finish px RAborted (no_usage_out 499 (t_model t) tr (l_retries st)) calls tr (Some t)
                | OFail e => fail px e (t_model t) calls tr (Some t) (l_retries st)
                | ONothing => finish px RAborted (no_usage_out 500 (t_model t) tr (l_retries st)) calls tr (Some t)
                end
            end
        end
    end.

(** ** Every request *)

(** The usage of a relay is one the backend reported, or none. *)
Lemma usage_after_parsed evs u : (exists body, u = ParseUsage body) \/ u = no_usage ->
  (exists body, usage_after u evs = ParseUsage body) \/ usage_after u evs = no_usage.
Proof.
  unfold usage_after. revert u. induction evs as [|ev evs IH]; intros u Hu; [done|]. cbn. apply IH.
  unfold chunk_usage, ParseStreamChunk. destruct (dataField ev) as [d|]; [|done].
  destruct (Present _); [left; eauto|done].
Qed.

Lemma prepare_quota quota now key o t quota' x : prepare cfg quota now key o t = (quota', x) ->
  quota' = quota \/ exists q res, quota = Some q /\ quota' = Some (Admit q (ID key) (windowLimits (Limits key)) res now).1.
Proof.
  unfold prepare. destruct (negb _); [intros [= <- _]; by left|]. destruct (prepareOutbound _ _ _ _ _ _) as [[[f r] inj]|ce]; [|destruct ce; intros [= <- _]; by left].
  destruct quota as [q|]; [|intros [= <- _]; by left]. destruct (Admit q (ID key) (windowLimits (Limits key)) r now) as [q1 why] eqn:Ea.
  intros E. right. exists q, r. split; [done|]. rewrite Ea. cbn. destruct why; by injection E as <- _.
Qed.

Lemma prepare_reservation quota now key o t quota' ob e :
  0 <= UnknownUsageReservation (c_Accounting cfg) <= MaxInt64 ->
  (forall m md, c_Models cfg !! m = Some md -> 0 <= MaxOutputTokens md <= MaxInt64) ->
  prepare cfg quota now key o t = (quota', (ob, e)) -> 0 <= ob_reservation ob <= MaxInt64.
Proof.
  intros Hres Hcaps. unfold prepare. assert (0 < MaxInt64) by done. destruct (negb _); [intros [= _ <- _]; cbn; lia|].
  set (cap := match c_Models cfg !! t_model t with Some m => MaxOutputTokens m | None => 0 end).
  assert (Hcap : 0 <= cap <= MaxInt64) by (subst cap; destruct (c_Models cfg !! t_model t) eqn:E; [by eapply Hcaps|lia]).
  destruct (prepareOutbound _ _ _ _ _ _) as [[[f r] inj]|ce] eqn:Ep; [|destruct ce; intros [= _ <- _]; cbn; lia].
  assert (0 <= r <= MaxInt64) by (destruct (prepareOutbound_reservation _ _ _ _ _ _ _ _ _ Ep) as [->| ->]; [lia|]; destruct (0 <? _); lia).
  destruct quota as [q|]; [|by intros [= _ <- _]]. destruct (Admit q (ID key) (windowLimits (Limits key)) r now) as [q1 why]. destruct why; by intros [= _ <- _].
Qed.

(** What an exit leaves: the quota settled with what the outcome costs, and
    the record of that if there is a log. *)
Definition settled (px : proxy) (w : world) (key : Key F) (requestID : string) (d : dispatched) (calls : list budget_call) : Prop :=
  d_budget d = calls /\ 0 <= billed (d_out d) <= MaxInt64 /\
  (exists q1, px_quota px = Some q1 /\ px_quota (d_proxy d) = Some (Settle q1 (ID key) (billed (d_out d)) (w_settle w))) /\
  (match d_record d with
   | Some rec => px_acc px = true /\ event_of rec = mkEvent (ID key) (billed (d_out d)) (w_account w)
                 /\ rec_RequestID rec = requestID /\ rec_Status rec = o_status (d_out d)
   | None => px_acc px = false
   end) /\
  (match d_response d with RError _ | RAborted => billed (d_out d) = 0 | _ => True end).

Lemma finish_settled w key o rid px resp out calls tr t q1 :
  px_quota px = Some q1 ->
  (exists body, o_usage out = ParseUsage body) \/ o_usage out = no_usage ->
  o_usageStatus out = StatusOf (o_usage out) -> 0 <= o_reservation out <= MaxInt64 ->
  (match resp with RError _ | RAborted => o_usage out = no_usage /\ o_reservation out = 0 | _ => True end) ->
  settled px w key rid (finish w key o rid px resp out calls tr t) calls.
Proof.
  intros Hq Hu Hst Hres Hresp. unfold finish. rewrite Hq.
  assert (exists body, o_usage out = ParseUsage body \/ o_usage out = no_usage) as [body Hb].
  { destruct Hu as [[body ?]|?]; [eauto|exists ""; by right]. }
  pose proof (account_spec q1 (px_acc px) (w_settle w) (w_account w) (w_duration w) key rid o out body Hb Hst Hres) as Hs.
  destruct (account _ _ _ _ _ _ _ _ out) as [q' rec]. destruct Hs as (-> & Hn & Hrec).
  split; [done|]. cbn [d_out d_record d_proxy px_quota d_response]. split; [done|]. split; [eauto|]. split; [exact Hrec|].
  destruct resp as [e|st bd|evs|]; try done; destruct Hresp as [Hnu Hr0]; unfold billed; rewrite Hnu, Hr0; cbn; by destruct (_ && _).
Qed.

Lemma deliver_spec w key o t ob px b res tr retries px' resp out :
  0 <= ob_reservation ob <= MaxInt64 -> deliver w key o t ob px b res tr retries = (px', resp, out) ->
  px_quota px' = px_quota px /\ px_acc px' = px_acc px /\
  ((exists body, o_usage out = ParseUsage body) \/ o_usage out = no_usage) /\
  o_usageStatus out = StatusOf (o_usage out) /\ 0 <= o_reservation out <= MaxInt64 /\
  (match resp with RError _ | RAborted => False | _ => True end).
Proof.
  intros Hres. unfold deliver. destruct (Live res).
  - set (st0 := mkPump (w_stream w) [] false no_usage (px_aff px)).
    destruct (pump_relayed o (ID key) b (t_model t) (injectedUsage ob) (MaxResponseBytes (c_Server cfg))
      (S (String.length (s_bytes (w_stream w)))) 0 (w_pump w) st0) as ([[[status n] cls] st] & -> & Hr); [cbn; lia|].
    intros [= <- <- <-]. cbn. destruct Hr as (seen & rest & err & _ & _ & _ & Hu & _).
    split_and!; try done; try lia. rewrite Hu. apply usage_after_parsed. by right.
  - intros [= <- <- <-]. cbn. split_and!; try done; destruct (consumesUsage o); try lia; eauto.
Qed.

(** What the request was charged against: the quota as it was, or with this
    request's reservation in it. *)
Definition charged_from (q q1 : Quota) (key : Key F) : Prop :=
  q1 = q \/ exists res now, q1 = (Admit q (ID key) (windowLimits (Limits key)) res now).1.
(** The budget is as before; the quota is charged what the outcome costs, and
    one record is written of it if there is a log. *)
Definition accounted (q : Quota) (px : proxy) (w : world) (key : Key F) (requestID : string) (d : dispatched) : Prop :=
  taken (d_budget d) = 0 /\ 0 <= billed (d_out d) <= MaxInt64 /\
  (exists q1, charged_from q q1 key /\ px_quota (d_proxy d) = Some (Settle q1 (ID key) (billed (d_out d)) (w_settle w))) /\
  (match d_record d with
   | Some rec => px_acc px = true /\ event_of rec = mkEvent (ID key) (billed (d_out d)) (w_account w)
                 /\ rec_RequestID rec = requestID /\ rec_Status rec = o_status (d_out d)
   | None => px_acc px = false
   end) /\
  (match d_response d with RError _ | RAborted => billed (d_out d) = 0 | _ => True end).
Definition chargeable (q : Quota) (key : Key F) (px : proxy) : Prop := exists q1, px_quota px = Some q1 /\ charged_from q q1 key.

Lemma settled_accounted q px px0 w key rid d calls : settled px w key rid d calls -> taken calls = 0 -> chargeable q key px ->
  px_acc px = px_acc px0 -> accounted q px0 w key rid d.
Proof.
  intros (Hb & Hn & (q1 & Hq1 & Hq) & Hrec & Hresp) Ht (q2 & Hq2 & Hc) Ha. split; [by rewrite Hb|]. split; [done|].
  assert (q2 = q1) as -> by congruence. split; [eauto|]. by rewrite <- Ha.
Qed.

(** An exit with an error, or without an answer. *)
Lemma failed_accounted q w key o rid px px0 resp status model calls tr retries t : chargeable q key px -> taken calls = 0 -> px_acc px = px_acc px0 ->
  match resp with RError _ | RAborted => True | _ => False end ->
  accounted q px0 w key rid (finish w key o rid px resp (no_usage_out status model tr retries) calls tr t).
Proof.
  intros Hc Ht Ha Hresp. pose proof Hc as (q1 & Hq1 & _). eapply settled_accounted; [|done..].
  apply (finish_settled w key o rid px resp _ calls tr t q1 Hq1); cbn [no_usage_out o_usage o_usageStatus o_reservation]; [by right|done|int64_unfold; lia|by destruct resp].
Qed.

Lemma finish_trace w key o rid px resp out calls tr t : let d := finish w key o rid px resp out calls tr t in d_trace d = tr /\ d_target d = t.
Proof. unfold finish. by destruct (account _ _ _ _ _ _ _ _ _). Qed.

(** The numbers of an accepted configuration. *)
Lemma config_numbers url_parse : config_ok url_parse cfg -> UnknownUsageReservation (c_Accounting cfg) <= MaxInt64 ->
  (forall m md, c_Models cfg !! m = Some md -> MaxOutputTokens md <= MaxInt64) ->
  0 <= MaxBodyBytes (c_Server cfg) /\ 0 <= UnknownUsageReservation (c_Accounting cfg) <= MaxInt64 /\
  forall m md, c_Models cfg !! m = Some md -> 0 <= MaxOutputTokens md <= MaxInt64.
Proof.
  intros Hcfg Hres Hcaps. split; [pose proof (sv_sizes _ (co_server _ _ Hcfg)); lia|]. split; [pose proof (co_reservation _ _ Hcfg); lia|].
  intros m md Hm. split; [|by eapply Hcaps]. destruct (co_models _ _ Hcfg) as [_ Hmodels]. by destruct (Hmodels m md Hm).
Qed.

(** Who was contacted, and why. *)
Definition contacted (px : proxy) (w : world) (key : Key F) (o : operation) (responseID : string) (d : dispatched) : Prop :=
  d_trace d <> [] -> w_draining w = false /\ exists t, d_target d = Some t /\
    authorized (px_aff px) (w_resolve w) (px_router px) key o responseID t /\
    retry_trace (t_backend t) (d_trace d) /\
    (length (d_trace d) <= Z.to_nat (Z.max (MaxAttempts (c_Retry cfg)) 1))%nat.

Lemma uncontacted px w key o responseID w' o' rid px' resp out calls t : contacted px w key o responseID (finish w' key o' rid px' resp out calls [] t).
Proof. intros Hne. by rewrite (proj1 (finish_trace _ _ _ _ _ _ _ _ _ _)) in Hne. Qed.

Lemma prepared_chargeable q px px' now key o t quota x : px_quota px = Some q -> prepare cfg (px_quota px) now key o t = (quota, x) -> px_quota px' = quota ->
  chargeable q key px'.
Proof.
  intros Hq Hp Hpx. destruct (prepare_quota _ _ _ _ _ _ _ Hp) as [E|(q0 & res & E & Eq)]; unfold chargeable, charged_from; rewrite Hpx.
  - exists q. split; [congruence|by left].
  - rewrite Hq in E. injection E as <-. exists (Admit q (ID key) (windowLimits (Limits key)) res now).1. split; [exact Eq|right; by exists res, now].
Qed.

End Proxy.

Module ProxyDemo.
Definition key : Key Q := mkKey "k1" "alice" "" true None ["*"] (mkKeyLimits (0 # 1)%Q 0 8 1000 0).
Definition px : proxy := mkProxy RoutingDemo.router (newAffinity Hour 10) (Some NewQuota) true.
Definition answer : string := js "{'id':'x','usage':{'prompt_tokens':3,'completion_tokens':4,'total_tokens':7}}".
Definition w : world :=
  mkWorld false (fun _ => true) 1 2 (fun _ => mkAttempt false 3 RoutingDemo.load true (fun _ _ => RDone (mkRes 200 answer false)))
    (mkStream "" None) (fun _ => mkPumpEnv false false false true 0 []) 4 [] 5 5 6.
Definition body : body_source := mkBody "" 16 (js "{'model':'qwen'}") false.
Definition d : dispatched := dispatch DispatchDemo.cfg (fun _ => true) px w key opChat "req" "" body.
End ProxyDemo.

