(* ===== verification/Daemon.v ===== *)
(** * The daemon and its users file: [cmd/mellomting/serve.go]

    What the daemon requires of a key set before it serves it, how it watches
    the users file, and how it replaces the key store it serves from.  The
    file system is that of [Host.v]; the store is that of [Auth.v]. *)

From Stdlib Require Import Ascii QArith.
From stdpp Require Import sorting.
From S2P Require Import Prelude Float64 GoStrings Net Crypto Json JsonFacts Config ConfigFacts Auth Routing Backend Affinity Accounting Sse Errors Outbound Dispatch Pump Proxy Paths Prog Host Replace Keys.
#[local] Open Scope Z_scope.

(** ** Quotas the configuration can enforce *)

Section Quotas.
Context {F : Type} `{Float64 F}.
Implicit Types (cfg : Config (F := F)) (k : Key F) (uf : UsersFile F).

Definition budgeted k : bool := (0 <? Auth.TokensPerHour (Limits k)) || (0 <? Auth.TokensPerDay (Limits k)).
(* src: cmd/mellomting/serve.go quotaKeysConfigured *)
Definition quotaKeysConfigured (ks : list (Key F)) : bool := existsb budgeted ks.

Inductive quota_error := QuotaSettingsUnused | QuotaUncounted (names : list string).

(** The models on which a request whose usage is unknown would count zero. *)
(* src: cmd/mellomting/serve.go 429-434 checkQuotaEnforceable *)
Definition uncounted cfg : list string :=
  (filter (fun nm : string * Model => m_Type nm.2 = "embedding" \/ MaxOutputTokens nm.2 = 0) (map_to_list (c_Models cfg))).*1.

(* src: cmd/mellomting/serve.go checkQuotaEnforceable *)
Definition checkQuotaEnforceable cfg uf : result quota_error unit :=
  let hasQuota := quotaKeysConfigured (Keys uf) in
  let acc := c_Accounting cfg in
  if negb (acc_Enabled acc) && negb hasQuota && (bool_decide (EnsureStreamUsage acc <> None) || negb (UnknownUsageReservation acc =? 0))
  then Err QuotaSettingsUnused
  else if negb hasQuota || negb (UnknownUsageReservation acc =? 0) then Ok tt
  else match uncounted cfg with [] => Ok tt | names => Err (QuotaUncounted (merge_sort string_le names)) end.
End Quotas.

(** ** The users file *)

Section Daemon.
Context {F : Type} `{Float64 F}.
Variable yaml_stream : string -> list (option Config.ynode).
Variable yaml_decode : Config.ynode -> option (UsersFile F).
Notation ParseUsers := (ParseUsers yaml_stream yaml_decode).

(** [w_last] is [None] while the file is absent, or could not be examined. *)
(* src: cmd/mellomting/serve.go usersWatcher *)
Record usersWatcher := mkWatcher { w_path : string; w_last : option FileInfo; examined : bool }.

(** The mode is the kind and the permissions. *)
(* src: cmd/mellomting/serve.go sameUsersFile *)
Definition sameUsersFile (a b : option FileInfo) : bool :=
  match a, b with
  | Some a, Some b =>
      SameFile a b && (fi_mtime a =? fi_mtime b) && (fi_size a =? fi_size b) && (bool_decide (fi_kind a = fi_kind b) && (fi_perm a =? fi_perm b))
  | None, None => true
  | _, _ => false
  end.

Inductive poll_error := PollStat (e : errno) | PollRead (e : read_error).

Definition seen_of (r : answer (Lstat "")) : option FileInfo := match r with Ok i => Some i | Err _ => None end.

(** The watcher afterwards, and the contents when there is something to do. *)
(* src: cmd/mellomting/serve.go usersWatcher.poll *)
Definition poll (w : usersWatcher) (force : bool) : prog (usersWatcher * result poll_error (option string)) :=
  let! r := call (Lstat (w_path w)) in
  let seen := seen_of r in
  if negb force && examined w && sameUsersFile (w_last w) seen then Ret (w, Ok None)
  else
    let w := mkWatcher (w_path w) seen true in
    match r with
    | Err e => Ret (w, Err (PollStat e))
    | Ok _ =>
        let! r := Read (w_path w) DefaultMaxSize in
        match r with
        | Err e => Ret (w, Err (PollRead e))
        | Ok data =>
            let! r := call (Lstat (w_path w)) in
            match r with
            | Err e => Ret (w, Err (PollStat e))
            | Ok _ => Ret (w, Ok (if sameUsersFile seen (seen_of r) then Some data else None))
            end
        end
    end.

Inductive startup_error := SPoll (e : poll_error) | SChanging | SPepper | SUsers (e : load_error) | SQuota (e : quota_error) | SStore (e : store_error).

Fixpoint load_tries (n : nat) (w : usersWatcher) : prog (usersWatcher * result startup_error string) :=
  match n with
  | O => Ret (w, Err SChanging)
  | S n =>
      let! x := poll w true in
      match x.2 with
      | Err e => Ret (x.1, Err (SPoll e))
      | Ok (Some data) => Ret (x.1, Ok data)
      | Ok None => load_tries n x.1
      end
  end.
(* src: cmd/mellomting/serve.go usersWatcher.load *)
Definition load (w : usersWatcher) : prog (usersWatcher * result startup_error string) := load_tries 3 w.

(** The random read is the dummy hash of the store. *)
(* src: cmd/mellomting/serve.go parseStore *)
Definition parseStore (cfg : Config (F := F)) (pepper data : string) : prog (result startup_error (Store (F := F) * UsersFile F)) :=
  match ParseUsers data with
  | Err e => Ret (Err (SUsers e))
  | Ok users =>
      match checkQuotaEnforceable cfg users with
      | Err e => Ret (Err (SQuota e))
      | Ok _ =>
          let! r := call (Random 32) in
          Ret (match NewStore users pepper (match r with Ok s => Some s | Err _ => None end) with Err e => Err (SStore e) | Ok s => Ok (s, users) end)
      end
  end.

(** What a reload uses; [d_store] is the store the API serves from. *)
(* src: cmd/mellomting/serve.go daemon *)
Record daemon := mkDaemon { d_users : usersWatcher; d_cfg : Config (F := F); d_pepper : string; d_store : Store (F := F) }.

(** The key store of a starting daemon. *)
(* src: cmd/mellomting/serve.go 680-695 buildDaemon *)
Definition start_users (cfg : Config (F := F)) : prog (result startup_error daemon) :=
  let! p := load_pepper (PepperFile (c_Auth cfg)) in
  match p with
  | None => Ret (Err SPepper)
  | Some pepper =>
      let! x := load (mkWatcher (UsersFilePath (c_Auth cfg)) None false) in
      match x.2 with
      | Err e => Ret (Err e)
      | Ok data =>
          let! r := parseStore cfg pepper data in
          Ret (match r with Err e => Err e | Ok s => Ok (mkDaemon x.1 cfg pepper s.1) end)
      end
  end.

Definition with_watcher (w : usersWatcher) (d : daemon) : daemon := mkDaemon w (d_cfg d) (d_pepper d) (d_store d).
Definition with_store (s : Store (F := F)) (d : daemon) : daemon := mkDaemon (d_users d) (d_cfg d) (d_pepper d) s.

(* src: cmd/mellomting/serve.go daemon.refreshUsers *)
Definition refreshUsers (force : bool) (d : daemon) : prog daemon :=
  let! x := poll (d_users d) force in
  let d := with_watcher x.1 d in
  match x.2 with
  | Err _ | Ok None => Ret d
  | Ok (Some data) =>
      let! r := parseStore (d_cfg d) (d_pepper d) data in
      Ret (match r with Err _ => d | Ok s => with_store s.1 d end)
  end.

(** The signal loop: a tick polls, a SIGHUP forces. *)
Fixpoint refreshes (forces : list bool) (d : daemon) : prog daemon :=
  match forces with
  | [] => Ret d
  | force :: forces => let! d := refreshUsers force d in refreshes forces d
  end.
End Daemon.

(** ** Reloading *)

Lemma sameUsersFile_refl a : sameUsersFile a a = true.
Proof.
  destruct a as [a|]; [|done]. cbn. unfold SameFile. by rewrite !Z.eqb_refl, bool_decide_true.
Qed.

(** What [os.Lstat] tells of a path. *)
Definition info_at (h : host) (path : string) : option FileInfo :=
  match h_names h !! path with
  | Some k => match h_nodes h !! k with Some n => Some (info_of k n) | None => None end
  | None => None
  end.

Section Reload.
Context {F : Type} `{Float64 F}.
Variable yaml_stream : string -> list (option Config.ynode).
Variable yaml_decode : Config.ynode -> option (UsersFile F).
Notation ParseUsers := (ParseUsers yaml_stream yaml_decode).
Notation parseStore := (parseStore yaml_stream yaml_decode).
Notation refreshUsers := (refreshUsers yaml_stream yaml_decode).
Notation refreshes := (refreshes yaml_stream yaml_decode).
Implicit Types (cfg : Config (F := F)) (d : daemon (F := F)).

(** A store the daemon may serve from. *)
Definition acceptable cfg (pep : string) (s : Store (F := F)) : Prop :=
  exists data uf rnd, ParseUsers data = Ok uf /\ checkQuotaEnforceable cfg uf = Ok tt /\ NewStore uf pep rnd = Ok s.

Lemma parseStore_returns cfg pep data :
  returns (fun r => match r with Ok s => acceptable cfg pep s.1 | Err _ => True end) (parseStore cfg pep data).
Proof.
  unfold Daemon.parseStore. destruct (ParseUsers data) as [uf|e] eqn:E; [|done]. destruct (checkQuotaEnforceable cfg uf) as [[]|e] eqn:Eq; [|done].
  intros r. cbn. destruct (NewStore uf pep _) as [s|e] eqn:Es; [|done]. by exists data, uf, (match r with Ok s => Some s | Err _ => None end).
Qed.

Lemma poll_returns w force : returns (fun x => w_path x.1 = w_path w) (poll w force).
Proof.
  unfold poll. apply returns_bind. intros r. cbn [returns]. destruct (negb force && _ && _); [done|]. destruct r as [i|e]; [|done].
  apply returns_bind. eapply returns_mono, returns_any. intros [data|e] _; [|done]. apply returns_bind. intros [i'|e]; done.
Qed.

(** What a reload keeps. *)
Definition carried d d' : Prop :=
  d_cfg d' = d_cfg d /\ d_pepper d' = d_pepper d /\ w_path (d_users d') = w_path (d_users d) /\
  (d_store d' = d_store d \/ acceptable (d_cfg d) (d_pepper d) (d_store d')).

Lemma refresh_returns force d : returns (carried d) (refreshUsers force d).
Proof.
  apply returns_bind. eapply returns_mono, poll_returns. intros [w [[data|]|e]] Hw; cbn in *; [|by split_and!; auto..].
  apply returns_bind. eapply returns_mono, parseStore_returns. intros [s|e] Hs; cbn; (split; [done|split; [done|split; [done|auto]]]).
Qed.

Lemma refreshes_returns forces d : returns (carried d) (refreshes forces d).
Proof.
  revert d. induction forces as [|force forces IH]; intros d; [by repeat split; left|]. apply returns_bind. eapply returns_mono, refresh_returns.
  intros d1 (H1 & H2 & H3 & H4). eapply returns_mono, IH. intros d2 (G1 & G2 & G3 & G4). unfold carried. rewrite G1, G2, G3, H1, H2, H3 in *. split_and!; try done.
  destruct G4 as [->|G4]; [done|by right].
Qed.

(** *** Undisturbed *)
Section Undisturbed.
Variables (path : string) (v0 : host).
Hypothesis Hmine : h_mine v0 = ∅.
Notation fresh := (fresh (kept path v0)).
Notation always := (Prog.always (respects path) behaves (fun _ => True)).
(** The state afterwards, and the result when nothing has failed. *)
Definition ended {A} (f : nat) (Q : A -> Prop) (a : A) (v : host) : Prop :=
  (exists f', (f <= f')%nat /\ fresh f' v) /\ (h_fails v = h_fails v0 -> Q a).

Lemma lstat_spec f v : fresh f v -> (h_fails v0 <= f)%nat ->
  always (ended f (fun r => seen_of r = info_at v0 path /\ (h_names v0 !! path = None -> r = Err ENOENT) /\ (is_ok r = false -> h_names v0 !! path = None))) (call (Lstat path)) v.
Proof.
  intros Hv Hf v1 r v2 Hi Hb. pose proof (fresh_others path v0 _ _ _ Hv Hi) as Hv1. split; [done|]. cbn [Prog.always].
  pose proof Hv1 as (_ & _ & Hn & Hk). unfold info_at. destruct r as [i|e]; cbn in Hb.
  - destruct Hb as [(k & n & Hp & Hkn & ->) ->]. split; [by exists f|]. intros _. rewrite <- Hn, Hp. rewrite Hn in Hp. rewrite <- (Hk k Hp), Hkn. done.
  - assert (e = ENOENT /\ h_names v1 !! path = None /\ v2 = v1 \/ e <> ENOENT /\ v2 = fault v1) as [(-> & Hp & ->)|[He ->]] by (destruct e; naive_solver).
    + split; [by exists f|]. intros _. rewrite <- Hn, Hp. done.
    + apply fresh_failed in Hv1. split; [exists (S f); split; [lia|done]|]. destruct Hv1 as (_ & Hfl & _). rewrite Hfl. lia.
Qed.

(** The outcome of a poll. *)
Definition polled (force : bool) (w : usersWatcher) : usersWatcher * result poll_error (option string) :=
  let seen := info_at v0 path in
  if negb force && examined w && sameUsersFile (w_last w) seen then (w, Ok None)
  else (mkWatcher (w_path w) seen true,
        if bool_decide (h_names v0 !! path = None) then Err (PollStat ENOENT)
        else match read_answer path v0 DefaultMaxSize true with Err e => Err (PollRead e) | Ok data => Ok (Some data) end).

Lemma ended_weaken {A} f f1 (Q Q' : A -> Prop) a v : (f <= f1)%nat -> (Q a -> Q' a) -> ended f1 Q a v -> ended f Q' a v.
Proof. intros Hf HQ [(f' & Hf' & Hv) H1]. split; [exists f'; split; [lia|done]|auto]. Qed.

(** The second look finds the file that was read. *)
Lemma reread_spec last f v : fresh f v -> (h_fails v0 <= f)%nat -> (f = h_fails v0 -> info_at v0 path = last) -> is_Some last ->
  always (ended f (eq (mkWatcher path last true, match read_answer path v0 DefaultMaxSize true with Err e => Err (PollRead e) | Ok data => Ok (Some data) end)))
    (let! r := Read path DefaultMaxSize in
     match r with
     | Err e => Ret (mkWatcher path last true, Err (PollRead e))
     | Ok data =>
         let! r := call (Lstat path) in
         match r with
         | Err e => Ret (mkWatcher path last true, Err (PollStat e))
         | Ok _ => Ret (mkWatcher path last true, Ok (if sameUsersFile last (seen_of r) then Some data else None))
         end
     end) v.
Proof.
  intros Hv Hf Hl Hs. apply always_bind. eapply always_mono, (read_spec path v0 DefaultMaxSize true (fun _ => True) (h_fails v0) eq_refl); [|done|done|lia].
  intros rr v2 ((f2 & Hf2 & Hv2) & _ & Hrr). pose proof Hv2 as (_ & Hfl2 & _). rewrite Hfl2 in Hrr. destruct rr as [data|e].
  - apply always_bind. eapply always_mono, (lstat_spec f2 v2 Hv2); [|lia]. intros r v3 [(f3 & Hf3 & Hv3) Hr]. pose proof Hv3 as (_ & Hfl3 & _).
    destruct r as [i|e]; (split; [exists f3; split; [lia|done]|]); rewrite Hfl3 in *; intros E.
    + destruct (Hr E) as (-> & _). rewrite Hl, sameUsersFile_refl, <- Hrr by lia. done.
    + destruct (Hr E) as (_ & _ & Hn). unfold info_at in Hl. rewrite Hn in Hl by done. rewrite <- Hl in Hs by lia. by destruct Hs.
  - split; [exists f2; split; [lia|done]|]. rewrite Hfl2. intros E. by rewrite <- Hrr by lia.
Qed.

Lemma poll_spec w force f v : w_path w = path -> fresh f v -> (h_fails v0 <= f)%nat ->
  always (ended f (eq (polled force w))) (poll w force) v.
Proof.
  destruct w as [p last ex]. intros Hw. cbn in Hw. subst p. intros Hv Hf. unfold poll, polled. cbn [w_path w_last examined].
  apply always_bind. eapply always_mono, (lstat_spec f v Hv Hf). intros r v1 [(f1 & Hf1 & Hv1) Hr]. pose proof Hv1 as (_ & Hfl & _). rewrite Hfl in Hr.
  destruct (negb force && ex && sameUsersFile last (seen_of r)) eqn:Es.
  { split; [by exists f1|]. rewrite Hfl. intros (<- & _)%Hr. by rewrite Es. }
  destruct r as [i|e].
  - eapply always_mono, (reread_spec (Some i) f1 v1 Hv1); [|lia|by intros (<- & _)%Hr|done]. intros a v' [(f2 & Hf2 & Hv2) Ha].
    split; [exists f2; split; [lia|done]|]. intros E. pose proof Hv2 as (_ & Hfl2 & _). rewrite <- (Ha E). destruct Hr as (Hi & Hn & _); [lia|]. cbn [seen_of] in *. rewrite <- Hi, Es.
    by rewrite bool_decide_false by (intros C; by specialize (Hn C)).
  - split; [by exists f1|]. rewrite Hfl. intros (Hi & Hn & Hne)%Hr. rewrite <- Hi, Es, bool_decide_true by auto. by injection (Hn (Hne eq_refl)) as ->.
Qed.

(** What a reload does to the daemon. *)
Definition reloaded (force : bool) d d' : Prop :=
  let x := polled force (d_users d) in
  d_users d' = x.1 /\ d_cfg d' = d_cfg d /\ d_pepper d' = d_pepper d /\
  match x.2 with
  | Ok (Some data) =>
      match ParseUsers data with
      | Ok uf => match checkQuotaEnforceable (d_cfg d) uf with
                 | Ok _ => exists rnd, NewStore uf (d_pepper d) (Some rnd) = Ok (d_store d')
                 | Err _ => d_store d' = d_store d
                 end
      | Err _ => d_store d' = d_store d
      end
  | _ => d_store d' = d_store d
  end.

Lemma NewStore_total (uf : UsersFile F) pep rnd : pep <> "" -> exists s, NewStore uf pep (Some rnd) = Ok s.
Proof. intros Hp. unfold NewStore. apply String.eqb_neq in Hp. rewrite Hp. eauto. Qed.

Lemma random_spec f v n : fresh f v -> (h_fails v0 <= f)%nat -> always (ended f (fun r => exists s, r = Ok s)) (call (Random n)) v.
Proof.
  intros Hv Hf v1 r v2 Hi Hb. pose proof (fresh_others path v0 _ _ _ Hv Hi) as Hv1. split; [done|]. cbn [Prog.always]. destruct r as [s|e]; cbn in Hb.
  - destruct Hb as [_ ->]. split; [by exists f|eauto].
  - subst v2. apply fresh_failed in Hv1. split; [exists (S f); split; [lia|done]|]. destruct Hv1 as (_ & Hfl & _). rewrite Hfl. lia.
Qed.

Lemma refresh_spec force d f v : w_path (d_users d) = path -> d_pepper d <> "" -> fresh f v -> (h_fails v0 <= f)%nat ->
  always (ended f (reloaded force d)) (refreshUsers force d) v.
Proof.
  intros Hw Hpep Hv Hf. apply always_bind. eapply always_mono, (poll_spec (d_users d) force f v Hw Hv Hf). intros [w r] v1 [(f1 & Hf1 & Hv1) Hp].
  pose proof Hv1 as (_ & Hfl & _). rewrite Hfl in Hp. unfold reloaded. cbn [fst snd] in *.
  destruct r as [[data|]|e]; try (split; [by exists f1|]; rewrite Hfl; intros E; by rewrite (Hp E)).
  unfold Daemon.parseStore. destruct (ParseUsers data) as [uf|e] eqn:Eu; [|split; [by exists f1|]; rewrite Hfl; intros E; rewrite (Hp E); cbn; by rewrite Eu].
  destruct (checkQuotaEnforceable (d_cfg d) uf) as [[]|e] eqn:Eq; cbn [d_cfg with_watcher]; rewrite Eq;
    [|split; [by exists f1|]; rewrite Hfl; intros E; rewrite (Hp E); cbn; by rewrite Eu, Eq].
  apply always_bind, always_bind. eapply always_mono, (random_spec f1 v1 32 Hv1); [|lia]. intros r v2 [(f2 & Hf2 & Hv2) Hr]. pose proof Hv2 as (_ & Hfl2 & _). rewrite Hfl2 in Hr.
  cbn [Prog.always]. split; [exists f2; split; [lia|done]|]. rewrite Hfl2. intros E. destruct (Hr E) as [rnd ->]. rewrite (Hp ltac:(lia)). cbn [fst snd]. rewrite Eu, Eq. cbn [d_pepper with_watcher].
  destruct (NewStore_total uf (d_pepper d) rnd Hpep) as [s Es]. rewrite Es. cbn. split_and!; eauto.
Qed.
End Undisturbed.

Lemma refresh_undisturbed force d d' v0 v : d_pepper d <> "" -> h_mine v0 = ∅ ->
  rtc (Prog.step (respects (w_path (d_users d))) behaves) (refreshUsers force d, v0) (Ret d', v) -> h_fails v = h_fails v0 ->
  reloaded (w_path (d_users d)) v0 force d d'.
Proof.
  intros Hpep Hm Hr E. pose proof (refresh_spec (w_path (d_users d)) v0 force d (h_fails v0) v0 eq_refl Hpep) as Hs.
  destruct (always_adequate _ _ (fun _ => True) _ _ _ _ _ (Hs ltac:(by repeat split) ltac:(lia)) I Hr) as [_ [_ Hq]]. by apply Hq.
Qed.

(** C25: Reloading the users file is fail-closed, and exact when nothing
    interferes.  Over any number of ticks and SIGHUPs, whatever the operating
    system answers and other processes do, the configuration and the pepper
    stay, and the store served is the one before or was built from bytes
    that parse, validate and pass the quota check: no error widens or empties
    access.  And a reload during which no operation fails and nobody touches
    the path leaves the daemon with exactly the store of the file there, when
    its metadata changed since it was last examined (or a SIGHUP asked) and
    the file is a private regular one of at most 1 MiB that is acceptable,
    and with the store it had in every other case; it has then examined the
    metadata the path has. *)
Theorem reload_exact d d' v0 v (Hpep : d_pepper d <> "") :
  (forall forces, rtc step (refreshes forces d, v0) (Ret d', v) -> carried d d') /\
  (forall force, rtc (Prog.step (respects (w_path (d_users d))) behaves) (refreshUsers force d, v0) (Ret d', v) ->
     h_mine v0 = ∅ -> h_fails v = h_fails v0 -> reloaded (w_path (d_users d)) v0 force d d').
Proof.
  split.
  - intros forces Hr. by eapply returns_adequate, Hr; apply refreshes_returns.
  - intros force Hr Hm E. by eapply refresh_undisturbed.
Qed.

(** *** Withdrawing a key *)

Lemma ParseUsers_valid data uf : ParseUsers data = Ok uf -> validateUsers uf = Ok tt.
Proof.
  unfold Keys.ParseUsers. destruct (yaml_stream data) as [|[n|] l]; try done. destruct (CheckYAMLTree n); [|done]. destruct (CheckSingleDocument _); [|done].
  destruct (yaml_decode n) as [uf'|]; [|done]. destruct (validateUsers uf') as [[]|] eqn:E; [|done]. by intros [= <-].
Qed.

(** A revocation can only make the quota settings unused. *)
Lemma revoke_quota cfg uf uf' id : checkQuotaEnforceable cfg uf = Ok tt -> revoke uf id = Ok uf' ->
  checkQuotaEnforceable cfg uf' = Ok tt \/
  (checkQuotaEnforceable cfg uf' = Err QuotaSettingsUnused /\ acc_Enabled (c_Accounting cfg) = false /\
   quotaKeysConfigured (Keys uf) = true /\ quotaKeysConfigured (Keys uf') = false).
Proof.
  intros Hc Hr. assert (quotaKeysConfigured (Keys uf') = true -> quotaKeysConfigured (Keys uf) = true) as Hq.
  { unfold revoke in Hr. destruct (remove_first id (Keys uf)) as [ks|] eqn:E; [|done]. injection Hr as <-. cbn.
    destruct (remove_first_split _ _ _ E) as (l1 & k & l2 & -> & _ & _ & ->). unfold quotaKeysConfigured. rewrite !existsb_app. cbn. destruct (existsb budgeted l1), (budgeted k), (existsb budgeted l2); auto. }
  unfold checkQuotaEnforceable in *. destruct (quotaKeysConfigured (Keys uf')).
  - rewrite Hq in Hc by done. left. rewrite !andb_false_r in *. done.
  - destruct (acc_Enabled _); [by left|]. cbn [negb andb orb] in *. destruct (bool_decide _ || negb _) eqn:E; [right|by left].
    destruct (quotaKeysConfigured (Keys uf)); [done|]. cbn [negb andb] in Hc. done.
Qed.

Section Revoke.
Variable yaml_marshal : UsersFile F -> option string.
Variables (egid : Z) (id : string) (d d' : daemon (F := F)) (uf : UsersFile F) (rnd : option string) (v0 v1 v2 v3 : host) (force : bool).
Notation path := (w_path (d_users d)).
Notation revocation := (update_locked yaml_stream yaml_decode yaml_marshal egid path (fun uf => no_output (revoke uf id))).
(** The daemon serves the keys of the file. *)
Hypothesis Hcur : current yaml_stream yaml_decode path v0 = Some uf.
Hypothesis Hstore : NewStore uf (d_pepper d) rnd = Ok (d_store d).
Hypothesis Hquota : checkQuotaEnforceable (d_cfg d) uf = Ok tt.
(** The key command succeeds. *)
Hypothesis Hmine0 : h_mine v0 = ∅.
Hypothesis Hrevoke : rtc (Prog.step (respects path) behaves) (revocation, v0) (Ret (Ok tt), v1).
(** What the encoder makes of the changed list parses back to it. *)
Hypothesis Hback : forall uf' out, revoke uf id = Ok uf' -> yaml_marshal uf' = Some out -> ParseUsers out = Ok uf'.
(** The daemon finds that file, sees that it is another, and reloads. *)
Hypothesis Hsame : same_entry path v1 v2.
Hypothesis Hmine2 : h_mine v2 = ∅.
Hypothesis Hseen : force = true \/ examined (d_users d) = false \/ sameUsersFile (w_last (d_users d)) (info_at v2 path) = false.
Hypothesis Hreload : rtc (Prog.step (respects path) behaves) (refreshUsers force d, v2) (Ret d', v3).
Hypothesis Hfine : h_fails v3 = h_fails v2.

Lemma private_mode m : m = 384 \/ (416 <> 0 /\ Z.land m 416 = m) -> WorldAccessible m = false.
Proof.
  unfold WorldAccessible. intros [->|[_ E]]; [done|]. rewrite <- E, <- Z.land_assoc. change (Z.land 416 7) with 0. by rewrite Z.land_0_r.
Qed.

Lemma revoked_file : exists uf' out, revoke uf id = Ok uf' /\ validateUsers uf' = Ok tt /\ yaml_marshal uf' = Some out /\ ParseUsers out = Ok uf' /\
  read_answer path v2 DefaultMaxSize true = (if DefaultMaxSize <? slen out then Err FTooLarge else Ok out) /\ is_Some (h_names v2 !! path).
Proof using Hcur Hmine0 Hrevoke Hback Hsame.
  assert (update_safe yaml_stream yaml_decode yaml_marshal path _ (fun uf => no_output (revoke uf id)) v0 v0) as H0 by (eapply fresh_steady; by split).
  destruct (always_adequate _ _ _ _ _ _ _ _ (update_locked_spec yaml_stream yaml_decode yaml_marshal egid path unit _ v0 Hmine0) H0 Hrevoke) as [_ Hq].
  destruct Hq as (out & k & Ho & Hk & _ & n & Hn & Hkind & Hdata & _ & Hperm & _). unfold outcome in Ho. rewrite Hcur in Ho. unfold updated, no_output in Ho.
  destruct (revoke uf id) as [uf'|e] eqn:Er; [|done]. destruct (validateUsers uf') as [[]|] eqn:Ev; [|done]. destruct (yaml_marshal uf') as [out'|] eqn:Em; [|done].
  injection Ho as <-. pose proof (Hback uf' out' eq_refl Em) as Hp. exists uf', out'. split; [done|]. split; [done|]. split; [done|]. split; [done|].
  destruct Hsame as [S1 S2]. rewrite S1. split; [|by rewrite Hk]. unfold read_answer. rewrite S1, Hk, (S2 k Hk), Hn, Hkind. rewrite bool_decide_true by done. cbn [negb].
  rewrite (private_mode _ Hperm). cbn [andb]. assert (n_data n = out') as -> by (by rewrite Hdata). done.
Qed.

(** C9: A revocation takes effect at the next reload, from the command's
    return to the daemon's answers.  The daemon serves the keys that the file
    has when [key revoke] takes its lock; the command succeeds; what the YAML
    encoder makes of the changed list parses back to it; and nobody touches
    the file from then on.  Then the first poll that sees the changed file (or
    a SIGHUP), and during which no operation fails, leaves the daemon denying
    that key as unknown, and answering every other raw key as before.  There
    are two exceptions, in which the daemon cannot use the new file and goes
    on serving the revoked key: when accounting is disabled, its quota
    settings are set, and the revoked key was the last with a token quota, the
    daemon refuses the file; and when the encoded list is longer than 1 MiB,
    which the command does not check, the daemon does not read it. *)
Theorem revocation_takes_effect : exists uf' out, revoke uf id = Ok uf' /\ yaml_marshal uf' = Some out /\
  ((forall now raw, Lookup (d_store d') now raw = withdrawn id revoked (d_store d) now raw) \/
   (acc_Enabled (c_Accounting (d_cfg d)) = false /\ quotaKeysConfigured (Keys uf) = true /\ quotaKeysConfigured (Keys uf') = false /\
    checkQuotaEnforceable (d_cfg d) uf' = Err QuotaSettingsUnused /\ d_store d' = d_store d) \/
   (DefaultMaxSize < slen out /\ d_store d' = d_store d)).
Proof.
  destruct revoked_file as (uf' & out & Hr & Hv' & Hm & Hp & Hread & Hsome). exists uf', out. split; [done|]. split; [done|].
  assert (validateUsers uf = Ok tt) as Hv.
  { unfold current in Hcur. destruct (h_names v0 !! path); [|by injection Hcur as <-]. destruct (h_nodes v0 !! z) as [n|]; [|done]. destruct (_ && _ && _); [|done].
    destruct (ParseUsers (n_data n)) as [u|] eqn:E; [|done]. injection Hcur as <-. by eapply ParseUsers_valid. }
  assert (d_pepper d <> "") as Hpep by (intros E; unfold NewStore in Hstore; by rewrite E in Hstore).
  pose proof (refresh_undisturbed force d d' v2 v3 Hpep Hmine2 Hreload Hfine) as (_ & _ & _ & Hl). unfold polled in Hl.
  assert (negb force && examined (d_users d) && sameUsersFile (w_last (d_users d)) (info_at v2 path) = false) as Hgo by (destruct Hseen as [->|[->| ->]]; by rewrite ?andb_false_r).
  rewrite Hgo in Hl. rewrite bool_decide_false in Hl by (intros C; rewrite C in Hsome; by destruct Hsome). rewrite Hread in Hl. cbn [snd] in Hl.
  destruct (Z.ltb_spec DefaultMaxSize (slen out)) as [Hlong|_]; [by auto|]. rewrite Hp in Hl.
  destruct (revoke_quota (d_cfg d) uf uf' id Hquota Hr) as [E|(E & Ha & Hq & Hq')]; rewrite E in Hl; [left|right; left; by split_and!].
  destruct Hl as [rnd' Hs']. intros now raw. by eapply revoke_lookup.
Qed.
End Revoke.
End Reload.

(** ** No request is free *)

Section Counted.
Context {F : Type} `{Float64 F}.
Implicit Types (cfg : Config (F := F)) (k : Key F).

Lemma uncounted_nil cfg name m : uncounted cfg = [] -> c_Models cfg !! name = Some m -> m_Type m <> "embedding" /\ MaxOutputTokens m <> 0.
Proof.
  unfold uncounted. intros E Hm. apply fmap_nil_inv in E. apply elem_of_map_to_list in Hm.
  assert ((name, m) ∉ filter (fun nm : string * Model => m_Type nm.2 = "embedding" \/ MaxOutputTokens nm.2 = 0) (map_to_list (c_Models cfg))) as Hn by (rewrite E; apply not_elem_of_nil).
  split; intros C; apply Hn; apply list_elem_of_filter; cbn; auto.
Qed.

(** What the check leaves: a reservation, or an output cap on every model,
    none of which is an embedding model. *)
Lemma quota_enforced cfg uf k : checkQuotaEnforceable cfg uf = Ok tt -> k ∈ Keys uf -> budgeted k = true ->
  UnknownUsageReservation (c_Accounting cfg) <> 0 \/
  forall name m, c_Models cfg !! name = Some m -> m_Type m <> "embedding" /\ MaxOutputTokens m <> 0.
Proof.
  intros Hc Hk Hb. assert (quotaKeysConfigured (Keys uf) = true) as Hq by (apply existsb_exists; exists k; by rewrite <- list_elem_of_In).
  unfold checkQuotaEnforceable in Hc. rewrite Hq, andb_false_r in Hc. cbn [negb andb orb] in Hc.
  destruct (Z.eqb_spec (UnknownUsageReservation (c_Accounting cfg)) 0) as [E|E]; [right|by left]. cbn in Hc.
  destruct (uncounted cfg) eqn:Eu; [|done]. intros name m. by apply uncounted_nil.
Qed.

(** The router knows the models of the configuration. *)
Definition serves_models cfg (r : Router) : Prop :=
  forall m, Has r m = true -> exists md, c_Models cfg !! m = Some md /\ TypeOf r m = m_Type md.

Lemma New_serves url_parse cfg r : config_ok url_parse cfg -> Routing.New cfg = Ok r -> serves_models cfg r.
Proof.
  intros Hc Hr m. destruct (New_ok url_parse cfg Hc) as (r' & Hr' & _ & Hm & _). assert (r' = r) as -> by congruence.
  unfold Has, TypeOf. rewrite bool_decide_eq_true, Hm. destruct (c_Models cfg !! m) as [md|]; cbn; intros [e He]; [|done]. by exists md.
Qed.

(** By model, the body reserves for a request whose usage stays unknown. *)
Lemma prepare_reserves url_parse cfg uf k quota now o t quota' ob aff now' r rid :
  config_ok url_parse cfg -> serves_models cfg r -> checkQuotaEnforceable cfg uf = Ok tt -> k ∈ Keys uf -> budgeted k = true ->
  forall key : Key F, o ∈ operations -> op_route o = routeByModel -> authorized aff now' r key o rid t ->
  prepare cfg quota now key o t = (quota', (ob, None)) -> 0 < ob_reservation ob.
Proof.
  intros Hcfg Hserve Hc Hk Hb key Ho Hroute Hauth Hp. unfold authorized in Hauth. rewrite Hroute in Hauth.
  destruct Hauth as (_ & Hhas & _ & _ & _ & Hemb & Hgen & _). destruct (Hserve _ Hhas) as (md & Hmd & Hty).
  pose proof (co_reservation _ _ Hcfg) as Hres0. destruct (proj2 (co_models _ _ Hcfg) _ _ Hmd) as [_ Htype _ _ _ _ _ Hcap0].
  assert (forall c, prepareOutbound (default ∅ (t_fields t)) o (MaxOutputTokens md) (t_stream t) (ensureStreamUsage cfg key) (UnknownUsageReservation (c_Accounting cfg)) = Ok c -> 0 < c.1.2) as Hr.
  { intros [[f r0] inj] Ep. cbn. destruct (quota_enforced _ _ _ Hc Hk Hb) as [Hne|Hall].
    - destruct (prepareOutbound_reservation _ _ _ _ _ _ _ _ _ Ep) as [->| ->]; [lia|]. rewrite (proj2 (Z.ltb_lt _ _)) by lia. lia.
    - destruct (Hall _ _ Hmd) as [Hne Hcap]. assert (generative o = true) as Hg.
      { destruct Htype as [Ht|]; [|done]. rewrite Hty, Ht in Hgen. specialize (Hgen eq_refl). unfold operations in Ho. rewrite !elem_of_cons, elem_of_nil in Ho. by destruct_or! Ho; subst. }
      unfold generative in Hg. unfold prepareOutbound in Ep. destruct (String.eqb (capField o) ""); [done|]. cbn [negb andb] in Ep.
      rewrite (proj2 (Z.ltb_lt _ _)) in Ep by lia. destruct (tokenLimit _ _ _); [|done]. destruct (if negb _ then _ else _); [|done].
      destruct (t_stream t && _ && _); [destruct (injectStreamUsage _)|]; injection Ep as _ <- _; destruct (Z.ltb_spec 0 (UnknownUsageReservation (c_Accounting cfg))); lia. }
  unfold prepare in Hp. rewrite Hroute in Hp. cbn in Hp. rewrite Hmd in Hp. destruct (prepareOutbound _ _ _ _ _ _) as [[[f r0] inj]|[]] eqn:Ep; [|done..].
  specialize (Hr _ eq_refl). cbn in Hr. destruct quota as [q|]; [|by injection Hp as _ <-]. destruct (Admit _ _ _ _ _) as [q1 [why|]]; [done|]. by injection Hp as _ <-.
Qed.

Lemma account_unknown q acc ts now dur key rid o (out : outcome_record) : o_usageStatus out = UsageUnknown ->
  200 <= o_status out < 300 -> 0 < o_reservation out ->
  (account (F := F) (Some q) acc ts now dur key rid o out).1 = Some (Settle q (ID key) (o_reservation out) ts).
Proof.
  intros Hu Hs Hr. unfold account. rewrite Hu. rewrite (proj2 (Z.leb_le _ _)), (proj2 (Z.ltb_lt (o_status out) _)) by lia. cbn [andb]. by rewrite (proj2 (Z.ltb_lt _ _)).
Qed.

Lemma finish_response w (key : Key F) o rid px resp out calls tr t : d_response (finish w key o rid px resp out calls tr t) = resp.
Proof. unfold finish. by destruct (account _ _ _ _ _ _ _ _ _). Qed.
Lemma finish_out w (key : Key F) o rid px resp out calls tr t : d_out (finish w key o rid px resp out calls tr t) = out.
Proof. unfold finish. by destruct (account _ _ _ _ _ _ _ _ _). Qed.
Lemma finish_quota w (key : Key F) o rid px resp out calls tr t :
  px_quota (d_proxy (finish w key o rid px resp out calls tr t)) = (account (px_quota px) (px_acc px) (w_settle w) (w_account w) (w_duration w) key rid o out).1.
Proof. unfold finish. by destruct (account _ _ _ _ _ _ _ _ _). Qed.

Lemma deliver_reservation cfg w (key : Key F) o t ob px b res tr retries px' resp out : consumesUsage o = true ->
  deliver cfg w key o t ob px b res tr retries = (px', resp, out) ->
  px_quota px' = px_quota px /\ match resp with RBody _ _ | RStream _ => o_reservation out = ob_reservation ob | _ => True end.
Proof.
  intros Hc. unfold deliver. destruct (Live res).
  - destruct (pump _ _ _ _ _ _ _ _ _ _) as [[[[status n] cls] st]|]; by intros [= <- <- <-].
  - rewrite Hc. by intros [= <- <- <-].
Qed.

(** C24: No successful request that names a model is free to a key with a
    token budget.  For a configuration and a users file the daemon starts with
    or reloads (one with a budgeted key), and any request of an operation
    routed by its model (all but the retrieval and the cancellation of a
    stored response, which use no tokens) that a backend answers with success
    while its usage stays unknown (the backend reports none, the relay is cut
    short, the numbers do not add up), the quota of the key that made it is
    settled with a positive amount: a missing report cannot stop a budget
    from advancing, whether or not usage is logged. *)
Theorem quota_always_advances url_parse cfg clients uf k px w (key : Key F) o requestID responseID b q
  (Hcfg : config_ok url_parse cfg) (Hserve : serves_models cfg (px_router px))
  (Hcheck : checkQuotaEnforceable cfg uf = Ok tt) (Hk : k ∈ Keys uf) (Hb : budgeted k = true)
  (Ho : o ∈ operations) (Hroute : op_route o = routeByModel) (Hq : px_quota px = Some q) :
  let d := dispatch cfg clients px w key o requestID responseID b in
  match d_response d with RBody _ _ | RStream _ => True | _ => False end ->
  200 <= o_status (d_out d) < 300 -> o_usageStatus (d_out d) = UsageUnknown ->
  exists q1 n, 0 < n /\ (q1 = q \/ exists res now, q1 = (Admit q (ID key) (windowLimits (Limits key)) res now).1) /\
    px_quota (d_proxy d) = Some (Settle q1 (ID key) n (w_settle w)).
Proof.
  intros d. subst d. unfold dispatch. set (fin := finish w key o requestID).
  assert (forall px' e (x : outcome_record) calls tr t (P : Prop), match d_response (fin px' (RError e) x calls tr t) with RBody _ _ | RStream _ => True | _ => False end -> P) as Hno
    by (intros *; subst fin; by rewrite finish_response).
  destruct (w_draining w); [by (intros C; exfalso; eapply Hno, C)|]. destruct (readBody _ _ _ _) as [[calls reserve] [body|e]]; [|by (intros C; exfalso; eapply Hno, C)].
  destruct (resolveTarget _ _ _ _ _ _ _) as [[aff t] err] eqn:Et. destruct (resolveTarget_spec _ _ _ _ _ _ _ _ _ _ Et) as [Hauth _].
  destruct err as [e|]; [by (intros C; exfalso; eapply Hno, C)|]. specialize (Hauth eq_refl). cbn [px_router px_aff px_quota px_acc].
  destruct (prepare cfg _ _ _ _ _) as [quota [ob err]] eqn:Ep. pose proof (prepare_quota _ _ _ _ _ _ _ _ Ep) as Hquota.
  destruct err as [e|]; [by (intros C; exfalso; eapply Hno, C)|]. pose proof (prepare_reserves _ _ _ _ _ _ _ _ _ _ _ _ _ _ Hcfg Hserve Hcheck Hk Hb _ Ho Hroute Hauth Ep) as Hpos.
  destruct (run_attempts _ _ _ _ _ _) as [att st]. destruct att as [bk res| |e|]; try (intros C; exfalso; eapply Hno, C); cbn [px_router px_aff px_quota px_acc].
  2, 3: subst fin; by rewrite finish_response.
  destruct (deliver _ _ _ _ _ _ _ _ _ _) as [[px' resp] out] eqn:Ed. apply deliver_reservation in Ed as [Hpq Hr]; [|unfold consumesUsage; by rewrite Hroute].
  subst fin. rewrite finish_response, finish_out, finish_quota. cbn in Hpq. intros Hresp Hs Hu.
  assert (o_reservation out = ob_reservation ob) as Er by (by destruct resp). rewrite Hpq.
  assert (exists q1, quota = Some q1 /\ (q1 = q \/ exists res now, q1 = (Admit q (ID key) (windowLimits (Limits key)) res now).1)) as (q1 & -> & Hq1).
  { destruct Hquota as [->|(q0 & r0 & E & ->)]; [exists q; split; [done|by left]|]. assert (q0 = q) as -> by congruence. eexists. split; [done|]. right. eauto. }
  exists q1, (ob_reservation ob). split; [done|]. split; [done|]. rewrite account_unknown by (done || lia). by rewrite Er.
Qed.
End Counted.

(** ** Witnesses *)

Module DaemonDemo.
(** Accounting is off; a request of unknown usage counts 500 tokens. *)
Definition base : Config (F := Q) := DispatchDemo.cfg.
Definition cfg : Config (F := Q) :=
  mkConfig (Version base) (c_Server base) (c_Auth base) (c_Security base) (c_Logging base)
    (mkAccounting false "" None None 0 0 "" "" 0 500) (c_Limits base) (c_Shutdown base) (c_Responses base) (c_Retry base) (Backends base) (c_Models base).
(** Alice's key, with 1000 tokens a day. *)
Definition key : Key Q := Eval vm_compute in
  mkKey (ID Auth.Demo.key) (Name Auth.Demo.key) (SecretHash Auth.Demo.key) true None ["*"] (mkKeyLimits (1 # 2)%Q 0 8 0 1000).
Definition users : UsersFile Q := mkUsersFile 1 [key].

Definition host0 : host := KeysDemo.host0.
Definition watcher : usersWatcher := mkWatcher KeysDemo.path (info_at host0 KeysDemo.path) true.
Definition d (c : Config (F := Q)) : daemon := mkDaemon watcher c Auth.Demo.pep Auth.Demo.store.
(** The host after the revocation, as the daemon sees it. *)
Definition v1 : host := (run [] KeysDemo.job host0).2.
Definition v2 : host := mkHost (h_names v1) (h_nodes v1) ∅ (h_hist v1) ∅ 0 ∅.
Definition poll_once : prog (daemon (F := Q)) := refreshUsers KeysDemo.stream KeysDemo.decode false (d base).
Definition d' : daemon := (run [] poll_once v2).1.

(** The key command's change is seen, and only once. *)
Example polls :
  let x := run [] poll_once v2 in
  (Lookup (d_store (d base)) 0 Auth.Demo.raw, Lookup (d_store x.1) 0 Auth.Demo.raw, h_fails x.2,
   (run [] (poll (d_users x.1) false) x.2).1.2) = (Ok (normalize Auth.Demo.key), Err ErrUnknownKey, 0%nat, Ok None).
Proof. vm_compute. reflexivity. Qed.

(** Revoking the last key with a token quota is refused by the daemon: it
    goes on serving the revoked key. *)
Definition decode (n : Config.ynode) : option (UsersFile Q) :=
  match n with Config.YNode _ _ _ line _ => if line =? 5 then Some (mkUsersFile 1 []) else Some users end.
Definition serving : daemon := mkDaemon watcher cfg Auth.Demo.pep (mkStore (index_keys [key]) Auth.Demo.pep "dummy").
Example last_quota_key_survives :
  let revoked := run [] (keyRevoke KeysDemo.stream decode KeysDemo.marshal 0 KeysDemo.path (ID key)) host0 in
  let seen := mkHost (h_names revoked.2) (h_nodes revoked.2) ∅ (h_hist revoked.2) ∅ 0 ∅ in
  let after := run [] (refreshUsers KeysDemo.stream decode true serving) seen in
  (revoked.1, option_map n_data (snd <$> node_at seen KeysDemo.path), Lookup (d_store after.1) 0 Auth.Demo.raw) =
  ((0, Some ("revoked key " +:+ ID key)), Some "none.", Ok (normalize key)).
Proof. vm_compute. reflexivity. Qed.

(** An answer that reports no usage. *)
Definition w : world :=
  mkWorld false (fun _ => true) 1 2 (fun _ => mkAttempt false 3 RoutingDemo.load true (fun _ _ => RDone (mkRes 200 (js "{'id':'x'}") false)))
    (mkStream "" None) (fun _ => mkPumpEnv false false false true 0 []) 4 [] 5 5 6.
Definition answered : dispatched := dispatch cfg (fun _ => true) ProxyDemo.px w (normalize key) opChat "req" "" ProxyDemo.body.
End DaemonDemo.

Lemma reload_exact_witness : reloaded KeysDemo.stream KeysDemo.decode KeysDemo.path DaemonDemo.v2 false (DaemonDemo.d DaemonDemo.base) DaemonDemo.d'.
Proof.
  assert (h_fails (run [] DaemonDemo.poll_once DaemonDemo.v2).2 = h_fails DaemonDemo.v2) as E by (vm_compute; reflexivity).
  destruct (reload_exact KeysDemo.stream KeysDemo.decode (DaemonDemo.d DaemonDemo.base) DaemonDemo.d' DaemonDemo.v2 (run [] DaemonDemo.poll_once DaemonDemo.v2).2) as [_ Hx]; [vm_compute; discriminate|].
  exact (Hx false (run_respects KeysDemo.path DaemonDemo.poll_once [] DaemonDemo.v2) eq_refl E).
Defined.

Lemma revocation_takes_effect_witness : exists uf', revoke Auth.Demo.users (ID Auth.Demo.key) = Ok uf' /\
  ((forall now raw, Lookup (d_store DaemonDemo.d') now raw = withdrawn (ID Auth.Demo.key) revoked Auth.Demo.store now raw) \/
   quotaKeysConfigured (Keys Auth.Demo.users) = true \/ d_store DaemonDemo.d' = Auth.Demo.store).
Proof.
  assert ((run [] KeysDemo.job DaemonDemo.host0).1 = Ok tt) as E1 by (vm_compute; reflexivity).
  pose proof (run_respects KeysDemo.path KeysDemo.job [] DaemonDemo.host0) as Hr. rewrite E1 in Hr.
  destruct (revocation_takes_effect KeysDemo.stream KeysDemo.decode KeysDemo.marshal 0 (ID Auth.Demo.key) (DaemonDemo.d DaemonDemo.base) DaemonDemo.d' Auth.Demo.users (Some "dummy")
    DaemonDemo.host0 DaemonDemo.v1 DaemonDemo.v2 (run [] DaemonDemo.poll_once DaemonDemo.v2).2 false) as (uf' & out & Hu & _ & Hl).
  - vm_compute. reflexivity.
  - vm_compute. reflexivity.
  - vm_compute. reflexivity.
  - reflexivity.
  - exact Hr.
  - intros uf' out Hu Ho. assert (uf' = mkUsersFile 1 []) as Eu by (vm_compute in Hu; congruence). subst uf'. vm_compute in Ho. injection Ho as <-. vm_compute. reflexivity.
  - split; reflexivity.
  - reflexivity.
  - right. right. vm_compute. reflexivity.
  - exact (run_respects KeysDemo.path DaemonDemo.poll_once [] DaemonDemo.v2).
  - vm_compute. reflexivity.
  - exists uf'. split; [exact Hu|]. destruct Hl as [Hl|[(_ & Hq & _)|(_ & Hs)]]; [left; exact Hl|right; left; exact Hq|right; right; exact Hs].
Defined.

(** Five hundred tokens are charged. *)
Lemma quota_always_advances_witness : exists q1 n, 0 < n /\
  px_quota (d_proxy DaemonDemo.answered) = Some (Settle q1 (ID (normalize DaemonDemo.key)) n 5).
Proof.
  assert (Hv : validate ConfigDemo.urls DaemonDemo.cfg = []) by (vm_compute; reflexivity).
  assert (Hn : Routing.New DaemonDemo.cfg = Ok RoutingDemo.router) by (vm_compute; reflexivity).
  destruct (quota_always_advances ConfigDemo.urls DaemonDemo.cfg (fun _ => true) DaemonDemo.users DaemonDemo.key ProxyDemo.px DaemonDemo.w (normalize DaemonDemo.key)
    opChat "req" "" ProxyDemo.body NewQuota (validate_ok _ _ Hv) (New_serves _ _ _ (validate_ok _ _ Hv) Hn)) as (q1 & n & Hpos & _ & Hq).
  - vm_compute. reflexivity.
  - left.
  - vm_compute. reflexivity.
  - left.
  - reflexivity.
  - reflexivity.
  - assert (d_response DaemonDemo.answered = RBody 200 (js "{'id':'x'}")) as E by (vm_compute; reflexivity). unfold DaemonDemo.answered in E. rewrite E. exact I.
  - assert (o_status (d_out DaemonDemo.answered) = 200) as E by (vm_compute; reflexivity). unfold DaemonDemo.answered in E. rewrite E. lia.
  - vm_compute. reflexivity.
  - exists q1, n. split; [exact Hpos|exact Hq].
Defined.
