(* ===== verification/Clients.v ===== *)
(** * The daemon's backend clients: [New] of [internal/backend/backend.go] and
    [newBackendClients] of [cmd/mellomting/serve.go]

    One client per configured backend; the backends of one server share one
    admission pool.  A client's secret is read from its file (the operating
    system is that of [Host.v]); the HTTP transport and its TLS roots are not
    modelled, only the bounds it is built with. *)

From Stdlib Require Import Ascii QArith.
From stdpp Require Import sorting.
From S2P Require Import Prelude Float64 GoStrings Net Config ConfigFacts Routing Backend Paths Prog Host Replace.
#[local] Open Scope Z_scope.

(** The client of a backend; [cl_pool] names its admission pool. *)
(* src: internal/backend/backend.go Client *)
Record client := mkClient {
  cl_name : string; cl_upstream : string; cl_base : URL; cl_apiKey : string; cl_policy : Policy;
  cl_requestTimeout : duration; cl_streamIdle : duration; cl_maxResponseBytes : Z;
  cl_streamHeader : duration; cl_plainHeader : duration;    (* ResponseHeaderTimeout of the two transports *)
  cl_maxConns : Z; cl_pool : nat
}.

Inductive client_error := CDestination (e : policy_error + url_error + unit) | CKeyRead (e : read_error) | CKeyEmpty.

Section Clients.
Context {F : Type} `{Float64 F}.
Variable url_parse : string -> option URL.

(** The secret a client sends: the file's contents, trimmed, never empty. *)
(* src: internal/backend/backend.go 233-243 New *)
Definition load_apiKey (path : string) : prog (result client_error string) :=
  if String.eqb path "" then Ret (Ok "")
  else
    let! r := Read path 4096 in
    Ret (match r with
         | Err e => Err (CKeyRead e)
         | Ok data => let key := TrimSpace data in if String.eqb key "" then Err CKeyEmpty else Ok key
         end).

(* src: internal/backend/backend.go New *)
Definition New_client (name : string) (cfg : Backend) (network : Policy) (maxResponseBytes : Z) (pool : nat) (adm : Admission) : prog (result client_error client) :=
  match new_destination url_parse network (BaseURL cfg) with
  | Err e => Ret (Err (CDestination e))
  | Ok pu =>
      let! r := load_apiKey (APIKeyFile cfg) in
      Ret (match r with
           | Err e => Err e
           | Ok apiKey => Ok (mkClient name (UpstreamModel cfg) pu.2 apiKey pu.1 (RequestTimeout cfg) (StreamIdleTimeout cfg) maxResponseBytes
                                (HeaderTimeout cfg) (RequestTimeout cfg) (a_conc_cap adm) pool)
           end)
  end.

(** The pool of a backend: its server's, or a new one.  A pool is made even
    when its client then fails to build. *)
(* src: cmd/mellomting/serve.go 633-639 newBackendClients *)
Definition pool_for (b : Backend) (pools : gmap string nat) (adms : list Admission) : nat * gmap string nat * list Admission :=
  match pools !! b_Server b with
  | Some i => (i, pools, adms)
  | None =>
      let i := length adms in
      (i, if String.eqb (b_Server b) "" then pools else <[b_Server b := i]> pools, adms ++ [NewAdmission b])
  end.

Fixpoint build_clients (cfg : Config (F := F)) (network : Policy) (l : list (string * Backend))
    (clients : gmap string client) (pools : gmap string nat) (adms : list Admission)
  : prog (result (string * client_error) (gmap string client * list Admission)) :=
  match l with
  | [] => Ret (Ok (clients, adms))
  | (name, b) :: l =>
      let '(i, pools, adms) := pool_for b pools adms in
      let! r := New_client name b network (MaxResponseBytes (c_Server cfg)) i (nth i adms (NewAdmission b)) in
      match r with
      | Err e => Ret (Err (name, e))
      | Ok c => build_clients cfg network l (<[name := c]> clients) pools adms
      end
  end.

(** [l] is the configuration's backends in the order the map yields them. *)
(* src: cmd/mellomting/serve.go newBackendClients *)
Definition newBackendClients (cfg : Config (F := F)) (network : Policy) (l : list (string * Backend))
  : prog (result (string * client_error) (gmap string client * list Admission)) :=
  build_clients cfg network l ∅ ∅ [].

(** ** Pools *)

Implicit Types (b : Backend) (clients : gmap string client) (pools : gmap string nat) (adms : list Admission).

(** The client of [b] in a set of pools, under the egress policy [network],
    when [key_of] says which secret a key file stands for. *)
Variable key_of : string -> string -> Prop.
Variable network : Policy.
Definition client_of b adms (c : client) (name : string) (cfg : Config (F := F)) : Prop :=
  cl_name c = name /\ cl_upstream c = UpstreamModel b /\ cl_maxResponseBytes c = MaxResponseBytes (c_Server cfg) /\
  cl_requestTimeout c = RequestTimeout b /\ cl_streamIdle c = StreamIdleTimeout b /\
  cl_streamHeader c = HeaderTimeout b /\ cl_plainHeader c = RequestTimeout b /\
  adms !! cl_pool c = Some (NewAdmission b) /\ cl_maxConns c = Z.max (MaxConcurrency b) 1 /\
  new_destination url_parse network (BaseURL b) = Ok (cl_policy c, cl_base c) /\ key_of (APIKeyFile b) (cl_apiKey c).

(** Backends of one server are admitted alike. *)
Definition uniform (l : list (string * Backend)) : Prop :=
  forall x y, x ∈ l -> y ∈ l -> b_Server x.2 = b_Server y.2 -> b_Server x.2 <> "" -> NewAdmission x.2 = NewAdmission y.2.

(** After the backends [done_]. *)
Record built (cfg : Config (F := F)) (done_ : list (string * Backend)) clients pools adms : Prop := {
  bu_dom : forall name, is_Some (clients !! name) <-> name ∈ done_.*1;
  bu_client : forall name b, (name, b) ∈ done_ -> exists c, clients !! name = Some c /\ client_of b adms c name cfg;
  bu_pools : forall s i, pools !! s = Some i <-> s <> "" /\ exists name b c, (name, b) ∈ done_ /\ b_Server b = s /\ clients !! name = Some c /\ cl_pool c = i;
  bu_apart : forall n1 b1 c1 n2 b2 c2, (n1, b1) ∈ done_ -> (n2, b2) ∈ done_ -> clients !! n1 = Some c1 -> clients !! n2 = Some c2 ->
    cl_pool c1 = cl_pool c2 <-> (n1, b1) = (n2, b2) \/ (b_Server b1 = b_Server b2 /\ b_Server b1 <> "")
}.

Lemma built_pool cfg l clients pools adms name b c : built cfg l clients pools adms -> (name, b) ∈ l -> clients !! name = Some c -> (cl_pool c < length adms)%nat.
Proof.
  intros Hb Hin Hc. destruct (bu_client _ _ _ _ _ Hb _ _ Hin) as (c' & Hc' & Hco). assert (c' = c) as -> by congruence.
  apply lookup_lt_is_Some. destruct Hco as (_ & _ & _ & _ & _ & _ & _ & Ha & _). eauto.
Qed.

Lemma pool_for_spec cfg l clients pools adms name b i pools' adms' : built cfg l clients pools adms -> uniform (l ++ [(name, b)]) ->
  pool_for b pools adms = (i, pools', adms') ->
  adms' !! i = Some (NewAdmission b) /\ (forall j a, adms !! j = Some a -> adms' !! j = Some a) /\
  (forall n1 b1 c1, (n1, b1) ∈ l -> clients !! n1 = Some c1 -> cl_pool c1 = i <-> b_Server b1 = b_Server b /\ b_Server b <> "") /\
  (forall s j, pools' !! s = Some j <-> pools !! s = Some j \/ (s = b_Server b /\ s <> "" /\ j = i)).
Proof.
  intros Hb Hu. pose proof (bu_pools _ _ _ _ _ Hb) as Hpo. unfold pool_for. destruct (pools !! b_Server b) as [i0|] eqn:E; intros [= <- <- <-].
  - apply Hpo in E as E'. destruct E' as (Hne & n0 & b0 & c0 & Hin0 & Hs0 & Hc0 & Hp0). destruct (bu_client _ _ _ _ _ Hb _ _ Hin0) as (c & Hc & Hco).
    assert (c = c0) as -> by congruence. destruct Hco as (_ & _ & _ & _ & _ & _ & _ & Ha & _). split.
    { rewrite <- Hp0, Ha. f_equal. apply (Hu (n0, b0) (name, b)); cbn; try congruence; rewrite elem_of_app; [by left|right; by left]. }
    split; [done|]. split.
    + intros n1 b1 c1 Hin1 Hc1. rewrite <- Hp0, (bu_apart _ _ _ _ _ Hb _ _ _ _ _ _ Hin1 Hin0 Hc1 Hc0). split.
      * intros [[= -> ->]|[E1 E2]]; split; congruence.
      * intros [E1 E2]. right. split; congruence.
    + intros s j. split; [by left|]. intros [?|(-> & _ & ->)]; done.
  - split; [by rewrite lookup_app_r, Nat.sub_diag by lia|]. split; [intros j a Hj; by apply lookup_app_l_Some|]. split.
    + intros n1 b1 c1 Hin1 Hc1. split; [|intros [E1 E2]; exfalso].
      * intros Hp. pose proof (built_pool _ _ _ _ _ _ _ _ Hb Hin1 Hc1). lia.
      * assert (pools !! b_Server b = Some (cl_pool c1)) as E'; [|congruence]. apply Hpo. split; [done|]. by exists n1, b1, c1.
    + intros s j. destruct (String.eqb_spec (b_Server b) "") as [E0|E0].
      * split; [by left|]. intros [?|(-> & ? & _)]; done.
      * rewrite lookup_insert_Some. split; [intros [[<- <-]|[? ?]]; [right|left]; done|]. intros [Hs|(-> & _ & ->)]; [right|left; done]. split; [intros <-; congruence|done].
Qed.

Lemma built_step cfg l clients pools adms name b i pools' adms' c : built cfg l clients pools adms -> uniform (l ++ [(name, b)]) -> name ∉ l.*1 ->
  pool_for b pools adms = (i, pools', adms') -> cl_pool c = i -> client_of b adms' c name cfg ->
  built cfg (l ++ [(name, b)]) (<[name := c]> clients) pools' adms'.
Proof.
  intros Hb Hu Hni Hp Hi Hc. destruct (pool_for_spec _ _ _ _ _ _ _ _ _ _ Hb Hu Hp) as (Hnew & Hold & Hap & Hpo).
  assert (forall n1 b1, (n1, b1) ∈ l -> n1 <> name) as Hne by (intros n1 b1 Hin ->; apply Hni, list_elem_of_fmap; by exists (name, b1)).
  constructor.
  - intros n. rewrite fmap_app, elem_of_app, <- (bu_dom _ _ _ _ _ Hb). cbn. rewrite list_elem_of_singleton. destruct (decide (n = name)) as [->|Hn].
    + rewrite lookup_insert_eq. split; [intros _; by right|eauto].
    + rewrite lookup_insert_ne by done. naive_solver.
  - intros n b1 [Hin|[= -> ->]%list_elem_of_singleton]%elem_of_app; [|exists c; by rewrite lookup_insert_eq].
    rewrite lookup_insert_ne by (by apply not_eq_sym, (Hne n b1)). destruct (bu_client _ _ _ _ _ Hb _ _ Hin) as (c1 & Hc1 & Hco). exists c1. split; [done|].
    unfold client_of in *. destruct Hco as (? & ? & ? & ? & ? & ? & ? & Ha & ?). split_and!; try tauto. by apply Hold.
  - intros s j. rewrite Hpo, (bu_pools _ _ _ _ _ Hb). split.
    + intros [(Hs & n & b1 & c1 & Hin & Hb1 & Hc1 & Hj)|(-> & Hs & ->)]; (split; [done|]).
      * exists n, b1, c1. rewrite elem_of_app, lookup_insert_ne by (by apply not_eq_sym, (Hne n b1)). split_and!; auto.
      * exists name, b, c. rewrite elem_of_app, lookup_insert_eq. split_and!; auto. right. by left.
    + intros (Hs & n & b1 & c1 & [Hin|[= -> ->]%list_elem_of_singleton]%elem_of_app & Hb1 & Hc1 & Hj).
      * left. split; [done|]. rewrite lookup_insert_ne in Hc1 by (by apply not_eq_sym, (Hne n b1)). by exists n, b1, c1.
      * right. rewrite lookup_insert_eq in Hc1. split_and!; congruence.
  - assert (forall n1 b1 c1, (n1, b1) ∈ l -> <[name := c]> clients !! n1 = Some c1 -> clients !! n1 = Some c1) as Hl.
    { intros n1 b1 c1 Hin. by rewrite lookup_insert_ne by (by apply not_eq_sym, (Hne n1 b1)). }
    assert (forall c1, <[name := c]> clients !! name = Some c1 -> c1 = c) as Hlast by (intros c1; rewrite lookup_insert_eq; congruence).
    intros n1 b1 c1 n2 b2 c2 H1 H2 Hc1 Hc2. apply elem_of_app in H1 as [H1|[= -> ->]%list_elem_of_singleton]; apply elem_of_app in H2 as [H2|[= -> ->]%list_elem_of_singleton];
      try (apply (Hl _ _ _ H1) in Hc1); try (apply (Hl _ _ _ H2) in Hc2); try (apply Hlast in Hc1); try (apply Hlast in Hc2).
    + by apply (bu_apart _ _ _ _ _ Hb).
    + subst c2. rewrite Hi, (Hap _ _ _ H1 Hc1). pose proof (Hne _ _ H1). split; [intros [? ?]; right; split; congruence|intros [[= -> ->]|[? ?]]; [done|split; congruence]].
    + subst c1. rewrite Hi. pose proof (Hne _ _ H2). split.
      * intros E. apply symmetry, (Hap _ _ _ H2 Hc2) in E as [? ?]. right. split; congruence.
      * intros [[= -> ->]|[? ?]]; [done|]. symmetry. apply (Hap _ _ _ H2 Hc2). split; congruence.
    + subst c1 c2. split; [by left|done].
Qed.

(** What others may do, what holds meanwhile, and what a key file then
    yields. *)
Section Building.
Variable I : host -> host -> Prop.
Variable P : host -> Prop.
Notation always := (Prog.always I behaves P).
Hypothesis Hkey : forall path v, P v -> always (fun r v' => P v' /\ match r with Ok key => key_of path key | Err _ => True end) (load_apiKey path) v.

Lemma client_spec cfg name b adms i v : P v -> adms !! i = Some (NewAdmission b) ->
  always (fun r v' => P v' /\ match r with Ok c => cl_pool c = i /\ client_of b adms c name cfg | Err _ => True end)
    (New_client name b network (MaxResponseBytes (c_Server cfg)) i (nth i adms (NewAdmission b))) v.
Proof.
  intros Hv Ha. rewrite (nth_lookup_Some _ _ _ _ Ha). unfold New_client. destruct (new_destination url_parse network (BaseURL b)) as [pu|e] eqn:E; [|done].
  apply always_bind. eapply always_mono, Hkey, Hv. intros [key|e] v' [Hv' Hk]; [|done]. cbn. split; [done|]. split; [done|]. unfold client_of. cbn. split_and!; try done.
  rewrite E. by destruct pu.
Qed.

Lemma build_spec cfg l : forall done_ clients pools adms v, P v -> built cfg done_ clients pools adms -> uniform (done_ ++ l) -> NoDup ((done_ ++ l).*1) ->
  always (fun r _ => match r with Ok x => exists pools, built cfg (done_ ++ l) x.1 pools x.2 | Err e => e.1 ∈ l.*1 end) (build_clients cfg network l clients pools adms) v.
Proof.
  induction l as [|[name b] l IH]; intros done_ clients pools adms v Hv Hb Hu Hnd; cbn [build_clients]; [exists pools; by rewrite app_nil_r|].
  destruct (pool_for b pools adms) as [[i pools'] adms'] eqn:Ep. rewrite (cons_middle (name, b) done_ l), app_assoc in *.
  assert (uniform (done_ ++ [(name, b)])) as Hu' by (intros x y Hx Hy; apply Hu; apply elem_of_app; by left).
  assert (name ∉ done_.*1) as Hni.
  { rewrite !fmap_app in Hnd. apply NoDup_app in Hnd as [Hnd _]. apply NoDup_app in Hnd as (_ & Hn & _). intros Hin. apply (Hn name Hin). by left. }
  destruct (pool_for_spec _ _ _ _ _ _ _ _ _ _ Hb Hu' Ep) as (Hnew & _). apply always_bind. eapply always_mono, (client_spec cfg name b adms' i v Hv Hnew).
  intros [c|e] v' [Hv' Hc]; [|by left]. destruct Hc as [Hi Hc]. eapply always_mono, IH; [|done|by eapply built_step|done|done]. intros [x|e] _; [done|]. cbn. by right.
Qed.
End Building.

Lemma built_empty cfg : built cfg [] ∅ ∅ [].
Proof.
  constructor.
  - intros name. rewrite lookup_empty. split; [by intros []|by intros ?%not_elem_of_nil].
  - intros name b Hin. by apply not_elem_of_nil in Hin.
  - intros s i. rewrite lookup_empty. split; [done|]. intros (_ & n & b & c & Hin & _). by apply not_elem_of_nil in Hin.
  - intros n1 b1 c1 n2 b2 c2 Hin. by apply not_elem_of_nil in Hin.
Qed.

(** Whatever others do, a client has a secret if and only if its backend has
    a key file. *)
Lemma apiKey_returns path : returns (fun r => match r with Ok key => key = "" <-> path = "" | Err _ => True end) (load_apiKey path).
Proof.
  unfold load_apiKey. destruct (String.eqb_spec path "") as [->|Hne]; [done|]. apply returns_bind. eapply returns_mono, returns_any.
  intros [data|e] _; [|done]. cbn. destruct (String.eqb_spec (TrimSpace data) "") as [|Hk]; [done|]. done.
Qed.

(** In a loaded configuration a backend is admitted as its server says. *)
Lemma loaded_admission (doc : sourceDoc (F := F)) cfg name b : normalizeSource doc = Ok cfg -> Backends (applyDefaults cfg) !! name = Some b ->
  NewAdmission b = mkAdm 0 (queue (limits_of doc (b_Server b))) 0 (conc (limits_of doc (b_Server b))) false.
Proof.
  unfold normalizeSource. intros Hn. destruct (normalize_spec doc defaultBackendName) as [Hiff Hden].
  assert (source_ok doc defaultBackendName) as Hok by (apply Hiff; eauto). cbn. rewrite lookup_fmap, fmap_Some. intros (b0 & Hb & ->).
  apply (de_backends _ _ _ (Hden _ Hn)) in Hb as (pn & sm & s & Hsm & Hin & -> & Hb). unfold backend_of in Hb. destruct (Servers doc !! s) as [srv|] eqn:Es; [|done].
  injection Hb as <-. destruct (sok_limits _ _ Hok _ _ Es) as (Hc & Hq & _). unfold NewAdmission, limits_of. cbn. rewrite Es. cbn in *. f_equal; lia.
Qed.

Lemma loaded_uniform (doc : sourceDoc (F := F)) cfg l : normalizeSource doc = Ok cfg -> l ≡ₚ map_to_list (Backends (applyDefaults cfg)) -> uniform l.
Proof.
  intros Hn Hl [n1 b1] [n2 b2]. rewrite Hl. cbn. intros H1%elem_of_map_to_list H2%elem_of_map_to_list E _.
  by rewrite (loaded_admission _ _ _ _ Hn H1), (loaded_admission _ _ _ _ Hn H2), E.
Qed.

(** The pools of the daemon, each serving requests of its own. *)
Inductive fstep (mrb : Z) : list pool -> list pool -> Prop :=
| f_pool ps i p p' : ps !! i = Some p -> pstep mrb p p' -> fstep mrb ps (<[i := p']> ps).

Lemma fleet_pool mrb adms ps : rtc (fstep mrb) (map (fun a => mkPool a []) adms) ps ->
  length ps = length adms /\ forall i a, adms !! i = Some a -> exists p, ps !! i = Some p /\ rtc (pstep mrb) (mkPool a []) p.
Proof.
  intros Hr. remember (map _ adms) as ps0 eqn:E. assert (length ps0 = length adms /\ forall i a, adms !! i = Some a -> exists p, ps0 !! i = Some p /\ rtc (pstep mrb) (mkPool a []) p) as H0.
  { subst ps0. rewrite length_map. split; [done|]. intros i a Hi. exists (mkPool a []). rewrite list_lookup_fmap, Hi. done. }
  clear E. induction Hr as [|ps0 ps1 ps [ps2 j p p' Hj Hp] _ IH]; [done|]. apply IH. rewrite length_insert. destruct H0 as [Hl H0]. split; [done|]. intros i a Hi.
  destruct (H0 i a Hi) as (p0 & Hp0 & Hr0). destruct (decide (i = j)) as [->|Hne].
  - exists p'. assert (p0 = p) as -> by congruence. split; [apply list_lookup_insert_eq; by eapply lookup_lt_Some|]. by eapply rtc_r.
  - exists p0. by rewrite list_lookup_insert_ne.
Qed.

End Clients.

(** ** Secrets, while the key files stay *)

Section Secrets.
Variables (paths : list string) (v0 : host).

(** The others leave the key files alone. *)
Definition spares_keys (v v' : host) : Prop := interferes v v' /\ forall p, p ∈ paths -> same_entry p v v'.
Definition keys_kept (v : host) : Prop := h_mine v = ∅ /\ forall p, p ∈ paths -> kept p v0 v.

(** The trimmed content of the key file: a regular file of at most 4 KiB
    that others than its owner and group cannot access. *)
Definition secret_of (path key : string) : Prop :=
  if String.eqb path "" then key = ""
  else exists k n, h_names v0 !! path = Some k /\ h_nodes v0 !! k = Some n /\ n_kind n = KFile /\ WorldAccessible (n_perm n) = false /\
    slen (n_data n) <= 4096 /\ key = TrimSpace (n_data n) /\ key <> "".

(** Reading changes neither names nor files. *)
Fixpoint looks {A} (q : prog A) : Prop :=
  match q with
  | Ret _ => True
  | Call o k => match o with OpenNoFollow _ | FStat _ | ReadLimit _ _ | Close _ => True | _ => False end /\ forall r, looks (k r)
  end.
Lemma looks_keep {A} (q : prog A) v : looks q -> keys_kept v -> Prog.always spares_keys behaves keys_kept (fun _ v => keys_kept v) q v.
Proof.
  revert v. induction q as [a|o k IH]; intros v; cbn [looks Prog.always]; [done|]. intros [Ho Hk] [Hm Hv] v1 r v2 [Hi Hs] Hb.
  assert (keys_kept v1) as Hv1.
  { split; [by destruct Hi as (d & nodes & -> & _)|]. intros p Hp. by eapply same_entry_trans; [apply Hv|apply Hs]. }
  assert (keys_kept v2) as Hv2.
  { assert (h_names v2 = h_names v1 /\ h_nodes v2 = h_nodes v1 /\ h_mine v2 = h_mine v1) as (E1 & E2 & E3).
    { destruct o; try done; cbn in Hb; unfold opened in Hb; destruct r as [x|[]]; naive_solver. }
    destruct Hv1 as [Hm1 Hv1]. split; [congruence|]. intros p Hp. destruct (Hv1 p Hp) as [H1 H2]. split; rewrite ?E1, ?E2; done. }
  split; [done|]. by apply IH.
Qed.
Lemma read_looks path maxBytes rejects : looks (read path maxBytes rejects).
Proof.
  unfold read. split; [done|]. intros [fd|]; [|done]. split; [done|]. intros [i|]; [|done]. cbn [bind].
  destruct (IsRegular i); cbn [negb]; [|done]. destruct (rejects && WorldAccessible (fi_perm i)); [done|]. split; [done|]. by intros [].
Qed.

Lemma apiKey_spec path v : keys_kept v ->
  Prog.always spares_keys behaves keys_kept (fun r v' => keys_kept v' /\ match r with Ok key => path ∈ paths -> secret_of path key | Err _ => True end) (load_apiKey path) v.
Proof.
  intros Hv. unfold load_apiKey, secret_of. destruct (String.eqb_spec path "") as [->|Hne]; [done|].
  pose proof (looks_keep (Read path 4096) v (read_looks path 4096 true) Hv) as H2. apply always_bind. destruct (decide (path ∈ paths)) as [Hp|Hp].
  - assert (fresh (kept path v0) (h_fails v) v) as Hf by (split; [apply Hv|split; [done|by apply Hv]]).
    pose proof (read_spec path v0 4096 true (fun _ => True) (h_fails v) eq_refl ltac:(done) (h_fails v) v Hf ltac:(lia)) as H1.
    apply (always_rely (respects path) spares_keys) in H1; [|intros w w' [Hi Hs]; split; [done|by apply Hs]].
    pose proof (always_both _ _ _ _ _ _ _ _ H1 H2) as H3. eapply always_weaken, always_mono, H3; [by intros w []|].
    intros r w [(_ & Hr & _) Hw]. cbn [Prog.always]. split; [done|]. destruct r as [data|]; [|done]. destruct Hr as (k & n & Hk & Hn & Hkind & Hw1 & -> & Hl).
    destruct (String.eqb_spec (TrimSpace (n_data n)) "") as [|Hkey]; [done|]. intros _. exists k, n. split_and!; try done.
  - eapply always_mono, H2. intros r w Hw. cbn [Prog.always]. split; [done|]. destruct r as [data|]; [|done]. by destruct (String.eqb (TrimSpace data) "").
Qed.
End Secrets.

(** C14: One server, one capacity, however many models it serves.  From a
    loaded configuration, in whatever order the map yields the backends, and
    while nobody touches the backends' key files, the daemon gets a client
    for each backend and no other, with that backend's upstream name and
    bounds, the destination that the given egress policy makes of its
    address, and as its secret the trimmed content of its key file, a private
    regular file of at most 4 KiB (none if it has no key file); the backends
    of one (named) server share one admission pool and share it with nobody;
    and in every state the pools reach, at most the server's
    [max_concurrency] requests are in service and [queue_size] waiting there
    over all of its models.  Building fails only for a backend of the
    configuration. *)
Theorem one_pool_per_server {F : Type} `{Float64 F} (url_parse : string -> option URL) (doc : sourceDoc (F := F)) cfg0 network l h h' r :
  let cfg := applyDefaults cfg0 in
  normalizeSource doc = Ok cfg0 -> l ≡ₚ map_to_list (Backends cfg) -> h_mine h = ∅ ->
  rtc (Prog.step (spares_keys (map (fun nb => APIKeyFile nb.2) l)) behaves) (newBackendClients url_parse cfg network l, h) (Ret r, h') ->
  match r with
  | Err e => is_Some (Backends cfg !! e.1)
  | Ok (clients, adms) =>
      (forall name, is_Some (clients !! name) <-> is_Some (Backends cfg !! name)) /\
      (forall name b, Backends cfg !! name = Some b -> exists c, clients !! name = Some c /\ client_of url_parse (secret_of h) network b adms c name cfg) /\
      (forall n1 b1 c1 n2 b2 c2, Backends cfg !! n1 = Some b1 -> Backends cfg !! n2 = Some b2 -> clients !! n1 = Some c1 -> clients !! n2 = Some c2 ->
         cl_pool c1 = cl_pool c2 <-> n1 = n2 \/ (b_Server b1 = b_Server b2 /\ b_Server b1 <> "")) /\
      (forall mrb ps name b c, rtc (fstep mrb) (map (fun a => mkPool a []) adms) ps -> Backends cfg !! name = Some b -> clients !! name = Some c ->
         exists p, ps !! cl_pool c = Some p /\
           Z.of_nat (count holds_conc (p_reqs p)) <= conc (limits_of doc (b_Server b)) /\
           Z.of_nat (count holds_queue (p_reqs p)) <= queue (limits_of doc (b_Server b)))
  end.
Proof.
  intros cfg Hn Hl Hm Hr. subst cfg. set (cfg := applyDefaults cfg0) in *. set (paths := map (fun nb => APIKeyFile nb.2) l) in *.
  assert (forall name b, (name, b) ∈ l <-> Backends cfg !! name = Some b) as Hin by (intros name b; by rewrite Hl, elem_of_map_to_list).
  assert (forall name, name ∈ l.*1 <-> is_Some (Backends cfg !! name)) as Hdom.
  { intros name. rewrite list_elem_of_fmap. split; [intros ([n b] & -> & Hb); exists b; by apply Hin|intros [b Hb]; exists (name, b); by rewrite Hin]. }
  assert (NoDup l.*1) as Hnd by (rewrite Hl; apply NoDup_fst_map_to_list).
  assert (keys_kept paths h h) as Hk by (split; [done|]; by intros p _).
  set (key_of := fun path key => path ∈ paths -> secret_of h path key).
  assert (forall name b adms c, Backends cfg !! name = Some b -> client_of url_parse key_of network b adms c name cfg -> client_of url_parse (secret_of h) network b adms c name cfg) as Hco.
  { intros name b adms c Hb. unfold client_of. intros (? & ? & ? & ? & ? & ? & ? & ? & ? & ? & Hkey). split_and!; try done. apply Hkey.
    apply list_elem_of_fmap. exists (name, b). split; [done|by apply Hin]. }
  pose proof (build_spec url_parse key_of network (spares_keys paths) (keys_kept paths h) (apiKey_spec paths h) cfg l [] ∅ ∅ [] h Hk
    (built_empty _ _ _ cfg) (loaded_uniform _ _ _ Hn Hl) Hnd) as Hs.
  destruct (always_adequate _ _ _ _ _ _ _ _ Hs Hk Hr) as [_ Hq]. clear Hs Hr. destruct r as [[clients adms]|e]; cbn in Hq; [|by apply Hdom].
  destruct Hq as (pools & [Hd Hc _ Ha]). split; [intros name; by rewrite Hd|]. split.
  { intros name b Hb. destruct (Hc name b) as (c & Hcl & Hcc); [by apply Hin|]. exists c. split; [done|by apply Hco]. } split.
  - intros n1 b1 c1 n2 b2 c2 H1 H2 Hc1 Hc2. rewrite (Ha n1 b1 c1 n2 b2 c2) by (done || by apply Hin). split; (intros [E|E]; [left|by right]); congruence.
  - intros mrb ps name b c Hps Hb Hcl. destruct (Hc name b) as (c' & Hc' & Hcc); [by apply Hin|]. assert (c' = c) as -> by congruence.
    destruct Hcc as (_ & _ & _ & _ & _ & _ & _ & Hadm & _). destruct (fleet_pool _ _ _ Hps) as [_ Hf]. destruct (Hf _ _ Hadm) as (p & Hp & Hreach).
    exists p. split; [done|]. pose proof (loaded_admission _ _ _ _ Hn Hb) as El. destruct (pool_inv_reachable mrb b p Hreach) as [_ H1 H2 [H3 H4]].
    injection El as Eq Ec. rewrite <- H1, <- H2, <- Eq, <- Ec. done.
Qed.

Module ClientsDemo.
(** Two models of one server, which takes two requests at a time and wants a
    key. *)
Definition doc_of (server : string) : sourceDoc (F := Q) :=
  let d := ConfigDemo.doc in
  mkSourceDoc 1 (d_Server d) (d_Auth d) (d_Security d) (d_Logging d) (d_Accounting d) (d_Limits d) (d_Shutdown d) (d_Responses d) (d_Retry d)
    {[server := mkSourceServer "http://127.0.0.1:8000" "/etc/m/gpu.key" false (Some 2) (Some 4) None]}
    (<["qwen" := mkSourceModel "" "" 0 [server] ""]> {["llama" := mkSourceModel "" "" 0 [server] ""]}).
Definition doc : sourceDoc (F := Q) := doc_of "gpu".
Definition no_config : Config (F := Q) := ConfigDemo.cfg.
Definition cfg0 : Config (F := Q) := match normalizeSource doc with Ok c => c | Err _ => no_config end.
Definition network : Policy := mkPolicy "loopback-only" [].
Definition job (c : Config (F := Q)) : prog (result (string * client_error) (gmap string client * list Admission)) :=
  newBackendClients ConfigDemo.urls (applyDefaults c) network (map_to_list (Backends (applyDefaults c))).
Definition host0 : host :=
  let d := {["/etc/m/gpu.key" := 7]} in mkHost d {[7 := mkNode KFile 416 0 991 ("s3cret" +:+ String ch_nl "") true 0]} ∅ [d] ∅ 0 ∅.
Definition built_clients : gmap string client * list Admission :=
  match (run [] (job cfg0) host0).1 with Ok x => x | Err _ => (∅, []) end.
Definition qwen : string := defaultBackendName "qwen" "gpu".
Definition llama : string := defaultBackendName "llama" "gpu".

(** A server whose name is empty is accepted, and gets a pool per model. *)
Example unnamed_server_multiplies :
  match normalizeSource (doc_of "") with
  | Ok c => match (run [] (job c) host0).1 with Ok x => (validate ConfigDemo.urls (applyDefaults c), map a_conc_cap x.2) | Err _ => ([], []) end
  | Err _ => ([], [])
  end = ([], [2; 2]).
Proof. vm_compute. reflexivity. Qed.
End ClientsDemo.

Lemma one_pool_per_server_witness :
  cl_pool <$> ClientsDemo.built_clients.1 !! ClientsDemo.qwen = cl_pool <$> ClientsDemo.built_clients.1 !! ClientsDemo.llama /\
  cl_apiKey <$> ClientsDemo.built_clients.1 !! ClientsDemo.qwen = Some "s3cret" /\
  length ClientsDemo.built_clients.2 = 1%nat /\
  (forall name, is_Some (ClientsDemo.built_clients.1 !! name) <-> is_Some (Backends (applyDefaults ClientsDemo.cfg0) !! name)).
Proof.
  assert (normalizeSource ClientsDemo.doc = Ok ClientsDemo.cfg0) as Hn by (vm_compute; reflexivity).
  assert ((run [] (ClientsDemo.job ClientsDemo.cfg0) ClientsDemo.host0).1 = Ok ClientsDemo.built_clients) as E by (vm_compute; reflexivity).
  assert (exists v', rtc (Prog.step (spares_keys (map (fun nb => APIKeyFile nb.2) (map_to_list (Backends (applyDefaults ClientsDemo.cfg0))))) behaves)
    (newBackendClients ConfigDemo.urls (applyDefaults ClientsDemo.cfg0) ClientsDemo.network (map_to_list (Backends (applyDefaults ClientsDemo.cfg0))), ClientsDemo.host0)
    (Ret (Ok ClientsDemo.built_clients), v')) as [v' Hr].
  { exists (run [] (ClientsDemo.job ClientsDemo.cfg0) ClientsDemo.host0).2. rewrite <- E. apply Prog.run_executes; [|apply host_sys_behaves|apply fails_behaves].
    intros v. split; [apply host_idle_interferes|by split]. }
  pose proof (one_pool_per_server ConfigDemo.urls ClientsDemo.doc ClientsDemo.cfg0 ClientsDemo.network _ ClientsDemo.host0 v' (Ok ClientsDemo.built_clients) Hn (reflexivity _) eq_refl Hr) as H.
  split; [vm_compute; reflexivity|]. split; [vm_compute; reflexivity|]. split; [vm_compute; reflexivity|].
  destruct ClientsDemo.built_clients as [clients adms] eqn:Eb. exact (proj1 H).
Defined.
