(* ===== verification/Inflight.v ===== *)
(** * The requests in flight: [internal/inflight], [internal/adminapi] and the
    reader of [cmd/mellomting/top.go]

    The registry of live requests, each known by its handle; what a snapshot
    shows; and its way over the admin socket as JSON.  Every method holds the
    mutex of what it touches for all that it does, so a method is one step. *)

From Stdlib Require Import Ascii.
From Stdlib Require Import Sorting.Sorted.
From stdpp Require Import sorting.
From S2P Require Import Prelude GoStrings Net Json JsonFacts Config Accounting RecordLog.
#[local] Open Scope Z_scope.

(** ** The registry *)

(* src: internal/inflight/inflight.go Phase *)
Inductive Phase := PhaseReading | PhaseRouting | PhaseQueued | PhaseWaiting | PhaseStreaming | PhaseSending.
#[export] Instance Phase_eq_dec : EqDecision Phase.
Proof. solve_decision. Defined.

(* src: internal/inflight/inflight.go 25-41 Phase *)
Definition phase_text (p : Phase) : string :=
  match p with
  | PhaseReading => "reading" | PhaseRouting => "routing" | PhaseQueued => "queued"
  | PhaseWaiting => "waiting" | PhaseStreaming => "streaming" | PhaseSending => "sending"
  end.

(** Who is calling, and what the request is doing. *)
(* src: internal/inflight/inflight.go Request *)
Record Request := mkRequest {
  started : time; q_requestID : string; q_keyID : string; q_keyName : string; q_remote : string; q_userAgent : string; q_endpoint : string;
  q_phase : Phase; q_model : string; q_backend : string; q_bytesIn : Z; q_bytesOut : Z; q_tokens : Z
}.

(** A handle is a pointer: the requests ever begun, and those still live. *)
(* src: internal/inflight/inflight.go Registry *)
Record Registry := mkRegistry { heap : list Request; live : gset nat }.
(* src: internal/inflight/inflight.go New *)
Definition NewRegistry : Registry := mkRegistry [] ∅.

(** The methods of a handle; [None] is the nil pointer. *)
Inductive update := UPhase (p : Phase) | UTarget (model backend : string) | URead (n : Z) | UWrote (n : Z) | UTokens (n : Z).

(* src: internal/inflight/inflight.go Request.Phase *)
Definition set_phase (p : Phase) (q : Request) : Request :=
  mkRequest (started q) (q_requestID q) (q_keyID q) (q_keyName q) (q_remote q) (q_userAgent q) (q_endpoint q) p (q_model q) (q_backend q) (q_bytesIn q) (q_bytesOut q) (q_tokens q).
(* src: internal/inflight/inflight.go Request.Target *)
Definition set_target (model backend : string) (q : Request) : Request :=
  mkRequest (started q) (q_requestID q) (q_keyID q) (q_keyName q) (q_remote q) (q_userAgent q) (q_endpoint q) (q_phase q) model backend (q_bytesIn q) (q_bytesOut q) (q_tokens q).
(* src: internal/inflight/inflight.go Request.Read *)
Definition set_read (n : Z) (q : Request) : Request :=
  mkRequest (started q) (q_requestID q) (q_keyID q) (q_keyName q) (q_remote q) (q_userAgent q) (q_endpoint q) (q_phase q) (q_model q) (q_backend q) n (q_bytesOut q) (q_tokens q).
(* src: internal/inflight/inflight.go Request.Wrote *)
Definition add_wrote (n : Z) (q : Request) : Request :=
  if n <=? 0 then q
  else mkRequest (started q) (q_requestID q) (q_keyID q) (q_keyName q) (q_remote q) (q_userAgent q) (q_endpoint q) (q_phase q) (q_model q) (q_backend q) (q_bytesIn q) (wrap64 (q_bytesOut q + n)) (q_tokens q).
(* src: internal/inflight/inflight.go Request.Tokens *)
Definition set_tokens (n : Z) (q : Request) : Request :=
  mkRequest (started q) (q_requestID q) (q_keyID q) (q_keyName q) (q_remote q) (q_userAgent q) (q_endpoint q) (q_phase q) (q_model q) (q_backend q) (q_bytesIn q) (q_bytesOut q) n.

Definition apply_update (u : update) (q : Request) : Request :=
  match u with
  | UPhase p => set_phase p q | UTarget m b => set_target m b q | URead n => set_read n q | UWrote n => add_wrote n q | UTokens n => set_tokens n q
  end.
Definition on_handle (h : option nat) (u : update) (r : Registry) : Registry :=
  match h with None => r | Some i => mkRegistry (alter (apply_update u) i (heap r)) (live r) end.

Record caller := mkCaller { c_requestID : string; c_keyID : string; c_keyName : string; c_remote : string; c_userAgent : string; c_endpoint : string }.
Definition begun (now : time) (c : caller) : Request :=
  mkRequest now (c_requestID c) (c_keyID c) (c_keyName c) (c_remote c) (c_userAgent c) (c_endpoint c) PhaseReading "" "" 0 0 0.

(* src: internal/inflight/inflight.go Registry.Begin *)
Definition Begin (r : option Registry) (now : time) (c : caller) : option Registry * option nat :=
  match r with
  | None => (None, None)
  | Some r => let i := length (heap r) in (Some (mkRegistry (heap r ++ [begun now c]) ({[i]} ∪ live r)), Some i)
  end.
(* src: internal/inflight/inflight.go Request.End *)
Definition End_ (h : option nat) (r : Registry) : Registry :=
  match h with None => r | Some i => mkRegistry (heap r) (live r ∖ {[i]}) end.

(** ** Snapshots *)

(* src: internal/inflight/inflight.go Record *)
Record Record_ := mkRecord {
  RequestID : string; KeyID : string; KeyName : string; Remote : string; UserAgent : string; Endpoint : string;
  r_Model : string; r_Backend : string; r_Phase : string; AgeMillis : Z; BytesIn : Z; BytesOut : Z; Tokens : Z
}.
(** [Milliseconds] of a duration truncates. *)
(* src: internal/inflight/inflight.go Request.record *)
Definition record (now : time) (q : Request) : Record_ :=
  mkRecord (q_requestID q) (q_keyID q) (q_keyName q) (q_remote q) (q_userAgent q) (q_endpoint q) (q_model q) (q_backend q) (phase_text (q_phase q))
    (Z.quot (time_sub now (started q)) 1000000) (q_bytesIn q) (q_bytesOut q) (q_tokens q).

(** Oldest first, then by request id. *)
Definition older (a b : Record_) : Prop := AgeMillis b < AgeMillis a \/ (AgeMillis a = AgeMillis b /\ string_leb (RequestID a) (RequestID b) = true).
#[export] Instance older_dec : RelDecision older.
Proof. intros a b. unfold older. apply _. Defined.

Definition live_requests (r : Registry) : list Request := omap (fun i => heap r !! i) (elements (live r)).
(** [None] is the nil slice. *)
(* src: internal/inflight/inflight.go Registry.Snapshot *)
Definition Snapshot (r : option Registry) (now : time) : option (list Record_) :=
  match r with None => None | Some r => Some (merge_sort older (map (record now) (live_requests r))) end.

(** ** Over the admin socket *)

Definition omitempty (k s : string) : list (string * json) := if String.eqb s "" then [] else [(k, marshal_string s)].
Definition record_members (r : Record_) : list (string * json) :=
  [("request_id", marshal_string (RequestID r)); ("key_id", marshal_string (KeyID r)); ("key_name", marshal_string (KeyName r)); ("remote", marshal_string (Remote r))] ++
  omitempty "user_agent" (UserAgent r) ++ [("endpoint", marshal_string (Endpoint r))] ++ omitempty "model" (r_Model r) ++ omitempty "backend" (r_Backend r) ++
  [("phase", marshal_string (r_Phase r)); ("age_ms", marshal_int (AgeMillis r)); ("bytes_in", marshal_int (BytesIn r)); ("bytes_out", marshal_int (BytesOut r)); ("tokens", marshal_int (Tokens r))].

(** The body of [GET /inflight]. *)
(* src: internal/adminapi/adminapi.go Handler *)
Definition inflight_body (r : option Registry) (now : time) : string :=
  print (JObj [("requests", match Snapshot r now with None => JNull | Some l => JArr (map (fun x => JObj (record_members x)) l) end)]).

(** The decoder of a record. *)
Definition unmarshal_live (v : json) : option Record_ :=
  bind (decode_struct v) (fun m =>
  bind (string_field "request_id" m) (fun rid => bind (string_field "key_id" m) (fun kid => bind (string_field "key_name" m) (fun kn =>
  bind (string_field "remote" m) (fun rem => bind (string_field "user_agent" m) (fun ua => bind (string_field "endpoint" m) (fun ep =>
  bind (string_field "model" m) (fun mo => bind (string_field "backend" m) (fun b => bind (string_field "phase" m) (fun ph =>
  bind (int64_field "age_ms" m) (fun age => bind (int64_field "bytes_in" m) (fun bi => bind (int64_field "bytes_out" m) (fun bo =>
  bind (int64_field "tokens" m) (fun t =>
  Some (mkRecord rid kid kn rem ua ep mo b ph age bi bo t))))))))))))))).

(** A second [requests] member would be decoded over the first; the daemon
    writes one. *)
Definition decode_records (acc : list Record_) (v : json) : option (list Record_) :=
  match v with JNull => Some [] | JArr l => mapM unmarshal_live l | _ => None end.

Inductive fetch_error := FReach | FStatus | FResponse.

(** [resp] is what the HTTP client returns: a status and the body. *)
(* src: cmd/mellomting/top.go fetchInflight *)
Definition fetchInflight (resp : option (Z * string)) : result fetch_error (list Record_) :=
  match resp with
  | None => Err FReach
  | Some (status, body) =>
      if negb (status =? 200) then Err FStatus
      else let text := stake (Z.to_nat 4194304) body in     (* 1 << 22 *)
           match parse_value (2 * String.length text + 2) maxNestingDepth text with
           | None => Err FResponse
           | Some (v, _) =>
               match bind (decode_struct v) (decode_field decode_records [] "requests") with None => Err FResponse | Some l => Ok l end
           end
  end.

(** ** What a snapshot shows *)

(** The methods called on a registry, in the order of its mutexes. *)
Inductive call := CBegin (now : time) (c : caller) | CUpdate (i : nat) (u : update) | CEnd (i : nat).
Definition perform (r : Registry) (c : call) : Registry :=
  match c with
  | CBegin now c => default r (Begin (Some r) now c).1
  | CUpdate i u => on_handle (Some i) u r
  | CEnd i => End_ (Some i) r
  end.
Definition after (l : list call) : Registry := foldl perform NewRegistry l.

Definition begins (l : list call) : list Request := omap (fun c => match c with CBegin now c => Some (begun now c) | _ => None end) l.
(** What was done with the handle of the [i]-th request. *)
Definition updates (i : nat) (l : list call) : list update :=
  omap (fun c => match c with CUpdate j u => if (j =? i)%nat then Some u else None | _ => None end) l.
Definition ended (i : nat) (l : list call) : bool := existsb (fun c => match c with CEnd j => (j =? i)%nat | _ => false end) l.

(** A handle is used after it was returned. *)
Inductive sensible : list call -> Prop :=
| sn_nil : sensible []
| sn_begin l now c : sensible l -> sensible (l ++ [CBegin now c])
| sn_update l i u : sensible l -> (i < length (begins l))%nat -> sensible (l ++ [CUpdate i u])
| sn_end l i : sensible l -> (i < length (begins l))%nat -> sensible (l ++ [CEnd i]).

(** A request as its own calls left it. *)
Definition current (l : list call) (i : nat) : option Request := (fun q => foldl (fun q u => apply_update u q) q (updates i l)) <$> begins l !! i.

Lemma after_snoc l c : after (l ++ [c]) = perform (after l) c.
Proof. unfold after. by rewrite foldl_app. Qed.
Lemma updates_none l i : sensible l -> (length (begins l) <= i)%nat -> updates i l = [].
Proof.
  unfold updates, begins. induction 1 as [|l now c _ IH|l j u _ IH Hj|l j _ IH Hj]; intros Hi; [done|..]; rewrite ?omap_app in *; cbn in *; rewrite ?length_app in *; cbn in *; rewrite ?app_nil_r in *.
  - rewrite IH by lia. done.
  - rewrite IH by lia. cbn. by rewrite (proj2 (Nat.eqb_neq _ _)) by (unfold begins in Hj; lia).
  - rewrite IH by lia. done.
Qed.

Lemma begins_snoc l c : begins (l ++ [c]) = begins l ++ match c with CBegin now c => [begun now c] | _ => [] end.
Proof. unfold begins. rewrite omap_app. by destruct c. Qed.
Lemma updates_snoc i l c : updates i (l ++ [c]) = updates i l ++ match c with CUpdate j u => if (j =? i)%nat then [u] else [] | _ => [] end.
Proof. unfold updates. rewrite omap_app. destruct c as [| j u|]; cbn; try done. by destruct (j =? i)%nat. Qed.
Lemma ended_snoc i l c : ended i (l ++ [c]) = true <-> ended i l = true \/ c = CEnd i.
Proof. unfold ended. rewrite existsb_app, orb_true_iff. cbn. rewrite orb_false_r. destruct c as [| |j]; [naive_solver..|]. rewrite Nat.eqb_eq. naive_solver. Qed.
Lemma ended_begun l i : sensible l -> ended i l = true -> (i < length (begins l))%nat.
Proof.
  induction 1 as [|l now c Hl IH|l j u Hl IH Hi|l j Hl IH Hi]; [done|..]; rewrite ended_snoc, begins_snoc, length_app; cbn; intros [He|He]; try done.
  1-3: specialize (IH He); lia.
  injection He as ->. lia.
Qed.

Record shows (l : list call) (r : Registry) : Prop := {
  sh_len : length (heap r) = length (begins l);
  sh_heap : forall i, heap r !! i = current l i;
  sh_live : forall i, i ∈ live r <-> (i < length (begins l))%nat /\ ended i l <> true
}.

Lemma after_shows l : sensible l -> shows l (after l).
Proof.
  induction 1 as [|l now c Hl [L1 L2 L3]|l i u Hl [L1 L2 L3] Hi|l i Hl [L1 L2 L3] Hi].
  - constructor; [done|done|]. intros i. cbn. split; [by intros ?%not_elem_of_empty|lia].
  - rewrite after_snoc. constructor; cbn.
    + by rewrite begins_snoc, !length_app, L1.
    + intros i. unfold current. rewrite begins_snoc, updates_snoc, app_nil_r. destruct (decide (i < length (begins l))%nat) as [Hi|Hi].
      * rewrite !lookup_app_l by lia. apply L2.
      * rewrite !lookup_app_r, L1, updates_none by (done || lia). by destruct (i - length (begins l))%nat as [|[]].
    + intros i. rewrite begins_snoc, length_app, elem_of_union, elem_of_singleton, L1, L3, ended_snoc. cbn. pose proof (ended_begun l i Hl). destruct (decide (i < length (begins l))%nat); naive_solver lia.
  - rewrite after_snoc. constructor; cbn.
    + by rewrite length_alter, begins_snoc, app_nil_r.
    + intros j. unfold current. rewrite begins_snoc, updates_snoc, app_nil_r. destruct (decide (j = i)) as [->|Hne].
      * rewrite list_lookup_alter_eq, Nat.eqb_refl, L2. unfold current. destruct (begins l !! i) as [q|]; [|done]. cbn. by rewrite foldl_app.
      * rewrite list_lookup_alter_ne by done. rewrite (proj2 (Nat.eqb_neq i j)) by done. rewrite app_nil_r. apply L2.
    + intros j. rewrite begins_snoc, app_nil_r, ended_snoc, L3. naive_solver.
  - rewrite after_snoc. constructor; cbn.
    + by rewrite begins_snoc, app_nil_r.
    + intros j. unfold current. rewrite begins_snoc, updates_snoc, !app_nil_r. apply L2.
    + intros j. rewrite begins_snoc, app_nil_r, ended_snoc, elem_of_difference, elem_of_singleton, L3. naive_solver.
Qed.

(** The order of a snapshot. *)
#[export] Instance older_trans : Transitive older.
Proof.
  intros a b c [H1|[H1 S1]] [H2|[H2 S2]]; unfold older; try (left; lia). right. split; [lia|]. apply string_leb_trans with (RequestID b); done.
Qed.
#[export] Instance older_total : base.Total older.
Proof.
  intros a b. unfold older. destruct (Z.lt_trichotomy (AgeMillis a) (AgeMillis b)) as [?|[E|?]]; [by right; left| |by left; left].
  destruct (string_leb_total (RequestID a) (RequestID b)); [left|right]; right; auto.
Qed.

(** ** What [top] fetches *)

Definition record_fits (r : Record_) : Prop :=
  Forall (fun s => valid_utf8 s = true) [RequestID r; KeyID r; KeyName r; Remote r; UserAgent r; Endpoint r; r_Model r; r_Backend r; r_Phase r] /\
  Forall in_int64 [AgeMillis r; BytesIn r; BytesOut r; Tokens r].

Lemma omitempty_wf d k s : str_wf k -> Forall (fun kv => str_wf kv.1 /\ json_wf d kv.2) (omitempty k s).
Proof. intros Hk. unfold omitempty. destruct (String.eqb s ""); constructor; [|done]. split; [done|]. constructor. apply quote_wf. Qed.

Lemma record_members_wf d r : Forall (fun kv => str_wf kv.1 /\ json_wf d kv.2) (record_members r).
Proof.
  unfold record_members. repeat (apply Forall_app; split); try (by apply omitempty_wf);
    repeat (apply Forall_cons; split; [split; [done|first [by constructor | constructor; apply quote_wf | apply marshal_int_wf]]|]); constructor.
Qed.

(** A field that is not there keeps its zero. *)
Lemma bind_absent {A} name m s (f : string -> option A) : List.filter (field_is name) m = [] -> s = "" -> bind (string_field name m) f = f s.
Proof. intros E ->. unfold string_field, decode_field, field_values. by rewrite E. Qed.

Definition shown (name s : string) (m : list (string * json)) : Prop :=
  List.filter (field_is name) m = [(name, marshal_string s)] \/ (List.filter (field_is name) m = [] /\ s = "").
Lemma bind_shown {A} name m s (f : string -> option A) : shown name s m -> valid_utf8 s = true -> bind (string_field name m) f = f s.
Proof. intros [E|[E ->]] Hs; [by eapply bind_string|by apply bind_absent]. Qed.

(** The values of the members do not matter to which are found. *)
Ltac hide_values := repeat match goal with |- context [marshal_string ?x] => is_var x; generalize (marshal_string x); intros ? | |- context [marshal_int ?x] => is_var x; generalize (marshal_int x); intros ? end.

Lemma record_fields r : let m := record_members r in
  Forall (fun e => shown e.1 e.2 m) [("request_id", RequestID r); ("key_id", KeyID r); ("key_name", KeyName r); ("remote", Remote r); ("user_agent", UserAgent r);
    ("endpoint", Endpoint r); ("model", r_Model r); ("backend", r_Backend r); ("phase", r_Phase r)] /\
  Forall (fun e => List.filter (field_is e.1) m = [(e.1, marshal_int e.2)]) [("age_ms", AgeMillis r); ("bytes_in", BytesIn r); ("bytes_out", BytesOut r); ("tokens", Tokens r)].
Proof.
  cbv zeta. unfold record_members, omitempty. destruct r as [rid kid kn rem ua ep mo b ph age bi bo t]. cbn [RequestID KeyID KeyName Remote UserAgent Endpoint r_Model r_Backend r_Phase AgeMillis BytesIn BytesOut Tokens].
  destruct (String.eqb_spec ua "") as [->|_], (String.eqb_spec mo "") as [->|_], (String.eqb_spec b "") as [->|_]; cbn [app];
    rewrite !Forall_cons; unfold shown; cbn [fst snd]; hide_values;
    (split; repeat (split; [first [left; vm_compute; reflexivity|right; split; [vm_compute; reflexivity|done]|vm_compute; reflexivity]|]); constructor).
Qed.

Lemma unmarshal_members r : record_fits r -> unmarshal_live (JObj (record_members r)) = Some r.
Proof.
  intros [Hs Hi]. unfold unmarshal_live. cbn [bind decode_struct]. destruct (record_fields r) as [Hm Hn]. generalize dependent (record_members r). intros m Hm Hn.
  rewrite !Forall_cons in Hs. rewrite !Forall_cons in Hi. rewrite !Forall_cons in Hm. rewrite !Forall_cons in Hn. destruct_and! Hs. destruct_and! Hi. destruct_and! Hm. destruct_and! Hn. cbn [fst snd] in *.
  do 9 (erewrite bind_shown by eassumption). do 4 (erewrite bind_int by eassumption). by destruct r.
Qed.

Lemma unmarshal_all l : Forall record_fits l -> mapM unmarshal_live (map (fun x => JObj (record_members x)) l) = Some l.
Proof. intros Hl. apply mapM_Some. induction Hl; constructor; [by apply unmarshal_members|assumption]. Qed.

Lemma requests_field v : List.filter (field_is "requests") [("requests", v)] = [("requests", v)].
Proof. reflexivity. Qed.
Lemma body_wf l : json_wf maxNestingDepth (JObj [("requests", JArr (map (fun x => JObj (record_members x)) l))]).
Proof.
  constructor; [done|]. apply Forall_cons; split; [|done]. split; [done|]. cbn [snd]. constructor; [done|].
  apply Forall_map, Forall_forall. intros r _. constructor; [done|]. apply record_members_wf.
Qed.

Lemma fetch_body l body : Forall record_fits l ->
  body = print (JObj [("requests", JArr (map (fun x => JObj (record_members x)) l))]) ->
  slen body <= 4194304 -> fetchInflight (Some (200, body)) = Ok l.
Proof.
  intros Hl Hb Hlen. unfold fetchInflight. cbn [Z.eqb Pos.eqb negb]. rewrite stake_all by (unfold slen in Hlen; lia).
  pose proof (body_wf l) as Hw. pose proof (need_print _ _ Hw) as Hn.
  assert (E := parse_print_value maxNestingDepth _ (2 * String.length body + 2)%nat "" Hw ltac:(rewrite Hb; lia) ltac:(by left)).
  rewrite sapp_nil_r, <- Hb in E. rewrite E. cbn [bind decode_struct]. rewrite (decode_field_one _ _ _ _ _ _ (requests_field _)).
  cbn [decode_records]. by rewrite unmarshal_all.
Qed.

Lemma live_current l : sensible l -> live_requests (after l) ≡ₚ omap (current l) (List.filter (fun i => negb (ended i l)) (seq 0 (length (begins l)))).
Proof.
  intros Hs. pose proof (after_shows l Hs) as [L1 L2 L3]. unfold live_requests.
  erewrite (list_omap_ext _ (current l)) by (apply Forall_Forall2_diag, Forall_forall; intros i _; apply L2).
  apply (omap_Permutation (current l)), NoDup_Permutation; [apply NoDup_elements|apply NoDup_ListNoDup, List.NoDup_filter, seq_NoDup|].
  intros i. rewrite elem_of_elements, L3, list_elem_of_In, List.filter_In, in_seq. destruct (ended i l); naive_solver lia.
Qed.

(** C15: What [top] shows is what is in flight.  After any interleaving of
    requests beginning, moving on and ending: the daemon's snapshot holds
    exactly the requests begun and not ended, each once, with the phase,
    model, backend, bytes and tokens that its own calls, and nobody else's,
    left; oldest first and then by request id; a request's record is gone
    with its end; and as long as texts are valid UTF-8 and the answer is
    within 4 MiB, a client of the admin socket decodes that very list. *)
Theorem top_shows_live l now : sensible l ->
  let r := after l in
  let snap := default [] (Snapshot (Some r) now) in
  (snap ≡ₚ map (record now) (omap (current l) (List.filter (fun i => negb (ended i l)) (seq 0 (length (begins l)))))) /\
  StronglySorted older snap /\
  (Forall record_fits snap -> slen (inflight_body (Some r) now) <= 4194304 -> fetchInflight (Some (200, inflight_body (Some r) now)) = Ok snap).
Proof.
  intros Hs. pose proof (after_shows l Hs) as [L1 L2 L3]. unfold Snapshot. cbn [default]. split; [|split].
  - rewrite merge_sort_Permutation. apply Permutation_map. apply live_current; assumption.
  - apply StronglySorted_merge_sort; apply _.
  - intros Hf Hl. by apply fetch_body.
Qed.

(** Two requests, the first of them moved on, the second over. *)
Module InflightDemo.
Definition alice : caller := mkCaller "req-1" "k1" "alice" "10.0.0.1" "" "chat".
Definition bob : caller := mkCaller "req-2" "k2" "bob" "10.0.0.2" "curl" "chat".
Definition day : list call :=
  [CBegin 0 alice; CBegin 5000000 bob; CUpdate 0 (UTarget "m" "b"); CUpdate 0 (UPhase PhaseStreaming); CEnd 1; CUpdate 0 (UWrote 12); CUpdate 0 (UTokens 3)].
Definition shown_now : list Record_ := [mkRecord "req-1" "k1" "alice" "10.0.0.1" "" "chat" "m" "b" "streaming" 9 0 12 3].

Lemma day_sensible : sensible day.
Proof.
  apply (sn_update (take 6 day)); [|cbn; lia]. apply (sn_update (take 5 day)); [|cbn; lia]. apply (sn_end (take 4 day)); [|cbn; lia].
  apply (sn_update (take 3 day)); [|cbn; lia]. apply (sn_update (take 2 day)); [|cbn; lia]. apply (sn_begin (take 1 day)), (sn_begin []), sn_nil.
Qed.
End InflightDemo.

Lemma top_shows_live_witness :
  sensible InflightDemo.day /\ Snapshot (Some (after InflightDemo.day)) 9000000 = Some InflightDemo.shown_now /\
  fetchInflight (Some (200, inflight_body (Some (after InflightDemo.day)) 9000000)) = Ok InflightDemo.shown_now.
Proof.
  assert (Snapshot (Some (after InflightDemo.day)) 9000000 = Some InflightDemo.shown_now) as E by (vm_compute; reflexivity).
  split; [exact InflightDemo.day_sensible|split; [exact E|]].
  destruct (top_shows_live InflightDemo.day 9000000 InflightDemo.day_sensible) as [_ [_ H]]. rewrite E in H. apply H.
  - apply Forall_singleton. split; repeat (apply Forall_cons; split; [vm_compute; first [reflexivity | split; discriminate]|]); constructor.
  - vm_compute. discriminate.
Defined.
