(* ===== verification/Provision.v ===== *)
(** * Provisioning a systemd service: [internal/systemd], [install]

    [Provision.Run] prepares a host: the service account, the directories,
    the configuration scaffold, the pepper and the users file, the unit and
    the log rotation; [installCmd] copies the binary and runs it.  The
    operating system is that of [Host.v]; the three embedded files are
    arguments, and so is the YAML decoder. *)

From Stdlib Require Import Ascii.
From S2P Require Import Prelude GoStrings Net Crypto Auth Config Paths Prog Host Replace Frame.
#[local] Open Scope Z_scope.

(* src: internal/systemd/systemd.go 27-37 ConfigDir *)
Definition ConfigDir : string := "/etc/mellomting".
Definition ConfigPath : string := "/etc/mellomting/config.yaml".
Definition UsersPath : string := "/etc/mellomting/users.yaml".
Definition PepperPath : string := "/etc/mellomting/auth.pepper".
Definition LogDir : string := "/var/log/mellomting".
Definition StateDir : string := "/var/lib/mellomting".
Definition RunDir : string := "/run/mellomting".
Definition UnitPath : string := "/etc/systemd/system/mellomting.service".
Definition LogrotatePath : string := "/etc/logrotate.d/mellomting".

Definition UnitName : string := "mellomting".
Definition configMaxBytes : Z := 1048576.

(* src: internal/systemd/assets.go DefaultServiceUser *)
Definition DefaultServiceUser : string := "mellomting".
(* src: internal/systemd/assets.go binaryPathPlaceholder *)
Definition binaryPathPlaceholder : string := "@BINARY_PATH@".

(* src: internal/systemd/systemd.go dirSpec *)
Record dirSpec := mkDirSpec { d_path : string; d_mode : Z; d_uid : Z; d_gid : Z }.
(* src: internal/systemd/systemd.go Report *)
Record Report := mkReport { ConfigCreated : bool; PepperCreated : bool; UsersCreated : bool }.

Inductive provision_error :=
| NotLinux | NotRoot | NoSystemd | BinaryControl | BinaryRelative | BinaryMissing
| NotFound (bin : string) | UserAdd | LookupCreated | UidNotNumeric | GidNotNumeric | GroupMissing
| NotDirectory (path : string) | StatFailed (path : string) | CreateFailed (path : string) | ChmodFailed (path : string) | ChownFailed (path : string)
| NotRegular (path : string) | OpenFailed (path : string) | PepperFailed | ReplaceFailed (e : replace_error) | DaemonReload.

Section Provision.
(** The embedded files. *)
Variables (serviceTemplate logrotateAsset configTemplateAsset : string).
(** gopkg.in/yaml.v3: [auth.users_file] and [auth.pepper_file] of the first
    document, decoded without checks; absent ones are empty. *)
Variable yaml_auth : string -> option (string * string).
Variable egid : Z.

(* src: internal/systemd/assets.go RenderService *)
Definition RenderService (binaryPath : string) : string := ReplaceAll serviceTemplate binaryPathPlaceholder binaryPath.

(** ** Files *)

(* src: internal/systemd/systemd.go writeFileAtomic *)
Definition writeFileAtomic (content path : string) (mode : Z) : prog (result provision_error unit) :=
  let dir := Dir path in
  let! r := call (MkdirAll dir) in
  match r with
  | Err _ => Ret (Err (CreateFailed dir))
  | Ok _ =>
      let! r := Replace egid path mode (mkEmission [content] false) in
      Ret (match r with Err e => Err (ReplaceFailed e) | Ok _ => Ok tt end)
  end.

(* src: internal/systemd/systemd.go reassertOwnership *)
Definition reassertOwnership (path : string) (st : FileInfo) (mode uid gid : Z) : prog (result provision_error unit) :=
  if (fi_uid st =? uid) && (fi_gid st =? gid) && (fi_perm st =? mode) then Ret (Ok tt)
  else
  let! r := call (OpenNoFollow path) in
  match r with
  | Err _ => Ret (Err (OpenFailed path))
  | Ok fd =>
      let! r := call (FChown fd uid gid) in
      match r with
      | Err _ => closing fd (Err (ChownFailed path))
      | Ok _ =>
          let! r := call (FChmod fd mode) in
          closing fd (match r with Err _ => Err (ChmodFailed path) | Ok _ => Ok tt end)
      end
  end.

(** [content] runs only when the file is to be created. *)
(* src: internal/systemd/systemd.go ensureFile *)
Definition ensureFile (path : string) (mode uid gid : Z) (content : prog (result provision_error string)) : prog (result provision_error bool) :=
  let! r := call (Lstat path) in
  match r with
  | Ok st =>
      if negb (IsRegular st) then Ret (Err (NotRegular path))
      else let?! _ := reassertOwnership path st mode uid gid in Ret (Ok false)
  | Err ENOENT =>
      let?! data := content in
      let?! _ := writeFileAtomic data path mode in
      let! r := call (Chown path uid gid) in
      Ret (match r with Err _ => Err (ChownFailed path) | Ok _ => Ok true end)
  | Err _ => Ret (Err (StatFailed path))
  end.

(* src: internal/systemd/systemd.go ensureConfig *)
Definition ensureConfig (path : string) (mode uid gid : Z) : prog (result provision_error bool) :=
  ensureFile path mode uid gid (Ret (Ok configTemplateAsset)).

(* src: internal/auth/store.go GeneratePepper *)
Definition GeneratePepper : prog (option string) :=
  let! r := call (Random PepperBytes) in
  Ret (match r with Err _ => None | Ok b => if ValidatePepper b then Some b else None end).

(* src: internal/systemd/systemd.go ensurePepper *)
Definition ensurePepper (path : string) (uid gid : Z) : prog (result provision_error bool) :=
  ensureFile path 416 uid gid (let! b := GeneratePepper in Ret (match b with None => Err PepperFailed | Some b => Ok (EncodePepper b) end)).

(* src: internal/systemd/systemd.go ensureUsers *)
Definition ensureUsers (path : string) (uid gid : Z) : prog (result provision_error bool) :=
  ensureFile path 416 uid gid (Ret (Ok EmptyUsers)).

(** [None]: the configuration could not be read or decoded. *)
(* src: internal/systemd/systemd.go referencedAuthPaths *)
Definition referencedAuthPaths (path : string) : prog (option (string * string)) :=
  let! r := call (Lstat path) in
  match r with
  | Err _ => Ret None
  | Ok st =>
      if negb (IsRegular st) then Ret None
      else
      let! r := call (Open path) in
      match r with
      | Err _ => Ret None
      | Ok fd =>
          let! r := call (ReadLimit fd (configMaxBytes + 1)) in
          closing fd (match r with
                      | Err _ => None
                      | Ok data => if configMaxBytes <? slen data then None else yaml_auth data
                      end)
      end
  end.

(** Whether the pepper and the users file were created. *)
(* src: internal/systemd/systemd.go ensureAuthArtifacts *)
Definition ensureAuthArtifacts (configCreated : bool) (configPath usersPath pepperPath : string) (uid gid : Z) : prog (result provision_error (bool * bool)) :=
  if configCreated then
    let?! pepperCreated := ensurePepper pepperPath uid gid in
    let?! usersCreated := ensureUsers usersPath uid gid in
    Ret (Ok (pepperCreated, usersCreated))
  else
  let! refs := referencedAuthPaths configPath in
  match refs with
  | None => Ret (Ok (false, false))
  | Some (usersRef, pepperRef) =>
      let?! usersCreated := (if String.eqb usersRef usersPath then ensureUsers usersPath uid gid else Ret (Ok false)) in
      let?! pepperCreated := (if String.eqb pepperRef pepperPath then ensurePepper pepperPath uid gid else Ret (Ok false)) in
      Ret (Ok (pepperCreated, usersCreated))
  end.

(** ** The host *)

(* src: internal/systemd/systemd.go resolveBinary *)
Fixpoint resolveBinary (bin : string) (locations : list string) : prog (result provision_error string) :=
  match locations with
  | [] => Ret (Err (NotFound bin))
  | loc :: locations =>
      let! r := call (Stat loc) in
      match r with
      | Ok st => if IsRegular st then Ret (Ok loc) else resolveBinary bin locations
      | Err _ => resolveBinary bin locations
      end
  end.

(* src: internal/systemd/systemd.go systemdActive *)
Definition systemdActive : prog bool :=
  let! r := call (Stat "/run/systemd/system") in
  Ret (match r with Ok st => IsDir st | Err _ => false end).

(* src: internal/systemd/systemd.go preflightEnv *)
Record preflightEnv := mkEnv { goos : string; euid : Z; active : bool }.

(* src: internal/systemd/systemd.go Provision.checkHost *)
Definition checkHost (env : preflightEnv) : result provision_error unit :=
  if negb (String.eqb (goos env) "linux") then Err NotLinux
  else if negb (euid env =? 0) then Err NotRoot
  else if negb (active env) then Err NoSystemd
  else Ok tt.

(** [goos] and [euid] of the process. *)
Variables (os_name : string) (os_euid : Z).

(* src: internal/systemd/systemd.go Provision.CheckHost *)
Definition CheckHost : prog (result provision_error unit) := let! a := systemdActive in Ret (checkHost (mkEnv os_name os_euid a)).

Definition is_control (c : ascii) : bool := (bval c <? 32) || (bval c =? 127).

(* src: internal/systemd/systemd.go Provision.preflight *)
Definition preflight (binaryPath : string) (env : preflightEnv) : prog (result provision_error unit) :=
  match checkHost env with
  | Err e => Ret (Err e)
  | Ok _ =>
      if negb (sforall (fun c => negb (is_control c)) binaryPath) then Ret (Err BinaryControl)
      else if negb (IsAbs binaryPath) then Ret (Err BinaryRelative)
      else
      let! r := call (Stat binaryPath) in
      Ret (match r with Ok st => if IsRegular st then Ok tt else Err BinaryMissing | Err _ => Err BinaryMissing end)
  end.

(* src: internal/systemd/systemd.go provisionDirs *)
Definition provisionDirs (uid gid : Z) : list dirSpec :=
  [mkDirSpec ConfigDir 488 0 gid; mkDirSpec LogDir 488 uid gid; mkDirSpec StateDir 488 uid gid; mkDirSpec RunDir 488 uid gid].    (* 0o750 *)

(* src: internal/systemd/systemd.go useraddArgs *)
Definition useraddArgs (name : string) : list string :=
  ["--system"; "--no-create-home"; "--user-group"; "--home-dir"; RunDir; "--shell"; "/usr/sbin/nologin"; name].

(** A user is a numeric id and a primary group id, as text. *)
(* src: internal/systemd/systemd.go ensureAccount *)
Definition ensureAccount (name : string) : prog (result provision_error (string * string)) :=
  let! r := call (LookupUser name) in
  match r with
  | Ok u => Ret (Ok u)
  | Err _ =>
      let?! useraddPath := resolveBinary "useradd" ["/usr/sbin/useradd"; "/sbin/useradd"] in
      let! r := call (Command useraddPath (useraddArgs name)) in
      match r with
      | Err _ => Ret (Err UserAdd)
      | Ok _ =>
          let! r := call (LookupUser name) in
          Ret (match r with Err _ => Err LookupCreated | Ok u => Ok u end)
      end
  end.

(* src: internal/systemd/systemd.go serviceGroupID *)
Definition serviceGroupID (name : string) (u : string * string) : prog (result provision_error Z) :=
  let! r := call (LookupGroup name) in
  match r with
  | Ok g => Ret (match Atoi g with None => Err GidNotNumeric | Some gid => Ok gid end)
  | Err _ =>
      match Atoi u.2 with
      | None => Ret (Err GidNotNumeric)
      | Some gid =>
          let! r := call (LookupGroupId u.2) in
          Ret (match r with Ok n => if String.eqb n name then Ok gid else Err GroupMissing | Err _ => Err GroupMissing end)
      end
  end.

(** The mode and the owner, on every way. *)
(* src: internal/systemd/systemd.go 520-526 ensureDir *)
Definition own_dir (path : string) (mode uid gid : Z) : prog (result provision_error unit) :=
  let! r := call (Chmod path mode) in
  match r with
  | Err _ => Ret (Err (ChmodFailed path))
  | Ok _ =>
      let! r := call (Chown path uid gid) in
      Ret (match r with Err _ => Err (ChownFailed path) | Ok _ => Ok tt end)
  end.

(* src: internal/systemd/systemd.go ensureDir *)
Definition ensureDir (path : string) (mode uid gid : Z) : prog (result provision_error unit) :=
  let! r := call (Lstat path) in
  match r with
  | Ok st => if negb (IsDir st) then Ret (Err (NotDirectory path)) else own_dir path mode uid gid
  | Err ENOENT =>
      let! r := call (Mkdir path mode) in
      match r with Err _ => Ret (Err (CreateFailed path)) | Ok _ => own_dir path mode uid gid end
  | Err _ => Ret (Err (StatFailed path))
  end.

Fixpoint ensureDirs (l : list dirSpec) : prog (result provision_error unit) :=
  match l with
  | [] => Ret (Ok tt)
  | d :: l => let?! _ := ensureDir (d_path d) (d_mode d) (d_uid d) (d_gid d) in ensureDirs l
  end.

(** ** [Run] *)

(** The unit, the log rotation, and systemd told of them. *)
(* src: internal/systemd/systemd.go 152-165 Run *)
Definition installUnit (binaryPath : string) : prog (result provision_error unit) :=
  let?! _ := writeFileAtomic (RenderService binaryPath) UnitPath 420 in           (* 0o644 *)
  let?! _ := writeFileAtomic logrotateAsset LogrotatePath 420 in
  let?! systemctlPath := resolveBinary "systemctl" ["/usr/bin/systemctl"; "/bin/systemctl"] in
  let! r := call (Command systemctlPath ["daemon-reload"]) in
  Ret (match r with Err _ => Err DaemonReload | Ok _ => Ok tt end).

(* src: internal/systemd/systemd.go Provision.Run *)
Definition Run (binaryPath user : string) : prog (result provision_error Report) :=
  let! a := systemdActive in
  let?! _ := preflight binaryPath (mkEnv os_name os_euid a) in
  let user := if String.eqb user "" then DefaultServiceUser else user in
  let?! u := ensureAccount user in
  match Atoi u.1 with
  | None => Ret (Err UidNotNumeric)
  | Some uid =>
      let?! gid := serviceGroupID user u in
      let?! _ := ensureDirs (provisionDirs uid gid) in
      let?! configCreated := ensureConfig ConfigPath 416 0 gid in                   (* 0o640 *)
      let?! auth := ensureAuthArtifacts configCreated ConfigPath UsersPath PepperPath 0 gid in
      let?! _ := installUnit binaryPath in
      Ret (Ok (mkReport configCreated auth.1 auth.2))
  end.
End Provision.

(** ** [mellomting install] *)

Section Install.
Variables (serviceTemplate logrotateAsset configTemplateAsset : string).
Variable yaml_auth : string -> option (string * string).
Variables (egid : Z) (os_name : string) (os_euid : Z).
Variable eval_symlinks : string -> option string.
(** What [io.Copy] reads from the binary while it writes the copy: the
    chunks, and whether a read fails. *)
Variable copied : list string * bool.

Inductive install_error := AlreadyInstalled | IsADirectory | InstallMkdir | InstallOpen | InstallStat | InstallReplace (e : replace_error).

(* src: cmd/mellomting/install.go sameResolvedPath *)
Definition sameResolvedPath (a b : string) : bool :=
  String.eqb a b || match eval_symlinks a, eval_symlinks b with Some ra, Some rb => String.eqb ra rb | _, _ => false end.

(** The copy fails on a failed read and on a size that is not the source's. *)
(* src: cmd/mellomting/install.go 157-166 installBinary *)
Definition copy_of (srcInfo : FileInfo) : emission :=
  mkEmission copied.1 (copied.2 || negb (slen (String.concat "" copied.1) =? fi_size srcInfo)).

(* src: cmd/mellomting/install.go installBinary *)
Definition installBinary (src dest : string) : prog (result install_error unit) :=
  if sameResolvedPath src dest then Ret (Err AlreadyInstalled)
  else
  let! r := call (Lstat dest) in
  if (match r with Ok st => IsDir st | Err _ => false end) then Ret (Err IsADirectory)
  else
  let! r := call (MkdirAll (Dir dest)) in
  match r with
  | Err _ => Ret (Err InstallMkdir)
  | Ok _ =>
      let! r := call (Open src) in
      match r with
      | Err _ => Ret (Err InstallOpen)
      | Ok fd =>
          let! r := call (FStat fd) in
          match r with
          | Err _ => closing fd (Err InstallStat)
          | Ok srcInfo =>
              let! r := Replace egid dest 493 (copy_of srcInfo) in                  (* 0o755 *)
              closing fd (match r with Err e => Err (InstallReplace e) | Ok _ => Ok tt end)
          end
      end
  end.

(** The destination, and the exit code. *)
(* src: cmd/mellomting/install.go performInstall *)
Definition performInstall (src prefix : string) : prog (string * Z) :=
  let dest := Join [prefix; "bin"; "mellomting"] in
  let! r := installBinary src dest in
  Ret (dest, match r with Ok _ | Err AlreadyInstalled => 0 | Err _ => 1 end).

(** From the parsed flags on; [exe] is the path of the running binary.  The
    exit code, and the report of the provisioning. *)
(* src: cmd/mellomting/install.go 44-82 installCmd *)
Definition installCmd (exe : option string) (prefix : string) (systemdInstall : bool) (narg : nat) : prog (Z * option Report) :=
  if negb (narg =? 0)%nat then Ret (2, None)
  else if String.eqb prefix "" then Ret (2, None)
  else match exe with
  | None => Ret (1, None)
  | Some src =>
      let! ok := (if systemdInstall then let! r := CheckHost os_name os_euid in Ret (is_ok r) else Ret true) in
      if negb ok then Ret (1, None)
      else
      let! x := performInstall src prefix in
      if negb (x.2 =? 0) then Ret (x.2, None)
      else if systemdInstall then
        let! r := Run serviceTemplate logrotateAsset configTemplateAsset yaml_auth egid os_name os_euid x.1 "" in
        Ret (match r with Err _ => (1, None) | Ok report => (0, Some report) end)
      else Ret (0, None)
  end.

(** The three actions left to the operator. *)
(* src: cmd/mellomting/install.go systemdNextSteps *)
Definition systemdNextSteps (binaryPath : string) : string :=
  String.concat (String ch_nl "")
    ["Mellomting installed."; ""; "Next:"; "  sudo editor " +:+ ConfigPath; "  sudo " +:+ binaryPath +:+ " key create production"; "  sudo systemctl enable --now " +:+ UnitName; ""].
End Install.

(** ** What provisioning leaves alone *)

Section Frames.
Variables (p : string).
Notation frames := (frames p).
Notation anything := (fun _ _ _ => True).
Variables (serviceTemplate logrotateAsset configTemplateAsset : string) (yaml_auth : string -> option (string * string)) (egid : Z).

(** Programs that neither rename, nor remove, nor write. *)
Fixpoint gentle {A} (q : prog A) : Prop :=
  match q with
  | Ret _ => True
  | Call o k => match o with Write _ _ | Rename _ _ | Remove _ => False | _ => True end /\ forall r, gentle (k r)
  end.
Lemma gentle_frames {A} (q : prog A) T F : gentle q -> frames anything T F q.
Proof. revert T F. induction q as [a|o k IH]; intros T F; [done|]. cbn [gentle Frame.frames]. intros [Ho H]. split; [by destruct o|]. intros r _. by apply IH. Qed.
Lemma gentle_bind {A B} (q : prog A) (f : A -> prog B) : gentle q -> (forall a, gentle (f a)) -> gentle (bind q f).
Proof. intros Hq Hf. induction q as [a|o k IH]; [apply Hf|]. cbn in *. destruct Hq as [Ho H]. split; [done|]. intros r. by apply IH. Qed.

Lemma gentle_call {B} o (f : answer o -> prog B) : match o with Write _ _ | Rename _ _ | Remove _ => False | _ => True end -> (forall r, gentle (f r)) -> gentle (bind (call o) f).
Proof. by split. Qed.

Lemma frames_then {A B} (q : prog A) (f : A -> prog B) T F : frames anything T F q -> (forall a T F, frames anything T F (f a)) -> frames anything T F (bind q f).
Proof. intros Hq Hf. apply frames_bind. eapply frames_mono, Hq. intros a T' F' _. apply Hf. Qed.

Lemma writeFileAtomic_frames content path mode T F : path <> p -> frames anything T F (writeFileAtomic egid content path mode).
Proof.
  intros Hp. apply frames_call; [done|]. intros r _. destruct r; [|done]. apply frames_then; [by apply replace_frames|]. by intros [].
Qed.

Lemma reassert_gentle path st mode uid gid : gentle (reassertOwnership path st mode uid gid).
Proof.
  unfold reassertOwnership. destruct (_ && _); [done|]. apply gentle_call; [done|]. intros r. destruct r; [|done]. cbn. split; [done|].
  intros r. by destruct r.
Qed.

(** Whatever the file, an existing path is left alone. *)
Lemma ensureFile_frames path mode uid gid content T F : gentle content -> frames anything T F (ensureFile egid path mode uid gid content).
Proof.
  intros Hc. apply frames_call; [done|]. intros r Hr. destruct r as [st|e].
  - destruct (IsRegular st); cbn [negb]; [|done]. apply frames_then; [apply gentle_frames, reassert_gentle|]. by intros [].
  - destruct (decide (e = ENOENT)) as [->|He]; [|by destruct e]. specialize (Hr eq_refl).
    apply frames_then; [by apply gentle_frames|]. intros [data|e] T' F'; [|done].
    apply frames_then; [by apply writeFileAtomic_frames|]. intros [[]|e] T'' F''; [|done]. by apply frames_call.
Qed.

Lemma GeneratePepper_gentle : gentle GeneratePepper.
Proof. cbn. split; [done|]. intros []; done. Qed.
Lemma ensurePepper_frames path uid gid T F : frames anything T F (ensurePepper egid path uid gid).
Proof. apply ensureFile_frames. apply gentle_bind; [apply GeneratePepper_gentle|]. by intros []. Qed.
Lemma referencedAuthPaths_gentle path : gentle (referencedAuthPaths yaml_auth path).
Proof.
  apply gentle_call; [done|]. intros r. destruct r as [st|]; [|done]. destruct (IsRegular st); cbn [negb]; [|done]. cbn. split; [done|].
  intros r. destruct r; [|done]. apply gentle_call; [done|]. by intros [].
Qed.

Lemma ensureAuthArtifacts_frames created configPath usersPath pepperPath uid gid T F :
  frames anything T F (ensureAuthArtifacts yaml_auth egid created configPath usersPath pepperPath uid gid).
Proof.
  unfold ensureAuthArtifacts. destruct created.
  - apply frames_then; [apply ensurePepper_frames|]. intros [pc|] T' F'; [|done]. apply frames_then; [by apply ensureFile_frames|]. by intros [].
  - apply frames_then; [apply gentle_frames, referencedAuthPaths_gentle|]. intros [[u q]|] T' F'; [|done].
    apply frames_then; [destruct (String.eqb u usersPath); [by apply ensureFile_frames|done]|]. intros [uc|] T'' F''; [|done].
    apply frames_then; [destruct (String.eqb q pepperPath); [by apply ensurePepper_frames|done]|]. by intros [].
Qed.

Lemma resolveBinary_gentle bin l : gentle (resolveBinary bin l).
Proof. induction l as [|a l IH]; [done|]. apply gentle_call; [done|]. intros r. destruct r as [st|]; [|done]. by destruct (IsRegular st). Qed.
Lemma ensureAccount_gentle name : gentle (ensureAccount name).
Proof.
  apply gentle_call; [done|]. intros r. destruct r; [done|]. apply (gentle_bind (resolveBinary _ _)); [apply resolveBinary_gentle|]. intros [path|]; [|done].
  apply gentle_call; [done|]. intros r. destruct r; [|done]. apply gentle_call; [done|]. by intros [].
Qed.
Lemma serviceGroupID_gentle name u : gentle (serviceGroupID name u).
Proof. apply gentle_call; [done|]. intros r. destruct r; [done|]. destruct (Atoi u.2); [|done]. apply gentle_call; [done|]. by intros []. Qed.

Lemma own_dir_gentle path mode uid gid : gentle (own_dir path mode uid gid).
Proof. apply gentle_call; [done|]. intros r. destruct r; [|done]. apply gentle_call; [done|]. by intros []. Qed.
Lemma ensureDir_gentle path mode uid gid : gentle (ensureDir path mode uid gid).
Proof.
  apply gentle_call; [done|]. intros r. destruct r as [st|[]]; [|apply gentle_call; [done|]; intros r; destruct r; [apply own_dir_gentle|done]|done..].
  destruct (IsDir st); cbn [negb]; [apply own_dir_gentle|done].
Qed.
Lemma ensureDirs_gentle l : gentle (ensureDirs l).
Proof. induction l as [|d l IH]; [done|]. apply gentle_bind; [apply ensureDir_gentle|]. by intros []. Qed.

Lemma installUnit_frames binaryPath T F : p <> UnitPath -> p <> LogrotatePath -> frames anything T F (installUnit serviceTemplate logrotateAsset egid binaryPath).
Proof.
  intros H1 H2. apply frames_then; [by apply writeFileAtomic_frames|]. intros [[]|] T1 F1; [|done].
  apply frames_then; [by apply writeFileAtomic_frames|]. intros [[]|] T2 F2; [|done].
  apply frames_then; [apply gentle_frames, resolveBinary_gentle|]. intros [b|] T3 F3; [|done]. apply frames_call; [done|]. by intros [].
Qed.

Lemma preflight_gentle binaryPath env : gentle (preflight binaryPath env).
Proof.
  unfold preflight. destruct (checkHost _); [|done]. destruct (sforall _ _); cbn [negb]; [|done]. destruct (IsAbs binaryPath); cbn [negb]; [|done].
  apply gentle_call; [done|]. by intros [].
Qed.

Lemma Run_frames os_name os_euid binaryPath user T F : p <> UnitPath -> p <> LogrotatePath ->
  frames anything T F (Run serviceTemplate logrotateAsset configTemplateAsset yaml_auth egid os_name os_euid binaryPath user).
Proof.
  intros H1 H2. apply frames_then; [apply gentle_frames; apply gentle_call; [done|]; by intros []|]. intros a T1 F1.
  apply frames_then; [apply gentle_frames, preflight_gentle|]. intros [[]|] T2 F2; [|done].
  apply frames_then; [apply gentle_frames, ensureAccount_gentle|]. intros [u|] T3 F3; [|done]. destruct (Atoi u.1) as [uid|]; [|done].
  apply frames_then; [apply gentle_frames, serviceGroupID_gentle|]. intros [gid|] T4 F4; [|done].
  apply frames_then; [apply gentle_frames, ensureDirs_gentle|]. intros [[]|] T5 F5; [|done].
  apply frames_then; [by apply ensureFile_frames|]. intros [c|] T6 F6; [|done].
  apply frames_then; [apply ensureAuthArtifacts_frames|]. intros [x|] T7 F7; [|done].
  apply frames_then; [by apply installUnit_frames|]. by intros [].
Qed.
End Frames.

Lemma installBinary_frames egid ev copied src dest p T F : dest <> p -> frames p (fun _ _ _ => True) T F (installBinary egid ev copied src dest).
Proof.
  intros Hp. unfold installBinary. destruct (sameResolvedPath ev src dest); [done|]. apply frames_call; [done|]. intros r _.
  match goal with |- context [if ?b then _ else _] => destruct b end; [done|]. apply frames_call; [done|]. intros r1 _. destruct r1; [|done].
  apply frames_call; [done|]. intros r2 _. destruct r2; [|done]. apply frames_call; [done|]. intros r3 _. destruct r3; [|by apply gentle_frames].
  apply frames_then; [by apply replace_frames|]. intros r4 T' F'. by apply gentle_frames.
Qed.

Lemma installCmd_frames tmpl rotate scaffold yaml egid os euid ev copied exe prefix sysd narg p T F :
  p <> Join [prefix; "bin"; "mellomting"] -> p <> UnitPath -> p <> LogrotatePath ->
  frames p (fun _ _ _ => True) T F (installCmd tmpl rotate scaffold yaml egid os euid ev copied exe prefix sysd narg).
Proof.
  intros Hd Hu Hl. unfold installCmd. destruct (narg =? 0)%nat; cbn [negb]; [|done]. destruct (String.eqb prefix ""); [done|]. destruct exe as [src|]; [|done].
  apply frames_then; [destruct sysd; [|done]; apply gentle_frames, gentle_bind; [|done]; apply gentle_call; [done|]; by intros []|].
  intros [] T1 F1; cbn [negb]; [|done]. apply frames_then; [apply frames_then; [by apply installBinary_frames|done]|].
  intros [dest code] T2 F2. cbn [fst snd]. destruct (code =? 0); cbn [negb]; [|done]. destruct sysd; [|done].
  apply frames_then; [by apply Run_frames|]. by intros [].
Qed.

(** C10: Installing replaces three files and no other.  Take any path that
    led to something before [install], [install --systemd] included, and that
    is not the binary's own destination, the unit or the log rotation policy;
    the other processes leave it and the file there alone, and so do the
    programs that the installation starts, which may do what they like to
    everything else (useradd rewrites the account files).  Then it leads to the same file with the same
    content afterwards and at every moment between, whichever operations and
    programs fail: an existing configuration, users file or pepper, or a link
    planted in the place of one, is never written to, replaced or removed by
    the installation itself, and neither is any other file that was there. *)
Theorem install_replaces_only_its_own tmpl rotate scaffold yaml egid os euid ev copied exe prefix sysd narg p k0 n0 q v0 v :
  p <> Join [prefix; "bin"; "mellomting"] -> p <> UnitPath -> p <> LogrotatePath ->
  h_mine v0 = ∅ -> h_names v0 !! p = Some k0 -> h_nodes v0 !! k0 = Some n0 ->
  rtc (Prog.step (leaves p k0 (n_kind n0) (n_data n0)) (tame p k0 (n_kind n0) (n_data n0))) (installCmd tmpl rotate scaffold yaml egid os euid ev copied exe prefix sysd narg, v0) (q, v) ->
  h_names v !! p = Some k0 /\ exists n, h_nodes v !! k0 = Some n /\ n_kind n = n_kind n0 /\ n_data n = n_data n0.
Proof.
  intros Hd Hu Hl Hm Hp Hk Hrun. assert (owned p k0 (n_kind n0) (n_data n0) ∅ ∅ v0) as Ho.
  { split; [split; [done|]; split; [rewrite Hm; apply not_elem_of_empty|by exists n0]|]. split; intros x Hx; by apply not_elem_of_empty in Hx. }
  pose proof (frames_always p k0 (n_kind n0) (n_data n0) _ _ _ _ _ (installCmd_frames tmpl rotate scaffold yaml egid os euid ev copied exe prefix sysd narg p ∅ ∅ Hd Hu Hl) Ho) as Ha.
  destruct (always_adequate _ _ _ _ _ _ _ _ Ha (proj1 Ho) Hrun) as [(H1 & _ & H2) _]. by split.
Qed.

(** ** What [ensureFile] does *)

Section Ensure.
Variables (egid : Z) (path : string) (mode uid gid : Z) (v0 : host).
(** The directories made on the way are not the path itself. *)
Hypothesis Hdir : has_prefix path (Dir path) = false.
Hypothesis Hids : 0 <= uid /\ 0 <= gid.
(** What may be put into a new file: [content] has one of these texts, or an
    operation of it has failed. *)
Variable good : string -> Prop.
Variable content : prog (result provision_error string).
Notation fresh := (Replace.fresh (kept path v0)).
Notation always := (Prog.always (respects path) behaves (fun _ => True)).
Hypothesis Hcontent : forall f v, fresh f v ->
  always (fun r v' => exists f', (f <= f')%nat /\ fresh f' v' /\ match r with Ok data => good data | Err _ => (f < f')%nat end) content v.
Let f0 : nat := h_fails v0.

(** The new file; the old one, with its new owner and mode. *)
Definition new_file (n : inode) : Prop :=
  n_kind n = KFile /\ good (n_data n) /\ n_synced n = true /\ n_perm n = mode /\ n_uid n = uid /\ n_gid n = gid.
Definition owned_by (n n' : inode) : Prop :=
  n_kind n' = n_kind n /\ n_data n' = n_data n /\ n_perm n' = mode /\ n_uid n' = uid /\ n_gid n' = gid.

Definition ensured (r : result provision_error bool) (v : host) : Prop :=
  match r with
  | Ok true => h_names v0 !! path = None /\ exists k n, h_names v !! path = Some k /\ h_nodes v !! k = Some n /\ new_file n
  | Ok false => exists k n0 n, h_names v0 !! path = Some k /\ h_nodes v0 !! k = Some n0 /\ n_kind n0 = KFile /\
      h_names v !! path = Some k /\ h_nodes v !! k = Some n /\ owned_by n0 n
  | Err e => h_fails v = f0 -> e = NotRegular path /\ exists k n0, h_names v0 !! path = Some k /\ h_nodes v0 !! k = Some n0 /\ n_kind n0 <> KFile
  end.

(** The file there, whoever changed its mode. *)
Definition leads (k : Z) (n : inode) (v : host) : Prop := h_names v !! path = Some k /\ h_nodes v !! k = Some n.
Lemma leads_others k n v v' : leads k n v -> respects path v v' -> leads k n v'.
Proof. intros [Hp Hk] [_ [H1 H2]]. split; [by rewrite H1|by rewrite H2]. Qed.
Lemma failed_after f v v' : (f0 <= f)%nat -> (f <= h_fails v)%nat -> respects path v v' -> h_fails (fault v') = f0 -> False.
Proof. intros H1 H2 [(d & nodes & -> & _) _]. cbn. lia. Qed.

Lemma owned_by_self n : n_uid n = uid -> n_gid n = gid -> n_perm n = mode -> owned_by n n.
Proof. by split. Qed.
Lemma owned_by_made n : owned_by n (with_perm mode (with_owner uid gid n)).
Proof. unfold owned_by, with_owner, with_perm. rewrite (proj2 (Z.eqb_neq uid (-1))), (proj2 (Z.eqb_neq gid (-1))) by lia. done. Qed.

Lemma respects_fails v v' : respects path v v' -> h_fails v' = h_fails v.
Proof. by intros [(d & nodes & -> & _) _]. Qed.

Lemma closing_leads {A} k n fd (a : A) v : leads k n v -> always (fun r v' => r = a /\ leads k n v' /\ (h_fails v <= h_fails v')%nat) (closing fd a) v.
Proof.
  intros Hv v1 r v2 Hi Hb. pose proof (leads_others _ _ _ _ Hv Hi) as Hv1. apply respects_fails in Hi. split; [done|]. cbn [Prog.always bind].
  destruct r; cbn in Hb; [subst v2|destruct Hb as [-> | ->]]; split; try done; (split; [done|]); cbn; lia.
Qed.

Definition reasserted (k : Z) (n0 : inode) (r : result provision_error unit) (v : host) : Prop :=
  match r with Ok _ => exists n, leads k n v /\ owned_by n0 n | Err _ => (f0 < h_fails v)%nat end.

Lemma closing_fails {A} fd (a : A) v : (f0 < h_fails v)%nat -> always (fun r v' => r = a /\ (f0 < h_fails v')%nat) (closing fd a) v.
Proof.
  intros Hv v1 r v2 Hi Hb. apply respects_fails in Hi. split; [done|]. cbn [Prog.always bind]. split; [done|].
  destruct r; cbn in Hb; [subst v2|destruct Hb as [-> | ->]]; cbn; lia.
Qed.

Lemma on_fd_leads k n g v v' fd : leads k n v -> h_fds v !! fd = Some k -> on_fd v v' fd g -> leads k (g n) v' /\ h_fails v' = h_fails v /\ h_fds v' !! fd = Some k.
Proof.
  intros [Hp Hk] Hfd (k' & n' & Hfd' & Hk' & ->). assert (k' = k) as -> by congruence. assert (n' = n) as -> by congruence. unfold leads. cbn. by rewrite lookup_insert_eq.
Qed.

Lemma reassert_spec k n0 v : leads k n0 v -> (f0 <= h_fails v)%nat -> always (reasserted k n0) (reassertOwnership path (info_of k n0) mode uid gid) v.
Proof.
  intros Hv Hf. unfold reassertOwnership. cbn [fi_uid fi_gid fi_perm info_of]. destruct (_ && _) eqn:E.
  { cbn. apply andb_prop in E as [[E1 E2]%andb_prop E3]. exists n0. split; [done|]. apply owned_by_self; lia. }
  intros v1 r v2 Hi Hb. split; [done|]. pose proof (leads_others _ _ _ _ Hv Hi) as Hv1. apply respects_fails in Hi. destruct r as [fd|e].
  2: { cbn. destruct e; cbn in Hb; [destruct Hb as [Hn _]; destruct Hv1; congruence|subst v2; cbn; lia..]. }
  destruct Hb as (k' & n' & Hp' & Hk' & _ & Hfree & ->). assert (k' = k) as -> by (destruct Hv1; congruence). clear n' Hp' Hk'. cbn [bind].
  intros v3 r v4 Hi3 Hb. split; [done|]. assert (leads k n0 v3) as Hv3 by (eapply leads_others, Hi3; exact Hv1).
  assert (h_fds v3 !! fd = Some k) as Hfd by (destruct Hi3 as [(d & nodes & -> & _) _]; apply lookup_insert_eq).
  apply respects_fails in Hi3. cbn [h_fails set_fds] in Hi3. destruct r as [[]|e]; cbn in Hb.
  2: { subst v4. eapply always_mono, closing_fails; [intros r w [-> H]; exact H|cbn; lia]. }
  destruct (on_fd_leads _ _ _ _ _ _ Hv3 Hfd Hb) as (Hv4 & Hf4 & Hfd4). cbn [bind].
  intros v5 r v6 Hi5 Hb5. split; [done|]. pose proof (leads_others _ _ _ _ Hv4 Hi5) as Hv5.
  assert (h_fds v5 !! fd = Some k) as Hfd5 by (by destruct Hi5 as [(d & nodes & -> & _) _]).
  apply respects_fails in Hi5. destruct r as [[]|e]; cbn in Hb5.
  - destruct (on_fd_leads _ _ _ _ _ _ Hv5 Hfd5 Hb5) as (Hv6 & Hf6 & _). eapply always_mono, (closing_leads k _ fd _ v6 Hv6). intros r w (-> & H & _). exists (with_perm mode (with_owner uid gid n0)). split; [done|apply owned_by_made].
  - subst v6. eapply always_mono, closing_fails; [intros r w [-> H]; exact H|cbn; lia].
Qed.

(** The path is free, and stays so until the file is installed. *)
Lemma install_returns m w : returns (fun r => r <> Err RSymlink /\ r <> Err RNotRegular) (install egid None path m 0 w).
Proof.
  unfold install. intros r. destruct r as [[fd name]|e]; [|done]. cbn [bind]. apply returns_bind. eapply returns_mono, returns_any. intros m' _.
  apply returns_bind. eapply returns_mono, returns_any. intros [] _; cbn [negb]; [|by split].
  intros r1. destruct r1; cbn [is_ok negb bind]; [|by split]. intros r2. destruct r2; cbn [is_ok negb bind]; [|by split].
  intros r3. destruct r3; cbn [is_ok negb bind]; [|by split]. intros r4. destruct r4; cbn [is_ok negb bind]; by split.
Qed.

(** A new file is at the path. *)
Definition placed (data : string) (v : host) : Prop :=
  (f0 <= h_fails v)%nat /\ exists k n, leads k n v /\ n_kind n = KFile /\ n_data n = data /\ n_synced n = true /\ n_perm n = mode.
Definition written (data : string) {E A} (r : result E A) (v : host) : Prop :=
  match r with Ok _ => placed data v | Err _ => (f0 < h_fails v)%nat end.

Hypothesis Hfree : h_names v0 !! path = None.

Lemma install_placed data f v : fresh f v -> (f0 <= f)%nat -> always (written data) (install egid None path mode 0 (mkEmission [data] false)) v.
Proof.
  intros Hv Hf. assert (h_fails v = f) as Hfv by (by destruct Hv as (_ & ? & _)).
  pose proof (install_spec egid path mode 0 (mkEmission [data] false) (respects path) (kept path v0) (fun _ => True) (respects_interferes path) (respects_kept path v0) (kept_entry path v0) (fun _ _ _ _ => I) f None v Hv) as H1.
  pose proof (always_returns (respects path) behaves _ _ v (install_returns mode (mkEmission [data] false))) as H2.
  pose proof (always_fails (respects path) (install egid None path mode 0 (mkEmission [data] false)) v (respects_interferes path)) as H3.
  pose proof (always_both _ _ _ _ _ _ _ _ (always_both _ _ _ _ _ _ _ _ H1 H2) H3) as H. eapply always_weaken, always_mono, H; [done|].
  clear H H1 H2 H3 Hv. intros r w [[[_ Hr] Hn] Hle]. destruct r as [[]|e]; cbn in Hr |- *.
  - split; [lia|]. destruct Hr as (_ & _ & k & Hk & [_ (n & Hnk & (H1 & H2 & H3 & H4 & _))] & _). exists k, n. split; [by split|]. unfold Replace.content in H2. cbn in H2.
    split; [done|]. split; [done|]. split; [done|]. destruct H4 as [H4|[]]; done.
  - destruct Hr as (_ & _ & _ & Hr). destruct (decide (h_fails w <= f)%nat) as [Hw|]; [|lia]. naive_solver.
Qed.

Lemma fresh_free f v : fresh f v -> h_names v !! path = None.
Proof. intros (_ & _ & [H _]). congruence. Qed.

Lemma write_placed data f v : fresh f v -> (f0 <= f)%nat -> always (written data) (writeFileAtomic egid data path mode) v.
Proof.
  intros Hv Hf v1 r v2 Hi Hb. split; [done|]. pose proof (fresh_others _ _ _ _ _ Hv Hi) as Hv1. pose proof Hv1 as (_ & Hf1 & _). cbn [bind].
  destruct r as [[]|e]; cbn in Hb; [|subst v2; cbn; lia]. assert (fresh f v2) as Hv2.
  { destruct Hb as (d & nodes & -> & Hsub & Hnew & Hd). destruct Hv1 as (Hm & Hfl & Hk). split; [done|]. split; [done|].
    split; [|intros k Hk0; congruence]. cbn. rewrite Hfree. destruct (d !! path) as [k|] eqn:E; [|done]. exfalso.
    destruct (Hd _ _ E) as [H|[_ H]]; [|congruence]. destruct Hk as [Hk _]. congruence. }
  clear Hb Hv1 Hi Hf1 v1. apply always_bind. intros v3 r v4 Hi Hb. split; [done|]. pose proof (fresh_others _ _ _ _ _ Hv2 Hi) as Hv3. pose proof Hv3 as (_ & Hf3 & _).
  pose proof (fresh_free _ _ Hv3) as Hn3. cbn [bind]. destruct r as [st|e].
  - destruct Hb as [(k & n & Hp & _) _]. congruence.
  - destruct (decide (e = ENOENT)) as [->|He].
    + destruct Hb as [_ ->]. eapply always_mono, (install_placed data f v3 Hv3 Hf). by intros [] w Hw.
    + assert (v4 = fault v3) as -> by (by destruct e). destruct e; try done; cbn; lia.
Qed.

(** The owner is given by the path, which still leads to the new file. *)
Lemma own_placed data v : good data -> placed data v ->
  always ensured (let! r := call (Chown path uid gid) in Ret (match r with Err _ => Err (ChownFailed path) | Ok _ => Ok true end)) v.
Proof.
  intros Hg (Hf & k & n & Hl & Hk & Hd & Hs & Hm) v1 r v2 Hi Hb. split; [done|]. pose proof (leads_others _ _ _ _ Hl Hi) as [Hp1 Hk1]. apply respects_fails in Hi.
  cbn [bind]. destruct r as [[]|e]; cbn in Hb |- *; [|subst v2; cbn; lia]. split; [done|].
  destruct Hb as (k' & n' & (Hk' & _ & (k1 & n1 & Hp' & Hk1' & Heq & _)) & ->). assert (k1 = k) as -> by congruence. assert (n1 = n) as -> by congruence.
  rewrite (Heq ltac:(congruence)) in *. assert (n' = n) as -> by congruence. exists k, (with_owner uid gid n). cbn. rewrite lookup_insert_eq. split; [done|]. split; [done|].
  unfold new_file, with_owner. cbn. rewrite (proj2 (Z.eqb_neq uid (-1))), (proj2 (Z.eqb_neq gid (-1))) by lia. by rewrite Hd.
Qed.
End Ensure.

Lemma ensureFile_spec egid path mode uid gid v0 good content f : has_prefix path (Dir path) = false -> 0 <= uid /\ 0 <= gid ->
  (forall f v, fresh (kept path v0) f v -> Prog.always (respects path) behaves (fun _ => True)
     (fun r v' => exists f', (f <= f')%nat /\ fresh (kept path v0) f' v' /\ match r with Ok data => good data | Err _ => (f < f')%nat end) content v) ->
  fresh (kept path v0) f v0 -> Prog.always (respects path) behaves (fun _ => True) (ensured path mode uid gid v0 good) (ensureFile egid path mode uid gid content) v0.
Proof.
  intros Hdir Hids Hc Hv0 v1 r v2 Hi Hb. split; [done|]. pose proof (fresh_others _ _ _ _ _ Hv0 Hi) as Hv1. pose proof Hv0 as (_ & Hf0 & _). cbn [bind]. destruct r as [st|e].
  - destruct Hb as [(k & n & Hp & Hk & ->) ->]. pose proof Hv1 as (_ & Hf1 & [HE1 HE2]). assert (h_names v0 !! path = Some k) as Hp0 by congruence.
    assert (h_nodes v0 !! k = Some n) as Hk0 by (by rewrite <- HE2). unfold IsRegular. cbn [fi_kind info_of]. case_bool_decide as Ek; cbn [negb].
    + apply always_bind. eapply always_mono, (reassert_spec path mode uid gid v0 Hids k n v1); [|done|lia].
      intros [[]|e] w Hw; cbn in Hw |- *; [destruct Hw as (n' & Hl & Hn'); exists k, n, n'; destruct Hl; do 5 (split; [done|]); done|lia].
    + intros _. split; [done|]. by exists k, n.
  - destruct (decide (e = ENOENT)) as [->|He].
    + destruct Hb as [Hn ->]. assert (h_names v0 !! path = None) as Hn0 by (destruct Hv1 as (_ & _ & [H _]); congruence).
      apply always_bind. eapply always_mono, (Hc f v1 Hv1). intros [data|e] w (f' & Hf' & Hw & Hg).
      * apply always_bind. eapply always_mono, (write_placed egid path mode uid gid v0 Hdir Hids Hn0 data f' w Hw); [|lia].
        intros [[]|e] w' Hw'; [by eapply own_placed|]. cbn in Hw' |- *. lia.
      * cbn. destruct Hw as (_ & Hfw & _). lia.
    + assert (v2 = fault v1) as -> by (by destruct e). destruct Hv1 as (_ & Hf1 & _). destruct e; try done; cbn; lia.
Qed.

(** ** The three artifacts *)

Inductive artifact := AConfig | APepper | AUsers.

Definition ensure (scaffold : string) (egid : Z) (a : artifact) (path : string) (uid gid : Z) : prog (result provision_error bool) :=
  match a with
  | AConfig => ensureConfig scaffold egid path 416 uid gid
  | APepper => ensurePepper egid path uid gid
  | AUsers => ensureUsers egid path uid gid
  end.

(** What a new one says; a new pepper is 64 random bytes, encoded, and one
    the daemon accepts. *)
Definition artifact_text (scaffold : string) (a : artifact) (text : string) : Prop :=
  match a with
  | AConfig => text = scaffold
  | AUsers => text = EmptyUsers
  | APepper => exists b, String.length b = PepperBytes /\ text = EncodePepper b /\ LoadPepper text = Some (base64_std_encode b)
  end.

Lemma constant_content (good : string -> Prop) text I f v Old : good text -> fresh Old f v ->
  Prog.always (answer := answer) I behaves (fun _ => True)
    (fun r v' => exists f', (f <= f')%nat /\ fresh Old f' v' /\ match r with Ok data => good data | Err _ => (f < f')%nat end) (Ret (Ok text : result provision_error string)) v.
Proof. intros Hg Hv. exists f. by split; [lia|split]. Qed.

Lemma pepper_content path v0 scaffold f v : fresh (kept path v0) f v ->
  Prog.always (respects path) behaves (fun _ => True)
    (fun r v' => exists f', (f <= f')%nat /\ fresh (kept path v0) f' v' /\ match r with Ok data => artifact_text scaffold APepper data | Err _ => (f < f')%nat end)
    (let! b := GeneratePepper in Ret (match b with None => Err PepperFailed | Some b => Ok (EncodePepper b) end)) v.
Proof.
  intros Hv v1 r v2 Hi Hb. pose proof (fresh_others _ _ _ _ _ Hv Hi) as Hv1. split; [done|]. cbn [bind Prog.always]. destruct r as [b|e]; cbn in Hb.
  - destruct Hb as [Hl ->]. assert (16 <= slen b) as Hs by (unfold slen; rewrite Hl; vm_compute; discriminate). unfold ValidatePepper. rewrite (proj2 (Z.leb_le _ _) Hs).
    exists f. split; [lia|]. split; [done|]. exists b. split; [done|]. split; [done|]. by apply EncodePepper_loads.
  - subst v2. exists (S f). split; [lia|]. split; [by apply fresh_failed|lia].
Qed.

(** The configuration, the pepper and the users file are created at most
    once and always end up readable by the service.  While others leave the
    path alone: [true] means the path was free and now leads to a regular
    file with the whole of the right text, on disk, of mode 0640 and the given
    owner; the pepper's is 64 random bytes, encoded as the daemon loads them.
    [false] means that the regular file that was there has the same text and
    identity, with its owner and mode put right.  When no operation fails the
    one error is a path at something that is not a regular file. *)
Theorem artifact_ensured scaffold egid a path uid gid v0 v r :
  has_prefix path (Dir path) = false -> 0 <= uid /\ 0 <= gid -> h_mine v0 = ∅ ->
  rtc (Prog.step (respects path) behaves) (ensure scaffold egid a path uid gid, v0) (Ret r, v) ->
  ensured path 416 uid gid v0 (artifact_text scaffold a) r v.
Proof.
  intros Hdir Hids Hm Hrun. assert (fresh (kept path v0) (h_fails v0) v0) as Hv0 by (split; [done|]; split; [done|]; by split).
  assert (Prog.always (respects path) behaves (fun _ => True) (ensured path 416 uid gid v0 (artifact_text scaffold a)) (ensure scaffold egid a path uid gid) v0) as Ha.
  { destruct a; (eapply ensureFile_spec; [done|done| |exact Hv0]); intros f w Hw; [by apply constant_content|by apply pepper_content|by apply constant_content]. }
  by destruct (always_adequate _ _ _ _ _ _ _ _ Ha I Hrun) as [_ H].
Qed.

(** ** A host to be provisioned *)

Module ProvisionDemo.
Definition d_bin : inode := mkNode KFile 493 0 0 "ELF" true 0.
Definition d_dir : inode := mkNode KDir 493 0 0 "" true 0.
Definition d_users : inode := mkNode KFile 384 0 0 "version: 1" true 0.
(** A users file left by [init], 0600 and root's; no configuration yet. *)
Definition host0 : host :=
  let d := <[UsersPath := 6]> (<["/usr/local/bin/mellomting" := 5]> (<["/run/systemd/system" := 4]> (<["/usr/bin/systemctl" := 3]> (<["/tmp/mellomting" := 2]> ∅)))) in
  mkHost d (<[6 := d_users]> (<[5 := d_bin]> (<[4 := d_dir]> (<[3 := d_bin]> (<[2 := d_bin]> ∅))))) ∅ [d] ∅ 0 ∅.
Definition is_some_pepper (o : option string) : bool := match o with Some _ => true | None => false end.
Definition resolved (s : string) : option string := Some s.
Definition job : prog (Z * option Report) :=
  installCmd "[Service]@BINARY_PATH@" "weekly" "# scaffold" (fun _ => None) 0 "linux" 0 resolved (["ELF"], false) (Some "/tmp/mellomting") "/usr/local" true 0.

(** The scaffold and the pepper are new; the users file keeps its text and is
    now the service's to read. *)
Example provisioned :
  let x := run [] job host0 in
  x.1 = (0, Some (mkReport true true false)) /\
  option_map (fun kn => (kn.1, n_perm kn.2, n_gid kn.2, n_data kn.2)) (node_at x.2 UsersPath) = Some (6, 416, 991, "version: 1") /\
  option_map (fun kn => n_data kn.2) (node_at x.2 ConfigPath) = Some "# scaffold" /\
  option_map (fun kn => n_data kn.2) (node_at x.2 UnitPath) = Some "[Service]/usr/local/bin/mellomting" /\
  option_map (fun kn => (n_perm kn.2, n_gid kn.2, is_some_pepper (LoadPepper (n_data kn.2)))) (node_at x.2 PepperPath) = Some (416, 991, true).
Proof. vm_compute. repeat split. Qed.

(** Run again, it creates nothing. *)
Example provisioned_again : (run [] job (run [] job host0).2).1 = (0, Some (mkReport false false false)).
Proof. vm_compute. reflexivity. Qed.
End ProvisionDemo.

Lemma host_run_leaves {A} p k0 kind0 data0 (q : prog A) plan h :
  rtc (Prog.step (leaves p k0 kind0 data0) (tame p k0 kind0 data0)) (q, h) (Ret (run plan q h).1, (run plan q h).2).
Proof.
  apply Prog.run_executes.
  - intros v. split; [apply host_idle_interferes|done].
  - intros o v. split; [apply host_sys_behaves|by destruct o].
  - intros o v. split; [apply fails_behaves|by destruct o].
Qed.

Lemma install_replaces_only_its_own_witness :
  let v := (run [] ProvisionDemo.job ProvisionDemo.host0).2 in
  h_names v !! UsersPath = Some 6 /\ exists n, h_nodes v !! 6 = Some n /\ n_kind n = KFile /\ n_data n = "version: 1".
Proof.
  exact (install_replaces_only_its_own "[Service]@BINARY_PATH@" "weekly" "# scaffold" (fun _ => None) 0 "linux" 0 ProvisionDemo.resolved (["ELF"], false) (Some "/tmp/mellomting") "/usr/local" true 0
    UsersPath 6 ProvisionDemo.d_users _ ProvisionDemo.host0 _ ltac:(discriminate) ltac:(discriminate) ltac:(discriminate) eq_refl eq_refl eq_refl
    (host_run_leaves UsersPath 6 KFile "version: 1" ProvisionDemo.job [] ProvisionDemo.host0)).
Defined.

Lemma artifact_ensured_witness :
  exists v, ensured UsersPath 416 0 991 ProvisionDemo.host0 (artifact_text "# scaffold" AUsers) (Ok false) v.
Proof.
  exists (run [] (ensure "# scaffold" 0 AUsers UsersPath 0 991) ProvisionDemo.host0).2.
  assert ((run [] (ensure "# scaffold" 0 AUsers UsersPath 0 991) ProvisionDemo.host0).1 = Ok false) as E by (vm_compute; reflexivity).
  pose proof (run_respects UsersPath (ensure "# scaffold" 0 AUsers UsersPath 0 991) [] ProvisionDemo.host0) as Hr. rewrite E in Hr.
  exact (artifact_ensured "# scaffold" 0 AUsers UsersPath 0 991 ProvisionDemo.host0 _ (Ok false) eq_refl ltac:(split; discriminate) eq_refl Hr).
Defined.
