(* ===== verification/Init.v ===== *)
(** * [mellomting init]: [cmd/mellomting/init.go]

    From the command line to the artifacts: the servers, the listener and the
    paths it is given, the configuration it renders, and the order in which
    it discovers, renders, reports and publishes.  Publication itself is in
    [Commit.v], discovery in [Setup.v]. *)

From Stdlib Require Import Ascii.
From stdpp Require Import sorting.
From S2P Require Import Prelude Float64 GoStrings Net IpText Json Auth Config ConfigFacts Paths Prog Backend Discovery Sandbox Setup Keys Commit.
#[local] Open Scope Z_scope.

Definition defaultInitListen : string := "127.0.0.1:8080".
(* src: internal/config/config.go 18-18 DefaultConfigPath *)
Definition DefaultConfigPath : string := "/etc/mellomting/config.yaml".
(* src: cmd/mellomting/config_path.go ResolveConfigPath *)
Definition ResolveConfigPath (explicit : string) : string := if String.eqb explicit "" then DefaultConfigPath else explicit.

(* src: cmd/mellomting/init.go 47-47 initServerNamePattern *)
Definition initServerNamePattern (s : string) : bool :=
  match s with
  | "" => false
  | String c rest => is_lower c && sforall (fun c => is_lower c || is_digit c || Ascii.eqb c "-"%char) rest && (String.length rest <=? 62)%nat
  end.
(* src: cmd/mellomting/init.go 48-48 initServerNameLike *)
Definition initServerNameLike (s : string) : bool :=
  negb (String.eqb s "") && sforall (fun c => is_lower c || is_upper c || is_digit c || Ascii.eqb c "-"%char) s.

(* src: cmd/mellomting/init.go initListener *)
Record initListener := mkInitListener {
  li_Network : string; li_Address : string; li_Host : string; li_Port : Z; li_Path : string; li_AllowPlaintext : bool
}.

Inductive init_error :=
| NoServers | TooManyServers | MixedNames (i : nat) | BadName (i : nat) | DuplicateName (i : nat) | BadURL (i : nat) (e : url_error) | HasPath (i : nat)
| NotIPLiteral (i : nat) | NoPort (i : nat) | BadPort (i : nat) | DuplicateAddress (i : nat)
| ListenRequired | ListenPath | ListenUnbracketed | ListenForm | ListenHost | ListenPort | SandboxMode.

(** ** Servers *)

(* src: cmd/mellomting/init.go 302-306 parseInitServers *)
Record parsedServer := mkParsed { ps_name : string; ps_explicit : bool; ps_url : string }.

(* src: cmd/mellomting/init.go 309-321 parseInitServers *)
Definition parse_server (v : string) : parsedServer :=
  match cut_char "="%char v with
  | Some (before, after) => if String.eqb before "" || initServerNameLike before then mkParsed before true after else mkParsed "" false v
  | None => mkParsed "" false v
  end.

Definition with_name (name : string) (p : parsedServer) : parsedServer := mkParsed name (ps_explicit p) (ps_url p).

(** All of the names, or none. *)
(* src: cmd/mellomting/init.go 322-334 parseInitServers *)
Definition name_servers (parsed : list parsedServer) : result init_error (list parsedServer) :=
  if existsb ps_explicit parsed then
    match list_find (fun p => ps_explicit p = false) parsed with
    | Some (i, _) => Err (MixedNames i)
    | None => Ok parsed
    end
  else match parsed with
  | [p] => Ok [with_name "local" p]
  | _ => Ok (imap (fun i p => with_name ("local-" +:+ dec_abs (Z.of_nat (S i))) p) parsed)
  end.

(* src: cmd/mellomting/init.go canonicalInitIP *)
Definition canonicalInitIP (ip : IP) : string := match To4 ip with Some v4 => string4 v4 | None => ip_String ip end.

Section URLs.
Variable url_parse : string -> option URL.

(** The address of a server. *)
(* src: cmd/mellomting/init.go 348-367 parseInitServers *)
Definition server_address (i : nat) (raw : string) : result init_error (string * IP * Z) :=
  match parseBaseURL url_parse raw with
  | Err e => Err (BadURL i e)
  | Ok u =>
      if negb (String.eqb (u_Path u) "") then Err (HasPath i)
      else match ParseIP (url_Hostname u) with
      | None => Err (NotIPLiteral i)
      | Some ip =>
          if String.eqb (url_Port u) "" then Err (NoPort i)
          else match Atoi (url_Port u) with
          | Some portNum => if (portNum <? 1) || (65535 <? portNum) then Err (BadPort i) else Ok (u_Scheme u, ip, portNum)
          | None => Err (BadPort i)
          end
      end
  end.

Definition destination (a : string * IP * Z) : string := a.1.1 +:+ "|" +:+ canonicalInitIP a.1.2 +:+ "|" +:+ dec_abs a.2.

(* src: cmd/mellomting/init.go 336-375 parseInitServers *)
Fixpoint check_servers (i : nat) (parsed : list parsedServer) (names destinations : gset string) : result init_error (list Server) :=
  match parsed with
  | [] => Ok []
  | p :: parsed =>
      if negb (initServerNamePattern (ps_name p)) then Err (BadName i)
      else if bool_decide (ps_name p ∈ names) then Err (DuplicateName i)
      else
      let? a := server_address i (ps_url p) in
      if bool_decide (destination a ∈ destinations) then Err (DuplicateAddress i)
      else
      let? out := check_servers (S i) parsed ({[ps_name p]} ∪ names) ({[destination a]} ∪ destinations) in
      Ok (mkServer (ps_name p) (ps_url p) :: out)
  end.

(* src: cmd/mellomting/init.go parseInitServers *)
Definition parseInitServers (raw : list string) : result init_error (list Server) :=
  if Discovery.MaxServers <? Z.of_nat (length raw) then Err TooManyServers
  else let? parsed := name_servers (map parse_server raw) in check_servers 0 parsed ∅ ∅.
End URLs.

(** ** The listener *)

Fixpoint count_char (c : ascii) (s : string) : Z :=
  match s with "" => 0 | String a s => (if Ascii.eqb a c then 1 else 0) + count_char c s end.

(* src: cmd/mellomting/init.go parseInitListen *)
Definition parseInitListen (raw : string) : result init_error initListener :=
  if String.eqb raw "" then Err ListenRequired
  else if has_prefix "/" raw then
    if negb (IsAbs raw) then Err ListenPath
    else let cleaned := Clean raw in
         if negb (String.eqb cleaned raw) || String.eqb cleaned "/" then Err ListenPath
         else Ok (mkInitListener "unix" cleaned "" 0 cleaned false)
  else
  match SplitHostPort raw with
  | None => Err (if (3 <=? count_char ":"%char raw) && negb (contains_char "/"%char raw) && negb (contains_char "."%char raw) then ListenUnbracketed else ListenForm)
  | Some (host, portStr) =>
      if negb (String.eqb host "") && contains_char ":"%char host && negb (has_prefix "[" raw) then Err ListenUnbracketed
      else
      match (if String.eqb host "" then Ok None else match ParseIP host with None => Err ListenHost | Some ip => Ok (Some ip) end) with
      | Err e => Err e
      | Ok ip =>
          if contains_char "+"%char portStr || contains_char "-"%char portStr then Err ListenPort
          else if negb (sforall is_digit portStr) then Err ListenPort
          else match Atoi portStr with
          | None => Err ListenPort
          | Some port =>
              if (port <? 1) || (65535 <? port) then Err ListenPort
              else
              let allowPlaintext := match ip with Some ip => negb (ip_is_loopback ip) | None => String.eqb host "" end in
              let address := match ip with Some ip => JoinHostPort (ip_String ip) (dec_abs port) | None => ":" +:+ dec_abs port end in
              Ok (mkInitListener "tcp" address host port "" allowPlaintext)
          end
      end
  end.

(** ** Paths, the sandbox, the arguments *)

(* src: cmd/mellomting/init.go resolveInitAuthPaths *)
Definition resolveInitAuthPaths (cwd configRaw : string) : initPaths :=
  let abs := Abs cwd (if String.eqb configRaw "" then DefaultConfigPath else configRaw) in
  let dir := Dir abs in
  mkPaths abs (Join [dir; "users.yaml"]) (Join [dir; "auth.pepper"]).

(** The section of the configuration that governs the platform's sandbox. *)
(* src: cmd/mellomting/init.go initSandboxFor *)
Definition initSandboxFor (goos : string) : string := if String.eqb goos "darwin" then "seatbelt" else "landlock".

(* src: cmd/mellomting/init.go 503-521 initSandbox.preflight *)
Definition sandbox_preflight (section mode : string) (explicit : bool) (check : Sandbox.Report) : bool :=
  if String.eqb mode ModeDisabled then explicit
  else if negb (String.eqb mode ModeRequired) then true
  else Supported check && negb (String.eqb section "landlock" && (KernelABI check <? DefaultMinimumABI)).

(* src: cmd/mellomting/init.go initArguments *)
Record initArguments := mkInitArguments {
  ia_paths : initPaths; ia_Listener : initListener; ia_Sandbox : string; ia_SandboxMode : string; ia_DryRun : bool; ia_Servers : list Server; ia_UnitInstalled : bool
}.

(* src: cmd/mellomting/init.go parseInitArguments *)
Definition parseInitArguments (url_parse : string -> option URL) (cwd goos : string) (configPath listen sandboxMode : string) (sandboxSet dryRun : bool) (rawServers : list string)
  : result init_error initArguments :=
  match rawServers with
  | [] => Err NoServers
  | _ =>
      let? servers := parseInitServers url_parse rawServers in
      let? listener := parseInitListen (if String.eqb listen "" then defaultInitListen else listen) in
      let mode := if sandboxSet then sandboxMode else ModeBestEffort in
      if negb (one_of [ModeRequired; ModeBestEffort; ModeDisabled] mode) then Err SandboxMode
      else Ok (mkInitArguments (resolveInitAuthPaths cwd configPath) listener (initSandboxFor goos) mode dryRun servers false)
  end.

(** ** Rendering *)

(** The values the configuration document is made of; a map is the list of
    its entries, which the encoder sorts. *)
Inductive doc := DStr (s : string) | DInt (n : Z) | DBool (b : bool) | DStrs (l : list string) | DMap (l : list (string * doc)).

(* src: cmd/mellomting/init.go initSandbox.doc *)
Definition sandbox_doc (section mode : string) : doc :=
  DMap (("mode", DStr mode) :: if String.eqb section "landlock" then [("minimum_abi", DInt DefaultMinimumABI)] else []).

(* src: cmd/mellomting/init.go 587-599 renderInitConfig *)
Definition server_doc (l : initListener) : doc :=
  DMap (("listen", DMap ([("network", DStr (li_Network l)); ("address", DStr (li_Address l))] ++
          if String.eqb (li_Network l) "unix" then [("mode", DStr DefaultUnixSocketMode)] else [])) ::
        if String.eqb (li_Network l) "tcp" && li_AllowPlaintext l then [("allow_plaintext_non_loopback", DBool true)] else []).

(* src: cmd/mellomting/init.go 601-612 renderInitConfig *)
Definition network_doc (policy : BackendNetwork) : option doc :=
  if String.eqb (bn_Mode policy) "loopback-only" then Some (DMap [("mode", DStr (bn_Mode policy))])
  else if String.eqb (bn_Mode policy) "allowed-cidrs" then Some (DMap [("mode", DStr (bn_Mode policy)); ("cidrs", DStrs (bn_CIDRs policy))])
  else None.

(** The document, before it is encoded. *)
(* src: cmd/mellomting/init.go 614-641 renderInitConfig *)
Definition config_doc (args : initArguments) (discovered : Result) (policy : BackendNetwork) : option doc :=
  option_map (fun network =>
    DMap [("version", DInt 1);
          ("server", server_doc (ia_Listener args));
          ("auth", DMap [("pepper_file", DStr (PepperPath (ia_paths args))); ("users_file", DStr (UsersPath (ia_paths args)))]);
          ("security", DMap [("backend_network", network); (ia_Sandbox args, sandbox_doc (ia_Sandbox args) (ia_SandboxMode args))]);
          ("servers", DMap (map (fun s => (sv_Name s, DMap [("url", DStr (sv_BaseURL s))])) (ia_Servers args)));
          ("models", DMap (map (fun name => (name, DMap [("type", DStr "generation"); ("servers", DStrs (default [] (discovered !! name)))])) (SortedModels discovered)))])
    (network_doc policy).

(* src: cmd/mellomting/help.go plural *)
Definition plural (n : nat) (noun : string) : string := dec_abs (Z.of_nat n) +:+ " " +:+ noun +:+ if (n =? 1)%nat then "" else "s".

Definition line (s : string) : string := s +:+ String ch_nl "".

(** At most twenty models. *)
(* src: cmd/mellomting/init.go printInitSummary *)
Definition init_summary (aggregate : Result) : string :=
  let models := SortedModels aggregate in
  line ("discovered " +:+ plural (length models) "model" +:+ ":") +:+
  String.concat "" (map (fun name => line ("  " +:+ name +:+ ": " +:+ join_with ", " (default [] (aggregate !! name)))) (take 20 models)) +:+
  if (20 <? length models)%nat then line ("  (" +:+ dec_abs (Z.of_nat (length models - 20)) +:+ " more omitted)") else "".

(* src: cmd/mellomting/init.go printInitCompletion *)
Definition init_completion (args : initArguments) : string :=
  let path := ConfigPath (ia_paths args) in
  let configFlag := if String.eqb path DefaultConfigPath then "" else " --config " +:+ path in
  line ("initialized " +:+ path) +:+ line "next:" +:+
  if ia_UnitInstalled args then line ("  sudo mellomting key create local" +:+ configFlag) +:+ line "  sudo systemctl enable --now mellomting"
  else line ("  mellomting key create local" +:+ configFlag) +:+ line ("  mellomting serve" +:+ configFlag).

(** ** [initCmd] *)

(** What [init] does to the world, each of it modelled elsewhere: one request
    to a server, random bytes, a write to an output, the publication. *)
Inductive iop := Discover (s : Setup.Server) | Entropy (n : nat) | Print (stdout : bool) (text : string) | Publish (paths : initPaths) (a : initArtifacts) | StatUnit (path : string) | CheckSandbox.
Definition ians (o : iop) : Type :=
  match o with
  | Discover _ => result Setup.fetch_error (list string)
  | Entropy _ => option string
  | Print _ _ => bool
  | Publish _ _ => result commit_error unit
  | StatUnit _ => bool
  | CheckSandbox => Sandbox.Report
  end.
Notation iprog := (Prog.prog ians).
Definition print_to (stdout : bool) (text : string) : iprog bool := call (Print stdout text).
Definition stat_unit (path : string) : iprog bool := call (StatUnit path).
Definition check_sandbox : iprog Sandbox.Report := call CheckSandbox.
Definition publish (paths : initPaths) (a : initArtifacts) : iprog bool := let! r := call (Publish paths a) in Ret (is_ok r).

Section Run.
Context {F : Type} `{Float64 F}.
Variable url_parse : string -> option URL.
(** gopkg.in/yaml.v3: the encoder, the documents of a text, and the strict
    decoders of a configuration and of a users file. *)
Variable yaml_marshal : doc -> option string.
Variable yaml_stream : string -> list (option ynode).
Variable yaml_is_map : ynode -> bool.
Variable yaml_config : ynode -> option (sourceDoc (F := F)).
Variable yaml_users : ynode -> option (UsersFile F).

(** The servers are asked one after the other; the first error ends it. *)
(* src: cmd/mellomting/init.go 205-213 discoverInitServers *)
Fixpoint discover (servers : list Setup.Server) (results : gmap string (list string)) : iprog (option (gmap string (list string))) :=
  match servers with
  | [] => Ret (Some results)
  | s :: servers =>
      let! r := call (Discover s) in
      match r with Err _ => Ret None | Ok ids => discover servers (<[sv_Name s := ids]> results) end
  end.

(** A rendered configuration that would not load is an error. *)
(* src: cmd/mellomting/init.go renderInitArtifacts *)
Definition renderInitArtifacts (args : initArguments) (discovered : Result) : iprog (option initArtifacts) :=
  if bool_decide (discovered = ∅) then Ret None
  else match DerivePolicy url_parse (ia_Servers args) with
  | Err _ => Ret None
  | Ok policy =>
      let! p := call (Entropy PepperBytes) in
      Ret (match p with
           | None => None
           | Some pepper =>
               if negb (ValidatePepper pepper) then None
               else if negb (is_ok (ParseUsers yaml_stream yaml_users EmptyUsers)) then None
               else match config_doc args discovered policy with
               | None => None
               | Some d =>
                   match yaml_marshal d with
                   | None => None
                   | Some out => if is_ok (Config.Parse yaml_stream yaml_is_map yaml_config url_parse out) then Some (mkArtifacts out EmptyUsers (EncodePepper pepper)) else None
                   end
               end
           end)
  end.

(* src: cmd/mellomting/init.go runInit *)
Definition runInit (args : initArguments) : iprog Z :=
  match DerivePolicy url_parse (ia_Servers args) with
  | Err _ => Ret 1
  | Ok _ =>
      let! results := discover (ia_Servers args) ∅ in
      match results with
      | None => Ret 1
      | Some results =>
          match Aggregate (ia_Servers args) results with
          | Err _ => Ret 1
          | Ok aggregate =>
              let! artifacts := renderInitArtifacts args aggregate in
              match artifacts with
              | None => Ret 1
              | Some artifacts =>
                  if ia_DryRun args then
                    let! ok := print_to true (a_Config artifacts) in
                    if negb ok then Ret 1
                    else let! ok := print_to false (init_summary aggregate) in Ret (if ok then 0 else 1)
                  else
                  let! ok := print_to true (init_summary aggregate) in
                  if negb ok then Ret 1
                  else
                  let! ok := publish (ia_paths args) artifacts in
                  if negb ok then Ret 1
                  else let! ok := print_to true (init_completion args) in Ret (if ok then 0 else 1)
              end
          end
      end
  end.

Definition with_unit (b : bool) (a : initArguments) : initArguments :=
  mkInitArguments (ia_paths a) (ia_Listener a) (ia_Sandbox a) (ia_SandboxMode a) (ia_DryRun a) (ia_Servers a) b.

(* src: cmd/mellomting/init.go systemdUnitInstalled *)
Definition systemdUnitInstalled : iprog bool :=
  let! a := stat_unit "/etc/systemd/system/mellomting.service" in
  if a then Ret true else stat_unit "/lib/systemd/system/mellomting.service".

(* src: cmd/mellomting/init.go initSandbox.preflight *)
Definition preflight (section mode : string) (explicit : bool) : iprog bool :=
  if String.eqb mode ModeRequired then let! rep := check_sandbox in Ret (sandbox_preflight section mode explicit rep)
  else Ret (sandbox_preflight section mode explicit (Sandbox.mkReport "" "" false 0 "")).

(** From the parsed flags on. *)
(* src: cmd/mellomting/init.go 119-145 initCmd *)
Definition initCmd (cwd goos : string) (configPath listen sandboxMode : string) (sandboxSet dryRun : bool) (rawServers : list string) (narg : nat) : iprog Z :=
  if negb (narg =? 0)%nat then Ret 2
  else match parseInitArguments url_parse cwd goos configPath listen sandboxMode sandboxSet dryRun rawServers with
  | Err _ => Ret 2
  | Ok parsed =>
      let! unit := systemdUnitInstalled in
      let parsed := with_unit unit parsed in
      let! ok := preflight (ia_Sandbox parsed) (ia_SandboxMode parsed) sandboxSet in
      if negb ok then Ret 1
      else if negb (ia_DryRun parsed) && negb (String.eqb goos "linux") then Ret 1
      else runInit parsed
  end.
End Run.
