(* ===== verification/InitFacts.v ===== *)
(** * What [mellomting init] promises

    The listener and the servers it accepts, and what has been checked before
    anything is published. *)

From Stdlib Require Import Ascii.
From stdpp Require Import sorting.
From S2P Require Import Prelude Float64 GoStrings Net IpText Json JsonFacts Auth Config ConfigFacts Paths Prog Backend Discovery Sandbox Setup Keys Commit Init.
#[local] Open Scope Z_scope.

(** ** The listener *)

(** The listener of the rendered configuration. *)
Definition listen_of (l : initListener) : Config.Listen :=
  mkListen (li_Network l) (li_Address l) (if String.eqb (li_Network l) "unix" then DefaultUnixSocketMode else "").

Lemma dec_abs_digits n : 0 <= n -> sforall is_digit (dec_abs n) = true.
Proof. intros Hn. unfold dec_abs. apply dec_digits_spec; lia. Qed.

Lemma digits_no_char c s : is_digit c = false -> sforall is_digit s = true -> contains_char c s = false.
Proof. intros Hc Hs. by apply sforall_contains with (p := is_digit). Qed.
Lemma addr_no_char c s : addr_char c = false -> sforall addr_char s = true -> contains_char c s = false.
Proof. intros Hc Hs. by apply sforall_contains with (p := addr_char). Qed.

Lemma ip_String_chars ip : sforall addr_char (ip_String ip) = true.
Proof.
  unfold ip_String. destruct (To4 ip) as [v|] eqn:E; [apply string4_chars|]. cbn [addr_String]. rewrite E. cbn [String.eqb]. rewrite sapp_nil_r. apply string6_chars.
Qed.

(** An address and a port, joined, split again. *)
Lemma split_join host port : sforall addr_char host = true -> sforall is_digit port = true -> SplitHostPort (JoinHostPort host port) = Some (host, port).
Proof.
  intros Hh Hp. unfold JoinHostPort, SplitHostPort.
  assert (contains_char ":"%char port = false) as Hpc by (by apply digits_no_char).
  assert (contains_char "["%char port = false /\ contains_char "]"%char port = false) as [Hpl Hpr] by (split; by apply digits_no_char).
  assert (contains_char "["%char host = false /\ contains_char "]"%char host = false) as [Hhl Hhr] by (split; by apply addr_no_char).
  destruct (contains_char ":"%char host) eqn:Ec.
  - replace ("[" +:+ host +:+ "]:" +:+ port) with (("[" +:+ host +:+ "]") +:+ String ":"%char port) by (by rewrite !sapp_assoc).
    rewrite cut_last_at by done. cbn [String.append]. rewrite !sapp_assoc. cbn [String.append].
    assert (forall x, has_prefix "[" (String "["%char x) = true) as -> by (intros []; done).
    cbn [sdrop]. destruct (cut_addr "]"%char host (String ":"%char port) eq_refl Hh) as [-> _].
    rewrite String.eqb_refl. rewrite contains_char_app. cbn [contains_char]. rewrite Hhl, Hpl. cbn. by rewrite Hpr.
  - cbn [String.append]. rewrite cut_last_at by done. assert (has_prefix "[" (host +:+ String ":"%char port) = false) as ->.
    { destruct host as [|a host]; [done|]. cbn in Hhl. apply orb_false_iff in Hhl as [Ha _]. apply not_true_is_false. unfold has_prefix. intros E. apply String.prefix_correct in E. cbn in E. injection E as -> . by rewrite Ascii.eqb_refl in Ha. }
    rewrite Ec, !contains_char_app. cbn [contains_char]. rewrite Hhl, Hhr, Hpl, Hpr. done.
Qed.

(** The two notions of loopback agree on an address written out. *)
Lemma nonloopback_text ip : ip_ok ip -> IsNonLoopbackHost (ip_String ip) = negb (ip_is_loopback ip).
Proof.
  intros Hok. unfold IsNonLoopbackHost, ip_String, ip_is_loopback. destruct (To4 ip) as [v|] eqn:E.
  - destruct (To4_inv _ _ Hok E) as [Hv _]. by rewrite ParseAddr_string4.
  - rewrite (ParseAddr_String (V6 ip "") Hok). unfold addr_is_loopback. cbn. by rewrite E.
Qed.

Lemma ParseIP_String ip : ip_ok ip -> ParseIP (ip_String ip) = Some ip.
Proof.
  intros Hok. unfold ParseIP, ip_String. destruct (To4 ip) as [v|] eqn:E.
  - destruct (To4_inv _ _ Hok E) as [Hv ->]. by rewrite ParseAddr_string4.
  - by rewrite (ParseAddr_String (V6 ip "") Hok).
Qed.

Lemma Ok_inj {E A} (a b : A) : Ok (E := E) a = Ok b -> a = b.
Proof. by intros [= ->]. Qed.

Lemma clean_abs raw : has_prefix "/" raw = true -> IsAbs raw = true.
Proof. done. Qed.

(** A listener [init] accepts is one the daemon accepts.  A path is taken
    exactly as it was typed, absolute and clean; an address is written back as
    the same IP literal and port, within 1 and 65535, and splits again;
    serving in the clear beyond loopback is allowed in the configuration
    exactly when the address is not loopback by the validator's own measure,
    so the listener rules of the rendered configuration hold whatever else is
    in it, and they would not without that flag. *)
Theorem init_listener_valid raw l : parseInitListen raw = Ok l ->
  ((li_Network l = "unix" /\ li_Address l = raw /\ IsAbs raw = true /\ Clean raw = raw /\ li_AllowPlaintext l = false) \/
   (li_Network l = "tcp" /\ 1 <= li_Port l <= 65535 /\ exists host portStr, SplitHostPort raw = Some (li_Host l, portStr) /\ Atoi portStr = Some (li_Port l) /\
      SplitHostPort (li_Address l) = Some (host, dec_abs (li_Port l)) /\ ParseIP host = ParseIP (li_Host l) /\ li_AllowPlaintext l = IsNonLoopbackHost host)) /\
  (forall s : Config.Server, s_Listen s = listen_of l -> AllowPlaintextNonLoopback s = li_AllowPlaintext l -> validate_listen s = []) /\
  (forall s : Config.Server, s_Listen s = listen_of l -> TLSConfigured (s_TLS s) = false -> AllowPlaintextNonLoopback s = false -> li_AllowPlaintext l = true -> validate_listen s <> []).
Proof.
  unfold parseInitListen. destruct (String.eqb raw ""); [done|]. destruct (has_prefix "/" raw) eqn:Hp.
  - rewrite (clean_abs _ Hp). cbn [negb]. destruct (String.eqb_spec (Clean raw) raw) as [Hc|]; cbn [negb orb]; [|done]. destruct (String.eqb (Clean raw) "/") eqn:Hr; [done|].
    intros [= <-]. cbn [li_Network li_Address li_AllowPlaintext li_Host li_Port]. rewrite Hc. split; [left; by repeat split|]. split; [|done].
    intros s Hl _. unfold validate_listen. rewrite Hl. unfold listen_of. cbn [l_Network l_Address l_Mode li_Network li_Address String.eqb]. rewrite (clean_abs _ Hp). by destruct raw.
  - destruct (SplitHostPort raw) as [[host portStr]|] eqn:Es; [|done]. destruct (negb (String.eqb host "") && _ && _); [done|].
    destruct (if String.eqb host "" then _ else _) as [ip|] eqn:Eip; [|done]. destruct (contains_char "+"%char portStr || _); [done|].
    destruct (sforall is_digit portStr); cbn [negb]; [|done]. destruct (Atoi portStr) as [port|] eqn:Ea; [|done]. destruct (Z.ltb_spec port 1), (Z.ltb_spec 65535 port); cbn [orb]; try done.
    intros <-%Ok_inj. cbn [li_Network li_Address li_AllowPlaintext li_Host li_Port].
    assert (exists h, SplitHostPort (match ip with Some ip => JoinHostPort (ip_String ip) (dec_abs port) | None => ":" +:+ dec_abs port end) = Some (h, dec_abs port) /\
      ParseIP h = ParseIP host /\ match ip with Some ip => negb (ip_is_loopback ip) | None => String.eqb host "" end = IsNonLoopbackHost h) as (h & Hsplit & Hh & Hflag).
    { destruct (String.eqb_spec host "") as [->|]; [injection Eip as <-|destruct (ParseIP host) as [i|] eqn:Ei; [|done]; injection Eip as <-].
      - exists "". split; [|done]. apply (split_join "" (dec_abs port)); [done|]. apply dec_abs_digits. lia.
      - pose proof (ParseIP_ok _ _ Ei) as Hok. exists (ip_String i). split; [apply split_join; [apply ip_String_chars|apply dec_abs_digits; lia]|].
        split; [by apply ParseIP_String|]. symmetry. by apply nonloopback_text. }
    split; [right; split; [done|]; split; [lia|]; by exists h, portStr|]. split.
    + intros s Hl Hf. unfold validate_listen. rewrite Hl. unfold listen_of. cbn [l_Network l_Address l_Mode li_Network li_Address]. cbn [String.eqb Ascii.eqb Bool.eqb when negb app]. rewrite Hsplit, Hf, Hflag. destruct (IsNonLoopbackHost h); cbn; [|done]. by rewrite andb_false_r.
    + intros s Hl Ht Hf Hb. unfold validate_listen. rewrite Hl. unfold listen_of. cbn [l_Network l_Address l_Mode li_Network li_Address]. cbn [String.eqb Ascii.eqb Bool.eqb when negb app]. rewrite Hsplit, Hf, Ht, <- Hflag, Hb. done.
Qed.

(** ** The servers *)

Section Servers.
Variable url_parse : string -> option URL.

Lemma server_address_index i j raw a : server_address url_parse i raw = Ok a -> server_address url_parse j raw = Ok a.
Proof. unfold server_address. by repeat case_match. Qed.

Definition server_of (p : parsedServer) : Setup.Server := Setup.mkServer (ps_name p) (ps_url p).

(** Acceptable, given the names and addresses before. *)
Definition acceptable (parsed : list parsedServer) (names destinations : gset string) : Prop :=
  Forall (fun p => initServerNamePattern (ps_name p) = true) parsed /\ NoDup (map ps_name parsed) /\ (forall n, n ∈ map ps_name parsed -> n ∉ names) /\
  exists addrs, Forall2 (fun p a => server_address url_parse 0 (ps_url p) = Ok a) parsed addrs /\
    NoDup (map destination addrs) /\ forall d, d ∈ map destination addrs -> d ∉ destinations.

Lemma check_servers_spec parsed : forall i N D out,
  check_servers url_parse i parsed N D = Ok out <-> acceptable parsed N D /\ out = map server_of parsed.
Proof.
  induction parsed as [|p parsed IH]; intros i N D out; cbn [check_servers].
  { split; [intros <-%Ok_inj|by intros [_ ->]]. split; [|done]. split; [done|]. split; [constructor|]. split; [by intros n ?%not_elem_of_nil|].
    exists []. split; [constructor|]. split; [constructor|by intros d ?%not_elem_of_nil]. }
  split.
  - destruct (initServerNamePattern (ps_name p)) eqn:Hn; cbn [negb]; [|done]. case_bool_decide as HN; [done|].
    destruct (server_address url_parse i (ps_url p)) as [a|] eqn:Ea; [|done]. case_bool_decide as HD; [done|].
    destruct (check_servers _ _ _ _ _) as [out'|] eqn:Ec; [|done]. intros <-%Ok_inj. apply IH in Ec as [(H1 & H2 & H3 & addrs & H4 & H5 & H6) ->].
    split; [|done]. split; [by constructor|]. cbn [map]. split; [constructor; [intros Hin; apply (H3 _ Hin); set_solver|done]|].
    split; [intros n [->|Hin]%elem_of_cons; [done|]; specialize (H3 _ Hin); set_solver|].
    exists (a :: addrs). cbn [map]. split; [constructor; [by eapply server_address_index|done]|].
    split; [constructor; [intros Hin; apply (H6 _ Hin); set_solver|done]|]. intros d [->|Hin]%elem_of_cons; [done|]. specialize (H6 _ Hin). set_solver.
  - intros [(H1 & H2 & H3 & addrs & H4 & H5 & H6) ->]. apply Forall_cons in H1 as [Hn H1]. cbn [map] in H2, H3. apply NoDup_cons in H2 as [Hnn H2].
    inversion H4 as [|? a ? addrs' Ha H4']; subst. cbn [map] in H5, H6. apply NoDup_cons in H5 as [Hdn H5]. rewrite Hn. cbn [negb].
    rewrite bool_decide_eq_false_2 by (apply H3, list_elem_of_here). rewrite (server_address_index 0 i _ _ Ha).
    rewrite bool_decide_eq_false_2 by (apply H6, list_elem_of_here).
    rewrite (proj2 (IH (S i) ({[ps_name p]} ∪ N) ({[destination a]} ∪ D) (map server_of parsed))); [done|]. split; [|done]. split; [done|]. split; [done|].
    split; [intros n Hin [->%elem_of_singleton|Hx]%elem_of_union; [done|]; by apply (H3 n); [apply list_elem_of_further|]|].
    exists addrs'. split; [done|]. split; [done|]. intros d Hin [->%elem_of_singleton|Hx]%elem_of_union; [done|]. by apply (H6 d); [apply list_elem_of_further|].
Qed.

Lemma address_ip raw a : server_address url_parse 0 raw = Ok a -> exists u, parseBaseURL url_parse raw = Ok u /\ ParseIP (url_Hostname u) = Some a.1.2.
Proof.
  unfold server_address. destruct (parseBaseURL url_parse raw) as [u|]; [|done]. destruct (negb _); [done|]. destruct (ParseIP (url_Hostname u)) as [ip|] eqn:E; [|done].
  destruct (String.eqb _ _); [done|]. destruct (Atoi _); [|done]. destruct (_ || _); [done|]. intros <-%Ok_inj. by exists u.
Qed.

Lemma acceptable_ips parsed addrs : Forall2 (fun p a => server_address url_parse 0 (ps_url p) = Ok a) parsed addrs ->
  server_ips url_parse (map server_of parsed) = Ok (map (fun a => a.1.2) addrs).
Proof.
  induction 1 as [|p a parsed addrs Ha _ IH]; [done|]. destruct (address_ip _ _ Ha) as (u & Hu & Hi). cbn [map server_ips server_of sv_BaseURL]. by rewrite Hu, Hi, IH.
Qed.

Lemma Some_pair_inj {A B} (a c : A) (b d : B) : Some (a, b) = Some (c, d) -> a = c /\ b = d.
Proof. by intros [= -> ->]. Qed.

(** An address is known by its text. *)
Lemma address_ok raw a : server_address url_parse 0 raw = Ok a -> ip_ok a.1.2 /\ 1 <= a.2 /\ (a.1.1 = "http" \/ a.1.1 = "https").
Proof.
  unfold server_address, parseBaseURL. destruct (url_parse raw) as [u|]; [|done].
  destruct (String.eqb_spec (u_Scheme u) "http") as [E|]; [|destruct (String.eqb_spec (u_Scheme u) "https") as [E|]; [|done]]; cbn [negb andb];
    repeat case_match; try done; intros <-%Ok_inj; cbn; simplify_eq; (split; [by eapply ParseIP_ok|]); (split; [lia|]); auto.
Qed.

Lemma destination_inj a b : ip_ok a.1.2 /\ 1 <= a.2 /\ (a.1.1 = "http" \/ a.1.1 = "https") -> ip_ok b.1.2 /\ 1 <= b.2 /\ (b.1.1 = "http" \/ b.1.1 = "https") ->
  destination a = destination b -> a = b.
Proof.
  destruct a as [[sa ia] pa], b as [[sb ib] pb]. cbn [fst snd]. intros (Ha & Hpa & Hsa) (Hb & Hpb & Hsb) E. unfold destination in E. cbn [fst snd] in E.
  assert (forall ip, ip_ok ip -> canonicalInitIP ip = ip_String ip) as Hc by (intros ip _; unfold canonicalInitIP, ip_String; by destruct (To4 ip)).
  rewrite !Hc in E by done.
  assert (forall s t u, sforall addr_char t = true -> (s = "http" \/ s = "https") -> cut_char "|"%char (s +:+ "|" +:+ t +:+ "|" +:+ u) = Some (s, t +:+ "|" +:+ u)) as Hcut1 by (by intros s t u _ [-> | ->]).
  assert (sa = sb /\ ip_String ia +:+ "|" +:+ dec_abs pa = ip_String ib +:+ "|" +:+ dec_abs pb) as [-> E2].
  { apply (f_equal (cut_char "|"%char)) in E. rewrite !Hcut1 in E by (apply ip_String_chars || done). exact (Some_pair_inj _ _ _ _ E). }
  assert (forall t u, sforall addr_char t = true -> cut_char "|"%char (t +:+ "|" +:+ u) = Some (t, u)) as Hcut2 by (intros t u Ht; apply (cut_addr "|"%char t u eq_refl Ht)).
  apply (f_equal (cut_char "|"%char)) in E2. rewrite !Hcut2 in E2 by apply ip_String_chars. apply Some_pair_inj in E2 as [Ei Ep].
  apply (f_equal ParseIP) in Ei. rewrite !ParseIP_String in Ei by done. injection Ei as ->.
  apply (f_equal (fun s => dec_val s 0)) in Ep. unfold dec_abs in Ep. rewrite !(fun n H => proj1 (dec_digits_spec (S (Z.to_nat (Z.log2 n))) n H ltac:(lia))) in Ep by lia. by subst.
Qed.

Lemma addresses_NoDup parsed addrs : Forall2 (fun p a => server_address url_parse 0 (ps_url p) = Ok a) parsed addrs -> NoDup (map destination addrs) <-> NoDup addrs.
Proof.
  intros Hf. split; [apply NoDup_fmap_1|]. assert (Forall (fun a => exists raw, server_address url_parse 0 raw = Ok a) addrs) as Ha.
  { clear -Hf. induction Hf; constructor; eauto. }
  clear Hf parsed. induction 1 as [|a addrs Hn _ IH]; [constructor|]. apply Forall_cons in Ha as [[ra Ha] Hall]. cbn [map]. constructor; [|by apply IH].
  intros (b & E & Hb)%list_elem_of_fmap. rewrite Forall_forall in Hall. destruct (Hall _ Hb) as [rb Hrb].
  apply Hn. by rewrite (destination_inj a b (address_ok _ _ Ha) (address_ok _ _ Hrb) E).
Qed.

Lemma name_servers_urls parsed named : name_servers parsed = Ok named -> map ps_url named = map ps_url parsed.
Proof.
  assert (forall f : nat -> parsedServer -> string, map ps_url (imap (fun i p => with_name (f i p) p) parsed) = map ps_url parsed) as Hi.
  { clear. induction parsed as [|p l IH]; intros f; [done|]. cbn. f_equal. apply (IH (fun i => f (S i))). }
  unfold name_servers. destruct (existsb ps_explicit parsed).
  - destruct (list_find _ parsed) as [[i p]|]; [done|]. by intros <-%Ok_inj.
  - destruct parsed as [|p [|q l]]; intros <-%Ok_inj; [done|done|]. apply (Hi (fun i _ => _)).
Qed.

(** The servers [init] is given.  They are accepted exactly when there are
    at most sixteen, all named or none, the names (the given ones, or
    [local], [local-1], ...) are distinct and well formed, and each URL is an
    [http] or [https] one with a literal IP address, a port from 1 to 65535 and
    no path, no two of them the same scheme, address and port however they are
    written.  What was accepted keeps its order and its text, and an egress
    policy can always be derived from it. *)
Theorem init_servers_exact raw servers :
  (parseInitServers url_parse raw = Ok servers <->
     Z.of_nat (length raw) <= MaxServers /\ exists parsed, name_servers (map parse_server raw) = Ok parsed /\ servers = map server_of parsed /\
       Forall (fun p => initServerNamePattern (ps_name p) = true) parsed /\ NoDup (map ps_name parsed) /\
       exists addrs, Forall2 (fun p a => server_address url_parse 0 (ps_url p) = Ok a) parsed addrs /\ NoDup addrs) /\
  (parseInitServers url_parse raw = Ok servers -> raw <> [] -> map sv_BaseURL servers = map (fun v => ps_url (parse_server v)) raw /\ exists bn, DerivePolicy url_parse servers = Ok bn).
Proof.
  assert (parseInitServers url_parse raw = Ok servers <->
     Z.of_nat (length raw) <= MaxServers /\ exists parsed, name_servers (map parse_server raw) = Ok parsed /\ acceptable parsed ∅ ∅ /\ servers = map server_of parsed) as Hiff.
  { unfold parseInitServers. destruct (Z.ltb_spec MaxServers (Z.of_nat (length raw))); [split; [done|lia]|].
    destruct (name_servers (map parse_server raw)) as [parsed|] eqn:En; [|split; [done|naive_solver]]. rewrite check_servers_spec. naive_solver. }
  split; [rewrite Hiff; split; intros (Hl & parsed & Hn & H); split; try done; exists parsed; split; try done|].
  { destruct H as [(H1 & H2 & _ & addrs & H4 & H5 & _) ->]. split; [done|]. split; [done|]. split; [done|]. exists addrs. by rewrite <- (addresses_NoDup _ _ H4). }
  { destruct H as (-> & H1 & H2 & addrs & H4 & H5). split; [|done]. split; [done|]. split; [done|]. split; [intros n _; apply not_elem_of_empty|].
    exists addrs. rewrite (addresses_NoDup _ _ H4). split; [done|]. split; [done|]. intros d _. apply not_elem_of_empty. }
  rewrite Hiff. intros (_ & parsed & Hn & (_ & _ & _ & addrs & Ha & _) & ->) Hne. pose proof (name_servers_urls _ _ Hn) as Hu. split.
  - rewrite map_map. cbn. rewrite <- (map_map parse_server ps_url), <- Hu. done.
  - unfold DerivePolicy. rewrite (acceptable_ips _ _ Ha). destruct (map server_of parsed) as [|s l] eqn:E.
    + destruct raw; [done|]. destruct parsed; [|done]. discriminate Hu.
    + destruct (forallb _ _); eauto.
Qed.
End Servers.

(** ** What comes before publication *)

(** The history of an execution: each thing done, with its answer. *)
Definition event : Type := { o : iop & ians o }.
Definition did (o : iop) (r : ians o) : event := existT o r.
Definition recorded (o : iop) (h : list event) (r : ians o) (h' : list event) : Prop := h' = h ++ [did o r].
Notation happens := (Prog.step (@eq (list event)) recorded).

Definition publishes (e : event) : bool := match projT1 e with Publish _ _ => true | _ => false end.
Definition quiet (h : list event) : Prop := forallb (fun e => negb (publishes e)) h = true.

Lemma quiet_snoc h e : quiet h -> publishes e = false -> quiet (h ++ [e]).
Proof. unfold quiet. rewrite forallb_app. intros -> He. cbn. by rewrite He. Qed.

Section Order.
Context {F : Type} `{Float64 F}.
Variable url_parse : string -> option URL.
Variable yaml_marshal : doc -> option string.
Variable yaml_stream : string -> list (option ynode).
Variable yaml_is_map : ynode -> bool.
Variable yaml_config : ynode -> option (sourceDoc (F := F)).
Variable yaml_users : ynode -> option (UsersFile F).
Variables (cwd goos configPath listen sandboxMode : string) (sandboxSet dryRun : bool) (rawServers : list string) (narg : nat).
Notation parsed := (parseInitArguments url_parse cwd goos configPath listen sandboxMode sandboxSet dryRun rawServers).

(** All that was done before the artifacts [a] were published at [paths]. *)
Record careful (before : list event) (paths : initPaths) (a : initArtifacts) : Prop := {
  cf_args : exists args, parsed = Ok args /\ ia_DryRun args = false /\ paths = ia_paths args /\
    Forall (fun s => exists ids, did (Discover s) (Ok ids) ∈ before) (ia_Servers args);
  cf_linux : goos = "linux";
  cf_config : is_ok (Config.Parse yaml_stream yaml_is_map yaml_config url_parse (a_Config a)) = true;
  cf_users : a_Users a = EmptyUsers /\ is_ok (ParseUsers yaml_stream yaml_users EmptyUsers) = true;
  cf_pepper : exists b, did (Entropy PepperBytes) (Some b) ∈ before /\ a_Pepper a = EncodePepper b /\ 16 <= slen b;
  cf_summary : exists text, did (Print true text) true ∈ before;
  cf_first : quiet before
}.

Definition published_carefully (h : list event) : Prop :=
  forall before paths a r after, h = before ++ did (Publish paths a) r :: after -> careful before paths a.

Lemma quiet_careful h : quiet h -> published_carefully h.
Proof. intros Hq before paths a r after ->. unfold quiet in Hq. rewrite forallb_app in Hq. cbn in Hq. by rewrite andb_false_r in Hq. Qed.

Lemma careful_snoc h e : published_carefully h -> publishes e = false -> published_carefully (h ++ [e]).
Proof.
  intros Hc He before paths a r after E. destruct after as [|x after _] using rev_ind.
  - apply app_inj_tail in E as [_ ->]. done.
  - apply (Hc before paths a r after). rewrite app_comm_cons, app_assoc in E. by apply app_inj_tail in E as [-> _].
Qed.

Lemma careful_publish h paths a r : quiet h -> careful h paths a -> published_carefully (h ++ [did (Publish paths a) r]).
Proof.
  intros Hq Hc before paths' a' r' after E. destruct after as [|x after _] using rev_ind.
  - apply app_inj_tail in E as [-> E]. injection E as -> ->. done.
  - exfalso. rewrite app_comm_cons, app_assoc in E. apply app_inj_tail in E as [E _]. subst h. unfold quiet in Hq. rewrite forallb_app in Hq. cbn in Hq.
    by rewrite andb_false_r in Hq.
Qed.

(** The exit code. *)
Definition exits (code : Z) (h : list event) : Prop :=
  (quiet h \/ exists args a r, parsed = Ok args /\ did (Publish (ia_paths args) a) r ∈ h) /\
  (code = 0 -> exists args, parsed = Ok args /\ if ia_DryRun args then quiet h else exists a, did (Publish (ia_paths args) a) (Ok tt) ∈ h) /\
  (code = 0 \/ code = 1 \/ code = 2) /\ (code = 2 -> h = []).

Notation always := (Prog.always (@eq (list event)) recorded published_carefully).

(** An operation other than the publication, while nothing is published. *)
Lemma quiet_call {B} o (f : ians o -> iprog B) Q h : quiet h -> (forall r, publishes (did o r) = false) ->
  (forall r, quiet (h ++ [did o r]) -> always Q (f r) (h ++ [did o r])) -> always Q (bind (call o) f) h.
Proof.
  intros Hq Ho Hf v1 r v2 <- ->. assert (quiet (h ++ [did o r])) as Hq' by (by apply quiet_snoc). split; [by apply quiet_careful|by apply Hf].
Qed.

Lemma discover_always servers : forall results h (Q : option (gmap string (list string)) -> list event -> Prop), quiet h ->
  (forall h', quiet h' -> Q None h') ->
  (forall results' h', quiet h' -> h ⊆ h' -> Forall (fun s => exists ids, did (Discover s) (Ok ids) ∈ h') servers -> Q (Some results') h') ->
  always Q (discover servers results) h.
Proof.
  induction servers as [|s servers IH]; intros results h Q Hq Hn Hs; cbn [discover]; [by apply Hs|].
  apply quiet_call; [done|done|]. intros r Hq'. destruct r as [ids|e]; [|by apply Hn]. apply IH; [done|done|].
  intros results' h' Hq2 Hsub Hf. apply Hs; [done|set_solver|]. constructor; [|done]. exists ids. apply Hsub, elem_of_app. right. apply list_elem_of_singleton. done.
Qed.

(** What [renderInitArtifacts] has checked. *)
Definition rendered (args : initArguments) (h : list event) (a : initArtifacts) : Prop :=
  is_ok (Config.Parse yaml_stream yaml_is_map yaml_config url_parse (a_Config a)) = true /\
  (a_Users a = EmptyUsers /\ is_ok (ParseUsers yaml_stream yaml_users EmptyUsers) = true) /\
  exists b, did (Entropy PepperBytes) (Some b) ∈ h /\ a_Pepper a = EncodePepper b /\ 16 <= slen b.

Lemma render_always args aggregate h (Q : option initArtifacts -> list event -> Prop) : quiet h -> (forall h', quiet h' -> Q None h') ->
  (forall a h', quiet h' -> h ⊆ h' -> rendered args h' a -> Q (Some a) h') ->
  always Q (renderInitArtifacts url_parse yaml_marshal yaml_stream yaml_is_map yaml_config yaml_users args aggregate) h.
Proof.
  intros Hq Hn Hs. unfold renderInitArtifacts. case_bool_decide; [by apply Hn|]. destruct (DerivePolicy url_parse (ia_Servers args)) as [policy|]; [|by apply Hn].
  apply quiet_call; [done|done|]. intros r Hq'. cbn [Prog.always]. destruct r as [pepper|]; [|by apply Hn].
  destruct (ValidatePepper pepper) eqn:Hv; cbn [negb]; [|by apply Hn]. destruct (is_ok (ParseUsers _ _ _)) eqn:Hu; cbn [negb]; [|by apply Hn].
  destruct (config_doc args aggregate policy) as [d|]; [|by apply Hn]. destruct (yaml_marshal d) as [out|]; [|by apply Hn].
  destruct (is_ok (Config.Parse _ _ _ _ out)) eqn:Hc; [|by apply Hn]. apply Hs; [done|set_solver|]. split; [done|]. split; [done|].
  exists pepper. split; [apply elem_of_app; right; by apply list_elem_of_singleton|]. split; [done|]. unfold ValidatePepper in Hv. lia.
Qed.

Lemma exits_one h : quiet h -> exits 1 h.
Proof. intros Hq. split; [by left|]. split; [done|]. split; [by right; left|done]. Qed.

(** The end of a dry run; [f] is what is printed last. *)
Lemma dry_end args text h : parsed = Ok args -> ia_DryRun args = true -> quiet h -> always exits (let! ok := print_to false text in Ret (if ok then 0 else 1)) h.
Proof.
  intros Hp Hd Hq. apply quiet_call; [done|done|]. intros [] Hq'; [|by apply exits_one]. split; [by left|]. split; [|split; [by left|done]].
  intros _. exists args. by rewrite Hd.
Qed.

(** The end of a run that publishes. *)
Lemma publish_end args a text h : parsed = Ok args -> ia_DryRun args = false -> quiet h -> careful h (ia_paths args) a ->
  always exits (let! ok := publish (ia_paths args) a in if negb ok then Ret 1 else let! ok := print_to true text in Ret (if ok then 0 else 1)) h.
Proof.
  intros Hp Hd Hq Hc v1 r v2 <- ->. split; [by apply careful_publish|].
  assert (did (Publish (ia_paths args) a) r ∈ h ++ [did (Publish (ia_paths args) a) r]) as Hin by (apply elem_of_app; right; by apply list_elem_of_singleton).
  assert (forall h', h ++ [did (Publish (ia_paths args) a) r] ⊆ h' -> exits 1 h') as H1.
  { intros h' Hsub. split; [right; exists args, a, r; split; [done|by apply Hsub]|]. split; [done|]. split; [by right; left|done]. }
  destruct r as [[]|e]; cbn [bind Prog.always is_ok negb]; [|by apply H1]. intros v3 r v4 <- ->. split; [apply careful_snoc; [by apply careful_publish|done]|].
  destruct r; [|apply H1; set_solver]. split; [right; exists args, a, (Ok tt); split; [done|set_solver]|]. split; [|split; [by left|done]].
  intros _. exists args. rewrite Hd. split; [done|]. exists a. set_solver.
Qed.

Lemma runInit_always unit args h : parsed = Ok args -> (ia_DryRun args = false -> goos = "linux") -> quiet h ->
  always exits (runInit url_parse yaml_marshal yaml_stream yaml_is_map yaml_config yaml_users (with_unit unit args)) h.
Proof.
  intros Hp Hlinux Hq. unfold runInit. cbn [with_unit ia_Servers ia_DryRun ia_paths]. destruct (DerivePolicy _ _) as [pol|]; [|by apply exits_one].
  apply always_bind, discover_always; [done|by apply exits_one|]. intros results h1 Hq1 _ Hdisc. destruct (Aggregate _ _) as [aggregate|]; [|by apply exits_one].
  apply always_bind, render_always; [done|by apply exits_one|]. intros a h2 Hq2 Hsub (Hc & Hu & Hpep). destruct (ia_DryRun args) eqn:Hd.
  - apply quiet_call; [done|done|]. intros [] Hq3; cbn [negb]; [|by apply exits_one]. by apply (dry_end args).
  - apply quiet_call; [done|done|]. intros [] Hq3; cbn [negb]; [|by apply exits_one]. apply publish_end; [done|done|done|].
    constructor; [|by apply Hlinux|done|done| | |done].
    + exists args. split; [done|]. split; [done|]. split; [done|]. eapply Forall_impl; [exact Hdisc|]. intros s [ids Hin]. exists ids. set_solver.
    + destruct Hpep as (b & Hin & Hb). exists b. split; [set_solver|done].
    + eexists. apply elem_of_app. right. by apply list_elem_of_singleton.
Qed.

Lemma preflight_always section mode explicit h (Q : bool -> list event -> Prop) : quiet h -> (forall b h', quiet h' -> Q b h') -> always Q (preflight section mode explicit) h.
Proof. intros Hq HQ. unfold preflight. destruct (String.eqb mode ModeRequired); [|by apply HQ]. apply quiet_call; [done|done|]. intros r Hq'. by apply HQ. Qed.

Lemma initCmd_always : always exits
  (initCmd url_parse yaml_marshal yaml_stream yaml_is_map yaml_config yaml_users cwd goos configPath listen sandboxMode sandboxSet dryRun rawServers narg) [].
Proof.
  assert (exits 2 []) as H2 by (split; [by left|]; split; [done|]; split; [by right; right|done]).
  unfold initCmd. destruct (negb _); [done|]. destruct parsed as [args|] eqn:Hp; [|done].
  assert (forall h u, quiet h -> always exits (let! ok := preflight (ia_Sandbox (with_unit u args)) (ia_SandboxMode (with_unit u args)) sandboxSet in
    if negb ok then Ret 1 else if negb (ia_DryRun (with_unit u args)) && negb (String.eqb goos "linux") then Ret 1
    else runInit url_parse yaml_marshal yaml_stream yaml_is_map yaml_config yaml_users (with_unit u args)) h) as Hrest.
  { intros h u Hq. apply always_bind, preflight_always; [done|]. intros b h' Hq'. destruct b; cbn [negb]; [|by apply exits_one]. cbn [with_unit ia_DryRun].
    destruct (ia_DryRun args) eqn:Hd; cbn [negb andb]; [by apply runInit_always; [|congruence|]|].
    destruct (String.eqb_spec goos "linux") as [E|]; cbn [negb]; [|by apply exits_one]. by apply runInit_always. }
  apply always_bind. unfold systemdUnitInstalled. apply quiet_call; [done|done|]. intros [] Hq; [by apply Hrest|].
  intros v1 r v2 <- ->. assert (quiet ([did (StatUnit "/etc/systemd/system/mellomting.service") false] ++ [did (StatUnit "/lib/systemd/system/mellomting.service") r])) as Hq' by done.
  split; [by apply quiet_careful|by apply Hrest].
Qed.
End Order.


(** ** An initialization *)

Module InitDemo.
Definition run_init (dryRun : bool) : iprog Z :=
  initCmd (F := QArith_base.Q) ConfigDemo.urls (fun _ => Some "version: 1") (fun _ => [Some ConfigDemo.root]) (fun _ => true) (fun _ => Some ConfigDemo.doc)
    (fun _ => Some (mkUsersFile 1 [])) "/srv/m" "linux" "./config.yaml" "" "" false dryRun ["gpu=http://127.0.0.1:8000"] 0.
Definition reply (o : iop) : ians o :=
  match o return ians o with
  | Discover _ => Ok ["qwen"] | Entropy n => Some (String.string_of_list_ascii (repeat "x"%char n)) | Print _ _ => true
  | Publish _ _ => Ok tt | StatUnit _ => false | CheckSandbox => Sandbox.mkReport "linux" "landlock" true 6 ""
  end.
Definition answers (o : iop) (h : list event) : ians o * list event := (reply o, h ++ [did o (reply o)]).
Definition execute (dryRun : bool) : Z * list event := Prog.run answers answers (fun h => h) [] (run_init dryRun) [].
Definition printed (h : list event) : list (bool * string) := omap (fun e => match projT1 e with Print out text => Some (out, text) | _ => None end) h.

Example execute_ok : (execute false).1 = 0 /\ existsb publishes (execute false).2 = true /\ length (execute false).2 = 7%nat /\ (execute true).1 = 0 /\ existsb publishes (execute true).2 = false.
Proof. vm_compute. repeat split. Qed.
Example execute_says : printed (execute false).2 =
  [(true, line "discovered 1 model:" +:+ line "  qwen: gpu");
   (true, line "initialized /srv/m/config.yaml" +:+ line "next:" +:+ line "  mellomting key create local --config /srv/m/config.yaml" +:+ line "  mellomting serve --config /srv/m/config.yaml")].
Proof. vm_compute. reflexivity. Qed.

Definition listener : initListener := mkInitListener "tcp" "[2001:db8::1]:8080" "2001:DB8:0::1" 8080 "" true.

(** The flag's help names ./config.yaml; without the flag it is another. *)
Example default_config : ConfigPath (resolveInitAuthPaths "/srv/m" "") = "/etc/mellomting/config.yaml" /\ ConfigPath (resolveInitAuthPaths "/srv/m" "./config.yaml") = "/srv/m/config.yaml".
Proof. vm_compute. by split. Qed.

(** The same address, written in two ways. *)
Definition servers_of (l : list string) : result init_error (list Setup.Server) := parseInitServers SetupDemo.url_parse l.
Example servers_ex :
  map servers_of [["http://10.0.0.2:80"; "http://[::ffff:10.0.0.2]:080"]; ["http://10.0.0.2:80"; "https://10.0.0.2:80"]; ["a=http://10.0.0.2:80"; "http://10.0.0.3:80"]; ["http://example.org:80"]] =
  [Err (DuplicateAddress 1); Ok [Setup.mkServer "local-1" "http://10.0.0.2:80"; Setup.mkServer "local-2" "https://10.0.0.2:80"]; Err (MixedNames 1); Err (NotIPLiteral 0)].
Proof. vm_compute. reflexivity. Qed.
End InitDemo.

Lemma init_listener_valid_witness :
  li_AllowPlaintext InitDemo.listener = true /\ forall s : Config.Server, s_Listen s = listen_of InitDemo.listener -> AllowPlaintextNonLoopback s = true -> validate_listen s = [].
Proof.
  split; [reflexivity|]. assert (parseInitListen "[2001:DB8:0::1]:8080" = Ok InitDemo.listener) as E by (vm_compute; reflexivity).
  exact (proj1 (proj2 (init_listener_valid "[2001:DB8:0::1]:8080" InitDemo.listener E))).
Defined.

