(* ===== verification/Cli.v ===== *)
(** * The command line: [cmd/mellomting/main.go], [help.go], [usage.go], [top.go]

    From the arguments of the process to the command they name with its
    settings, or to help, or to a usage error; and the commands that are not
    modelled elsewhere.  The version line is in [Wire.v].  Numbers are binary64, as the program computes
    them. *)

From Stdlib Require Import Ascii SpecFloat.
From S2P Require Import Prelude Inflight Float64 GoStrings Net Json Utf8 Auth Accounting RecordLog Config Prog Host Replace Keys Sandbox Init Load Flags.
#[local] Open Scope Z_scope.

Notation keyFlags := (Keys.keyFlags spec_float).

(** ** Settings *)

(** A variable holds the last value it was set to. *)
Definition setting_of {A} (get : fval -> option A) (name : string) (dflt : A) (ss : list setting) : A :=
  fold_left (fun a s => if String.eqb s.1 name then default a (get s.2) else a) ss dflt.
Definition get_string := setting_of (fun v => match v with VString s => Some s | _ => None end).
Definition get_bool := setting_of (fun v => match v with VBool b => Some b | _ => None end).
Definition get_int := setting_of (fun v => match v with VInt n => Some n | _ => None end).
Definition get_float := setting_of (fun v => match v with VFloat f => Some f | _ => None end).
Definition get_duration := setting_of (fun v => match v with VDuration d => Some d | _ => None end).
(** [flag.FlagSet.Visit]: whether a flag was given at all. *)
Definition was_set (name : string) (ss : list setting) : bool := existsb (fun s => String.eqb s.1 name) ss.

(* src: cmd/mellomting/init.go 51-59 serverList *)
Definition serverList (ss : list setting) : list string :=
  omap (fun s => if String.eqb s.1 "server" then match s.2 with VString v => Some v | _ => None end else None) ss.

(** ** The flags of each command *)

(* src: cmd/mellomting/main.go 93-94 configCmd *)
Definition configFlags : flagset := [("config", KString)].
(* src: cmd/mellomting/install.go 38-40 installCmd *)
Definition installFlags : flagset := [("prefix", KString); ("systemd", KBool)].
(* src: cmd/mellomting/init.go 107-115 initCmd *)
Definition initFlags : flagset := [("server", KList); ("config", KString); ("listen", KString); ("sandbox", KString); ("dry-run", KBool)].
(* src: cmd/mellomting/top.go 30-36 topCmd *)
Definition topFlags : flagset := [("config", KString); ("interval", KDuration); ("once", KBool)].
(* src: cmd/mellomting/main.go 291-301 keyParseFlags *)
Definition keyFlagSet (sub : string) : flagset :=
  ("config", KString) ::
  if String.eqb sub "create" then [("models", KString); ("expires", KString); ("concurrent-requests", KInt); ("requests-per-second", KFloat); ("burst", KInt)] else [].

(** ** Commands *)

(** What a command line asks for, with its settings. *)
Inductive action :=
| Version
| Install (prefix : string) (systemd : bool)
| Init (configPath listen sandboxMode : string) (sandboxSet dryRun : bool) (servers : list string)
| ConfigCheck (configPath : string)
| ConfigShow (configPath : string)
| SandboxCheck (configPath : string)
| KeyCommand (sub configPath : string) (c : keyFlags)
| UsageReport (configPath : string)
| Top (configPath : string) (interval : duration) (once : bool)
| Serve (configPath : string).

(** Or help on standard output, or a complaint on standard error. *)
Inductive outcome := Helped | Refused | Run (a : action).

(* src: cmd/mellomting/help.go flagExitCode *)
Definition flagExitCode (e : flag_error) : Z := match e with ErrHelp => 0 | _ => 2 end.

(** Help goes to standard output; what is wrong with the flags, or is left
    over after them, is an error. *)
(* src: cmd/mellomting/help.go parseCommandFlags *)
Definition parseCommandFlags (fs : flagset) (args : list string) (k : list setting -> outcome) : outcome :=
  match Parse fs args with
  | Err e => if flagExitCode e =? 0 then Helped else Refused
  | Ok (ss, []) => k ss
  | Ok (ss, _ :: _) => Refused
  end.

(* src: cmd/mellomting/help.go groupHelp *)
Definition groupHelp (args : list string) : bool := match args with [a] => one_of ["--help"; "-h"] a | _ => false end.

(* src: cmd/mellomting/main.go subcommand *)
Definition subcommand (args : list string) (defaults : string) : string * list string :=
  match args with
  | a :: rest => if has_prefix "-" a then (defaults, args) else (a, rest)
  | [] => (defaults, args)
  end.

Definition config_of : list setting -> string := get_string "config" "".

(* src: cmd/mellomting/main.go 76-102 configCmd *)
Definition configCmd (args : list string) : outcome :=
  if groupHelp args then Helped
  else
    let '(sub, rest) := subcommand args "check" in
    if String.eqb sub "check" then parseCommandFlags configFlags rest (fun ss => Run (ConfigCheck (config_of ss)))
    else if String.eqb sub "show-effective" then parseCommandFlags configFlags rest (fun ss => Run (ConfigShow (config_of ss)))
    else Refused.

(* src: cmd/mellomting/main.go 127-146 sandboxCmd *)
Definition sandboxCmd (args : list string) : outcome :=
  if groupHelp args then Helped
  else
    let '(sub, rest) := subcommand args "check" in
    if String.eqb sub "check" then parseCommandFlags configFlags rest (fun ss => Run (SandboxCheck (config_of ss))) else Refused.

(* src: cmd/mellomting/usage.go 14-35 usageCmd *)
Definition usageCmd (args : list string) : outcome :=
  if groupHelp args then Helped
  else
    let '(sub, rest) := subcommand args "report" in
    if String.eqb sub "report" then parseCommandFlags configFlags rest (fun ss => Run (UsageReport (config_of ss))) else Refused.

(* src: cmd/mellomting/install.go 37-51 installCmd *)
Definition installCmd (args : list string) : outcome :=
  parseCommandFlags installFlags args (fun ss =>
    let prefix := get_string "prefix" "/usr/local" ss in
    if String.eqb prefix "" then Refused else Run (Install prefix (get_bool "systemd" false ss))).

(* src: cmd/mellomting/init.go 106-128 initCmd *)
Definition initCmd (args : list string) : outcome :=
  parseCommandFlags initFlags args (fun ss =>
    Run (Init (config_of ss) (get_string "listen" defaultInitListen ss) (get_string "sandbox" ModeBestEffort ss) (was_set "sandbox" ss)
           (get_bool "dry-run" false ss) (serverList ss))).

(* src: cmd/mellomting/serve.go 81-92 serveCmd *)
Definition serveCmd (args : list string) : outcome := parseCommandFlags configFlags args (fun ss => Run (Serve (config_of ss))).

(* src: cmd/mellomting/top.go 29-47 topCmd *)
Definition topCmd (args : list string) : outcome :=
  parseCommandFlags topFlags args (fun ss =>
    let interval := get_duration "interval" Second ss in
    if interval <=? 0 then Refused else Run (Top (config_of ss) interval (get_bool "once" false ss))).

(** *** [key] *)

(* src: cmd/mellomting/main.go 272-274 keyOperand *)
Definition keyOperand (sub : string) : string :=
  if String.eqb sub "create" then "NAME" else if one_of ["enable"; "disable"; "revoke"] sub then "ID" else "".

(** The settings of a parsed subcommand; [None] is an expiry that is no time. *)
(* src: cmd/mellomting/main.go 330-337 keyParseFlags *)
Definition settings_of (sub op : string) (ss : list setting) : option keyFlags :=
  if String.eqb sub "create" then
    let expires := get_string "expires" "" ss in
    option_map (fun t => mkFlags op (get_string "models" ModelWildcard ss) t (get_int "concurrent-requests" 0 ss) (get_float "requests-per-second" (f_of_Z 0) ss) (get_int "burst" 0 ss))
      (if String.eqb expires "" then Some None else option_map Some (parseExpiry expires))
  else Some (mkFlags op "" None 0 (f_of_Z 0) 0).

(** [Err true] is help, [Err false] a usage error. *)
(* src: cmd/mellomting/main.go keyParseFlags *)
Definition keyParseFlags (sub : string) (rest : list string) : result bool (string * keyFlags) :=
  let wants := negb (String.eqb (keyOperand sub) "") in
  let '(op, rest) := if wants then subcommand rest "" else ("", rest) in
  match Parse (keyFlagSet sub) rest with
  | Err e => Err (flagExitCode e =? 0)
  | Ok (ss, left_over) =>
      match (match left_over with
             | [] => Some op
             | [a] => if String.eqb op "" && wants then Some a else None
             | _ => None
             end) with
      | None => Err false
      | Some op =>
          if wants && String.eqb op "" then Err false
          else match settings_of sub op ss with
          | None => Err false
          | Some c => if negb (String.eqb sub "create") || is_ok (check_flags c) then Ok (config_of ss, c) else Err false
          end
      end
  end.

(* src: cmd/mellomting/main.go keyCmd *)
Definition keyCmd (args : list string) : outcome :=
  if groupHelp args then Helped
  else
    let '(sub, rest) := subcommand args "list" in
    if one_of ["create"; "list"; "enable"; "disable"; "revoke"] sub then
      match keyParseFlags sub rest with
      | Err help => if help then Helped else Refused
      | Ok (path, c) => Run (KeyCommand sub path c)
      end
    else Refused.

(* src: cmd/mellomting/main.go commandDispatch *)
Definition commandDispatch (argv : list string) : outcome :=
  match argv with
  | _ :: cmd :: args =>
      if one_of ["version"; "-v"; "--version"] cmd then Run Version
      else if one_of ["help"; "-h"; "--help"] cmd then Helped
      else if String.eqb cmd "install" then installCmd args
      else if String.eqb cmd "init" then initCmd args
      else if String.eqb cmd "config" then configCmd args
      else if String.eqb cmd "sandbox" then sandboxCmd args
      else if String.eqb cmd "key" then keyCmd args
      else if String.eqb cmd "usage" then usageCmd args
      else if String.eqb cmd "top" then topCmd args
      else if String.eqb cmd "serve" then serveCmd args
      else Refused
  | _ => Refused
  end.

Example dispatched :
  map commandDispatch
    [["mellomting"]; ["mellomting"; "frob"]; ["mellomting"; "config"]; ["mellomting"; "config"; "check"; "--config=a.yaml"; "-config"; "b.yaml"];
     ["mellomting"; "serve"; "extra"]; ["mellomting"; "top"; "--interval"; "250ms"; "-once"]; ["mellomting"; "top"; "--interval=0"]; ["mellomting"; "serve"; "--help"];
     ["mellomting"; "key"; "revoke"; "--config"; "c.yaml"; "abc"]; ["mellomting"; "key"; "revoke"; "abc"; "--config"; "c.yaml"]; ["mellomting"; "key"; "revoke"; "a"; "b"]]
  = [Refused; Refused; Run (ConfigCheck ""); Run (ConfigCheck "b.yaml"); Refused; Run (Top "" (250 * Millisecond) true); Refused; Helped;
     Run (KeyCommand "revoke" "c.yaml" (mkFlags "abc" "" None 0 (f_of_Z 0) 0)); Run (KeyCommand "revoke" "c.yaml" (mkFlags "abc" "" None 0 (f_of_Z 0) 0)); Refused].
Proof. vm_compute. reflexivity. Qed.

(** ** What the commands do

    The exit code, and what goes to standard output. *)

Definition dec (n : Z) : string := if n <? 0 then "-" +:+ dec_abs (- n) else dec_abs n.
Definition lines (l : list string) : string := String.concat "" (map Init.line l).

(** [%-Ns] and [%Nd] of [fmt]: padding counts code points. *)
Definition blanks (n : nat) : string := String.concat "" (repeat " " n).
Definition pad_right (n : nat) (s : string) : string := s +:+ blanks (n - length (runes s)).
Definition pad_left (n : nat) (s : string) : string := blanks (n - length (runes s)) +:+ s.

(** *** [sandbox check] *)

(** What this host reports, whatever the configuration. *)
(* src: cmd/mellomting/serve.go 358-398 platformSandbox *)
Definition platform_report (m : mechanisms) (darwin : bool) : Sandbox.Report := if darwin then seatbelt_Check m else landlock_Check (mc_version m).

Inductive verdict := ModeIsDisabled | WillEnforce (abi : Z) | WillEnforceProfile | ReportOnly | NotEnforced | Fails.

Definition is_landlock (r : Sandbox.Report) : bool := String.eqb (rp_Backend r) "landlock".

(* src: cmd/mellomting/main.go 179-188 sandboxCmd *)
Definition sandbox_ok (minABI : Z) (r : Sandbox.Report) : bool := Supported r && (negb (is_landlock r) || (minABI <=? KernelABI r)).

(* src: cmd/mellomting/main.go 203-219 sandboxCmd *)
Definition sandbox_verdict (mode : string) (minABI : Z) (r : Sandbox.Report) : verdict :=
  let ok := sandbox_ok minABI r in
  if String.eqb mode ModeDisabled then ModeIsDisabled
  else if ok && is_landlock r then WillEnforce (Z.min (KernelABI r) MaxABI)
  else if ok then WillEnforceProfile
  else if String.eqb mode "" then ReportOnly
  else if negb (String.eqb mode ModeRequired) then NotEnforced
  else Fails.

Definition verdict_code (v : verdict) : Z := match v with Fails => 1 | _ => 0 end.

(* src: cmd/mellomting/main.go 170-218 sandboxCmd *)
Definition sandbox_text (mode : string) (minABI : Z) (r : Sandbox.Report) : string :=
  let ll := is_landlock r in
  let reason := if Supported r then "kernel ABI " +:+ dec (KernelABI r) +:+ " below minimum " +:+ dec minABI else Reason r in
  lines (["mellomting: sandbox check"; "  platform:          " +:+ Platform r; "  backend:           " +:+ rp_Backend r] ++
         (if ll then ["  library max ABI:   " +:+ dec MaxABI] else []) ++
         [if negb (Supported r) then "  sandbox:           unavailable (" +:+ Reason r +:+ ")"
          else if ll then "  kernel ABI:        " +:+ dec (KernelABI r) else "  sandbox:           available"] ++
         (if String.eqb mode "" then [] else ["  mode:              " +:+ mode]) ++
         (if ll then ["  minimum required:  " +:+ dec minABI] else []) ++
         ["  result:            " +:+
          match sandbox_verdict mode minABI r with
          | ModeIsDisabled => "not enforced (mode disabled)"
          | WillEnforce abi => "ok (will enforce Landlock ABI " +:+ dec abi +:+ ")"
          | WillEnforceProfile => "ok (will enforce the Seatbelt profile)"
          | ReportOnly => "report only (" +:+ reason +:+ ")"
          | NotEnforced => "not enforced (" +:+ reason +:+ ")"
          | Fails => "FAIL (" +:+ reason +:+ ")"
          end]).

Section Commands.
Variable yaml_stream : string -> list (option ynode).
Variable yaml_is_map : ynode -> bool.
Variable yaml_decode : ynode -> option (sourceDoc (F := spec_float)).
Variable yaml_encode : effectiveDoc (F := spec_float) -> option string.
Variable yaml_users : ynode -> option (UsersFile spec_float).
Variable yaml_marshal : UsersFile spec_float -> option string.
Variable url_parse : string -> option URL.
Variable egid : Z.
(** [text/tabwriter] with two blanks between columns. *)
Variable tabwriter : string -> string.

Notation Load := (Load yaml_stream yaml_is_map yaml_decode url_parse).

(** [None] where the configuration that was named does not load. *)
(* src: cmd/mellomting/main.go 148-219 sandboxCmd *)
Definition sandboxCheck (m : mechanisms) (darwin : bool) (configPath : string) : prog (Z * option (string * verdict)) :=
  let! r := Load (ResolveConfigPath configPath) in
  let report := platform_report m darwin in
  let said mode minABI := let v := sandbox_verdict mode minABI report in (verdict_code v, Some (sandbox_text mode minABI report, v)) in
  Ret (match r with
       | Err _ => if String.eqb configPath "" then said "" DefaultMinimumABI else (1, None)
       | Ok cfg => said (sb_mode (platformSandbox m darwin cfg)) (MinimumABI (sec_Landlock (c_Security cfg)))
       end).

(** *** [config] *)

(* src: cmd/mellomting/main.go 102-111 configCmd *)
Definition configCheck (configPath : string) : prog (Z * string) :=
  let resolved := ResolveConfigPath configPath in
  let! r := Load resolved in
  Ret (match r with Err _ => (1, "") | Ok _ => (0, Init.line ("Configuration at " +:+ resolved +:+ " is valid.")) end).

(* src: cmd/mellomting/main.go 113-120 configCmd *)
Definition configShow (configPath : string) : prog (Z * string) :=
  let! r := LoadEffective yaml_stream yaml_is_map yaml_decode yaml_encode url_parse (ResolveConfigPath configPath) in
  Ret (match r with Err _ => (1, "") | Ok (_, out) => (0, out) end).

(** *** [usage report] *)

Definition usage_row (key : string) (cells : list string) : string :=
  Init.line (pad_right 16 key +:+ String.concat "" (map (fun c => " " +:+ pad_left c.1 c.2) (combine [8; 12; 12; 12; 12]%nat cells))).

(* src: cmd/mellomting/usage.go 54-60 usageCmd *)
Definition usage_text (report : list KeyUsage) : string :=
  usage_row "KEY_ID" ["REQUESTS"; "INPUT"; "OUTPUT"; "TOTAL"; "CACHED"] +:+
  String.concat "" (map (fun k => usage_row (ku_KeyID k) [dec (ku_Requests k); dec (ku_Input k); dec (ku_Output k); dec (ku_Total k); dec (ku_Cached k)]) report).

(** [report_file path] is what reading the log at [path] came to: an error, no
    file, or its text. *)
(* src: cmd/mellomting/usage.go 36-61 usageCmd *)
Definition usageReport (report_file : string -> result unit (option string)) (configPath : string) : prog (Z * string) :=
  let! r := Load (ResolveConfigPath configPath) in
  Ret (match r with
       | Err _ => (1, "")
       | Ok cfg =>
           if negb (acc_Enabled (c_Accounting cfg)) then (1, "")
           else match report_file (acc_Path (c_Accounting cfg)) with
           | Err _ => (1, "")
           | Ok log => (0, usage_text (ReportFile log))
           end
       end).

(** *** [key] *)

(** The users file and the pepper of the configuration. *)
(* src: cmd/mellomting/main.go keyState *)
Definition keyState (configPath : string) : prog (option (string * string)) :=
  let! r := Load (ResolveConfigPath configPath) in
  Ret (match r with
       | Err _ => None
       | Ok cfg => if String.eqb (UsersFilePath (c_Auth cfg)) "" then None else Some (UsersFilePath (c_Auth cfg), PepperFile (c_Auth cfg))
       end).

(** [Time.Format] with the layout [time.RFC3339], in UTC: whole seconds. *)
Definition year_text (y : Z) : string := if y <? 0 then "-" +:+ pad 4 (- y) else if y <=? 9999 then pad 4 y else dec y.
Definition expiry_text (t : time) : string :=
  let secs := t / Second in let s := secs mod 86400 in
  let '(y, yd) := year_day (secs / 86400) in
  let '(mo, d) := month_day 11 y 1 yd in
  year_text y +:+ "-" +:+ pad 2 mo +:+ "-" +:+ pad 2 d +:+ "T" +:+ pad 2 (s / 3600) +:+ ":" +:+ pad 2 (s / 60 mod 60) +:+ ":" +:+ pad 2 (s mod 60) +:+ "Z".

(* src: cmd/mellomting/main.go 487-502 keyList *)
Definition key_row (now : time) (k : Key spec_float) : string :=
  let status := if negb (Enabled k) then "disabled"
                else match ExpiresAt k with Some t => if Before t now then "expired" else "enabled" | None => "enabled" end in
  Init.line (join_with (String (byte 9) "") [ID k; Name k; status; match ExpiresAt k with Some t => expiry_text t | None => "-" end; join_with ", " (Models k)]).

(* src: cmd/mellomting/main.go keyList *)
Definition keyList (usersPath : string) (now : time) : prog (Z * option string) :=
  let! r := LoadUsers yaml_stream yaml_users usersPath in
  Ret (match r with
       | Err _ => (1, None)
       | Ok uf =>
           match Keys uf with
           | [] => (0, Some "no keys")
           | ks => (0, Some (tabwriter (String.concat "" (Init.line (join_with (String (byte 9) "") ["ID"; "NAME"; "STATUS"; "EXPIRES"; "MODELS"]) :: map (key_row now) ks))))
           end
       end).

(* src: cmd/mellomting/main.go 246-257 keyCmd *)
Definition keyRun (generate : nat -> result key_error (string * string)) (now : time) (sub configPath : string) (c : keyFlags) : prog (Z * option string) :=
  let! s := keyState configPath in
  match s with
  | None => Ret (1, None)
  | Some (usersPath, pepperPath) =>
      if String.eqb sub "create" then keyCreate yaml_stream yaml_users yaml_marshal egid c usersPath pepperPath generate
      else if String.eqb sub "list" then keyList usersPath now
      else if String.eqb sub "enable" then keySetEnabled yaml_stream yaml_users yaml_marshal egid usersPath (operand c) sub true
      else if String.eqb sub "disable" then keySetEnabled yaml_stream yaml_users yaml_marshal egid usersPath (operand c) sub false
      else keyRevoke yaml_stream yaml_users yaml_marshal egid usersPath (operand c)
  end.
End Commands.

(** ** [top] *)

(** [%.1f] of [fmt]: the exact value, rounded half to even. *)
Definition tenths (m e : Z) : Z :=
  if 0 <=? e then m * 2 ^ e * 10
  else let d := 2 ^ (- e) in let q := m * 10 / d in let r := 2 * (m * 10 mod d) in
       if r <? d then q else if d <? r then q + 1 else if Z.even q then q else q + 1.
Definition fixed1 (f : spec_float) : string :=
  match f with
  | S754_zero s => (if s then "-" else "") +:+ "0.0"
  | S754_infinity s => if s then "-Inf" else "+Inf"
  | S754_nan => "NaN"
  | S754_finite s m e => let t := tenths (Z.pos m) e in (if s then "-" else "") +:+ dec (t / 10) +:+ "." +:+ dec (t mod 10)
  end.

(** [Duration.Minutes] and [Duration.Hours]. *)
Definition in_units (unit : duration) (d : duration) : spec_float := f_add (f_of_Z (Z.quot d unit)) (f_div (f_of_Z (Z.rem d unit)) (f_of_Z unit)).

(* src: cmd/mellomting/top.go age *)
Definition age (ms : Z) : string :=
  let d := wrap64 (ms * Millisecond) in
  let seconds := f_trunc (Seconds (F := spec_float) d) in let minutes := f_trunc (in_units Minute d) in
  if d <? Minute then fixed1 (Seconds d) +:+ "s"
  else if d <? Hour then dec minutes +:+ "m" +:+ pad 2 (Z.rem seconds 60) +:+ "s"
  else dec (f_trunc (in_units Hour d)) +:+ "h" +:+ pad 2 (Z.rem minutes 60) +:+ "m".

(* src: cmd/mellomting/top.go tokens *)
Definition tokens (n : Z) : string := if n =? 0 then "-" else dec n.

(* src: cmd/mellomting/top.go byteCount *)
Definition byteCount (n : Z) : string :=
  if n <=? 0 then "-"
  else if n <? 1024 then dec n +:+ "B"
  else if n <? 1024 * 1024 then fixed1 (f_div (f_of_Z n) (f_of_Z 1024)) +:+ "K"
  else fixed1 (f_div (f_of_Z n) (f_of_Z (1024 * 1024))) +:+ "M".

(* src: cmd/mellomting/top.go orDash *)
Definition orDash (s : string) : string := if String.eqb s "" then "-" else s.

Definition ellipsis : Z := 8230.
(* src: cmd/mellomting/top.go truncate *)
Definition truncate (s : string) (n : nat) : string :=
  if String.eqb s "" then "-"
  else let r := runes s in if (length r <=? n)%nat then s else encode (take (n - 1) r ++ [ellipsis]).

Example rendered :
  (map age [0; 950; 1250; 59999; 60000; 3599999; 3600000; 90061000], map byteCount [0; 1023; 1024; 1536; 1572864], map (fun s => truncate s 4) [""; "abcd"; "abcdef"])
  = (["0.0s"; "0.9s"; "1.2s"; "60.0s"; "1m00s"; "59m59s"; "1h00m"; "25h01m"], ["-"; "1023B"; "1.0K"; "1.5K"; "1.5M"], ["-"; "abcd"; "abc" +:+ encode [ellipsis]]).
Proof. vm_compute. reflexivity. Qed.

(* src: cmd/mellomting/top.go 21-23 maxTopUserAgent *)
Definition maxTopUserAgent : nat := 28.

Definition tabbed (l : list string) : string := Init.line (join_with (String (byte 9) "") l).

(* src: cmd/mellomting/top.go 144-149 render *)
Definition top_row (r : Inflight.Record_) : string :=
  tabbed [age (Inflight.AgeMillis r); Inflight.r_Phase r; orDash (Inflight.KeyName r); orDash (Inflight.r_Model r); tokens (Inflight.Tokens r);
          byteCount (Inflight.BytesIn r); byteCount (Inflight.BytesOut r); orDash (Inflight.Remote r); truncate (Inflight.UserAgent r) maxTopUserAgent].

(** One frame; [clock] is the local time of day. *)
(* src: cmd/mellomting/top.go render *)
Definition render (tabwriter : string -> string) (records : list Inflight.Record_) (clock : string) (clear : bool) : string :=
  (if clear then String (byte 27) "[H" +:+ String (byte 27) "[2J" else "") +:+
  "mellomting " +:+ clock +:+ " " +:+ encode [8212] +:+ " " +:+ dec (Z.of_nat (length records)) +:+ " in flight" +:+ String ch_nl (String ch_nl "") +:+
  match records with
  | [] => ""
  | _ => tabwriter (tabbed ["AGE"; "PHASE"; "KEY"; "MODEL"; "TOKENS"; "IN"; "OUT"; "CLIENT"; "USER-AGENT"] +:+ String.concat "" (map top_row records))
  end.

(** What [top] does to the world; [AwaitTick] tells whether it was
    interrupted, [Interrupted] asks. *)
Inductive top_op := TopLoad | TopFetch | TopFrame (records : list Inflight.Record_) (clear : bool) | Interrupted | AwaitTick.
Definition top_ans (o : top_op) : Type :=
  match o with
  | TopLoad => result unit string                     (* the admin socket of the configuration *)
  | TopFetch => option (Z * string)
  | TopFrame _ _ => unit
  | Interrupted | AwaitTick => bool
  end.
Notation tprog := (Prog.prog top_ans).
Definition top_fetch : tprog (result Inflight.fetch_error (list Inflight.Record_)) := let! resp := call TopFetch in Ret (Inflight.fetchInflight resp).
Definition top_frame (records : list Inflight.Record_) (clear : bool) : tprog unit := call (TopFrame records clear).
Definition interrupted : tprog bool := call Interrupted.
Definition await_tick : tprog bool := call AwaitTick.

(** [None] is a loop that is still going on after [n] frames. *)
(* src: cmd/mellomting/top.go 78-93 topCmd *)
Fixpoint top_loop (n : nat) : tprog (option Z) :=
  match n with
  | O => Ret None
  | S n =>
      let! r := top_fetch in
      match r with
      | Err _ => let! stop := interrupted in Ret (Some (if stop then 0 else 1))
      | Ok records =>
          let! _ := top_frame records true in
          let! stop := await_tick in
          if stop then Ret (Some 0) else top_loop n
      end
  end.

(* src: cmd/mellomting/top.go 49-94 topCmd *)
Definition topRun (once : bool) (n : nat) : tprog (option Z) :=
  let! cfg := (call TopLoad : tprog (result unit string)) in
  match cfg with
  | Err _ => Ret (Some 1)
  | Ok sock =>
      if String.eqb sock "" then Ret (Some 1)
      else if once then
        let! r := top_fetch in
        match r with
        | Err _ => Ret (Some 1)
        | Ok records => let! _ := top_frame records false in Ret (Some 0)
        end
      else top_loop n
  end.
