(* ===== verification/CliFacts.v ===== *)
(** * The command line: theorems

    Which command lines run which command, and that [sandbox check] tells
    what [serve] will do. *)

From Stdlib Require Import Ascii SpecFloat.
From S2P Require Import Prelude Float64 GoStrings Net Auth Config Prog Host Keys Sandbox Init Load Flags Cli.
#[local] Open Scope Z_scope.

(** ** The command lines of the program *)

(** The subcommand of a group: named first, or the default before flags. *)
Inductive chooses (dflt : string) : list string -> string -> list string -> Prop :=
| ch_named w args : has_prefix "-" w = false -> chooses dflt (w :: args) w args
| ch_none : chooses dflt [] dflt []
| ch_flags w args : has_prefix "-" w = true -> chooses dflt (w :: args) dflt (w :: args).

(** The operand of a key command: the first argument, or what the flags leave. *)
Inductive operand_line (fs : flagset) : list string -> string -> list setting -> Prop :=
| ol_first op args ss : op <> "" -> has_prefix "-" op = false -> line fs args ss [] -> operand_line fs (op :: args) op ss
| ol_last op a args ss : op <> "" -> has_prefix "-" a = true -> line fs (a :: args) ss [op] -> operand_line fs (a :: args) op ss
| ol_blank op args ss : op <> "" -> line fs args ss [op] -> operand_line fs ("" :: args) op ss.

Inductive key_line : string -> list string -> string -> keyFlags -> Prop :=
| kl_list args ss : line (keyFlagSet "list") args ss [] -> key_line "list" args (config_of ss) (mkFlags "" "" None 0 (f_of_Z 0) 0)
| kl_id sub args op ss : one_of ["enable"; "disable"; "revoke"] sub = true -> operand_line (keyFlagSet sub) args op ss ->
    key_line sub args (config_of ss) (mkFlags op "" None 0 (f_of_Z 0) 0)
| kl_create args op ss c : operand_line (keyFlagSet "create") args op ss -> settings_of "create" op ss = Some c -> is_ok (check_flags c) = true ->
    key_line "create" args (config_of ss) c.

(** What the arguments after the program's name ask for. *)
Inductive means : list string -> action -> Prop :=
| me_version w args : one_of ["version"; "-v"; "--version"] w = true -> means (w :: args) Version
| me_install args ss : line installFlags args ss [] -> get_string "prefix" "/usr/local" ss <> "" ->
    means ("install" :: args) (Install (get_string "prefix" "/usr/local" ss) (get_bool "systemd" false ss))
| me_init args ss : line initFlags args ss [] ->
    means ("init" :: args) (Init (config_of ss) (get_string "listen" defaultInitListen ss) (get_string "sandbox" ModeBestEffort ss) (was_set "sandbox" ss)
                              (get_bool "dry-run" false ss) (serverList ss))
| me_check args rest ss : chooses "check" args "check" rest -> line configFlags rest ss [] -> means ("config" :: args) (ConfigCheck (config_of ss))
| me_show args rest ss : chooses "check" args "show-effective" rest -> line configFlags rest ss [] -> means ("config" :: args) (ConfigShow (config_of ss))
| me_sandbox args rest ss : chooses "check" args "check" rest -> line configFlags rest ss [] -> means ("sandbox" :: args) (SandboxCheck (config_of ss))
| me_key args sub rest path c : chooses "list" args sub rest -> key_line sub rest path c -> means ("key" :: args) (KeyCommand sub path c)
| me_usage args rest ss : chooses "report" args "report" rest -> line configFlags rest ss [] -> means ("usage" :: args) (UsageReport (config_of ss))
| me_top args ss : line topFlags args ss [] -> 0 < get_duration "interval" Second ss ->
    means ("top" :: args) (Top (config_of ss) (get_duration "interval" Second ss) (get_bool "once" false ss))
| me_serve args ss : line configFlags args ss [] -> means ("serve" :: args) (Serve (config_of ss)).

(** ** They are the ones that run *)

Lemma parseCommandFlags_run fs args k a : parseCommandFlags fs args k = Run a <-> exists ss, line fs args ss [] /\ k ss = Run a.
Proof.
  unfold parseCommandFlags. split.
  - destruct (Parse fs args) as [[ss [|x l]]|e] eqn:E; [|done|by destruct (_ =? _)]. intros Hk. exists ss. split; [by apply Parse_iff|done].
  - intros (ss & Hl & Hk). apply Parse_iff in Hl. by rewrite Hl.
Qed.

Lemma subcommand_chooses args dflt sub rest : subcommand args dflt = (sub, rest) <-> chooses dflt args sub rest.
Proof.
  split.
  - destruct args as [|a args]; cbn; [intros [= <- <-]; constructor|]. destruct (has_prefix "-" a) eqn:E; intros [= <- <-]; by constructor.
  - intros [w l E| |w l E]; cbn; [by rewrite E|done|by rewrite E].
Qed.

(** Asking a group for help is no line of it. *)
Lemma help_no_line fs a ss rest : one_of ["--help"; "-h"] a = true -> formal fs "help" = None -> formal fs "h" = None -> ~ line fs [a] ss rest.
Proof.
  intros Ha H1 H2 Hl%Parse_iff. unfold one_of in Ha. cbn [existsb] in Ha. rewrite orb_false_r, orb_true_iff in Ha.
  destruct Ha as [->%String.eqb_eq| ->%String.eqb_eq]; cbn [Parse] in Hl;
    [change (shape_of "--help") with (Named "help" None) in Hl; cbv beta iota in Hl; rewrite H1 in Hl|change (shape_of "-h") with (Named "h" None) in Hl; cbv beta iota in Hl; rewrite H2 in Hl]; done.
Qed.

Lemma groupHelp_inv args : groupHelp args = true -> exists a, args = [a] /\ one_of ["--help"; "-h"] a = true /\ has_prefix "-" a = true.
Proof.
  destruct args as [|a [|]]; try done. intros Ha. exists a. split; [done|]. split; [done|]. cbn in Ha. rewrite orb_false_r, orb_true_iff in Ha.
  by destruct Ha as [->%String.eqb_eq| ->%String.eqb_eq].
Qed.

(** A group of one flag set. *)
Lemma group_run dflt args (k : string -> list string -> outcome) a :
  (if groupHelp args then Helped else let '(sub, rest) := subcommand args dflt in k sub rest) = Run a <->
  groupHelp args = false /\ exists sub rest, chooses dflt args sub rest /\ k sub rest = Run a.
Proof.
  destruct (groupHelp args); [by split; [|intros [? _]]|]. destruct (subcommand args dflt) as [sub rest] eqn:E. split.
  - intros Hk. split; [done|]. exists sub, rest. by rewrite <- subcommand_chooses.
  - intros [_ (sub' & rest' & Hc & Hk)]. apply subcommand_chooses in Hc. rewrite E in Hc. by injection Hc as <- <-.
Qed.

(** The operand, and what is left to parse. *)
Lemma operand_iff sub args op ss (fs := keyFlagSet sub) : keyOperand sub <> "" ->
  operand_line fs args op ss <->
  op <> "" /\ (let '(op', rest) := subcommand args "" in
             (op' = op /\ line fs rest ss []) \/ (op' = "" /\ line fs rest ss [op])).
Proof.
  intros _. split.
  - intros [op' rest ss' Ho Hd Hl|op' a rest ss' Ho Hd Hl|op' rest ss' Ho Hl]; (split; [done|]); cbn [subcommand]; [rewrite Hd; by left|rewrite Hd; by right|by right].
  - intros [Ho Hs]. destruct args as [|a args]; cbn [subcommand] in Hs.
    + exfalso. destruct Hs as [[<- _]|[_ Hl]]; [done|]. apply Parse_iff in Hl. done.
    + destruct (has_prefix "-" a) eqn:Hd.
      * destruct Hs as [[<- _]|[_ Hl]]; [done|]. by apply ol_last.
      * destruct Hs as [[-> Hl]|[-> Hl]]; [by apply ol_first|by apply ol_blank].
Qed.

Lemma keyParseFlags_operand sub rest path c : keyOperand sub <> "" ->
  keyParseFlags sub rest = Ok (path, c) <->
  exists op ss, operand_line (keyFlagSet sub) rest op ss /\ settings_of sub op ss = Some c /\ path = config_of ss /\
    (sub = "create" -> is_ok (check_flags c) = true).
Proof.
  intros Hw. unfold keyParseFlags. rewrite (proj2 (String.eqb_neq _ _) Hw). cbn [negb]. setoid_rewrite (operand_iff sub rest _ _ Hw).
  destruct (subcommand rest "") as [op' rest']. split.
  - destruct (Parse (keyFlagSet sub) rest') as [[ss l]|] eqn:Hp; [|done]. apply Parse_iff in Hp. intros Hk.
    assert (exists op, op <> "" /\ (op' = op /\ l = [] \/ op' = "" /\ l = [op]) /\ settings_of sub op ss = Some c /\ path = config_of ss /\ (sub = "create" -> is_ok (check_flags c) = true)) as (op & Ho & Hl & Hr).
    { destruct (match l with [] => Some op' | [a] => if String.eqb op' "" && true then Some a else None | _ => None end) as [op|] eqn:El; [|done].
      cbn [andb] in Hk. destruct (String.eqb_spec op "") as [|Ho]; [done|]. exists op. split; [done|]. split.
      { destruct l as [|a [|]]; [injection El as <-; by left| |done]. destruct (String.eqb_spec op' "") as [->|]; [|done]. injection El as <-. by right. }
      destruct (settings_of sub op ss) as [c'|]; [|done]. destruct (negb _ || _) eqn:Ec; [|done]. injection Hk as <- <-. split; [done|]. split; [done|].
      intros ->. by rewrite orb_false_l in Ec. }
    exists op, ss. split; [|done]. split; [done|]. destruct Hl as [[-> ->]|[-> ->]]; [by left|by right].
  - intros (op & ss & [Ho Hl] & Hs & -> & Hc).
    assert (exists l, Parse (keyFlagSet sub) rest' = Ok (ss, l) /\ match l with [] => Some op' | [a] => if String.eqb op' "" && true then Some a else None | _ => None end = Some op) as (l & -> & ->).
    { destruct Hl as [[-> Hl]|[-> Hl]]; apply Parse_iff in Hl; eauto. }
    rewrite (proj2 (String.eqb_neq _ _) Ho). cbn [andb]. rewrite Hs. destruct (String.eqb_spec sub "create") as [E|]; cbn [negb orb]; [by rewrite Hc|done].
Qed.

Lemma keyParseFlags_iff sub rest path c : one_of ["create"; "list"; "enable"; "disable"; "revoke"] sub = true ->
  keyParseFlags sub rest = Ok (path, c) <-> key_line sub rest path c.
Proof.
  intros Hsub. unfold one_of in Hsub. cbn [existsb] in Hsub. rewrite orb_false_r, !orb_true_iff, !String.eqb_eq in Hsub.
  assert (sub = "create" \/ sub = "list" \/ one_of ["enable"; "disable"; "revoke"] sub = true) as [->|[->|Hid]]
    by (destruct Hsub as [->|[->|[->|[->| ->]]]]; auto).
  - rewrite keyParseFlags_operand by done. split.
    + intros (op & ss & Hl & Hs & -> & Hc). apply (kl_create _ op); auto.
    + inversion 1; subst; [done|]. eexists _, _. eauto.
  - split.
    + unfold keyParseFlags. cbn -[keyFlagSet Parse config_of f_of_Z]. destruct (Parse (keyFlagSet "list") rest) as [[ss [|a [|]]]|] eqn:E; try done.
      * intros [= <- <-]. apply kl_list. by apply Parse_iff.
    + inversion 1 as [args ss Hl| |]; subst; [|done]. apply Parse_iff in Hl. unfold keyParseFlags. cbn -[keyFlagSet Parse config_of f_of_Z]. by rewrite Hl.
  - assert (keyOperand sub = "ID" /\ sub <> "create" /\ sub <> "list") as (Ho & Hc & Hl).
    { unfold keyOperand. rewrite Hid. unfold one_of in Hid. cbn [existsb] in Hid. rewrite orb_false_r, !orb_true_iff, !String.eqb_eq in Hid. by destruct Hid as [->|[->| ->]]. }
    rewrite keyParseFlags_operand by (by rewrite Ho). unfold settings_of. rewrite (proj2 (String.eqb_neq _ _) Hc). split.
    + intros (op & ss & Hop & [= <-] & -> & _). by apply kl_id.
    + inversion 1; subst; [done| |done]. eexists _, _. split; [done|]. by split.
Qed.

Lemma key_line_help a sub rest path c : one_of ["--help"; "-h"] a = true -> chooses "list" [a] sub rest -> ~ key_line sub rest path c.
Proof.
  intros Ha Hc Hk. assert (has_prefix "-" a = true) as Hd.
  { unfold one_of in Ha. cbn [existsb] in Ha. rewrite orb_false_r, orb_true_iff in Ha. by destruct Ha as [->%String.eqb_eq| ->%String.eqb_eq]. }
  inversion Hc; subst; [congruence|]. inversion Hk as [args ss Hl|? ? ? ? Hs|]; subst; [by apply (help_no_line _ _ _ _ Ha) in Hl|done].
Qed.

(** A group whose subcommands take the configuration's flag. *)
Lemma config_group args dflt (k : string -> list string -> outcome) a :
  (forall sub rest, k sub rest = Run a -> exists ss, line configFlags rest ss []) -> has_prefix "-" dflt = false ->
  (if groupHelp args then Helped else let '(sub, rest) := subcommand args dflt in k sub rest) = Run a <-> exists sub rest, chooses dflt args sub rest /\ k sub rest = Run a.
Proof.
  intros Hk Hd. rewrite (group_run dflt args k a). split; [by intros [_ H]|]. intros (sub & rest & Hc & Hr). split; [|by exists sub, rest].
  destruct (groupHelp args) eqn:E; [|done]. apply groupHelp_inv in E as (x & -> & Hx & Hp). destruct (Hk _ _ Hr) as [ss Hl].
  inversion Hc; subst; [congruence|]. by apply help_no_line in Hl.
Qed.

Lemma configCmd_iff args a : configCmd args = Run a <->
  exists rest ss, line configFlags rest ss [] /\
    ((chooses "check" args "check" rest /\ a = ConfigCheck (config_of ss)) \/ (chooses "check" args "show-effective" rest /\ a = ConfigShow (config_of ss))).
Proof.
  unfold configCmd.
  rewrite (config_group args "check" (fun sub rest =>
    if String.eqb sub "check" then parseCommandFlags configFlags rest (fun ss => Run (ConfigCheck (config_of ss)))
    else if String.eqb sub "show-effective" then parseCommandFlags configFlags rest (fun ss => Run (ConfigShow (config_of ss))) else Refused)); [|intros sub rest; repeat case_match; try done; rewrite parseCommandFlags_run; naive_solver|done].
  split.
  - intros (sub & rest & Hc & Hk). destruct (String.eqb_spec sub "check") as [->|]; [|destruct (String.eqb_spec sub "show-effective") as [->|]; [|done]];
      apply parseCommandFlags_run in Hk as (ss & Hl & [= <-]); exists rest, ss; auto.
  - intros (rest & ss & Hl & [[Hc ->]|[Hc ->]]); eexists _, rest; (split; [done|]); cbn [String.eqb]; apply parseCommandFlags_run; by exists ss.
Qed.

(** The groups of one subcommand. *)
Lemma single_group sub args (mk : string -> action) a : has_prefix "-" sub = false ->
  (if groupHelp args then Helped else let '(s, rest) := subcommand args sub in
     if String.eqb s sub then parseCommandFlags configFlags rest (fun ss => Run (mk (config_of ss))) else Refused) = Run a <->
  exists rest ss, chooses sub args sub rest /\ line configFlags rest ss [] /\ a = mk (config_of ss).
Proof.
  intros Hs. rewrite (config_group args sub (fun s rest => if String.eqb s sub then parseCommandFlags configFlags rest (fun ss => Run (mk (config_of ss))) else Refused));
    [|intros s rest; case_match; [|done]; rewrite parseCommandFlags_run; naive_solver|done].
  split.
  - intros (s & rest & Hc & Hk). destruct (String.eqb_spec s sub) as [->|]; [|done]. apply parseCommandFlags_run in Hk as (ss & Hl & [= <-]). by exists rest, ss.
  - intros (rest & ss & Hc & Hl & ->). exists sub, rest. split; [done|]. rewrite String.eqb_refl. apply parseCommandFlags_run. by exists ss.
Qed.

Lemma keyCmd_iff args a : keyCmd args = Run a <->
  exists sub rest path c, chooses "list" args sub rest /\ key_line sub rest path c /\ a = KeyCommand sub path c.
Proof.
  unfold keyCmd. rewrite (group_run "list" args (fun sub rest =>
    if one_of ["create"; "list"; "enable"; "disable"; "revoke"] sub then
      match keyParseFlags sub rest with Err help => if help : bool then Helped else Refused | Ok (path, c) => Run (KeyCommand sub path c) end else Refused)).
  split.
  - intros (_ & sub & rest & Hc & Hk). destruct (one_of _ sub) eqn:Es; [|done]. destruct (keyParseFlags sub rest) as [[path c]|[]] eqn:E; [|done..].
    injection Hk as <-. exists sub, rest, path, c. split; [done|]. split; [by apply keyParseFlags_iff|done].
  - intros (sub & rest & path & c & Hc & Hk & ->). split.
    + destruct (groupHelp args) eqn:E; [|done]. apply groupHelp_inv in E as (x & -> & Hx & _). by apply (key_line_help x sub rest path c) in Hk.
    + exists sub, rest. split; [done|]. assert (one_of ["create"; "list"; "enable"; "disable"; "revoke"] sub = true) as Hs.
      { inversion Hk as [|? ? ? ? Hid|]; subst; [done| |done]. unfold one_of in *. cbn [existsb] in *. by rewrite Hid, !orb_true_r. }
      rewrite Hs. by apply keyParseFlags_iff in Hk as ->.
Qed.

Lemma installCmd_iff args a : installCmd args = Run a <->
  exists ss, line installFlags args ss [] /\ get_string "prefix" "/usr/local" ss <> "" /\ a = Install (get_string "prefix" "/usr/local" ss) (get_bool "systemd" false ss).
Proof.
  unfold installCmd. rewrite parseCommandFlags_run. split; intros (ss & Hl & Hk); exists ss; (split; [done|]).
  - cbv zeta in Hk. destruct (String.eqb_spec (get_string "prefix" "/usr/local" ss) ""); [done|]. by injection Hk as <-.
  - destruct Hk as [Hp ->]. cbv zeta. by rewrite (proj2 (String.eqb_neq _ _) Hp).
Qed.

Lemma topCmd_iff args a : topCmd args = Run a <->
  exists ss, line topFlags args ss [] /\ 0 < get_duration "interval" Second ss /\ a = Top (config_of ss) (get_duration "interval" Second ss) (get_bool "once" false ss).
Proof.
  unfold topCmd. rewrite parseCommandFlags_run. split; intros (ss & Hl & Hk); exists ss; (split; [done|]); cbv zeta in *.
  - destruct (Z.leb_spec (get_duration "interval" Second ss) 0); [done|]. by injection Hk as <-.
  - destruct Hk as [Hp ->]. by rewrite (proj2 (Z.leb_gt _ _) Hp).
Qed.


(** ** [sandbox check] and [serve] *)

Section Prediction.
Context {F : Type} `{Float64 F}.
Variable url_parse : string -> option URL.
Variables (m : mechanisms) (darwin : bool).
Implicit Types (cfg : Config (F := F)) (lns : list net_addr) (pol : Policy).

(** What [serve] does under the policy [pol], when [sandbox check] said [v]. *)
Definition foretells cfg lns pol (v : verdict) : Prop :=
  let b := platformSandbox m darwin cfg in
  let e := enforceSandbox url_parse b cfg lns in
  let applied r := e = if is_ok (A := unit) (E := apply_error) r then Confined pol else failClosed b in
  match v with
  | ModeIsDisabled => sb_mode b = ModeDisabled /\ e = Unconfined
  | WillEnforce abi => darwin = false /\ abi <= MaxABI /\ applied (landlock_Apply (mc_restrict m) abi pol)
  | WillEnforceProfile => darwin = true /\ applied (seatbelt_Apply (mc_symlinks m) (mc_compile m) (mc_sandbox m) pol)
  | NotEnforced => e = Unconfined
  | Fails => sb_mode b = ModeRequired /\ e = StartRefused
  | ReportOnly => sb_mode b = ""
  end.

Lemma check_platform cfg : check (platformSandbox m darwin cfg) = platform_report m darwin.
Proof. unfold platformSandbox, platform_report. by destruct darwin. Qed.

Lemma report_backend : is_landlock (platform_report m darwin) = negb darwin.
Proof. unfold platform_report, is_landlock, seatbelt_Check, landlock_Check. destruct darwin; [by destruct (mc_compile m _)|by destruct (mc_version m)]. Qed.

(** The verdict and the enforcement look at the same report. *)
Lemma ready_platform cfg (b := platformSandbox m darwin cfg) :
  sandbox_ok (MinimumABI (sec_Landlock (c_Security cfg))) (platform_report m darwin) = Supported (check b) && bool_decide (ready b (check b) = None).
Proof.
  unfold b, sandbox_ok. rewrite report_backend, check_platform, negb_involutive. f_equal. unfold platformSandbox. destruct darwin; cbn [ready orb]; [done|].
  destruct (Z.ltb_spec (KernelABI (platform_report m false)) (MinimumABI (sec_Landlock (c_Security cfg)))); [rewrite (proj2 (Z.leb_gt _ _)) by done|rewrite (proj2 (Z.leb_le _ _)) by done]; done.
Qed.

Lemma failClosed_verdict cfg lns pol (b := platformSandbox m darwin cfg) : sb_mode b <> ModeDisabled -> enforceSandbox url_parse b cfg lns = failClosed b ->
  foretells cfg lns pol (if String.eqb (sb_mode b) "" then ReportOnly else if negb (String.eqb (sb_mode b) ModeRequired) then NotEnforced else Fails).
Proof.
  intros Hd He. destruct (String.eqb_spec (sb_mode b) "") as [|_]; [done|]. unfold foretells. fold b. rewrite He. unfold failClosed.
  by destruct (String.eqb_spec (sb_mode b) ModeRequired).
Qed.

Lemma verdict_foretells cfg lns pol : sandboxPolicy url_parse cfg lns = Ok pol ->
  foretells cfg lns pol (sandbox_verdict (sb_mode (platformSandbox m darwin cfg)) (MinimumABI (sec_Landlock (c_Security cfg))) (platform_report m darwin)).
Proof.
  intros Hp. unfold sandbox_verdict. rewrite ready_platform, report_backend. set (b := platformSandbox m darwin cfg).
  assert (enforceSandbox url_parse b cfg lns = if String.eqb (sb_mode b) ModeDisabled then Unconfined else
    if Supported (check b) && bool_decide (ready b (check b) = None) then (if is_ok (apply b (check b) pol) then Confined pol else failClosed b) else failClosed b) as He.
  { unfold enforceSandbox. rewrite Hp. destruct (String.eqb (sb_mode b) ModeDisabled); [done|]. destruct (Supported (check b)); cbn [negb andb]; [|done].
    destruct (ready b (check b)); [done|]. rewrite bool_decide_true by done. by destruct (apply b (check b) pol). }
  destruct (String.eqb_spec (sb_mode b) ModeDisabled) as [Hd|Hd]; [by split|].
  destruct (Supported (check b) && bool_decide (ready b (check b) = None)) eqn:Eok; cbn [andb]; [|by apply failClosed_verdict].
  unfold foretells. fold b. rewrite He. unfold b in *. rewrite check_platform. clear. unfold platformSandbox. destruct darwin; cbn [negb apply].
  - done.
  - split; [done|]. split; [apply Z.le_min_r|done].
Qed.
End Prediction.


Module CliDemo.
Definition revoke_line : list string := ["key"; "revoke"; "--config"; "/etc/m.yaml"; "0f"].
Definition revoke_action : action := KeyCommand "revoke" "/etc/m.yaml" (mkFlags "0f" "" None 0 (f_of_Z 0) 0).

(** Mode best-effort, a kernel without Landlock, a backend whose port no TCP
    connection can have. *)
Definition cfg : Config (F := QArith_base.Q) :=
  let b := SandboxDemo.base in
  mkConfig (Config.Version b) (c_Server b) (c_Auth b) (c_Security b) (c_Logging b) (c_Accounting b) (c_Limits b) (c_Shutdown b) (c_Responses b) (c_Retry b)
    {["qwen/gpu" := SandboxDemo.bad_backend]} (c_Models b).
Definition m : mechanisms := mkMechanisms (Err "function not implemented") (fun _ _ => None) (fun _ => None) (fun _ => None) (fun _ => None).
End CliDemo.


(** The result of [sandbox check] is said to be what [serve] would do; it does
    not look at the backends' ports. *)
Example check_misses_ports :
  sandbox_verdict (sb_mode (platformSandbox CliDemo.m false CliDemo.cfg)) (MinimumABI (sec_Landlock (c_Security CliDemo.cfg))) (platform_report CliDemo.m false) = NotEnforced /\
  enforceSandbox SandboxDemo.urls (platformSandbox CliDemo.m false CliDemo.cfg) CliDemo.cfg [] = StartRefused.
Proof. split; vm_compute; reflexivity. Qed.
