(* ===== verification/Wire.v ===== *)
(** * What crosses the wire: upstream requests, buffered replies, log text

    The request [Forward] of [internal/backend/backend.go] sends to a backend
    and the headers [internal/proxy/proxy.go] lets through, the relay of a
    buffered body to a client that may stall, and the text of log lines a
    client has a part in. *)

From Stdlib Require Import Ascii.
From S2P Require Import Prelude GoStrings Net Json Utf8 Config Backend Prog.
#[local] Open Scope Z_scope.

(** ** Requests to a backend *)

(** [http.Header]: canonical names, each with its values. *)
Notation header := (gmap string (list string)).
(** [Header.Get]. *)
Definition Get (h : header) (name : string) : string := match h !! name with Some (v :: _) => v | _ => "" end.

(* src: internal/proxy/proxy.go passthroughHeaders *)
Definition passthroughHeaders (h : header) : header :=
  let out : header := ∅ in
  let out := if String.eqb (Get h "User-Agent") "" then out else <["User-Agent" := [Get h "User-Agent"]]> out in
  if String.eqb (Get h "Accept") "" then out else <["Accept" := [Get h "Accept"]]> out.

(** A body, if there is one, is JSON. *)
(* src: internal/proxy/proxy.go 318-321 Proxy.dispatch *)
Definition forward_headers (h : header) (has_body : bool) : header :=
  if has_body then <["Content-Type" := ["application/json"]]> (passthroughHeaders h) else passthroughHeaders h.

(** [strings.TrimLeft(s, "/")]. *)
Fixpoint trim_slashes (s : string) : string :=
  match s with String c r => if Ascii.eqb c "/" then trim_slashes r else s | "" => "" end.

(* src: internal/backend/backend.go 628-632 Client.Forward *)
Definition upstream_url (base : URL) (path : string) : URL :=
  let path := if String.eqb (u_Path base) "" then path else u_Path base +:+ trim_slashes path in
  mkURL (u_Scheme base) false (u_Host base) path "" "".

(** [Header.Add] of every value, then the backend's own secret. *)
(* src: internal/backend/backend.go 665-672 Client.Forward *)
Definition upstream_headers (given : header) (apiKey : string) : header :=
  if String.eqb apiKey "" then given else <["Authorization" := ["Bearer " +:+ apiKey]]> given.

(** [o_live] is the client whose header bound is [header_timeout]. *)
Record outgoing := mkOutgoing { o_method : string; o_url : URL; o_header : header; o_body : string; o_live : bool }.

(* src: internal/backend/backend.go Request *)
Record Request := mkRequest { rq_Method : string; rq_Path : string; rq_Body : string; rq_Headers : header; rq_Stream : bool }.

(* src: internal/backend/backend.go 628-682 Client.Forward *)
Definition outgoing_request (base : URL) (apiKey : string) (r : Request) : outgoing :=
  mkOutgoing (rq_Method r) (upstream_url base (rq_Path r)) (upstream_headers (rq_Headers r) apiKey) (rq_Body r) (rq_Stream r).

(** A request on a client's behalf. *)
Definition sent (client : header) (base : URL) (apiKey method path body : string) (has_body stream : bool) : outgoing :=
  outgoing_request base apiKey (mkRequest method path body (forward_headers client has_body) stream).

Lemma slashes_api path : has_prefix "/v1/" path = true -> "/" +:+ trim_slashes path = path.
Proof. intros H%has_prefix_inv. rewrite H. done. Qed.

Lemma base_path url_parse raw base : parseBaseURL url_parse raw = Ok base -> u_Path base = "" \/ u_Path base = "/".
Proof.
  unfold parseBaseURL. destruct (url_parse raw) as [u|]; [|done]. destruct (negb (String.eqb (u_Path u) "") && negb (String.eqb (u_Path u) "/")) eqn:E.
  - by repeat case_match.
  - intros Hu. assert (u = base) as -> by (repeat case_match; try done; by injection Hu).
    apply andb_false_iff in E as [E|E]; apply negb_false_iff, String.eqb_eq in E; auto.
Qed.

(** C17: A backend sees what the operator configured and no more of a client
    than it must. Whatever headers a client sends: the request goes to the
    scheme and host of the backend's base URL, under exactly the API path, with
    no query, fragment or userinfo; it carries the client's first User-Agent
    and Accept if they are not empty, a Content-Type if there is a body, the
    backend's own secret as its only credential if one is configured, and no
    other header (but what [net/http] adds to every request).  In particular the client's key never reaches a backend,
    and two clients that differ in nothing but other headers cannot be told
    apart. *)
Theorem upstream_request_exact url_parse raw base client apiKey method path body has_body stream :
  parseBaseURL url_parse raw = Ok base -> has_prefix "/v1/" path = true ->
  let o := sent client base apiKey method path body has_body stream in
  o_url o = mkURL (u_Scheme base) false (u_Host base) path "" "" /\
  (forall name, o_header o !! name =
     if String.eqb name "Authorization" then if String.eqb apiKey "" then None else Some ["Bearer " +:+ apiKey]
     else if String.eqb name "Content-Type" then if has_body then Some ["application/json"] else None
     else if String.eqb name "User-Agent" || String.eqb name "Accept" then if String.eqb (Get client name) "" then None else Some [Get client name]
     else None) /\
  (forall client', Get client' "User-Agent" = Get client "User-Agent" -> Get client' "Accept" = Get client "Accept" ->
     sent client' base apiKey method path body has_body stream = o).
Proof.
  intros Hbase Hpath. cbv zeta. split; [|split].
  - cbn. unfold upstream_url. destruct (String.eqb_spec (u_Path base) "") as [_|Hne]; [done|].
    assert (u_Path base = "/") as ->.
    { destruct (base_path url_parse raw base Hbase); [done|done]. }
    by rewrite slashes_api.
  - intros name. cbn. unfold upstream_headers, forward_headers, passthroughHeaders.
    destruct (String.eqb_spec name "Authorization") as [->|H1].
    { repeat case_match; rewrite ?lookup_insert_eq, ?lookup_insert_ne by done; done. }
    destruct (String.eqb_spec name "Content-Type") as [->|H2].
    { repeat case_match; rewrite ?lookup_insert_eq, ?lookup_insert_ne by done; rewrite ?lookup_insert_eq; done. }
    destruct (String.eqb_spec name "User-Agent") as [->|H3].
    { cbn. repeat case_match; rewrite ?lookup_insert_ne by done; rewrite ?lookup_insert_eq; done. }
    destruct (String.eqb_spec name "Accept") as [->|H4].
    { cbn. repeat case_match; rewrite ?lookup_insert_ne by done; rewrite ?lookup_insert_eq; done. }
    cbn. repeat case_match; rewrite ?lookup_insert_ne by (apply not_eq_sym; assumption); done.
  - intros client' E1 E2. unfold sent, forward_headers, passthroughHeaders. by rewrite E1, E2.
Qed.

Definition demo_base (s : string) : option URL := Some (mkURL "http" false "127.0.0.1:8000" "/" "" "").
Definition demo_client : header :=
  <["Authorization" := ["Bearer client-key"]]> (<["User-Agent" := ["curl/8"; "spoofed"]]> (<["X-Forwarded-For" := ["10.0.0.1"]]> ∅)).

Lemma upstream_request_exact_witness :
  let o := sent demo_client (mkURL "http" false "127.0.0.1:8000" "/" "" "") "secret" "POST" "/v1/chat/completions" "{}" true false in
  u_Path (o_url o) = "/v1/chat/completions" /\ o_header o !! "Authorization" = Some ["Bearer secret"] /\
  o_header o !! "User-Agent" = Some ["curl/8"] /\ o_header o !! "X-Forwarded-For" = None.
Proof.
  destruct (upstream_request_exact demo_base "" (mkURL "http" false "127.0.0.1:8000" "/" "" "") demo_client "secret" "POST" "/v1/chat/completions" "{}" true false eq_refl eq_refl)
    as (Hu & Hh & _).
  split; [rewrite Hu; reflexivity|]. split; [rewrite Hh; reflexivity|]. split; [rewrite Hh; vm_compute; reflexivity|rewrite Hh; reflexivity].
Defined.

(** ** A buffered body, to a client that may stall

    The connection: what the client has been sent, its write deadline, and
    what has gone wrong. A deadline is fresh when it was set after the last
    write. *)

Inductive deadline := NoDeadline | Fresh | Old.
(** [cn_refused]: the connection would not take a deadline; [cn_broken]: a
    write has failed; [cn_bare]: a write was made without a fresh deadline. *)
Record conn := mkConn { cn_sent : string; cn_deadline : deadline; cn_refused : bool; cn_broken : bool; cn_bare : bool }.
Definition idle_conn : conn := mkConn "" NoDeadline false false false.

Inductive wop := SetDeadline (clear : bool) | WriteChunk (data : string).
(** Whether it worked. *)
Definition wans (_ : wop) : Type := bool.
Notation wprog := (Prog.prog wans).

Definition after_write (n : nat) (data : string) (ok : bool) (c : conn) : conn :=
  mkConn (cn_sent c +:+ stake n data) (match cn_deadline c with NoDeadline => NoDeadline | _ => Old end) (cn_refused c) (cn_broken c || negb ok)
    (cn_bare c || match cn_deadline c with Fresh => false | _ => true end).

(** A write that fails may have sent part of its data. *)
Definition wbehaves (o : wop) (c : conn) : wans o -> conn -> Prop :=
  match o return wans o -> conn -> Prop with
  | SetDeadline clear => fun ok c' =>
      c' = if (ok : bool) then mkConn (cn_sent c) (if clear then NoDeadline else Fresh) (cn_refused c) (cn_broken c) (cn_bare c)
           else mkConn (cn_sent c) (cn_deadline c) true (cn_broken c) (cn_bare c)
  | WriteChunk data => fun ok c' => exists n, (if (ok : bool) then n = String.length data else (n <= String.length data)%nat) /\ c' = after_write n data ok c
  end.

Definition writeChunk : nat := 32768.

(** At most [n] turns: whether deadlines still work, and whether the write did;
    [None] would be a loop that is not over. *)
(* src: internal/proxy/proxy.go 538-544 Proxy.writeBuffered *)
Fixpoint write_chunks (size n : nat) (deadlineOK : bool) (rest : string) : wprog (option (bool * bool)) :=
  if String.eqb rest "" then Ret (Some (deadlineOK, true))
  else match n with
  | O => Ret None
  | S n =>
      let! deadlineOK := (if deadlineOK then call (SetDeadline false) else Ret false) in
      let! ok := call (WriteChunk (stake size rest)) in
      if (ok : bool) then write_chunks size n deadlineOK (sdrop size rest) else Ret (Some (deadlineOK, false))
  end.

Definition write_all (size : nat) (body : string) : wprog bool :=
  let! deadlineOK := call (SetDeadline false) in
  let! r := write_chunks size (String.length body) deadlineOK body in
  match r with
  | None => Ret false
  | Some (deadlineOK, ok) =>
      if deadlineOK && ok then let! _ := call (SetDeadline true) in Ret true else Ret true
  end.

(** The result says that the loop came to its end. *)
(* src: internal/proxy/proxy.go Proxy.writeBuffered *)
Definition writeBuffered (body : string) : wprog bool := write_all writeChunk body.

Section Buffered.
Variables (size : nat) (body : string).
Hypothesis Hsize : (0 < size)%nat.
Notation always := (Prog.always eq wbehaves (fun c => exists rest, body = cn_sent c +:+ rest)).

(** In the loop, with [rest] to go. *)
Record relaying (rest : string) (deadlineOK : bool) (c : conn) : Prop := {
  re_sent : body = cn_sent c +:+ rest;
  re_whole : cn_broken c = false;
  re_deadline : deadlineOK = negb (cn_refused c);
  re_bare : cn_refused c = false -> cn_bare c = false /\ cn_deadline c <> NoDeadline
}.

(** How it ends. *)
Definition relayed (c : conn) : Prop :=
  (cn_broken c = false -> cn_sent c = body) /\
  (cn_refused c = false -> cn_bare c = false /\ cn_deadline c = if cn_broken c then Old else NoDeadline).

Definition through (r : option (bool * bool)) (c : conn) : Prop :=
  match r with
  | None => False
  | Some (deadlineOK, true) => relaying "" deadlineOK c
  | Some (deadlineOK, false) => deadlineOK = negb (cn_refused c) /\ cn_broken c = true /\ (cn_refused c = false -> cn_bare c = false /\ cn_deadline c = Old)
  end.

(** With a fresh deadline, or none to be had. *)
Lemma chunk_written rest n deadlineOK c : relaying rest deadlineOK c -> (cn_refused c = false -> cn_deadline c = Fresh) -> rest <> "" ->
  (forall ok c', relaying (sdrop size rest) ok c' -> always through (write_chunks size n ok (sdrop size rest)) c') ->
  always through (let! ok := call (WriteChunk (stake size rest)) in
    if (ok : bool) then write_chunks size n deadlineOK (sdrop size rest) else Ret (Some (deadlineOK, false))) c.
Proof.
  intros [H1 H2 H3 H4] Hf Hne IH c1 ok c2 <- (k & Hk & ->). unfold after_write. cbn [cn_sent]. destruct ok.
  - subst k. rewrite (stake_all (String.length (stake size rest))) by lia.
    assert (body = (cn_sent c +:+ stake size rest) +:+ sdrop size rest) as Hb by (by rewrite sapp_assoc, stake_sdrop).
    split; [by eexists|]. apply IH. constructor; cbn; [done|by rewrite H2|done|]. intros Hr. destruct (H4 Hr) as [Hbare _]. rewrite (Hf Hr), Hbare. done.
  - split; [exists (sdrop k (stake size rest) +:+ sdrop size rest); rewrite sapp_assoc, <- (sapp_assoc (stake k _)), stake_sdrop, stake_sdrop; exact H1|].
    cbn. split; [done|]. split; [by rewrite orb_true_r|]. intros Hr. destruct (H4 Hr) as [Hbare _]. rewrite (Hf Hr), Hbare. done.
Qed.

Lemma chunks_spec n : forall rest deadlineOK c, relaying rest deadlineOK c -> (String.length rest <= n)%nat -> always through (write_chunks size n deadlineOK rest) c.
Proof.
  induction n as [|n IH]; intros rest deadlineOK c Hr Hn; cbn [write_chunks]; (destruct (String.eqb_spec rest "") as [->|Hne]; [done|]).
  { destruct rest; [done|cbn in Hn; lia]. }
  assert (String.length (sdrop size rest) <= n)%nat as Hlen.
  { pose proof (f_equal String.length (stake_sdrop size rest)) as Hl. rewrite slen_app, stake_length in Hl. destruct rest; [done|]. cbn [String.length] in *. lia. }
  pose proof Hr as [H1 H2 H3 H4]. destruct deadlineOK.
  - intros c1 ok c2 <- Hb. cbn in Hb. subst c2. assert (cn_refused c = false) as Hf by (symmetry in H3; by apply negb_true_iff). split; [destruct ok; by exists rest|].
    apply (chunk_written rest n ok); try done; [|by destruct ok|by intros; apply IH].
    destruct (H4 Hf) as [? ?]. destruct ok; constructor; cbn; rewrite ?Hf; done.
  - apply (chunk_written rest n false c Hr); try done; [|by intros; apply IH]. intros Hf. by rewrite Hf in H3.
Qed.

Lemma all_spec : always (fun r c => r = true /\ relayed c) (write_all size body) idle_conn.
Proof.
  intros c1 ok c2 <- Hb. cbn in Hb. subst c2. split; [destruct ok; by exists body|]. cbn [bind]. apply always_bind.
  assert (relaying body ok (if ok then mkConn "" Fresh false false false else mkConn "" NoDeadline true false false)) as H0 by (destruct ok; by constructor).
  eapply always_mono; [|apply (chunks_spec _ body ok); [by destruct ok|done]].
  intros [[deadlineOK []]|] c Hc; [| |done]; cbn in Hc.
  - destruct Hc as [H1 H2 H3 H4]. rewrite sapp_nil_r in H1. rewrite andb_true_r. destruct deadlineOK.
    + intros c3 ok3 c4 <- Hb. cbn in Hb. subst c4. destruct (cn_refused c) eqn:Hf; [done|]. destruct (H4 eq_refl) as [Hb _].
      destruct ok3; cbn; (split; [exists ""; by rewrite sapp_nil_r|]); (split; [done|]); (split; [done|]); [by rewrite H2|done].
    + split; [done|]. split; [done|]. intros Hf. by rewrite Hf in H3.
  - destruct Hc as (H3 & H2 & H4). rewrite andb_false_r. split; [done|]. split; [by rewrite H2|]. intros Hf. rewrite H2. by apply H4.
Qed.
End Buffered.

(** A stalled reader cannot hold a connection, and a slow one is not cut off.
    However the writes of a buffered body go and whether or not the
    connection takes deadlines: the relay comes to an end; what the client has
    been sent is always a beginning of the body, and all of it if no write
    failed; no write is made without a deadline set for it, as long as the
    connection takes them; and afterwards the deadline is gone after a
    complete body, and left in place after a failed write, so that nothing
    else waits for that client. *)
Theorem buffered_relayed body q c : rtc (Prog.step eq wbehaves) (writeBuffered body, idle_conn) (q, c) ->
  (exists rest, body = cn_sent c +:+ rest) /\
  forall r, q = Ret r -> r = true /\ (cn_broken c = false -> cn_sent c = body) /\
    (cn_refused c = false -> cn_bare c = false /\ cn_deadline c = if cn_broken c then Old else NoDeadline).
Proof.
  intros Hr. assert (0 < writeChunk)%nat as Hpos by (unfold writeChunk; apply Nat.ltb_lt; vm_compute; reflexivity).
  destruct (always_adequate _ _ _ _ _ _ _ _ (all_spec writeChunk body Hpos) (ex_intro _ body eq_refl) Hr) as [H Hq]. split; [exact H|].
  intros r ->. exact Hq.
Qed.

(** A connection that takes deadlines and one whose third write fails. *)
Definition steady (o : wop) (c : conn) : wans o * conn :=
  match o return wans o * conn with
  | SetDeadline clear => (true, mkConn (cn_sent c) (if clear then NoDeadline else Fresh) (cn_refused c) (cn_broken c) (cn_bare c))
  | WriteChunk data => (true, after_write (String.length data) data true c)
  end.
Definition stalled (o : wop) (c : conn) : wans o * conn :=
  match o return wans o * conn with
  | SetDeadline _ => (false, mkConn (cn_sent c) (cn_deadline c) true (cn_broken c) (cn_bare c))
  | WriteChunk data => (false, after_write 1 data false c)
  end.
Definition relay_demo (plan : list bool) : bool * conn := Prog.run steady stalled (fun c => c) plan (write_all 4 "0123456789") idle_conn.

Example relays :
  map relay_demo [[]; [false; false; false; false; false; false; true]; [true]]
  = [(true, mkConn "0123456789" NoDeadline false false false);
     (true, mkConn "012345678" Old false true false);
     (true, mkConn "0123456789" NoDeadline true false true)].
Proof. vm_compute. reflexivity. Qed.

(** ** The text of log lines *)

(** [strings.ToLower] as far as its result can be ASCII: two letters outside
    of ASCII have an ASCII lower case. *)
Definition lower_rune (u : Z) : Z :=
  if (65 <=? u) && (u <=? 90) then u + 32 else if u =? 304 then 105 else if u =? 8490 then 107 else u.
Definition lowered (s : string) : string := encode (map lower_rune (runes (TrimSpace s))).

Inductive level := LevelDebug | LevelInfo | LevelWarn | LevelError.
Inductive format := FormatJSON | FormatText.

(* src: internal/logging/logging.go ParseLevel *)
Definition ParseLevel (s : string) : option level :=
  let s := lowered s in
  if String.eqb s "debug" then Some LevelDebug
  else if String.eqb s "info" then Some LevelInfo
  else if String.eqb s "warn" then Some LevelWarn
  else if String.eqb s "error" then Some LevelError
  else None.

(* src: internal/logging/logging.go ParseFormat *)
Definition ParseFormat (s : string) : option format :=
  let s := lowered s in
  if String.eqb s "json" then Some FormatJSON else if String.eqb s "text" then Some FormatText else None.

(* src: internal/logging/logging.go New *)
Definition new_logger (lvl fmt : string) : option (level * format) :=
  match ParseLevel lvl with
  | None => None
  | Some l => match ParseFormat fmt with None => None | Some f => Some (l, f) end
  end.

(* src: cmd/mellomting/serve.go newDaemonLogger *)
Definition newDaemonLogger (l : Config.Logging) : option (level * format) := new_logger (log_Level l) (log_Format l).

(** Whatever passes the configuration's checks makes a logger. *)
Theorem valid_logging_builds l : validateLogging l = [] -> is_Some (newDaemonLogger l).
Proof.
  destruct l as [fmt lvl]. unfold validateLogging, newDaemonLogger, new_logger. cbn [log_Format log_Level].
  destruct (one_of _ fmt) eqn:Ef; [|done]. destruct (one_of _ lvl) eqn:El; [|done]. intros _.
  unfold one_of in Ef, El. cbn [existsb] in Ef, El.
  repeat (apply orb_true_iff in El as [El|El]); try done; apply String.eqb_eq in El; subst lvl;
  repeat (apply orb_true_iff in Ef as [Ef|Ef]); try done; apply String.eqb_eq in Ef; subst fmt; by eexists.
Qed.

(* src: internal/proxy/proxy.go 1116-1116 maxUserAgentBytes *)
Definition maxUserAgentBytes : nat := 200.

(** [strings.Map]: the other runes as they are, an invalid byte as U+FFFD. *)
(* src: internal/proxy/proxy.go userAgent *)
Definition userAgent (client : header) : string :=
  let ua := Get client "User-Agent" in
  let ua := if (maxUserAgentBytes <? String.length ua)%nat then stake maxUserAgentBytes ua else ua in
  encode (List.filter (fun c => negb (IsControl c)) (runes ua)).

Lemma runes_count s : (length (runes s) <= String.length s)%nat.
Proof.
  induction s as [s IH] using (induction_ltof1 _ String.length). unfold ltof in IH. destruct s as [|a r]; [done|]. cbn [runes].
  destruct (utf8_width (String a r)) as [|[|[|[|[|n]]]]]; destruct r as [|b [|c [|d r4]]]; cbn [length String.length];
    try match goal with |- context [length (runes ?t)] => pose proof (IH t ltac:(cbn; lia)) end; cbn [String.length] in *; try lia.
  all: cbn [runes length]; lia.
Qed.

Lemma utf8_encode_length u : (String.length (utf8_encode u) <= 4)%nat.
Proof. unfold utf8_encode. repeat case_match; cbn; lia. Qed.

Lemma encode_length l : (String.length (encode l) <= 4 * length l)%nat.
Proof. induction l as [|u l IH]; [done|]. cbn [encode foldr length]. rewrite slen_app. pose proof (utf8_encode_length u). unfold encode in IH. lia. Qed.

(** What a client's User-Agent puts into a log: valid UTF-8 without a control
    character, of bounded length. (The bound of 200 bytes is that of the
    header; an invalid byte is logged as the three of U+FFFD.) *)
Theorem user_agent_harmless client :
  Forall (fun u => scalar u = true /\ IsControl u = false) (runes (userAgent client)) /\ valid_utf8 (userAgent client) = true /\
  (String.length (userAgent client) <= 4 * maxUserAgentBytes)%nat.
Proof.
  unfold userAgent. set (ua := if (_ <? _)%nat then _ else _).
  assert (Forall (fun u => scalar u = true /\ IsControl u = false) (List.filter (fun c => negb (IsControl c)) (runes ua))) as Hall.
  { apply Forall_forall. intros u Hu. apply list_elem_of_In, filter_In in Hu as [Hu Hc]. apply negb_true_iff in Hc. split; [|done].
    pose proof (runes_scalar ua) as Hs. rewrite Forall_forall in Hs. apply Hs. by apply list_elem_of_In. }
  assert (Forall (fun u => scalar u = true) (List.filter (fun c => negb (IsControl c)) (runes ua))) as Hsc by (eapply Forall_impl; [exact Hall|]; by intros u []).
  destruct (runes_encode _ Hsc) as [Hr Hv]. rewrite Hr. split; [exact Hall|]. split; [exact Hv|].
  pose proof (encode_length (List.filter (fun c => negb (IsControl c)) (runes ua))) as Hl. pose proof (List.filter_length_le (fun c => negb (IsControl c)) (runes ua)).
  pose proof (runes_count ua). assert (String.length ua <= maxUserAgentBytes)%nat; [|lia].
  unfold ua. destruct (Nat.ltb_spec maxUserAgentBytes (String.length (Get client "User-Agent"))); [rewrite stake_length|]; lia.
Qed.

(** A recovered panic: an error's text whole, a string cut short. *)
Inductive panic_value := PanicError (text : string) | PanicString (text : string) | PanicOther (printed : string).
(* src: internal/httpapi/server.go sanitizePanic *)
Definition sanitizePanic (v : panic_value) : string :=
  match v with
  | PanicError s => s
  | PanicString s => if (200 <? String.length s)%nat then stake 200 s else s
  | PanicOther s => s
  end.

(** What [mellomting version] prints of the values set at build time. *)
(* src: internal/version/version.go String *)
Definition version_String (Version Commit Date go : string) : string :=
  if negb (String.eqb Date "") then "mellomting " +:+ Version +:+ " (commit " +:+ Commit +:+ ", built " +:+ Date +:+ ", " +:+ go +:+ ")"
  else "mellomting " +:+ Version +:+ " (commit " +:+ Commit +:+ ", " +:+ go +:+ ")".
Example version_ex : version_String "0.0.0-dev" "unknown" "" "go1.26" = "mellomting 0.0.0-dev (commit unknown, go1.26)".
Proof. reflexivity. Qed.
