(* ===== verification/Serve.v ===== *)
(** * Serving: the listener and the connections ([cmd/mellomting/serve.go])

    The Unix listener and its stale socket, on the file system of [Host.v],
    and the cap on open connections that the connection-state callback
    keeps. *)

From S2P Require Import Prelude GoStrings Net Config Paths Prog Host Replace.
From Stdlib Require Import Ascii.
#[local] Open Scope Z_scope.

(** ** The Unix listener *)

Inductive listen_error := LMode | LSymlink | LNotSocket | LLive | LRemove | LListen | LChmod.

(** A dial that succeeds found a listener; the connection is closed. *)
(* src: cmd/mellomting/serve.go isSocketLive *)
Definition isSocketLive (addr : string) : prog bool := let! r := call (Dial addr) in Ret (is_ok r).

(** Closing a Unix listener of package [net] unlinks its path. *)
Definition close_listener {A} (fd : Z) (path : string) (a : A) : prog A :=
  let! _ := call (Remove path) in let! _ := call (Close fd) in Ret a.

(** The mode of the socket, when it is one. *)
(* src: cmd/mellomting/serve.go 498-505 safeUnixListen *)
Definition socket_mode (l : Listen) : option Z :=
  match ParseUint (if String.eqb (l_Mode l) "" then DefaultUnixSocketMode else l_Mode l) 8 16 with
  | Some mode => if (mode =? 0) || (511 <? mode) then None else Some mode    (* 0o777 *)
  | None => None
  end.

(* src: cmd/mellomting/serve.go 522-532 safeUnixListen *)
Definition bind_socket (path : string) (mode : Z) : prog (result listen_error Z) :=
  let! r := call (ListenUnix path) in
  match r with
  | Err _ => Ret (Err LListen)
  | Ok fd =>
      let! r := call (Chmod path mode) in
      match r with
      | Err _ => close_listener fd path (Err LChmod)
      | Ok _ => Ret (Ok fd)
      end
  end.

(* src: cmd/mellomting/serve.go safeUnixListen *)
Definition safeUnixListen (l : Listen) : prog (result listen_error Z) :=
  let path := l_Address l in
  match socket_mode l with
  | None => Ret (Err LMode)
  | Some mode =>
      let! r := call (Lstat path) in
      match r with
      | Err _ => bind_socket path mode
      | Ok st =>
          if is_link st then Ret (Err LSymlink)
          else if negb (bool_decide (fi_kind st = KSocket)) then Ret (Err LNotSocket)
          else
            let! live := isSocketLive path in
            if (live : bool) then Ret (Err LLive)
            else
              let! r := call (Remove path) in
              match r with Err _ => Ret (Err LRemove) | Ok _ => bind_socket path mode end
      end
  end.

Lemma socket_mode_range l mode : socket_mode l = Some mode -> 1 <= mode <= 511.
Proof.
  unfold socket_mode. destruct (ParseUint _ 8 16) as [m|] eqn:E; [|done]. apply ParseUint_nonneg in E; [|done].
  destruct (Z.eqb_spec m 0), (Z.ltb_spec 511 m); cbn; try done. intros [= <-]. lia.
Qed.

Section Listener.
Variables (path : string) (v0 : host).
Hypothesis Hmine : h_mine v0 = ∅.

(** What may be replaced: nothing, or a socket. *)
Definition replaceable : Prop :=
  h_names v0 !! path = None \/ exists k n, h_names v0 !! path = Some k /\ h_nodes v0 !! k = Some n /\ n_kind n = KSocket.
(** Our socket is at the path. *)
Definition ours (v : host) (k : Z) : Prop := h_names v !! path = Some k /\ k ∈ h_mine v /\ exists n, h_nodes v !! k = Some n /\ n_kind n = KSocket.

Definition guarded (v : host) : Prop :=
  (h_mine v = ∅ /\ kept path v0 v) \/ (replaceable /\ (h_names v !! path = None \/ exists k, ours v k)).

Notation always := (Prog.always (respects path) behaves guarded).
Definition untouched (v : host) : Prop := h_mine v = ∅ /\ kept path v0 v.
Definition vacant (v : host) : Prop := replaceable /\ h_mine v = ∅ /\ h_names v !! path = None.

Lemma untouched_others v v' : untouched v -> respects path v v' -> untouched v'.
Proof. intros [Hm Hk] [(d & nodes & -> & _) He]. split; [done|]. by eapply same_entry_trans. Qed.
Lemma untouched_fault v : untouched v -> untouched (fault v).
Proof. done. Qed.
Lemma vacant_others v v' : vacant v -> respects path v v' -> vacant v'.
Proof. intros (Hr & Hm & Hn) [(d & nodes & -> & _) [He _]]. split; [done|]. split; [done|]. congruence. Qed.
Lemma vacant_guarded v : vacant v -> guarded v.
Proof. intros (Hr & _ & Hn). right. auto. Qed.
Lemma ours_others v v' k : ours v k -> respects path v v' -> ours v' k.
Proof.
  intros (Hk & Hm & n & Hn & Hs) [(d & nodes & -> & _) [He1 He2]]. split; [by rewrite He1|]. split; [done|]. exists n. by rewrite He2.
Qed.

(** Bound at [fd] with the mode; a refusal changes nothing. *)
Definition bound (mode : Z) (r : result listen_error Z) (v : host) : Prop :=
  match r with
  | Ok fd => exists k n, h_fds v !! fd = Some k /\ h_names v !! path = Some k /\ k ∈ h_mine v /\ h_nodes v !! k = Some n /\ n_kind n = KSocket /\ n_perm n = mode
  | Err (LListen | LChmod) => True
  | Err _ => untouched v
  end.
Definition listen_ended (mode : Z) (r : result listen_error Z) (v : host) : Prop := guarded v /\ bound mode r v.

(** Any error will do where the path is guarded. *)
Lemma removed_guarded v : (exists k, ours v k) \/ h_names v !! path = None -> replaceable ->
  always (fun _ v' => guarded v') (call (Remove path)) v.
Proof.
  intros Hv Hr v1 r v2 Hi Hb. assert ((exists k, ours v1 k) \/ h_names v1 !! path = None) as Hv1.
  { destruct Hv as [[k Hk]|Hn]; [left; exists k; by eapply ours_others|right]. destruct Hi as [_ [He _]]. congruence. }
  enough (guarded v2) by done. right. split; [done|]. destruct r as [[]|e]; cbn in Hb.
  - destruct Hb as [_ ->]. left. cbn. by rewrite lookup_delete_eq.
  - assert (v2 = v1 \/ v2 = fault v1) as [->| ->] by (destruct e; naive_solver); destruct Hv1 as [Hk|Hn]; auto.
Qed.

Lemma close_ended mode fd v : (exists k, ours v k) -> replaceable -> always (listen_ended mode) (close_listener fd path (Err LChmod)) v.
Proof.
  intros Hv Hr. unfold close_listener. apply always_bind. eapply always_mono, removed_guarded; [|by left|done].
  intros r0 v1 Hv1 v2 r v3 Hi Hb. cbn beta in Hv1. clear r0. assert (guarded v2) as Hv2.
  { destruct Hv1 as [Hu|[_ Hn]]; [left; by eapply untouched_others|right; split; [done|]]. destruct Hn as [Hn|[k Hk]]; [left; destruct Hi as [_ [He _]]; congruence|right; exists k; by eapply ours_others]. }
  assert (guarded v3) as Hv3.
  { destruct r as [[]|e']; cbn in Hb; [subst v3; exact Hv2|]. destruct Hb as [-> | ->]; exact Hv2. }
  split; [done|]. by split.
Qed.

Lemma bind_spec mode v : untouched v \/ vacant v -> always (listen_ended mode) (bind_socket path mode) v.
Proof.
  intros Hv v1 r v2 Hi Hb. assert (untouched v1 \/ vacant v1) as Hv1 by (destruct Hv as [Hv|Hv]; [left; by eapply untouched_others|right; by eapply vacant_others]).
  destruct r as [fd|e]; cbn in Hb.
  2: { subst v2. assert (guarded (fault v1)) as Hg by (destruct Hv1 as [Hv1|Hv1]; [by left|right; destruct Hv1 as (? & _ & ?); auto]). split; [done|]. by split. }
  destruct Hb as (k & n & h1 & Hkind & _ & (Hn & Hun & ->) & Hfd & ->). assert (replaceable) as Hr.
  { destruct Hv1 as [[_ [He _]]|(Hr & _)]; [left; congruence|done]. }
  set (v2 := set_fds _ _). assert (ours v2 k) as Ho.
  { split; [cbn; by rewrite lookup_insert_eq|]. split; [cbn; set_solver|]. exists n. cbn. by rewrite lookup_insert_eq. }
  assert (guarded v2) as Hg by (right; eauto). split; [done|].
  intros v3 r v4 Hi3 Hb3. pose proof (ours_others _ _ _ Ho Hi3) as Ho3. assert (h_fds v3 !! fd = Some k) as Hfd3.
  { destruct Hi3 as [(d & nodes & -> & _) _]. cbn. by rewrite lookup_insert_eq. }
  destruct r as [[]|e]; cbn in Hb3.
  - destruct Hb3 as (k3 & n3 & (Hk3 & Hl3 & k0 & n0 & Hp0 & Hn0 & Hsame & _) & ->). pose proof Ho3 as (Hp3 & Hm3 & m3 & Hm & Hs3).
    assert (k0 = k) as -> by congruence. assert (n0 = m3) as -> by congruence. assert (k3 = k) as -> by (apply Hsame; congruence). assert (n3 = m3) as -> by congruence.
    assert (ours (set_node k (with_perm mode m3) v3) k) as Ho4.
    { split; [done|]. split; [done|]. exists (with_perm mode m3). cbn. by rewrite lookup_insert_eq. }
    assert (guarded (set_node k (with_perm mode m3) v3)) as Hg4 by (right; eauto). split; [done|]. split; [done|].
    exists k, (with_perm mode m3). cbn. rewrite lookup_insert_eq. by split_and!.
  - subst v4. assert (guarded (fault v3)) as Hg4 by (right; split; [done|right; by exists k]). split; [done|]. apply close_ended; [by exists k|done].
Qed.

Lemma listen_spec l : l_Address l = path ->
  always (fun r v => guarded v /\ match socket_mode l with Some mode => bound mode r v | None => r = Err LMode /\ untouched v end) (safeUnixListen l) v0.
Proof.
  intros Hl. assert (untouched v0) as H0 by done. assert (forall v, untouched v -> guarded v) as Hug by (by left).
  unfold safeUnixListen. rewrite Hl. destruct (socket_mode l) as [mode|]; [|split; [by left|done]].
  intros v1 r v2 Hi Hb. pose proof (untouched_others _ _ H0 Hi) as H1. destruct r as [st|e].
  2: { assert (untouched v2) as H2 by (assert (v2 = v1 \/ v2 = fault v1) as [-> | ->] by (cbn in Hb; destruct e; naive_solver); done). split; [by apply Hug|]. apply bind_spec. by left. }
  cbn in Hb. destruct Hb as [(k & n & Hk & Hn & ->) ->]. split; [by apply Hug|]. cbn [bind]. unfold is_link. cbn [fi_kind info_of]. case_bool_decide as Elink; [by split; [apply Hug|]|].
  case_bool_decide as Es; cbn [negb]; [|by split; [apply Hug|]].
  assert (replaceable) as Hr. { right. exists k, n. destruct H1 as [_ [He1 He2]]. rewrite <- He1. split; [done|]. split; [|done]. rewrite <- He2; [done|]. by rewrite <- He1. }
  intros v3 r v4 Hi3 Hb3. pose proof (untouched_others _ _ H1 Hi3) as H3.
  assert (untouched v4) as H4 by (destruct r; cbn in Hb3; [by destruct Hb3 as [_ ->]|by destruct Hb3 as [[_ ->]| ->]]). clear Hb3 H3 Hi3 v3. split; [by apply Hug|]. cbn [bind].
  destruct (is_ok r); [by split; [apply Hug|]|]. intros v5 x v6 Hi5 Hb5. pose proof (untouched_others _ _ H4 Hi5) as H5. destruct x as [[]|e]; cbn in Hb5.
  - destruct Hb5 as [_ ->]. assert (vacant (set_names (delete path (h_names v5)) v5)) as Hva by (split; [done|]; split; [apply H5|cbn; by rewrite lookup_delete_eq]).
    split; [by apply vacant_guarded|]. apply bind_spec. by right.
  - assert (untouched v6) as H6 by (assert (v6 = v5 \/ v6 = fault v5) as [-> | ->] by (destruct e; naive_solver); done). split; [by apply Hug|]. by split; [apply Hug|].
Qed.
(** ** Without a failure the answer is decided by what is at the path *)

(** A process accepts connections on the socket at the path. *)
Definition answered : Prop := exists k n, h_names v0 !! path = Some k /\ h_nodes v0 !! k = Some n /\ n_kind n = KSocket /\ n_live n = true.

Definition listen_answer (r : result listen_error Z) : Prop :=
  match h_names v0 !! path with
  | None => is_ok r = true
  | Some k =>
      match h_nodes v0 !! k with
      | None => False
      | Some n =>
          match n_kind n with
          | KLink => r = Err LSymlink
          | KSocket => if n_live n then r = Err LLive else is_ok r = true
          | _ => r = Err LNotSocket
          end
      end
  end.

Definition unfailed (v : host) : Prop := h_fails v = h_fails v0 -> answered -> untouched v.
Definition decided (r : result listen_error Z) (v : host) : Prop := h_fails v = h_fails v0 -> listen_answer r.
Notation deciding := (Prog.always (respects path) behaves unfailed).

(** Once an operation has failed there is nothing left to show. *)
Lemma failed_decides (p : prog (result listen_error Z)) v : (h_fails v0 < h_fails v)%nat -> unfailed v /\ deciding decided p v.
Proof.
  intros Hf. split; [intros E; lia|]. eapply always_weaken, always_mono, (always_fails (respects path) p v (respects_interferes path)).
  - intros v' Hle E. cbn in Hle. lia.
  - intros r v' Hle E. cbn in Hle. lia.
Qed.

Lemma bind_decides mode v : (h_fails v0 <= h_fails v)%nat -> h_names v !! path = None -> ~ answered -> (forall r, is_ok r = true -> listen_answer r) ->
  deciding decided (bind_socket path mode) v.
Proof.
  intros Hf Hn Ha HQ v1 r v2 Hi Hb. pose proof Hi as [(d & nodes & E & _) _]. assert (h_fails v1 = h_fails v) as Hf1 by (by rewrite E). clear E d nodes.
  destruct r as [fd|e]; cbn in Hb; [|subst v2; apply failed_decides; cbn; lia].
  split; [by intros _|]. assert (h_fails v2 = h_fails v) as Hf2 by (by destruct Hb as (k & n & h1 & _ & _ & (_ & _ & ->) & _ & ->)). clear Hb.
  intros v3 r v4 Hi3 Hb3. pose proof Hi3 as [(d & nodes & E & _) _]. assert (h_fails v3 = h_fails v) as Hf3 by (by rewrite E).
  destruct r as [[]|e]; cbn in Hb3; [|subst v4; apply (failed_decides (close_listener fd path (Err LChmod))); cbn; lia].
  split; [by intros _|]. intros _. by apply HQ.
Qed.

Lemma listen_decides l mode : l_Address l = path -> socket_mode l = Some mode -> deciding decided (safeUnixListen l) v0.
Proof.
  intros Hl Hmode. unfold safeUnixListen. rewrite Hl, Hmode. assert (untouched v0) as H0 by done.
  intros v1 r v2 Hi Hb. pose proof (untouched_others _ _ H0 Hi) as H1. assert (h_fails v1 = h_fails v0) as Hf1 by (by destruct Hi as [(d & nodes & -> & _) _]).
  destruct H1 as [Hm1 [HE1 HE2]]. destruct r as [st|e]; cbn in Hb.
  2: { destruct (decide (e = ENOENT)) as [->|He].
       - destruct Hb as [Hn ->]. rewrite HE1 in Hn. split; [by intros _|]. apply bind_decides; [lia|congruence|intros (k & n & Hk & _); congruence|].
         intros r Hr. unfold listen_answer. by rewrite Hn.
       - assert (v2 = fault v1) as -> by (by destruct e). apply (failed_decides (bind_socket path mode)). cbn. lia. }
  destruct Hb as [(k & n & Hk & Hn & ->) ->]. rewrite HE1 in Hk. rewrite (HE2 k Hk) in Hn. split; [by intros _|]. cbn [bind]. unfold is_link. cbn [fi_kind info_of].
  assert (forall r, match n_kind n with KLink => r = Err LSymlink | KSocket => if n_live n then r = Err LLive else is_ok r = true | _ => r = Err LNotSocket end -> listen_answer r) as Hans
    by (intros r Hr; unfold listen_answer; by rewrite Hk, Hn).
  case_bool_decide as Elink; [intros _; apply Hans; by rewrite Elink|]. case_bool_decide as Es; cbn [negb]; [|intros _; apply Hans; by destruct (n_kind n)].
  rewrite Es in Hans. clear Elink Hi. intros v3 r v4 Hi3 Hb3. assert (h_fails v3 = h_fails v0) as Hf3 by (by destruct Hi3 as [(d & nodes & -> & _) _]).
  assert (untouched v3) as H3 by (by eapply untouched_others, Hi3; split). cbn [bind].
  assert (n_live n = true <-> live v3 path) as Hlive.
  { destruct H3 as [_ [HE3 HE4]]. split.
    - intros Hl1. exists k, n. split; [|done]. split; [by rewrite HE4|]. split; [congruence|]. exists k, n. rewrite HE3, HE4 by done. split; [done|]. split; [done|]. split; congruence.
    - intros (k' & n' & (Hk' & _ & k0 & n0 & Hp0 & Hn0 & Hs & _) & _ & Hlv). assert (k0 = k) as -> by congruence. rewrite HE4 in Hn0 by done.
      assert (n0 = n) as -> by congruence. rewrite (Hs ltac:(congruence)) in Hk'. rewrite HE4 in Hk' by done. congruence. }
  destruct r as [[]|e]; cbn [is_ok]; cbn in Hb3.
  - destruct Hb3 as [Hl1%Hlive ->]. split; [by intros _ _|]. intros _. apply Hans. by rewrite Hl1.
  - destruct Hb3 as [[Hl1 ->]| ->]; [|apply failed_decides; cbn; lia]. rewrite <- Hlive in Hl1. destruct (n_live n) eqn:El; [done|].
    assert (~ answered) as Hna by (intros (k' & n' & Hk' & Hn' & _ & Hl'); congruence). split; [by intros _ _|]. cbn [bind].
    intros v5 x v6 Hi5 Hb5. assert (h_fails v5 = h_fails v0) as Hf5 by (by destruct Hi5 as [(d & nodes & -> & _) _]). destruct x as [[]|x]; cbn in Hb5.
    + destruct Hb5 as [_ ->]. split; [by intros _|]. apply bind_decides; [cbn; lia|apply lookup_delete_eq|done|done].
    + destruct (decide (x = ENOENT)) as [->|Hx].
      * destruct Hb5 as [Hn5 _]. destruct Hi5 as [_ [HE5 _]]. destruct H3 as [_ [HE3 _]]. congruence.
      * assert (v6 = fault v5) as -> by (by destruct x). apply (failed_decides (Ret (Err LRemove))). cbn. lia.
Qed.
End Listener.

(** C13: The Unix listener never steals or destroys.  As long as other
    processes leave the path alone, and whatever fails: at every moment the
    path is as it was, or it held nothing or a socket and is now free or bound
    by us; so a symbolic link, a regular file or a directory at the path
    stays.  A bad mode, a link, another kind of file and a stale socket that
    cannot be removed are refused with nothing changed, and so is a socket
    whose owner answered; success means that a new socket of ours is at the
    path, in the mode asked for (0660 when none is), open at the descriptor
    returned.  And as long as no operation has failed, a probe that got no
    answer from a live socket within its time being one that has: a socket on
    which a process accepts connections is never touched and is always
    refused as live, a free path and a socket nobody listens on are always
    bound, and everything else is refused for what it is. *)
Theorem unix_socket_guarded l v0 q v (Hmine : h_mine v0 = ∅)
  (Hrun : rtc (Prog.step (respects (l_Address l)) behaves) (safeUnixListen l, v0) (q, v)) :
  guarded (l_Address l) v0 v /\
  (h_fails v = h_fails v0 -> answered (l_Address l) v0 -> untouched (l_Address l) v0 v) /\
  forall r, q = Ret r ->
    match socket_mode l with
    | Some mode => bound (l_Address l) v0 mode r v /\ 1 <= mode <= 511 /\ (h_fails v = h_fails v0 -> listen_answer (l_Address l) v0 r)
    | None => r = Err LMode /\ untouched (l_Address l) v0 v
    end.
Proof.
  assert (guarded (l_Address l) v0 v0) as H0 by (by left).
  destruct (always_adequate _ _ _ _ _ _ _ _ (listen_spec (l_Address l) v0 Hmine l eq_refl) H0 Hrun) as [Hg Hq]. split; [done|].
  destruct (socket_mode l) as [mode|] eqn:Em.
  - destruct (always_adequate _ _ _ _ _ _ _ _ (listen_decides (l_Address l) v0 Hmine l mode eq_refl Em) ltac:(by intros _) Hrun) as [Hu Hd]. split; [done|].
    intros r ->. cbn in Hq, Hd. destruct Hq as [_ Hq]. split; [done|]. split; [by eapply socket_mode_range|done].
  - unfold safeUnixListen in Hrun. rewrite Em in Hrun. inversion Hrun as [x E|x y z Hs]; [subst|by unfold Prog.step in Hs]. cbn beta in Hq. destruct Hq as [_ Hq]. split; [by intros _ _|]. by intros r [= <-].
Qed.

(** ** Open connections *)

(** [http.ConnState]. *)
Inductive ConnState := StateNew | StateActive | StateIdle | StateHijacked | StateClosed.

(** The counter, and whether the callback closes the connection. *)
(* src: cmd/mellomting/serve.go 561-575 newHTTPServer *)
Definition conn_state (max active : Z) (s : ConnState) : Z * bool :=
  match s with
  | StateNew => (active + 1, max <? active + 1)
  | StateClosed | StateHijacked => (active - 1, false)
  | StateActive | StateIdle => (active, false)
  end.

(** The bounds of the server; the durations are int64. *)
(* src: cmd/mellomting/serve.go 549-560 newHTTPServer *)
Record http_server := mkHttpServer {
  hs_MaxHeaderBytes : Z; hs_ReadHeaderTimeout : duration; hs_ReadTimeout : duration; hs_IdleTimeout : duration; hs_max : Z
}.
(* src: cmd/mellomting/serve.go newHTTPServer *)
Definition newHTTPServer (s : Server) : http_server :=
  mkHttpServer (MaxHeaderBytes s) (ReadHeaderTimeout s) (wrap64 (ReadHeaderTimeout s + ReadBodyTimeout s)) (IdleTimeout s) (MaxConnections s).

(** A connection that the callback let in or closed, and how it stands with
    [net/http], which reports one [StateNew] and then at most one of
    [StateClosed] and [StateHijacked], at the end. *)
Inductive conn_phase := COpen | CGone.
#[export] Instance conn_phase_eq_dec : EqDecision conn_phase.
Proof. solve_decision. Defined.
Record conn := mkConn { c_admitted : bool; c_phase : conn_phase }.
Record conns := mkConns { cs_active : Z; cs_list : list conn }.

Inductive conn_step (max : Z) : conns -> conns -> Prop :=
| cn_new a l : conn_step max (mkConns a l) (mkConns (conn_state max a StateNew).1 (l ++ [mkConn (negb (conn_state max a StateNew).2) COpen]))
| cn_report a l i c s : l !! i = Some c -> c_phase c = COpen -> s = StateActive \/ s = StateIdle ->
    conn_step max (mkConns a l) (mkConns (conn_state max a s).1 l)
| cn_end a l i c s : l !! i = Some c -> c_phase c = COpen -> s = StateClosed \/ s = StateHijacked ->
    conn_step max (mkConns a l) (mkConns (conn_state max a s).1 (<[i := mkConn (c_admitted c) CGone]> l)).

Definition is_open (c : conn) : bool := bool_decide (c_phase c = COpen).
Definition admitted_open (c : conn) : bool := is_open c && c_admitted c.

Record conns_inv (max : Z) (s : conns) : Prop := {
  ci_active : cs_active s = Z.of_nat (count is_open (cs_list s));
  ci_max : Z.of_nat (count admitted_open (cs_list s)) <= Z.max max 0
}.

Lemma admitted_open_le l : (count admitted_open l <= count is_open l)%nat.
Proof. induction l as [|c l IH]; [done|]. rewrite !count_cons. unfold admitted_open at 1. destruct (is_open c), (c_admitted c); cbn; lia. Qed.

Lemma conns_inv_step max s s' : conn_step max s s' -> conns_inv max s -> conns_inv max s'.
Proof.
  intros Hs [Ha Hm]. destruct Hs as [a l|a l i c st Hi Hc Hst|a l i c st Hi Hc Hst]; cbn in *.
  - pose proof (admitted_open_le l). assert (forall b, count is_open [mkConn b COpen] = 1%nat) as H1 by done.
    assert (forall b : bool, count admitted_open [mkConn b COpen] = if b then 1%nat else 0%nat) as H2 by (by intros []).
    split; cbn; rewrite count_app, ?H1, ?H2; [lia|]. destruct (Z.ltb_spec max (a + 1)); cbn; lia.
  - destruct Hst as [-> | ->]; by split.
  - assert (is_open c = true) as Hop by (unfold is_open; by rewrite bool_decide_true).
    pose proof (count_insert is_open l i c (mkConn (c_admitted c) CGone) Hi) as H1. pose proof (count_insert admitted_open l i c (mkConn (c_admitted c) CGone) Hi) as H2.
    rewrite Hop in H1. change (is_open (mkConn (c_admitted c) CGone)) with false in H1. change (admitted_open (mkConn (c_admitted c) CGone)) with false in H2.
    destruct Hst as [-> | ->]; split; cbn; destruct (admitted_open c); lia.
Qed.

(** The cap on connections holds and leaks nothing.  Under any
    interleaving of connections being accepted, reporting activity, closed
    or hijacked, the counter is exactly the number of connections that are
    open and not hijacked, so every slot is given back once; never more than
    [max_connections] of those the callback let in are open; and a new
    connection is closed at accept exactly when the cap is already used up
    by open ones. *)
Theorem connection_cap max s s' :
  rtc (conn_step max) (mkConns 0 []) s ->
  cs_active s = Z.of_nat (count is_open (cs_list s)) /\
  Z.of_nat (count admitted_open (cs_list s)) <= Z.max max 0 /\
  (conn_step max s s' -> forall c, last (cs_list s') = Some c -> length (cs_list s') = S (length (cs_list s)) ->
     c_admitted c = true <-> Z.of_nat (count is_open (cs_list s)) < max).
Proof.
  intros Hr. assert (conns_inv max s) as [Ha Hm].
  { apply (rtc_invariant (conn_step max) (conns_inv max) (mkConns 0 [])); [intros ? ?; apply conns_inv_step|done|split; [done|change (0 <= Z.max max 0); lia]]. }
  split; [done|]. split; [done|]. intros Hs c Hl Hlen. destruct Hs as [a l|a l i c0 st Hi Hc Hst|a l i c0 st Hi Hc Hst]; cbn in *; [|lia|rewrite length_insert in Hlen; lia].
  rewrite last_snoc in Hl. injection Hl as <-. cbn. rewrite negb_true_iff, Z.ltb_ge. lia.
Qed.

(** ** Witnesses *)

Module ServeDemo.
(** A stale socket at the path. *)
Definition path : string := "/run/m/m.sock".
Definition l : Listen := mkListen "unix" path "".
Definition host_of (k : kind) : host :=
  let d := <[path := 7]> ∅ in mkHost d (<[7 := mkNode k 432 0 991 "" true 0]> ∅) ∅ [d] ∅ 0 ∅.
Example listens : let x := run [] (safeUnixListen l) (host_of KSocket) in
  (x.1, option_map (fun e => (e.1, n_perm e.2)) (node_at x.2 path)) = (Ok 3, Some (8, 432)).
Proof. vm_compute. reflexivity. Qed.
(** The socket of a daemon that runs. *)
Definition busy : host := set_node 7 (mkInode KSocket 432 0 991 "" true 0 [] true) (host_of KSocket).
Example refuses_busy : let x := run [] (safeUnixListen l) busy in (x.1, option_map fst (node_at x.2 path)) = (Err LLive, Some 7).
Proof. vm_compute. reflexivity. Qed.
Example refuses : let x := run [] (safeUnixListen l) (host_of KFile) in (x.1, option_map fst (node_at x.2 path)) = (Err LNotSocket, Some 7).
Proof. vm_compute. reflexivity. Qed.

(** Two connections with room for one: the second is closed at accept, and
    both slots come back. *)
Definition two : conns := mkConns 2 [mkConn true COpen; mkConn false COpen].
Lemma two_reached : rtc (conn_step 1) (mkConns 0 []) two.
Proof.
  eapply rtc_l; [apply cn_new|]. eapply rtc_l; [apply cn_new|]. apply rtc_refl.
Qed.
End ServeDemo.

Lemma connection_cap_witness : Z.of_nat (count admitted_open (cs_list ServeDemo.two)) <= 1.
Proof. exact (proj1 (proj2 (connection_cap 1 ServeDemo.two ServeDemo.two ServeDemo.two_reached))). Defined.

(** A socket somebody listens on is refused and stays; a stale one is
    replaced. *)
Lemma unix_socket_guarded_witness :
  (exists v, bound ServeDemo.path (ServeDemo.host_of KSocket) 432 (Ok 3) v) /\
  (exists v, untouched ServeDemo.path ServeDemo.busy v /\ h_fails v = 0%nat).
Proof.
  split.
  - exists (run [] (safeUnixListen ServeDemo.l) (ServeDemo.host_of KSocket)).2.
    assert ((run [] (safeUnixListen ServeDemo.l) (ServeDemo.host_of KSocket)).1 = Ok 3) as E by (vm_compute; reflexivity).
    pose proof (run_respects ServeDemo.path (safeUnixListen ServeDemo.l) [] (ServeDemo.host_of KSocket)) as Hr. rewrite E in Hr.
    destruct (unix_socket_guarded ServeDemo.l (ServeDemo.host_of KSocket) _ _ eq_refl Hr) as (_ & _ & H). exact (proj1 (H (Ok 3) eq_refl)).
  - exists (run [] (safeUnixListen ServeDemo.l) ServeDemo.busy).2.
    assert (h_fails (run [] (safeUnixListen ServeDemo.l) ServeDemo.busy).2 = 0%nat) as E by (vm_compute; reflexivity). split; [|exact E].
    destruct (unix_socket_guarded ServeDemo.l ServeDemo.busy _ _ eq_refl (run_respects ServeDemo.path (safeUnixListen ServeDemo.l) [] ServeDemo.busy)) as (_ & H & _).
    apply H; [exact E|]. exists 7, (mkInode KSocket 432 0 991 "" true 0 [] true). split; [|split; [|split]]; vm_compute; reflexivity.
Defined.
