(* ===== verification/Lifecycle.v ===== *)
(** * From start to exit: [serveCmd] of [cmd/mellomting/serve.go]

    The order in which the daemon loads, binds, confines itself, serves,
    drains and flushes.  The pieces it calls are other files' ([Config.v],
    [Daemon.v], [Serve.v], [Sandbox.v], [Writer.v]); here they are operations
    that succeed or fail, and what the command relies on of [http.Server] is
    written as their behaviour: handlers run once [Serve] was called and start
    no more after [Shutdown]; [Shutdown] returns when they are done, when the
    grace period is over or after [Close].  The state keeps the marks of what
    has happened, what the event loop was told ([l_told]) and how many
    handlers were running when the log was closed. *)

From S2P Require Import Prelude GoStrings Config Prog.
From Stdlib Require Import Ascii.
#[local] Open Scope Z_scope.

Inductive signal := SIGINT | SIGTERM | SIGHUP.
#[export] Instance signal_eq_dec : EqDecision signal.
Proof. solve_decision. Defined.

(** What the loop's [select] finds ready. *)
Inductive event := Tick | Stopped (expected : bool) | Received (s : signal).

Inductive sop :=
| LoadConfig
| NewLogger (c : Config.Logging)
| BuildDaemon
| Listen (l : Config.Listen)
| WrapTLS
| ApplySandbox (lns : list Z)
| StartServe (ln : Z)
| StartAdmin (ln : Z)
| SetReady
| Select
| RefreshUsers (force : bool)
| BeginDraining
| StartShutdown
| AwaitShutdown        (* the end of the shutdown, or a signal *)
| ForceClose
| AwaitEnd             (* the end of the shutdown *)
| CloseListener (ln : Z)
| CloseAdmin
| CloseLog.

(** What [serveCmd] looks at of the configuration and of the daemon. *)
Record settings := mkSettings { st_log : Config.Logging; st_listen : Config.Listen; st_admin : string }.
Record parts := mkParts { pt_tls : bool; pt_log : bool }.

Definition sans (o : sop) : Type :=
  match o with
  | LoadConfig => result unit settings
  | NewLogger _ => result unit unit
  | BuildDaemon => result unit parts
  | Listen _ => result unit Z
  | ApplySandbox _ => result unit unit
  | Select => event
  | AwaitShutdown => option signal
  | _ => unit
  end.

Notation sprog := (Prog.prog sans).

(** [serveCmd] leaves the loop by a code or by a signal; [None] is a loop that
    is still going on after [n] selections. *)
(* src: cmd/mellomting/serve.go 208-227 serveCmd *)
Fixpoint loop (n : nat) : sprog (option (option Z)) :=
  match n with
  | O => Ret None
  | S n =>
      let! e := call Select in
      match e with
      | Tick => let! _ := call (RefreshUsers false) in loop n
      | Stopped expected => Ret (Some (Some (if expected then 0 else 1)))
      | Received SIGHUP => let! _ := call (RefreshUsers true) in loop n
      | Received _ => Ret (Some None)
      end
  end.

(* src: cmd/mellomting/serve.go 229-267 serveCmd *)
Definition drain (ln : Z) (has_log : bool) : sprog Z :=
  let! _ := call BeginDraining in
  let! _ := call StartShutdown in
  let! s := call AwaitShutdown in
  let! _ := (match s with None => Ret tt | Some _ => let! _ := call ForceClose in call AwaitEnd end : sprog unit) in
  let! _ := call (CloseListener ln) in
  let! _ := (if has_log then call CloseLog else Ret tt : sprog unit) in
  Ret 0.

(** The admin server is closed on the way out. *)
Definition closing_admin {A} (admin : option Z) (a : A) : sprog A :=
  match admin with Some _ => let! _ := call CloseAdmin in Ret a | None => Ret a end.

(* src: cmd/mellomting/serve.go 171-267 serveCmd *)
Definition running (ln : Z) (admin : option Z) (has_log : bool) (n : nat) : sprog (option Z) :=
  let! _ := call (StartServe ln) in
  let! _ := (match admin with Some a => call (StartAdmin a) | None => Ret tt end : sprog unit) in
  let! _ := call SetReady in
  let! r := loop n in
  match r with
  | None => Ret None
  | Some (Some code) => closing_admin admin (Some code)
  | Some None => let! code := drain ln has_log in closing_admin admin (Some code)
  end.

Definition adminSocketMode : string := "0600".

(** Both listeners, or none. *)
(* src: cmd/mellomting/serve.go 112-129 serveCmd *)
Definition listeners (cfg : settings) : sprog (result unit (Z * option Z)) :=
  let! r := call (Listen (st_listen cfg)) in
  match r with
  | Err _ => Ret (Err tt)
  | Ok ln =>
      if String.eqb (st_admin cfg) "" then Ret (Ok (ln, None))
      else
        let! r := call (Listen (mkListen "unix" (st_admin cfg) adminSocketMode)) in
        match r with
        | Err _ => let! _ := call (CloseListener ln) in Ret (Err tt)
        | Ok a => Ret (Ok (ln, Some a))
        end
  end.

(** After the arguments: the exit code, or [None] while serving. *)
(* src: cmd/mellomting/serve.go serveCmd *)
Definition serveCmd (n : nat) : sprog (option Z) :=
  let! r := call LoadConfig in
  match r with
  | Err _ => Ret (Some 1)
  | Ok cfg =>
      let! r := call (NewLogger (st_log cfg)) in
      match r with
      | Err _ => Ret (Some 1)
      | Ok _ =>
          let! r := call BuildDaemon in
          match r with
          | Err _ => Ret (Some 1)
          | Ok d =>
              let! r := listeners cfg in
              match r with
              | Err _ => Ret (Some 1)
              | Ok lns =>
                  let! _ := (if pt_tls d then call WrapTLS else Ret tt : sprog unit) in
                  let! r := call (ApplySandbox (lns.1 :: match lns.2 with Some a => [a] | None => [] end)) in
                  match r with
                  | Err _ =>
                      let! _ := call (CloseListener lns.1) in
                      let! _ := (match lns.2 with Some a => call (CloseListener a) | None => Ret tt end : sprog unit) in
                      Ret (Some 1)
                  | Ok _ => running lns.1 lns.2 (pt_log d) n
                  end
              end
          end
      end
  end.

(** ** The world around it *)

(** What has happened. *)
Inductive mark := MBuilt | MLog | MTls | MConfined | MServing | MReady | MDraining | MShut | MReturned | MSevered | MOverdue.
#[export] Instance mark_eq_dec : EqDecision mark.
Proof. solve_decision. Defined.
#[export] Instance mark_countable : Countable mark.
Proof.
  refine (inj_countable' (fun m => match m with MBuilt => 0 | MLog => 1 | MTls => 2 | MConfined => 3 | MServing => 4 | MReady => 5 | MDraining => 6 | MShut => 7 | MReturned => 8 | MSevered => 9 | MOverdue => 10 end)%nat
    (fun n => match n with 0 => MBuilt | 1 => MLog | 2 => MTls | 3 => MConfined | 4 => MServing | 5 => MReady | 6 => MDraining | 7 => MShut | 8 => MReturned | 9 => MSevered | _ => MOverdue end)%nat _).
  by intros [].
Defined.

(** [l_open] is the bound listeners, [l_named] those the sandbox was told of;
    [l_flushed] says, once the log was closed, how many handlers were still
    running then; [l_told] is the event that told the daemon to stop. *)
Record life := mkLife { l_marks : gset mark; l_open : gset Z; l_named : list Z; l_handlers : nat; l_flushed : option nat; l_told : option event }.
Definition born : life := mkLife ∅ ∅ [] 0 None None.

Definition note (m : mark) (w : life) : life := mkLife ({[m]} ∪ l_marks w) (l_open w) (l_named w) (l_handlers w) (l_flushed w) (l_told w).
Definition with_open (s : gset Z) (w : life) : life := mkLife (l_marks w) s (l_named w) (l_handlers w) (l_flushed w) (l_told w).
Definition with_named (l : list Z) (w : life) : life := mkLife (l_marks w) (l_open w) l (l_handlers w) (l_flushed w) (l_told w).
Definition with_handlers (n : nat) (w : life) : life := mkLife (l_marks w) (l_open w) (l_named w) n (l_flushed w) (l_told w).
Definition flushed (w : life) : life := mkLife (l_marks w) (l_open w) (l_named w) (l_handlers w) (Some (l_handlers w)) (l_told w).
(** An event that is no tick and no SIGHUP tells the daemon to stop. *)
Definition told (e : event) (w : life) : life :=
  match e with
  | Tick | Received SIGHUP => w
  | _ => mkLife (l_marks w) (l_open w) (l_named w) (l_handlers w) (l_flushed w) (match l_told w with None => Some e | Some _ => l_told w end)
  end.

(** Handlers start while the server serves and was not shut down; they end;
    the grace period runs out. *)
Inductive bustle : life -> life -> Prop :=
| bu_start w : MServing ∈ l_marks w -> MShut ∉ l_marks w -> bustle w (with_handlers (S (l_handlers w)) w)
| bu_end w m : l_handlers w = S m -> bustle w (with_handlers m w)
| bu_overdue w : MShut ∈ l_marks w -> bustle w (note MOverdue w).
Notation around := (rtc bustle).

Definition sbehaves (o : sop) (w : life) : sans o -> life -> Prop :=
  match o return sans o -> life -> Prop with
  | BuildDaemon => fun r w' => w' = match r with Ok d => note MBuilt (if pt_log d then note MLog w else w) | Err _ => w end
  | Listen _ => fun r w' => match r with Ok fd => fd ∉ l_open w /\ w' = with_open ({[fd]} ∪ l_open w) w | Err _ => w' = w end
  | WrapTLS => fun _ w' => w' = note MTls w
  | ApplySandbox lns => fun r w' => w' = if is_ok r then note MConfined (with_named lns w) else w
  | StartServe _ => fun _ w' => w' = note MServing w
  | SetReady => fun _ w' => w' = note MReady w
  | BeginDraining => fun _ w' => w' = note MDraining w
  | StartShutdown => fun _ w' => w' = note MShut w
  | AwaitShutdown => fun r w' =>
      match r with
      | None => (l_handlers w = 0%nat \/ MOverdue ∈ l_marks w) /\ w' = note MReturned w
      | Some _ => w' = w
      end
  | ForceClose => fun _ w' => w' = note MSevered w
  | AwaitEnd => fun _ w' => w' = note MReturned w
  | CloseListener ln => fun _ w' => w' = with_open (l_open w ∖ {[ln]}) w
  | CloseLog => fun _ w' => w' = flushed w
  | Select => fun e w' => w' = told e w
  | LoadConfig | NewLogger _ | StartAdmin _ | RefreshUsers _ | CloseAdmin => fun _ w' => w' = w
  end.

(** ** What always holds *)

Record life_inv (w : life) : Prop := {
  li_serving : MServing ∈ l_marks w -> MBuilt ∈ l_marks w /\ MConfined ∈ l_marks w /\ forall fd, fd ∈ l_open w -> fd ∈ l_named w;
  li_handlers : (0 < l_handlers w)%nat -> MServing ∈ l_marks w;
  li_ready : MReady ∈ l_marks w -> MServing ∈ l_marks w;
  li_shut : MShut ∈ l_marks w -> MDraining ∈ l_marks w;
  li_returned : MReturned ∈ l_marks w -> MShut ∈ l_marks w /\ (MOverdue ∉ l_marks w -> MSevered ∉ l_marks w -> l_handlers w = 0%nat);
  li_flushed : forall k, l_flushed w = Some k -> MReturned ∈ l_marks w /\ MLog ∈ l_marks w /\ (MOverdue ∉ l_marks w -> MSevered ∉ l_marks w -> k = 0%nat)
}.

Lemma elem_note m m' w : m ∈ l_marks (note m' w) <-> m = m' \/ m ∈ l_marks w.
Proof. cbn. by rewrite elem_of_union, elem_of_singleton. Qed.

Lemma bustle_inv w w' : bustle w w' -> life_inv w -> life_inv w'.
Proof.
  intros Hb [H1 H2 H3 H4 H5 H6]. destruct Hb as [w Hs Hn|w m Hm|w Hs].
  - constructor; cbn; auto. intros Hr. destruct (H5 Hr) as [? _]. done.
  - constructor; cbn; auto; [intros _; apply H2; lia|]. intros Hr. destruct (H5 Hr) as [? Hz]. split; [done|]. intros Ho Hse. specialize (Hz Ho Hse). lia.
  - assert (forall m, m <> MOverdue -> m ∈ l_marks (note MOverdue w) <-> m ∈ l_marks w) as Hm by (intros m Hne; rewrite elem_note; naive_solver).
    constructor; rewrite ?Hm by done; auto.
    + intros Hr. destruct (H5 Hr) as [? _]. split; [done|]. intros []. rewrite elem_note. by left.
    + intros k Hk. destruct (H6 k Hk) as (? & ? & _). rewrite !Hm by done. split; [done|]. split; [done|]. intros []. rewrite elem_note. by left.
Qed.

(** What the others cannot change. *)
Record same_course (w w' : life) : Prop := {
  sc_open : l_open w' = l_open w; sc_named : l_named w' = l_named w; sc_flushed : l_flushed w' = l_flushed w;
  sc_marks : forall m, m <> MOverdue -> m ∈ l_marks w' <-> m ∈ l_marks w;
  sc_idle : l_handlers w = 0%nat -> MServing ∉ l_marks w \/ MShut ∈ l_marks w -> l_handlers w' = 0%nat;
  sc_inv : life_inv w -> life_inv w';
  sc_told : l_told w' = l_told w
}.

Lemma around_course w w' : around w w' -> same_course w w'.
Proof.
  induction 1 as [w|w w1 w2 Hb _ IH]; [by constructor|]. destruct IH as [I1 I2 I3 I4 I5 I6 I7].
  assert (same_course w w1) as [J1 J2 J3 J4 J5 J6 J7].
  { pose proof (bustle_inv _ _ Hb) as Hinv. destruct Hb as [w Hs Hn|w m Hm|w Hs]; constructor; cbn; try done; try congruence.
    - intros _ [?|?]; done.
    - intros m Hne. set_solver. }
  constructor; try congruence; auto.
  - intros m Hne. rewrite I4, J4; done.
  - intros Hz Hc. apply I5; [auto|]. rewrite !J4 by done. done.
Qed.

(** ** Stages *)

Notation always := (Prog.always around sbehaves life_inv).
Definition others_of (admin : option Z) : list Z := match admin with Some a => [a] | None => [] end.

(** Not serving yet. *)
Record starting (opened : gset Z) (w : life) : Prop := {
  sg_inv : life_inv w; sg_open : l_open w = opened; sg_handlers : l_handlers w = 0%nat; sg_flushed : l_flushed w = None;
  sg_marks : forall m, m ∈ l_marks w -> m = MBuilt \/ m = MLog \/ m = MTls \/ m = MConfined \/ m = MOverdue;
  sg_told : l_told w = None
}.
(** Serving, and told to stop or not. *)
Record serving (ln : Z) (admin : option Z) (has_log : bool) (by_what : option event) (w : life) : Prop := {
  se_inv : life_inv w; se_flushed : l_flushed w = None; se_named : l_named w = ln :: others_of admin;
  se_log : MLog ∈ l_marks w <-> has_log = true; se_on : MServing ∈ l_marks w;
  se_marks : MDraining ∉ l_marks w /\ MShut ∉ l_marks w /\ MReturned ∉ l_marks w;
  se_told : l_told w = by_what
}.
(** Stopping, on a signal. *)
Definition signalled (w : life) : Prop := exists s, l_told w = Some (Received s) /\ s <> SIGHUP.
Record stopping (ln : Z) (admin : option Z) (has_log shut returned : bool) (w : life) : Prop := {
  sp_inv : life_inv w; sp_flushed : l_flushed w = None; sp_named : l_named w = ln :: others_of admin;
  sp_log : MLog ∈ l_marks w <-> has_log = true; sp_on : MServing ∈ l_marks w; sp_drain : MDraining ∈ l_marks w;
  sp_shut : MShut ∈ l_marks w <-> shut = true; sp_returned : MReturned ∈ l_marks w <-> returned = true;
  sp_told : signalled w
}.

Definition stable (S : life -> Prop) : Prop := forall w w', S w -> same_course w w' -> S w'.

Lemma starting_stable opened : stable (starting opened).
Proof.
  intros w w' [H1 H2 H3 H4 H5 H6] [I1 I2 I3 I4 I5 I6 I7]. constructor; auto; try congruence.
  - apply I5; [done|]. left. intros Hs. apply H5 in Hs. naive_solver.
  - intros m Hm. destruct (decide (m = MOverdue)) as [->|Hne]; [auto 10|]. apply H5. by apply I4.
Qed.
Lemma serving_stable ln admin has_log by_what : stable (serving ln admin has_log by_what).
Proof. intros w w' [H1 H2 H3 H4 H5 H6 H7] [I1 I2 I3 I4 I5 I6 I7]. constructor; rewrite ?I4 by done; auto; try congruence. Qed.
Lemma stopping_stable ln admin has_log shut returned : stable (stopping ln admin has_log shut returned).
Proof.
  intros w w' [H1 H2 H3 H4 H5 H6 H7 H8 (sg & H9 & H10)] [I1 I2 I3 I4 I5 I6 I7]. constructor; rewrite ?I4 by done; auto; try congruence.
  exists sg. by rewrite I7.
Qed.

Lemma call_spec (S : life -> Prop) o (Q : sans o -> life -> Prop) v : stable S -> S v ->
  (forall w r w', S w -> sbehaves o w r w' -> life_inv w' /\ Q r w') -> always Q (call o) v.
Proof. intros Hst Hv HQ v1 r v2 Hi Hb. cbn. apply (HQ v1 r v2); [|done]. eapply Hst, around_course, Hi. done. Qed.

(** One operation, and what follows it. *)
Lemma then_spec {A} (S : life -> Prop) o (f : sans o -> sprog A) (Q : A -> life -> Prop) v : stable S -> S v ->
  (forall w r w', S w -> sbehaves o w r w' -> life_inv w' /\ always Q (f r) w') -> always Q (let! r := call o in f r) v.
Proof. intros Hst Hv HQ. apply always_bind. by eapply call_spec. Qed.

(** *** Shutting down *)

Definition drained (w : life) : Prop :=
  life_inv w /\ signalled w /\ MDraining ∈ l_marks w /\ MReturned ∈ l_marks w /\ (forall ln, head (l_named w) = Some ln -> ln ∉ l_open w) /\ (is_Some (l_flushed w) <-> MLog ∈ l_marks w).

Section Draining.
Variables (ln : Z) (admin : option Z) (has_log : bool).
Notation stopping := (stopping ln admin has_log).

Lemma stopping_note m shut returned shut' returned' w : stopping shut returned w ->
  life_inv (note m w) -> m <> MLog ->
  (shut' = true <-> m = MShut \/ shut = true) -> (returned' = true <-> m = MReturned \/ returned = true) -> stopping shut' returned' (note m w).
Proof.
  intros [H1 H2 H3 H4 H5 H6 H7 H8 H9] Hi Hm Hs Hr. constructor; rewrite ?elem_note; auto.
  - rewrite H4. naive_solver.
  - rewrite H7, Hs. naive_solver.
  - rewrite H8, Hr. naive_solver.
Qed.

Lemma close_stage w : stopping true true w -> always (fun r w' => r = 0 /\ drained w')
  (let! _ := call (CloseListener ln) in let! _ := (if has_log then call CloseLog else Ret tt : sprog unit) in Ret 0) w.
Proof.
  intros Hw. eapply then_spec; [apply stopping_stable|done|]. intros w1 r w2 Hw1 ->. pose proof Hw1 as [H1 H2 H3 H4 H5 H6 H7 H8 H9].
  assert (life_inv (with_open (l_open w1 ∖ {[ln]}) w1)) as Hi.
  { destruct H1 as [J1 J2 J3 J4 J5 J6]. constructor; auto. intros Hs. destruct (J1 Hs) as (? & ? & Ho). split; [done|]. split; [done|]. cbn. intros fd [Hfd _]%elem_of_difference. auto. }
  split; [done|]. assert (ln ∉ l_open w1 ∖ {[ln]}) as Hln by set_solver.
  assert (stopping true true (with_open (l_open w1 ∖ {[ln]}) w1)) as Hs2 by (by constructor). destruct has_log.
  - apply (then_spec (fun w => Lifecycle.stopping ln admin true true true w /\ ln ∉ l_open w)); [|split; [exact Hs2|exact Hln]|].
    { intros x y [Hx Ho] Hc. split; [by eapply stopping_stable|]. by rewrite (sc_open _ _ Hc). }
    intros w3 [] w4 [Hw3 Ho] ->. pose proof Hw3 as [K1 K2 K3 K4 K5 K6 K7 K8 K9]. assert (MReturned ∈ l_marks w3) as Hret by (by apply K8). assert (life_inv (flushed w3)) as Hf.
    { destruct K1 as [J1 J2 J3 J4 J5 J6]. constructor; auto. cbn. intros k [= <-]. destruct (J5 Hret) as [_ Hz]. split; [done|]. split; [by apply K4|auto]. }
    split; [done|]. split; [done|]. split; [done|]. split; [exact K9|]. split; [done|]. split; [done|]. split; [cbn; rewrite K3; by intros x [= <-]|]. split; [|cbn; eauto]. intros _. by apply K4.
  - split; [done|]. split; [done|]. split; [exact H9|]. split; [done|]. split; [by apply H8|]. split; [cbn; rewrite H3; by intros x [= <-]|]. cbn. rewrite H2, H4. split; [by intros []|done].
Qed.

Lemma drain_spec w sg : serving ln admin has_log (Some (Received sg)) w -> sg <> SIGHUP -> always (fun r w' => r = 0 /\ drained w') (drain ln has_log) w.
Proof.
  intros Hw Hsg. unfold drain. eapply then_spec; [apply serving_stable|done|]. intros w1 r w2 [H1 H2 H3 H4 H5 (H6 & H7 & H8) H9] ->.
  assert (life_inv (note MDraining w1)) as Hi.
  { destruct H1 as [J1 J2 J3 J4 J5 J6]. constructor; rewrite ?elem_note; try (by intros [?|?]; eauto); try naive_solver. }
  assert (stopping false false (note MDraining w1)) as Hw2 by (constructor; rewrite ?elem_note; [naive_solver..|by exists sg]).
  split; [done|]. eapply then_spec; [apply stopping_stable|done|]. intros w3 r3 w4 Hw3 ->. clear dependent w1.
  assert (life_inv (note MShut w3)) as Hi3.
  { destruct Hw3 as [[J1 J2 J3 J4 J5 J6] K2 K3 K4 K5 K6 K7 K8 K9]. constructor; rewrite ?elem_note; try naive_solver. }
  assert (stopping true false (note MShut w3)) as Hw4 by (eapply stopping_note; [done|done|done|naive_solver|naive_solver]).
  split; [done|]. eapply then_spec; [apply stopping_stable|done|]. intros w5 s w6 Hw5 Hb. clear dependent w3. destruct s as [s|].
  - cbn in Hb. subst w6. split; [apply Hw5|]. apply always_bind. eapply then_spec; [apply stopping_stable|done|]. intros w7 r7 w8 Hw7 ->.
    assert (life_inv (note MSevered w7)) as Hi7.
    { destruct Hw7 as [[J1 J2 J3 J4 J5 J6] K2 K3 K4 K5 K6 K7 K8 K9]. constructor; rewrite ?elem_note; try naive_solver. }
    assert (stopping true false (note MSevered w7) /\ MSevered ∈ l_marks (note MSevered w7)) as Hw8.
    { split; [|rewrite elem_note; by left]. eapply stopping_note; [done|done|done|naive_solver|naive_solver]. }
    split; [done|]. apply (call_spec (fun w => stopping true false w /\ MSevered ∈ l_marks w)); [|done|].
    { intros x y [Hx Ho] Hc. split; [by eapply stopping_stable|]. by apply (sc_marks _ _ Hc). }
    intros w9 [] w10 [Hw9 Hsev] ->. assert (life_inv (note MReturned w9)) as Hi9.
    { destruct Hw9 as [[J1 J2 J3 J4 J5 J6] K2 K3 K4 K5 K6 K7 K8 K9]. constructor; rewrite ?elem_note; try naive_solver. }
    split; [done|]. apply close_stage. eapply stopping_note; [done|done|done|naive_solver|naive_solver].
  - destruct Hb as [Hz ->]. assert (life_inv (note MReturned w5)) as Hi5.
    { destruct Hw5 as [[J1 J2 J3 J4 J5 J6] K2 K3 K4 K5 K6 K7 K8 K9]. constructor; rewrite ?elem_note; try naive_solver. }
    split; [done|]. apply close_stage. eapply stopping_note; [done|done|done|naive_solver|naive_solver].
Qed.
End Draining.

(** *** The loop *)

Definition looped (ln : Z) (admin : option Z) (has_log : bool) (r : option (option Z)) (w : life) : Prop :=
  match r with
  | None => serving ln admin has_log None w
  | Some (Some code) => exists expected, serving ln admin has_log (Some (Stopped expected)) w /\ code = (if expected then 0 else 1)
  | Some None => exists s, serving ln admin has_log (Some (Received s)) w /\ s <> SIGHUP
  end.

Lemma told_inv e w : life_inv w -> life_inv (told e w).
Proof. intros [H1 H2 H3 H4 H5 H6]. by destruct e as [|x|[]]; constructor. Qed.
Lemma told_serving ln admin has_log e w : serving ln admin has_log None w -> e <> Tick -> e <> Received SIGHUP -> serving ln admin has_log (Some e) (told e w).
Proof.
  intros [H1 H2 H3 H4 H5 H6 H7] Ht Hh. pose proof (told_inv e w H1) as Hi. destruct e as [|x|[]]; try done; constructor; try done; cbn; by rewrite H7.
Qed.

Lemma loop_spec ln admin has_log n w : serving ln admin has_log None w -> always (looped ln admin has_log) (loop n) w.
Proof.
  revert w. induction n as [|n IH]; intros w Hw; cbn [loop]; [done|]. eapply then_spec; [apply serving_stable|done|]. intros w1 e w2 Hw1 ->. split; [apply told_inv, Hw1|].
  assert (forall force, always (looped ln admin has_log) (let! _ := call (RefreshUsers force) in loop n) w1) as Href.
  { intros force. eapply then_spec; [apply serving_stable|done|]. intros w3 r w4 Hw3 ->. split; [apply Hw3|]. by apply IH. }
  destruct e as [|expected|[]]; [apply Href|..|apply Href]; cbn [Prog.always looped].
  - exists expected. split; [by apply told_serving|done].
  - exists SIGINT. split; [by apply told_serving|done].
  - exists SIGTERM. split; [by apply told_serving|done].
Qed.

(** How the command ends once it has served. *)
Definition ended (r : option Z) (w : life) : Prop :=
  match r with
  | None => MServing ∈ l_marks w /\ MDraining ∉ l_marks w /\ l_told w = None
  | Some code =>
      (MServing ∈ l_marks w /\ MDraining ∉ l_marks w /\ (exists expected, l_told w = Some (Stopped expected) /\ code = if expected then 0 else 1) /\ l_flushed w = None) \/
      (code = 0 /\ MServing ∈ l_marks w /\ drained w)
  end.

(** Nothing un-serves. *)
Lemma drain_serves ln has_log w : MServing ∈ l_marks w -> Prog.always around sbehaves (fun _ => True) (fun _ w => MServing ∈ l_marks w) (drain ln has_log) w.
Proof.
  generalize (drain ln has_log). intros q. revert w. induction q as [a|o f IH]; intros w Hw; cbn [Prog.always]; [done|]. intros w1 r w2 Hi Hb. split; [done|]. apply IH.
  apply (sc_marks _ _ (around_course _ _ Hi)) in Hw; [|done].
  destruct o; cbn in Hb; try (subst w2; try (rewrite elem_note; by right); done).
  - subst w2. destruct r as [d|]; [|done]. destruct (pt_log d); rewrite !elem_note; auto.
  - destruct r; [destruct Hb as [_ ->]|subst w2]; done.
  - subst w2. destruct r; cbn [is_ok]; [|done]. rewrite elem_note. by right.
  - subst w2. by destruct r as [|x|[]].
  - destruct r; [by subst w2|]. destruct Hb as [_ ->]. rewrite elem_note. by right.
Qed.

(** Closing the admin server changes nothing that was said. *)
Lemma closing_admin_spec admin r w (S : life -> Prop) : stable S -> S w -> (forall w, S w -> life_inv w /\ ended r w) ->
  always ended (closing_admin admin r) w.
Proof.
  intros Hst Hw HS. unfold closing_admin. destruct admin as [a|]; [|by apply HS]. eapply then_spec; [exact Hst|done|].
  intros w1 x w2 Hw1 ->. split; [by apply HS|]. by apply HS.
Qed.

Lemma drained_stable : stable drained.
Proof.
  intros w w' (H1 & (sg & H0) & H2 & H3 & H4 & H5) [I1 I2 I3 I4 I5 I6 I7]. unfold drained, signalled. rewrite !I4, I1, I2, I3, I7 by done. split_and!; eauto; by apply H5.
Qed.

Lemma running_spec ln admin has_log opened n w : starting opened w -> MBuilt ∈ l_marks w -> MConfined ∈ l_marks w -> (MLog ∈ l_marks w <-> has_log = true) ->
  l_named w = ln :: others_of admin -> (forall fd, fd ∈ opened -> fd ∈ l_named w) ->
  always ended (running ln admin has_log n) w.
Proof.
  intros Hw Hb Hc Hl Hnm Ho. unfold running.
  apply (then_spec (fun w => starting opened w /\ MBuilt ∈ l_marks w /\ MConfined ∈ l_marks w /\ (MLog ∈ l_marks w <-> has_log = true) /\ l_named w = ln :: others_of admin)); [|done|].
  { intros x y (X1 & X2 & X3 & X4 & X5) Hxy. split; [by eapply starting_stable|]. pose proof (sc_named _ _ Hxy). rewrite !(sc_marks _ _ Hxy) by done. split_and!; try done; congruence. }
  intros w1 r w2 (Hw1 & X2 & X3 & X4 & X5) ->. assert (serving ln admin has_log None (note MServing w1)) as Hs.
  { destruct Hw1 as [[J1 J2 J3 J4 J5 J6] K2 K3 K4 K5 K6]. assert (forall m, m ∈ l_marks w1 -> m <> MDraining /\ m <> MShut /\ m <> MReturned /\ m <> MReady) as Hno by (intros m Hm; apply K5 in Hm; naive_solver).
    assert (forall m, m = MDraining \/ m = MShut \/ m = MReturned -> m ∉ l_marks (note MServing w1)) as Hno'.
    { intros m Hm. rewrite elem_note. intros [->|Hin]; [by destruct_or! Hm|]. apply Hno in Hin as (? & ? & ? & ?). by destruct_or! Hm. }
    constructor.
    - constructor.
      + intros _. rewrite !elem_note. split; [by right|]. split; [by right|]. cbn. rewrite K2, X5, <- Hnm. apply Ho.
      + intros _. rewrite elem_note. by left.
      + intros _. rewrite elem_note. by left.
      + intros Hm. exfalso. by apply (Hno' MShut); auto.
      + intros Hm. exfalso. by apply (Hno' MReturned); auto.
      + cbn. intros k Hk. congruence.
    - done.
    - done.
    - rewrite elem_note, X4. split; [by intros [?|?]|by right].
    - rewrite elem_note. by left.
    - split; [apply Hno'; auto|]. split; apply Hno'; auto.
    - done. }
  split; [apply Hs|]. set (w2 := note MServing w1) in *. clearbody w2. clear dependent w1. clear dependent w. apply always_bind.
  apply (always_mono _ _ _ _ (fun _ w => serving ln admin has_log None w)).
  { intros x0 w1 Hw1. clear x0. eapply then_spec; [apply serving_stable|done|]. intros w3 r3 w4 Hw3 ->. assert (serving ln admin has_log None (note MReady w3)) as Hs4.
    { destruct Hw3 as [[J1 J2 J3 J4 J5 J6] K2 K3 K4 K5 (K6 & K7 & K8) K9]. constructor; [|done|done|rewrite elem_note, K4; split; [by intros [?|?]|by right]|rewrite elem_note; by right|rewrite !elem_note; naive_solver|done].
      constructor; rewrite ?elem_note; [by intros [?|?]; naive_solver|by right; apply J2|by right|naive_solver|naive_solver|].
      cbn. intros k Hk. congruence. }
    split; [apply Hs4|]. apply always_bind. eapply always_mono, loop_spec, Hs4. intros [[code|]|] w5 Hw5; cbn [looped] in Hw5.
    - destruct Hw5 as (expected & Hw5 & ->). eapply closing_admin_spec; [apply serving_stable|done|]. intros w6 [K1 K2 K3 K4 K5 (K6 & _) K7]. split; [done|]. left. eauto 6.
    - destruct Hw5 as (sg & Hw5 & Hsg). apply always_bind.
      pose proof (always_both _ _ _ _ _ _ _ _ (drain_spec ln admin has_log w5 sg Hw5 Hsg) (drain_serves ln has_log w5 (se_on _ _ _ _ _ Hw5))) as Hd0.
      eapply always_weaken, always_mono, Hd0; [by intros w []|]. intros code w6 [[-> Hd] Hon].
      eapply (closing_admin_spec _ _ _ (fun w => drained w /\ MServing ∈ l_marks w)); [|done|].
      + intros x y [Hx Hy] Hc. split; [by eapply drained_stable|]. by apply (sc_marks _ _ Hc).
      + intros w7 [Hw7 Hs7]. split; [apply Hw7|]. by right.
    - destruct Hw5 as [K1 K2 K3 K4 K5 (K6 & _) K7]. by split. }
  destruct admin as [a|]; [|done]. apply (call_spec (serving ln (Some a) has_log None)); [apply serving_stable|done|]. intros w3 r3 w4 Hw3 ->. by split; [apply Hw3|].
Qed.

(** *** Starting *)

Lemma starting_note opened m w : starting opened w -> m = MBuilt \/ m = MLog \/ m = MTls \/ m = MConfined -> starting opened (note m w).
Proof.
  intros [[J1 J2 J3 J4 J5 J6] K2 K3 K4 K5] Hm. assert (forall m', m' ∈ l_marks (note m w) -> m' = MBuilt \/ m' = MLog \/ m' = MTls \/ m' = MConfined \/ m' = MOverdue) as Hall
    by (intros m'; rewrite elem_note; intros [->|Hin]; [naive_solver|by apply K5]).
  constructor; try done. constructor; try (intros Hx; apply Hall in Hx; naive_solver); cbn; [lia|intros k; congruence].
Qed.
Lemma starting_open opened s w : starting opened w -> starting s (with_open s w).
Proof.
  intros [[J1 J2 J3 J4 J5 J6] K2 K3 K4 K5 K6]. constructor; try done. constructor; try done. intros Hs. apply K5 in Hs. naive_solver.
Qed.
Lemma starting_named opened l w : starting opened w -> starting opened (with_named l w).
Proof.
  intros [[J1 J2 J3 J4 J5 J6] K2 K3 K4 K5 K6]. constructor; try done. constructor; try done. intros Hs. apply K5 in Hs. naive_solver.
Qed.

(** A startup that failed, and left nothing open. *)
Definition gave_up (r : option Z) (w : life) : Prop := r = Some 1 /\ starting ∅ w.
Definition finished (r : option Z) (w : life) : Prop := gave_up r w \/ ended r w.
Definition built (has_log : bool) (w : life) : Prop := MBuilt ∈ l_marks w /\ (MLog ∈ l_marks w <-> has_log = true).

Definition at_stage (opened : gset Z) (has_log : bool) (w : life) : Prop := starting opened w /\ built has_log w.
Lemma at_stage_stable opened has_log : stable (at_stage opened has_log).
Proof.
  intros x y (X1 & X2 & X3) Hxy. split; [by eapply starting_stable|]. unfold built. by rewrite !(sc_marks _ _ Hxy) by done.
Qed.

Lemma close_opened ln opened opened' has_log w : at_stage opened has_log w -> opened' = opened ∖ {[ln]} ->
  always (fun _ w' => at_stage opened' has_log w') (call (CloseListener ln)) w.
Proof.
  intros Hw ->. eapply call_spec; [apply at_stage_stable|done|]. intros w1 r w2 [Hw1 Hb] ->. rewrite (sg_open _ _ Hw1).
  pose proof (starting_open _ (opened ∖ {[ln]}) _ Hw1) as Hs. split; [apply Hs|]. by split.
Qed.

Lemma listeners_spec cfg has_log w : at_stage ∅ has_log w ->
  always (fun r w' => match r with
                      | Err _ => at_stage ∅ has_log w'
                      | Ok lns => at_stage (list_to_set (lns.1 :: others_of lns.2)) has_log w'
                      end) (listeners cfg) w.
Proof.
  intros Hw. unfold listeners. eapply then_spec; [apply at_stage_stable|done|]. intros w1 r w2 [Hw1 Hb] Hr. destruct r as [ln|]; cbn in Hr; [|subst w2; split; [apply Hw1|by split]].
  destruct Hr as [Hn ->]. rewrite (sg_open _ _ Hw1), union_empty_r_L. pose proof (starting_open _ {[ln]} _ Hw1) as Hs. split; [apply Hs|].
  assert (at_stage {[ln]} has_log (with_open {[ln]} w1)) as Hw2 by (by split). revert Hw2. generalize (with_open {[ln]} w1). clear dependent w1. intros w2 Hw2.
  destruct (String.eqb (st_admin cfg) ""); [cbn; by rewrite union_empty_r_L|]. eapply then_spec; [apply at_stage_stable|done|]. intros w1 r w3 [Hw1 Hb] Hr. destruct r as [a|]; cbn in Hr.
  - destruct Hr as [Hn ->]. rewrite (sg_open _ _ Hw1). pose proof (starting_open _ ({[a]} ∪ {[ln]}) _ Hw1) as Hs. split; [apply Hs|].
    cbn. replace ({[ln]} ∪ ({[a]} ∪ ∅) : gset Z) with ({[a]} ∪ {[ln]} : gset Z) by set_solver. by split.
  - subst w3. split; [apply Hw1|]. apply always_bind. eapply always_mono, close_opened; [|by split|reflexivity]. intros x w3 Hw3. cbn beta in Hw3. by rewrite difference_diag_L in Hw3.
Qed.

(** The rest, once the listeners are bound. *)
Lemma confine_spec lns has_log n w : at_stage (list_to_set (lns.1 :: others_of lns.2)) has_log w ->
  always finished
    (let! r := call (ApplySandbox (lns.1 :: match lns.2 with Some a => [a] | None => [] end)) in
     match r with
     | Err _ =>
         let! _ := call (CloseListener lns.1) in
         let! _ := (match lns.2 with Some a => call (CloseListener a) | None => Ret tt end : sprog unit) in
         Ret (Some 1)
     | Ok _ => running lns.1 lns.2 has_log n
     end) w.
Proof.
  intros Hw. eapply then_spec; [apply at_stage_stable|done|]. destruct lns as [ln admin]. cbn [fst snd] in *. fold (others_of admin). intros w1 r w2 [Hw1 [Hb Hl]] ->. destruct r as [[]|]; cbn [is_ok].
  - pose proof (starting_note _ MConfined _ (starting_named _ (ln :: others_of admin) _ Hw1) ltac:(auto)) as Hs. split; [apply Hs|].
    eapply always_mono, (running_spec ln admin has_log _ n _ Hs); [by right|rewrite elem_note; by right|rewrite elem_note; by left|rewrite elem_note; cbn; rewrite <- Hl; naive_solver|done|].
    intros fd. rewrite elem_of_list_to_set. done.
  - split; [apply Hw1|]. apply always_bind. eapply always_mono, close_opened; [|by split|reflexivity]. intros x w3 Hw3. cbn beta in Hw3. clear x. apply always_bind.
    destruct admin as [a|].
    + eapply always_mono, close_opened; [|done|reflexivity]. intros x w4 Hw4. cbn beta in Hw4. left. split; [done|]. destruct Hw4 as [Hw4 _].
      replace (∅ : gset Z) with (list_to_set (ln :: others_of (Some a)) ∖ {[ln]} ∖ {[a]} : gset Z) by (cbn; set_solver). done.
    + left. split; [done|]. destruct Hw3 as [Hw3 _]. replace (∅ : gset Z) with (list_to_set (ln :: others_of None) ∖ {[ln]} : gset Z) by (cbn; set_solver). done.
Qed.

Lemma started_spec cfg d n w : at_stage ∅ (pt_log d) w ->
  always finished
    (let! r := listeners cfg in
     match r with
     | Err _ => Ret (Some 1)
     | Ok lns =>
         let! _ := (if pt_tls d then call WrapTLS else Ret tt : sprog unit) in
         let! r := call (ApplySandbox (lns.1 :: match lns.2 with Some a => [a] | None => [] end)) in
         match r with
         | Err _ =>
             let! _ := call (CloseListener lns.1) in
             let! _ := (match lns.2 with Some a => call (CloseListener a) | None => Ret tt end : sprog unit) in
             Ret (Some 1)
         | Ok _ => running lns.1 lns.2 (pt_log d) n
         end
     end) w.
Proof.
  intros Hw. apply always_bind. eapply always_mono, listeners_spec, Hw. intros [lns|] w1 Hw1; [|left; split; [done|apply Hw1]].
  apply always_bind. apply (always_mono _ _ _ _ (fun _ w => at_stage (list_to_set (lns.1 :: others_of lns.2)) (pt_log d) w)).
  { intros x w2 Hw2. by apply confine_spec. }
  destruct (pt_tls d); [|done]. eapply call_spec; [apply at_stage_stable|done|]. intros w2 r w3 [Hw2 [Hb Hl]] ->.
  pose proof (starting_note _ MTls _ Hw2 ltac:(auto)) as Hs. split; [apply Hs|]. split; [done|]. unfold built. rewrite !elem_note. split; [by right|]. rewrite <- Hl. naive_solver.
Qed.

Lemma born_starting : starting ∅ born.
Proof.
  assert (forall m, m ∉ l_marks born) as Hno by (intros m; apply not_elem_of_empty).
  constructor; [|done|done|done|intros m Hm; by apply Hno in Hm|done]. constructor; try (intros Hm; by apply Hno in Hm); [cbn; lia|done].
Qed.

Definition unbuilt (w : life) : Prop := starting ∅ w /\ MLog ∉ l_marks w.
Lemma unbuilt_stable : stable unbuilt.
Proof. intros x y [X1 X2] Hxy. split; [by eapply starting_stable|]. by rewrite (sc_marks _ _ Hxy). Qed.

Lemma serve_spec n : always finished (serveCmd n) born.
Proof.
  unfold serveCmd. assert (forall w, starting ∅ w -> finished (Some 1) w) as Hfail by (intros w Hw; by left).
  eapply then_spec; [apply unbuilt_stable|split; [apply born_starting|done]|]. intros w1 [cfg|] w2 [Hw1 Hl1] ->; (split; [apply Hw1|]); [|by apply Hfail].
  eapply then_spec; [apply unbuilt_stable|by split|]. intros w3 [[]|] w4 [Hw3 Hl3] ->; (split; [apply Hw3|]); [|by apply Hfail].
  eapply then_spec; [apply unbuilt_stable|by split|]. intros w5 [d|] w6 [Hw5 Hl5] ->; [|split; [apply Hw5|by apply Hfail]].
  assert (starting ∅ (note MBuilt (if pt_log d then note MLog w5 else w5))) as Hs by (apply starting_note; [destruct (pt_log d); [by apply starting_note; auto|done]|auto]).
  split; [apply Hs|]. apply started_spec. split; [done|]. unfold built. rewrite !elem_note. split; [by left|].
  destruct (pt_log d); rewrite ?elem_note; split; try done; [intros _; auto|intros [?|?]; done].
Qed.

(** C12: The daemon's life is in order, from every start to every exit.
    Whatever fails, whenever signals come, and however requests come and go:
    a handler runs only once the configuration was loaded, the daemon built
    and the sandbox decided on, with every open listener named to it; the log
    is closed only when draining and after the shutdown has returned, and no
    handler is then running unless the grace period ran out or a second
    signal severed them.  The command ends in one of three ways: with exit 1
    when startup fails, having served nothing, with no listener left open;
    when the server stops by itself, at once, with exit 0 if that was expected
    and 1 if not, the log left unflushed; and on a first SIGINT or SIGTERM
    received while serving always, and only then, after draining, with exit 0,
    the shutdown returned, the listener closed and the log, if there is one,
    closed.  While it goes on it has been told neither. *)
Theorem serve_lifecycle n q w (Hrun : rtc (Prog.step around sbehaves) (serveCmd n, born) (q, w)) :
  ((0 < l_handlers w)%nat -> MBuilt ∈ l_marks w /\ MConfined ∈ l_marks w /\ forall fd, fd ∈ l_open w -> fd ∈ l_named w) /\
  (forall k, l_flushed w = Some k -> MDraining ∈ l_marks w /\ MReturned ∈ l_marks w /\ (MOverdue ∉ l_marks w -> MSevered ∉ l_marks w -> k = 0%nat)) /\
  forall r, q = Ret r ->
    match l_told w with
    | None =>
        (r = Some 1 /\ MServing ∉ l_marks w /\ l_handlers w = 0%nat /\ l_open w = ∅) \/
        (r = None /\ MServing ∈ l_marks w /\ MDraining ∉ l_marks w)
    | Some (Stopped expected) =>
        r = Some (if expected then 0 else 1) /\ MServing ∈ l_marks w /\ MDraining ∉ l_marks w /\ l_flushed w = None
    | Some (Received s) =>
        s <> SIGHUP /\ r = Some 0 /\ MServing ∈ l_marks w /\ MDraining ∈ l_marks w /\ MReturned ∈ l_marks w /\
        (forall ln, head (l_named w) = Some ln -> ln ∉ l_open w) /\ (is_Some (l_flushed w) <-> MLog ∈ l_marks w)
    | Some Tick => False
    end.
Proof.
  destruct (always_adequate _ _ _ _ _ _ _ _ (serve_spec n) (sg_inv _ _ born_starting) Hrun) as [[H1 H2 H3 H4 H5 H6] Hq]. split; [auto|]. split.
  { intros k Hk. destruct (H6 k Hk) as (Hr & _ & Hz). split; [by apply H4, H5|]. by split. }
  intros r ->. cbn in Hq. destruct Hq as [[-> [J1 J2 J3 J4 J5 J6]]|Hq].
  - rewrite J6. left. split; [done|]. split; [|by split]. intros Hs. apply J5 in Hs. naive_solver.
  - destruct r as [code|]; cbn [ended] in Hq; [|destruct Hq as (Hq1 & Hq2 & ->); by right].
    destruct Hq as [(K1 & K2 & (x & -> & ->) & K4)|(-> & K0 & K1 & (sg & -> & Hsg) & K2 & K3 & K4 & K5)]; [done|]. by split_and!.
Qed.

(** ** Computed lives *)

Module LifeDemo.
Definition cfg : settings := mkSettings (Config.mkLogging "json" "info") (Config.mkListen "tcp" "127.0.0.1:8080" "") "/run/m/admin.sock".
(** Everything succeeds; the first selection finds a SIGTERM. *)
Definition ssys (o : sop) (w : life) : sans o * life :=
  match o return sans o * life with
  | LoadConfig => (Ok cfg, w)
  | NewLogger _ => (Ok tt, w)
  | BuildDaemon => (Ok (mkParts false true), note MBuilt (note MLog w))
  | Listen _ => let fd := 3 + maximum (elements (l_open w)) in (Ok fd, with_open ({[fd]} ∪ l_open w) w)
  | WrapTLS => (tt, note MTls w)
  | ApplySandbox lns => (Ok tt, note MConfined (with_named lns w))
  | StartServe _ => (tt, note MServing w)
  | SetReady => (tt, note MReady w)
  | Select => (Received SIGTERM, told (Received SIGTERM) w)
  | BeginDraining => (tt, note MDraining w)
  | StartShutdown => (tt, note MShut w)
  | AwaitShutdown => if decide (l_handlers w = 0%nat \/ MOverdue ∈ l_marks w) then (None, note MReturned w) else (Some SIGINT, w)
  | ForceClose => (tt, note MSevered w)
  | AwaitEnd => (tt, note MReturned w)
  | CloseListener ln => (tt, with_open (l_open w ∖ {[ln]}) w)
  | CloseLog => (tt, flushed w)
  | StartAdmin _ | RefreshUsers _ | CloseAdmin => (tt, w)
  end.
(** Somebody else: a handler that never ends, a grace period that does. *)
Definition others (w : life) : life :=
  if decide (MShut ∈ l_marks w) then note MOverdue w
  else if decide (MServing ∈ l_marks w /\ l_handlers w = 0%nat) then with_handlers 1 w else w.

Lemma ssys_ok o w : sbehaves o w (ssys o w).1 (ssys o w).2.
Proof.
  destruct o; cbn; try done.
  - split; [|done]. intros Hin. assert (3 + maximum (elements (l_open w)) ∈ elements (l_open w)) as He by (by apply elem_of_elements).
    apply maximum_le in He. lia.
  - by case_decide as Hd.
Qed.
Lemma others_ok w : around w (others w).
Proof.
  unfold others. case_decide as H1; [apply rtc_once; by constructor|]. case_decide as H2; [|done].
  destruct H2 as [H2 E]. apply rtc_once. rewrite <- E. by constructor.
Qed.
Definition life_of (n : nat) : option Z * life := Prog.run ssys ssys others [] (serveCmd n) born.
Lemma life_runs n : rtc (Prog.step around sbehaves) (serveCmd n, born) (Ret (life_of n).1, (life_of n).2).
Proof. exact (Prog.run_executes around sbehaves ssys ssys others others_ok ssys_ok ssys_ok (serveCmd n) [] born). Qed.

(** When the grace period runs out, the log is closed while a handler still
    runs, and nothing has cancelled it: what it settles later is not logged. *)
Example deadline_leaves_handlers :
  let w := (life_of 1).2 in ((life_of 1).1, l_flushed w, bool_decide (MSevered ∈ l_marks w), elements (l_open w)) = (Some 0, Some 1%nat, false, [6]).
Proof. vm_compute. reflexivity. Qed.
End LifeDemo.

Lemma serve_lifecycle_witness :
  (0 < l_handlers (LifeDemo.life_of 1).2)%nat /\ MConfined ∈ l_marks (LifeDemo.life_of 1).2 /\
  (forall fd, fd ∈ l_open (LifeDemo.life_of 1).2 -> fd ∈ l_named (LifeDemo.life_of 1).2) /\ is_Some (l_flushed (LifeDemo.life_of 1).2).
Proof.
  assert (l_handlers (LifeDemo.life_of 1).2 = 1%nat) as E by (vm_compute; reflexivity).
  assert (l_told (LifeDemo.life_of 1).2 = Some (Received SIGTERM)) as Et by (vm_compute; reflexivity).
  assert (bool_decide (MLog ∈ l_marks (LifeDemo.life_of 1).2) = true) as El by (vm_compute; reflexivity). apply bool_decide_eq_true in El.
  destruct (serve_lifecycle 1 _ _ (LifeDemo.life_runs 1)) as (H & _ & Hr). specialize (Hr _ eq_refl). rewrite Et in Hr. rewrite E in H. destruct H as (_ & Hc & Ho); [lia|].
  split; [rewrite E; lia|]. split; [exact Hc|]. split; [exact Ho|]. destruct Hr as (_ & _ & _ & _ & _ & _ & Hl). apply Hl. exact El.
Defined.
