(* ===== verification/Build.v ===== *)
(** * Assembling the daemon: [buildDaemon] of [cmd/mellomting/serve.go]

    The parts of the other files put together as the daemon puts them
    together: the key store, the egress policy, the backend clients, the
    router, the quota replayed from the log, the proxy and the HTTP API. The
    operating system is that of [Host.v]; the system's trust store, the check
    of a key pair by [crypto/tls] and the accounting file are parameters. *)

From Stdlib Require Import Ascii QArith.
From S2P Require Import Prelude Float64 GoStrings Net Crypto Config ConfigFacts Auth Limiter Routing Backend Affinity Budget Accounting Writer Proxy Paths Prog Host Replace Keys Daemon Clients Ingress.
#[local] Open Scope Z_scope.

(** ** Static TLS *)

Inductive tls_error := TCert (e : read_error) | TKey (e : read_error) | TPair.

(** The certificate is public; the key is a secret file. *)
(* src: internal/tlsconfig/tls.go Files *)
Definition Files (key_pair : string -> string -> bool) (certFile keyFile : string) : prog (result tls_error unit) :=
  let! r := ReadPublic certFile 1048576 in
  match r with
  | Err e => Ret (Err (TCert e))
  | Ok cert =>
      let! r := Read keyFile 1048576 in
      Ret (match r with Err e => Err (TKey e) | Ok key => if key_pair cert key then Ok tt else Err TPair end)
  end.

(** ** The proxy *)

(** What [proxy.New] makes of the configuration, besides what it is given. *)
Record relay := mkRelay { rl_proxy : proxy; rl_budget : budget }.

(* src: internal/proxy/proxy.go New *)
Definition New_proxy {F : Type} (cfg : Config (F := F)) (router : Router) (clients : gmap string client) (quota : Quota) (acc : bool) : option relay :=
  if (size clients =? 0)%nat then None
  else
    let total := wrap64 (MaxBufferedRequestBytes (c_Server cfg) * MaxInflightRequests (c_Server cfg)) in
    Some (mkRelay (mkProxy router (newAffinity (AffinityTTL (c_Responses cfg)) (MaxAffinityEntries (c_Responses cfg))) (Some quota) acc)
                  (newBudget (if total <=? 0 then 1048576 else total))).

Section Build.
Context {F : Type} `{Float64 F}.
Variable yaml_stream : string -> list (option Config.ynode).
Variable yaml_decode : Config.ynode -> option (UsersFile F).
Variable url_parse : string -> option URL.
Variable key_pair : string -> string -> bool.

(** What the rest of the world gives: the trust store, the accounting log as
    it is opened for appending, its text as it is replayed ([None] when it
    cannot be read), the time. *)
Record surroundings := mkSurroundings { su_roots : bool; su_log : option string; su_replay : option (option string); su_now : time }.

Inductive build_error :=
| BUsers (e : startup_error) | BPolicy (e : policy_error) | BRoots | BTls (e : tls_error)
| BClients (e : string * client_error) | BRouting (e : Routing.new_error) | BLog (e : Writer.new_error) | BReplay | BProxy | BPanic.

(* src: cmd/mellomting/serve.go 802-802 buildDaemon *)
Record assembled := mkAssembled {
  as_daemon : daemon (F := F); as_relay : relay; as_server : server (F := F); as_clients : gmap string client; as_pools : list Admission;
  as_log : option Writer; as_tls : bool; as_live : bool
}.

Definition replays (cfg : Config (F := F)) : bool := match ReplayOnStart (c_Accounting cfg) with Some b => b | None => false end.

(** The quota and the writer; the flag says that the log is still open. *)
(* src: cmd/mellomting/serve.go 751-779 buildDaemon *)
Definition open_accounting (cfg : Config (F := F)) (su : surroundings) : result build_error (Quota * option Writer) :=
  let acc := c_Accounting cfg in
  if negb (acc_Enabled acc) then Ok (NewQuota, None)
  else
    match NewWriter (mkWriterConfig (acc_QueueSize acc) (FSync acc) (Config.FSyncInterval acc) (Config.Overflow acc)) (su_log su) with
    | Err e => Err (BLog e)
    | Ok w =>
        if replays cfg then
          match su_replay su with
          | None => Err BReplay
          | Some text => Ok (Replay NewQuota text (ReplayMaxBytes acc) (su_now su), Some w)
          end
        else Ok (NewQuota, Some w)
    end.

(** The part that reads no file.  An error comes with whether the accounting
    log was left open. *)
(* src: cmd/mellomting/serve.go 732-802 buildDaemon *)
Definition assemble (cfg : Config (F := F)) (su : surroundings) (d : daemon (F := F)) (tls : bool) (x : gmap string client * list Admission) : result (build_error * bool) assembled :=
  match Routing.New cfg with
  | Err e => Err (BRouting e, false)
  | Ok router =>
      match open_accounting cfg su with
      | Err e => Err (e, false)
      | Ok (quota, w) =>
          match New_proxy cfg router x.1 quota (bool_decide (is_Some w)) with
          | None => Err (BProxy, bool_decide (is_Some w))
          | Some rl =>
              match Ingress.New cfg (su_now su) (d_store d) router with
              | None => Err (BPanic, bool_decide (is_Some w))
              | Some sv => Ok (mkAssembled d rl sv x.1 x.2 w tls (negb (String.eqb (AdminSocket (c_Server cfg)) "")))
              end
          end
      end
  end.

(* src: cmd/mellomting/serve.go 715-719 buildDaemon *)
Definition load_tls (cfg : Config (F := F)) : prog (result tls_error bool) :=
  let t := s_TLS (c_Server cfg) in
  if TLSConfigured t then let! r := Files key_pair (CertFile t) (KeyFile t) in Ret (match r with Err e => Err e | Ok _ => Ok true end)
  else Ret (Ok false).

(** [l] is the backends in the order the map yields them. *)
(* src: cmd/mellomting/serve.go buildDaemon *)
Definition buildDaemon (cfg : Config (F := F)) (su : surroundings) (l : list (string * Config.Backend)) : prog (result (build_error * bool) assembled) :=
  let! r := start_users yaml_stream yaml_decode cfg in
  match r with
  | Err e => Ret (Err (BUsers e, false))
  | Ok d =>
      match PolicyFromConfig (sec_BackendNetwork (c_Security cfg)) with
      | Err e => Ret (Err (BPolicy e, false))
      | Ok policy =>
          if negb (su_roots su) then Ret (Err (BRoots, false))
          else
            let! r := load_tls cfg in
            match r with
            | Err e => Ret (Err (BTls e, false))
            | Ok tls =>
                let! r := newBackendClients url_parse cfg policy l in
                Ret (match r with Err e => Err (BClients e, false) | Ok x => assemble cfg su d tls x end)
            end
      end
  end.
End Build.

(** ** What a daemon that starts is made of *)

Section Wellformed.
Context {F : Type} `{Float64 F}.
Variable yaml_stream : string -> list (option Config.ynode).
Variable yaml_decode : Config.ynode -> option (UsersFile F).
Variable url_parse : string -> option URL.
Variable key_pair : string -> string -> bool.
(** One is more than zero, as in both instances. *)
Hypothesis one_positive : f_leb (f_of_Z 1) (f_of_Z 0) = false.
Implicit Types (cfg : Config (F := F)).
Notation buildDaemon := (buildDaemon yaml_stream yaml_decode url_parse key_pair).
Notation acceptable := (acceptable yaml_stream yaml_decode).

Lemma start_users_returns cfg : returns (fun r => match r with Ok d => acceptable cfg (d_pepper d) (d_store d) | Err _ => True end) (start_users yaml_stream yaml_decode cfg).
Proof.
  apply returns_bind. eapply returns_mono, returns_any. intros [pepper|] _; [|done].
  apply returns_bind. eapply returns_mono, returns_any. intros [w [data|e]] _; [|done]. cbn [snd fst].
  apply returns_bind. eapply returns_mono, parseStore_returns. by intros [s|e] Hs.
Qed.

Lemma network_cidrs_parse l : Forall (fun c => is_Some (ParseCIDR c)) l -> exists ns, parse_cidrs l = Ok ns /\ length ns = length l.
Proof. induction 1 as [|c l [n Hn] _ (ns & IH & Hl)]; [by exists []|]. cbn. rewrite Hn, IH. exists (n :: ns). cbn. by rewrite Hl. Qed.

Lemma policy_ok cfg : config_ok url_parse cfg -> exists p, PolicyFromConfig (sec_BackendNetwork (c_Security cfg)) = Ok p.
Proof.
  intros Hok. destruct (co_network _ _ Hok) as (Hm & Hc & Hiff). destruct (network_cidrs_parse _ Hc) as (ns & Hns & Hl).
  unfold PolicyFromConfig, parsePolicy. rewrite Hns. cbn [pol_Mode pol_CIDRs]. rewrite !elem_of_cons, elem_of_nil in Hm.
  destruct Hm as [E|[E|[E|[]]]]; rewrite E in *; [by eexists..|]. destruct ns; [|by eexists]. destruct Hiff as [Hne _]. specialize (Hne eq_refl).
  destruct (bn_CIDRs _); [done|]. cbn in Hl. lia.
Qed.

Lemma api_ok cfg now store router : config_ok url_parse cfg -> is_Some (Ingress.New cfg now store router).
Proof.
  intros Hok. destruct (co_limits _ _ Hok) as (H1 & H2 & H3 & H4). unfold Ingress.New.
  rewrite H1, (proj2 (Z.ltb_ge _ _)) by lia. rewrite H3, (proj2 (Z.ltb_ge _ _)) by lia. cbn [orb]. unfold NewBucket, NewSourceRegistry. rewrite H1, H3.
  destruct (f_leb (AuthFailureLogRate (c_Limits cfg)) (f_of_Z 0)) eqn:E; rewrite ?one_positive, ?E; by eexists.
Qed.

(** Nothing of the daemon is missing. *)
Record wellformed cfg (su : surroundings) (a : assembled (F := F)) : Prop := {
  wf_store : acceptable cfg (d_pepper (as_daemon a)) (d_store (as_daemon a));
  wf_clients : forall name, is_Some (as_clients a !! name) <-> is_Some (Backends cfg !! name);
  wf_models : forall m, models (px_router (rl_proxy (as_relay a))) !! m = entry_of cfg <$> c_Models cfg !! m;
  wf_replicas : forall m e rep, models (px_router (rl_proxy (as_relay a))) !! m = Some e -> rep ∈ replicas e ->
    exists c p, as_clients a !! r_name rep = Some c /\ cl_upstream c = r_upstream rep /\ cl_upstream c <> "" /\ as_pools a !! cl_pool c = Some p;
  wf_quota : px_quota (rl_proxy (as_relay a)) =
    Some (match as_log a, su_replay su with
          | Some _, Some text => if replays cfg then Replay NewQuota text (ReplayMaxBytes (c_Accounting cfg)) (su_now su) else NewQuota
          | _, _ => NewQuota
          end);
  wf_log : px_acc (rl_proxy (as_relay a)) = acc_Enabled (c_Accounting cfg) /\ (is_Some (as_log a) <-> acc_Enabled (c_Accounting cfg) = true);
  wf_budget : 0 < b_total (rl_budget (as_relay a));
  wf_tls : as_tls a = TLSConfigured (s_TLS (c_Server cfg))
}.

(** What can keep a daemon with a valid configuration from starting. *)
Definition startup_failure cfg (e : build_error) : Prop :=
  match e with
  | BUsers _ | BRoots => True
  | BTls _ => TLSConfigured (s_TLS (c_Server cfg)) = true
  | BClients e => is_Some (Backends cfg !! e.1)
  | BLog _ | BReplay => acc_Enabled (c_Accounting cfg) = true
  | BPolicy _ | BRouting _ | BProxy | BPanic => False
  end.

Definition starts cfg su (r : result (build_error * bool) (assembled (F := F))) : Prop :=
  match r with Ok a => wellformed cfg su a | Err e => startup_failure cfg e.1 /\ e.2 = false end.

Lemma accounting_spec cfg su : match open_accounting cfg su with
  | Ok (q, w) => (is_Some w <-> acc_Enabled (c_Accounting cfg) = true) /\
      q = match w, su_replay su with Some _, Some text => if replays cfg then Replay NewQuota text (ReplayMaxBytes (c_Accounting cfg)) (su_now su) else NewQuota | _, _ => NewQuota end
  | Err e => startup_failure cfg e
  end.
Proof.
  unfold open_accounting. destruct (acc_Enabled (c_Accounting cfg)) eqn:E; cbn [negb]; [|split; [split; [by intros []|done]|done]].
  destruct (NewWriter _ _) as [w|e]; [|done]. destruct (replays cfg); [destruct (su_replay su) as [t|]; [|done]|]; (split; [split; [done|by eexists]|]); [done|by destruct (su_replay su)].
Qed.

(** A client has a secret if and only if its backend has a key file. *)
Definition has_secret (path key : string) : Prop := key = "" <-> path = "".

Lemma assemble_spec cfg su d network l pools clients adms : config_ok url_parse cfg -> built url_parse has_secret network cfg l clients pools adms -> l ≡ₚ map_to_list (Backends cfg) ->
  acceptable cfg (d_pepper d) (d_store d) -> starts cfg su (assemble cfg su d (TLSConfigured (s_TLS (c_Server cfg))) (clients, adms)).
Proof.
  intros Hok [Bd Bc _ _] Hl Ha. assert (forall name b, (name, b) ∈ l <-> Backends cfg !! name = Some b) as Hin by (intros name b; by rewrite Hl, elem_of_map_to_list).
  destruct (New_ok url_parse cfg Hok) as (router & Er & _ & Hm & _). unfold assemble. rewrite Er.
  pose proof (accounting_spec cfg su) as Hacc. destruct (open_accounting cfg su) as [[q w]|e]; [|by split].
  destruct Hacc as [Hw Hq]. cbn [fst snd]. unfold New_proxy.
  assert (forall name, is_Some (clients !! name) <-> is_Some (Backends cfg !! name)) as Hdom.
  { intros name. rewrite Bd, list_elem_of_fmap. split; [intros ([n b] & -> & Hb); exists b; by apply Hin|intros [b Hb]; exists (name, b); by rewrite Hin]. }
  rewrite (proj2 (Nat.eqb_neq _ _)).
  2:{ rewrite map_size_empty_iff. intros ->. destruct (co_backends _ _ Hok) as [Hne _]. destruct (map_choose _ Hne) as (n & b & Hb).
      destruct (proj2 (Hdom n)) as [c Hc]; [by eexists|]. by rewrite lookup_empty in Hc. }
  destruct (api_ok cfg (su_now su) (d_store d) router Hok) as [sv ->]. constructor; cbn; try done.
  - intros m e rep He Hrep. rewrite Hm in He. apply fmap_Some in He as (mo & Hmo & ->). cbn in Hrep. apply list_elem_of_fmap in Hrep as (ref & -> & Href).
    destruct (co_models _ _ Hok) as [_ Hmods]. destruct (Hmods _ _ Hmo) as [_ _ _ _ _ Hk _ _]. rewrite Forall_forall in Hk. destruct (Hk _ Href) as (_ & [b Hb] & _).
    destruct (Bc (ref_Name ref) b) as (c & Hc & Hco); [by apply Hin|]. destruct Hco as (_ & Hu & _ & _ & _ & _ & _ & Hp & _).
    exists c, (NewAdmission b). unfold replica_of. cbn. rewrite Hb. split; [done|]. split; [done|]. split; [|done]. rewrite Hu.
    destruct (co_backends _ _ Hok) as [_ Hbs]. by destruct (Hbs _ _ Hb).
  - by rewrite Hq.
  - split; [|done]. destruct (acc_Enabled _); [by apply bool_decide_eq_true, Hw|]. apply bool_decide_eq_false. intros C%Hw. done.
  - destruct (Z.leb_spec (wrap64 (MaxBufferedRequestBytes (c_Server cfg) * MaxInflightRequests (c_Server cfg))) 0); lia.
Qed.

Lemma load_tls_returns cfg : returns (fun r => match r with Ok b => b = TLSConfigured (s_TLS (c_Server cfg)) | Err _ => TLSConfigured (s_TLS (c_Server cfg)) = true end)
  (load_tls key_pair cfg).
Proof. unfold load_tls. destruct (TLSConfigured (s_TLS (c_Server cfg))); [|done]. apply returns_bind. eapply returns_mono, returns_any. by intros []. Qed.

(** C16: A daemon that starts is complete.  From a configuration that loaded,
    in whatever order the map yields the backends and whatever the files
    hold: either the daemon is built, and then its keys are those of a users
    file it may serve, there is a client with an admission pool for every
    backend and no other, every model of the configuration is routed, every
    replica a request can be routed to has a client that sends it under an
    upstream name, the quotas are those replayed from the log (none
    when [replay_on_start] is false), and there is a
    log if and only if accounting is enabled; or it is not, and the reason is
    a file: users, pepper, trust store, certificate, a backend's secret or
    address, or the accounting log, never the policy, the routing table or
    the limits of a configuration that was accepted; and then the log has not
    been left open. *)
Theorem daemon_complete doc cfg0 su l h h' r :
  normalizeSource doc = Ok cfg0 -> let cfg := applyDefaults (F := F) cfg0 in
  validate url_parse cfg = [] -> l ≡ₚ map_to_list (Backends cfg) ->
  rtc step (buildDaemon cfg su l, h) (Ret r, h') -> starts cfg su r.
Proof.
  intros Hn cfg Hv Hl Hr. pose proof (validate_ok url_parse cfg Hv) as Hok.
  enough (Host.always (fun _ => True) (fun r _ => starts cfg su r) (buildDaemon cfg su l) h) as Ha by (by destruct (always_adequate _ _ _ _ _ _ _ _ Ha I Hr)).
  clear Hr h' r. apply always_bind. eapply always_mono, always_returns, start_users_returns. intros [d|e] v Hd; [|done].
  destruct (policy_ok cfg Hok) as [policy ->]. destruct (su_roots su); [|done]. cbn [negb].
  apply always_bind. eapply always_mono, always_returns, (load_tls_returns cfg). intros [tls|e] v1 Ht; [|done]. subst tls. apply always_bind.
  assert (NoDup l.*1) as Hnd by (rewrite Hl; apply NoDup_fst_map_to_list).
  eapply always_mono, (build_spec url_parse has_secret policy interferes (fun _ => True));
    [..|exact (built_empty _ _ _ cfg)|exact (loaded_uniform _ _ _ Hn Hl)|exact Hnd]; [|intros path w _; eapply always_mono, always_returns, apiKey_returns; by split|done].
  intros [[clients adms]|e] v2; [intros [pools Hb]; by eapply assemble_spec|]. intros He. split; [|done]. cbn [fst startup_failure].
  apply list_elem_of_fmap in He as ([n b] & -> & Hb). exists b. rewrite Hl in Hb. by apply elem_of_map_to_list in Hb.
Qed.
End Wellformed.

Module BuildDemo.
(** One key, one model; the log holds an earlier run's record. *)
Definition pepper_path : string := "/etc/m/pepper".
Definition doc : sourceDoc (F := Q) :=
  let d := ConfigDemo.doc in
  mkSourceDoc 1 (d_Server d) (mkAuthCfg KeysDemo.path pepper_path) (d_Security d) (d_Logging d) (mkAccounting true "/var/log/m.jsonl" None None 0 0 "" "" 0 500)
    (d_Limits d) (d_Shutdown d) (d_Responses d) (d_Retry d) (Servers d) (d_Models d).
Definition cfg0 : Config (F := Q) := match normalizeSource doc with Ok c => c | Err _ => ConfigDemo.cfg end.
Definition cfg : Config (F := Q) := applyDefaults cfg0.
Definition host0 : host :=
  let d := <[pepper_path := 8]> (h_names KeysDemo.host0) in
  mkHost d (<[8 := mkNode KFile 384 0 0 (EncodePepper Auth.Demo.pep) true 0]> (h_nodes KeysDemo.host0)) ∅ [d] ∅ 0 ∅.
Definition around (log : option string) : surroundings := mkSurroundings true log (Some log) 1000.
Definition job (log : option string) : prog (result (build_error * bool) (assembled (F := Q))) :=
  buildDaemon KeysDemo.stream KeysDemo.decode ConfigDemo.urls (fun _ _ => true) cfg (around log) (map_to_list (Backends cfg)).
Definition outcome (log : option string) : result (build_error * bool) assembled := (run [] (job log) host0).1.
End BuildDemo.

Lemma daemon_complete_witness :
  exists a, BuildDemo.outcome (Some "") = Ok a /\
    wellformed KeysDemo.stream KeysDemo.decode BuildDemo.cfg (BuildDemo.around (Some "")) a.
Proof.
  assert (Hn : normalizeSource BuildDemo.doc = Ok BuildDemo.cfg0) by (vm_compute; reflexivity).
  assert (Hv : validate ConfigDemo.urls BuildDemo.cfg = []) by (vm_compute; reflexivity).
  assert (Hok : is_ok (BuildDemo.outcome (Some "")) = true) by (vm_compute; reflexivity).
  pose proof (daemon_complete KeysDemo.stream KeysDemo.decode ConfigDemo.urls (fun _ _ => true) eq_refl
    BuildDemo.doc BuildDemo.cfg0 (BuildDemo.around (Some "")) (map_to_list (Backends BuildDemo.cfg)) BuildDemo.host0 _ _ Hn Hv (reflexivity _)
    (host_run_steps (BuildDemo.job (Some "")) [] BuildDemo.host0)) as H.
  unfold BuildDemo.outcome in *. destruct (run [] (BuildDemo.job (Some "")) BuildDemo.host0).1 as [a|e]; [exists a; split; [reflexivity|exact H]|discriminate Hok].
Defined.
